(* ===== verification/_CoqProject ===== *)
-Q . S2P
Prelude.v
Contract.v
Decide.v
ContractFacts.v
Sample.v
ContractProps.v
Storage.v
Coordinator.v
CoordinatorFacts.v
CoordinatorProps.v
CoordinatorRestore.v
Hydration.v
Redaction.v
RedactionProps.v
ResultSize.v
StorageCodec.v
Frame.v
SharedWork.v
SharedWorkProps.v
Deadlines.v
Cancellation.v
Position.v
AddressKinds.v
ModuleRoutes.v
Address.v
AddressFacts.v
AddressProps.v
SourceTarget.v
ReceiptLedger.v
ReceiptStates.v
ReceiptRows.v
ReceiptCatalog.v
ReceiptCatalogFacts.v
ReceiptCatalogProps.v
ReceiptRecords.v
ReceiptStore.v
ReceiptOps.v
ReceiptTerminals.v
ReceiptRecovery.v
ReceiptDisk.v
ReceiptRecoveryProps.v
ReceiptMachine.v
ReceiptHoare.v
ReceiptRuns.v
ReceiptMutations.v
ReceiptReopen.v
ReceiptSafety.v
ReceiptSafetyOps.v
ReceiptTaskSafety.v
ReceiptTaskEnds.v
ReceiptLife.v
ReceiptDurability.v
ReceiptExamples.v
LineDiff.v
EditGraph.v
LineDiffSnake.v
LineDiffProps.v
XmlText.v
XmlTextProps.v
XmlMarkup.v
XmlMarkupProps.v
TextOrder.v
NavCursor.v
SavedPlan.v
Utf8Facts.v
SavedPlanLayout.v
SavedPlanPages.v
Paths.v
SourceLayout.v
ModuleLayout.v
ModuleFiles.v
ModuleProps.v
DocumentOverlay.v
EditorText.v
EditorUri.v
EditorDocuments.v
EditorHost.v
EditorMirror.v
EditorService.v
EditorSessions.v
