(* ===== verification/Prelude.v ===== *)
(** * Unica: a verification development for the execution core

    Unica ([src/crates]) is a Rust service that runs requests of an assistant
    on a 1C workspace.  Its execution core decides, for every invocation, which
    durable facts hold, which rights (to run, to cancel, to publish a result)
    follow from them, and how they survive a crash.  This library models that
    core, the ledger of receipts that keeps what was promised to a client, the
    concurrency and text primitives they stand on, the addresses by which a
    request names a part of a configuration, the source text that an edit
    writes back, the pages in which a saved plan is shown, and the service that
    holds the documents an editor has open.

    ** Parts, and how they interact

    - The execution contract ([unica-execution-contract/src/lib.rs]) is a pure
      state machine: a [State] (the durable [Record], the followers of a shared
      read, the revision) and an [Event] give a [Transition] with the next
      state, the payload change and the [Intent]s.
    - A transition is persisted as an aggregate: the record with its outcome
      bodies ([storage.rs]), cut into raw sections ([storage/codec.rs]) and
      framed in one file ([unica-execution/src/store/codec.rs]).  Result bodies
      are bounded by a counting writer ([result_size.rs]).
    - The coordinator ([unica-execution/src/coordinator.rs] and
      [coordinator/authority.rs]) owns one slot per invocation: it queues
      events, asks the store to commit one candidate at a time, and turns the
      intents of a confirmed transition into permits.  A failed store stops it;
      [restore] rebuilds it from a recovery catalog.
    - Results leave through prepared reads and a delivery choice
      ([coordinator/hydration.rs], [DeliveryChoice]).
    - The receipt ledger ([unica-execution/src/receipt_ledger.rs],
      [receipt_store.rs] with [receipt_store/catalog.rs], [records.rs],
      [validation.rs], [encoding.rs], and [terminal_codec.rs]) keeps one row per
      request: reserved, bound to a workspace, begun, ended by a direct
      terminal and acknowledged, or promised and handed off as a task.  A row
      is a file of the directory [active]; every mutation has a sequence that
      is published in the file [generation]; an in-memory catalog mirrors the
      rows and their byte counts.  Removals and acknowledgements go through a
      witness, so that an opening after a crash can finish them.
    - Text that leaves passes the stream redactor ([unica-redaction/src/lib.rs]).
    - Waiting, sharing and stopping use [unica-work-control]: single-flight
      shared work, deadlines, cancellation tokens.
    - Editors address text by UTF-16 positions ([unica-lsp/src/position.rs]).
    - Requests name metadata by qualified addresses ([unica-address]): kinds
      and their spellings, parsing and printing, module routes, the addresses
      of a source profile.
    - Edits of XML sources keep what they do not touch
      ([unica-xml-format/src/text.rs]): a snapshot of the bytes, the line
      endings of the source, a line diff after Myers that finds which lines
      were kept, escaping, and the search for tags and attributes in raw
      markup.
    - A saved plan holds the bytes of every source before and after it; it is
      shown as windows of changed lines, in pages continued by cursors
      ([unica-navigation/src/plan_diff.rs] and [source_navigation.rs]).
    - A source set keeps metadata and modules in files whose places follow from
      their addresses ([unica-source-designer/src/layout.rs],
      [module_layout.rs]): one table of module families, read in both
      directions.
    - An editor connects as a session ([unica-lsp/src/host.rs]); its documents
      are module bodies, named by space, source set and address ([uri.rs]).
      Each open buffer ([document.rs], [documents.rs]) is mirrored into the
      workspace actor of its space ([unica-workspace/src/documents.rs]), which
      other readers of the session see; an actor that is gone or lost its
      roots is replaced, and the buffers move.

    ** Files

    Execution.
    - [Prelude]: Rust results and options, [u64] arithmetic, the tactics
      [bool_prop], [opt_prop], [break], shared lemmas.
    - [Contract]: the data of the contract, [Record::validate], holders; the
      class [Codec] stands for SHA-256 and [serde_json], [CodecLaws] for what
      the code relies on.  [Decide]: one definition per event of
      [State::decide], [seal] for its common tail.  [ContractFacts]: the
      invariant and its preservation, histories.  [Sample]: concrete codecs and
      states for examples.  [ContractProps]: its theorems.
    - [Storage]: [StoredRecord], [assemble], [RecoveryBuilder].
    - [Coordinator]: slots, claims, [enqueue], [drive], [complete], [restore];
      [CoordinatorFacts]: its invariant; [CoordinatorProps]: its theorems, the
      refinement of the contract among them; [CoordinatorRestore].
    - [Hydration]: prepared reads and delivery.
    - [Redaction], [RedactionProps]: the automaton, and its comparison with a
      policy on whole keys.
    - [ResultSize]: counting writers over [write_all].  [StorageCodec]:
      metadata width, section decoding.  [Frame]: the file frame.
    - [SharedWork], [SharedWorkProps]: single flight as interleaved critical
      sections.  [Deadlines].  [Cancellation]: tokens over a shared heap.
    - [Position]: text positions.

    Addresses.
    - [AddressKinds]: kinds, spellings, XML names.  [ModuleRoutes]: addresses
      as data and the routes of modules.  [Address]: [QualifiedAddress::parse],
      printing, contextual input, members.  [AddressFacts], [AddressProps]: the
      round trip and what a parsed address satisfies.  [SourceTarget]: the
      addresses of a source profile.

    Source text.
    - [LineDiff]: the linear-space line diff ([kept_edited_lines], its slides
      along equal lines, the search of the middle snake).  [EditGraph]: the
      edit graph, the frontier of each diagonal and what a search round knows
      of it; edit scripts as an abstract specification, the shortest script
      and the longest common subsequence.  [LineDiffSnake]:
      the middle snake lies on a shortest script.  [LineDiffProps]: the kept
      lines are the longest possible.
    - [XmlText], [XmlTextProps]: UTF-8, snapshots, lines and line endings,
      escaping, the serialization of edited text.  [XmlMarkup],
      [XmlMarkupProps]: tags, attributes and namespace declarations in raw
      text, each loop as a definition of its round.
    - [TextOrder]: the order of texts, maps in that order.
    - [NavCursor]: cursors, their checksum and their round trip.  [SavedPlan]:
      windows and pages, in a monad of checkpoints and faults.  [Utf8Facts]:
      text by characters, where it can be cut.  [SavedPlanLayout],
      [SavedPlanPages]: the judgement [yields] for that monad, what the
      windows cover, what the pages hold.

    Editor documents.
    - [Paths]: the standard library's paths as this code uses them.
      [SourceLayout]: kinds of metadata, descriptors, attached resources.
      [ModuleLayout]: module files and module addresses, each way, also of
      external source sets and between logical and metadata addresses.
      [ModuleFiles], [ModuleProps]: the table paired with the routes of
      modules; the round trips; the body of a module.
    - [DocumentOverlay]: the buffers of an actor.  [EditorText]: one buffer and
      its change sets, against a reference that edits the text between
      characters.  [EditorUri]: spaces and document addresses; the class
      [UriLibs] stands for percent encoding, lower case and SHA-256, [UriLaws]
      for what is relied on.  [EditorDocuments]: the documents of a session
      ([LspDocuments]); [HostFs] stands for canonical paths.  [EditorHost]: the
      host's operations; a [World] is what the product and the actors answer
      during a step, and a [ModuleSourceRead] a read of the files.
    - [EditorMirror]: a document has a file of its own; each operation keeps
      buffers and mirror together.  [EditorService]: the invariant [host_ok]
      and the replacement of an actor.  [EditorSessions]: notifications as
      edits of texts ([applied], [notified]), the host under any sequence of
      events ([host_event], [host_run]), its theorems.

    Receipts, the model.
    - [ReceiptLedger]: keys, digests, versions, canonical terminals; the class
      [ReceiptCodec] stands for SHA-256, UUID texts and [serde_json].
      [ReceiptStates]: the receipts and states a client sees, each with the
      checks of its constructor.  [ReceiptRows]: the rows as stored and the
      state a row answers with.  [ReceiptCatalog]: the catalog in memory.
      [ReceiptRecords]: builders of rows, their bytes, validation; the class
      [RowCodec] stands for the JSON of a row, [RowCodecLaws] for what is
      relied on: a row reads back as it was written when the results in it
      do ([result_reads_back]; a result whose [data] is a JSON null does not).
    - [ReceiptStore]: the store as a state monad over the files, the
      generation, the catalog and the answers of the environment: every input
      or output may succeed, fail, contradict what is expected, or be the
      point where the process stops.  [ReceiptOps], [ReceiptTerminals]: one
      definition per operation of [ReceiptLedgerStore].  [ReceiptRecovery]: the
      opening of a ledger.

    Receipts, the proofs.
    - [ReceiptLedger], [ReceiptRecords]: their theorems on digests and bytes.
      [ReceiptCatalogFacts], [ReceiptCatalogProps]: counters.
    - [ReceiptMachine]: the abstract machine, steps on a map of rows.
      [ReceiptDisk]: the rows a directory and a generation stand for.
      [ReceiptRecoveryProps]: recovery rebuilds exactly those rows.
      [ReceiptHoare]: triples for the monad and for the shared write
      sequences.  [ReceiptRuns], [ReceiptMutations], [ReceiptReopen]: an
      operation from a ready store makes steps of the machine.
      [ReceiptSafety], [ReceiptSafetyOps], [ReceiptTaskSafety],
      [ReceiptTaskEnds]: the same for every operation.  [ReceiptLife]: any
      sequence of requests, failures, stops and openings ([act], [live]), and
      what the callers owe the store ([caller_keeps]).
      [ReceiptDurability]: an executable codec and the theorems.
      [ReceiptExamples]: runs on the sample codec, witnesses, and five runs
      that go wrong.

    ** What the theorems show

    Contract: the closing validation never fails on reachable states, facts
    are write-once, at most one run is granted and none after a cancellation
    or an outcome, events are idempotent, a retired membership stays stale, a
    live follower protects the producer.  Storage: a recovery catalog is
    sound, a frame reads back exactly when it was written completely, and
    nothing but a frame is accepted.  Coordinator: it refines the contract,
    grants rights only behind confirmed commits, one run permit per
    invocation, fail-stop, completions are consumed once, slots drain.
    Delivery: nothing stale is published.  Redaction: secret values are
    hidden, chunks are invisible, keys are found.  Work control: one producer
    per key, cancellation follows ownership and is ordered with protected
    effects.  Positions: conversions are inverse.  Addresses: parsing
    terminates and gives well-formed addresses, printing and parsing are
    inverse, the addresses of a profile are canonical.  Source text: the
    lines kept by the diff are a longest common subsequence, so that the
    edited text keeps as many line endings of its source as it can; text that
    was not edited comes back byte for byte; normalizing inserted line endings
    changes only what was inserted; a declared namespace is the one the tag
    then has; the attribute search ends on any bytes.  Saved plans: outside
    the windows the two sides agree, so that each side is rebuilt from the
    other and its windows; the pages end and carry every window whole.

    Receipts: from a new ledger, after any sequence of permitted requests
    under any failures, stops and openings, the disk stands for rows that the
    receipt machine reached, and opening it succeeds and finds exactly those
    rows ([ledger_refines_machine]); an opening never changes what a disk
    stands for, whatever fails ([reopen_keeps_contents]); a terminal that was
    answered is still there after any further such life within its retention
    ([published_terminal_survives]), the terminal of a task as long as no
    reclamation comes after its time ([task_terminal_survives]); what a
    reservation answers is what is stored; byte and row counters are exact
    after any operations on the catalog; versions stay small; equal digests
    mean equal keys or a collision of SHA-256; bytes that are accepted as a
    row are the bytes the store writes for it ([read_row_is_written], without
    laws on the codec), and a direct terminal whose result reads back is read
    as it was written.  A permitted request is [well_typed] and satisfies
    [caller_keeps], both hypotheses of the theorems: what the store does not
    check and leaves to its callers.  [ReceiptExamples] shows what happens to
    a ledger outside these duties.

    Editor documents: every module with a route has one file, and the file
    gives its address and its logical name back ([module_file_roundtrip]); the
    descriptors asked for before a read are those the file's identity names
    ([module_descriptors_agree]); a document address reads back as printed and
    spaces do not mix ([document_uri_roundtrip]); a change set makes the edits
    of the reference or none ([document_change_atomic]).  For the host: after
    any opening, notification, request, closing or eviction, the live actors
    hold the open documents and nothing else, and no two documents of a space
    share a file ([actors_mirror_editors]); a notification refines an edit of
    the open texts, or closes its document, and touches no other session
    ([notification_refines_edits]); a request is answered with the editor's
    text ([open_text_answered]).  These theorems take as a hypothesis
    ([all_promised]) what the host does not check and the product promises: a
    new session has a new name, an actor it admits is alive or new, two
    folders of a session have two actors, a source set keeps its kind, and an
    actor admitted again keeps its source sets.  [shared_actor_refuses] and
    [lost_set_keeps_text] are runs of the host without the third promise and
    without the last.

    ** Conventions

    A [u64] or [usize] is a [Z] with its bounds and overflow written out
    ([usize] has 64 bits); a digest of the contract is a 256-bit number, one
    of a receipt is its text; a [char] is its code point; a [HashMap] is a
    [gmap], and where the code depends on iteration order the order is an
    argument ([restore]) or sorted as the code sorts it ([sort_digests]).
    [Result] is [result], the [?] operator is the notation [let?].  Panics of
    the source are outside the model unless a definition says otherwise; in
    the receipt store they are an outcome of their own.  Concurrent components
    are step functions over explicit program points, one step per critical
    section or atomic access; theorems quantify over all interleavings.  The
    receipt store runs under one writer lock, so its operations are sequences;
    the operations of an editor's session run under the session's lock, and
    what two sessions do to one actor touches keys of their own, so that each
    operation is one step of the host.

    Fuel appears in [write_all] (the standard library's retry loop;
    [canonical_result_size_exact] proves that one call per buffer is enough),
    in [next_boundary] (bounded by the length of the text, its specification
    is proved for that bound), in the confirmation loop of [slot_drains] (one
    per queued event and one more), in the address parser (the length of the
    input; [parse_terminates] proves that more changes nothing), in the
    decimal digits of a [u64] (twenty), in the line diff (the sum of the
    lengths for its recursion, the distance to the end for a slide, the
    greatest distance for the search), in the loops over markup (one more than
    the bytes), and in the pages of a plan (the bytes left of a window for its
    chunks, the positions for the pages); each of these bounds is proved to be
    enough.

    ** Not modelled

    Of the receipt store: operations on batches of rows and their files,
    snapshots and stable observations, abandoned staging files, the creation
    of the directories and the ownership lock.  The task store, the job store
    and the lifecycle links, the file store that calls [Frame], processes and
    networking, the workspace actor but for its buffers, the lane and the
    frontend around the LSP host, the readers and writers of the 1C formats
    other than their source text, BSL language services: input and output, or
    driven by definitions outside the sources.  Of the navigation crate, the
    search over sources; of source text, the wording of errors. *)

From Stdlib Require Import ZArith Lia.
From stdpp Require Import base gmap sets list option numbers.

(** ** Results

    Rust's [Result<A, E>], with the [?] operator as a notation in a scope of
    its own. *)

Inductive result (A E : Type) : Type :=
| Ok (a : A)
| Err (e : E).
Arguments Ok {A E} a.
Arguments Err {A E} e.

Declare Scope rust_scope.
Delimit Scope rust_scope with rust.
Open Scope rust_scope.

Notation "'let?' x ':=' e 'in' k" :=
  (match e with Ok x => k | Err err => Err err end)
  (at level 10, x pattern, e at level 100, k at level 200,
   format "'[hv' 'let?'  x  ':='  e  'in'  '//' k ']'") : rust_scope.

Definition ok_or {A E} (o : option A) (e : E) : result A E :=
  match o with Some a => Ok a | None => Err e end.

Definition is_ok {A E} (r : result A E) : bool :=
  match r with Ok _ => true | Err _ => false end.

Definition is_err {A E} (r : result A E) : bool := negb (is_ok r).

#[export] Instance result_eq_dec {A E} `{EqDecision A, EqDecision E} :
  EqDecision (result A E).
Proof. solve_decision. Defined.

(** ** Options as the code tests them *)

Definition is_some {A} (o : option A) : bool :=
  match o with Some _ => true | None => false end.
Definition is_none {A} (o : option A) : bool := negb (is_some o).
Definition is_some_and {A} (f : A → bool) (o : option A) : bool :=
  match o with Some a => f a | None => false end.
Definition or_option {A} (a b : option A) : option A :=
  match a with Some _ => a | None => b end.

(** [values().all(f)] over a [HashMap]. *)
Definition all_values {K V} `{Countable K} (f : V → bool) (m : gmap K V) : bool :=
  forallb (λ kv, f kv.2) (map_to_list m).

Definition map_is_empty {K V} `{Countable K} (m : gmap K V) : bool :=
  bool_decide (m = ∅).

(** ** Machine integers: [u64] as [Z] with its bounds written out *)

Definition u64_max : Z := 18446744073709551615.
Definition is_u64 (z : Z) : Prop := (0 ≤ z ≤ u64_max)%Z.

Definition u64_checked_add (a b : Z) : option Z :=
  if (a + b <=? u64_max)%Z then Some (a + b)%Z else None.
Definition u64_wrapping_add (a b : Z) : Z := ((a + b) mod (u64_max + 1))%Z.
Definition u64_wrapping_sub (a b : Z) : Z := ((a - b) mod (u64_max + 1))%Z.

(** ** Automation *)

Create HintDb unica.
#[export] Hint Constants Transparent : unica.

(** Turn the boolean tests of the code into propositions. *)
Ltac bool_prop :=
  repeat match goal with
  | H : (_ || _) = false |- _ => apply orb_false_iff in H as [? ?]
  | H : (_ && _) = true |- _ => apply andb_true_iff in H as [? ?]
  | H : negb _ = true |- _ => apply negb_true_iff in H
  | H : negb _ = false |- _ => apply negb_false_iff in H
  | H : bool_decide _ = true |- _ => apply bool_decide_eq_true in H
  | H : bool_decide _ = false |- _ => apply bool_decide_eq_false in H
  | H : ¬ (_ ≠ _) |- _ => apply dec_stable in H
  | H : (_ <=? _)%Z = true |- _ => apply Z.leb_le in H
  | H : (_ <=? _)%Z = false |- _ => apply Z.leb_gt in H
  | H : (_ <? _)%Z = true |- _ => apply Z.ltb_lt in H
  | H : (_ <? _)%Z = false |- _ => apply Z.ltb_ge in H
  end.

(** Case on every [match] and [if] of a hypothesis, discharging the branches
    that contradict it. *)
Ltac break H :=
  repeat (
    match type of H with
    | context [match ?x with _ => _ end] =>
        let E := fresh "E" in destruct x eqn:E; simplify_eq/=
    end).

(** ** Shared lemmas *)

Lemma is_some_true {A} (o : option A) : is_some o = true ↔ ∃ a, o = Some a.
Proof. destruct o; naive_solver. Qed.
Lemma is_some_false {A} (o : option A) : is_some o = false ↔ o = None.
Proof. destruct o; naive_solver. Qed.
Lemma is_none_true {A} (o : option A) : is_none o = true ↔ o = None.
Proof. destruct o; naive_solver. Qed.
Lemma is_none_false {A} (o : option A) : is_none o = false ↔ ∃ a, o = Some a.
Proof. destruct o; naive_solver. Qed.
Lemma is_some_and_false {A} (f : A → bool) (o : option A) :
  is_some_and f o = false ↔ ∀ a, o = Some a → f a = false.
Proof. destruct o; naive_solver. Qed.
Lemma is_some_and_true {A} (f : A → bool) (o : option A) :
  is_some_and f o = true ↔ ∃ a, o = Some a ∧ f a = true.
Proof. destruct o; naive_solver. Qed.

Lemma map_is_empty_true {K V} `{Countable K} (m : gmap K V) :
  map_is_empty m = true ↔ m = ∅.
Proof. apply bool_decide_eq_true. Qed.
Lemma map_is_empty_false {K V} `{Countable K} (m : gmap K V) :
  map_is_empty m = false ↔ m ≠ ∅.
Proof. apply bool_decide_eq_false. Qed.

Lemma all_values_true {K V} `{Countable K} (f : V → bool) (m : gmap K V) :
  all_values f m = true ↔ map_Forall (λ _ v, f v = true) m.
Proof.
  unfold all_values. rewrite forallb_forall, map_Forall_to_list, Forall_forall.
  split; intros Hall [k v] Hin; exact (Hall (k, v) Hin).
Qed.

Lemma u64_checked_add_Some (a b c : Z) :
  u64_checked_add a b = Some c ↔ c = (a + b)%Z ∧ (a + b ≤ u64_max)%Z.
Proof.
  unfold u64_checked_add. destruct (Z.leb_spec (a + b) u64_max).
  - split; [intros [= <-]; done | by intros [-> _]].
  - split; [done | lia].
Qed.

Lemma u64_wrapping_add_small (a b : Z) :
  (0 ≤ a + b ≤ u64_max)%Z → u64_wrapping_add a b = (a + b)%Z.
Proof. intros. unfold u64_wrapping_add. apply Z.mod_small. lia. Qed.

Lemma u64_wrapping_sub_small (a b : Z) :
  (0 ≤ a - b ≤ u64_max)%Z → u64_wrapping_sub a b = (a - b)%Z.
Proof. intros. unfold u64_wrapping_sub. apply Z.mod_small. lia. Qed.

Lemma ok_or_Ok {A E} (o : option A) (e : E) (a : A) :
  ok_or o e = Ok a ↔ o = Some a.
Proof. destruct o; naive_solver. Qed.

(** Turn option tests into equations, after [bool_prop]. *)
Ltac opt_prop :=
  bool_prop;
  repeat match goal with
  | H : is_none _ = false |- _ => apply is_none_false in H as [? ?]
  | H : is_none _ = true |- _ => apply is_none_true in H
  | H : is_some _ = false |- _ => apply is_some_false in H
  | H : is_some _ = true |- _ => apply is_some_true in H as [? ?]
  | H : map_is_empty _ = true |- _ => apply map_is_empty_true in H
  | H : map_is_empty _ = false |- _ => apply map_is_empty_false in H
  end.
