(* ===== verification/Contract.v ===== *)
(** * The execution contract: data

    The values of [crates/unica-execution-contract/src/lib.rs]: identities,
    canonical outcomes, observation windows, join evidence, the durable record
    with its [validate], and the per-invocation state.  The transition function
    [State::decide] is in [Decide.v].

    A [[u8; 32]] digest is a 256-bit number (the code only compares digests
    and hands them on), a [Uuid] is a 128-bit number and a [u64] is a [Z].
    SHA-256 and the JSON serializer are third-party code: they are the fields
    of the class [Codec], and the documented facts the code relies on are the
    fields of [CodecLaws]. *)

From Stdlib Require Import ZArith Lia.
From stdpp Require Import base gmap list option numbers countable strings.
From S2P Require Import Prelude.

Local Open Scope Z_scope.

Notation hash := Z (only parsing).
Notation bytes := (list Z) (only parsing).

(** ** Identities *)

Inductive InvocationId := mkInvocationId (uuid : N).
Inductive TaskId := mkTaskId (uuid : N).

#[export] Instance InvocationId_eq_dec : EqDecision InvocationId.
Proof. solve_decision. Defined.
#[export] Instance TaskId_eq_dec : EqDecision TaskId.
Proof. solve_decision. Defined.
#[export] Instance InvocationId_countable : Countable InvocationId.
Proof.
  refine (inj_countable' (λ i, match i with mkInvocationId n => n end)
            mkInvocationId _). by intros [].
Defined.
#[export] Instance TaskId_countable : Countable TaskId.
Proof.
  refine (inj_countable' (λ i, match i with mkTaskId n => n end) mkTaskId _).
  by intros [].
Defined.

Inductive Tool :=
| View | Apply | Resolve | Search | Check | Diff | Run | Docs.
#[export] Instance Tool_eq_dec : EqDecision Tool.
Proof. solve_decision. Defined.

Definition is_read (t : Tool) : bool :=
  match t with
  | View | Resolve | Search | Check | Diff | Docs => true
  | Apply | Run => false
  end.

Record Key := mkKey {
  k_invocation : InvocationId;
  k_task : TaskId;
  k_core : hash;
  k_tool : Tool;
  k_arguments : hash;
  k_scope : hash;
}.
#[export] Instance Key_eq_dec : EqDecision Key.
Proof. solve_decision. Defined.

Definition same_request (a b : Key) : bool :=
  bool_decide (k_core a = k_core b) && bool_decide (k_tool a = k_tool b)
  && bool_decide (k_arguments a = k_arguments b)
  && bool_decide (k_scope a = k_scope b).

Inductive AttemptId := mkAttemptId (d : hash).
#[export] Instance AttemptId_eq_dec : EqDecision AttemptId.
Proof. solve_decision. Defined.

Record RunIdentity := mkRunIdentity {
  ri_attempt : AttemptId;
  ri_generation : Z;
}.
#[export] Instance RunIdentity_eq_dec : EqDecision RunIdentity.
Proof. solve_decision. Defined.

(** ** Outcomes *)

Inductive FailureReason :=
| InvocationFailed | ResultTooLarge | Interrupted | ResumeUnsupported
| PersistenceFailed | OutcomeUncertain | WorkspaceChanged.
#[export] Instance FailureReason_eq_dec : EqDecision FailureReason.
Proof. solve_decision. Defined.

Record SourceTextReadHint := mkSourceTextReadHint {
  hint_from_line : Z;
  hint_to_line : Z;
  hint_prefix : option string;
}.

(** [DomainResult] over the type [V] of [serde_json::Value]. *)
Record DomainResult (V : Type) := mkDomainResult {
  dr_ok : bool;
  dr_at : option string;
  dr_summary : string;
  dr_data : option V;
  dr_changed : list V;
  dr_warnings : list V;
  dr_diagnostics : list V;
  dr_artifacts : list V;
  dr_next : list V;
  dr_rev : option string;
  dr_cursor : option string;
  dr_page : option V;
  dr_source_text : option string;
  dr_source_text_read_hint : option SourceTextReadHint;
}.
Arguments mkDomainResult {V}.
Arguments dr_ok {V}.

(** [DomainResult::success]. *)
Definition success {V} (summary : string) : DomainResult V :=
  mkDomainResult true None summary None [] [] [] [] [] None None None None None.

Inductive OutcomeValue (V : Type) :=
| CompletedValue (result : DomainResult V)
| FailedValue (reason : FailureReason)
| CancelledValue.
Arguments CompletedValue {V}.
Arguments FailedValue {V}.
Arguments CancelledValue {V}.

Inductive OutcomeKind :=
| KCompleted (ok : bool)
| KFailed (reason : FailureReason)
| KCancelled.
#[export] Instance OutcomeKind_eq_dec : EqDecision OutcomeKind.
Proof. solve_decision. Defined.

Record OutcomeDescriptor := mkOutcomeDescriptor {
  od_kind : OutcomeKind;
  od_digest : hash;
  od_length : Z;
}.
#[export] Instance OutcomeDescriptor_eq_dec : EqDecision OutcomeDescriptor.
Proof. solve_decision. Defined.

Record CanonicalOutcome := mkCanonicalOutcome {
  co_bytes : bytes;
  co_digest : hash;
  co_kind : OutcomeKind;
}.
#[export] Instance CanonicalOutcome_eq_dec : EqDecision CanonicalOutcome.
Proof. solve_decision. Defined.

(** ** Windows, evidence and membership *)

Record ObservationWindow := mkObservationWindow {
  received_epoch_ms : Z;
  budget_ms : Z;
}.
#[export] Instance ObservationWindow_eq_dec : EqDecision ObservationWindow.
Proof. solve_decision. Defined.

Record ReadAuthority := mkReadAuthority {
  ra_source : hash;
  ra_actor_generation : Z;
  ra_mutation_generation : Z;
}.
#[export] Instance ReadAuthority_eq_dec : EqDecision ReadAuthority.
Proof. solve_decision. Defined.

Record JoinEvidence := mkJoinEvidence {
  je_request : Key;
  je_authority : ReadAuthority;
  je_observed_epoch_ms : Z;
}.
#[export] Instance JoinEvidence_eq_dec : EqDecision JoinEvidence.
Proof. solve_decision. Defined.

Definition alias_id (e : JoinEvidence) : TaskId := k_task (je_request e).

Record Membership := mkMembership {
  m_alias : TaskId;
  m_generation : Z;
  m_producer : AttemptId;
}.
#[export] Instance Membership_eq_dec : EqDecision Membership.
Proof. solve_decision. Defined.

Record Holder := mkHolder {
  h_generation : Z;
  h_cancelled : bool;
}.

Inductive HolderObservation :=
| HolderWorking
| HolderCancelled
| HolderTerminal (d : OutcomeDescriptor).

Inductive Error :=
| InvalidInput | InvalidRecord | IdentityCollision | OwnerMismatch
| DigestMismatch | NotAccepted | NotRunnable | AlreadyBegun | ForeignOutcome
| OutcomeConflict | NotJoinable | StaleMembership | Compacted
| AlreadyAcknowledged | AliasCapacity | Overflow | StoreUnavailable
| StaleCompletion | RecoveryRequired.
#[export] Instance Error_eq_dec : EqDecision Error.
Proof. solve_decision. Defined.

(** [ObservationWindow::new]: a window is at most seven seconds long and ends
    at a representable instant. *)
Definition window_new (received budget : Z) : result ObservationWindow Error :=
  if (7000 <? budget) || is_none (u64_checked_add received budget)
  then Err InvalidInput
  else Ok (mkObservationWindow received budget).

(** Unchecked [u64] addition. *)
Definition end_epoch_ms (w : ObservationWindow) : Z :=
  u64_wrapping_add (received_epoch_ms w) (budget_ms w).

(** ** The durable record *)

Record Accepted := mkAccepted {
  a_owner_hash : hash;
  a_window : ObservationWindow;
}.
#[export] Instance Accepted_eq_dec : EqDecision Accepted.
Proof. solve_decision. Defined.

Record Begun := mkBegun {
  b_run : RunIdentity;
  b_started_epoch_ms : Z;
  b_read_authority : option ReadAuthority;
}.
#[export] Instance Begun_eq_dec : EqDecision Begun.
Proof. solve_decision. Defined.

Record AckRecord := mkAckRecord {
  ack_digest : hash;
  ack_first_epoch_ms : Z;
}.
#[export] Instance AckRecord_eq_dec : EqDecision AckRecord.
Proof. solve_decision. Defined.

(** The [Record] struct of the source. *)
Record ERecord := mkERecord {
  r_key : Key;
  r_revision : Z;
  r_accepted : option Accepted;
  r_begun : option Begun;
  r_cancel_requested : bool;
  r_producer : option OutcomeDescriptor;
  r_producer_digest : option hash;
  r_primary_override : option OutcomeDescriptor;
  r_primary_digest : option hash;
  r_acknowledgement : option AckRecord;
  r_public_task : bool;
  r_compacted : bool;
}.
#[export] Instance ERecord_eq_dec : EqDecision ERecord.
Proof. solve_decision. Defined.

(** ** Third-party code: SHA-256 and [serde_json] *)

Class Codec := {
  Value : Type;
  sha256 : bytes → hash;
  key_to_vec : Key → bytes;
  outcome_to_vec : OutcomeValue Value → bytes;
  outcome_from_slice : bytes → option (OutcomeValue Value);
  record_to_vec : ERecord → bytes;
}.

(** What the code relies on: a serialized outcome is not empty, and the two
    payload-free outcomes survive a round trip.  Nothing is assumed of
    [Completed] values, whose free-form JSON need not round trip. *)
Class CodecLaws (C : Codec) : Prop := {
  outcome_to_vec_nonempty : ∀ v, outcome_to_vec v ≠ [];
  failed_roundtrip : ∀ r,
    outcome_from_slice (outcome_to_vec (FailedValue r)) = Some (FailedValue r);
  cancelled_roundtrip :
    outcome_from_slice (outcome_to_vec CancelledValue) = Some CancelledValue;
}.

Section WithCodec.
Context {C : Codec}.

(** [Key::digest]. *)
Definition key_digest (k : Key) : hash := sha256 (key_to_vec k).

(** [AttemptId(key.digest())]. *)
Definition attempt_of (k : Key) : AttemptId := mkAttemptId (key_digest k).

Definition outcome_value_kind (v : OutcomeValue Value) : OutcomeKind :=
  match v with
  | CompletedValue result => KCompleted (dr_ok result)
  | FailedValue reason => KFailed reason
  | CancelledValue => KCancelled
  end.

(** [CanonicalOutcome::of]. *)
Definition outcome_of (v : OutcomeValue Value) : CanonicalOutcome :=
  let bs := outcome_to_vec v in
  {| co_digest := sha256 bs; co_bytes := bs; co_kind := outcome_value_kind v |}.

Definition completed (result : DomainResult Value) : CanonicalOutcome :=
  outcome_of (CompletedValue result).
Definition failed (reason : FailureReason) : CanonicalOutcome :=
  outcome_of (FailedValue reason).
Definition cancelled : CanonicalOutcome := outcome_of CancelledValue.

(** [CanonicalOutcome::valid]. *)
Definition outcome_valid (o : CanonicalOutcome) : bool :=
  is_some_and (λ v, bool_decide (outcome_of v = o)) (outcome_from_slice (co_bytes o)).

(** [CanonicalOutcome::is_admission_rejection] and
    [OutcomeDescriptor::is_admission_rejection]. *)
Definition kind_is_rejection (k : OutcomeKind) : bool :=
  bool_decide (k = KCompleted false).

(** [CanonicalOutcome::descriptor]. *)
Definition descriptor (o : CanonicalOutcome) : OutcomeDescriptor :=
  {| od_kind := co_kind o; od_digest := co_digest o;
     od_length := Z.of_nat (length (co_bytes o)) |}.

(** [OutcomeDescriptor::valid]. *)
Definition descriptor_valid (d : OutcomeDescriptor) : bool :=
  match od_kind d with
  | KCompleted _ => 0 <? od_length d
  | KFailed reason => bool_decide (d = descriptor (failed reason))
  | KCancelled => bool_decide (d = descriptor cancelled)
  end.

(** ** Record observations *)

Definition primary (r : ERecord) : option OutcomeDescriptor :=
  or_option (r_primary_override r) (r_producer r).
Definition run (r : ERecord) : option RunIdentity := b_run <$> r_begun r.
Definition owned_by (r : ERecord) (owner_hash : hash) : bool :=
  is_some_and (λ a, bool_decide (a_owner_hash a = owner_hash)) (r_accepted r).
Definition accepted (r : ERecord) : bool := is_some (r_accepted r).
Definition fingerprint (r : ERecord) : hash := sha256 (record_to_vec r).

(** [Record::validate]: the disjuncts in the order of the source. *)
Definition record_invalid (r : ERecord) : bool :=
  let cancelled_d := descriptor cancelled in
  let interrupted := descriptor (failed Interrupted) in
  bool_decide (r_revision r = 0)
  || is_some_and (λ a, is_err (window_new (received_epoch_ms (a_window a))
                                          (budget_ms (a_window a)))) (r_accepted r)
  || (is_none (r_accepted r)
      && (negb (r_cancel_requested r) || is_some (r_begun r)
          || is_some (r_producer r) || is_some (r_producer_digest r)
          || is_some (r_primary_override r) || is_some (r_primary_digest r)
          || r_public_task r || is_some (r_acknowledgement r) || r_compacted r))
  || is_some_and (λ b, bool_decide (ri_attempt (b_run b) ≠ attempt_of (r_key r))
                       || bool_decide (ri_generation (b_run b) ≠ 1)
                       || (negb (is_read (k_tool (r_key r)))
                           && is_some (b_read_authority b))) (r_begun r)
  || is_some_and (λ o, negb (descriptor_valid o)
                       || bool_decide (Some (od_digest o) ≠ r_producer_digest r))
       (r_producer r)
  || is_some_and (λ o, negb (is_read (k_tool (r_key r)))
                       || bool_decide (o ≠ cancelled_d)
                       || bool_decide (Some (od_digest o) ≠ r_primary_digest r))
       (r_primary_override r)
  || (is_some (r_primary_override r) && is_none (r_begun r))
  || is_some_and (λ o, bool_decide (Some (od_digest o) ≠ r_primary_digest r)) (primary r)
  || (is_some (r_primary_digest r) && is_none (primary r))
  || (is_some (r_producer_digest r) && is_none (r_primary_digest r))
  || (is_none (r_begun r)
      && is_some_and (λ o, bool_decide (o ≠ interrupted)
                           && negb (r_cancel_requested r && bool_decide (o = cancelled_d))
                           && negb (kind_is_rejection (od_kind o))) (r_producer r))
  || (r_compacted r && bool_decide (r_primary_digest r ≠ r_producer_digest r)
      && negb (is_read (k_tool (r_key r))
               && bool_decide (r_primary_digest r = Some (od_digest cancelled_d))))
  || is_some_and (λ a, bool_decide (Some (ack_digest a) ≠ r_primary_digest r))
       (r_acknowledgement r)
  || (r_compacted r && (is_none (r_acknowledgement r) || r_public_task r
                        || is_none (r_producer_digest r)))
  || (is_some (r_producer_digest r) && is_none (r_producer r)).

Definition validate (r : ERecord) : result unit Error :=
  if record_invalid r then Err InvalidRecord else Ok tt.

(** ** Per-invocation state *)

Record State := mkState {
  record : ERecord;
  holders : gmap TaskId Holder;
  membership_generation : Z;
  joins_closed : bool;
}.

Definition empty_record (k : Key) : ERecord :=
  mkERecord k 0 None None false None None None None None false false.

(** [State::empty]. *)
Definition state_empty (k : Key) : State := mkState (empty_record k) ∅ 0 false.

(** [State::from_record]. *)
Definition from_record (r : ERecord) : result State Error :=
  let? _ := validate r in Ok (mkState r ∅ 0 true).

Definition holder_count (s : State) : nat := size (holders s).

(** [State::observe_holder]. *)
Definition observe_holder (s : State) (m : Membership) : result HolderObservation Error :=
  let? h := ok_or (holders s !! m_alias m) StaleMembership in
  if bool_decide (m_producer m ≠ attempt_of (r_key (record s)))
     || bool_decide (h_generation h ≠ m_generation m)
  then Err StaleMembership
  else if h_cancelled h then Ok HolderCancelled
  else Ok (from_option HolderTerminal HolderWorking (r_producer (record s))).

(** [State::with_readback]: a durable record read back may only extend the
    confirmed one. *)
Definition readback_refused (s : State) (r : ERecord) : bool :=
  let old := record s in
  bool_decide (r_key r ≠ r_key old)
  || (r_revision r <? r_revision old)
  || (bool_decide (r_revision r = r_revision old) && bool_decide (r ≠ old))
  || (is_some (r_accepted old) && bool_decide (r_accepted r ≠ r_accepted old))
  || (is_some (r_begun old) && bool_decide (r_begun r ≠ r_begun old))
  || (r_cancel_requested old && negb (r_cancel_requested r))
  || (is_some (r_producer_digest old)
      && bool_decide (r_producer_digest r ≠ r_producer_digest old))
  || (is_some (r_producer old) && bool_decide (r_producer r ≠ r_producer old))
  || (is_some (r_primary_override old)
      && bool_decide (r_primary_override r ≠ r_primary_override old))
  || (is_some (r_primary_digest old)
      && bool_decide (r_primary_digest r ≠ r_primary_digest old))
  || (is_some (r_acknowledgement old)
      && bool_decide (r_acknowledgement r ≠ r_acknowledgement old))
  || (r_public_task old && negb (r_public_task r))
  || (r_compacted old && negb (r_compacted r))
  || (r_compacted r && negb (map_is_empty (holders s))).

Definition with_readback (s : State) (r : ERecord) : result State Error :=
  let? _ := validate r in
  if readback_refused s r then Err InvalidRecord
  else Ok (mkState r (holders s) (membership_generation s) (joins_closed s)).

End WithCodec.
