(* ===== verification/Decide.v ===== *)
(** * The execution contract: transitions

    [Event], [Intent], [Transition] and [State::decide] of
    [crates/unica-execution-contract/src/lib.rs], with the [PayloadDelta] of
    [storage.rs] that a transition carries.  Each match arm of [decide] is a
    function of its own; [seal] is the common tail (compaction, revision and
    the final [validate]); [decide] composes them.

    [decide] works on a clone of the state, so a handler returns the next
    state, the intents and the payload changes, [Ok None] for an event that
    changes nothing, or the error of an early return. *)

From Stdlib Require Import ZArith Lia.
From stdpp Require Import base gmap list option numbers.
From S2P Require Import Prelude Contract.

Local Open Scope Z_scope.

Inductive Event :=
| Submit (owner_hash : hash) (window : ObservationWindow)
| Cancel
| Begin (started_epoch_ms : Z) (read_authority : option ReadAuthority)
| Outcome (run : RunIdentity) (outcome : CanonicalOutcome)
| AdmissionRejected (outcome : CanonicalOutcome)
| ExposeTask
| Acknowledge (owner_hash : hash) (primary_digest : hash) (acknowledged_epoch_ms : Z)
| Attach (evidence : JoinEvidence)
| CancelHolder (member : Membership)
| RetireHolder (member : Membership)
| Recover.

Inductive Intent :=
| IAccepted
| IRun (run : RunIdentity)
| ITask
| IAttached (member : Membership)
| ICancel.
#[export] Instance Intent_eq_dec : EqDecision Intent.
Proof. solve_decision. Defined.

Inductive PayloadChange :=
| PKeep
| PSet (body : CanonicalOutcome)
| PDrop.

Record PayloadDelta := mkPayloadDelta {
  pd_producer : PayloadChange;
  pd_primary_override : PayloadChange;
}.

(** [PayloadDelta::keep]. *)
Definition delta_keep : PayloadDelta := mkPayloadDelta PKeep PKeep.

Record Transition := mkTransition {
  t_state : State;
  t_intents : list Intent;
  t_payloads : PayloadDelta;
}.

(** ** Field assignments of [next] and [next.record] *)

Definition set_revision (v : Z) (r : ERecord) : ERecord :=
  mkERecord (r_key r) v (r_accepted r) (r_begun r) (r_cancel_requested r)
    (r_producer r) (r_producer_digest r) (r_primary_override r)
    (r_primary_digest r) (r_acknowledgement r) (r_public_task r) (r_compacted r).
Definition set_accepted (v : Accepted) (r : ERecord) : ERecord :=
  mkERecord (r_key r) (r_revision r) (Some v) (r_begun r) (r_cancel_requested r)
    (r_producer r) (r_producer_digest r) (r_primary_override r)
    (r_primary_digest r) (r_acknowledgement r) (r_public_task r) (r_compacted r).
Definition set_begun (v : Begun) (r : ERecord) : ERecord :=
  mkERecord (r_key r) (r_revision r) (r_accepted r) (Some v) (r_cancel_requested r)
    (r_producer r) (r_producer_digest r) (r_primary_override r)
    (r_primary_digest r) (r_acknowledgement r) (r_public_task r) (r_compacted r).
Definition set_cancel_requested (r : ERecord) : ERecord :=
  mkERecord (r_key r) (r_revision r) (r_accepted r) (r_begun r) true
    (r_producer r) (r_producer_digest r) (r_primary_override r)
    (r_primary_digest r) (r_acknowledgement r) (r_public_task r) (r_compacted r).
Definition set_producer (o : CanonicalOutcome) (r : ERecord) : ERecord :=
  mkERecord (r_key r) (r_revision r) (r_accepted r) (r_begun r) (r_cancel_requested r)
    (Some (descriptor o)) (Some (co_digest o)) (r_primary_override r)
    (r_primary_digest r) (r_acknowledgement r) (r_public_task r) (r_compacted r).
Definition set_primary_digest (v : hash) (r : ERecord) : ERecord :=
  mkERecord (r_key r) (r_revision r) (r_accepted r) (r_begun r) (r_cancel_requested r)
    (r_producer r) (r_producer_digest r) (r_primary_override r)
    (Some v) (r_acknowledgement r) (r_public_task r) (r_compacted r).
Definition set_primary_override (o : CanonicalOutcome) (r : ERecord) : ERecord :=
  mkERecord (r_key r) (r_revision r) (r_accepted r) (r_begun r) (r_cancel_requested r)
    (r_producer r) (r_producer_digest r) (Some (descriptor o))
    (Some (co_digest o)) (r_acknowledgement r) (r_public_task r) (r_compacted r).
Definition set_acknowledgement (v : AckRecord) (r : ERecord) : ERecord :=
  mkERecord (r_key r) (r_revision r) (r_accepted r) (r_begun r) (r_cancel_requested r)
    (r_producer r) (r_producer_digest r) (r_primary_override r)
    (r_primary_digest r) (Some v) (r_public_task r) (r_compacted r).
Definition set_public_task (r : ERecord) : ERecord :=
  mkERecord (r_key r) (r_revision r) (r_accepted r) (r_begun r) (r_cancel_requested r)
    (r_producer r) (r_producer_digest r) (r_primary_override r)
    (r_primary_digest r) (r_acknowledgement r) true (r_compacted r).
Definition set_compacted (r : ERecord) : ERecord :=
  mkERecord (r_key r) (r_revision r) (r_accepted r) (r_begun r) (r_cancel_requested r)
    (r_producer r) (r_producer_digest r) (r_primary_override r)
    (r_primary_digest r) (r_acknowledgement r) (r_public_task r) true.

Definition set_record (r : ERecord) (s : State) : State :=
  mkState r (holders s) (membership_generation s) (joins_closed s).
Definition close_joins (s : State) : State :=
  mkState (record s) (holders s) (membership_generation s) true.
Definition set_holders (hs : gmap TaskId Holder) (s : State) : State :=
  mkState (record s) hs (membership_generation s) (joins_closed s).

Section WithCodec.
Context {C : Codec}.

(** Both digests and the producer descriptor set from one outcome. *)
Definition settle (o : CanonicalOutcome) (r : ERecord) : ERecord :=
  set_producer o (set_primary_digest (co_digest o) r).

(** The producer settled while an existing primary override keeps its digest. *)
Definition settle_behind_override (o : CanonicalOutcome) (r : ERecord) : ERecord :=
  if is_none (r_primary_override r) then settle o r else set_producer o r.

Definition producer_delta (o : CanonicalOutcome) : PayloadDelta :=
  mkPayloadDelta (PSet o) PKeep.
Definition override_delta (o : CanonicalOutcome) : PayloadDelta :=
  mkPayloadDelta PKeep (PSet o).

Definition decide_submit (s : State) (owner : hash) (w : ObservationWindow)
  : result (option Transition) Error :=
  let r := record s in
  match r_accepted r with
  | Some a => if bool_decide (a_owner_hash a = owner) then Ok None else Err OwnerMismatch
  | None =>
      let r := set_accepted (mkAccepted owner w) r in
      if r_cancel_requested r
      then Ok (Some (mkTransition (set_record (settle cancelled r) s) []
                                  (producer_delta cancelled)))
      else Ok (Some (mkTransition (set_record r s) [IAccepted] delta_keep))
  end.

Definition decide_cancel (s : State) : result (option Transition) Error :=
  let r := record s in
  if r_compacted r || is_some (r_producer_digest r) then Ok None
  else if is_none (r_accepted r) then
    if r_cancel_requested r then Ok None
    else Ok (Some (mkTransition (set_record (set_cancel_requested r) s) [] delta_keep))
  else if is_none (r_begun r) then
    Ok (Some (mkTransition (set_record (settle cancelled (set_cancel_requested r)) s) []
                           (producer_delta cancelled)))
  else if is_read (k_tool (r_key r)) && negb (map_is_empty (holders s)) then
    if is_some (r_primary_override r) then Ok None
    else
      let r := set_primary_override cancelled r in
      if all_values h_cancelled (holders s)
      then Ok (Some (mkTransition (close_joins (set_record (set_cancel_requested r) s))
                                  [ICancel] (override_delta cancelled)))
      else Ok (Some (mkTransition (set_record r s) [] (override_delta cancelled)))
  else if r_cancel_requested r then Ok None
  else Ok (Some (mkTransition (close_joins (set_record (set_cancel_requested r) s))
                              [ICancel] delta_keep)).

Definition decide_begin (s : State) (started : Z) (auth : option ReadAuthority)
  : result (option Transition) Error :=
  let r := record s in
  if is_none (r_accepted r) then Err NotAccepted
  else if r_cancel_requested r || is_some (r_producer_digest r) then Err NotRunnable
  else if is_some (r_begun r) then Err AlreadyBegun
  else if negb (is_read (k_tool (r_key r))) && is_some auth then Err NotJoinable
  else
    let run := mkRunIdentity (attempt_of (r_key r)) 1 in
    Ok (Some (mkTransition (set_record (set_begun (mkBegun run started auth) r) s)
                           [IRun run] delta_keep)).

Definition decide_outcome (s : State) (run_id : RunIdentity) (o : CanonicalOutcome)
  : result (option Transition) Error :=
  let r := record s in
  if bool_decide (run r ≠ Some run_id) then Err ForeignOutcome
  else match r_producer_digest r with
  | Some d => if bool_decide (d = co_digest o) then Ok None else Err OutcomeConflict
  | None => Ok (Some (mkTransition (close_joins (set_record (settle_behind_override o r) s))
                                   [] (producer_delta o)))
  end.

Definition decide_admission_rejected (s : State) (o : CanonicalOutcome)
  : result (option Transition) Error :=
  let r := record s in
  if is_none (r_accepted r) then Err NotAccepted
  else if is_some (r_begun r) then Err AlreadyBegun
  else if is_some (r_producer_digest r) then Ok None
  else if negb (kind_is_rejection (co_kind o)) then Err InvalidInput
  else Ok (Some (mkTransition (set_record (settle o r) s) [] (producer_delta o))).

Definition decide_expose_task (s : State) : result (option Transition) Error :=
  let r := record s in
  if is_none (r_accepted r) then Err NotAccepted
  else if r_compacted r then Err Compacted
  else if r_public_task r then Ok None
  else Ok (Some (mkTransition (set_record (set_public_task r) s) [ITask] delta_keep)).

Definition decide_acknowledge (s : State) (owner digest : hash) (at_ms : Z)
  : result (option Transition) Error :=
  let r := record s in
  if bool_decide (a_owner_hash <$> r_accepted r ≠ Some owner) then Err OwnerMismatch
  else if bool_decide (r_primary_digest r ≠ Some digest) then Err DigestMismatch
  else if is_some (r_acknowledgement r) then Ok None
  else Ok (Some (mkTransition
                   (set_record (set_acknowledgement (mkAckRecord digest at_ms) r) s)
                   [] delta_keep)).

(** The eleven reasons to refuse a late join, in the order of the source. *)
Definition join_refused (s : State) (a : Accepted) (b : Begun) (e : JoinEvidence) : bool :=
  let r := record s in
  joins_closed s
  || r_cancel_requested r
  || is_some (r_producer_digest r)
  || negb (is_read (k_tool (r_key r)))
  || negb (same_request (r_key r) (je_request e))
  || bool_decide (b_read_authority b ≠ Some (je_authority e))
  || (je_observed_epoch_ms e <? end_epoch_ms (a_window a))
  || (je_observed_epoch_ms e <? b_started_epoch_ms b)
  || (30000 <? u64_wrapping_sub (je_observed_epoch_ms e) (b_started_epoch_ms b))
  || bool_decide (k_task (je_request e) = k_task (r_key r))
  || is_some (holders s !! k_task (je_request e)).

Definition decide_attach (s : State) (e : JoinEvidence)
  : result (option Transition) Error :=
  let r := record s in
  let? b := ok_or (r_begun r) NotJoinable in
  let? a := ok_or (r_accepted r) NotAccepted in
  if join_refused s a b e then Err NotJoinable
  else
    let? gen := ok_or (u64_checked_add (membership_generation s) 1) Overflow in
    let member := mkMembership (k_task (je_request e)) gen (attempt_of (r_key r)) in
    Ok (Some (mkTransition
                (mkState r (<[m_alias member := mkHolder gen false]> (holders s))
                         gen (joins_closed s))
                [IAttached member] delta_keep)).

(** The common arm of [CancelHolder] and [RetireHolder]. *)
Definition decide_holder (s : State) (m : Membership) (retire : bool)
  : result (option Transition) Error :=
  let r := record s in
  let? h := ok_or (holders s !! m_alias m) StaleMembership in
  if bool_decide (m_producer m ≠ attempt_of (r_key r))
     || bool_decide (h_generation h ≠ m_generation m)
  then Err StaleMembership
  else if negb retire && (h_cancelled h || is_some (r_producer_digest r)) then Ok None
  else
    let hs := if retire then delete (m_alias m) (holders s)
              else <[m_alias m := mkHolder (h_generation h) true]> (holders s) in
    let s := set_holders hs s in
    if is_some (r_primary_override r) && all_values h_cancelled hs
       && is_none (r_producer_digest r)
    then Ok (Some (mkTransition (close_joins (set_record (set_cancel_requested r) s))
                                [ICancel] delta_keep))
    else Ok (Some (mkTransition s [] delta_keep)).

(** The outcome recovery assigns to an accepted, unfinished attempt. *)
Definition recovered_outcome (r : ERecord) : CanonicalOutcome :=
  if is_some (r_begun r) then failed OutcomeUncertain
  else if r_cancel_requested r then cancelled
  else failed Interrupted.

Definition decide_recover (s : State) : result (option Transition) Error :=
  let r := record s in
  if is_none (r_accepted r) || is_some (r_producer_digest r) then Ok None
  else
    let o := recovered_outcome r in
    Ok (Some (mkTransition (close_joins (set_record (settle_behind_override o r) s))
                           [] (producer_delta o))).

(** The tail shared by every changing event: an acknowledged, private, settled
    record without holders is compacted, the revision advances and the result
    is validated. *)
Definition must_compact (s : State) : bool :=
  let r := record s in
  is_some (r_acknowledgement r) && negb (r_public_task r)
  && is_some (r_producer_digest r) && map_is_empty (holders s).

Definition seal (t : Transition) : result (option Transition) Error :=
  let s := t_state t in
  let r := if must_compact s then set_compacted (record s) else record s in
  let payloads := if must_compact s then mkPayloadDelta PDrop PDrop else t_payloads t in
  let? rev := ok_or (u64_checked_add (r_revision r) 1) Overflow in
  let r := set_revision rev r in
  let? _ := validate r in
  Ok (Some (mkTransition (set_record r s) (t_intents t) payloads)).

Definition decide_event (s : State) (ev : Event) : result (option Transition) Error :=
  match ev with
  | Submit owner w => decide_submit s owner w
  | Cancel => decide_cancel s
  | Begin started auth => decide_begin s started auth
  | Outcome run_id o => decide_outcome s run_id o
  | AdmissionRejected o => decide_admission_rejected s o
  | ExposeTask => decide_expose_task s
  | Acknowledge owner d at_ms => decide_acknowledge s owner d at_ms
  | Attach e => decide_attach s e
  | CancelHolder m => decide_holder s m false
  | RetireHolder m => decide_holder s m true
  | Recover => decide_recover s
  end.

(** [State::decide]. *)
Definition state_decide (s : State) (ev : Event) : result (option Transition) Error :=
  let? ot := decide_event s ev in
  match ot with
  | None => Ok None
  | Some t => seal t
  end.

End WithCodec.
