(* ===== verification/ContractFacts.v ===== *)
(** * Lemmas on the execution contract

    [ValidRecord] is what [Record::validate] accepts, as a record of
    propositions; [StateInv] is the invariant of the per-invocation state.
    Every handler of [decide] preserves both, so the final [validate] of
    [decide] never refuses a reachable state. *)

From Stdlib Require Import ZArith Lia.
From stdpp Require Import base gmap list option numbers relations.
From S2P Require Import Prelude Contract Decide.

Local Open Scope Z_scope.

Section WithCodec.
Context {C : Codec}.

(** ** Validity of a durable record *)

(** Everything [validate] asks except a non-zero revision. *)
Record ValidBody (r : ERecord) : Prop := {
  vr_window : ∀ a, r_accepted r = Some a →
    is_ok (window_new (received_epoch_ms (a_window a)) (budget_ms (a_window a))) = true;
  vr_unaccepted : r_accepted r = None →
    r_cancel_requested r = true ∧ r_begun r = None ∧ r_producer r = None
    ∧ r_producer_digest r = None ∧ r_primary_override r = None
    ∧ r_primary_digest r = None ∧ r_public_task r = false
    ∧ r_acknowledgement r = None ∧ r_compacted r = false;
  vr_begun : ∀ b, r_begun r = Some b →
    b_run b = mkRunIdentity (attempt_of (r_key r)) 1
    ∧ (is_read (k_tool (r_key r)) = false → b_read_authority b = None);
  vr_producer : ∀ o, r_producer r = Some o →
    descriptor_valid o = true ∧ r_producer_digest r = Some (od_digest o);
  vr_override : ∀ o, r_primary_override r = Some o →
    is_read (k_tool (r_key r)) = true ∧ o = descriptor cancelled
    ∧ r_primary_digest r = Some (od_digest o) ∧ r_begun r ≠ None;
  vr_primary : r_primary_digest r = od_digest <$> primary r;
  vr_producer_digest : r_producer_digest r = od_digest <$> r_producer r;
  vr_unbegun : r_begun r = None → ∀ o, r_producer r = Some o →
    o = descriptor (failed Interrupted)
    ∨ (r_cancel_requested r = true ∧ o = descriptor cancelled)
    ∨ kind_is_rejection (od_kind o) = true;
  vr_ack : ∀ a, r_acknowledgement r = Some a → r_primary_digest r = Some (ack_digest a);
  vr_compacted : r_compacted r = true →
    r_acknowledgement r ≠ None ∧ r_public_task r = false ∧ r_producer r ≠ None;
}.

Definition ValidRecord (r : ERecord) : Prop := r_revision r ≠ 0 ∧ ValidBody r.

Lemma valid_not_invalid r : ValidRecord r → record_invalid r = false.
Proof.
  intros [Hrev [Hwin Hun Hbeg Hprod Hov Hprim Hpd Hunb Hack Hcomp]].
  unfold record_invalid, is_err in *.
  destruct r as [key rev acc beg canc prod pdig ov prdig ack pub comp]; simpl in *.
  unfold primary, or_option in *; simpl in *.
  rewrite Hprim, Hpd in *. clear Hprim Hpd.
  repeat (apply orb_false_iff; split).
  - by apply bool_decide_eq_false.
  - destruct acc as [a|]; simpl; [|done]. by rewrite Hwin.
  - destruct acc; simpl; [done|]. destruct Hun as (-> & -> & -> & _ & -> & _ & -> & -> & ->); done.
  - destruct beg as [b|]; simpl; [|done]. destruct (Hbeg b eq_refl) as [-> Hr]; simpl.
    rewrite !bool_decide_eq_false_2 by naive_solver. simpl.
    destruct (is_read _); simpl; [done|]. by rewrite Hr.
  - destruct prod as [o|]; simpl; [|done]. destruct (Hprod o eq_refl) as [-> _]. simpl.
    by rewrite bool_decide_eq_false_2 by naive_solver.
  - destruct ov as [o|]; simpl; [|done].
    destruct (Hov o eq_refl) as (-> & -> & _ & _). simpl.
    by rewrite !bool_decide_eq_false_2 by naive_solver.
  - destruct ov as [o|]; simpl; [|done]. destruct (Hov o eq_refl) as (_ & _ & _ & Hb).
    by destruct beg.
  - destruct ov as [o|]; simpl; [by rewrite bool_decide_eq_false_2 by naive_solver|].
    destruct prod as [o|]; simpl; [|done]. by rewrite bool_decide_eq_false_2 by naive_solver.
  - by destruct ov, prod.
  - by destruct ov, prod.
  - destruct beg; simpl; [done|]. destruct prod as [o|]; simpl; [|done].
    destruct (Hunb eq_refl o eq_refl) as [->|[[-> ->]| ->]]; simpl.
    + by rewrite bool_decide_eq_false_2 by naive_solver.
    + rewrite (bool_decide_eq_true_2 (descriptor cancelled = _)) by done.
      by rewrite ?andb_false_r.
    + by rewrite ?andb_false_r.
  - destruct comp; simpl; [|done].
    destruct ov as [o|]; simpl.
    + destruct (Hov o eq_refl) as (-> & -> & _ & _).
      rewrite (bool_decide_eq_true_2 (Some (od_digest (descriptor cancelled)) = _)) by done.
      by rewrite ?andb_false_r.
    + by rewrite bool_decide_eq_false_2 by naive_solver.
  - destruct ack as [a|]; simpl; [|done]. rewrite (Hack a eq_refl).
    by rewrite bool_decide_eq_false_2 by naive_solver.
  - destruct comp; simpl; [|done]. destruct (Hcomp eq_refl) as (Ha & -> & Hp).
    destruct ack, prod; done.
  - by destruct prod.
Qed.

Lemma not_invalid_valid r : record_invalid r = false → ValidRecord r.
Proof.
  unfold record_invalid, is_err. intros H.
  repeat match goal with
  | H : (_ || _) = false |- _ =>
      let A := fresh "Hc" in let B := fresh "Hc" in
      apply orb_false_iff in H as [B A]
  end.
  destruct r as [key rev acc beg canc prod pdig ov prdig ack pub comp]; simpl in *.
  unfold primary, or_option in *; simpl in *.
  assert (Hpd : pdig = od_digest <$> prod).
  { destruct prod as [o|], pdig as [d|]; simpl in *; bool_prop; done. }
  assert (Hprim : prdig = od_digest <$> match ov with Some _ => ov | None => prod end).
  { destruct ov as [o|], prod as [o'|], prdig as [d|]; simpl in *; bool_prop; done. }
  split; [by bool_prop|].
  split; simpl; try done.
  - intros a ->. simpl in *. by bool_prop.
  - intros ->. simpl in *. bool_prop.
    repeat match goal with H : is_some _ = false |- _ => apply is_some_false in H end.
    by subst.
  - intros [[att gen] st auth] ->. simpl in *. bool_prop.
    subst. split; [done|]. intros Hr. rewrite Hr in *. simpl in *. by destruct auth.
  - intros o ->. simpl in *. by bool_prop.
  - intros o ->. simpl in *. bool_prop. subst.
    split_and!; try done. by destruct beg.
  - intros -> o ->. simpl in *.
    destruct (bool_decide_reflect (o = descriptor (failed Interrupted))); [by left|right].
    destruct (kind_is_rejection (od_kind o)) eqn:Hk; [by right|left].
    rewrite bool_decide_eq_true_2 in * by done. simpl in *. destruct canc; simpl in *.
    all: bool_prop; try done.
    destruct (bool_decide_reflect (o = descriptor cancelled)); [done|].
    rewrite bool_decide_eq_false_2 in * by done. done.
  - intros a ->. simpl in *. by bool_prop.
  - intros ->. simpl in *. bool_prop. destruct ack, prod; simpl in *; try done.
    by rewrite Hpd in *.
Qed.

Lemma validate_Ok r u : validate r = Ok u ↔ ValidRecord r.
Proof.
  unfold validate. destruct u. split.
  - intros H. apply not_invalid_valid. by destruct (record_invalid r).
  - intros H. by rewrite valid_not_invalid.
Qed.

(** ** Outcomes *)

Section Laws.
Context {L : CodecLaws C}.

Lemma outcome_valid_of o : outcome_valid o = true → ∃ v, o = outcome_of v.
Proof.
  unfold outcome_valid. intros [v [_ Hv]]%is_some_and_true. bool_prop. eauto.
Qed.

Lemma outcome_of_length v : 0 < od_length (descriptor (outcome_of v)).
Proof.
  simpl. pose proof (outcome_to_vec_nonempty v) as Hne.
  destruct (outcome_to_vec v); [done|simpl; lia].
Qed.

Lemma descriptor_valid_of v : descriptor_valid (descriptor (outcome_of v)) = true.
Proof.
  pose proof (outcome_of_length v) as Hlen.
  unfold descriptor_valid. destruct v; simpl.
  - by apply Z.ltb_lt.
  - by apply bool_decide_eq_true.
  - by apply bool_decide_eq_true.
Qed.

(** What [CanonicalOutcome::completed], [failed] and [cancelled] build: the
    fields are private, so every outcome is one of these.  Its bytes need not
    read back as the same outcome ([outcome_valid]). *)
Definition outcome_built (o : CanonicalOutcome) : Prop := ∃ v, o = outcome_of v.

Lemma outcome_valid_built o : outcome_valid o = true → outcome_built o.
Proof. apply outcome_valid_of. Qed.
Lemma failed_built r : outcome_built (failed r).
Proof. by eexists. Qed.
Lemma cancelled_built : outcome_built cancelled.
Proof. by eexists. Qed.
Lemma descriptor_valid_outcome o : outcome_built o → descriptor_valid (descriptor o) = true.
Proof. intros [v ->]. apply descriptor_valid_of. Qed.

Lemma cancelled_valid : outcome_valid cancelled = true.
Proof.
  unfold outcome_valid. simpl. rewrite cancelled_roundtrip. by apply bool_decide_eq_true.
Qed.

Lemma failed_valid r : outcome_valid (failed r) = true.
Proof.
  unfold outcome_valid. simpl. rewrite failed_roundtrip. by apply bool_decide_eq_true.
Qed.

(** ** Assignments preserve validity *)

(** A record before its first transition, or a valid one. *)
Definition Base (r : ERecord) : Prop :=
  ValidRecord r ∨ r = empty_record (r_key r).

Lemma unsettled r :
  ValidBody r → r_producer_digest r = None →
  r_producer r = None ∧ r_compacted r = false
  ∧ (r_primary_override r = None → r_primary_digest r = None ∧ r_acknowledgement r = None).
Proof.
  intros V Hpd. pose proof (vr_producer_digest r V) as Hp. rewrite Hpd in Hp.
  destruct (r_producer r) eqn:Hprod; [done|].
  split_and!; [done| |].
  - destruct (r_compacted r) eqn:Hc; [|done].
    destruct (vr_compacted r V Hc) as (_ & _ & []). done.
  - intros Hov. pose proof (vr_primary r V) as Hprim.
    unfold primary, or_option in Hprim. rewrite Hov, Hprod in Hprim. split; [done|].
    destruct (r_acknowledgement r) as [a|] eqn:Ha; [|done].
    pose proof (vr_ack r V a Ha). congruence.
Qed.

Lemma accept_body a r :
  Base r → r_accepted r = None →
  is_ok (window_new (received_epoch_ms (a_window a)) (budget_ms (a_window a))) = true →
  ValidBody (set_accepted a r).
Proof.
  intros [[_ V]|He] Hacc Hw.
  - destruct (vr_unaccepted r V Hacc) as (H1&H2&H3&H4&H5&H6&H7&H8&H9).
    split; simpl; rewrite ?H1, ?H2, ?H3, ?H4, ?H5, ?H6, ?H7, ?H8, ?H9; try done.
    + by intros a' [= <-].
    + unfold primary, or_option; simpl. by rewrite H3, H5.
  - rewrite He. split; simpl; try done. by intros a' [= <-].
Qed.

Lemma cancel_valid r : ValidBody r → ValidBody (set_cancel_requested r).
Proof.
  intros [? Hun ? ? ? ? ? Hunb ? ?]. split; simpl; try done.
  - intros Hacc. by destruct (Hun Hacc) as [_ ?].
  - intros Hb o Ho. destruct (Hunb Hb o Ho) as [?|[[_ ?]|?]]; auto.
Qed.

Lemma cancel_body r : Base r → ValidBody (set_cancel_requested r).
Proof.
  intros [[_ V]|He]; [by apply cancel_valid|]. rewrite He. by split.
Qed.

Lemma settle_no_override o r :
  r_primary_override r = None → settle_behind_override o r = settle o r.
Proof. intros H. unfold settle_behind_override. by rewrite H. Qed.

Lemma settle_body o r :
  ValidBody r → r_accepted r ≠ None → r_producer_digest r = None →
  outcome_built o →
  (r_begun r = None →
     descriptor o = descriptor (failed Interrupted)
     ∨ (r_cancel_requested r = true ∧ descriptor o = descriptor cancelled)
     ∨ kind_is_rejection (co_kind o) = true) →
  ValidBody (settle_behind_override o r).
Proof.
  intros V Hacc Hpd Ho Hunb. pose proof (descriptor_valid_outcome o Ho) as Hd.
  destruct (unsettled r V Hpd) as (Hprod & Hcomp & Hprim).
  pose proof V as [Hwin Hun Hbeg _ Hov Hpr _ _ Hack _].
  unfold settle_behind_override. destruct (r_primary_override r) as [ov|] eqn:Eov; simpl.
  - split; simpl; rewrite ?Hcomp, ?Eov; try done.
    + by intros o' [= <-].
    + unfold primary, or_option in *; simpl. by rewrite Eov in *.
    + intros Hb o' [= <-]. by apply Hunb.
  - destruct (Hprim eq_refl) as [Hpdig Hnack].
    split; simpl; rewrite ?Hcomp, ?Hnack, ?Eov; try done.
    + by intros o' [= <-].
    + unfold primary, or_option; simpl. by rewrite Eov.
    + intros Hb o' [= <-]. by apply Hunb.
Qed.

(** ** The invariant of the state *)

Record StateInv (s : State) : Prop := {
  si_record : Base (record s);
  si_revision : is_u64 (r_revision (record s));
  si_membership : is_u64 (membership_generation s);
  si_generation : ∀ a h, holders s !! a = Some h →
    1 ≤ h_generation h ≤ membership_generation s;
  si_distinct : ∀ a1 a2 h1 h2, holders s !! a1 = Some h1 → holders s !! a2 = Some h2 →
    h_generation h1 = h_generation h2 → a1 = a2;
  si_self : holders s !! k_task (r_key (record s)) = None;
  si_joined : holders s ≠ ∅ →
    r_begun (record s) ≠ None ∧ is_read (k_tool (r_key (record s))) = true;
  si_compacted : r_compacted (record s) = true → holders s = ∅;
}.

(** Values an event can carry: windows and outcomes come from their
    public constructors. *)
Definition event_ok (ev : Event) : Prop :=
  match ev with
  | Submit _ w => is_ok (window_new (received_epoch_ms w) (budget_ms w)) = true
  | Outcome _ o | AdmissionRejected o => outcome_built o
  | _ => True
  end.

Lemma state_empty_inv k : StateInv (state_empty k).
Proof. split; simpl; try done. by right. Qed.

Lemma base_valid r : Base r → r_accepted r ≠ None → ValidBody r.
Proof. intros [[_ V]|He] Ha; [done|]. by rewrite He in Ha. Qed.

Lemma begun_accepted r : Base r → r_begun r ≠ None → r_accepted r ≠ None.
Proof.
  intros [[_ V]|He] Hb; [|by rewrite He in Hb].
  intros Ha. by destruct (vr_unaccepted r V Ha) as (_ & ? & _).
Qed.

Lemma begun_valid r : Base r → r_begun r ≠ None → ValidBody r.
Proof. intros HB Hb. by eapply base_valid, begun_accepted. Qed.

Lemma holder_begun s a h :
  StateInv s → holders s !! a = Some h → r_begun (record s) ≠ None.
Proof.
  intros I Hl. apply (si_joined s I). intros He. by rewrite He, lookup_empty in Hl.
Qed.

(** ** Each handler leaves a valid body *)

Lemma decide_submit_body s owner w t :
  StateInv s → event_ok (Submit owner w) →
  decide_submit s owner w = Ok (Some t) → ValidBody (record (t_state t)).
Proof.
  intros I Hw. unfold decide_submit.
  destruct (r_accepted (record s)) as [a|] eqn:Ha; [by case_bool_decide|].
  pose proof (accept_body (mkAccepted owner w) _ (si_record s I) Ha Hw) as V.
  simpl. destruct (r_cancel_requested (record s)) eqn:Hc; intros [= <-]; simpl; [|done].
  assert (Hn : r_producer_digest (record s) = None ∧ r_primary_override (record s) = None).
  { destruct (si_record s I) as [[_ V']| ->]; [|done].
    by destruct (vr_unaccepted _ V' Ha) as (_&_&_&?&?&_). }
  destruct Hn as [Hpd Hov].
  rewrite <- settle_no_override by done.
  apply settle_body; simpl; auto using cancelled_built.
Qed.

Lemma decide_cancel_body s t :
  StateInv s → decide_cancel s = Ok (Some t) → ValidBody (record (t_state t)).
Proof.
  intros I. pose proof (si_record s I) as HB. unfold decide_cancel.
  destruct (_ || _) eqn:Hd; [done|]. bool_prop.
  pose proof (proj1 (is_some_false _) ltac:(eassumption)) as Hpd.
  destruct (r_accepted (record s)) as [a|] eqn:Ha; simpl; last first.
  { destruct (r_cancel_requested (record s)); intros [= <-]. by apply cancel_body. }
  assert (V : ValidBody (record s)) by (apply base_valid; congruence).
  destruct (r_begun (record s)) as [b|] eqn:Hb; simpl; last first.
  { intros [= <-]. simpl. rewrite <- settle_no_override.
    - apply settle_body; simpl; rewrite ?Ha; auto using cancel_body, cancelled_built.
    - simpl. destruct (r_primary_override (record s)) eqn:Hov; [|done].
      by destruct (vr_override _ V _ Hov) as (_&_&_&[]). }
  destruct (is_read _ && _) eqn:Hr; simpl.
  - bool_prop. destruct (r_primary_override (record s)) eqn:Hov; simpl; [done|].
    destruct (unsettled _ V Hpd) as (Hprod & Hcomp & Hprim).
    destruct (Hprim Hov) as [Hpdig Hnack].
    assert (V' : ValidBody (set_primary_override cancelled (record s))).
    { destruct V. split; simpl; rewrite ?Hcomp, ?Hnack; try done.
      - by rewrite Ha.
      - intros o [= <-]. by rewrite Hb. }
    destruct (all_values _ _); intros [= <-]; simpl; auto using cancel_valid.
  - destruct (r_cancel_requested (record s)); intros [= <-]. by apply cancel_body.
Qed.

Lemma decide_begin_body s started auth t :
  StateInv s → decide_begin s started auth = Ok (Some t) → ValidBody (record (t_state t)).
Proof.
  intros I. unfold decide_begin.
  destruct (r_accepted (record s)) as [a|] eqn:Ha; simpl; [|done].
  assert (V : ValidBody (record s)).
  { apply base_valid; [apply I|congruence]. }
  destruct (_ || _) eqn:Hd; [done|]. bool_prop.
  destruct (r_begun (record s)) eqn:Hb; simpl; [done|].
  destruct (_ && _) eqn:Hr; intros [= <-]; simpl.
  destruct V as [? ? ? ? Hov ? ? ? ? ?]. split; simpl; try done.
  - by rewrite Ha.
  - intros b [= <-]; simpl. split; [done|]. intros Hread. rewrite Hread in Hr.
    by destruct auth.
  - intros o Ho. destruct (Hov o Ho) as (_&_&_&Hn). congruence.
Qed.

Lemma decide_outcome_body s run_id o t :
  StateInv s → event_ok (Outcome run_id o) →
  decide_outcome s run_id o = Ok (Some t) → ValidBody (record (t_state t)).
Proof.
  intros I Ho. unfold decide_outcome. case_bool_decide as Hrun; [done|].
  unfold run in Hrun.
  destruct (r_begun (record s)) as [b|] eqn:Hb; [|done].
  assert (V : ValidBody (record s)) by (apply begun_valid; [apply I|congruence]).
  destruct (r_producer_digest (record s)) eqn:Hpd; [by case_bool_decide|].
  intros [= <-]; simpl. apply settle_body; try done; [|congruence].
  apply begun_accepted; [apply I|congruence].
Qed.

Lemma decide_admission_rejected_body s o t :
  StateInv s → event_ok (AdmissionRejected o) →
  decide_admission_rejected s o = Ok (Some t) → ValidBody (record (t_state t)).
Proof.
  intros I Ho. unfold decide_admission_rejected.
  destruct (r_accepted (record s)) eqn:Ha; simpl; [|done].
  assert (V : ValidBody (record s)) by (apply base_valid; [apply I|congruence]).
  destruct (r_begun (record s)) eqn:Hb; simpl; [done|].
  destruct (r_producer_digest (record s)) eqn:Hpd; simpl; [done|].
  destruct (kind_is_rejection _) eqn:Hk; intros [= <-]; simpl.
  rewrite <- settle_no_override.
  - apply settle_body; try done; [congruence|auto].
  - destruct (r_primary_override (record s)) eqn:Hov; [|done].
    by destruct (vr_override _ V _ Hov) as (_&_&_&[]).
Qed.

Lemma decide_expose_task_body s t :
  StateInv s → decide_expose_task s = Ok (Some t) → ValidBody (record (t_state t)).
Proof.
  intros I. unfold decide_expose_task.
  destruct (r_accepted (record s)) eqn:Ha; simpl; [|done].
  assert (V : ValidBody (record s)) by (apply base_valid; [apply I|congruence]).
  destruct (r_compacted (record s)) eqn:Hc; [done|].
  destruct (r_public_task (record s)); intros [= <-]; simpl.
  destruct V. split; simpl; rewrite ?Hc; try done. by rewrite Ha.
Qed.

Lemma decide_acknowledge_body s owner d at_ms t :
  StateInv s → decide_acknowledge s owner d at_ms = Ok (Some t) →
  ValidBody (record (t_state t)).
Proof.
  intros I. unfold decide_acknowledge. case_bool_decide as Hown; [done|].
  case_bool_decide as Hdig; [done|].
  destruct (r_accepted (record s)) as [a|] eqn:Ha; [|done].
  assert (V : ValidBody (record s)) by (apply base_valid; [apply I|congruence]).
  destruct (r_acknowledgement (record s)) eqn:Hk; intros [= <-]; simpl.
  destruct V as [? ? ? ? ? ? ? ? ? Hcomp]. split; simpl; try done.
  - by rewrite Ha.
  - by intros x [= <-].
  - intros Hc. destruct (Hcomp Hc) as (? & ? & ?). done.
Qed.

Lemma decide_attach_body s e t :
  StateInv s → decide_attach s e = Ok (Some t) → ValidBody (record (t_state t)).
Proof.
  intros I. unfold decide_attach.
  destruct (r_begun (record s)) eqn:Hb; simpl; [|done].
  destruct (r_accepted (record s)) eqn:Ha; simpl; [|done].
  destruct (join_refused _ _ _ _); [done|].
  destruct (u64_checked_add _ _); intros [= <-]; simpl.
  apply begun_valid; [apply I|congruence].
Qed.

Lemma decide_holder_body s m retire t :
  StateInv s → decide_holder s m retire = Ok (Some t) → ValidBody (record (t_state t)).
Proof.
  intros I. unfold decide_holder.
  destruct (holders s !! m_alias m) as [h|] eqn:Hh; simpl; [|done].
  pose proof (holder_begun _ _ _ I Hh) as Hb.
  destruct (_ || _); [done|]. destruct (_ && _); [done|].
  destruct (_ && _); intros [= <-]; simpl.
  - apply cancel_body, I.
  - apply begun_valid; [apply I|done].
Qed.

Lemma decide_recover_body s t :
  StateInv s → decide_recover s = Ok (Some t) → ValidBody (record (t_state t)).
Proof.
  intros I. unfold decide_recover.
  destruct (_ || _) eqn:Hd; intros [= <-]; simpl. opt_prop.
  assert (V : ValidBody (record s)) by (apply base_valid; [apply I|congruence]).
  apply settle_body; try done; [congruence| |].
  - unfold recovered_outcome. repeat case_match; auto using cancelled_built, failed_built.
  - intros Hb. unfold recovered_outcome. rewrite Hb. simpl.
    destruct (r_cancel_requested (record s)); auto.
Qed.

Lemma decide_event_body s ev t :
  StateInv s → event_ok ev → decide_event s ev = Ok (Some t) →
  ValidBody (record (t_state t)).
Proof.
  intros I Hev. destruct ev; simpl;
    eauto using decide_submit_body, decide_cancel_body, decide_begin_body,
      decide_outcome_body, decide_admission_rejected_body, decide_expose_task_body,
      decide_acknowledge_body, decide_attach_body, decide_holder_body,
      decide_recover_body.
Qed.

(** ** The tail of [decide] *)

Lemma compact_body s : ValidBody (record s) → must_compact s = true →
  ValidBody (set_compacted (record s)).
Proof.
  intros V Hm. unfold must_compact in Hm. opt_prop.
  pose proof (vr_producer_digest _ V) as Hpd.
  pose proof V as [? Hun ? ? ? ? ? ? ? ?]. split; simpl; try done.
  - intros Hacc. destruct (Hun Hacc) as (_&_&_&_&_&_&_&?&_). congruence.
  - intros _. split_and!; [congruence|done|]. intros Hn. rewrite Hn in Hpd. simpl in Hpd.
    congruence.
Qed.

Lemma revision_body n r : ValidBody r → ValidBody (set_revision n r).
Proof. by intros []. Qed.

(** [seal] refuses only at the last representable revision. *)
Lemma seal_total t :
  ValidBody (record (t_state t)) → is_u64 (r_revision (record (t_state t))) →
  seal t =
    if r_revision (record (t_state t)) <? u64_max then
      let s := t_state t in
      let r := if must_compact s then set_compacted (record s) else record s in
      Ok (Some (mkTransition (set_record (set_revision (r_revision r + 1) r) s) (t_intents t)
        (if must_compact s then mkPayloadDelta PDrop PDrop else t_payloads t)))
    else Err Overflow.
Proof.
  intros V [Hlo Hhi]. unfold seal, u64_checked_add.
  set (r := if must_compact (t_state t) then _ else _).
  assert (Hr : r_revision r = r_revision (record (t_state t))) by (unfold r; by case_match).
  assert (Vr : ValidBody r).
  { unfold r. destruct (must_compact (t_state t)) eqn:Hm; [by apply compact_body|done]. }
  rewrite Hr. destruct (Z.ltb_spec (r_revision (record (t_state t))) u64_max).
  - rewrite (proj2 (Z.leb_le _ _)) by lia. simpl.
    rewrite (proj2 (validate_Ok _ tt)); [done|].
    split; [simpl; lia|by apply revision_body].
  - by rewrite (proj2 (Z.leb_gt _ _)) by lia.
Qed.

(** ** The write-once order on records *)

Record extends (old new : ERecord) : Prop := {
  x_key : r_key new = r_key old;
  x_accepted : ∀ a, r_accepted old = Some a → r_accepted new = Some a;
  x_begun : ∀ b, r_begun old = Some b → r_begun new = Some b;
  x_cancel : r_cancel_requested old = true → r_cancel_requested new = true;
  x_producer : ∀ o, r_producer old = Some o → r_producer new = Some o;
  x_producer_digest : ∀ d, r_producer_digest old = Some d → r_producer_digest new = Some d;
  x_override : ∀ o, r_primary_override old = Some o → r_primary_override new = Some o;
  x_primary_digest : ∀ d, r_primary_digest old = Some d → r_primary_digest new = Some d;
  x_ack : ∀ a, r_acknowledgement old = Some a → r_acknowledgement new = Some a;
  x_public : r_public_task old = true → r_public_task new = true;
  x_compacted : r_compacted old = true → r_compacted new = true;
}.

#[export] Instance extends_preorder : PreOrder extends.
Proof.
  split.
  - intros r. by split.
  - intros r1 r2 r3 [] []. split; eauto; congruence.
Qed.

Lemma settle_behind_extends o r :
  ValidBody r → r_producer_digest r = None → extends r (settle_behind_override o r).
Proof.
  intros V Hpd. destruct (unsettled r V Hpd) as (Hprod & _ & Hprim).
  unfold settle_behind_override.
  destruct (r_primary_override r) eqn:Hov; simpl.
  - split; simpl; congruence.
  - destruct (Hprim eq_refl) as [? _]. split; simpl; congruence.
Qed.

Lemma decide_event_extends s ev t :
  StateInv s → decide_event s ev = Ok (Some t) → extends (record s) (record (t_state t)).
Proof.
  intros I Hd. pose proof (si_record s I) as HB.
  assert (Hcr : extends (record s) (set_cancel_requested (record s))) by (by split).
  destruct ev as [owner w| |started auth|rid o|o| |owner d at_ms|e|m|m|]; simpl in Hd.
  - unfold decide_submit in Hd. destruct (r_accepted (record s)) eqn:Ha; [by case_bool_decide|].
    assert (Hb : extends (record s) (set_accepted (mkAccepted owner w) (record s))).
    { split; simpl; congruence. }
    break Hd; simpl; [|done]. destruct HB as [[_ V]|He].
    + destruct (vr_unaccepted _ V Ha) as (_&_&?&?&?&?&_&_&_).
      etrans; [apply Hb|]. split; simpl; congruence.
    + rewrite He. by split.
  - unfold decide_cancel in Hd. break Hd; simpl; try done; opt_prop.
    all: assert (V : ValidBody (record s)) by (apply base_valid; congruence).
    all: destruct (unsettled _ V ltac:(eassumption)) as (Hprod & _ & Hprim).
    2,3: destruct (Hprim ltac:(eassumption)) as [? _]; split; simpl; congruence.
    assert (Hov : r_primary_override (record s) = None).
    { destruct (r_primary_override (record s)) eqn:Hov; [|done].
      destruct (vr_override _ V _ Hov) as (_&_&_&Hn). by destruct (r_begun (record s)). }
    destruct (Hprim Hov) as [? _]. split; simpl; congruence.
  - unfold decide_begin in Hd. break Hd; simpl.
    opt_prop. split; simpl; congruence.
  - unfold decide_outcome in Hd. break Hd; simpl. apply settle_behind_extends; [|done].
    bool_prop. unfold run in *. apply begun_valid; [done|].
    by destruct (r_begun (record s)).
  - unfold decide_admission_rejected in Hd. break Hd; simpl. opt_prop.
    assert (V : ValidBody (record s)) by (apply base_valid; congruence).
    rewrite <- settle_no_override; [by apply settle_behind_extends|].
    destruct (r_primary_override (record s)) eqn:Hov; [|done].
    by destruct (vr_override _ V _ Hov) as (_&_&_&[]).
  - unfold decide_expose_task in Hd. break Hd; simpl. by split.
  - unfold decide_acknowledge in Hd. break Hd; simpl.
    opt_prop. split; simpl; congruence.
  - unfold decide_attach in Hd. break Hd; simpl. done.
  - unfold decide_holder in Hd. break Hd; simpl; done.
  - unfold decide_holder in Hd. break Hd; simpl; done.
  - unfold decide_recover in Hd. break Hd; simpl. opt_prop.
    apply settle_behind_extends; [|done]. apply base_valid; congruence.
Qed.

(** ** Frames *)

(** What a changing event does to the holders: nothing, one insertion of a
    fresh generation, or an update or removal of an existing member. *)
Inductive holders_step (s s' : State) : Prop :=
| hs_same :
    holders s' = holders s → membership_generation s' = membership_generation s →
    holders_step s s'
| hs_attach a :
    holders s !! a = None → a ≠ k_task (r_key (record s)) →
    membership_generation s < u64_max →
    holders s' = <[a := mkHolder (membership_generation s + 1) false]> (holders s) →
    membership_generation s' = membership_generation s + 1 →
    r_begun (record s) ≠ None → is_read (k_tool (r_key (record s))) = true →
    r_producer_digest (record s) = None →
    holders_step s s'
| hs_cancel a h :
    holders s !! a = Some h →
    holders s' = <[a := mkHolder (h_generation h) true]> (holders s) →
    membership_generation s' = membership_generation s → holders_step s s'
| hs_retire a h :
    holders s !! a = Some h → holders s' = delete a (holders s) →
    membership_generation s' = membership_generation s → holders_step s s'.

Lemma decide_event_frame s ev t :
  decide_event s ev = Ok (Some t) →
  r_revision (record (t_state t)) = r_revision (record s)
  ∧ holders_step s (t_state t).
Proof.
  intros Hd. destruct ev as [owner w| |started auth|rid o|o| |owner d at_ms|e|m|m|];
    simpl in Hd.
  1-7: unfold decide_submit, decide_cancel, decide_begin, decide_outcome,
         decide_admission_rejected, decide_expose_task, decide_acknowledge,
         settle_behind_override in Hd; break Hd;
         (split; [simpl; by repeat case_match|by apply hs_same]).
  - unfold decide_attach in Hd. break Hd. split; [done|].
    match goal with H : join_refused _ _ _ _ = false |- _ => unfold join_refused in H end.
    opt_prop. destruct (u64_checked_add _ _) as [g|] eqn:Hg; simplify_eq/=.
    apply u64_checked_add_Some in Hg as [-> Hg].
    eapply (hs_attach _ _ (k_task (je_request e))); try done; [lia|].
    by destruct (r_begun (record s)).
  - unfold decide_holder in Hd. destruct (holders s !! m_alias m) as [h|] eqn:Hh; [|done].
    simpl in Hd. break Hd; (split; [done|by eapply (hs_cancel _ _ (m_alias m) h)]).
  - unfold decide_holder in Hd. destruct (holders s !! m_alias m) as [h|] eqn:Hh; [|done].
    simpl in Hd. break Hd; (split; [done|by eapply (hs_retire _ _ (m_alias m) h)]).
  - unfold decide_recover, settle_behind_override in Hd. break Hd;
      (split; [simpl; by repeat case_match|by apply hs_same]).
Qed.

(** The shape of a sealed transition. *)
Lemma seal_Some t t' :
  seal t = Ok (Some t') →
  record (t_state t') =
    set_revision (r_revision (record (t_state t)) + 1)
      (if must_compact (t_state t) then set_compacted (record (t_state t))
       else record (t_state t))
  ∧ holders (t_state t') = holders (t_state t)
  ∧ membership_generation (t_state t') = membership_generation (t_state t)
  ∧ joins_closed (t_state t') = joins_closed (t_state t)
  ∧ t_intents t' = t_intents t
  ∧ t_payloads t' =
      (if must_compact (t_state t) then mkPayloadDelta PDrop PDrop else t_payloads t)
  ∧ r_revision (record (t_state t)) < u64_max
  ∧ ValidRecord (record (t_state t')).
Proof.
  unfold seal. intros H.
  destruct (u64_checked_add _ _) as [n|] eqn:Hn; simpl in H; [|done].
  apply u64_checked_add_Some in Hn as [-> Hn].
  destruct (validate _) as [u|] eqn:Hv; simplify_eq/=. apply validate_Ok in Hv.
  assert (Hr : r_revision (if must_compact (t_state t)
      then set_compacted (record (t_state t)) else record (t_state t))
      = r_revision (record (t_state t))) by (by case_match).
  rewrite Hr in *. split_and!; try done. lia.
Qed.

Lemma state_decide_Some s ev t' :
  state_decide s ev = Ok (Some t') →
  ∃ t, decide_event s ev = Ok (Some t) ∧ seal t = Ok (Some t').
Proof. unfold state_decide. intros H. break H; eauto. Qed.

Lemma compact_extends s :
  extends (record s) (if must_compact s then set_compacted (record s) else record s).
Proof. case_match; by split. Qed.

Lemma state_decide_extends s ev t :
  StateInv s → state_decide s ev = Ok (Some t) →
  extends (record s) (record (t_state t))
  ∧ r_revision (record (t_state t)) = r_revision (record s) + 1.
Proof.
  intros I (t0 & Hd & (Hr & _)%seal_Some)%state_decide_Some.
  destruct (decide_event_frame _ _ _ Hd) as [Hrev _]. rewrite Hr. split; [|simpl; lia].
  etrans; [by eapply decide_event_extends|]. etrans; [apply compact_extends|]. by split.
Qed.

Lemma holders_step_generation s s' :
  StateInv s → holders_step s s' →
  is_u64 (membership_generation s')
  ∧ (∀ a h, holders s' !! a = Some h → 1 ≤ h_generation h ≤ membership_generation s')
  ∧ (∀ a1 a2 h1 h2, holders s' !! a1 = Some h1 → holders s' !! a2 = Some h2 →
       h_generation h1 = h_generation h2 → a1 = a2).
Proof.
  intros [_ _ [Hm1 Hm2] Hgen Hdist _ _ _] Hs.
  destruct Hs as [Hh Hm|a Hno _ Hlt Hh Hm _ _ _|a h Hl Hh Hm|a h Hl Hh Hm]; rewrite Hh, Hm.
  - done.
  - split_and!.
    + split; lia.
    + intros b h'. rewrite lookup_insert. case_decide; [intros [= <-]; simpl; lia|].
      intros ?%Hgen. lia.
    + intros a1 a2 h1 h2. rewrite !lookup_insert. repeat case_decide; subst; simpl; try done.
      * intros [= <-] Hx%Hgen; simpl. lia.
      * intros Hx%Hgen [= <-]; simpl. lia.
      * apply Hdist.
  - split_and!.
    + done.
    + intros b h'. rewrite lookup_insert. case_decide; [intros [= <-]; simpl; eauto|eauto].
    + intros a1 a2 h1 h2. rewrite !lookup_insert. repeat case_decide; subst; simpl; try done.
      all: intros; simplify_eq/=; eauto.
  - split_and!.
    + done.
    + intros b h'. rewrite lookup_delete. case_decide; [done|eauto].
    + intros a1 a2 h1 h2. rewrite !lookup_delete. repeat case_decide; subst; try done. eauto.
Qed.

Lemma holders_step_self s s' k :
  k = k_task (r_key (record s)) → holders s !! k = None → holders_step s s' →
  holders s' !! k = None.
Proof.
  intros -> Hn Hs. destruct Hs as [Hh|a ? Hne ? Hh|a h Hl Hh|a h Hl Hh]; rewrite Hh; [done|..].
  - by rewrite lookup_insert_ne.
  - rewrite lookup_insert_ne; congruence.
  - rewrite lookup_delete. by case_decide.
Qed.

Lemma holders_step_nonempty s s' :
  holders_step s s' → holders s' ≠ ∅ →
  holders s ≠ ∅ ∨ (r_begun (record s) ≠ None ∧ is_read (k_tool (r_key (record s))) = true).
Proof.
  intros Hs. destruct Hs as [Hh|a ? ? ? Hh ? ? ?|a h Hl Hh|a h Hl Hh]; rewrite Hh; intros Hne.
  - by left.
  - by right.
  - left. intros He. by rewrite He in Hl.
  - left. intros He. by rewrite He in Hl.
Qed.

Lemma state_decide_inv s ev t :
  StateInv s → event_ok ev → state_decide s ev = Ok (Some t) → StateInv (t_state t).
Proof.
  intros I Hev Hd. destruct (state_decide_extends _ _ _ I Hd) as [Hx Hrev].
  apply state_decide_Some in Hd as (t0 & Hd & Hs).
  apply seal_Some in Hs as (Hr & Hh & Hm & _ & _ & _ & Hlt & Hv).
  destruct (decide_event_frame _ _ _ Hd) as [Hrev0 Hstep].
  pose proof (decide_event_extends _ _ _ I Hd) as Hx0.
  destruct (holders_step_generation _ _ I Hstep) as (? & ? & ?).
  split; rewrite ?Hh, ?Hm; try done.
  - by left.
  - pose proof (si_revision s I) as [? ?]. split; lia.
  - rewrite (x_key _ _ Hx). by apply (holders_step_self s _ _ eq_refl (si_self s I)).
  - intros Hne. destruct (holders_step_nonempty _ _ Hstep Hne) as [Hold|[Hb Hread]].
    + destruct (si_joined s I Hold) as [Hb Hread]. rewrite (x_key _ _ Hx). split; [|done].
      destruct (r_begun (record s)) as [b|] eqn:Eb; [|done].
      by rewrite (x_begun _ _ Hx b Eb).
    + rewrite (x_key _ _ Hx). split; [|done].
      destruct (r_begun (record s)) as [b|] eqn:Eb; [|done].
      by rewrite (x_begun _ _ Hx b Eb).
  - rewrite Hr. intros Hc. destruct (must_compact (t_state t0)) eqn:Emc.
    + unfold must_compact in Emc. by opt_prop.
    + simpl in Hc. assert (Hold : r_compacted (record s) = true).
      { destruct (r_compacted (record s)) eqn:Ec; [done|].
        assert (Hsame : r_compacted (record (t_state t0)) = r_compacted (record s)); [|congruence].
        clear -Hd. destruct ev; simpl in Hd;
          unfold decide_submit, decide_cancel, decide_begin, decide_outcome,
            decide_admission_rejected, decide_expose_task, decide_acknowledge,
            decide_attach, decide_holder, decide_recover, settle_behind_override in Hd;
          break Hd; simpl; by repeat case_match. }
      pose proof (si_compacted s I Hold) as He.
      assert (HnoP : r_producer_digest (record s) ≠ None).
      { destruct (si_record s I) as [[_ V]|Hemp]; [|by rewrite Hemp in Hold].
        destruct (vr_compacted _ V Hold) as (_&_&Hp). rewrite (vr_producer_digest _ V).
        by destruct (r_producer (record s)). }
      destruct Hstep as [->|a ? ? ? ? ? ? ? Hn|a h Hl|a h Hl]; try done.
      all: by rewrite He in Hl.
Qed.

(** The final [validate] never fails: a changing event is refused only when
    the revision is exhausted. *)
Lemma state_decide_total s ev t :
  StateInv s → event_ok ev → decide_event s ev = Ok (Some t) →
  if r_revision (record s) <? u64_max
  then ∃ t', state_decide s ev = Ok (Some t')
  else state_decide s ev = Err Overflow.
Proof.
  intros I Hev Hd. pose proof (decide_event_body _ _ _ I Hev Hd) as V.
  destruct (decide_event_frame _ _ _ Hd) as [Hrev _].
  unfold state_decide. rewrite Hd. rewrite seal_total; [|done|].
  - rewrite Hrev. case_match; eauto.
  - rewrite Hrev. apply I.
Qed.

(** ** Readback *)

Lemma with_readback_Ok s r s' :
  with_readback s r = Ok s' →
  ValidRecord r ∧ extends (record s) r ∧ r_revision (record s) ≤ r_revision r
  ∧ (r_revision r = r_revision (record s) → r = record s)
  ∧ (r_compacted r = true → holders s = ∅)
  ∧ s' = mkState r (holders s) (membership_generation s) (joins_closed s).
Proof.
  unfold with_readback. destruct (validate r) as [u|] eqn:Hv; [|done]. simpl.
  apply validate_Ok in Hv. unfold readback_refused.
  destruct (_ || _) eqn:Hc; [done|]. intros [= <-]. bool_prop.
  split_and!; try done.
  - split; try done; intros;
      repeat match goal with
      | E : ?x = Some _, H : context [is_some ?x] |- _ => rewrite E in H; simpl in H
      | E : ?x = true, H : context [?x] |- _ => rewrite E in H; simpl in H
      end; bool_prop; congruence.
  - intros Heq. rewrite bool_decide_eq_true_2 in * by done. simpl in *. by bool_prop.
  - intros Heq. rewrite Heq in *. simpl in *. by opt_prop.
Qed.

Lemma with_readback_inv s r s' :
  StateInv s → is_u64 (r_revision r) → with_readback s r = Ok s' → StateInv s'.
Proof.
  intros I Hu (Hv & Hx & _ & _ & Hc & ->)%with_readback_Ok. destruct I.
  split; simpl; try done.
  - by left.
  - by rewrite (x_key _ _ Hx).
  - intros Hne. destruct (si_joined0 Hne) as [Hb Hr]. rewrite (x_key _ _ Hx). split; [|done].
    destruct (r_begun (record s)) as [b|] eqn:Eb; [|done]. by rewrite (x_begun _ _ Hx b Eb).
Qed.

Lemma from_record_inv r s :
  is_u64 (r_revision r) → from_record r = Ok s → StateInv s ∧ record s = r.
Proof.
  unfold from_record. intros Hu H. destruct (validate r) as [u|] eqn:Hv; simplify_eq/=.
  apply validate_Ok in Hv. split; [|done]. split; simpl; try done. by left.
Qed.

(** ** Histories of confirmed states *)

(** One confirmed change of the state, with the intents it grants. *)
Inductive lstep (s : State) : list Intent → State → Prop :=
| ls_decide ev t :
    event_ok ev → state_decide s ev = Ok (Some t) → lstep s (t_intents t) (t_state t)
| ls_readback r s' :
    is_u64 (r_revision r) → with_readback s r = Ok s' → lstep s [] s'.

Inductive history : State → list Intent → State → Prop :=
| h_nil s : history s [] s
| h_cons s s1 s2 i js : lstep s i s1 → history s1 js s2 → history s (i ++ js) s2.

Lemma lstep_inv s i s' : StateInv s → lstep s i s' → StateInv s'.
Proof.
  intros I [ev t Hev Hd|r s1 Hu Hr]; [by eapply state_decide_inv|by eapply with_readback_inv].
Qed.

Lemma lstep_extends s i s' : StateInv s → lstep s i s' → extends (record s) (record s').
Proof.
  intros I [ev t Hev Hd|r s1 Hu Hr]; [by eapply state_decide_extends|].
  by apply with_readback_Ok in Hr as (_ & ? & _ & _ & _ & ->).
Qed.

Lemma history_inv s js s' : StateInv s → history s js s' → StateInv s'.
Proof. intros I H. induction H; eauto using lstep_inv. Qed.

Lemma history_extends s js s' :
  StateInv s → history s js s' → extends (record s) (record s').
Proof.
  intros I H. induction H as [|s s1 s2 i js Hs Hh IH]; [done|].
  etrans; [by eapply lstep_extends|]. by apply IH, (lstep_inv s i).
Qed.

End Laws.
End WithCodec.
