(* ===== verification/Sample.v ===== *)
(** * A concrete codec and sample invocations

    An instance of [Codec] that satisfies [CodecLaws], used to evaluate the
    definitions on concrete inputs.  It stands in for SHA-256 and
    [serde_json] only in examples and witnesses; no theorem is about it. *)

From Stdlib Require Import ZArith Lia.
From stdpp Require Import base gmap list option numbers strings.
From S2P Require Import Prelude Contract Decide ContractFacts.

Local Open Scope Z_scope.

Definition tool_code (t : Tool) : Z :=
  match t with
  | View => 0 | Apply => 1 | Resolve => 2 | Search => 3
  | Check => 4 | Diff => 5 | Run => 6 | Docs => 7
  end.

Definition reason_code (r : FailureReason) : Z :=
  match r with
  | InvocationFailed => 0 | ResultTooLarge => 1 | Interrupted => 2
  | ResumeUnsupported => 3 | PersistenceFailed => 4 | OutcomeUncertain => 5
  | WorkspaceChanged => 6
  end.

Definition reason_of_code (z : Z) : option FailureReason :=
  match z with
  | 0 => Some InvocationFailed | 1 => Some ResultTooLarge | 2 => Some Interrupted
  | 3 => Some ResumeUnsupported | 4 => Some PersistenceFailed
  | 5 => Some OutcomeUncertain | 6 => Some WorkspaceChanged
  | _ => None
  end.

Definition sample_result (ok : bool) : DomainResult unit :=
  mkDomainResult ok None "" None [] [] [] [] [] None None None None None.

Definition sample_to_vec (v : OutcomeValue unit) : list Z :=
  match v with
  | CompletedValue r => [1; if dr_ok r then 1 else 0]
  | FailedValue r => [2; reason_code r]
  | CancelledValue => [3]
  end.

Definition sample_from_slice (bs : list Z) : option (OutcomeValue unit) :=
  match bs with
  | [1; 1] => Some (CompletedValue (sample_result true))
  | [1; 0] => Some (CompletedValue (sample_result false))
  | [2; c] => FailedValue <$> reason_of_code c
  | [3] => Some CancelledValue
  | _ => None
  end.

Definition sample_sha256 (bs : list Z) : Z :=
  foldl (λ h b, (h * 257 + b + 1) mod 2 ^ 256) 7 bs.

Definition sample_key_to_vec (k : Key) : list Z :=
  let 'mkInvocationId i := k_invocation k in
  let 'mkTaskId t := k_task k in
  [Z.of_N i; Z.of_N t; k_core k; tool_code (k_tool k); k_arguments k; k_scope k].

Definition opt_code {A} (f : A → list Z) (o : option A) : list Z :=
  match o with Some a => 1 :: f a | None => [0] end.
Definition bool_code (b : bool) : Z := if b then 1 else 0.

Definition sample_record_to_vec (r : ERecord) : list Z :=
  sample_key_to_vec (r_key r) ++ [r_revision r]
  ++ opt_code (λ a, [a_owner_hash a]) (r_accepted r)
  ++ opt_code (λ b, [b_started_epoch_ms b]) (r_begun r)
  ++ [bool_code (r_cancel_requested r)]
  ++ opt_code (λ d, [d]) (r_producer_digest r)
  ++ opt_code (λ d, [d]) (r_primary_digest r)
  ++ opt_code (λ a, [ack_digest a; ack_first_epoch_ms a]) (r_acknowledgement r)
  ++ [bool_code (r_public_task r); bool_code (r_compacted r)].

#[export] Instance sample_codec : Codec := {|
  Value := unit;
  sha256 := sample_sha256;
  key_to_vec := sample_key_to_vec;
  outcome_to_vec := sample_to_vec;
  outcome_from_slice := sample_from_slice;
  record_to_vec := sample_record_to_vec;
|}.

#[export] Instance sample_codec_laws : CodecLaws sample_codec.
Proof.
  split.
  - by intros [].
  - by intros [].
  - done.
Qed.

(** ** Sample invocations *)

Definition sample_outcome (ok : bool) : CanonicalOutcome :=
  @completed sample_codec (sample_result ok).

Definition sample_key (n : N) (t : Tool) : Key :=
  mkKey (mkInvocationId n) (mkTaskId (100 + n)) 11 t 22 33.

Definition sample_window : ObservationWindow := mkObservationWindow 1000 5000.
Definition sample_authority : ReadAuthority := mkReadAuthority 5 1 1.
Definition sample_run (k : Key) : RunIdentity := mkRunIdentity (attempt_of k) 1.

(** The state after an event, the same state when the event changes nothing. *)
Definition next_state (s : State) (ev : Event) : State :=
  match state_decide s ev with Ok (Some t) => t_state t | _ => s end.

Definition read_key : Key := sample_key 1 View.
Definition write_key : Key := sample_key 2 Apply.

Definition read_accepted : State := next_state (state_empty read_key) (Submit 77 sample_window).
Definition read_begun : State :=
  next_state read_accepted (Begin 2000 (Some sample_authority)).
Definition join_evidence (n : N) (at_ms : Z) : JoinEvidence :=
  mkJoinEvidence (sample_key n View) sample_authority at_ms.
Definition read_joined : State := next_state read_begun (Attach (join_evidence 3 7000)).
Definition first_member : Membership :=
  mkMembership (mkTaskId 103) 1 (attempt_of read_key).

Example read_accepted_revision : r_revision (record read_accepted) = 1.
Proof. vm_compute. reflexivity. Qed.
Example read_joined_observed :
  observe_holder read_joined first_member = Ok HolderWorking.
Proof. vm_compute. reflexivity. Qed.

(** ** A lossless record encoding

    [Countable] instances of the parts of a record, and the codec that writes
    a record as its code; unlike [sample_codec] it can be inverted. *)

Definition tool_of_code (z : Z) : Tool :=
  match z with
  | 0 => View | 1 => Apply | 2 => Resolve | 3 => Search
  | 4 => Check | 5 => Diff | 6 => Run | _ => Docs
  end.

#[export] Instance Tool_countable : Countable Tool.
Proof. refine (inj_countable' tool_code tool_of_code _). by intros []. Defined.

#[export] Instance Key_countable : Countable Key.
Proof.
  refine (inj_countable'
    (λ k, (k_invocation k, k_task k, k_core k, k_tool k, k_arguments k, k_scope k))
    (λ t, let '(a, b, c, d, e, f) := t in mkKey a b c d e f) _). by intros [].
Defined.

#[export] Instance FailureReason_countable : Countable FailureReason.
Proof.
  refine (inj_countable' reason_code (λ z, default WorkspaceChanged (reason_of_code z)) _).
  by intros [].
Defined.

#[export] Instance RunIdentity_countable : Countable RunIdentity.
Proof.
  refine (inj_countable'
    (λ r, (let 'mkAttemptId d := ri_attempt r in d, ri_generation r))
    (λ t, mkRunIdentity (mkAttemptId t.1) t.2) _). by intros [[]].
Defined.

#[export] Instance OutcomeKind_countable : Countable OutcomeKind.
Proof.
  refine (inj_countable'
    (λ k, match k with
          | KCompleted ok => inl ok
          | KFailed r => inr (Some r)
          | KCancelled => inr None
          end)
    (λ t, match t with
          | inl ok => KCompleted ok
          | inr (Some r) => KFailed r
          | inr None => KCancelled
          end) _). by intros [].
Defined.

#[export] Instance OutcomeDescriptor_countable : Countable OutcomeDescriptor.
Proof.
  refine (inj_countable' (λ d, (od_kind d, od_digest d, od_length d))
    (λ t, let '(a, b, c) := t in mkOutcomeDescriptor a b c) _). by intros [].
Defined.

#[export] Instance Accepted_countable : Countable Accepted.
Proof.
  refine (inj_countable'
    (λ a, (a_owner_hash a, received_epoch_ms (a_window a), budget_ms (a_window a)))
    (λ t, let '(a, b, c) := t in mkAccepted a (mkObservationWindow b c)) _). by intros [? []].
Defined.

#[export] Instance ReadAuthority_countable : Countable ReadAuthority.
Proof.
  refine (inj_countable' (λ a, (ra_source a, ra_actor_generation a, ra_mutation_generation a))
    (λ t, let '(a, b, c) := t in mkReadAuthority a b c) _). by intros [].
Defined.

#[export] Instance Begun_countable : Countable Begun.
Proof.
  refine (inj_countable' (λ b, (b_run b, b_started_epoch_ms b, b_read_authority b))
    (λ t, let '(a, b, c) := t in mkBegun a b c) _). by intros [].
Defined.

#[export] Instance AckRecord_countable : Countable AckRecord.
Proof.
  refine (inj_countable' (λ a, (ack_digest a, ack_first_epoch_ms a))
    (λ t, mkAckRecord t.1 t.2) _). by intros [].
Defined.

#[export] Instance ERecord_countable : Countable ERecord.
Proof.
  refine (inj_countable'
    (λ r, (r_key r, r_revision r, r_accepted r, r_begun r, r_cancel_requested r, r_producer r,
           (r_producer_digest r, r_primary_override r, r_primary_digest r, r_acknowledgement r,
            r_public_task r, r_compacted r)))
    (λ t, let '(a, b, c, d, e, f, (g, h, i, j, k, l)) := t in
          mkERecord a b c d e f g h i j k l) _). by intros [].
Defined.

Definition exact_codec : Codec := {|
  Value := unit;
  sha256 := sample_sha256;
  key_to_vec := sample_key_to_vec;
  outcome_to_vec := sample_to_vec;
  outcome_from_slice := sample_from_slice;
  record_to_vec r := [Z.pos (encode r)];
|}.
