(* ===== verification/ContractProps.v ===== *)
(** * The execution contract: properties

    What [State::decide] promises over every history of confirmed changes
    (transitions and readbacks) that starts at [State::empty] or at a
    recovered record: the records stay valid and only grow, a worker is
    started at most once, a retried event changes nothing, followers of a
    shared read are isolated from the owner, recovery never invents a
    result. *)

From Stdlib Require Import ZArith Lia.
From stdpp Require Import base gmap list option numbers.
From S2P Require Import Prelude Contract Decide ContractFacts Sample.

Local Open Scope Z_scope.

(** Close a goal whose hypothesis claims an intent that is not in the list. *)
Ltac no_intent Hin :=
  exfalso; simpl in Hin;
  repeat (apply elem_of_cons in Hin as [Hin|Hin]; [discriminate Hin|]);
  by apply not_elem_of_nil in Hin.

Section WithCodec.
Context {C : Codec} {L : CodecLaws C}.

(** Where a state can start: empty, or recovered from a durable record. *)
Inductive origin : State → Prop :=
| origin_empty k : origin (state_empty k)
| origin_record r s : is_u64 (r_revision r) → from_record r = Ok s → origin s.

Definition reachable (s : State) : Prop := ∃ s0 js, origin s0 ∧ history s0 js s.

Lemma origin_inv s : origin s → StateInv s.
Proof. intros [k|r s' Hu Hr]; [apply state_empty_inv|by eapply from_record_inv]. Qed.

Lemma reachable_inv s : reachable s → StateInv s.
Proof. intros (s0 & js & Ho & Hh). eapply history_inv; eauto using origin_inv. Qed.

(** Run a list of events, keeping only those that change the state. *)
Fixpoint run_events (s : State) (evs : list Event) : list Intent * State :=
  match evs with
  | [] => ([], s)
  | ev :: evs =>
      match state_decide s ev with
      | Ok (Some t) =>
          let '(js, s') := run_events (t_state t) evs in (t_intents t ++ js, s')
      | _ => run_events s evs
      end
  end.

Lemma run_events_history s evs js s' :
  Forall event_ok evs → run_events s evs = (js, s') → history s js s'.
Proof.
  revert s js. induction evs as [|ev evs IH]; simpl; intros s js Hev H.
  { simplify_eq. constructor. }
  apply Forall_cons_iff in Hev as [Hev Hevs].
  destruct (state_decide s ev) as [[t|]|] eqn:Hd; eauto.
  destruct (run_events (t_state t) evs) as [js1 s1] eqn:Hr. simplify_eq.
  eapply h_cons; [by eapply ls_decide|eauto].
Qed.

Lemma reachable_run k evs :
  Forall event_ok evs → reachable (run_events (state_empty k) evs).2.
Proof.
  intros Hev. destruct (run_events (state_empty k) evs) as [js s] eqn:Hr.
  exists (state_empty k), js. split; [constructor|by eapply run_events_history].
Qed.

(** ** Intents of one step *)

Lemma lstep_run s js s' rid :
  lstep s js s' → IRun rid ∈ js →
  js = [IRun rid] ∧ rid = mkRunIdentity (attempt_of (r_key (record s))) 1
  ∧ r_accepted (record s) ≠ None ∧ r_cancel_requested (record s) = false
  ∧ r_producer_digest (record s) = None ∧ r_begun (record s) = None
  ∧ r_begun (record s') ≠ None.
Proof.
  intros [ev t Hev Hd|r s1 Hu Hr] Hin; [|by apply not_elem_of_nil in Hin].
  apply state_decide_Some in Hd as (t0 & Hd & Hs).
  apply seal_Some in Hs as (Hr & _ & _ & _ & Hi & _). rewrite Hi in *. rewrite Hr.
  clear Hr Hi. destruct ev; simpl in Hd;
    unfold decide_submit, decide_cancel, decide_outcome, decide_admission_rejected,
      decide_expose_task, decide_acknowledge, decide_attach, decide_holder,
      decide_recover in Hd; try (by break Hd; no_intent Hin).
  unfold decide_begin in Hd. break Hd. simpl in Hin. apply list_elem_of_singleton in Hin.
  simplify_eq. opt_prop. split_and!; try done; try congruence.
  simpl. by case_match.
Qed.

Lemma history_run_cancelled s js s' :
  StateInv s → history s js s' →
  r_cancel_requested (record s) = true ∨ r_producer_digest (record s) ≠ None
    ∨ r_begun (record s) ≠ None →
  ∀ rid, IRun rid ∉ js.
Proof.
  intros I H. induction H as [|s s1 s2 i js Hs Hh IH]; intros Hc rid.
  { apply not_elem_of_nil. }
  pose proof (lstep_extends _ _ _ I Hs) as Hx.
  rewrite elem_of_app. intros [Hin|Hin].
  - destruct (lstep_run _ _ _ _ Hs Hin) as (_ & _ & _ & ? & ? & ? & _).
    destruct Hc as [?|[?|?]]; congruence.
  - eapply IH; [by eapply lstep_inv| |done]. destruct Hc as [Hc|[Hc|Hc]].
    + left. by apply (x_cancel _ _ Hx).
    + right; left. destruct (r_producer_digest (record s)) as [d|] eqn:E; [|done].
      by rewrite (x_producer_digest _ _ Hx d E).
    + right; right. destruct (r_begun (record s)) as [b|] eqn:E; [|done].
      by rewrite (x_begun _ _ Hx b E).
Qed.

Definition is_run (j : Intent) : bool := match j with IRun _ => true | _ => false end.
Definition run_count (js : list Intent) : nat := length (List.filter is_run js).

Lemma run_count_app js1 js2 : run_count (js1 ++ js2) = (run_count js1 + run_count js2)%nat.
Proof. unfold run_count. by rewrite List.filter_app, length_app. Qed.

Lemma run_count_zero js : (∀ rid, IRun rid ∉ js) → run_count js = 0%nat.
Proof.
  induction js as [|j js IH]; [done|]. intros H. unfold run_count in *. simpl.
  destruct j as [|rid| | |]; simpl; try (apply IH; set_solver). destruct (H rid). by left.
Qed.

Lemma run_count_pos js : run_count js ≠ 0%nat → ∃ rid, IRun rid ∈ js.
Proof.
  unfold run_count. destruct (List.filter is_run js) as [|j l] eqn:Hf; [done|]. intros _.
  assert (Hj : In j (List.filter is_run js)) by (rewrite Hf; by left).
  apply filter_In in Hj as [Hj Hr]. destruct j; try done. exists run. by apply list_elem_of_In.
Qed.

(** How many runs the contract may still grant. *)
Definition run_budget (s : State) : nat := if is_some (r_begun (record s)) then 0 else 1.

Lemma lstep_budget s js s' :
  StateInv s → lstep s js s' → (run_count js + run_budget s' ≤ run_budget s)%nat.
Proof.
  intros I Hs. destruct (decide (run_count js = 0%nat)) as [->|[rid Hin]%run_count_pos].
  - pose proof (lstep_extends _ _ _ I Hs) as Hx. unfold run_budget.
    destruct (r_begun (record s)) as [b|] eqn:Hb; simpl.
    + by rewrite (x_begun _ _ Hx b Hb).
    + destruct (r_begun (record s')); simpl; lia.
  - destruct (lstep_run _ _ _ _ Hs Hin) as (-> & _ & _ & _ & _ & Hb & Hb').
    unfold run_budget, run_count. rewrite Hb. by destruct (r_begun (record s')).
Qed.

Lemma history_budget s js s' :
  StateInv s → history s js s' → (run_count js + run_budget s' ≤ run_budget s)%nat.
Proof.
  intros I H. induction H as [|s s1 s2 i js Hs Hh IH]; [unfold run_count; simpl; lia|].
  rewrite run_count_app. specialize (IH (lstep_inv _ _ _ I Hs)).
  pose proof (lstep_budget _ _ _ I Hs). lia.
Qed.

Lemma history_run_count s js s' :
  StateInv s → history s js s' → (run_count js ≤ 1)%nat.
Proof.
  intros I H. pose proof (history_budget _ _ _ I H). unfold run_budget in *.
  destruct (r_begun (record s)); simpl in *; lia.
Qed.

(** ** Refusals *)

Lemma decide_event_not_invalid s ev : decide_event s ev ≠ Err InvalidRecord.
Proof.
  intros H. destruct ev; simpl in H;
    unfold decide_submit, decide_cancel, decide_begin, decide_outcome,
      decide_admission_rejected, decide_expose_task, decide_acknowledge,
      decide_attach, decide_holder, decide_recover, ok_or in H; break H;
    by repeat case_match.
Qed.

Lemma state_decide_not_invalid s ev :
  StateInv s → event_ok ev → state_decide s ev ≠ Err InvalidRecord.
Proof.
  intros I Hev H. destruct (decide_event s ev) as [[t|]|e] eqn:Hd.
  - pose proof (state_decide_total _ _ _ I Hev Hd) as Ht. case_match; [|congruence].
    destruct Ht as [t' Ht]. congruence.
  - unfold state_decide in H. by rewrite Hd in H.
  - unfold state_decide in H. rewrite Hd in H. simplify_eq.
    by eapply decide_event_not_invalid.
Qed.

(** ** Followers of a shared read *)

Lemma all_cancelled_empty : all_values h_cancelled (∅ : gmap TaskId Holder) = true.
Proof. by apply all_values_true, map_Forall_empty. Qed.

Lemma decide_event_cancel s ev t :
  StateInv s → decide_event s ev = Ok (Some t) → ICancel ∈ t_intents t →
  all_values h_cancelled (holders (t_state t)) = true
  ∧ r_cancel_requested (record (t_state t)) = true
  ∧ r_producer_digest (record (t_state t)) = None ∧ joins_closed (t_state t) = true.
Proof.
  intros I Hd Hin. destruct ev; simpl in Hd;
    unfold decide_submit, decide_begin, decide_outcome, decide_admission_rejected,
      decide_expose_task, decide_acknowledge, decide_attach, decide_recover in Hd;
    try (by break Hd; no_intent Hin).
  - unfold decide_cancel in Hd. break Hd; try no_intent Hin; simpl; opt_prop.
    + done.
    + split_and!; try done. assert (holders s = ∅) as ->; [|apply all_cancelled_empty].
      destruct (map_is_empty (holders s)) eqn:He; [by opt_prop|].
      apply map_is_empty_false in He.
      destruct (si_joined s I He) as [_ Hr]. rewrite Hr in *. done.
  - unfold decide_holder in Hd. break Hd; try no_intent Hin; simpl; by opt_prop.
  - unfold decide_holder in Hd. break Hd; try no_intent Hin; simpl; by opt_prop.
Qed.

Lemma history_generation s js s' :
  StateInv s → history s js s' →
  membership_generation s ≤ membership_generation s'
  ∧ ∀ a h', holders s' !! a = Some h' → h_generation h' ≤ membership_generation s →
      ∃ h, holders s !! a = Some h ∧ h_generation h = h_generation h'.
Proof.
  intros I H. induction H as [|s s1 s2 i js Hs Hh IH]; [split; [lia|eauto]|].
  pose proof (lstep_inv _ _ _ I Hs) as I1. destruct (IH I1) as [Hle Hback].
  assert (Hstep : membership_generation s ≤ membership_generation s1
    ∧ ∀ a h', holders s1 !! a = Some h' → h_generation h' ≤ membership_generation s →
      ∃ h, holders s !! a = Some h ∧ h_generation h = h_generation h').
  { destruct Hs as [ev t Hev Hd|r s1 Hu (_&_&_&_&_&->)%with_readback_Ok]; [|split; [done|eauto]].
    apply state_decide_Some in Hd as (t0 & Hd & Hs).
    apply seal_Some in Hs as (_ & Hhs & Hmg & _). rewrite Hhs, Hmg.
    destruct (decide_event_frame _ _ _ Hd) as [_ Hst].
    destruct Hst as [-> ->|a Hno _ _ -> -> _ _ _|a h Hl -> ->|a h Hl -> ->].
    - split; [done|eauto].
    - split; [lia|]. intros b h'. rewrite lookup_insert. case_decide; [|eauto].
      intros [= <-]; simpl. lia.
    - split; [done|]. intros b h'. rewrite lookup_insert. case_decide; [|eauto].
      intros [= <-] _. subst. eauto.
    - split; [done|]. intros b h'. rewrite lookup_delete. case_decide; [done|eauto]. }
  destruct Hstep as [Hle1 Hback1]. split; [lia|]. intros a h' Hl Hg.
  destruct (Hback a h' Hl ltac:(lia)) as (h1 & Hl1 & Hg1).
  destruct (Hback1 a h1 Hl1 ltac:(lia)) as (h & Hl0 & Hg0). exists h. split; [done|lia].
Qed.

Lemma observe_stale s m :
  observe_holder s m = Err StaleMembership ↔
  ∀ h, holders s !! m_alias m = Some h →
    m_producer m = attempt_of (r_key (record s)) → h_generation h ≠ m_generation m.
Proof.
  unfold observe_holder. destruct (holders s !! m_alias m) as [h|]; simpl; [|naive_solver].
  repeat case_bool_decide; simpl; try naive_solver.
  destruct (h_cancelled h); naive_solver.
Qed.

(** ** Joining *)

Lemma window_new_end w :
  0 ≤ received_epoch_ms w → 0 ≤ budget_ms w →
  is_ok (window_new (received_epoch_ms w) (budget_ms w)) = true →
  end_epoch_ms w = received_epoch_ms w + budget_ms w ∧ budget_ms w ≤ 7000.
Proof.
  unfold window_new, end_epoch_ms. intros Hr Hb H.
  destruct (_ || _) eqn:E; [done|]. opt_prop.
  match goal with E : u64_checked_add _ _ = Some _ |- _ => apply u64_checked_add_Some in E as [-> ?] end.
  rewrite u64_wrapping_add_small by lia. done.
Qed.

Lemma join_refused_false s a b e :
  is_u64 (je_observed_epoch_ms e) → is_u64 (b_started_epoch_ms b) →
  is_u64 (received_epoch_ms (a_window a)) → is_u64 (budget_ms (a_window a)) →
  is_ok (window_new (received_epoch_ms (a_window a)) (budget_ms (a_window a))) = true →
  join_refused s a b e = false ↔
  joins_closed s = false ∧ r_cancel_requested (record s) = false
  ∧ r_producer_digest (record s) = None ∧ is_read (k_tool (r_key (record s))) = true
  ∧ same_request (r_key (record s)) (je_request e) = true
  ∧ b_read_authority b = Some (je_authority e)
  ∧ received_epoch_ms (a_window a) + budget_ms (a_window a) ≤ je_observed_epoch_ms e
  ∧ b_started_epoch_ms b ≤ je_observed_epoch_ms e ≤ b_started_epoch_ms b + 30000
  ∧ alias_id e ≠ k_task (r_key (record s)) ∧ holders s !! alias_id e = None.
Proof.
  intros [? ?] [? ?] [Hr _] [Hb _] Hw.
  destruct (window_new_end (a_window a) Hr Hb Hw) as [Hend _].
  unfold join_refused, alias_id. rewrite Hend. split.
  - intros Hj. opt_prop.
    rewrite u64_wrapping_sub_small in * by (unfold u64_max in *; lia).
    split_and!; try done; lia.
  - intros (J1 & J2 & J3 & J4 & J5 & J6 & J7 & [J8 J9] & J10 & J11).
    rewrite J1, J2, J3, J4, J5, J6, J11. simpl.
    rewrite u64_wrapping_sub_small by (unfold u64_max in *; lia).
    rewrite !bool_decide_eq_false_2 by naive_solver.
    rewrite !(proj2 (Z.ltb_ge _ _)) by lia. done.
Qed.

Lemma attach_event s e b a :
  r_begun (record s) = Some b → r_accepted (record s) = Some a →
  membership_generation s < u64_max →
  decide_event s (Attach e) =
    if join_refused s a b e then Err NotJoinable
    else Ok (Some (mkTransition
      (mkState (record s) (<[alias_id e := mkHolder (membership_generation s + 1) false]>
         (holders s)) (membership_generation s + 1) (joins_closed s))
      [IAttached (mkMembership (alias_id e) (membership_generation s + 1)
         (attempt_of (r_key (record s))))] delta_keep)).
Proof.
  intros Hb Ha Hmg. simpl. unfold decide_attach. rewrite Hb, Ha. simpl. case_match; [done|].
  by rewrite (proj2 (u64_checked_add_Some _ 1 _)) by (split; [done|lia]).
Qed.

(** ** Replaying an event *)

(** The facts sealing keeps: all but the revision and compaction. *)
Record sealed_from (s s' : State) : Prop := {
  sf_key : r_key (record s') = r_key (record s);
  sf_accepted : r_accepted (record s') = r_accepted (record s);
  sf_begun : r_begun (record s') = r_begun (record s);
  sf_cancel : r_cancel_requested (record s') = r_cancel_requested (record s);
  sf_producer : r_producer_digest (record s') = r_producer_digest (record s);
  sf_override : r_primary_override (record s') = r_primary_override (record s);
  sf_ack : r_acknowledgement (record s') = r_acknowledgement (record s);
  sf_public : r_public_task (record s') = r_public_task (record s);
  sf_holders : holders s' = holders s;
}.

Lemma seal_from t t' : seal t = Ok (Some t') → sealed_from (t_state t) (t_state t').
Proof.
  intros (Hr & Hh & _)%seal_Some. split; [rewrite Hr; simpl; by case_match..|done].
Qed.

Lemma replay_cancel s t s' t' :
  decide_cancel s = Ok (Some t) → sealed_from (t_state t) s' →
  decide_cancel s' ≠ Ok (Some t').
Proof.
  intros Hd [Hkey Ha Hb Hc Hp Ho _ _ Hh] Hd'. unfold decide_cancel in Hd, Hd'.
  rewrite Hkey, Ha, Hb, Hc, Hp, Ho, Hh in Hd'. clear Hkey Ha Hb Hc Hp Ho Hh.
  break Hd; simpl in Hd'; rewrite ?orb_true_r in Hd'; try done;
    opt_prop; break Hd'; opt_prop; try congruence.
  apply andb_false_iff in E2 as [?|?]; opt_prop; congruence.
Qed.

Lemma replay_outcome s rid o t s' t' :
  decide_outcome s rid o = Ok (Some t) → sealed_from (t_state t) s' →
  decide_outcome s' rid o ≠ Ok (Some t').
Proof.
  intros Hd [_ _ _ _ Hp _ _ _ _] Hd'. unfold decide_outcome in Hd, Hd'.
  rewrite Hp in Hd'. break Hd. unfold settle_behind_override in Hd'.
  break Hd'; by case_match.
Qed.

Lemma replay_holder s m retire t s' t' :
  decide_holder s m retire = Ok (Some t) → sealed_from (t_state t) s' →
  decide_holder s' m retire ≠ Ok (Some t').
Proof.
  intros Hd [_ _ _ _ _ _ _ _ Hh] Hd'. unfold decide_holder in Hd, Hd'.
  destruct (holders s !! m_alias m) as [h|]; [|done]. simpl in Hd.
  assert (Hhs : holders (t_state t) = if retire then delete (m_alias m) (holders s)
      else <[m_alias m := mkHolder (h_generation h) true]> (holders s)).
  { break Hd; done. }
  rewrite Hh, Hhs in Hd'. destruct retire.
  - by rewrite lookup_delete_eq in Hd'.
  - rewrite lookup_insert_eq in Hd'. simpl in Hd'. break Hd'.
Qed.

Lemma replay_attach s e t s' t' :
  decide_attach s e = Ok (Some t) → sealed_from (t_state t) s' →
  decide_attach s' e ≠ Ok (Some t').
Proof.
  intros Hd [_ _ _ _ _ _ _ _ Hh] Hd'. unfold decide_attach in Hd. break Hd.
  unfold decide_attach, join_refused in Hd'. rewrite Hh in Hd'. simpl in Hd'.
  rewrite lookup_insert_eq in Hd'. simpl in Hd'.
  do 2 (destruct (ok_or _ _) in Hd'; [|done]). by rewrite orb_true_r in Hd'.
Qed.

Lemma replay_recover s t s' t' :
  decide_recover s = Ok (Some t) → sealed_from (t_state t) s' →
  decide_recover s' ≠ Ok (Some t').
Proof.
  intros Hd [_ _ _ _ Hp _ _ _ _] Hd'. unfold decide_recover in Hd, Hd'.
  rewrite Hp in Hd'. break Hd. unfold settle_behind_override in Hd'. simpl in Hd'.
  destruct (is_none (r_primary_override _)); simpl in Hd'; rewrite orb_true_r in Hd'; done.
Qed.

Lemma decide_event_replay s ev t s' t' :
  decide_event s ev = Ok (Some t) → sealed_from (t_state t) s' →
  decide_event s' ev ≠ Ok (Some t').
Proof.
  destruct ev as [owner w| |started auth|rid o|o| |owner d at_ms|e|m|m|]; simpl;
    eauto using replay_cancel, replay_outcome, replay_holder, replay_attach, replay_recover.
  - intros Hd [_ Ha _ _ _ _ _ _ _] Hd'. unfold decide_submit in Hd, Hd'. rewrite Ha in Hd'.
    break Hd; simpl in Hd'; break Hd'; by bool_prop.
  - intros Hd [_ _ Hb _ _ _ _ _ _] Hd'. unfold decide_begin in Hd, Hd'. rewrite Hb in Hd'.
    break Hd; break Hd'.
  - intros Hd [_ Ha Hb _ Hp _ _ _ _] Hd'. unfold decide_admission_rejected in Hd, Hd'.
    rewrite Ha, Hb, Hp in Hd'. break Hd; break Hd'.
  - intros Hd [_ _ _ _ _ _ _ Ht _] Hd'. unfold decide_expose_task in Hd, Hd'.
    rewrite Ht in Hd'. break Hd; break Hd'.
  - intros Hd [_ _ _ _ _ _ Hk _ _] Hd'. unfold decide_acknowledge in Hd, Hd'.
    rewrite Hk in Hd'. break Hd; break Hd'.
Qed.

(** ** Compaction *)

Lemma compacted_decide_event s ev t :
  StateInv s → r_compacted (record s) = true → decide_event s ev ≠ Ok (Some t).
Proof.
  intros I Hc Hd.
  destruct (si_record s I) as [[_ V]|He]; [|by rewrite He in Hc].
  destruct (vr_compacted _ V Hc) as (Hack & Hpub & Hprod).
  pose proof (si_compacted s I Hc) as Hh.
  assert (Hacc : r_accepted (record s) ≠ None).
  { intros Ha. destruct (vr_unaccepted _ V Ha) as (_&_&_&_&_&_&_&_&?). congruence. }
  assert (Hpd : r_producer_digest (record s) ≠ None).
  { rewrite (vr_producer_digest _ V). by destruct (r_producer (record s)). }
  destruct ev; simpl in Hd;
    unfold decide_submit, decide_cancel, decide_begin, decide_outcome,
      decide_admission_rejected, decide_expose_task, decide_acknowledge,
      decide_attach, join_refused, decide_holder, decide_recover in Hd;
    rewrite ?Hh, ?lookup_empty in Hd; break Hd; opt_prop; congruence.
Qed.

(** ** Properties *)

(** C1. On every reachable state the closing [validate] of [decide] is
    redundant: an event built by the public constructors never fails with
    [InvalidRecord], and the state it leads to satisfies the full invariant
    (a valid record, holders with distinct generations, no holder on a
    compacted record). *)
Theorem decide_reachable_valid s ev :
  reachable s → event_ok ev →
  state_decide s ev ≠ Err InvalidRecord
  ∧ (∀ t, state_decide s ev = Ok (Some t) → StateInv (t_state t)).
Proof.
  intros I%reachable_inv Hev. split; [by apply state_decide_not_invalid|].
  intros t. by apply state_decide_inv.
Qed.

(** C2. Durable facts are write-once: along any history the accepted owner,
    the begun run, the producer and primary digests, the cancelled override,
    the acknowledgement, the Task promise, a requested cancellation and
    compaction are never changed or lost, and every transition advances the
    revision by exactly one. *)
Theorem decide_write_once s js s' :
  reachable s → history s js s' →
  extends (record s) (record s')
  ∧ (∀ ev t, state_decide s' ev = Ok (Some t) →
       r_revision (record (t_state t)) = r_revision (record s') + 1).
Proof.
  intros I%reachable_inv Hh. split; [by eapply history_extends|].
  intros ev t Hd. eapply state_decide_extends; [|done]. by eapply history_inv.
Qed.

(** C3. At most one run is ever granted: over any history from a reachable
    state the intents contain at most one [Intent::Run]. *)
Theorem run_intent_at_most_once s js s' :
  reachable s → history s js s' → (run_count js ≤ 1)%nat.
Proof. intros I%reachable_inv. by apply history_run_count. Qed.

(** Cancellation, a terminal outcome and a begun run each close the door
    on starting a worker: after any of them no history grants a run. *)
Theorem no_run_after_cancel s js s' rid :
  reachable s → history s js s' →
  r_cancel_requested (record s) = true ∨ r_producer_digest (record s) ≠ None
    ∨ r_begun (record s) ≠ None →
  IRun rid ∉ js.
Proof. intros I%reachable_inv Hh Hc. by eapply history_run_cancelled. Qed.

(** Events are idempotent: once an event has changed the state, deciding
    the same event again on the new state changes nothing (it is either a
    no-op or an error). *)
Theorem decide_replay s ev t t' :
  state_decide s ev = Ok (Some t) → state_decide (t_state t) ev ≠ Ok (Some t').
Proof.
  intros (t0 & Hd & Hs)%state_decide_Some (t1 & Hd' & _)%state_decide_Some.
  exact (decide_event_replay _ _ _ _ _ Hd (seal_from _ _ Hs) Hd').
Qed.

(** Compaction is final: on a reachable compacted state no event produces a
    transition. *)
Theorem compacted_terminal s ev t :
  reachable s → r_compacted (record s) = true → state_decide s ev ≠ Ok (Some t).
Proof.
  intros I%reachable_inv Hc (t0 & Hd & _)%state_decide_Some.
  by eapply compacted_decide_event.
Qed.

(** A follower joins only a running read of the same request: an [Attach]
    succeeds exactly when the record is begun and accepted, is a read, has no
    outcome and no cancellation, joins are open, the request and the read
    authority match, the follower is new, and the observation lies between
    the end of the owner's window and thirty seconds after the start, with no
    wrap-around in the [u64] comparisons. *)
Theorem attach_guard s e b a :
  reachable s → r_begun (record s) = Some b → r_accepted (record s) = Some a →
  is_u64 (je_observed_epoch_ms e) → is_u64 (b_started_epoch_ms b) →
  is_u64 (received_epoch_ms (a_window a)) → is_u64 (budget_ms (a_window a)) →
  membership_generation s < u64_max → r_revision (record s) < u64_max →
  (∃ t, state_decide s (Attach e) = Ok (Some t)) ↔
  joins_closed s = false ∧ r_cancel_requested (record s) = false
  ∧ r_producer_digest (record s) = None ∧ is_read (k_tool (r_key (record s))) = true
  ∧ same_request (r_key (record s)) (je_request e) = true
  ∧ b_read_authority b = Some (je_authority e)
  ∧ received_epoch_ms (a_window a) + budget_ms (a_window a) ≤ je_observed_epoch_ms e
  ∧ b_started_epoch_ms b ≤ je_observed_epoch_ms e ≤ b_started_epoch_ms b + 30000
  ∧ alias_id e ≠ k_task (r_key (record s)) ∧ holders s !! alias_id e = None.
Proof.
  intros I%reachable_inv Hb Ha Hu1 Hu2 Hu3 Hu4 Hmg Hrev.
  assert (V : ValidBody (record s)) by (apply base_valid; [apply I|congruence]).
  rewrite <- join_refused_false by (done || by apply V).
  pose proof (attach_event s e b a Hb Ha Hmg) as Hd. split.
  - intros [t (t0 & Hd' & _)%state_decide_Some]. destruct (join_refused s a b e); congruence.
  - intros Hj. rewrite Hj in Hd.
    pose proof (state_decide_total s (Attach e) _ I Logic.I Hd) as Ht.
    by rewrite (proj2 (Z.ltb_lt _ _)) in Ht by done.
Qed.

(** C4. A membership that has become stale stays stale: generations are never
    reused, so a token of a retired follower is refused by every later state,
    even when its alias joins again. *)
Theorem retired_membership_stale s m js s' :
  reachable s → m_generation m ≤ membership_generation s →
  observe_holder s m = Err StaleMembership → history s js s' →
  observe_holder s' m = Err StaleMembership.
Proof.
  intros I%reachable_inv Hg Hst Hh. rewrite observe_stale in Hst |- *. intros h' Hl Hp Heq.
  destruct (history_generation _ _ _ I Hh) as [_ Hback].
  destruct (Hback _ _ Hl ltac:(lia)) as (h & Hl0 & Hg0).
  apply (Hst h Hl0); [|lia]. by rewrite <- (x_key _ _ (history_extends _ _ _ I Hh)).
Qed.

(** C5. A live follower protects the producer: a worker is told to cancel only
    by a transition after which every remaining follower is cancelled; the
    record then carries the cancellation, has no outcome and admits no
    further joins. *)
Theorem cancel_intent_spares_followers s ev t :
  reachable s → state_decide s ev = Ok (Some t) → ICancel ∈ t_intents t →
  (∀ a h, holders (t_state t) !! a = Some h → h_cancelled h = true)
  ∧ r_cancel_requested (record (t_state t)) = true
  ∧ r_producer_digest (record (t_state t)) = None ∧ joins_closed (t_state t) = true.
Proof.
  intros I%reachable_inv (t0 & Hd & Hs)%state_decide_Some Hin.
  pose proof (seal_from _ _ Hs) as Hf.
  apply seal_Some in Hs as (_ & _ & _ & Hj & Hi & _). rewrite Hi in Hin.
  destruct (decide_event_cancel _ _ _ I Hd Hin) as (Hall & Hc & Hp & Hcl).
  rewrite (sf_cancel _ _ Hf), (sf_producer _ _ Hf), (sf_holders _ _ Hf), Hj.
  split_and!; try done. apply all_values_true in Hall. exact Hall.
Qed.

(** The last live follower to leave a cancelled owner stops the producer:
    when the owner is cancelled, the run has no outcome and every follower but
    one is cancelled, both cancelling and retiring that one emit the
    cancellation intent. *)
Theorem last_follower_cancels s m h retire :
  reachable s → r_revision (record s) < u64_max →
  r_primary_override (record s) ≠ None → r_producer_digest (record s) = None →
  holders s !! m_alias m = Some h → h_cancelled h = false →
  h_generation h = m_generation m → m_producer m = attempt_of (r_key (record s)) →
  (∀ a h', holders s !! a = Some h' → a ≠ m_alias m → h_cancelled h' = true) →
  ∃ t, state_decide s (if retire : bool then RetireHolder m else CancelHolder m) = Ok (Some t)
    ∧ t_intents t = [ICancel].
Proof.
  intros I%reachable_inv Hrev Hov Hpd Hl Hc Hg Hp Hall.
  set (ev := if retire then _ else _).
  assert (Hd : ∃ t, decide_event s ev = Ok (Some t) ∧ t_intents t = [ICancel]).
  { replace (decide_event s ev) with (decide_holder s m retire)
      by (unfold ev; by destruct retire).
    unfold decide_holder. rewrite Hl. simpl.
    rewrite !bool_decide_eq_false_2 by naive_solver. simpl.
    rewrite Hc, Hpd. simpl. rewrite andb_false_r.
    rewrite (proj2 (all_values_true h_cancelled _)).
    - destruct (r_primary_override (record s)); [|done]. simpl. eauto.
    - intros a h'. destruct retire.
      + rewrite lookup_delete. case_decide; [done|]. intros. by eapply Hall.
      + rewrite lookup_insert. case_decide; [by intros [= <-]|]. intros. by eapply Hall. }
  destruct Hd as (t & Hd & Hi).
  assert (Hev : event_ok ev) by (unfold ev; by destruct retire).
  pose proof (state_decide_total _ _ _ I Hev Hd) as Ht.
  rewrite (proj2 (Z.ltb_lt _ _)) in Ht by done. destruct Ht as [t' Ht]. exists t'.
  split; [done|]. apply state_decide_Some in Ht as (t1 & Hd1 & Hs). simplify_eq.
  apply seal_Some in Hs as (_ & _ & _ & _ & -> & _). congruence.
Qed.

(** Owner and follower see their own outcomes: when the owner of a shared
    read cancels and the producer then reports [o], the owner's primary
    outcome is the cancellation while every live follower observes [o]. *)
Theorem follower_sees_producer_outcome s o t m h :
  reachable s → outcome_built o → r_primary_override (record s) ≠ None →
  r_producer_digest (record s) = None →
  state_decide s (Outcome (mkRunIdentity (attempt_of (r_key (record s))) 1) o) = Ok (Some t) →
  holders s !! m_alias m = Some h → h_cancelled h = false →
  h_generation h = m_generation m → m_producer m = attempt_of (r_key (record s)) →
  observe_holder (t_state t) m = Ok (HolderTerminal (descriptor o))
  ∧ primary (record (t_state t)) = Some (descriptor cancelled)
  ∧ r_producer_digest (record (t_state t)) = Some (co_digest o)
  ∧ r_primary_digest (record (t_state t)) = Some (co_digest cancelled).
Proof.
  intros I%reachable_inv Ho Hov Hpd Hd Hl Hc Hg Hp.
  destruct (state_decide_extends _ _ _ I Hd) as [Hx _].
  apply state_decide_Some in Hd as (t0 & Hd & Hs). simpl in Hd. unfold decide_outcome in Hd.
  rewrite Hpd in Hd. break Hd. pose proof (seal_from _ _ Hs) as Hf.
  apply seal_Some in Hs as (Hr & _ & _ & _ & _ & _ & _ & [_ V]).
  destruct (r_primary_override (record s)) as [ov|] eqn:Eov; [|done].
  pose proof (x_override _ _ Hx _ Eov) as Hov'.
  destruct (vr_override _ V _ Hov') as (_ & -> & Hpdig & _).
  assert (Hprod : r_producer (record (t_state t)) = Some (descriptor o)).
  { rewrite Hr. clear Hr. simpl. unfold settle_behind_override. rewrite Eov. simpl.
    by destruct (must_compact _). }
  split_and!.
  - unfold observe_holder. rewrite (sf_holders _ _ Hf). simpl. rewrite Hl. simpl.
    rewrite (x_key _ _ Hx), !bool_decide_eq_false_2 by naive_solver. simpl.
    by rewrite Hc, Hprod.
  - unfold primary, or_option. by rewrite Hov'.
  - by rewrite (vr_producer_digest _ V), Hprod.
  - done.
Qed.

(** Recovery settles every accepted, unfinished record without inventing a
    result: a begun run becomes [OutcomeUncertain], a cancelled one
    [Cancelled], any other [Interrupted]; a second recovery changes nothing. *)
Theorem recover_outcome r s :
  is_u64 (r_revision r) → from_record r = Ok s → r_accepted r ≠ None →
  r_producer_digest r = None → r_revision r < u64_max →
  ∃ t, state_decide s Recover = Ok (Some t)
    ∧ t_intents t = []
    ∧ r_producer (record (t_state t)) =
        Some (descriptor (match r_begun r, r_cancel_requested r with
                          | Some _, _ => failed OutcomeUncertain
                          | None, true => cancelled
                          | None, false => failed Interrupted
                          end))
    ∧ state_decide (t_state t) Recover = Ok None.
Proof.
  intros Hu Hf Ha Hpd Hrev. destruct (from_record_inv _ _ Hu Hf) as [I <-].
  set (o := match r_begun (record s) with Some _ => _ | None => _ end).
  assert (Hro : recovered_outcome (record s) = o).
  { unfold recovered_outcome, o. by destruct (r_begun _), (r_cancel_requested _). }
  assert (Hd : decide_event s Recover = Ok (Some (mkTransition
    (close_joins (set_record (settle_behind_override o (record s)) s)) [] (producer_delta o)))).
  { simpl. unfold decide_recover. rewrite Hpd, Hro. simpl.
    by destruct (r_accepted (record s)). }
  pose proof (state_decide_total s Recover _ I Logic.I Hd) as Ht.
  rewrite (proj2 (Z.ltb_lt _ _)) in Ht by done. destruct Ht as [t Ht]. exists t.
  split; [done|]. apply state_decide_Some in Ht as (t1 & Hd1 & Hs).
  rewrite Hd in Hd1. injection Hd1 as <-.
  apply seal_Some in Hs as (Hr & _ & _ & _ & Hi & _). split; [done|].
  assert (Hp : r_producer (record (t_state t)) = Some (descriptor o)
    ∧ r_producer_digest (record (t_state t)) = Some (co_digest o)).
  { rewrite Hr. clear Hr. simpl. unfold settle_behind_override.
    by destruct (must_compact _), (is_none _). }
  destruct Hp as [Hp1 Hp2]. split; [done|].
  unfold state_decide. simpl. unfold decide_recover. rewrite Hp2. simpl. by rewrite orb_true_r.
Qed.

End WithCodec.

(** ** Witnesses *)

Ltac event_is_ok :=
  hnf; lazymatch goal with
  | |- True => exact I
  | |- _ = _ => vm_compute; exact eq_refl
  | |- _ => eexists; reflexivity
  end.
Ltac ok_events := repeat (apply Forall_cons; [event_is_ok|]); apply Forall_nil; exact I.

Definition ev_submit : Event := Submit 77 sample_window.
Definition ev_begin : Event := Begin 2000 (Some sample_authority).
Definition ev_join : Event := Attach (join_evidence 3 7000).
Definition ev_outcome : Event := Outcome (sample_run read_key) (sample_outcome true).
Definition ok_digest : hash := co_digest (sample_outcome true).

Definition script (evs : list Event) : State := (run_events (state_empty read_key) evs).2.

Lemma script_reachable evs : Forall event_ok evs → reachable (script evs).
Proof. apply reachable_run. Qed.

Lemma script_history evs evs' :
  Forall event_ok evs' →
  history (script evs) (run_events (script evs) evs').1 (run_events (script evs) evs').2.
Proof. intros H. eapply run_events_history; [exact H|]. by destruct (run_events _ _). Qed.

Definition s_begun : State := script [ev_submit; ev_begin].
Definition s_joined : State := script [ev_submit; ev_begin; ev_join].
Definition s_owner_left : State := script [ev_submit; ev_begin; ev_join; Cancel].
Definition s_retired : State :=
  script [ev_submit; ev_begin; ev_join; RetireHolder first_member].
Definition s_compacted : State :=
  script [ev_submit; ev_begin; ev_outcome; Acknowledge 77 ok_digest 9000].

Lemma decide_reachable_valid_witness :
  state_decide s_joined ev_outcome ≠ Err InvalidRecord
  ∧ ∀ t, state_decide s_joined ev_outcome = Ok (Some t) → StateInv (t_state t).
Proof.
  apply (decide_reachable_valid s_joined ev_outcome).
  - apply script_reachable. ok_events.
  - event_is_ok.
Defined.

Lemma decide_write_once_witness :
  extends (record s_begun) (record (run_events s_begun [ev_outcome]).2)
  ∧ ∀ ev t, state_decide (run_events s_begun [ev_outcome]).2 ev = Ok (Some t) →
      r_revision (record (t_state t)) = r_revision (record (run_events s_begun [ev_outcome]).2) + 1.
Proof.
  apply (decide_write_once s_begun (run_events s_begun [ev_outcome]).1).
  - apply script_reachable. ok_events.
  - apply script_history. ok_events.
Defined.

Lemma run_intent_at_most_once_witness :
  run_count (run_events (script [ev_submit]) [ev_begin; ev_begin]).1 = 1%nat
  ∧ (run_count (run_events (script [ev_submit]) [ev_begin; ev_begin]).1 ≤ 1)%nat.
Proof.
  split; [vm_compute; reflexivity|].
  apply (run_intent_at_most_once (script [ev_submit])
           _ (run_events (script [ev_submit]) [ev_begin; ev_begin]).2).
  - apply script_reachable. ok_events.
  - apply script_history. ok_events.
Defined.

Lemma no_run_after_cancel_witness :
  IRun (sample_run read_key) ∉ (run_events (script [Cancel]) [ev_submit; ev_begin]).1.
Proof.
  apply (no_run_after_cancel (script [Cancel]) _
           (run_events (script [Cancel]) [ev_submit; ev_begin]).2).
  - apply script_reachable. ok_events.
  - apply script_history. ok_events.
  - left. vm_compute. reflexivity.
Defined.

Lemma decide_replay_witness :
  ∃ t, state_decide s_begun ev_outcome = Ok (Some t)
    ∧ ∀ t', state_decide (t_state t) ev_outcome ≠ Ok (Some t').
Proof.
  eexists. split; [vm_compute; reflexivity|]. intros t'.
  apply (decide_replay s_begun ev_outcome). vm_compute. reflexivity.
Defined.

Lemma compacted_terminal_witness :
  r_compacted (record s_compacted) = true
  ∧ ∀ t, state_decide s_compacted ExposeTask ≠ Ok (Some t).
Proof.
  split; [vm_compute; reflexivity|]. intros t. apply (compacted_terminal s_compacted ExposeTask).
  - apply script_reachable. ok_events.
  - vm_compute. reflexivity.
Defined.

Lemma attach_guard_witness :
  (∃ t, state_decide s_begun ev_join = Ok (Some t)) ∧ joins_closed s_begun = false.
Proof.
  assert (Hj : ∃ t, state_decide s_begun ev_join = Ok (Some t)).
  { eexists. vm_compute. reflexivity. }
  split; [exact Hj|].
  apply (attach_guard s_begun (join_evidence 3 7000)
    (mkBegun (sample_run read_key) 2000 (Some sample_authority))
    (mkAccepted 77 sample_window)) in Hj as [Hjc _]; [exact Hjc|..].
  - apply script_reachable. ok_events.
  - vm_compute. reflexivity.
  - vm_compute. reflexivity.
  - split; vm_compute; discriminate.
  - split; vm_compute; discriminate.
  - split; vm_compute; discriminate.
  - split; vm_compute; discriminate.
  - vm_compute. reflexivity.
  - vm_compute. reflexivity.
Defined.

Lemma retired_membership_stale_witness :
  observe_holder (run_events s_retired [ev_join]).2 first_member = Err StaleMembership
  ∧ is_some (holders (run_events s_retired [ev_join]).2 !! m_alias first_member) = true.
Proof.
  split; [|vm_compute; reflexivity].
  apply (retired_membership_stale s_retired first_member (run_events s_retired [ev_join]).1).
  - apply script_reachable. ok_events.
  - vm_compute. discriminate.
  - vm_compute. reflexivity.
  - apply script_history. ok_events.
Defined.

Lemma cancel_intent_spares_followers_witness :
  ∃ t, state_decide s_owner_left (CancelHolder first_member) = Ok (Some t)
    ∧ r_cancel_requested (record (t_state t)) = true.
Proof.
  eexists. split; [vm_compute; reflexivity|].
  apply (cancel_intent_spares_followers s_owner_left (CancelHolder first_member)).
  - apply script_reachable. ok_events.
  - vm_compute. reflexivity.
  - vm_compute. left.
Defined.

Lemma last_follower_cancels_witness :
  ∃ t, state_decide s_owner_left (RetireHolder first_member) = Ok (Some t)
    ∧ t_intents t = [ICancel].
Proof.
  apply (last_follower_cancels s_owner_left first_member (mkHolder 1 false) true).
  - apply script_reachable. ok_events.
  - vm_compute. reflexivity.
  - vm_compute. discriminate.
  - vm_compute. reflexivity.
  - vm_compute. reflexivity.
  - reflexivity.
  - reflexivity.
  - vm_compute. reflexivity.
  - intros a h' Hl Hne. exfalso. revert Hl.
    replace (holders s_owner_left) with
      ({[m_alias first_member := mkHolder 1 false]} : gmap TaskId Holder)
      by (vm_compute; reflexivity).
    rewrite lookup_singleton_ne; [discriminate|congruence].
Defined.

Lemma follower_sees_producer_outcome_witness :
  ∃ t, state_decide s_owner_left ev_outcome = Ok (Some t)
    ∧ observe_holder (t_state t) first_member
      = Ok (HolderTerminal (descriptor (sample_outcome true))).
Proof.
  eexists. split; [vm_compute; reflexivity|].
  apply (follower_sees_producer_outcome s_owner_left (sample_outcome true) _
           first_member (mkHolder 1 false)).
  - apply script_reachable. ok_events.
  - by eexists.
  - vm_compute. discriminate.
  - vm_compute. reflexivity.
  - vm_compute. reflexivity.
  - vm_compute. reflexivity.
  - reflexivity.
  - reflexivity.
  - vm_compute. reflexivity.
Defined.

Lemma recover_outcome_witness :
  ∃ s t, from_record (record s_begun) = Ok s ∧ state_decide s Recover = Ok (Some t)
    ∧ r_producer (record (t_state t)) = Some (descriptor (failed OutcomeUncertain)).
Proof.
  destruct (from_record (record s_begun)) as [s|] eqn:Hs; [|vm_compute in Hs; discriminate].
  destruct (recover_outcome (record s_begun) s) as (t & Hd & _ & Hp & _).
  - split; vm_compute; discriminate.
  - exact Hs.
  - vm_compute. discriminate.
  - vm_compute. reflexivity.
  - vm_compute. reflexivity.
  - exists s, t. split; [reflexivity|]. split; [exact Hd|exact Hp].
Defined.
