(* ===== verification/Storage.v ===== *)
(** * Stored aggregates

    [crates/unica-execution-contract/src/storage.rs]: a durable record together
    with the outcome bodies it describes.  [assemble] applies the payload
    changes of a transition to the previously stored aggregate;
    [RecoveryBuilder] collects a catalog of aggregates with distinct
    identities.  The JSON parser of an aggregate is third-party code: the
    argument [parse] of the definitions that decode. *)

From Stdlib Require Import ZArith Lia.
From stdpp Require Import base gmap list option numbers.
From S2P Require Import Prelude Contract Decide ContractFacts ContractProps Sample.

Local Open Scope Z_scope.

Record StoredRecord := mkStoredRecord {
  sr_record : ERecord;
  sr_producer : option CanonicalOutcome;
  sr_primary_override : option CanonicalOutcome;
}.
#[export] Instance StoredRecord_eq_dec : EqDecision StoredRecord.
Proof. solve_decision. Defined.

(** The nested [apply] of [PayloadDelta::assemble]. *)
Definition payload_apply (change : PayloadChange) (prior : option CanonicalOutcome)
  : option CanonicalOutcome :=
  match change with
  | PKeep => prior
  | PSet body => Some body
  | PDrop => None
  end.

Section WithCodec.
Context {C : Codec}.

(** The nested [matches] of [StoredRecord::new]. *)
Definition body_matches (body : option CanonicalOutcome)
  (desc : option OutcomeDescriptor) (compacted : bool) : bool :=
  if compacted then is_none body
  else match body, desc with
       | None, None => true
       | Some body, Some d => outcome_valid body && bool_decide (descriptor body = d)
       | _, _ => false
       end.

(** [StoredRecord::new]. *)
Definition stored_new (r : ERecord) (producer override : option CanonicalOutcome)
  : result StoredRecord Error :=
  let? _ := validate r in
  if negb (body_matches producer (r_producer r) (r_compacted r))
     || negb (body_matches override (r_primary_override r) (r_compacted r))
  then Err InvalidRecord
  else Ok (mkStoredRecord r producer override).

(** [PayloadDelta::assemble]. *)
Definition assemble (delta : PayloadDelta) (r : ERecord) (prior : option StoredRecord)
  : result StoredRecord Error :=
  if is_some_and (λ p, bool_decide (r_key (sr_record p) ≠ r_key r)) prior
  then Err IdentityCollision
  else stored_new r
         (payload_apply (pd_producer delta) (prior ≫= sr_producer))
         (payload_apply (pd_primary_override delta) (prior ≫= sr_primary_override)).

(** [StoredRecord::primary]. *)
Definition stored_primary (p : StoredRecord) : option CanonicalOutcome :=
  or_option (sr_primary_override p) (sr_producer p).

(** ** Decoding *)

(** The fields the JSON parser yields before any check. *)
Record EncodedStored := mkEncodedStored {
  es_record : ERecord;
  es_producer : option CanonicalOutcome;
  es_primary_override : option CanonicalOutcome;
}.

(** [EncodedRecord::validate] and the [Deserialize] of [CanonicalOutcome]. *)
Definition encoded_validate (r : ERecord) : result ERecord Error :=
  let? _ := validate r in Ok r.
Definition outcome_decoded (o : option CanonicalOutcome) : bool :=
  match o with Some o => outcome_valid o | None => true end.

(** [StoredRecord::decode] with the [Deserialize] instance it uses. *)
Definition stored_decode (parse : bytes → option EncodedStored) (bs : bytes)
  : result StoredRecord Error :=
  match parse bs with
  | None => Err InvalidRecord
  | Some e =>
      if outcome_decoded (es_producer e) && outcome_decoded (es_primary_override e)
      then match encoded_validate (es_record e) with
           | Err _ => Err InvalidRecord
           | Ok r =>
               match stored_new r (es_producer e) (es_primary_override e) with
               | Ok p => Ok p
               | Err _ => Err InvalidRecord
               end
           end
      else Err InvalidRecord
  end.

(** ** The recovery catalog *)

Record RecoveryBuilder := mkRecoveryBuilder {
  rb_records : list ERecord;
  rb_invocations : gset InvocationId;
  rb_tasks : gset TaskId;
  rb_failed : option Error;
}.

Definition builder_new : RecoveryBuilder := mkRecoveryBuilder [] ∅ ∅ None.

(** [RecoveryBuilder::push]. *)
Definition builder_push (b : RecoveryBuilder) (p : StoredRecord)
  : RecoveryBuilder * result unit Error :=
  match rb_failed b with
  | Some e => (b, Err e)
  | None =>
      let key := r_key (sr_record p) in
      if bool_decide (k_invocation key ∈ rb_invocations b)
         || bool_decide (k_task key ∈ rb_tasks b)
      then (mkRecoveryBuilder (rb_records b) (rb_invocations b) (rb_tasks b)
              (Some IdentityCollision), Err IdentityCollision)
      else (mkRecoveryBuilder (rb_records b ++ [sr_record p])
              ({[k_invocation key]} ∪ rb_invocations b) ({[k_task key]} ∪ rb_tasks b)
              None, Ok tt)
  end.

(** [RecoveryBuilder::push_encoded]. *)
Definition builder_push_encoded (parse : bytes → option EncodedStored)
  (b : RecoveryBuilder) (bs : bytes) : RecoveryBuilder * result unit Error :=
  match rb_failed b with
  | Some e => (b, Err e)
  | None =>
      match stored_decode parse bs with
      | Ok p => builder_push b p
      | Err e => (mkRecoveryBuilder (rb_records b) (rb_invocations b) (rb_tasks b) (Some e),
                  Err e)
      end
  end.

(** [RecoveryBuilder::finish]: the records of the catalog. *)
Definition builder_finish (b : RecoveryBuilder) : result (list ERecord) Error :=
  match rb_failed b with
  | Some e => Err e
  | None => Ok (rb_records b)
  end.

(** Every aggregate of a stream pushed in order. *)
Definition push_all (parse : bytes → option EncodedStored) (stream : list bytes)
  : RecoveryBuilder :=
  foldl (λ b bs, (builder_push_encoded parse b bs).1) builder_new stream.

(** ** Lemmas *)

(** An aggregate that went through [StoredRecord::new]. *)
Definition stored_ok (p : StoredRecord) : Prop :=
  stored_new (sr_record p) (sr_producer p) (sr_primary_override p) = Ok p.

Lemma stored_new_Ok r a b p :
  stored_new r a b = Ok p ↔
  ValidRecord r ∧ body_matches a (r_producer r) (r_compacted r) = true
  ∧ body_matches b (r_primary_override r) (r_compacted r) = true
  ∧ p = mkStoredRecord r a b.
Proof.
  unfold stored_new. split.
  - destruct (validate r) as [u|] eqn:Hv; [|done]. apply validate_Ok in Hv.
    destruct (_ || _) eqn:E; [done|]. intros [= <-]. by bool_prop.
  - intros (Hv & -> & -> & ->). by rewrite (proj2 (validate_Ok r tt) Hv).
Qed.

Lemma stored_new_stored_ok r a b p : stored_new r a b = Ok p → stored_ok p.
Proof. intros H. pose proof H as (_ & _ & _ & ->)%stored_new_Ok. exact H. Qed.

(** The payload change of one role follows its descriptor. *)
Definition follows (change : PayloadChange) (old new : option OutcomeDescriptor) : Prop :=
  match change with
  | PKeep => new = old
  | PSet o => outcome_valid o = true ∧ new = Some (descriptor o)
  | PDrop => False
  end.

Section Laws.
Context {L : CodecLaws C}.

(** The body an event carries reads back from its bytes as the same outcome.
    [StoredRecord::new] asks it of every body it stores; a completed result
    whose [data] is [Some(Value::Null)] is built by the public constructor and
    does not satisfy it. *)
Definition event_stored (ev : Event) : Prop :=
  match ev with Outcome _ o | AdmissionRejected o => outcome_valid o = true | _ => True end.

Lemma decide_event_payloads s ev t :
  event_stored ev → decide_event s ev = Ok (Some t) →
  follows (pd_producer (t_payloads t)) (r_producer (record s)) (r_producer (record (t_state t)))
  ∧ follows (pd_primary_override (t_payloads t)) (r_primary_override (record s))
      (r_primary_override (record (t_state t)))
  ∧ r_compacted (record (t_state t)) = r_compacted (record s).
Proof.
  intros Hev Hd. pose proof cancelled_valid as Hcv.
  assert (Hro : outcome_valid (recovered_outcome (record s)) = true).
  { unfold recovered_outcome. repeat case_match; auto using failed_valid. }
  destruct ev; simpl in Hd, Hev;
    unfold decide_submit, decide_cancel, decide_begin, decide_outcome,
      decide_admission_rejected, decide_expose_task, decide_acknowledge,
      decide_attach, decide_holder, decide_recover, settle_behind_override in Hd;
    break Hd; simpl; by repeat case_match.
Qed.

Lemma body_matches_follows change old new prior :
  follows change old new → body_matches prior old false = true →
  body_matches (payload_apply change prior) new false = true.
Proof.
  unfold follows. destruct change as [|o|]; simpl; [by intros ->| |done].
  intros [Ho ->] _. simpl. rewrite Ho. by apply bool_decide_eq_true.
Qed.

(** The aggregate stored for a confirmed state: none before the first
    transition, then one for exactly its record. *)
Definition stored_for (s : State) (prior : option StoredRecord) : Prop :=
  match prior with
  | None => record s = empty_record (r_key (record s))
  | Some p => sr_record p = record s ∧ stored_ok p
  end.

Lemma stored_for_bodies s prior :
  stored_for s prior → r_compacted (record s) = false →
  body_matches (prior ≫= sr_producer) (r_producer (record s)) false = true
  ∧ body_matches (prior ≫= sr_primary_override) (r_primary_override (record s)) false = true.
Proof.
  intros Hf Hc. destruct prior as [p|]; simpl in *.
  - destruct Hf as [Hr (_ & Ha & Hb & _)%stored_new_Ok]. by rewrite Hr, Hc in Ha, Hb.
  - by rewrite Hf.
Qed.

Lemma assemble_decided s ev t prior :
  StateInv s → event_stored ev → state_decide s ev = Ok (Some t) → stored_for s prior →
  ∃ p, assemble (t_payloads t) (record (t_state t)) prior = Ok p
    ∧ stored_for (t_state t) (Some p).
Proof.
  intros I Hev Hd Hf.
  destruct (state_decide_extends _ _ _ I Hd) as [Hx _].
  apply state_decide_Some in Hd as (t0 & Hd & Hs).
  destruct (decide_event_payloads _ _ _ Hev Hd) as (Hfp & Hfo & Hcomp).
  assert (Hc : r_compacted (record s) = false).
  { destruct (r_compacted (record s)) eqn:E; [|done].
    by destruct (compacted_decide_event _ _ _ I E Hd). }
  destruct (stored_for_bodies _ _ Hf Hc) as [Hb1 Hb2].
  apply seal_Some in Hs as (Hr & _ & _ & _ & _ & Hp & _ & Hv).
  assert (Hn : ∃ p, stored_new (record (t_state t))
    (payload_apply (pd_producer (t_payloads t)) (prior ≫= sr_producer))
    (payload_apply (pd_primary_override (t_payloads t)) (prior ≫= sr_primary_override)) = Ok p).
  { eexists. apply stored_new_Ok. split_and!; [done|..|done]; rewrite Hr, Hp;
      destruct (must_compact (t_state t0)); simpl; rewrite ?Hcomp, ?Hc; try done.
    - by eapply body_matches_follows.
    - by eapply body_matches_follows. }
  destruct Hn as [p Hn]. exists p. unfold assemble. split.
  - destruct prior as [q|]; simpl; [|done]. destruct Hf as [-> _].
    by rewrite bool_decide_eq_false_2 by (rewrite (x_key _ _ Hx); by intros []).
  - simpl. split; [|by eapply stored_new_stored_ok].
    by apply stored_new_Ok in Hn as (_ & _ & _ & ->).
Qed.

Record builder_inv (b : RecoveryBuilder) : Prop := {
  bi_valid : Forall ValidRecord (rb_records b);
  bi_invocations : ∀ i, i ∈ rb_invocations b ↔
    ∃ r, In r (rb_records b) ∧ k_invocation (r_key r) = i;
  bi_tasks : ∀ i, i ∈ rb_tasks b ↔ ∃ r, In r (rb_records b) ∧ k_task (r_key r) = i;
  bi_nodup_invocations : NoDup (k_invocation ∘ r_key <$> rb_records b);
  bi_nodup_tasks : NoDup (k_task ∘ r_key <$> rb_records b);
}.

Lemma builder_push_inv b p :
  stored_ok p → builder_inv b → builder_inv (builder_push b p).1.
Proof.
  intros Hok [Hv Hi Ht Hni Hnt]. unfold builder_push.
  destruct (rb_failed b); simpl; [by split|].
  destruct (_ || _) eqn:E; simpl; [by split|]. bool_prop.
  apply stored_new_Ok in Hok as (Hvr & _).
  split; simpl.
  - by apply Forall_app; split; [|apply Forall_cons; [|apply Forall_nil]].
  - intros i. rewrite elem_of_union, elem_of_singleton, Hi.
    setoid_rewrite in_app_iff. simpl. naive_solver.
  - intros i. rewrite elem_of_union, elem_of_singleton, Ht.
    setoid_rewrite in_app_iff. simpl. naive_solver.
  - rewrite fmap_app. apply list.NoDup_app. split_and!; [done| |apply list.NoDup_singleton].
    intros x (r & -> & Hr%list_elem_of_In)%list_elem_of_fmap [= Hx]%list_elem_of_singleton.
    match goal with H : k_invocation _ ∉ _ |- _ => apply H end. apply Hi. eauto.
  - rewrite fmap_app. apply list.NoDup_app. split_and!; [done| |apply list.NoDup_singleton].
    intros x (r & -> & Hr%list_elem_of_In)%list_elem_of_fmap [= Hx]%list_elem_of_singleton.
    match goal with H : k_task _ ∉ _ |- _ => apply H end. apply Ht. eauto.
Qed.

Lemma stored_decode_ok parse bs p : stored_decode parse bs = Ok p → stored_ok p.
Proof.
  unfold stored_decode. destruct (parse bs) as [e|]; [|done].
  destruct (_ && _); [|done]. destruct (encoded_validate _) as [r|]; [|done].
  destruct (stored_new _ _ _) as [q|] eqn:Hn; [|done]. intros [= <-].
  by eapply stored_new_stored_ok.
Qed.

Lemma builder_push_encoded_inv parse b bs :
  builder_inv b → builder_inv (builder_push_encoded parse b bs).1.
Proof.
  intros Hb. unfold builder_push_encoded. destruct (rb_failed b); [done|].
  destruct (stored_decode parse bs) eqn:Hd; [|by destruct Hb; split].
  apply builder_push_inv; eauto using stored_decode_ok.
Qed.

Lemma push_all_inv parse stream : builder_inv (push_all parse stream).
Proof.
  unfold push_all.
  assert (Hall : ∀ b, builder_inv b →
    builder_inv (foldl (λ b bs, (builder_push_encoded parse b bs).1) b stream)).
  { induction stream as [|bs stream IH]; simpl; [done|].
    intros b Hb. by apply IH, builder_push_encoded_inv. }
  apply Hall. split; simpl; try apply base.NoDup_nil_2; [apply Forall_nil|..].
  all: intros i; rewrite elem_of_empty; naive_solver.
Qed.

(** ** Properties *)

(** Every decided transition whose body reads back can be persisted: applying its payload changes
    to the aggregate stored for the previous state (or to nothing, for a
    first transition) succeeds and yields a well-formed aggregate for exactly
    the new record, so the next transition can be assembled in turn. *)
Theorem assemble_total s ev t prior :
  reachable s → event_stored ev → state_decide s ev = Ok (Some t) → stored_for s prior →
  ∃ p, assemble (t_payloads t) (record (t_state t)) prior = Ok p
    ∧ stored_for (t_state t) (Some p).
Proof. intros I%reachable_inv. by apply assemble_decided. Qed.

(** A body that does not read back is refused by every store. *)
Lemma unread_body_refused r o override :
  outcome_valid o = false → r_compacted r = false → is_err (stored_new r (Some o) override) = true.
Proof.
  intros Ho Hc. destruct (stored_new r (Some o) override) as [p|] eqn:E; [|done].
  apply stored_new_Ok in E as (_ & Hb & _). rewrite Hc in Hb. simpl in Hb.
  destruct (r_producer r); [|done]. by rewrite Ho in Hb.
Qed.

(** C6. A finished recovery catalog is sound: from any stream of bytes and for
    any JSON parser, the catalog holds only records that pass [validate], with
    pairwise distinct invocation identities and pairwise distinct Task
    identities, one per aggregate of the stream; a single undecodable or
    colliding aggregate makes the whole catalog fail. *)
Theorem recovery_catalog_sound parse stream records :
  builder_finish (push_all parse stream) = Ok records →
  Forall ValidRecord records
  ∧ NoDup (k_invocation ∘ r_key <$> records) ∧ NoDup (k_task ∘ r_key <$> records)
  ∧ length records = length stream
  ∧ Forall2 (λ bs r, ∃ p, stored_decode parse bs = Ok p ∧ sr_record p = r) stream records.
Proof.
  intros Hf. pose proof (push_all_inv parse stream) as [Hv _ _ Hi Ht].
  assert (Hs : Forall2 (λ bs r, ∃ p, stored_decode parse bs = Ok p ∧ sr_record p = r)
                 stream records).
  { unfold builder_finish in Hf. destruct (rb_failed (push_all parse stream)) eqn:E; [done|].
    simplify_eq. clear Hv Hi Ht. revert E. unfold push_all.
    induction stream as [|bs stream IH] using rev_ind; [by constructor|].
    rewrite foldl_app. simpl.
    set (b := foldl _ _ stream) in *. unfold builder_push_encoded, builder_push.
    destruct (rb_failed b) eqn:Eb; [simpl; congruence|].
    destruct (stored_decode parse bs) as [p|] eqn:Ed; [|done].
    destruct (_ || _); simpl; [done|]. intros _.
    apply Forall2_app; [by apply IH|]. constructor; [|constructor]. eauto. }
  unfold builder_finish in Hf. destruct (rb_failed _); simplify_eq.
  split_and!; try done. symmetry. by eapply Forall2_length.
Qed.

End Laws.
End WithCodec.

(** ** Witnesses *)

Lemma assemble_total_witness :
  ∃ t p, state_decide (state_empty read_key) Cancel = Ok (Some t)
    ∧ assemble (t_payloads t) (record (t_state t)) None = Ok p.
Proof.
  destruct (state_decide (state_empty read_key) Cancel) as [[t|]|] eqn:Hd;
    [|vm_compute in Hd; discriminate..].
  destruct (assemble_total (state_empty read_key) Cancel t None) as (p & Hp & _).
  - exists (state_empty read_key), []. split; constructor.
  - exact I.
  - exact Hd.
  - reflexivity.
  - exists t, p. split; [reflexivity|exact Hp].
Defined.

(** A parser that knows one aggregate. *)
Definition sample_parse (bs : list Z) : option EncodedStored :=
  match bs with
  | [1] => Some (mkEncodedStored (record s_begun) None None)
  | _ => None
  end.

Lemma recovery_catalog_sound_witness :
  Forall ValidRecord [record s_begun].
Proof.
  apply (recovery_catalog_sound sample_parse [[1]]). vm_compute. reflexivity.
Defined.

Example recovery_collision :
  builder_finish (push_all sample_parse [[1]; [1]]) = Err IdentityCollision.
Proof. vm_compute. reflexivity. Qed.
