(* ===== verification/Coordinator.v ===== *)
(** * The execution coordinator: definitions

    [crates/unica-execution/src/coordinator.rs] and its [authority] module.
    The coordinator owns one slot per invocation: a confirmed state, at most
    one pending commit and a queue of events.  It decides events against the
    confirmed state, asks a storage driver to commit the candidate and grants
    rights (permits) only when the commit is confirmed.

    A method takes the coordinator and returns the coordinator it leaves
    behind together with its [Result]: an early [return Err] keeps the
    mutations made before it. *)

From Stdlib Require Import ZArith Lia.
From stdpp Require Import base gmap list option numbers.
From S2P Require Import Prelude Contract Decide Storage.

Local Open Scope Z_scope.

Inductive AuthorityEpoch := mkAuthorityEpoch (value : hash).
#[export] Instance AuthorityEpoch_eq_dec : EqDecision AuthorityEpoch.
Proof. solve_decision. Defined.

(** ** Permits: rights produced only by confirmed transitions *)

Record AcceptedPermit := mkAcceptedPermit { ap_key : Key; ap_epoch : AuthorityEpoch }.
Record AdmissionRejection := mkAdmissionRejection {
  ar_key : Key; ar_epoch : AuthorityEpoch; ar_outcome : CanonicalOutcome }.
Record RunPermit := mkRunPermit {
  rp_key : Key; rp_run : RunIdentity; rp_epoch : AuthorityEpoch }.
Record OutcomeEvidence := mkOutcomeEvidence {
  oe_key : Key; oe_run : RunIdentity; oe_epoch : AuthorityEpoch;
  oe_outcome : CanonicalOutcome }.
Record TaskPublicationPermit := mkTaskPublicationPermit { tp_key : Key }.
Record DirectPublicationPermit := mkDirectPublicationPermit {
  dp_key : Key; dp_outcome : CanonicalOutcome }.
Record CancellationPermit := mkCancellationPermit { cp_key : Key; cp_epoch : AuthorityEpoch }.

(** [RunPermit::finish]. *)
Definition run_finish (p : RunPermit) (o : CanonicalOutcome) : OutcomeEvidence :=
  mkOutcomeEvidence (rp_key p) (rp_run p) (rp_epoch p) o.

Inductive WriteFailureCause := NoSpace | AccessDenied | IoFailure | CandidateTooLarge.
#[export] Instance WriteFailureCause_eq_dec : EqDecision WriteFailureCause.
Proof. solve_decision. Defined.

Record Stamp := mkStamp {
  st_key : Key;
  st_epoch : AuthorityEpoch;
  st_id : Z;
  st_expected_revision : Z;
  st_previous_fingerprint : option hash;
  st_fingerprint : hash;
}.
#[export] Instance Stamp_eq_dec : EqDecision Stamp.
Proof. solve_decision. Defined.

Record KnownWriteFailure := mkKnownWriteFailure {
  kf_stamp : Stamp; kf_cause : WriteFailureCause }.

Record CommitRequest := mkCommitRequest {
  cr_stamp : Stamp;
  cr_candidate : ERecord;
  cr_payloads : PayloadDelta;
}.

Inductive Effect :=
| ECommit (request : CommitRequest)
| EAccepted (permit : AcceptedPermit)
| ERun (permit : RunPermit)
| ETask (permit : TaskPublicationPermit)
| EAttached (member : Membership)
| ECancelRequested (permit : CancellationPermit)
| EFailStop
| ERejected (key : Key) (error : Error).

Inductive Resolution :=
| Committed
| RolledBack
| FailedBeforePublication (cause : WriteFailureCause)
| Readback (stored : StoredRecord)
| Unknown.

Record CommitCompletion := mkCommitCompletion {
  cc_stamp : Stamp; cc_resolution : Resolution }.

Record Pending := mkPending {
  p_stamp : Stamp;
  p_event : Event;
  p_candidate : State;
  p_intents : list Intent;
}.

Record Slot := mkSlot {
  confirmed : State;
  pending : option Pending;
  queue : list Event;
}.

(** ** Loss of the store *)

Inductive AuthorityFailureCause := InvalidAggregate | IdentityLost | ReadFailed | WorkerFailed.

Record AuthorityFailure := mkAuthorityFailure {
  af_epoch : AuthorityEpoch;
  af_cause : AuthorityFailureCause;
  af_read : option (Key * Z);
}.

Record ExecutionCoordinator := mkCoordinator {
  epoch : AuthorityEpoch;
  next_commit : Z;
  unavailable : bool;
  first_known_write_failure : option KnownWriteFailure;
  first_authority_failure : option AuthorityFailure;
  recovering : bool;
  groups : gmap InvocationId Slot;
  invocations : gmap InvocationId Key;
  tasks : gmap TaskId Key;
  aliases : gmap TaskId Key;
  alias_invocations : gmap InvocationId TaskId;
  alias_capacity : nat;
}.

(** [ExecutionCoordinator::new]. *)
Definition coordinator_new (e : AuthorityEpoch) : ExecutionCoordinator :=
  mkCoordinator e 0 false None None false ∅ ∅ ∅ ∅ ∅ 1024.

(** ** Field assignments *)

Definition set_next_commit (v : Z) (c : ExecutionCoordinator) : ExecutionCoordinator :=
  mkCoordinator (epoch c) v (unavailable c) (first_known_write_failure c)
    (first_authority_failure c) (recovering c) (groups c) (invocations c) (tasks c)
    (aliases c) (alias_invocations c) (alias_capacity c).
Definition set_unavailable (c : ExecutionCoordinator) : ExecutionCoordinator :=
  mkCoordinator (epoch c) (next_commit c) true (first_known_write_failure c)
    (first_authority_failure c) (recovering c) (groups c) (invocations c) (tasks c)
    (aliases c) (alias_invocations c) (alias_capacity c).
Definition set_write_failure (f : KnownWriteFailure) (c : ExecutionCoordinator)
  : ExecutionCoordinator :=
  mkCoordinator (epoch c) (next_commit c) (unavailable c)
    (Some (default f (first_known_write_failure c)))
    (first_authority_failure c) (recovering c) (groups c) (invocations c) (tasks c)
    (aliases c) (alias_invocations c) (alias_capacity c).
Definition set_authority_failure (f : AuthorityFailure) (c : ExecutionCoordinator)
  : ExecutionCoordinator :=
  mkCoordinator (epoch c) (next_commit c) (unavailable c) (first_known_write_failure c)
    (Some f) (recovering c) (groups c) (invocations c) (tasks c)
    (aliases c) (alias_invocations c) (alias_capacity c).
Definition set_recovering (v : bool) (c : ExecutionCoordinator) : ExecutionCoordinator :=
  mkCoordinator (epoch c) (next_commit c) (unavailable c) (first_known_write_failure c)
    (first_authority_failure c) v (groups c) (invocations c) (tasks c)
    (aliases c) (alias_invocations c) (alias_capacity c).
Definition set_slot (i : InvocationId) (s : Slot) (c : ExecutionCoordinator)
  : ExecutionCoordinator :=
  mkCoordinator (epoch c) (next_commit c) (unavailable c) (first_known_write_failure c)
    (first_authority_failure c) (recovering c) (<[i := s]> (groups c)) (invocations c)
    (tasks c) (aliases c) (alias_invocations c) (alias_capacity c).
Definition set_claims (k : Key) (c : ExecutionCoordinator) : ExecutionCoordinator :=
  mkCoordinator (epoch c) (next_commit c) (unavailable c) (first_known_write_failure c)
    (first_authority_failure c) (recovering c) (groups c)
    (<[k_invocation k := k]> (invocations c)) (<[k_task k := k]> (tasks c))
    (aliases c) (alias_invocations c) (alias_capacity c).
Definition set_alias (a : TaskId) (i : InvocationId) (k : Key) (c : ExecutionCoordinator)
  : ExecutionCoordinator :=
  mkCoordinator (epoch c) (next_commit c) (unavailable c) (first_known_write_failure c)
    (first_authority_failure c) (recovering c) (groups c) (invocations c) (tasks c)
    (<[a := k]> (aliases c)) (<[i := a]> (alias_invocations c)) (alias_capacity c).

(** [ExecutionCoordinator::release_alias]. *)
Definition release_alias (a : TaskId) (c : ExecutionCoordinator) : ExecutionCoordinator :=
  mkCoordinator (epoch c) (next_commit c) (unavailable c) (first_known_write_failure c)
    (first_authority_failure c) (recovering c) (groups c) (invocations c) (tasks c)
    (delete a (aliases c)) (filter (λ ia, ia.2 ≠ a) (alias_invocations c))
    (alias_capacity c).

Section WithCodec.
Context {C : Codec}.

(** A frontend secret; [OwnerCapability::hash]. *)
Inductive OwnerCapability := mkOwnerCapability (secret : bytes).
Definition owner_hash (o : OwnerCapability) : hash :=
  let 'mkOwnerCapability secret := o in sha256 secret.

(** [AcceptedPermit::reject]. *)
Definition permit_reject (p : AcceptedPermit) (r : DomainResult Value)
  : result AdmissionRejection Error :=
  if dr_ok r then Err InvalidInput
  else Ok (mkAdmissionRejection (ap_key p) (ap_epoch p) (completed r)).

(** [CommitRequest::assemble]. *)
Definition request_assemble (q : CommitRequest) (prior : option StoredRecord)
  : result StoredRecord Error :=
  if bool_decide ((λ p, fingerprint (sr_record p)) <$> prior
                    ≠ st_previous_fingerprint (cr_stamp q))
  then Err InvalidRecord
  else assemble (cr_payloads q) (cr_candidate q) prior.

(** ** Observations *)

Definition check_available (c : ExecutionCoordinator) : result unit Error :=
  if unavailable c then Err StoreUnavailable
  else if recovering c then Err RecoveryRequired
  else Ok tt.

(** [ExecutionCoordinator::inspect]. *)
Definition inspect (c : ExecutionCoordinator) (k : Key) : result ERecord Error :=
  let? slot := ok_or (groups c !! k_invocation k) NotAccepted in
  if bool_decide (r_key (record (confirmed slot)) ≠ k) then Err IdentityCollision
  else if bool_decide (r_revision (record (confirmed slot)) = 0) then Err NotAccepted
  else Ok (record (confirmed slot)).

Definition lookup_task (c : ExecutionCoordinator) (t : TaskId) : result ERecord Error :=
  let? _ := check_available c in
  let? k := ok_or (tasks c !! t) NotAccepted in
  let? r := inspect c k in
  if negb (accepted r) then Err NotAccepted else Ok r.

Definition coordinator_holder_count (c : ExecutionCoordinator) (k : Key) : nat :=
  from_option (λ s, holder_count (confirmed s)) 0%nat (groups c !! k_invocation k).

Definition coordinator_observe_holder (c : ExecutionCoordinator) (k : Key) (m : Membership)
  : result HolderObservation Error :=
  let? _ := check_available c in
  let? slot := ok_or (groups c !! k_invocation k) NotAccepted in
  if bool_decide (r_key (record (confirmed slot)) ≠ k) then Err IdentityCollision
  else observe_holder (confirmed slot) m.

(** ** The decision loop *)

(** [ExecutionCoordinator::claim]. *)
Definition claim (c : ExecutionCoordinator) (k : Key)
  : ExecutionCoordinator * result unit Error :=
  if is_some_and (λ k', bool_decide (k' ≠ k)) (invocations c !! k_invocation k)
     || is_some_and (λ k', bool_decide (k' ≠ k)) (tasks c !! k_task k)
     || is_some (aliases c !! k_task k)
     || is_some (alias_invocations c !! k_invocation k)
  then (c, Err IdentityCollision)
  else (set_claims k c, Ok tt).

(** The stamp and the pending commit of a decided transition. *)
Definition stamp_of (c : ExecutionCoordinator) (k : Key) (s : State) (t : Transition) : Stamp :=
  mkStamp k (epoch c) (next_commit c) (r_revision (record s))
    (if 0 <? r_revision (record s) then Some (fingerprint (record s)) else None)
    (fingerprint (record (t_state t))).

Definition is_outcome (ev : Event) : bool :=
  match ev with Outcome _ _ => true | _ => false end.

(** The [while] loop of [drive], on the queue of the slot of [k]; it returns
    the coordinator, the pending commit, the rest of the queue and the
    effects, or an error. *)
Fixpoint drive_loop (k : Key) (s : State) (c : ExecutionCoordinator) (q : list Event)
  : ExecutionCoordinator * option Pending * list Event * result (list Effect) Error :=
  match q with
  | [] => (c, None, [], Ok [])
  | ev :: q =>
      match state_decide s ev with
      | Ok (Some t) =>
          match u64_checked_add (next_commit c) 1 with
          | None => (c, None, q, Err Overflow)
          | Some n =>
              let c := set_next_commit n c in
              let stamp := stamp_of c k s t in
              (c, Some (mkPending stamp ev (t_state t) (t_intents t)), q,
               Ok [ECommit (mkCommitRequest stamp (record (t_state t)) (t_payloads t))])
          end
      | Ok None =>
          let '(c', p, q', r) := drive_loop k s c q in
          let task := match ev with
                      | ExposeTask => [ETask (mkTaskPublicationPermit k)]
                      | _ => []
                      end in
          (c', p, q', let? effects := r in Ok (task ++ effects))
      | Err e =>
          if is_outcome ev
          then (set_unavailable c, None, ev :: q, Ok [EFailStop])
          else
            let c := match ev with
                     | Attach evidence => release_alias (alias_id evidence) c
                     | _ => c
                     end in
            let '(c', p, q', r) := drive_loop k s c q in
            (c', p, q', let? effects := r in Ok (ERejected k e :: effects))
      end
  end.

(** [ExecutionCoordinator::drive]. *)
Definition drive (c : ExecutionCoordinator) (k : Key)
  : ExecutionCoordinator * result (list Effect) Error :=
  match groups c !! k_invocation k with
  | None => (c, Err NotAccepted)
  | Some slot =>
      match pending slot with
      | Some _ => (c, Ok [])
      | None =>
          let '(c', p, q, r) := drive_loop k (confirmed slot) c (queue slot) in
          (set_slot (k_invocation k) (mkSlot (confirmed slot) p q) c', r)
      end
  end.

Definition opens_group (ev : Event) : bool :=
  match ev with Submit _ _ | Cancel => true | _ => false end.

(** [ExecutionCoordinator::enqueue]. *)
Definition enqueue (c : ExecutionCoordinator) (k : Key) (ev : Event) (recovery : bool)
  : ExecutionCoordinator * result (list Effect) Error :=
  if unavailable c then (c, Err StoreUnavailable)
  else if recovering c && negb recovery then (c, Err RecoveryRequired)
  else if is_none (groups c !! k_invocation k) && negb (opens_group ev)
  then (c, Err NotAccepted)
  else
    match claim c k with
    | (c, Err e) => (c, Err e)
    | (c, Ok _) =>
        let slot := default (mkSlot (state_empty k) None []) (groups c !! k_invocation k) in
        drive (set_slot (k_invocation k)
                 (mkSlot (confirmed slot) (pending slot) (queue slot ++ [ev])) c) k
    end.

(** ** Requests *)

Definition submit (c : ExecutionCoordinator) (k : Key) (o : OwnerCapability)
  (w : ObservationWindow) := enqueue c k (Submit (owner_hash o) w) false.

Definition cancel (c : ExecutionCoordinator) (k : Key) := enqueue c k Cancel false.

Definition begin (c : ExecutionCoordinator) (p : AcceptedPermit) (started : Z)
  (auth : option ReadAuthority) : ExecutionCoordinator * result (list Effect) Error :=
  if bool_decide (ap_epoch p ≠ epoch c) then (c, Err ForeignOutcome)
  else enqueue c (ap_key p) (Begin started auth) false.

(** [ExecutionCoordinator::report]: after a fail-stop the evidence of a
    permitted worker is kept in the queue and nothing is driven. *)
Definition report (c : ExecutionCoordinator) (e : OutcomeEvidence)
  : ExecutionCoordinator * result (list Effect) Error :=
  if bool_decide (oe_epoch e ≠ epoch c) then (c, Err ForeignOutcome)
  else if unavailable c then
    match groups c !! k_invocation (oe_key e) with
    | None => (c, Err ForeignOutcome)
    | Some slot =>
        if bool_decide (r_key (record (confirmed slot)) ≠ oe_key e)
           || bool_decide (run (record (confirmed slot)) ≠ Some (oe_run e))
        then (c, Err ForeignOutcome)
        else (set_slot (k_invocation (oe_key e))
                (mkSlot (confirmed slot) (pending slot)
                   (queue slot ++ [Outcome (oe_run e) (oe_outcome e)])) c,
              Ok [EFailStop])
    end
  else enqueue c (oe_key e) (Outcome (oe_run e) (oe_outcome e)) false.

Definition reject_admission (c : ExecutionCoordinator) (e : AdmissionRejection)
  : ExecutionCoordinator * result (list Effect) Error :=
  if bool_decide (ar_epoch e ≠ epoch c) then (c, Err ForeignOutcome)
  else enqueue c (ar_key e) (AdmissionRejected (ar_outcome e)) false.

Definition expose_task (c : ExecutionCoordinator) (k : Key) := enqueue c k ExposeTask false.

Definition acknowledge (c : ExecutionCoordinator) (k : Key) (o : OwnerCapability)
  (digest : hash) (at_ms : Z) := enqueue c k (Acknowledge (owner_hash o) digest at_ms) false.

(** [ExecutionCoordinator::attach]. *)
Definition attach (c : ExecutionCoordinator) (k : Key) (e : JoinEvidence)
  : ExecutionCoordinator * result (list Effect) Error :=
  if is_some (tasks c !! alias_id e) || is_some (aliases c !! alias_id e)
     || is_some (invocations c !! k_invocation (je_request e))
     || is_some (alias_invocations c !! k_invocation (je_request e))
  then (c, Err IdentityCollision)
  else match check_available c with
  | Err err => (c, Err err)
  | Ok _ =>
      if (alias_capacity c <=? size (aliases c))%nat then (c, Err AliasCapacity)
      else
        let c := set_alias (alias_id e) (k_invocation (je_request e)) k c in
        match enqueue c k (Attach e) false with
        | (c, Ok effects) => (c, Ok effects)
        | (c, Err err) => (release_alias (alias_id e) c, Err err)
        end
  end.

Definition cancel_holder (c : ExecutionCoordinator) (k : Key) (m : Membership) :=
  enqueue c k (CancelHolder m) false.
Definition retire_holder (c : ExecutionCoordinator) (k : Key) (m : Membership) :=
  enqueue c k (RetireHolder m) false.

(** ** Completion *)

(** [ExecutionCoordinator::finish_recovery]. *)
Definition slot_idle (s : Slot) : bool :=
  is_none (pending s) && bool_decide (queue s = []).
Definition finish_recovery (c : ExecutionCoordinator) : ExecutionCoordinator :=
  if recovering c && all_values slot_idle (groups c) then set_recovering false c else c.

(** The right a confirmed intent grants. *)
Definition grant (c : ExecutionCoordinator) (k : Key) (i : Intent) : Effect :=
  match i with
  | IAccepted => EAccepted (mkAcceptedPermit k (epoch c))
  | IRun r => ERun (mkRunPermit k r (epoch c))
  | ITask => ETask (mkTaskPublicationPermit k)
  | IAttached m => EAttached m
  | ICancel => ECancelRequested (mkCancellationPermit k (epoch c))
  end.

(** The tail of [complete]: drive the queue and leave recovery when idle. *)
Definition resume (c : ExecutionCoordinator) (k : Key) (effects : list Effect)
  : ExecutionCoordinator * result (list Effect) Error :=
  match drive c k with
  | (c, Err e) => (c, Err e)
  | (c, Ok more) => (finish_recovery c, Ok (effects ++ more))
  end.

Definition confirm (c : ExecutionCoordinator) (k : Key) (slot : Slot) (p : Pending)
  : ExecutionCoordinator * result (list Effect) Error :=
  let c := match p_event p with
           | RetireHolder m => release_alias (m_alias m) c
           | _ => c
           end in
  resume (set_slot (k_invocation k) (mkSlot (p_candidate p) None (queue slot)) c) k
    (grant c k <$> p_intents p).

Definition retry (c : ExecutionCoordinator) (k : Key) (slot : Slot) (s : State) (p : Pending)
  : ExecutionCoordinator * result (list Effect) Error :=
  resume (set_slot (k_invocation k) (mkSlot s None (p_event p :: queue slot)) c) k [].

(** [ExecutionCoordinator::complete]. *)
Definition complete (c : ExecutionCoordinator) (cc : CommitCompletion)
  : ExecutionCoordinator * result (list Effect) Error :=
  if unavailable c then (c, Err StoreUnavailable)
  else
    let k := st_key (cc_stamp cc) in
    match groups c !! k_invocation k with
    | None => (c, Err StaleCompletion)
    | Some slot =>
        match pending slot with
        | None => (c, Err StaleCompletion)
        | Some p =>
            if bool_decide (p_stamp p ≠ cc_stamp cc)
               || bool_decide (st_epoch (cc_stamp cc) ≠ epoch c)
            then (c, Err StaleCompletion)
            else match cc_resolution cc with
            | FailedBeforePublication cause =>
                (set_unavailable
                   (set_write_failure (mkKnownWriteFailure (cc_stamp cc) cause) c),
                 Ok [EFailStop])
            | Unknown => (set_unavailable c, Ok [EFailStop])
            | Committed => confirm c k slot p
            | RolledBack => retry c k slot (confirmed slot) p
            | Readback actual =>
                if bool_decide (r_key (sr_record actual) ≠ k)
                then (set_unavailable c, Ok [EFailStop])
                else if bool_decide (sr_record actual = record (p_candidate p))
                then confirm c k slot p
                else match with_readback (confirmed slot) (sr_record actual) with
                     | Err _ => (set_unavailable c, Ok [EFailStop])
                     | Ok s => retry c k slot s p
                     end
            end
        end
    end.

(** ** Restoring from a recovery catalog *)

Fixpoint restore_claims (c : ExecutionCoordinator) (records : list ERecord)
  : result ExecutionCoordinator Error :=
  match records with
  | [] => Ok c
  | r :: records =>
      match claim c (r_key r) with
      | (_, Err e) => Err e
      | (c, Ok _) =>
          let? s := from_record r in
          restore_claims (set_slot (k_invocation (r_key r)) (mkSlot s None []) c) records
      end
  end.

Fixpoint restore_recover (c : ExecutionCoordinator) (keys : list Key)
  : result (ExecutionCoordinator * list Effect) Error :=
  match keys with
  | [] => Ok (c, [])
  | k :: keys =>
      match enqueue c k Recover true with
      | (_, Err e) => Err e
      | (c, Ok effects) =>
          let? r := restore_recover c keys in
          Ok (r.1, effects ++ r.2)
      end
  end.

(** [ExecutionCoordinator::restore].  [order] is the order in which the
    [HashMap] of claimed invocations yields its keys. *)
Definition restore (order : list Key → list Key) (catalog : list ERecord) (e : AuthorityEpoch)
  : result (ExecutionCoordinator * list Effect) Error :=
  let? c := restore_claims (coordinator_new e) catalog in
  let? r := restore_recover (set_recovering true c)
              (order (snd <$> map_to_list (invocations c))) in
  Ok (finish_recovery r.1, r.2).

(** ** Store authority *)

(** [AcceptedStoreAuthority::failed] of [store_authority]. *)
Definition store_failed (c : ExecutionCoordinator) (cause : AuthorityFailureCause)
  : AuthorityFailure := mkAuthorityFailure (epoch c) cause None.

Definition owns_commit_request (c : ExecutionCoordinator) (q : CommitRequest) : bool :=
  bool_decide (st_epoch (cr_stamp q) = epoch c)
  && is_some_and (λ p, bool_decide (p_stamp p = cr_stamp q))
       (groups c !! k_invocation (st_key (cr_stamp q)) ≫= pending).

Definition storage_is_quiescent (c : ExecutionCoordinator) : bool :=
  negb (unavailable c) && negb (recovering c)
  && all_values (λ s, is_none (pending s) && bool_decide (queue s = [])
                      && (is_none (run (record (confirmed s)))
                          || is_some (r_producer (record (confirmed s)))))
       (groups c).

Definition apply_authority_failure (c : ExecutionCoordinator) (f : AuthorityFailure)
  : ExecutionCoordinator * result (list Effect) Error :=
  if bool_decide (af_epoch f ≠ epoch c) then (c, Err StaleCompletion)
  else if unavailable c then (c, Ok [])
  else (set_unavailable (set_authority_failure f c), Ok [EFailStop]).

End WithCodec.
