(* ===== verification/CoordinatorFacts.v ===== *)
(** * Lemmas on the execution coordinator

    The invariant [CoordInv] of the coordinator and its preservation by the
    decision loop and by every request; the simulation of the per-invocation
    contract by the confirmed states of the slots. *)

From Stdlib Require Import ZArith Lia.
From stdpp Require Import base gmap list option numbers.
From S2P Require Import Prelude Contract Decide ContractFacts ContractProps Storage Coordinator.

Local Open Scope Z_scope.

Section WithCodec.
Context {C : Codec} {L : CodecLaws C}.

(** ** Rights among the effects *)

Definition is_right (e : Effect) : bool :=
  match e with
  | EAccepted _ | ERun _ | EAttached _ | ECancelRequested _ => true
  | _ => false
  end.
Definition rights (es : list Effect) : list Effect := List.filter is_right es.

Lemma rights_app a b : rights (a ++ b) = rights a ++ rights b.
Proof. apply List.filter_app. Qed.

(** ** Invariants *)

(** Aliases never collide with durable identities, and an aliased invocation
    points to a claimed alias. *)
Record AliasInv (c : ExecutionCoordinator) : Prop := {
  al_tasks : ∀ a, is_Some (aliases c !! a) → tasks c !! a = None;
  al_invocations : ∀ i a, alias_invocations c !! i = Some a →
    invocations c !! i = None ∧ is_Some (aliases c !! a);
  al_unique : ∀ i j a, alias_invocations c !! i = Some a →
    alias_invocations c !! j = Some a → i = j;
  al_capacity : (size (aliases c) ≤ alias_capacity c)%nat;
}.

(** A pending commit is the decision of its event on the confirmed state. *)
Record PendingInv (c : ExecutionCoordinator) (s : State) (p : Pending) : Prop := {
  pe_event : event_ok (p_event p);
  pe_decided : ∃ payloads,
    state_decide s (p_event p) = Ok (Some (mkTransition (p_candidate p) (p_intents p) payloads));
  pe_key : st_key (p_stamp p) = r_key (record s);
  pe_epoch : st_epoch (p_stamp p) = epoch c;
  pe_id : st_id (p_stamp p) ≤ next_commit c;
  pe_expected : st_expected_revision (p_stamp p) = r_revision (record s);
  pe_previous : st_previous_fingerprint (p_stamp p) =
    if 0 <? r_revision (record s) then Some (fingerprint (record s)) else None;
  pe_fingerprint : st_fingerprint (p_stamp p) = fingerprint (record (p_candidate p));
}.

Record SlotInv (c : ExecutionCoordinator) (i : InvocationId) (s : Slot) : Prop := {
  sl_invocation : k_invocation (r_key (record (confirmed s))) = i;
  sl_state : StateInv (confirmed s);
  sl_pending : ∀ p, pending s = Some p → PendingInv c (confirmed s) p;
  sl_queue : Forall event_ok (queue s);
}.

Record CoordInv (c : ExecutionCoordinator) : Prop := {
  ci_slots : ∀ i s, groups c !! i = Some s → SlotInv c i s;
  ci_claims : ∀ i, r_key ∘ record ∘ confirmed <$> groups c !! i = invocations c !! i;
  ci_tasks : ∀ t k, tasks c !! t = Some k ↔
    k_task k = t ∧ invocations c !! k_invocation k = Some k;
  ci_keys : ∀ i k, invocations c !! i = Some k → k_invocation k = i;
  ci_commit : is_u64 (next_commit c);
  ci_distinct : ∀ i j s s' p p', groups c !! i = Some s → groups c !! j = Some s' →
    pending s = Some p → pending s' = Some p' → st_id (p_stamp p) = st_id (p_stamp p') → i = j;
  ci_alias : AliasInv c;
}.

(** What the decision loop leaves alone. *)
Record same_core (c c' : ExecutionCoordinator) : Prop := {
  sc_epoch : epoch c' = epoch c;
  sc_groups : groups c' = groups c;
  sc_invocations : invocations c' = invocations c;
  sc_tasks : tasks c' = tasks c;
  sc_recovering : recovering c' = recovering c;
  sc_capacity : alias_capacity c' = alias_capacity c;
  sc_unavailable : unavailable c = true → unavailable c' = true;
}.

#[export] Instance same_core_preorder : PreOrder same_core.
Proof.
  split; [by intros c|]. intros c1 c2 c3 [] []. split; auto; congruence.
Qed.

Lemma release_alias_core a c : same_core c (release_alias a c).
Proof. by split. Qed.

Lemma release_alias_inv a c : AliasInv c → AliasInv (release_alias a c).
Proof.
  intros [Ht Hi Hu Hc]. split; simpl.
  - intros b [k Hb]. rewrite lookup_delete in Hb. case_decide; [done|]. by apply Ht.
  - intros i b [Hb Hne]%map_lookup_filter_Some. simpl in Hne.
    destruct (Hi i b Hb) as [? [k Hk]]. split; [done|]. exists k.
    by rewrite lookup_delete_ne.
  - intros i j b [Hb _]%map_lookup_filter_Some [Hb' _]%map_lookup_filter_Some. by eapply Hu.
  - etrans; [|done]. apply map_subseteq_size, delete_subseteq.
Qed.

(** ** The decision loop *)

Lemma drive_loop_spec k s q : ∀ c c' p q' r,
  drive_loop k s c q = (c', p, q', r) →
  same_core c c'
  ∧ (AliasInv c → AliasInv c')
  ∧ (next_commit c ≤ next_commit c')
  ∧ (is_u64 (next_commit c) → is_u64 (next_commit c'))
  ∧ (Forall event_ok q → Forall event_ok q')
  ∧ (match p with
     | Some pd => ∃ t, state_decide s (p_event pd) = Ok (Some t)
         ∧ pd = mkPending (stamp_of c' k s t) (p_event pd) (t_state t) (t_intents t)
         ∧ next_commit c' = next_commit c + 1 ∧ (Forall event_ok q → event_ok (p_event pd))
     | None => next_commit c' = next_commit c
     end)
  ∧ (∀ es, r = Ok es → rights es = []).
Proof.
  induction q as [|ev q IH]; intros c c' p q' r H; simpl in H.
  { simplify_eq. split_and!; try done. intros es [= <-]. done. }
  destruct (state_decide s ev) as [[t|]|e] eqn:Hd.
  - destruct (u64_checked_add _ _) as [n|] eqn:Hn.
    + apply u64_checked_add_Some in Hn as [-> Hn]. simplify_eq. simpl.
      split_and!; [by split|by intros []| lia| | |..].
      * intros [? ?]. split; lia.
      * by intros [_ ?]%Forall_cons_iff.
      * exists t. split_and!; try done. by intros [? _]%Forall_cons_iff.
      * intros es [= <-]. done.
    + simplify_eq. split_and!; try done; try lia. by intros [_ ?]%Forall_cons_iff.
  - destruct (drive_loop k s c q) as [[[c1 p1] q1] r1] eqn:Hl. simplify_eq.
    destruct (IH _ _ _ _ _ Hl) as (H1 & H2 & H3 & H4 & H5 & H6 & H7).
    split_and!; try done.
    + intros [_ ?]%Forall_cons_iff. eauto.
    + destruct p as [pd|]; [|done]. destruct H6 as (t & ? & ? & ? & Hev).
      exists t. split_and!; try done. intros [_ ?]%Forall_cons_iff. eauto.
    + intros es Hes. destruct r1 as [es1|]; simplify_eq/=. rewrite rights_app, (H7 es1) by done.
      by destruct ev.
  - destruct (is_outcome ev) eqn:Ho.
    + simplify_eq. split_and!; [by split|by intros []|done..|]. intros es [= <-]. done.
    + set (c0 := match ev with Attach _ => _ | _ => _ end) in H.
      assert (Hc0 : same_core c c0 ∧ (AliasInv c → AliasInv c0) ∧ next_commit c0 = next_commit c).
      { unfold c0. destruct ev; split_and!; try done; auto using release_alias_core,
          release_alias_inv. }
      destruct Hc0 as (Hs0 & Ha0 & Hn0). clearbody c0.
      destruct (drive_loop k s c0 q) as [[[c1 p1] q1] r1] eqn:Hl. simplify_eq.
      destruct (IH _ _ _ _ _ Hl) as (H1 & H2 & H3 & H4 & H5 & H6 & H7). rewrite Hn0 in *.
      split_and!; try done; auto.
      * by etrans.
      * intros [_ ?]%Forall_cons_iff. eauto.
      * destruct p as [pd|]; [|done]. destruct H6 as (t & ? & ? & ? & Hev).
        exists t. split_and!; try done. intros [_ ?]%Forall_cons_iff. eauto.
      * intros es Hes. destruct r1 as [es1|]; simplify_eq/=. eauto.
Qed.

(** ** Slots *)

Lemma pending_inv_mono c c' s p :
  epoch c' = epoch c → next_commit c ≤ next_commit c' → PendingInv c s p → PendingInv c' s p.
Proof. intros He Hn []. split; try done; [congruence|lia]. Qed.

Lemma slot_inv_mono c c' i s :
  epoch c' = epoch c → next_commit c ≤ next_commit c' → SlotInv c i s → SlotInv c' i s.
Proof. intros He Hn []. split; eauto using pending_inv_mono. Qed.

(** The pending commit of a slot after the loop is new or was there before. *)
Definition pending_fresh (c c' : ExecutionCoordinator) (i : InvocationId) : Prop :=
  ∀ s' p', groups c' !! i = Some s' → pending s' = Some p' →
    (∃ s, groups c !! i = Some s ∧ pending s = Some p')
    ∨ (next_commit c < st_id (p_stamp p') ∧ st_id (p_stamp p') ≤ next_commit c').

Lemma set_slot_inv c i old new :
  CoordInv c → groups c !! i = Some old → SlotInv c i new →
  r_key (record (confirmed new)) = r_key (record (confirmed old)) →
  (∀ p, pending new = Some p → pending old = Some p) →
  CoordInv (set_slot i new c).
Proof.
  intros [Hs Hcl Ht Hk Hc Hd Ha] Ho Hn Hkey Hp. split; simpl; try done.
  - intros j s. rewrite lookup_insert. intros Hj. apply (slot_inv_mono c); [done..|].
    case_decide; simplify_eq; eauto.
  - intros j. rewrite lookup_insert. case_decide; subst; [|done].
    rewrite <- Hcl, Ho. simpl. by rewrite Hkey.
  - intros j1 j2 s1 s2 p1 p2. rewrite !lookup_insert. repeat case_decide; subst; try done.
    + intros [= <-] Hj2 Hp1%Hp Hp2. by eapply Hd.
    + intros Hj1 [= <-] Hp1 Hp2%Hp. by eapply Hd.
    + by apply Hd.
  - destruct Ha. by split.
Qed.

(** ** [drive] *)

(** The key a slot answers to. *)
Definition key_at (c : ExecutionCoordinator) (k : Key) : Prop :=
  ∀ s, groups c !! k_invocation k = Some s → r_key (record (confirmed s)) = k.

Record drive_frame (c c' : ExecutionCoordinator) (k : Key) : Prop := {
  df_inv : CoordInv c';
  df_epoch : epoch c' = epoch c;
  df_recovering : recovering c' = recovering c;
  df_commit : next_commit c ≤ next_commit c';
  df_unavailable : unavailable c = true → unavailable c' = true;
  df_others : ∀ i, i ≠ k_invocation k → groups c' !! i = groups c !! i;
  df_confirmed : ∀ i, confirmed <$> groups c' !! i = confirmed <$> groups c !! i;
  df_fresh : pending_fresh c c' (k_invocation k);
}.

Lemma drive_slot_inv c c1 k slot p q r :
  CoordInv c → key_at c k → groups c !! k_invocation k = Some slot →
  drive_loop k (confirmed slot) c (queue slot) = (c1, p, q, r) →
  SlotInv c1 (k_invocation k) (mkSlot (confirmed slot) p q).
Proof.
  intros I Hka Hg Hl. destruct (ci_slots c I _ _ Hg) as [Hi Hst _ Hq].
  destruct (drive_loop_spec _ _ _ _ _ _ _ _ Hl) as (Hc & _ & _ & _ & Hq' & Hp & _).
  split; simpl; auto. intros pd ->. destruct Hp as (t & Hd & -> & Hn & Hev). simpl in *.
  split; simpl; auto; try done.
  - exists (t_payloads t). by destruct t.
  - symmetry. by apply Hka.
Qed.

Lemma drive_coord_inv c c1 k slot p q r :
  CoordInv c → key_at c k → groups c !! k_invocation k = Some slot → pending slot = None →
  drive_loop k (confirmed slot) c (queue slot) = (c1, p, q, r) →
  CoordInv (set_slot (k_invocation k) (mkSlot (confirmed slot) p q) c1).
Proof.
  intros I Hka Hg Hpn Hl. pose proof (drive_slot_inv _ _ _ _ _ _ _ I Hka Hg Hl) as Hs'.
  destruct (drive_loop_spec _ _ _ _ _ _ _ _ Hl) as (Hc & Hal & Hle & Hu & _ & Hp & _).
  destruct Hc as [He Hgr Hin Hta _ _ _]. destruct I as [Hs Hcl Ht Hk Hcm Hd Ha].
  split; simpl; rewrite ?Hgr, ?Hin, ?Hta; auto.
  - intros i s. rewrite lookup_insert. case_decide; subst.
    + intros [= <-]. apply (slot_inv_mono c1); [done|simpl; lia|exact Hs'].
    + intros Hi. apply (slot_inv_mono c); [done|simpl; lia|by apply Hs].
  - intros i. rewrite lookup_insert. case_decide; subst; [|done].
    rewrite <- Hcl, Hg. done.
  - assert (Hnew : ∀ j s pj pd, j ≠ k_invocation k → groups c !! j = Some s →
      pending s = Some pj → p = Some pd → st_id (p_stamp pj) ≠ st_id (p_stamp pd)).
    { intros j s pj pd _ Hj Hpj ->. destruct Hp as (t & _ & -> & Hn & _). simpl.
      pose proof (pe_id _ _ _ (sl_pending _ _ _ (Hs _ _ Hj) _ Hpj)). lia. }
    intros i j s s' p1 p2. rewrite !lookup_insert. repeat case_decide; subst; try done.
    + intros [= <-] Hj Hp1 Hp2 E. simpl in Hp1. by destruct (Hnew _ _ _ _ ltac:(done) Hj Hp2 Hp1).
    + intros Hi [= <-] Hp1 Hp2 E. simpl in Hp2. by destruct (Hnew _ _ _ _ ltac:(done) Hi Hp1 Hp2).
    + by apply Hd.
  - destruct (Hal Ha). by split.
Qed.

Lemma drive_spec c k c' r :
  CoordInv c → key_at c k → drive c k = (c', r) →
  drive_frame c c' k ∧ (∀ es, r = Ok es → rights es = []).
Proof.
  intros I Hka H. unfold drive in H.
  assert (Hid : drive_frame c c k).
  { split; try done. intros s' p' Hg Hp. left. eauto. }
  destruct (groups c !! k_invocation k) as [slot|] eqn:Hg; [|by simplify_eq].
  destruct (pending slot) eqn:Hpn.
  { simplify_eq. split; [done|]. by intros es [= <-]. }
  destruct (drive_loop _ _ _ _) as [[[c1 p] q] r1] eqn:Hl. simplify_eq.
  pose proof (drive_coord_inv _ _ _ _ _ _ _ I Hka Hg Hpn Hl) as I'.
  destruct (drive_loop_spec _ _ _ _ _ _ _ _ Hl) as (Hc & _ & Hle & _ & _ & Hp & Hri).
  destruct Hc as [He Hgr Hin Hta Hrec _ Hun]. split; [|done].
  split; simpl; try done; rewrite ?Hgr.
  - intros i Hi. by rewrite lookup_insert_ne.
  - intros i. rewrite lookup_insert. case_decide; subst; [|done]. by rewrite Hg.
  - intros s' p'. simpl. rewrite lookup_insert_eq. intros [= <-] Hp'. simpl in Hp'. right.
    rewrite Hp' in Hp. destruct Hp as (t & _ & -> & Hn & _). simpl. lia.
Qed.

(** ** Claims and queues *)

Definition state_at (c : ExecutionCoordinator) (k : Key) : State :=
  default (state_empty k) (confirmed <$> groups c !! k_invocation k).

Lemma state_at_inv c k : CoordInv c → StateInv (state_at c k).
Proof.
  intros I. unfold state_at. destruct (groups c !! _) as [s|] eqn:Hg; simpl.
  - apply (ci_slots c I _ _ Hg).
  - apply state_empty_inv.
Qed.

Lemma claim_Ok c k c1 u :
  CoordInv c → claim c k = (c1, Ok u) →
  c1 = set_claims k c
  ∧ aliases c !! k_task k = None ∧ alias_invocations c !! k_invocation k = None
  ∧ ((groups c !! k_invocation k = None ∧ invocations c !! k_invocation k = None
      ∧ tasks c !! k_task k = None)
     ∨ (∃ s, groups c !! k_invocation k = Some s ∧ r_key (record (confirmed s)) = k
        ∧ set_claims k c = c)).
Proof.
  intros I H. unfold claim in H. destruct (_ || _) eqn:E; simplify_eq. opt_prop.
  split_and!; try done. pose proof (ci_claims c I (k_invocation k)) as Hcl.
  destruct (groups c !! k_invocation k) as [s|] eqn:Hg; simpl in Hcl.
  - right. exists s. rewrite <- Hcl in *. simpl in *. bool_prop.
    split_and!; try done. unfold set_claims. destruct c; simpl in *. f_equal.
    + apply insert_id. congruence.
    + apply insert_id. apply (ci_tasks _ I). simpl. split; congruence.
  - left. split_and!; try done. destruct (tasks c !! k_task k) as [k'|] eqn:Ht; [|done].
    simpl in *. bool_prop. subst. apply (ci_tasks c I) in Ht as [_ Ht]. congruence.
Qed.

(** The coordinator after claiming [k] and queueing [ev]. *)
Definition queued (c : ExecutionCoordinator) (k : Key) (ev : Event) : ExecutionCoordinator :=
  let slot := default (mkSlot (state_empty k) None []) (groups c !! k_invocation k) in
  set_slot (k_invocation k)
    (mkSlot (confirmed slot) (pending slot) (queue slot ++ [ev])) (set_claims k c).

Lemma queued_existing c k ev s :
  CoordInv c → event_ok ev → groups c !! k_invocation k = Some s →
  r_key (record (confirmed s)) = k → set_claims k c = c → CoordInv (queued c k ev).
Proof.
  intros I Hev Hg Hk Hsc. unfold queued. rewrite Hg, Hsc. simpl.
  eapply set_slot_inv; try done. destruct (ci_slots c I _ _ Hg).
  split; simpl; auto. apply Forall_app. split; [done|by apply Forall_cons].
Qed.

(** A first slot for a key no identity of which is in use. *)
Lemma fresh_slot_inv c k s q :
  CoordInv c → StateInv s → r_key (record s) = k → Forall event_ok q →
  groups c !! k_invocation k = None →
  invocations c !! k_invocation k = None → tasks c !! k_task k = None →
  aliases c !! k_task k = None → alias_invocations c !! k_invocation k = None →
  CoordInv (set_slot (k_invocation k) (mkSlot s None q) (set_claims k c)).
Proof.
  intros I Hst Hks Hq Hg Hi Ht Ha Hai.
  destruct I as [Hs Hcl Htk Hk Hc Hd [A1 A2 A3 A4]]. split; simpl; try done.
  - intros j s'. rewrite lookup_insert. intros Hj. case_decide; simplify_eq.
    + split; simpl; done.
    + apply (slot_inv_mono c); [done..|]. by apply Hs.
  - intros j. rewrite !lookup_insert. case_decide; [by simpl; f_equal|]. apply Hcl.
  - intros t k'. rewrite !lookup_insert. case_decide as E1; case_decide as E2; subst.
    + naive_solver.
    + split; [intros [= <-]; done|]. intros [E3 E4]. exfalso.
      assert (tasks c !! k_task k' = Some k') by (by apply Htk). congruence.
    + split; [|naive_solver]. intros [<- E3]%Htk. congruence.
    + apply Htk.
  - intros j k'. rewrite lookup_insert. case_decide; [naive_solver|]. apply Hk.
  - intros j1 j2 s1 s2 p1 p2. rewrite !lookup_insert. repeat case_decide; subst; try done.
    + by intros [= <-].
    + by intros ? [= <-].
    + by apply Hd.
  - split; simpl; try done.
    + intros a Hs'. rewrite lookup_insert. case_decide; [|by apply A1].
      subst. destruct Hs' as [? Hs']. congruence.
    + intros j a Hj. destruct (A2 j a Hj) as [? ?]. split; [|done].
      rewrite lookup_insert. case_decide; [congruence|done].
Qed.

Lemma queued_fresh c k ev :
  CoordInv c → event_ok ev → groups c !! k_invocation k = None →
  invocations c !! k_invocation k = None → tasks c !! k_task k = None →
  aliases c !! k_task k = None → alias_invocations c !! k_invocation k = None →
  CoordInv (queued c k ev).
Proof.
  intros I Hev Hg Hi Ht Ha Hai. unfold queued. rewrite Hg. simpl.
  apply fresh_slot_inv; auto using state_empty_inv.
Qed.

Lemma queued_key_at c k ev :
  key_at (queued c k ev) k ↔
  (∀ s, groups c !! k_invocation k = Some s → r_key (record (confirmed s)) = k).
Proof.
  unfold key_at, queued. simpl. setoid_rewrite lookup_insert_eq.
  destruct (groups c !! k_invocation k) as [s|]; simpl.
  - split; [intros H s' [= <-]; exact (H _ eq_refl)|intros H s' [= <-]; simpl; by apply H].
  - split; [done|]. by intros _ s' [= <-].
Qed.

(** ** Frames of a request *)

Record coord_frame (c c' : ExecutionCoordinator) (k : Key) (js : list Intent) : Prop := {
  cf_inv : CoordInv c';
  cf_epoch : epoch c' = epoch c;
  cf_commit : next_commit c ≤ next_commit c';
  cf_unavailable : unavailable c = true → unavailable c' = true;
  cf_others : ∀ i, i ≠ k_invocation k → groups c' !! i = groups c !! i;
  cf_history : history (state_at c k) js (state_at c' k);
  cf_fresh : pending_fresh c c' (k_invocation k);
}.

Lemma coord_frame_refl c k : CoordInv c → coord_frame c c k [].
Proof.
  intros I. split; try done; [constructor|]. intros s' p' Hg Hp. left. eauto.
Qed.

Lemma coord_frame_err c k (e : Error) : CoordInv c →
  coord_frame c c k [] ∧ (∀ es, Err e = Ok es → rights es = []).
Proof. split; [by apply coord_frame_refl|done]. Qed.

Lemma state_at_confirmed c c' k :
  confirmed <$> groups c' !! k_invocation k = confirmed <$> groups c !! k_invocation k →
  state_at c' k = state_at c k.
Proof. unfold state_at. by intros ->. Qed.

Lemma drive_frame_coord c c' k : drive_frame c c' k → coord_frame c c' k [].
Proof.
  intros [I He Hr Hc Hu Ho Hcf Hf]. split; try done.
  rewrite (state_at_confirmed c c'); [constructor|done].
Qed.

Lemma enqueue_spec c k ev rec c' r :
  CoordInv c → event_ok ev → enqueue c k ev rec = (c', r) →
  coord_frame c c' k [] ∧ (∀ es, r = Ok es → rights es = []).
Proof.
  intros I Hev H. unfold enqueue in H.
  destruct (unavailable c); [simplify_eq; by apply coord_frame_err|].
  destruct (recovering c && _); [simplify_eq; by apply coord_frame_err|].
  destruct (is_none _ && _); [simplify_eq; by apply coord_frame_err|].
  destruct (claim c k) as [c1 [u|e]] eqn:Hcl; last first.
  { unfold claim in Hcl. destruct (_ || _); simplify_eq. by apply coord_frame_err. }
  destruct (claim_Ok _ _ _ _ I Hcl) as (-> & Ha & Hai & Hcase).
  change (drive (queued c k ev) k = (c', r)) in H.
  assert (Iq : CoordInv (queued c k ev)).
  { destruct Hcase as [(?&?&?)|(s&?&?&?)]; eauto using queued_fresh, queued_existing. }
  assert (Hka : key_at (queued c k ev) k).
  { apply queued_key_at. intros s Hs. destruct Hcase as [(?&_)|(s0&?&?&_)]; congruence. }
  destruct (drive_spec _ _ _ _ Iq Hka H) as [Hf Hri]. split; [|done].
  destruct Hf as [I' He Hr Hc Hu Ho Hcf Hfr]. split; try done.
  - intros i Hi. rewrite Ho by done. simpl. by rewrite lookup_insert_ne.
  - rewrite (state_at_confirmed (queued c k ev) c') by done.
    assert (state_at (queued c k ev) k = state_at c k) as ->; [|constructor].
    unfold state_at, queued. simpl. rewrite lookup_insert_eq. simpl.
    by destruct (groups c !! k_invocation k).
  - intros s' p' Hg Hp. destruct (Hfr s' p' Hg Hp) as [(s & Hs & Hps)|?]; [left|by right].
    unfold queued in Hs. simpl in Hs. rewrite lookup_insert_eq in Hs. simplify_eq/=.
    destruct (groups c !! k_invocation k) as [s0|]; simpl in *; [eauto|done].
Qed.

(** ** Completions *)

(** No pending commit of the slot of [k] predates the request. *)
Definition consumed (c c' : ExecutionCoordinator) (k : Key) : Prop :=
  ∀ s p, groups c' !! k_invocation k = Some s → pending s = Some p →
    next_commit c < st_id (p_stamp p).

(** Fields the invariant does not read. *)
Lemma coord_inv_flags c c' :
  epoch c' = epoch c → next_commit c' = next_commit c → groups c' = groups c →
  invocations c' = invocations c → tasks c' = tasks c → aliases c' = aliases c →
  alias_invocations c' = alias_invocations c → alias_capacity c' = alias_capacity c →
  CoordInv c → CoordInv c'.
Proof.
  intros He Hn Hg Hi Ht Ha Hai Hc [Hs Hcl Htk Hk Hcm Hd [A1 A2 A3 A4]].
  split; rewrite ?Hg, ?Hi, ?Ht, ?Hn; try done.
  - intros i s Hs'. apply (slot_inv_mono c); [done|lia|]. by apply Hs.
  - split; rewrite ?Ha, ?Hai, ?Ht, ?Hi, ?Hc; done.
Qed.

Lemma finish_recovery_fields c :
  epoch (finish_recovery c) = epoch c ∧ next_commit (finish_recovery c) = next_commit c
  ∧ groups (finish_recovery c) = groups c ∧ unavailable (finish_recovery c) = unavailable c
  ∧ (CoordInv c → CoordInv (finish_recovery c)).
Proof.
  unfold finish_recovery. destruct (_ && _); split_and!; try done. by apply coord_inv_flags.
Qed.

Lemma release_alias_coord_inv a c : CoordInv c → CoordInv (release_alias a c).
Proof.
  intros [Hs Hcl Htk Hk Hcm Hd Ha]. split; try done.
  - intros i s Hs'. apply (slot_inv_mono c); [done..|]. by apply Hs.
  - by apply release_alias_inv.
Qed.

Lemma resume_spec c k old s q js effects c' r :
  CoordInv c → groups c !! k_invocation k = Some old →
  r_key (record (confirmed old)) = k → Forall event_ok q → history (confirmed old) js s →
  resume (set_slot (k_invocation k) (mkSlot s None q) c) k effects = (c', r) →
  coord_frame c c' k js ∧ (∀ es, r = Ok es → rights es = rights effects) ∧ consumed c c' k.
Proof.
  intros I Hg Hk Hq Hh H. unfold resume in H.
  destruct (ci_slots c I _ _ Hg) as [Hinv Hst _ _].
  set (c1 := set_slot _ _ c) in H.
  pose proof (history_inv _ _ _ Hst Hh) as Hst'.
  assert (Hkey : r_key (record s) = k).
  { rewrite <- Hk. apply x_key. by eapply history_extends. }
  assert (I1 : CoordInv c1).
  { eapply set_slot_inv; try done; [|simpl; congruence]. split; simpl; try done. congruence. }
  assert (Hka : key_at c1 k).
  { intros s0. simpl. rewrite lookup_insert_eq. by intros [= <-]. }
  destruct (drive c1 k) as [c2 r2] eqn:Hd.
  destruct (drive_spec _ _ _ _ I1 Hka Hd) as [[I2 He Hr Hc Hu Ho Hcf Hfr] Hri].
  assert (Hcons : ∀ s0 p, groups c2 !! k_invocation k = Some s0 → pending s0 = Some p →
            next_commit c < st_id (p_stamp p) ∧ st_id (p_stamp p) ≤ next_commit c2).
  { intros s0 p Hs0 Hp. destruct (Hfr s0 p Hs0 Hp) as [(s1 & Hs1 & Hp1)|?]; [|done].
    simpl in Hs1. rewrite lookup_insert_eq in Hs1. by simplify_eq. }
  assert (Hat : state_at c k = confirmed old ∧ state_at c2 k = s).
  { rewrite (state_at_confirmed c1 c2) by done. unfold state_at. simpl.
    by rewrite lookup_insert_eq, Hg. }
  destruct Hat as [Hat1 Hat2].
  assert (Hcf2 : coord_frame c c2 k js).
  { split; try done; [|by rewrite Hat1, Hat2|].
    - intros i Hi. rewrite Ho by done. simpl. by rewrite lookup_insert_ne.
    - intros s0 p Hs0 Hp. right. by apply (Hcons s0). }
  destruct r2 as [more|]; simplify_eq.
  - destruct (finish_recovery_fields c2) as (F1 & F2 & F3 & F4 & F5).
    split_and!.
    + destruct Hcf2. split; rewrite ?F1, ?F2, ?F3, ?F4; auto.
      * unfold state_at in *. by rewrite F3.
      * unfold pending_fresh. by rewrite F2, F3.
    + intros es [= <-]. rewrite rights_app, (Hri more) by done. by rewrite app_nil_r.
    + unfold consumed. rewrite F3. intros s0 p ? ?. by apply (Hcons s0).
  - split_and!; try done. intros s0 p ? ?. by apply (Hcons s0).
Qed.

Lemma coord_frame_core c0 c c' k js :
  epoch c0 = epoch c → next_commit c0 = next_commit c → groups c0 = groups c →
  unavailable c0 = unavailable c → coord_frame c0 c' k js → coord_frame c c' k js.
Proof.
  intros He Hn Hg Hu [I1 E1 C1 U1 O1 H1 F1].
  unfold pending_fresh, state_at in *. rewrite He, Hn, Hg, Hu in *. by split.
Qed.

Lemma history_one s i s' : lstep s i s' → history s i s'.
Proof. intros H. rewrite <- (app_nil_r i). econstructor; [done|constructor]. Qed.

Lemma confirm_spec c k slot p c' r :
  CoordInv c → groups c !! k_invocation k = Some slot → pending slot = Some p →
  r_key (record (confirmed slot)) = k → confirm c k slot p = (c', r) →
  coord_frame c c' k (p_intents p)
  ∧ (∀ es, r = Ok es → rights es = rights (grant c k <$> p_intents p)) ∧ consumed c c' k.
Proof.
  intros I Hg Hp Hk H. unfold confirm in H.
  set (c0 := match p_event p with RetireHolder _ => _ | _ => _ end) in H.
  assert (H0 : CoordInv c0 ∧ epoch c0 = epoch c ∧ next_commit c0 = next_commit c
               ∧ groups c0 = groups c ∧ unavailable c0 = unavailable c).
  { unfold c0. destruct (p_event p); split_and!; try done. by apply release_alias_coord_inv. }
  destruct H0 as (I0 & E0 & N0 & G0 & U0). clearbody c0.
  destruct (ci_slots c I _ _ Hg) as [_ _ Hpd Hq]. destruct (Hpd p Hp) as [Hev [pl Hd] _ _ _ _ _ _].
  assert (Hh : history (confirmed slot) (p_intents p) (p_candidate p)).
  { apply history_one. exact (ls_decide _ _ _ Hev Hd). }
  rewrite <- G0 in Hg.
  destruct (resume_spec _ _ _ _ _ _ _ _ _ I0 Hg Hk Hq Hh H) as (Hf & Hr & Hc).
  split_and!; [by eapply coord_frame_core| |].
  - intros es Hes. rewrite (Hr es Hes). unfold grant. by rewrite E0.
  - unfold consumed in *. by rewrite <- N0.
Qed.

Lemma retry_spec c k slot s p c' r :
  CoordInv c → groups c !! k_invocation k = Some slot → pending slot = Some p →
  r_key (record (confirmed slot)) = k → history (confirmed slot) [] s →
  retry c k slot s p = (c', r) →
  coord_frame c c' k [] ∧ (∀ es, r = Ok es → rights es = []) ∧ consumed c c' k.
Proof.
  intros I Hg Hp Hk Hh H. unfold retry in H.
  destruct (ci_slots c I _ _ Hg) as [_ _ Hpd Hq]. destruct (Hpd p Hp) as [Hev _ _ _ _ _ _ _].
  apply (resume_spec c k slot s (p_event p :: queue slot) [] [] c' r); try done.
  by apply Forall_cons.
Qed.

(** The store goes away: nothing else changes. *)
Lemma unavailable_frame c c' k :
  CoordInv c → epoch c' = epoch c → next_commit c' = next_commit c → groups c' = groups c →
  invocations c' = invocations c → tasks c' = tasks c → aliases c' = aliases c →
  alias_invocations c' = alias_invocations c → alias_capacity c' = alias_capacity c →
  unavailable c' = true → coord_frame c c' k [].
Proof.
  intros I He Hn Hg Hi Ht Ha Hai Hc Hu.
  split; rewrite ?He, ?Hn, ?Hg; try done.
  - by apply (coord_inv_flags c).
  - rewrite (state_at_confirmed c c') by (by rewrite Hg). constructor.
  - intros s p. rewrite Hg. eauto.
Qed.

Definition readback_ok (r : Resolution) : Prop :=
  match r with Readback p => is_u64 (r_revision (sr_record p)) | _ => True end.

(** What a request does to the slot of [k]: a history of the contract, with
    exactly the rights its intents grant. *)
Definition request_spec (c c' : ExecutionCoordinator) (k : Key)
  (r : result (list Effect) Error) : Prop :=
  ∃ js, coord_frame c c' k js ∧ (∀ es, r = Ok es → rights es = rights (grant c k <$> js)).

(** A completion is refused, stops the coordinator or consumes its stamp. *)
Definition completion_spec (c c' : ExecutionCoordinator) (k : Key)
  (r : result (list Effect) Error) : Prop :=
  request_spec c c' k r
  ∧ ((c' = c ∧ (r = Err StaleCompletion ∨ r = Err StoreUnavailable))
     ∨ unavailable c' = true ∨ consumed c c' k).

Lemma request_spec_quiet c c' k r :
  coord_frame c c' k [] → (∀ es, r = Ok es → rights es = []) → request_spec c c' k r.
Proof. intros Hf Hr. by exists []. Qed.

Lemma request_spec_err c k e : CoordInv c → request_spec c c k (Err e).
Proof. intros I. apply request_spec_quiet; [by apply coord_frame_refl|done]. Qed.

Lemma completion_refused c k e :
  CoordInv c → e = StaleCompletion ∨ e = StoreUnavailable → completion_spec c c k (Err e).
Proof.
  intros I He. split; [by apply request_spec_err|]. left. destruct He; subst; auto.
Qed.

Lemma completion_stopped c c' k :
  coord_frame c c' k [] → unavailable c' = true → completion_spec c c' k (Ok [EFailStop]).
Proof.
  intros Hf Hu. split; [|auto]. apply request_spec_quiet; [done|]. by intros es [= <-].
Qed.

Lemma completion_resumed c c' k r js :
  coord_frame c c' k js
  ∧ (∀ es, r = Ok es → rights es = rights (grant c k <$> js)) ∧ consumed c c' k →
  completion_spec c c' k r.
Proof. intros (?&?&?). split; [by exists js|auto]. Qed.

Lemma complete_spec c cc c' r :
  CoordInv c → readback_ok (cc_resolution cc) → complete c cc = (c', r) →
  completion_spec c c' (st_key (cc_stamp cc)) r.
Proof.
  intros I Hrb H. unfold complete in H. set (k := st_key (cc_stamp cc)) in *.
  destruct (unavailable c) eqn:Hu; [simplify_eq; apply completion_refused; by auto|].
  destruct (groups c !! k_invocation k) as [slot|] eqn:Hg;
    [|simplify_eq; apply completion_refused; by auto].
  destruct (pending slot) as [p|] eqn:Hp; [|simplify_eq; apply completion_refused; by auto].
  destruct (_ || _) eqn:Hst; [simplify_eq; apply completion_refused; by auto|]. bool_prop.
  assert (Hk : r_key (record (confirmed slot)) = k).
  { destruct (sl_pending _ _ _ (ci_slots c I _ _ Hg) _ Hp). unfold k. congruence. }
  assert (Hretry : ∀ s, history (confirmed slot) [] s → retry c k slot s p = (c', r) →
            completion_spec c c' k r).
  { intros s Hh Hc. apply (completion_resumed _ _ _ _ []). by eapply retry_spec. }
  assert (Hstop : ∀ cause, c' = set_unavailable (match cause with
              | Some f => set_write_failure f c | None => c end) → r = Ok [EFailStop] →
            completion_spec c c' k r).
  { intros cause -> ->. destruct cause; apply completion_stopped; try done;
      by apply unavailable_frame. }
  destruct (cc_resolution cc) as [| |cause|actual|].
  - eapply completion_resumed, confirm_spec; done.
  - apply (Hretry (confirmed slot)); [constructor|done].
  - simplify_eq. by eapply (Hstop (Some _)).
  - simpl in Hrb. case_bool_decide; [simplify_eq; by apply (Hstop None)|].
    case_bool_decide; [eapply completion_resumed, confirm_spec; done|].
    destruct (with_readback _ _) as [s|] eqn:Hw; [|simplify_eq; by apply (Hstop None)].
    apply (Hretry s); [|done]. apply history_one. by eapply ls_readback.
  - simplify_eq. by apply (Hstop None).
Qed.

(** ** The other requests *)

Lemma enqueue_request c k ev rec c' r :
  CoordInv c → event_ok ev → enqueue c k ev rec = (c', r) → request_spec c c' k r.
Proof. intros I Hev [Hf Hr]%enqueue_spec; [|done..]. by apply request_spec_quiet. Qed.

Lemma report_spec c e c' r :
  CoordInv c → outcome_built (oe_outcome e) → report c e = (c', r) →
  request_spec c c' (oe_key e) r.
Proof.
  intros I Hv H. unfold report in H.
  case_bool_decide; [simplify_eq; by apply request_spec_err|].
  destruct (unavailable c) eqn:Hu; [|eapply enqueue_request; [done| |exact H]; exact Hv].
  destruct (groups c !! _) as [slot|] eqn:Hg; [|simplify_eq; by apply request_spec_err].
  destruct (_ || _) eqn:E; [simplify_eq; by apply request_spec_err|]. simplify_eq.
  apply request_spec_quiet; [|by intros es [= <-]].
  split; try done.
  - eapply set_slot_inv; try done. destruct (ci_slots c I _ _ Hg). split; try done; simpl.
    apply Forall_app. split; [done|]. by apply Forall_cons.
  - intros j Hj. simpl. by rewrite lookup_insert_ne.
  - set (c1 := set_slot _ _ c). rewrite (state_at_confirmed c c1); [constructor|].
    simpl. by rewrite lookup_insert_eq, Hg.
  - intros s' p. simpl. rewrite lookup_insert_eq. intros [= <-] Hp. left. eauto.
Qed.

Lemma set_alias_inv c a i k :
  CoordInv c → tasks c !! a = None → aliases c !! a = None → invocations c !! i = None →
  alias_invocations c !! i = None → (size (aliases c) < alias_capacity c)%nat →
  CoordInv (set_alias a i k c).
Proof.
  intros [Hs Hcl Htk Hk Hcm Hd [A1 A2 A3 A4]] Ht Ha Hi Hai Hsz. split; try done.
  { intros j s Hj. apply (slot_inv_mono c); [done..|]. by apply Hs. }
  split; simpl.
  - intros b. rewrite lookup_insert. case_decide; [by subst|apply A1].
  - intros j b. rewrite !lookup_insert. case_decide; subst.
    + intros [= <-]. rewrite decide_True by done. eauto.
    + intros [? ?]%A2. split; [done|]. case_decide; eauto.
  - intros j1 j2 b. rewrite !lookup_insert. repeat case_decide; subst; try done; [| |eauto].
    + intros [= <-] [_ [? ?]]%A2. congruence.
    + intros [_ [? ?]]%A2 [= <-]. congruence.
  - rewrite map_size_insert_None by done. lia.
Qed.

Lemma release_alias_frame c c' k js a :
  coord_frame c c' k js → coord_frame c (release_alias a c') k js.
Proof. intros []. split; try done. by apply release_alias_coord_inv. Qed.

Lemma attach_spec c k e c' r :
  CoordInv c → attach c k e = (c', r) → request_spec c c' k r.
Proof.
  intros I H. unfold attach in H.
  destruct (_ || _) eqn:E; [simplify_eq; by apply request_spec_err|]. opt_prop.
  destruct (check_available c); [|simplify_eq; by apply request_spec_err].
  destruct (_ <=? _)%nat eqn:Hsz; [simplify_eq; by apply request_spec_err|].
  apply Nat.leb_gt in Hsz.
  destruct (enqueue _ _ _ _) as [c1 r1] eqn:He.
  assert (I1 : CoordInv (set_alias (alias_id e) (k_invocation (je_request e)) k c))
    by (by apply set_alias_inv).
  destruct (enqueue_spec _ _ (Attach e) _ _ _ I1 Logic.I He) as [Hf Hr].
  apply coord_frame_core with (c := c) in Hf; try done.
  destruct r1; simplify_eq; apply request_spec_quiet; try done. by apply release_alias_frame.
Qed.

Lemma authority_failure_spec c f k c' r :
  CoordInv c → apply_authority_failure c f = (c', r) → request_spec c c' k r.
Proof.
  intros I H. unfold apply_authority_failure in H.
  case_bool_decide; [simplify_eq; by apply request_spec_err|].
  destruct (unavailable c); simplify_eq; (apply request_spec_quiet; [|by intros es [= <-]]).
  - by apply coord_frame_refl.
  - by apply unavailable_frame.
Qed.

(** ** Commit requests among the effects *)

(** The commit request of a pending commit. *)
Definition commit_of (s : State) (pd : Pending) (q : CommitRequest) : Prop :=
  cr_stamp q = p_stamp pd ∧ cr_candidate q = record (p_candidate pd)
  ∧ state_decide s (p_event pd) =
      Ok (Some (mkTransition (p_candidate pd) (p_intents pd) (cr_payloads q))).

Definition commits_sound (c : ExecutionCoordinator) (k : Key) (es : list Effect) : Prop :=
  ∀ q, ECommit q ∈ es → ∃ slot pd, groups c !! k_invocation k = Some slot
    ∧ r_key (record (confirmed slot)) = k ∧ pending slot = Some pd
    ∧ commit_of (confirmed slot) pd q.

Lemma drive_loop_commits k s q : ∀ c c' p q' es,
  drive_loop k s c q = (c', p, q', Ok es) →
  ∀ rq, ECommit rq ∈ es → ∃ pd, p = Some pd ∧ commit_of s pd rq.
Proof.
  induction q as [|ev q IH]; intros c c' p q' es H rq Hin; simpl in H.
  { simplify_eq. by apply elem_of_nil in Hin. }
  destruct (state_decide s ev) as [[t|]|e] eqn:Hd.
  - destruct (u64_checked_add _ _) as [n|]; simplify_eq.
    apply list_elem_of_singleton in Hin. simplify_eq. eexists. split; [done|].
    split_and!; simpl; try done. rewrite Hd. by destruct t.
  - destruct (drive_loop k s c q) as [[[c1 p1] q1] [es1|]] eqn:Hl; simplify_eq.
    apply elem_of_app in Hin as [Hin|Hin]; [|by eapply IH].
    destruct ev; try by apply elem_of_nil in Hin. by apply list_elem_of_singleton in Hin.
  - destruct (is_outcome ev); simplify_eq.
    { by apply list_elem_of_singleton in Hin. }
    destruct (drive_loop k s _ q) as [[[c1 p1] q1] [es1|]] eqn:Hl; simplify_eq.
    apply elem_of_cons in Hin as [?|Hin]; [done|]. by eapply IH.
Qed.

Lemma drive_commits c k c' es :
  key_at c k → drive c k = (c', Ok es) → commits_sound c' k es.
Proof.
  intros Hk H rq Hin. unfold drive in H.
  destruct (groups c !! k_invocation k) as [slot|] eqn:Hg; [|done].
  destruct (pending slot); [simplify_eq; by apply elem_of_nil in Hin|].
  destruct (drive_loop _ _ _ _) as [[[c1 p] q] r] eqn:Hl. simplify_eq.
  destruct (drive_loop_commits _ _ _ _ _ _ _ _ Hl _ Hin) as (pd & -> & Hc).
  eexists _, pd. simpl. rewrite lookup_insert_eq. split_and!; try done. simpl. by apply Hk.
Qed.

Lemma enqueue_commits c k ev rec c' es :
  CoordInv c → enqueue c k ev rec = (c', Ok es) → commits_sound c' k es.
Proof.
  intros I H. unfold enqueue in H.
  destruct (unavailable c); [done|]. destruct (recovering c && _); [done|].
  destruct (is_none _ && _); [done|].
  destruct (claim c k) as [c1 [u|e]] eqn:Hcl; [|done].
  destruct (claim_Ok _ _ _ _ I Hcl) as (-> & _ & _ & Hcase).
  change (drive (queued c k ev) k = (c', Ok es)) in H.
  apply (drive_commits _ _ _ _) in H; [done|]. apply queued_key_at.
  intros s Hs. destruct Hcase as [(?&_)|(s0&?&?&_)]; congruence.
Qed.

Lemma resume_commits c k effects c' es :
  key_at c k → (∀ rq, ECommit rq ∉ effects) →
  resume c k effects = (c', Ok es) → commits_sound c' k es.
Proof.
  intros Hk Hn H rq Hin. unfold resume in H.
  destruct (drive c k) as [c1 [more|]] eqn:Hd; simplify_eq.
  apply elem_of_app in Hin as [Hin|Hin]; [by destruct (Hn rq)|].
  destruct (finish_recovery_fields c1) as (_ & _ & -> & _).
  by apply (drive_commits _ _ _ _ Hk Hd).
Qed.

Lemma resumed_commits c k s q effects c' es :
  r_key (record s) = k → (∀ rq, ECommit rq ∉ effects) →
  resume (set_slot (k_invocation k) (mkSlot s None q) c) k effects = (c', Ok es) →
  commits_sound c' k es.
Proof.
  intros Hk. apply resume_commits. intros s0. simpl. rewrite lookup_insert_eq.
  by intros [= <-].
Qed.

Lemma history_key s js s' : StateInv s → history s js s' → r_key (record s') = r_key (record s).
Proof. intros I H. apply x_key. by eapply history_extends. Qed.

Lemma confirm_commits c k slot p c' es :
  CoordInv c → groups c !! k_invocation k = Some slot → pending slot = Some p →
  r_key (record (confirmed slot)) = k → confirm c k slot p = (c', Ok es) →
  commits_sound c' k es.
Proof.
  intros I Hg Hp Hk H. destruct (ci_slots c I _ _ Hg) as [_ Hst Hpd _].
  destruct (Hpd p Hp) as [Hev [pl Hd] _ _ _ _ _ _].
  eapply resumed_commits; [| |exact H].
  - rewrite <- Hk. eapply history_key; [done|]. apply history_one. exact (ls_decide _ _ _ Hev Hd).
  - intros rq (j & Hj & _)%list_elem_of_fmap. by destruct j.
Qed.

Lemma stop_commits c k : commits_sound c k [EFailStop].
Proof. by intros rq ?%list_elem_of_singleton. Qed.

Lemma complete_commits c cc c' es :
  CoordInv c → readback_ok (cc_resolution cc) → complete c cc = (c', Ok es) →
  commits_sound c' (st_key (cc_stamp cc)) es.
Proof.
  intros I Hrb H. unfold complete in H. set (k := st_key (cc_stamp cc)) in *.
  destruct (unavailable c); [done|].
  destruct (groups c !! k_invocation k) as [slot|] eqn:Hg; [|done].
  destruct (pending slot) as [p|] eqn:Hp; [|done].
  destruct (_ || _) eqn:Hst; [done|]. bool_prop.
  destruct (ci_slots c I _ _ Hg) as [_ Hst' Hpd _].
  assert (Hk : r_key (record (confirmed slot)) = k).
  { destruct (Hpd _ Hp). unfold k. congruence. }
  assert (Hretry : ∀ s, history (confirmed slot) [] s → retry c k slot s p = (c', Ok es) →
            commits_sound c' k es).
  { intros s Hh Hr. eapply resumed_commits; [| |exact Hr]; [|intros ? ?%elem_of_nil; done].
    rewrite <- Hk. by eapply history_key. }
  destruct (cc_resolution cc) as [| |cause|actual|].
  - by eapply confirm_commits.
  - apply (Hretry (confirmed slot)); [constructor|done].
  - simplify_eq. apply stop_commits.
  - simpl in Hrb. case_bool_decide; [simplify_eq; apply stop_commits|].
    case_bool_decide; [by eapply confirm_commits|].
    destruct (with_readback _ _) as [s|] eqn:Hw; [|simplify_eq; apply stop_commits].
    apply (Hretry s); [|done]. apply history_one. by eapply ls_readback.
  - simplify_eq. apply stop_commits.
Qed.

End WithCodec.
