(* ===== verification/CoordinatorProps.v ===== *)
(** * Properties of the execution coordinator

    Requests against the coordinator as data ([Request], [exec]), sequences of
    them ([run_requests]) and the theorems about them: every request keeps the
    invariant and refines the per-invocation contract, a worker is permitted
    at most once, a failed store stops everything, a completion is consumed
    once and every commit request can be persisted. *)

From Stdlib Require Import ZArith Lia.
From stdpp Require Import base gmap list option numbers.
From S2P Require Import Prelude Contract Decide ContractFacts Sample ContractProps Storage.
From S2P Require Import Coordinator CoordinatorFacts.

Local Open Scope Z_scope.

Section WithCodec.
Context {C : Codec}.

(** ** Requests *)

(** One constructor per public mutating method of the coordinator. *)
Inductive Request :=
| QSubmit (k : Key) (o : OwnerCapability) (w : ObservationWindow)
| QCancel (k : Key)
| QBegin (p : AcceptedPermit) (started : Z) (auth : option ReadAuthority)
| QReport (e : OutcomeEvidence)
| QRejectAdmission (e : AdmissionRejection)
| QExposeTask (k : Key)
| QAcknowledge (k : Key) (o : OwnerCapability) (digest : hash) (at_ms : Z)
| QAttach (k : Key) (e : JoinEvidence)
| QCancelHolder (k : Key) (m : Membership)
| QRetireHolder (k : Key) (m : Membership)
| QComplete (cc : CommitCompletion)
| QAuthorityFailure (f : AuthorityFailure).

Definition exec (c : ExecutionCoordinator) (q : Request)
  : ExecutionCoordinator * result (list Effect) Error :=
  match q with
  | QSubmit k o w => submit c k o w
  | QCancel k => cancel c k
  | QBegin p started auth => begin c p started auth
  | QReport e => report c e
  | QRejectAdmission e => reject_admission c e
  | QExposeTask k => expose_task c k
  | QAcknowledge k o digest at_ms => acknowledge c k o digest at_ms
  | QAttach k e => attach c k e
  | QCancelHolder k m => cancel_holder c k m
  | QRetireHolder k m => retire_holder c k m
  | QComplete cc => complete c cc
  | QAuthorityFailure f => apply_authority_failure c f
  end.

(** What the Rust types guarantee of a request: windows and outcomes were
    built by their public constructors, a revision is a [u64]. *)
Definition request_ok (q : Request) : Prop :=
  match q with
  | QSubmit _ _ w => is_ok (window_new (received_epoch_ms w) (budget_ms w)) = true
  | QReport e => outcome_built (oe_outcome e)
  | QRejectAdmission e => outcome_built (ar_outcome e)
  | QComplete cc => readback_ok (cc_resolution cc)
  | _ => True
  end.

(** The invocation a request is about; the loss of the store is about none. *)
Definition about (q : Request) (k : Key) : Prop :=
  match q with
  | QSubmit k' _ _ | QCancel k' | QExposeTask k' | QAcknowledge k' _ _ _ | QAttach k' _
  | QCancelHolder k' _ | QRetireHolder k' _ => k = k'
  | QBegin p _ _ => k = ap_key p
  | QReport e => k = oe_key e
  | QRejectAdmission e => k = ar_key e
  | QComplete cc => k = st_key (cc_stamp cc)
  | QAuthorityFailure _ => True
  end.

(** A sequence of requests; a refused request has no effects. *)
Fixpoint run_requests (c : ExecutionCoordinator) (qs : list Request)
  : ExecutionCoordinator * list Effect :=
  match qs with
  | [] => (c, [])
  | q :: qs =>
      let '(c1, r) := exec c q in
      let '(c2, es) := run_requests c1 qs in
      (c2, match r with Ok es1 => es1 ++ es | Err _ => es end)
  end.

Section Laws.
Context {L : CodecLaws C}.

Lemma exec_request c q k c' r :
  CoordInv c → request_ok q → about q k → exec c q = (c', r) → request_spec c c' k r.
Proof.
  intros I Hq Hk H. destruct q; simpl in *; subst;
    try (by eapply enqueue_request; [done| |exact H]).
  - unfold begin in H. case_bool_decide; [simplify_eq; by apply request_spec_err|].
    by eapply enqueue_request; [done| |exact H].
  - by eapply report_spec.
  - unfold reject_admission in H. case_bool_decide; [simplify_eq; by apply request_spec_err|].
    by eapply enqueue_request; [done| |exact H].
  - by eapply attach_spec.
  - by eapply complete_spec.
  - by eapply authority_failure_spec.
Qed.

Lemma about_some q : ∃ k, about q k.
Proof. destruct q; simpl; try by eexists. by exists read_key. Qed.

Lemma exec_inv c q c' r : CoordInv c → request_ok q → exec c q = (c', r) → CoordInv c'.
Proof.
  intros I Hq H. destruct (about_some q) as [k Hk].
  by destruct (exec_request _ _ _ _ _ I Hq Hk H) as (js & [] & _).
Qed.

Lemma exec_unavailable c q c' r :
  CoordInv c → request_ok q → exec c q = (c', r) → unavailable c = true → unavailable c' = true.
Proof.
  intros I Hq H. destruct (about_some q) as [k Hk].
  by destruct (exec_request _ _ _ _ _ I Hq Hk H) as (js & [] & _).
Qed.

(** Induction over a sequence of requests that keeps the invariant. *)
Lemma run_requests_ind (P : ExecutionCoordinator → ExecutionCoordinator → list Effect → Prop) :
  (∀ c, CoordInv c → P c c []) →
  (∀ c q c1 r c2 es, CoordInv c → request_ok q → exec c q = (c1, r) → P c1 c2 es →
     P c c2 (match r with Ok es1 => es1 ++ es | Err _ => es end)) →
  ∀ qs c c' es, CoordInv c → Forall request_ok qs → run_requests c qs = (c', es) →
    CoordInv c' ∧ P c c' es.
Proof.
  intros Hnil Hcons qs. induction qs as [|q qs IH]; intros c c' es I Hqs H; simpl in H.
  { simplify_eq. auto. }
  apply Forall_cons_iff in Hqs as [Hq Hqs].
  destruct (exec c q) as [c1 r] eqn:He. destruct (run_requests c1 qs) as [c2 es2] eqn:Hr.
  simplify_eq. pose proof (exec_inv _ _ _ _ I Hq He) as I1.
  destruct (IH _ _ _ I1 Hqs Hr) as [I2 Hp]. split; [done|]. by eapply Hcons.
Qed.

Lemma new_inv e : CoordInv (coordinator_new e).
Proof.
  split; simpl; try done.
  - intros t k. rewrite !lookup_empty. by split; [|intros [_ ?]].
  - split; simpl; try done; try by intros a [? ?]. rewrite map_size_empty. lia.
Qed.

(** ** Runs *)

(** The permits to start a worker for the invocation [i]. *)
Definition runs_of (i : InvocationId) (es : list Effect) : nat :=
  length (List.filter (λ e, match e with
    | ERun p => bool_decide (k_invocation (rp_key p) = i) | _ => false end) es).

Lemma runs_of_app i a b : runs_of i (a ++ b) = (runs_of i a + runs_of i b)%nat.
Proof. unfold runs_of. by rewrite List.filter_app, length_app. Qed.

Lemma runs_of_rights i es : runs_of i es = runs_of i (rights es).
Proof.
  induction es as [|e es IH]; [done|]. unfold runs_of, rights in *.
  destruct e; simpl; try apply IH. case_bool_decide; simpl; [f_equal|]; apply IH.
Qed.

Lemma runs_of_grants i c k js :
  runs_of i (grant c k <$> js)
  = if bool_decide (k_invocation k = i) then run_count js else 0%nat.
Proof.
  induction js as [|j js IH]; [by case_bool_decide|]. unfold runs_of, run_count in *.
  destruct j; simpl; try apply IH. case_bool_decide; simpl; [f_equal|]; apply IH.
Qed.

(** How many runs may still be granted for an invocation. *)
Definition budget_at (c : ExecutionCoordinator) (i : InvocationId) : nat :=
  from_option (run_budget ∘ confirmed) 1%nat (groups c !! i).

Lemma budget_state_at c k : budget_at c (k_invocation k) = run_budget (state_at c k).
Proof. unfold budget_at, state_at. by destruct (groups c !! k_invocation k). Qed.

Lemma exec_budget c q c1 r i :
  CoordInv c → request_ok q → exec c q = (c1, r) →
  (runs_of i (match r with Ok es => es | Err _ => [] end) + budget_at c1 i ≤ budget_at c i)%nat.
Proof.
  intros I Hq H. destruct (about_some q) as [k Hk].
  destruct (exec_request _ _ _ _ _ I Hq Hk H) as (js & Hf & Hr).
  assert (Hn : (runs_of i (match r with Ok es => es | Err _ => [] end)
               ≤ runs_of i (grant c k <$> js))%nat).
  { destruct r as [es|]; [|unfold runs_of; simpl; lia].
    rewrite (runs_of_rights i es), (Hr es eq_refl), <- runs_of_rights. lia. }
  rewrite runs_of_grants in Hn. case_bool_decide as Hi.
  - subst i. rewrite !budget_state_at.
    pose proof (history_budget _ _ _ (state_at_inv _ _ I) (cf_history _ _ _ _ Hf)). lia.
  - unfold budget_at. rewrite (cf_others _ _ _ _ Hf) by done. lia.
Qed.

(** ** Commit requests *)

Lemma exec_commits c q c' es :
  CoordInv c → request_ok q → exec c q = (c', Ok es) → ∃ k, commits_sound c' k es.
Proof.
  intros I Hq H. destruct q; simpl in *; try (eexists; by eapply enqueue_commits).
  - unfold begin in H. case_bool_decide; [done|]. eexists. by eapply enqueue_commits.
  - unfold report in H. case_bool_decide; [done|]. exists (oe_key e).
    destruct (unavailable c); [|by eapply enqueue_commits].
    destruct (groups c !! _); [|done]. destruct (_ || _); [done|]. simplify_eq.
    apply stop_commits.
  - unfold reject_admission in H. case_bool_decide; [done|]. eexists. by eapply enqueue_commits.
  - unfold attach in H. destruct (_ || _) eqn:E; [done|]. opt_prop.
    destruct (check_available c); [|done]. destruct (_ <=? _)%nat eqn:Hsz; [done|].
    apply Nat.leb_gt in Hsz. destruct (enqueue _ _ _ _) as [c1 [es1|]] eqn:He; simplify_eq.
    exists k. eapply enqueue_commits; [|done]. by apply set_alias_inv.
  - eexists. by eapply complete_commits.
  - unfold apply_authority_failure in H. case_bool_decide; [done|]. exists read_key.
    destruct (unavailable c); simplify_eq; [by intros rq ?%elem_of_nil|apply stop_commits].
Qed.

Lemma stored_fingerprint s prior :
  stored_for s prior →
  (λ p, fingerprint (sr_record p)) <$> prior
  = (if 0 <? r_revision (record s) then Some (fingerprint (record s)) else None)
  ∨ r_revision (record s) < 0.
Proof.
  destruct prior as [p|]; simpl.
  - intros [Hp ([Hr _] & _)%stored_new_Ok]. rewrite Hp in *.
    destruct (Z.ltb_spec 0 (r_revision (record s))); [by left|right; lia].
  - intros ->. by left.
Qed.

(** A commit request, against the aggregate stored for its slot. *)
Lemma commit_assembles c k slot pd q prior :
  CoordInv c → groups c !! k_invocation k = Some slot → pending slot = Some pd →
  commit_of (confirmed slot) pd q → event_stored (p_event pd) → stored_for (confirmed slot) prior →
  ∃ p, request_assemble q prior = Ok p ∧ stored_for (p_candidate pd) (Some p).
Proof.
  intros I Hg Hp (Hs & Hc & Hd) Hev Hf. destruct (ci_slots c I _ _ Hg) as [_ Hst Hpd _].
  destruct (Hpd _ Hp) as [_ _ _ _ _ _ Hpr _].
  destruct (assemble_decided _ _ _ _ Hst Hev Hd Hf) as (p & Ha & Hp'). simpl in *.
  exists p. split; [|done]. unfold request_assemble. rewrite Hs, Hpr, Hc.
  destruct (stored_fingerprint _ _ Hf) as [->|Hneg].
  - by rewrite bool_decide_eq_false_2 by auto.
  - pose proof (si_revision _ Hst). unfold is_u64 in *. lia.
Qed.

(** ** Rights come from confirmed commits *)

(** The completion confirms the pending candidate of its slot. *)
Definition confirms (c : ExecutionCoordinator) (cc : CommitCompletion) : Prop :=
  ∃ slot pd, groups c !! k_invocation (st_key (cc_stamp cc)) = Some slot
    ∧ pending slot = Some pd ∧ p_stamp pd = cc_stamp cc
    ∧ (cc_resolution cc = Committed
       ∨ ∃ stored, cc_resolution cc = Readback stored
                   ∧ sr_record stored = record (p_candidate pd)).

Lemma complete_rights c cc c' es :
  CoordInv c → readback_ok (cc_resolution cc) → complete c cc = (c', Ok es) →
  rights es = [] ∨ confirms c cc.
Proof.
  intros I Hrb H. unfold complete, confirms in *. set (k := st_key (cc_stamp cc)) in *.
  destruct (unavailable c); [done|].
  destruct (groups c !! k_invocation k) as [slot|] eqn:Hg; [|done].
  destruct (pending slot) as [p|] eqn:Hp; [|done].
  destruct (_ || _) eqn:Hst; [done|]. bool_prop.
  assert (Hk : r_key (record (confirmed slot)) = k).
  { destruct (sl_pending _ _ _ (ci_slots c I _ _ Hg) _ Hp). unfold k. congruence. }
  assert (Hretry : ∀ s, history (confirmed slot) [] s → retry c k slot s p = (c', Ok es) →
            rights es = []).
  { intros s Hh Hr. by destruct (retry_spec _ _ _ _ _ _ _ I Hg Hp Hk Hh Hr) as (_ & ? & _); auto. }
  destruct (cc_resolution cc) as [| |cause|actual|]; try (left; by simplify_eq).
  - right. eauto 10.
  - left. apply (Hretry (confirmed slot)); [constructor|done].
  - simpl in Hrb. case_bool_decide; [left; by simplify_eq|].
    case_bool_decide; [right; exists slot, p; eauto 10|].
    destruct (with_readback _ _) as [s|] eqn:Hw; [|left; by simplify_eq]. left.
    apply (Hretry s); [|done]. apply history_one. by eapply ls_readback.
Qed.

Lemma enqueue_quiet c k ev rec c' es :
  CoordInv c → event_ok ev → enqueue c k ev rec = (c', Ok es) → rights es = [].
Proof. intros I Hev [_ Hr]%enqueue_spec; auto. Qed.

Lemma exec_rights c q c' es :
  CoordInv c → request_ok q → exec c q = (c', Ok es) → rights es ≠ [] →
  ∃ cc, q = QComplete cc ∧ confirms c cc.
Proof.
  intros I Hq H Hr. destruct q; simpl in *;
    try (by destruct Hr; eapply enqueue_quiet; [exact I| |exact H]; exact Hq).
  - unfold begin in H. case_bool_decide; [done|].
    by destruct Hr; eapply enqueue_quiet; [exact I| |exact H].
  - destruct Hr. unfold report in H. case_bool_decide; [done|]. destruct (unavailable c).
    + destruct (groups c !! _); [|done]. destruct (_ || _); by simplify_eq.
    + by eapply enqueue_quiet; [exact I| |exact H].
  - unfold reject_admission in H. case_bool_decide; [done|].
    by destruct Hr; eapply enqueue_quiet; [exact I| |exact H].
  - destruct Hr. unfold attach in H. destruct (_ || _) eqn:E; [done|]. opt_prop.
    destruct (check_available c); [|done]. destruct (_ <=? _)%nat eqn:Hsz; [done|].
    apply Nat.leb_gt in Hsz. destruct (enqueue _ _ _ _) as [c1 [es1|]] eqn:He; simplify_eq.
    eapply (enqueue_quiet _ _ (Attach e)); [|done|exact He]. by apply set_alias_inv.
  - eexists. split; [done|]. by destruct (complete_rights _ _ _ _ I Hq H).
  - unfold apply_authority_failure in H. case_bool_decide; [done|].
    destruct (unavailable c); by simplify_eq.
Qed.

(** ** Stamps *)

(** No slot waits for the commit numbered [n]. *)
Definition spent (c : ExecutionCoordinator) (n : Z) : Prop :=
  n ≤ next_commit c
  ∧ ∀ i s p, groups c !! i = Some s → pending s = Some p → st_id (p_stamp p) ≠ n.

Lemma frame_spent c c' k js n : coord_frame c c' k js → spent c n → spent c' n.
Proof.
  intros [I' _ Hc _ Ho _ Hf] [Hn Hs]. split; [lia|]. intros i s p Hg Hp.
  destruct (decide (i = k_invocation k)) as [->|Hi].
  - destruct (Hf s p Hg Hp) as [(s0 & ? & ?)|?]; [by eapply Hs|lia].
  - rewrite Ho in Hg by done. by eapply Hs.
Qed.

(** Once spent, always spent. *)
Lemma run_requests_spent qs c c' es n :
  CoordInv c → Forall request_ok qs → run_requests c qs = (c', es) →
  spent c n ∨ unavailable c = true → spent c' n ∨ unavailable c' = true.
Proof.
  intros I Hq H.
  pose (P (c c' : ExecutionCoordinator) (_ : list Effect) :=
          spent c n ∨ unavailable c = true → spent c' n ∨ unavailable c' = true).
  enough (CoordInv c' ∧ P c c' es) as [_ HP] by exact HP.
  apply (run_requests_ind P) with qs; [by intros ? ? ?| |done..].
  clear. intros c q c1 r c2 es I Hq He IH Hs. apply IH.
  destruct (about_some q) as [k Hk].
  destruct (exec_request _ _ _ _ _ I Hq Hk He) as (js & Hf & _).
  destruct Hs as [Hs|Hu]; [left; by eapply frame_spent|right; by apply (cf_unavailable _ _ _ _ Hf)].
Qed.

Lemma spent_stale c cc :
  spent c (st_id (cc_stamp cc)) ∨ unavailable c = true →
  ∃ e, complete c cc = (c, Err e) ∧ (e = StaleCompletion ∨ e = StoreUnavailable).
Proof.
  intros Hs. unfold complete. destruct (unavailable c); [eauto|].
  destruct Hs as [[_ Hs]|?]; [|done].
  destruct (groups c !! _) as [slot|] eqn:Hg; [|eauto].
  destruct (pending slot) as [p|] eqn:Hp; [|eauto].
  case_bool_decide as E; [eauto|]. destruct (Hs _ _ _ Hg Hp). by rewrite E.
Qed.

Lemma complete_pending c cc c' r :
  complete c cc = (c', r) → r ≠ Err StaleCompletion → r ≠ Err StoreUnavailable →
  ∃ slot p, groups c !! k_invocation (st_key (cc_stamp cc)) = Some slot
    ∧ pending slot = Some p ∧ p_stamp p = cc_stamp cc.
Proof.
  intros H Hn1 Hn2. unfold complete in H. destruct (unavailable c); [by simplify_eq|].
  destruct (groups c !! _) as [slot|]; [|by simplify_eq].
  destruct (pending slot) as [p|] eqn:Hp; [|by simplify_eq].
  destruct (_ || _) eqn:E; [by simplify_eq|]. bool_prop. eauto.
Qed.

Lemma complete_spent c cc c' r :
  CoordInv c → readback_ok (cc_resolution cc) → complete c cc = (c', r) →
  r ≠ Err StaleCompletion → r ≠ Err StoreUnavailable →
  spent c' (st_id (cc_stamp cc)) ∨ unavailable c' = true.
Proof.
  intros I Hrb H Hn1 Hn2.
  destruct (complete_spec _ _ _ _ I Hrb H) as [(js & Hf & _) [[_ [?|?]]|[?|Hc]]]; auto; try done.
  left. pose proof (complete_pending _ _ _ _ H Hn1 Hn2) as (slot & p & Hg & Hp & Hst).
  pose proof (pe_id _ _ _ (sl_pending _ _ _ (ci_slots c I _ _ Hg) _ Hp)) as Hle.
  rewrite Hst in Hle. split; [pose proof (cf_commit _ _ _ _ Hf); lia|].
  intros i s p' Hg' Hp' E. destruct (decide (i = k_invocation (st_key (cc_stamp cc)))) as [->|Hi].
  - pose proof (Hc _ _ Hg' Hp'). lia.
  - rewrite (cf_others _ _ _ _ Hf) in Hg' by done. apply Hi.
    eapply (ci_distinct c I); try done. by rewrite E, Hst.
Qed.

(** ** Draining a slot *)

(** The storage driver confirms the pending commit of [k], [fuel] times. *)
Fixpoint confirm_all (fuel : nat) (c : ExecutionCoordinator) (k : Key) : ExecutionCoordinator :=
  match fuel with
  | O => c
  | S fuel =>
      match groups c !! k_invocation k ≫= pending with
      | None => c
      | Some p => confirm_all fuel (complete c (mkCommitCompletion (p_stamp p) Committed)).1 k
      end
  end.

(** The slot has nothing left to do, or the coordinator has stopped. *)
Definition drained (c : ExecutionCoordinator) (s : Slot) : Prop :=
  unavailable c = true ∨ (pending s = None ∧ queue s = []).

Lemma drive_loop_progress k s q : ∀ c c' p q' r,
  drive_loop k s c q = (c', p, q', r) → next_commit c < u64_max →
  (length q' ≤ length q)%nat
  ∧ match p with
    | Some _ => (length q' < length q)%nat ∧ next_commit c' = next_commit c + 1
                ∧ unavailable c' = unavailable c
    | None => unavailable c' = true ∨ q' = []
    end.
Proof.
  induction q as [|ev q IH]; intros c c' p q' r H Hn; simpl in H; [simplify_eq; auto|].
  destruct (state_decide s ev) as [[t|]|e].
  - destruct (u64_checked_add _ _) as [n|] eqn:Hu.
    + apply u64_checked_add_Some in Hu as [-> _]. simplify_eq. simpl. split_and!; lia || done.
    + unfold u64_checked_add in Hu. destruct (Z.leb_spec (next_commit c + 1) u64_max); [done|lia].
  - destruct (drive_loop k s c q) as [[[c1 p1] q1] r1] eqn:Hl. simplify_eq.
    destruct (IH _ _ _ _ _ Hl Hn) as [? Hp]. split; [simpl; lia|].
    destruct p; [|done]. simpl. intuition lia.
  - destruct (is_outcome ev); [simplify_eq; auto|].
    set (c0 := match ev with Attach _ => _ | _ => _ end) in H.
    assert (Hc0 : next_commit c0 = next_commit c ∧ unavailable c0 = unavailable c)
      by (by destruct ev).
    destruct Hc0 as [Hn0 Hu0]. destruct (drive_loop k s c0 q) as [[[c1 p1] q1] r1] eqn:Hl.
    simplify_eq. rewrite <- Hn0 in Hn. destruct (IH _ _ _ _ _ Hl Hn) as [? Hp].
    split; [simpl; lia|]. rewrite <- Hu0, <- Hn0. destruct p; [|done]. simpl. intuition lia.
Qed.

(** One confirmation makes the queue of the slot shorter. *)
Lemma complete_progress c k slot p :
  CoordInv c → unavailable c = false → groups c !! k_invocation k = Some slot →
  r_key (record (confirmed slot)) = k → pending slot = Some p → next_commit c < u64_max →
  let c' := (complete c (mkCommitCompletion (p_stamp p) Committed)).1 in
  ∃ slot', groups c' !! k_invocation k = Some slot' ∧ r_key (record (confirmed slot')) = k
    ∧ (drained c' slot'
       ∨ (unavailable c' = false ∧ (∃ p', pending slot' = Some p')
          ∧ (length (queue slot') < length (queue slot))%nat ∧ next_commit c' = next_commit c + 1)).
Proof.
  intros I Hu Hg Hk Hp Hn. destruct (ci_slots c I _ _ Hg) as [_ Hst Hpd _].
  destruct (Hpd p Hp) as [Hev [pl Hd] Hsk Hse _ _ _ _].
  assert (Hck : r_key (record (p_candidate p)) = k).
  { rewrite <- Hk. eapply history_key; [done|]. apply history_one. exact (ls_decide _ _ _ Hev Hd). }
  unfold complete. simpl. rewrite Hu, Hsk, Hk, Hg, Hp, Hse.
  rewrite !bool_decide_eq_false_2 by auto. simpl. unfold confirm, resume.
  set (c0 := match p_event p with RetireHolder _ => _ | _ => _ end).
  assert (H0 : next_commit c0 = next_commit c ∧ unavailable c0 = unavailable c)
    by (unfold c0; by destruct (p_event p)).
  destruct H0 as [Hn0 Hu0]. clearbody c0. unfold drive. simpl. rewrite lookup_insert_eq. simpl.
  set (c1 := set_slot _ _ c0).
  destruct (drive_loop k (p_candidate p) c1 (queue slot)) as [[[c2 p2] q2] r2] eqn:Hl.
  destruct (drive_loop_progress _ _ _ _ _ _ _ _ Hl) as [_ Hpr]; [simpl; lia|].
  assert (Hfin : ∀ es, let c' := (match r2 with
      | Ok more => (finish_recovery (set_slot (k_invocation k) (mkSlot (p_candidate p) p2 q2) c2),
                    Ok (es ++ more))
      | Err e => (set_slot (k_invocation k) (mkSlot (p_candidate p) p2 q2) c2, Err e) end).1 in
    groups c' !! k_invocation k = Some (mkSlot (p_candidate p) p2 q2)
    ∧ next_commit c' = next_commit c2 ∧ unavailable c' = unavailable c2).
  { intros es. destruct r2; simpl; [|by rewrite lookup_insert_eq].
    destruct (finish_recovery_fields (set_slot (k_invocation k) (mkSlot (p_candidate p) p2 q2) c2))
      as (_ & -> & -> & -> & _). simpl. by rewrite lookup_insert_eq. }
  destruct (Hfin (grant c0 k <$> p_intents p)) as (Fg & Fn & Fu). clear Hfin.
  eexists. split; [exact Fg|]. split; [done|]. unfold drained. simpl in Fn, Fu |- *.
  rewrite Fn, Fu. simpl. destruct p2 as [pd|].
  - right. destruct Hpr as (? & Hn2 & Hu2). rewrite Hu2, Hn2. simpl. rewrite Hu0, Hn0. eauto.
  - left. destruct Hpr as [?| ->]; auto.
Qed.

Lemma confirm_all_drained fuel : ∀ c k s,
  groups c !! k_invocation k = Some s → drained c s → confirm_all fuel c k = c.
Proof.
  induction fuel as [|fuel IH]; intros c k s Hg Hd; [done|]. simpl. rewrite Hg. simpl.
  destruct (pending s) as [p|] eqn:Hp; [|done].
  destruct Hd as [Hu|[? _]]; [|congruence]. unfold complete. rewrite Hu. simpl.
  apply (IH _ _ s); [done|by left].
Qed.

Lemma confirm_all_drains fuel : ∀ c k slot,
  CoordInv c → groups c !! k_invocation k = Some slot → r_key (record (confirmed slot)) = k →
  (∃ p, pending slot = Some p) → unavailable c = false →
  (length (queue slot) < fuel)%nat →
  next_commit c + Z.of_nat (length (queue slot)) < u64_max →
  ∃ slot', groups (confirm_all fuel c k) !! k_invocation k = Some slot'
    ∧ drained (confirm_all fuel c k) slot'.
Proof.
  induction fuel as [|fuel IH]; intros c k slot I Hg Hk [p Hp] Hu Hf Hn; [lia|].
  simpl. rewrite Hg. simpl. rewrite Hp.
  destruct (complete_progress c k slot p I Hu Hg Hk Hp) as (slot' & Hg' & Hk' & Hc); [lia|].
  pose proof (exec_inv c (QComplete (mkCommitCompletion (p_stamp p) Committed)) _ _ I Logic.I
                (surjective_pairing _)) as I'. simpl in I'.
  destruct Hc as [Hd|(Hu' & Hp' & Hq' & Hn')].
  - rewrite confirm_all_drained with (s := slot') by done. eauto.
  - apply (IH _ _ slot'); try done; lia.
Qed.

Lemma exec_inv_fst c q : CoordInv c → request_ok q → CoordInv (exec c q).1.
Proof. intros I Hq. by eapply exec_inv; [| |apply surjective_pairing]. Qed.

Lemma run_requests_inv qs c :
  CoordInv c → Forall request_ok qs → CoordInv (run_requests c qs).1.
Proof.
  intros I Hq. destruct (run_requests c qs) as [c' es] eqn:Hr.
  by destruct (run_requests_ind (λ _ _ _, True)) with qs c c' es as [I' _]; auto.
Qed.

(** ** Properties *)

(** C7. Any sequence of requests keeps the invariant of a new coordinator:
    every confirmed state is a valid state of the contract, a pending commit
    is the decision of its event on the confirmed state, claimed identities
    and aliases never collide, commit numbers are distinct. *)
Theorem coordinator_invariant e qs :
  Forall request_ok qs → CoordInv (run_requests (coordinator_new e) qs).1.
Proof. apply run_requests_inv, new_inv. Qed.


(** Rights exist only behind a confirmed commit: a request whose effects
    contain a permit or a membership is a completion that confirms the pending
    candidate of its slot, by a commit or by reading exactly that candidate
    back. *)
Theorem rights_need_commit c q c' es :
  CoordInv c → request_ok q → exec c q = (c', Ok es) → rights es ≠ [] →
  ∃ cc, q = QComplete cc ∧ confirms c cc.
Proof. apply exec_rights. Qed.

(** C9. One worker per invocation: over any sequence of requests, replays,
    rollbacks and readbacks included, at most one permit to run is issued for
    an invocation, and none when a run had already begun. *)
Theorem single_run_permit c qs c' es i :
  CoordInv c → Forall request_ok qs → run_requests c qs = (c', es) →
  (runs_of i es ≤ budget_at c i ≤ 1)%nat.
Proof.
  intros I Hq H. split.
  - enough (runs_of i es + budget_at c' i ≤ budget_at c i)%nat by lia.
    pose (P (c c' : ExecutionCoordinator) es :=
            (runs_of i es + budget_at c' i ≤ budget_at c i)%nat).
    enough (CoordInv c' ∧ P c c' es) as [_ HP] by exact HP.
    apply (run_requests_ind P) with qs; [intros; unfold P, runs_of; simpl; lia| |done..]. unfold P. clear.
    intros c q c1 r c2 es I Hq He IH. pose proof (exec_budget _ _ _ _ i I Hq He) as Hb.
    destruct r; [rewrite runs_of_app; lia|lia].
  - unfold budget_at, run_budget. destruct (groups c !! i); simpl; [|lia].
    destruct (is_some _); lia.
Qed.

(** C10. A failed store stops everything: once unavailable the coordinator
    stays unavailable, no confirmed state and no pending commit changes, and a
    request yields an error, nothing or the stop signal, never a commit
    request or a right. *)
Theorem fail_stop c q c' r :
  unavailable c = true → exec c q = (c', r) →
  unavailable c' = true
  ∧ (∀ i, confirmed <$> groups c' !! i = confirmed <$> groups c !! i)
  ∧ (∀ i, pending <$> groups c' !! i = pending <$> groups c !! i)
  ∧ ((∃ e, r = Err e) ∨ r = Ok [] ∨ r = Ok [EFailStop]).
Proof.
  intros Hu H. destruct q; simpl in H;
    unfold submit, cancel, begin, report, reject_admission, expose_task, acknowledge, attach,
      cancel_holder, retire_holder, check_available, enqueue, complete,
      apply_authority_failure in H; rewrite Hu in H;
    try (simplify_eq; split_and!; by eauto);
    try (case_bool_decide; simplify_eq; split_and!; by eauto).
  - case_bool_decide; [simplify_eq; split_and!; by eauto|].
    destruct (groups c !! k_invocation (oe_key e)) as [slot|] eqn:Hg;
      [|simplify_eq; split_and!; by eauto].
    destruct (_ || _); simplify_eq; simpl; split_and!; eauto.
    all: intros i; rewrite lookup_insert; case_decide; subst; [|done]; by rewrite Hg.
  - destruct (_ || _); simplify_eq; split_and!; by eauto.
Qed.

(** A completion is consumed at most once: after a completion was
    accepted, no later completion with the same stamp is accepted, whatever
    requests came in between; it is refused without changing anything. *)
Theorem completion_consumed_once c cc c1 r qs c2 es cc' :
  CoordInv c → request_ok (QComplete cc) → complete c cc = (c1, r) →
  r ≠ Err StaleCompletion → r ≠ Err StoreUnavailable →
  Forall request_ok qs → run_requests c1 qs = (c2, es) → cc_stamp cc' = cc_stamp cc →
  ∃ e, complete c2 cc' = (c2, Err e) ∧ (e = StaleCompletion ∨ e = StoreUnavailable).
Proof.
  intros I Hrb Hc Hn1 Hn2 Hq Hr Hst. apply spent_stale. rewrite Hst.
  eapply run_requests_spent; [|done|exact Hr|by eapply complete_spent].
  exact (exec_inv c (QComplete cc) c1 r I Hrb Hc).
Qed.

(** Every commit request whose body reads back can be persisted: it belongs
    to the pending commit of its slot, and against the aggregate stored for the confirmed
    state it assembles into a well-formed aggregate for its candidate, with
    the fingerprint the stamp announces. *)
Theorem commit_requests_persist c q c' es rq :
  CoordInv c → request_ok q → exec c q = (c', Ok es) → ECommit rq ∈ es →
  owns_commit_request c' rq = true
  ∧ ∃ slot pd, groups c' !! k_invocation (st_key (cr_stamp rq)) = Some slot ∧ pending slot = Some pd
    ∧ (event_stored (p_event pd) → ∀ prior, stored_for (confirmed slot) prior →
        ∃ p, request_assemble rq prior = Ok p ∧ stored_ok p
          ∧ sr_record p = cr_candidate rq
          ∧ fingerprint (sr_record p) = st_fingerprint (cr_stamp rq)).
Proof.
  intros I Hq H Hin. destruct (exec_commits _ _ _ _ I Hq H) as [k Hk].
  destruct (Hk rq Hin) as (slot & pd & Hg & Hkey & Hp & Hc).
  pose proof (exec_inv _ _ _ _ I Hq H) as I'.
  destruct (sl_pending _ _ _ (ci_slots c' I' _ _ Hg) _ Hp) as [_ _ Hsk Hse _ _ _ Hfp].
  pose proof Hc as (Hs & Hcand & _). rewrite Hs, Hsk, Hkey. split.
  - unfold owns_commit_request. rewrite Hs, Hse, Hsk, Hkey, Hg. simpl. rewrite Hp. simpl.
    by rewrite !bool_decide_eq_true_2.
  - exists slot, pd. split; [done|]. split; [done|]. intros Hev prior Hf.
    destruct (commit_assembles _ _ _ _ _ _ I' Hg Hp Hc Hev Hf) as (p & Ha & Hp' & Hok).
    exists p. rewrite Hcand, Hfp, Hp'. done.
Qed.

(** C11. A slot drains: when the driver confirms each pending commit, at most
    one confirmation per queued event and one more settle the slot, which is
    then idle unless the coordinator has stopped; no queued event is left
    waiting. *)
Theorem slot_drains c k slot :
  CoordInv c → groups c !! k_invocation k = Some slot → r_key (record (confirmed slot)) = k →
  pending slot ≠ None → unavailable c = false →
  next_commit c + Z.of_nat (length (queue slot)) < u64_max →
  let c' := confirm_all (S (length (queue slot))) c k in
  ∃ slot', groups c' !! k_invocation k = Some slot'
    ∧ (unavailable c' = true ∨ (pending slot' = None ∧ queue slot' = [])).
Proof.
  intros I Hg Hk Hp Hu Hn. apply (confirm_all_drains _ c k slot); try done; [|lia].
  destruct (pending slot); eauto. done.
Qed.

End Laws.
End WithCodec.

(** ** Witnesses *)

Definition demo_epoch : AuthorityEpoch := mkAuthorityEpoch 9.
Definition demo_owner : OwnerCapability := mkOwnerCapability [1; 2; 3].
Definition demo_new : ExecutionCoordinator := coordinator_new demo_epoch.

(** The driver confirms the pending commit of [k]. *)
Definition committed (c : ExecutionCoordinator) (k : Key) : CommitCompletion :=
  mkCommitCompletion
    (from_option p_stamp (mkStamp k demo_epoch 0 0 None 0)
       (groups c !! k_invocation k ≫= pending)) Committed.

Definition demo_submit : Request := QSubmit read_key demo_owner sample_window.
Definition demo_begin : Request :=
  QBegin (mkAcceptedPermit read_key demo_epoch) 2000 (Some sample_authority).
Definition demo_1 : ExecutionCoordinator := (exec demo_new demo_submit).1.
Definition demo_2 : ExecutionCoordinator := (exec demo_1 (QComplete (committed demo_1 read_key))).1.
Definition demo_3 : ExecutionCoordinator := (exec demo_2 demo_begin).1.
(** A whole run, with the last completion delivered twice. *)
Definition demo_requests : list Request :=
  [demo_submit; QComplete (committed demo_1 read_key); demo_begin;
   QComplete (committed demo_3 read_key); QComplete (committed demo_3 read_key); demo_begin].

Lemma demo_ok : Forall request_ok demo_requests.
Proof. repeat apply Forall_cons; try exact I; try apply Forall_nil; vm_compute; exact eq_refl. Qed.

Lemma demo_1_inv : CoordInv demo_1.
Proof.
  unfold demo_1. apply exec_inv_fst; [apply new_inv|vm_compute; exact eq_refl].
Qed.

Lemma exec_pair {c q c'} : c' = (exec c q).1 → exec c q = (c', (exec c q).2).
Proof. intros ->. apply surjective_pairing. Qed.

Lemma complete_pair {c cc c'} :
  c' = (exec c (QComplete cc)).1 → complete c cc = (c', (complete c cc).2).
Proof. intros ->. apply surjective_pairing. Qed.

Lemma coordinator_invariant_witness : CoordInv (run_requests demo_new demo_requests).1.
Proof. apply (coordinator_invariant demo_epoch demo_requests). apply demo_ok. Defined.


Lemma rights_need_commit_witness :
  ∃ cc, QComplete (committed demo_1 read_key) = QComplete cc ∧ confirms demo_1 cc.
Proof.
  destruct (exec demo_1 (QComplete (committed demo_1 read_key))) as [c' [es|e]] eqn:He;
    [|vm_compute in He; discriminate].
  apply (rights_need_commit demo_1 (QComplete (committed demo_1 read_key)) c' es).
  - apply demo_1_inv.
  - exact I.
  - exact He.
  - vm_compute in He. injection He as <- <-. discriminate.
Defined.

Lemma single_run_permit_witness :
  runs_of (k_invocation read_key) (run_requests demo_new demo_requests).2 = 1%nat
  ∧ (runs_of (k_invocation read_key) (run_requests demo_new demo_requests).2
     ≤ budget_at demo_new (k_invocation read_key) ≤ 1)%nat.
Proof.
  split; [vm_compute; reflexivity|].
  apply (single_run_permit demo_new demo_requests (run_requests demo_new demo_requests).1).
  - apply new_inv.
  - apply demo_ok.
  - apply surjective_pairing.
Defined.

Definition demo_stopped : ExecutionCoordinator :=
  (exec demo_1 (QComplete (mkCommitCompletion (cc_stamp (committed demo_1 read_key)) Unknown))).1.

Lemma fail_stop_witness : unavailable (exec demo_stopped demo_begin).1 = true.
Proof.
  apply (fail_stop demo_stopped demo_begin (exec demo_stopped demo_begin).1
           (exec demo_stopped demo_begin).2).
  - vm_compute. reflexivity.
  - apply exec_pair. reflexivity.
Defined.

Lemma completion_consumed_once_witness :
  ∃ e, complete demo_3 (committed demo_1 read_key) = (demo_3, Err e)
    ∧ (e = StaleCompletion ∨ e = StoreUnavailable).
Proof.
  apply (completion_consumed_once demo_1 (committed demo_1 read_key) demo_2
    (complete demo_1 (committed demo_1 read_key)).2 [demo_begin] demo_3
    (run_requests demo_2 [demo_begin]).2).
  - apply demo_1_inv.
  - exact I.
  - apply complete_pair. reflexivity.
  - vm_compute. discriminate.
  - vm_compute. discriminate.
  - repeat constructor.
  - vm_compute. reflexivity.
  - reflexivity.
Defined.

Lemma commit_requests_persist_witness :
  ∃ rq, (exec demo_new demo_submit).2 = Ok [ECommit rq] ∧ owns_commit_request demo_1 rq = true.
Proof.
  destruct (exec demo_new demo_submit) as [c' r] eqn:He.
  pose proof He as Hv. vm_compute in Hv. injection Hv as <- <-.
  eexists. split; [reflexivity|].
  eapply (commit_requests_persist demo_new demo_submit demo_1).
  - apply new_inv.
  - vm_compute. reflexivity.
  - unfold demo_1. rewrite He. reflexivity.
  - left.
Defined.

Definition demo_busy : ExecutionCoordinator := (exec demo_1 (QExposeTask read_key)).1.
Definition demo_slot : Slot :=
  default (mkSlot (state_empty read_key) None []) (groups demo_busy !! k_invocation read_key).

Lemma slot_drains_witness :
  ∃ slot', groups (confirm_all 2 demo_busy read_key) !! k_invocation read_key = Some slot'
    ∧ (unavailable (confirm_all 2 demo_busy read_key) = true
       ∨ (pending slot' = None ∧ queue slot' = [])).
Proof.
  apply (slot_drains demo_busy read_key demo_slot).
  - unfold demo_busy. apply exec_inv_fst; [apply demo_1_inv|exact I].
  - vm_compute. reflexivity.
  - vm_compute. reflexivity.
  - vm_compute. discriminate.
  - vm_compute. reflexivity.
  - vm_compute. reflexivity.
Defined.
