(* ===== verification/CoordinatorRestore.v ===== *)
(** * Restoring the coordinator

    [ExecutionCoordinator::restore] on a recovery catalog: it succeeds on
    every catalog a finished builder can hand over, claims exactly the
    identities of the catalog, grants no right and asks to settle every
    attempt the previous process left unfinished. *)

From Stdlib Require Import ZArith Lia.
From stdpp Require Import base gmap list option numbers.
From S2P Require Import Prelude Contract Decide ContractFacts Sample ContractProps Storage.
From S2P Require Import Coordinator CoordinatorFacts CoordinatorProps.

Local Open Scope Z_scope.

Section WithCodec.
Context {C : Codec} {L : CodecLaws C}.

Definition inv_of (r : ERecord) : InvocationId := k_invocation (r_key r).
Definition task_of (r : ERecord) : TaskId := k_task (r_key r).
Definition idle (s : State) : Slot := mkSlot s None [].

(** The coordinator holds no alias and has not lost its store. *)
Record pristine (c : ExecutionCoordinator) : Prop := {
  pr_inv : CoordInv c;
  pr_available : unavailable c = false;
  pr_aliases : aliases c = ∅;
  pr_alias_invocations : alias_invocations c = ∅;
}.

Lemma new_pristine e : pristine (coordinator_new e).
Proof. split; try done. apply new_inv. Qed.

(** ** Claims *)

Lemma claim_fresh c k :
  pristine c → invocations c !! k_invocation k = None → tasks c !! k_task k = None →
  claim c k = (set_claims k c, Ok tt).
Proof.
  intros [_ _ Ha Hai] Hi Ht. unfold claim. by rewrite Hi, Ht, Ha, Hai, !lookup_empty.
Qed.

Lemma claim_held c k :
  pristine c → invocations c !! k_invocation k = Some k →
  claim c k = (c, Ok tt).
Proof.
  intros [I _ Ha Hai] Hi.
  assert (Ht : tasks c !! k_task k = Some k) by (by apply (ci_tasks c I)).
  unfold claim. rewrite Hi, Ht, Ha, Hai, !lookup_empty. simpl.
  rewrite bool_decide_eq_false_2 by auto. simpl. f_equal.
  unfold set_claims. rewrite !insert_id by done. by destruct c.
Qed.

Lemma restore_claims_spec records : ∀ c,
  pristine c → Forall ValidRecord records → Forall (λ r, is_u64 (r_revision r)) records →
  NoDup (inv_of <$> records) → NoDup (task_of <$> records) →
  (∀ r, r ∈ records → invocations c !! inv_of r = None ∧ tasks c !! task_of r = None) →
  ∃ c', restore_claims c records = Ok c' ∧ pristine c'
    ∧ next_commit c' = next_commit c ∧ epoch c' = epoch c
    ∧ (∀ r, r ∈ records → groups c' !! inv_of r = Some (idle (mkState r ∅ 0 true)))
    ∧ (∀ i, (∀ r, r ∈ records → inv_of r ≠ i) → groups c' !! i = groups c !! i).
Proof.
  induction records as [|r rs IH]; intros c P Hv Hu Hi Ht Hf; simpl.
  { exists c. split_and!; try done. by intros r ?%elem_of_nil. }
  apply Forall_cons_iff in Hv as [Hvr Hv]. apply Forall_cons_iff in Hu as [Hur Hu].
  simpl in Hi, Ht. apply list.NoDup_cons in Hi as [Hir Hi].
  apply list.NoDup_cons in Ht as [Htr Ht].
  destruct (Hf r) as [Hfi Hft]; [by left|].
  rewrite claim_fresh by done.
  assert (Hfr : from_record r = Ok (mkState r ∅ 0 true)).
  { unfold from_record. by rewrite (proj2 (validate_Ok r tt) Hvr). }
  rewrite Hfr. destruct (from_record_inv _ _ Hur Hfr) as [Hst _].
  set (c1 := set_slot _ _ _).
  assert (P1 : pristine c1).
  { destruct P as [I Hun Ha Hai]. split; try done. apply fresh_slot_inv; try done.
    - rewrite <- (ci_claims c I) in Hfi. unfold inv_of in Hfi.
      by destruct (groups c !! k_invocation (r_key r)).
    - by rewrite Ha.
    - by rewrite Hai. }
  destruct (IH c1) as (c' & Hc' & P' & Hn & He & Hin & Hout); try done.
  { intros r' Hr'. simpl. rewrite !lookup_insert_ne; [apply Hf; by right|..].
    - intros E. apply Htr, list_elem_of_fmap. exists r'. by split.
    - intros E. apply Hir, list_elem_of_fmap. exists r'. by split. }
  exists c'. split_and!; try done.
  - intros r' [->|Hr']%elem_of_cons; [|by apply Hin].
    rewrite Hout; [apply lookup_insert_eq|]. intros r'' Hr'' E. apply Hir, list_elem_of_fmap.
    exists r''. by split.
  - intros i Hne. rewrite Hout by (intros r' Hr'; apply Hne; by right).
    apply lookup_insert_ne, Hne. by left.
Qed.

(** ** Recovery events *)

(** What recovery leaves in the slot of a state: a pending commit exactly
    when the state has an unfinished attempt to settle. *)
Definition recovered (s : State) (slot : Slot) (es : list Effect) : Prop :=
  confirmed slot = s ∧ queue slot = []
  ∧ match state_decide s Recover with
    | Ok (Some t) => ∃ q pd, pending slot = Some pd ∧ ECommit q ∈ es ∧ commit_of s pd q
    | _ => pending slot = None
    end.

Record recover_frame (c c' : ExecutionCoordinator) (k : Key) : Prop := {
  rf_pristine : pristine c';
  rf_epoch : epoch c' = epoch c;
  rf_commit : next_commit c' ≤ next_commit c + 1;
  rf_recovering : recovering c' = recovering c;
  rf_invocations : invocations c' = invocations c;
  rf_others : ∀ i, i ≠ k_invocation k → groups c' !! i = groups c !! i;
}.

Lemma recover_drive c k s c1 c' r :
  drive_loop k s c1 [Recover] = (c', r.1.1, r.1.2, r.2) → c1 = c → next_commit c < u64_max →
  unavailable c' = unavailable c ∧ aliases c' = aliases c
  ∧ alias_invocations c' = alias_invocations c ∧ next_commit c' ≤ next_commit c + 1
  ∧ ∃ es, r.2 = Ok es ∧ recovered s (mkSlot s r.1.1 r.1.2) es.
Proof.
  intros H -> Hn. destruct r as [[p q] r]. simpl in *. unfold recovered.
  destruct (state_decide s Recover) as [[t|]|e] eqn:Hd.
  - destruct (u64_checked_add _ _) as [n|] eqn:Hu.
    + apply u64_checked_add_Some in Hu as [-> _]. simplify_eq. split_and!; simpl; try done.
      eexists. split; [done|]. split_and!; try done. eexists _, _. split_and!; [done|by left|].
      split_and!; simpl; try done. rewrite Hd. by destruct t.
    + unfold u64_checked_add in Hu. destruct (Z.leb_spec (next_commit c + 1) u64_max); [done|lia].
  - simplify_eq. split_and!; try done; [lia|]. by eexists.
  - simplify_eq. split_and!; try done; [lia|]. by eexists.
Qed.

Lemma drive_set_slot c k s q :
  let c1 := set_slot (k_invocation k) (mkSlot s None q) c in
  drive c1 k = let '(c', p, q', r) := drive_loop k s c1 q in
               (set_slot (k_invocation k) (mkSlot s p q') c', r).
Proof.
  intros c1. unfold drive. assert (Hg : groups c1 !! k_invocation k = Some (mkSlot s None q))
    by apply lookup_insert_eq. by rewrite Hg.
Qed.

Lemma recover_step c k s :
  pristine c → groups c !! k_invocation k = Some (idle s) → r_key (record s) = k →
  next_commit c < u64_max →
  ∃ c' es slot, enqueue c k Recover true = (c', Ok es) ∧ recover_frame c c' k
    ∧ groups c' !! k_invocation k = Some slot ∧ recovered s slot es ∧ rights es = [].
Proof.
  intros P Hg Hk Hn. pose proof (pr_inv c P) as I.
  assert (Hi : invocations c !! k_invocation k = Some k).
  { rewrite <- (ci_claims c I), Hg. simpl. by rewrite Hk. }
  destruct (enqueue c k Recover true) as [c' r] eqn:He.
  destruct (enqueue_spec c k Recover true c' r I Logic.I He) as [Hf Hr].
  unfold enqueue in He. rewrite (pr_available c P), andb_false_r, Hg in He. simpl in He.
  rewrite claim_held in He by done. rewrite Hg in He. simpl in He.
  rewrite drive_set_slot in He. set (c1 := set_slot _ _ c) in He.
  destruct (drive_loop k s c1 [Recover]) as [[[c2 p] q] r2] eqn:Hl.
  pose proof (drive_loop_spec _ _ _ _ _ _ _ _ Hl) as (Hc & _).
  injection He as <- <-.
  destruct (recover_drive c1 k s c1 c2 (p, q, r2) Hl eq_refl Hn)
    as (Hu & Ha & Hai & Hc' & es & Hr2 & Hrec). simpl in *. subst r2.
  eexists _, es, _. split_and!; [done| |apply lookup_insert_eq|done|by apply Hr].
  destruct P as [_ Pu Pa Pai].
  split; simpl; try done; try apply Hf; try apply Hc.
  split; simpl; [apply Hf|congruence..].
Qed.

Lemma recovered_mono s slot es es' :
  es ⊆ es' → recovered s slot es → recovered s slot es'.
Proof.
  intros Hs (Hc & Hq & Hd). split_and!; try done.
  destruct (state_decide s Recover) as [[t|]|]; try done.
  destruct Hd as (q & pd & ? & ? & ?). exists q, pd. split_and!; auto.
Qed.

Lemma restore_recover_spec (st : Key → State) keys : ∀ c,
  pristine c → NoDup (k_invocation <$> keys) → next_commit c + Z.of_nat (length keys) ≤ u64_max →
  (∀ k, k ∈ keys → groups c !! k_invocation k = Some (idle (st k)) ∧ r_key (record (st k)) = k) →
  ∃ c' es, restore_recover c keys = Ok (c', es) ∧ pristine c' ∧ recovering c' = recovering c
    ∧ rights es = []
    ∧ (∀ k, k ∈ keys → ∃ slot, groups c' !! k_invocation k = Some slot ∧ recovered (st k) slot es)
    ∧ (∀ i, i ∉ k_invocation <$> keys → groups c' !! i = groups c !! i).
Proof.
  induction keys as [|k keys IH]; intros c P Hnd Hn Hk; simpl.
  { exists c, []. split_and!; try done. by intros k ?%elem_of_nil. }
  simpl in Hnd, Hn. apply list.NoDup_cons in Hnd as [Hkn Hnd].
  destruct (Hk k) as [Hg Hkey]; [by left|].
  destruct (recover_step c k (st k) P Hg Hkey) as (c1 & es1 & slot & -> & F & Hs & Hrec & Hr1);
    [lia|]. destruct F as [P1 He1 Hn1 Hrc1 Hi1 Ho1].
  assert (Hne : ∀ k', k' ∈ keys → k_invocation k' ≠ k_invocation k).
  { intros k' Hk' E. apply Hkn. rewrite <- E. by apply list_elem_of_fmap_2. }
  destruct (IH c1) as (c' & es & -> & P' & Hrc & Hr & Hin & Hout); try done; [lia| |].
  { intros k' Hk'. rewrite Ho1 by auto. apply Hk. by right. }
  exists c', (es1 ++ es). simpl. split_and!; try done.
  - congruence.
  - by rewrite rights_app, Hr1, Hr.
  - intros k' [->|Hk']%elem_of_cons.
    + exists slot. split; [by rewrite Hout|]. eapply recovered_mono; [|done]. set_solver.
    + destruct (Hin _ Hk') as (slot' & ? & ?). exists slot'. split; [done|].
      eapply recovered_mono; [|done]. set_solver.
  - intros i Hi. simpl in Hi. rewrite Hout by set_solver. apply Ho1. set_solver.
Qed.

(** The claimed keys are those of the groups. *)
Lemma claimed_keys c order :
  CoordInv c → (∀ l : list Key, order l ≡ₚ l) →
  let keys := order (snd <$> map_to_list (invocations c)) in
  NoDup (k_invocation <$> keys)
  ∧ (∀ k, k ∈ keys ↔ ∃ slot, groups c !! k_invocation k = Some slot
                       ∧ r_key (record (confirmed slot)) = k)
  ∧ length keys = size (groups c).
Proof.
  intros I Ho keys.
  assert (Hkf : k_invocation <$> (snd <$> map_to_list (invocations c))
                = fst <$> map_to_list (invocations c)).
  { rewrite <- list_fmap_compose. apply list_fmap_ext. intros n [i k] Hl. simpl.
    apply (ci_keys c I). apply elem_of_map_to_list. by eapply list_elem_of_lookup_2. }
  split_and!.
  - unfold keys. rewrite Ho, Hkf. apply NoDup_fst_map_to_list.
  - intros k. unfold keys. rewrite Ho, list_elem_of_fmap. split.
    + intros ([i k'] & -> & Hin%elem_of_map_to_list). simpl.
      pose proof (ci_keys c I _ _ Hin) as ->. rewrite <- (ci_claims c I) in Hin.
      destruct (groups c !! i) as [slot|] eqn:Hg; [|done]. exists slot.
      simpl in Hin. by simplify_eq.
    + intros (slot & Hg & Hk). exists (k_invocation k, k). split; [done|].
      apply elem_of_map_to_list. rewrite <- (ci_claims c I), Hg. simpl. by rewrite Hk.
  - unfold keys. rewrite Ho, length_fmap, length_map_to_list.
    rewrite <- (map_size_fmap (r_key ∘ record ∘ confirmed)). f_equal. apply map_eq.
    intros i. by rewrite lookup_fmap, (ci_claims c I).
Qed.

(** ** The whole of [restore] *)

Record catalog_ok (catalog : list ERecord) : Prop := {
  ct_valid : Forall ValidRecord catalog;
  ct_revision : Forall (λ r, is_u64 (r_revision r)) catalog;
  ct_invocations : NoDup (inv_of <$> catalog);
  ct_tasks : NoDup (task_of <$> catalog);
  ct_length : Z.of_nat (length catalog) ≤ u64_max;
}.

Lemma catalog_size (catalog : list ERecord) (m : gmap InvocationId Slot) :
  NoDup (inv_of <$> catalog) →
  (∀ r, r ∈ catalog → is_Some (m !! inv_of r)) →
  (∀ i, is_Some (m !! i) → ∃ r, r ∈ catalog ∧ inv_of r = i) →
  size m = length catalog.
Proof.
  intros Hnd Hin Hout.
  rewrite <- (size_dom (D := gset InvocationId) m).
  assert (Hd : dom m = list_to_set (inv_of <$> catalog)).
  { apply set_eq. intros i. rewrite elem_of_dom, elem_of_list_to_set, list_elem_of_fmap.
    split; [intros (r & ? & <-)%Hout; eauto|]. intros (r & -> & Hr). auto. }
  rewrite Hd, size_list_to_set by done. by rewrite length_fmap.
Qed.

Lemma finish_recovery_flag c :
  recovering c = true → (∀ i s, groups c !! i = Some s → queue s = []) →
  (recovering (finish_recovery c) = true
   ↔ ∃ i s, groups c !! i = Some s ∧ pending s ≠ None).
Proof.
  intros Hr Hq. unfold finish_recovery. rewrite Hr. simpl.
  destruct (all_values slot_idle (groups c)) eqn:Ha; simpl.
  - rewrite all_values_true in Ha. split; [done|]. intros (i & s & Hg & Hp).
    pose proof (Ha i s Hg) as Hi. unfold slot_idle in Hi. opt_prop. congruence.
  - split; [|done]. intros _. apply not_true_iff_false in Ha.
    rewrite all_values_true in Ha. apply map_not_Forall in Ha as (i & s & Hg & Hi); [|tc_solve].
    exists i, s. split; [done|]. intros Hp. apply Hi. unfold slot_idle.
    by rewrite Hp, (Hq i s Hg).
Qed.

Lemma restore_spec order catalog e :
  (∀ l, order l ≡ₚ l) → catalog_ok catalog →
  ∃ c es, restore order catalog e = Ok (c, es) ∧ pristine c ∧ rights es = []
    ∧ (∀ r, r ∈ catalog → ∃ slot,
         groups c !! inv_of r = Some slot ∧ recovered (mkState r ∅ 0 true) slot es)
    ∧ (∀ i slot, groups c !! i = Some slot → ∃ r, r ∈ catalog ∧ inv_of r = i)
    ∧ (recovering c = true ↔ ∃ i s, groups c !! i = Some s ∧ pending s ≠ None).
Proof.
  intros Ho [Hv Hu Hi Ht Hlen]. unfold restore.
  destruct (restore_claims_spec catalog (coordinator_new e)) as
    (c0 & -> & P0 & Hn0 & _ & Hin0 & Hout0); auto using new_pristine.
  assert (Hdom : ∀ i, is_Some (groups c0 !! i) → ∃ r, r ∈ catalog ∧ inv_of r = i).
  { intros i Hsi. destruct (decide (i ∈ inv_of <$> catalog)) as [(r & -> & Hr)%list_elem_of_fmap|Hni];
      [eauto|]. rewrite Hout0 in Hsi; [by destruct Hsi|].
    intros r Hr <-. apply Hni. by apply list_elem_of_fmap_2. }
  set (c1 := set_recovering true c0).
  assert (P1 : pristine c1).
  { destruct P0 as [I Hua Ha Hai]. split; try done. by apply (coord_inv_flags c0). }
  destruct (claimed_keys c1 order (pr_inv c1 P1) Ho) as (Hnd & Hkeys & Hkl).
  change (invocations c1) with (invocations c0) in *. change (groups c1) with (groups c0) in *.
  set (keys := order _) in *.
  set (st k := default (state_empty k) (confirmed <$> groups c0 !! k_invocation k)).
  destruct (restore_recover_spec st keys c1 P1 Hnd) as
    (c2 & es & -> & P2 & Hrc & Hr & Hin & Hout).
  { rewrite Hkl, (catalog_size catalog) by eauto. change (next_commit c1) with (next_commit c0).
    rewrite Hn0. simpl. lia. }
  { intros k (slot & Hg & Hk)%Hkeys. unfold st. change (groups c1) with (groups c0).
    rewrite Hg. simpl. split; [|done]. destruct (Hdom (k_invocation k)) as (r & Hr & Hri); [eauto|].
    pose proof (Hin0 r Hr) as Hg'. rewrite Hri, Hg in Hg'. by simplify_eq. }
  simpl. destruct (finish_recovery_fields c2) as (_ & _ & Fg & Fu & FI).
  assert (Hcat : ∀ r, r ∈ catalog → ∃ slot,
         groups c2 !! inv_of r = Some slot ∧ recovered (mkState r ∅ 0 true) slot es).
  { intros r Hr'. pose proof (Hin0 r Hr') as Hg.
    destruct (Hin (r_key r)) as (slot & Hs & Hrec); [apply Hkeys; by eexists|].
    exists slot. split; [done|]. unfold st in Hrec. unfold inv_of in Hg. by rewrite Hg in Hrec. }
  assert (Hdom2 : ∀ i slot, groups c2 !! i = Some slot → ∃ r, r ∈ catalog ∧ inv_of r = i).
  { intros i slot Hg. destruct (decide (i ∈ k_invocation <$> keys)) as
      [(k & -> & (s & Hs & _)%Hkeys)%list_elem_of_fmap|Hni]; [eauto|].
    rewrite (Hout i Hni) in Hg. eauto. }
  exists (finish_recovery c2), es. rewrite Fg. split_and!; try done.
  - destruct P2 as [I2 U2 A2 B2]. unfold finish_recovery in *.
    destruct (_ && _); [|by split]. split; try done. by apply (coord_inv_flags c2).
  - apply finish_recovery_flag; [by rewrite Hrc|]. intros i s Hg.
    destruct (Hdom2 i s Hg) as (r & Hr' & <-). destruct (Hcat r Hr') as (s' & Hs' & _ & ? & _).
    congruence.
Qed.

(** ** Properties *)

(** Restoring from a finished recovery catalog always succeeds, in
    whatever order the claimed keys are visited: each record becomes the
    confirmed state of its slot, no other slot exists, no right is granted, an
    attempt left unfinished has a commit request that settles it, and the
    coordinator stays in recovery exactly while such a commit is pending. *)
Theorem restore_total parse stream catalog order e :
  builder_finish (push_all parse stream) = Ok catalog →
  Forall (λ r, is_u64 (r_revision r)) catalog → Z.of_nat (length catalog) ≤ u64_max →
  (∀ l, order l ≡ₚ l) →
  ∃ c es, restore order catalog e = Ok (c, es) ∧ CoordInv c ∧ unavailable c = false
    ∧ rights es = []
    ∧ (∀ r, r ∈ catalog → ∃ slot,
         groups c !! inv_of r = Some slot ∧ recovered (mkState r ∅ 0 true) slot es)
    ∧ (∀ i slot, groups c !! i = Some slot → ∃ r, r ∈ catalog ∧ inv_of r = i)
    ∧ (recovering c = true ↔ ∃ i s, groups c !! i = Some s ∧ pending s ≠ None).
Proof.
  intros Hb Hu Hl Ho. pose proof (push_all_inv parse stream) as [Hv _ _ Hi Ht].
  unfold builder_finish in Hb. destruct (rb_failed _); [done|]. simplify_eq.
  destruct (restore_spec order (rb_records (push_all parse stream)) e) as
    (c & es & Hr & P & ? & ? & ? & ?); [done|by split|].
  exists c, es. destruct P. split_and!; done || apply pr_inv0.
Qed.

End WithCodec.

(** ** Witnesses *)

Lemma restore_total_witness :
  ∃ c es, restore id [record s_begun] demo_epoch = Ok (c, es)
    ∧ rights es = [] ∧ recovering c = true.
Proof.
  destruct (restore_total sample_parse [[1]] [record s_begun] id demo_epoch)
    as (c & es & Hr & _ & _ & Hn & _ & _ & Hrec).
  - vm_compute. reflexivity.
  - apply Forall_cons; [|apply Forall_nil]. vm_compute. split; discriminate.
  - vm_compute. discriminate.
  - reflexivity.
  - exists c, es. split; [exact Hr|]. split; [exact Hn|].
    vm_compute in Hr. injection Hr as <- <-. reflexivity.
Defined.
