(* ===== verification/Hydration.v ===== *)
(** * Reading outcome bodies and delivering them

    [crates/unica-execution/src/coordinator/hydration.rs]: a body is read
    outside the decision loop; only a completed read that still matches the
    confirmed record mints a publication permit.  [DeliveryChoice] of
    [coordinator.rs]: a frontend observes an invocation once, directly or as a
    Task. *)

From Stdlib Require Import ZArith Lia.
From stdpp Require Import base gmap list option numbers.
From S2P Require Import Prelude Contract Decide ContractFacts Sample ContractProps Storage.
From S2P Require Import Coordinator CoordinatorFacts CoordinatorProps.

Local Open Scope Z_scope.

Section WithCodec.
Context {C : Codec}.

Inductive Role :=
| RDirect (owner_hash : hash)
| RTask
| RHolder (m : Membership).

Record ReadRequest := mkReadRequest {
  rq_epoch : AuthorityEpoch;
  rq_record : ERecord;
  rq_descriptor : OutcomeDescriptor;
  rq_role : Role;
}.

Record ReadCompletion := mkReadCompletion {
  rc_request : ReadRequest;
  rc_outcome : CanonicalOutcome;
}.

Record ResultPublicationPermit := mkResultPublicationPermit {
  rpp_key : Key; rpp_outcome : CanonicalOutcome }.
Record HolderPublicationPermit := mkHolderPublicationPermit {
  hp_key : Key; hp_membership : Membership; hp_outcome : CanonicalOutcome }.

Inductive ReadPublication :=
| PDirect (p : DirectPublicationPermit)
| PTask (p : ResultPublicationPermit)
| PHolder (p : HolderPublicationPermit).

(** [ReadRequest::loaded_body]. *)
Definition loaded_body (q : ReadRequest) (stored : StoredRecord)
  : result CanonicalOutcome Error :=
  if bool_decide (sr_record stored ≠ rq_record q) then Err StaleCompletion
  else
    let? outcome := ok_or (match rq_role q with
                           | RDirect _ | RTask => stored_primary stored
                           | RHolder _ => sr_producer stored
                           end) Compacted in
    if bool_decide (descriptor outcome ≠ rq_descriptor q) then Err InvalidRecord
    else Ok outcome.

(** [ReadRequest::loaded] through [loaded_or_return]. *)
Definition loaded (q : ReadRequest) (stored : StoredRecord) : result ReadCompletion Error :=
  let? outcome := loaded_body q stored in Ok (mkReadCompletion q outcome).

(** [ReadRequest::authority_failed]. *)
Definition read_authority_failed (q : ReadRequest) (cause : AuthorityFailureCause)
  : AuthorityFailure :=
  mkAuthorityFailure (rq_epoch q) cause
    (Some (r_key (rq_record q), r_revision (rq_record q))).

(** [ExecutionCoordinator::read_descriptor]. *)
Definition read_descriptor (c : ExecutionCoordinator) (k : Key) (role : Role)
  : result OutcomeDescriptor Error :=
  let? _ := check_available c in
  let? r := inspect c k in
  if r_compacted r then Err Compacted
  else
    let? d :=
      match role with
      | RDirect owner =>
          if negb (owned_by r owner) then Err OwnerMismatch
          else if is_some (r_acknowledgement r) then Err AlreadyAcknowledged
          else Ok (primary r)
      | RTask => if negb (accepted r) then Err NotAccepted else Ok (primary r)
      | RHolder m =>
          let? o := coordinator_observe_holder c k m in
          Ok (match o with
              | HolderTerminal d => Some d
              | HolderCancelled | HolderWorking => None
              end)
      end in
    ok_or d NotRunnable.

(** [ExecutionCoordinator::prepare_read]. *)
Definition prepare_read (c : ExecutionCoordinator) (k : Key) (role : Role)
  : result ReadRequest Error :=
  let? d := read_descriptor c k role in
  let? r := inspect c k in
  Ok (mkReadRequest (epoch c) r d role).

Definition prepare_direct (c : ExecutionCoordinator) (k : Key) (o : OwnerCapability) :=
  prepare_read c k (RDirect (owner_hash o)).
Definition prepare_task (c : ExecutionCoordinator) (k : Key) := prepare_read c k RTask.
Definition prepare_holder (c : ExecutionCoordinator) (k : Key) (m : Membership) :=
  prepare_read c k (RHolder m).

(** [ExecutionCoordinator::complete_read]. *)
Definition publish (k : Key) (role : Role) (o : CanonicalOutcome) : ReadPublication :=
  match role with
  | RDirect _ => PDirect (mkDirectPublicationPermit k o)
  | RTask => PTask (mkResultPublicationPermit k o)
  | RHolder m => PHolder (mkHolderPublicationPermit k m o)
  end.

Definition complete_read (c : ExecutionCoordinator) (rc : ReadCompletion)
  : result ReadPublication Error :=
  let q := rc_request rc in
  let k := r_key (rq_record q) in
  let? _ := check_available c in
  if bool_decide (rq_epoch q ≠ epoch c) then Err StaleCompletion
  else
    let? r := inspect c k in
    if bool_decide (r ≠ rq_record q) then Err StaleCompletion
    else
      let? d := read_descriptor c k (rq_role q) in
      if bool_decide (d ≠ rq_descriptor q)
         || bool_decide (descriptor (rc_outcome rc) ≠ rq_descriptor q)
      then Err StaleCompletion
      else Ok (publish k (rq_role q) (rc_outcome rc)).

(** [ExecutionCoordinator::owns_read_request]. *)
Definition owns_read_request (c : ExecutionCoordinator) (q : ReadRequest) : bool :=
  bool_decide (rq_epoch q = epoch c)
  && is_some_and
       (λ slot, bool_decide (r_key (record (confirmed slot)) = r_key (rq_record q)))
       (groups c !! k_invocation (r_key (rq_record q))).

(** ** The delivery choice of a frontend *)

Inductive DeliveryState :=
| Undecided
| DirectBuilt (o : CanonicalOutcome)
| TaskReturned.

Record DeliveryChoice := mkDeliveryChoice { dc_key : Key; dc_state : DeliveryState }.

Definition delivery_new (k : Key) : DeliveryChoice := mkDeliveryChoice k Undecided.

Definition is_undecided (s : DeliveryState) : bool :=
  match s with Undecided => true | _ => false end.

Definition build_direct (dc : DeliveryChoice) (p : DirectPublicationPermit)
  : DeliveryChoice * result unit Error :=
  if bool_decide (dp_key p ≠ dc_key dc) then (dc, Err IdentityCollision)
  else if negb (is_undecided (dc_state dc)) then (dc, Err InvalidInput)
  else (mkDeliveryChoice (dc_key dc) (DirectBuilt (dp_outcome p)), Ok tt).

Definition return_task (dc : DeliveryChoice) (p : TaskPublicationPermit)
  : DeliveryChoice * result unit Error :=
  if bool_decide (tp_key p ≠ dc_key dc) then (dc, Err IdentityCollision)
  else if negb (is_undecided (dc_state dc)) then (dc, Err InvalidInput)
  else (mkDeliveryChoice (dc_key dc) TaskReturned, Ok tt).

Definition direct (dc : DeliveryChoice) : option CanonicalOutcome :=
  match dc_state dc with DirectBuilt o => Some o | _ => None end.
Definition delivery_ack_digest (dc : DeliveryChoice) : option hash := co_digest <$> direct dc.

(** ** Lemmas *)

Section Laws.
Context {L : CodecLaws C}.

(** Who may read: the conditions of the role on the confirmed state. *)
Definition may_read (s : State) (role : Role) (d : OutcomeDescriptor) : Prop :=
  r_compacted (record s) = false
  ∧ match role with
    | RDirect owner => a_owner_hash <$> r_accepted (record s) = Some owner
        ∧ r_acknowledgement (record s) = None ∧ primary (record s) = Some d
    | RTask => r_accepted (record s) ≠ None ∧ primary (record s) = Some d
    | RHolder m => observe_holder s m = Ok (HolderTerminal d)
    end.

(** The confirmed slot of [k] in an available coordinator. *)
Definition slot_of (c : ExecutionCoordinator) (k : Key) (s : State) : Prop :=
  unavailable c = false ∧ recovering c = false ∧ r_key (record s) = k
  ∧ r_revision (record s) ≠ 0 ∧ confirmed <$> groups c !! k_invocation k = Some s.

Lemma check_available_Ok c u :
  check_available c = Ok u ↔ unavailable c = false ∧ recovering c = false.
Proof. unfold check_available. destruct u, (unavailable c), (recovering c); naive_solver. Qed.

Lemma inspect_Ok c k r :
  inspect c k = Ok r ↔
  ∃ s, confirmed <$> groups c !! k_invocation k = Some s ∧ r_key (record s) = k
    ∧ r_revision (record s) ≠ 0 ∧ r = record s.
Proof.
  unfold inspect. destruct (groups c !! k_invocation k) as [slot|]; simpl.
  - case_bool_decide as E1; [naive_solver|]. case_bool_decide as E2; naive_solver.
  - naive_solver.
Qed.

Lemma owned_by_Some r owner :
  owned_by r owner = true ↔ a_owner_hash <$> r_accepted r = Some owner.
Proof.
  unfold owned_by. destruct (r_accepted r) as [a|]; simpl; [|done].
  rewrite bool_decide_eq_true. naive_solver.
Qed.

Lemma read_descriptor_Ok c k role d :
  read_descriptor c k role = Ok d ↔ ∃ s, slot_of c k s ∧ may_read s role d.
Proof.
  unfold read_descriptor, slot_of, may_read. split.
  - destruct (check_available c) as [u|] eqn:Ha; [|done]. apply check_available_Ok in Ha as [Hu Hrc].
    destruct (inspect c k) as [r|] eqn:Hi; [|done].
    apply inspect_Ok in Hi as (s & Hs & Hk & Hr & ->). intros H. exists s.
    split; [done|]. destruct (r_compacted (record s)); [done|]. split; [done|].
    destruct role as [owner| |m].
    + destruct (owned_by _ _) eqn:Ho; [|done]. apply owned_by_Some in Ho. simpl in H.
      destruct (r_acknowledgement _); [done|]. simpl in H. by apply ok_or_Ok in H.
    + unfold accepted in H. destruct (r_accepted (record s)); [|done]. by apply ok_or_Ok in H.
    + unfold coordinator_observe_holder in H. rewrite (proj2 (check_available_Ok c tt)) in H by done.
      destruct (groups c !! k_invocation k) as [slot|]; [|done]. simplify_eq/=.
      rewrite bool_decide_eq_false_2 in H by auto.
      destruct (observe_holder _ _) as [[| |d']|]; by simplify_eq/=.
  - intros (s & (Hu & Hrec & Hk & Hr & Hs) & Hc & Hrole).
    rewrite (proj2 (check_available_Ok c tt)) by done.
    rewrite (proj2 (inspect_Ok c k (record s))) by eauto. rewrite Hc.
    destruct role as [owner| |m].
    + destruct Hrole as (Ho & Hack & ->). by rewrite (proj2 (owned_by_Some _ _) Ho), Hack.
    + destruct Hrole as (Hacc & ->). unfold accepted. by destruct (r_accepted (record s)).
    + unfold coordinator_observe_holder. rewrite (proj2 (check_available_Ok c tt)) by done.
      destruct (groups c !! k_invocation k) as [slot|]; [|done]. simplify_eq/=.
      rewrite bool_decide_eq_false_2 by auto. by rewrite Hrole.
Qed.

Lemma slot_of_fun c k s s' : slot_of c k s → slot_of c k s' → s = s'.
Proof. intros (_&_&_&_&H) (_&_&_&_&H'). congruence. Qed.

Lemma complete_read_Ok c rc pub :
  complete_read c rc = Ok pub ↔
  let q := rc_request rc in
  rq_epoch q = epoch c ∧ descriptor (rc_outcome rc) = rq_descriptor q
  ∧ pub = publish (r_key (rq_record q)) (rq_role q) (rc_outcome rc)
  ∧ ∃ s, slot_of c (r_key (rq_record q)) s ∧ record s = rq_record q
      ∧ may_read s (rq_role q) (rq_descriptor q).
Proof.
  destruct rc as [q o]. simpl. unfold complete_read. simpl. split.
  - destruct (check_available c) as [u|] eqn:Ha; [|done].
    case_bool_decide as He; [done|].
    destruct (inspect c _) as [r|] eqn:Hi; [|done]. case_bool_decide as Hr; [done|].
    destruct (read_descriptor c _ _) as [d|] eqn:Hd; [|done].
    apply read_descriptor_Ok in Hd as (s & Hs & Hm).
    destruct (_ || _) eqn:E; [done|]. bool_prop. intros [= <-]. subst d.
    split_and!; try done. exists s. split_and!; try done.
    apply inspect_Ok in Hi as (s' & Hs' & _ & _ & ->). destruct Hs as (_&_&_&_&Hs). congruence.
  - intros (He & Hd & -> & s & Hs & Hr & Hm).
    assert (Hrd : read_descriptor c (r_key (rq_record q)) (rq_role q) = Ok (rq_descriptor q))
      by (apply read_descriptor_Ok; eauto).
    destruct Hs as (Hu & Hrec & Hk & Hrev & Hg).
    rewrite (proj2 (check_available_Ok c tt)) by done.
    rewrite (proj2 (inspect_Ok c _ (record s))) by eauto. rewrite Hrd.
    rewrite !bool_decide_eq_false_2 by auto. done.
Qed.

Lemma prepare_read_Ok c k role q :
  prepare_read c k role = Ok q ↔
  ∃ s d, slot_of c k s ∧ may_read s role d ∧ q = mkReadRequest (epoch c) (record s) d role.
Proof.
  unfold prepare_read. split.
  - destruct (read_descriptor c k role) as [d|] eqn:Hd; [|done].
    apply read_descriptor_Ok in Hd as (s & Hs & Hm).
    destruct (inspect c k) as [r|] eqn:Hi; [|done]. intros [= <-].
    apply inspect_Ok in Hi as (s' & Hs' & _ & _ & ->). exists s, d. split_and!; try done.
    destruct Hs as (_&_&_&_&Hs). congruence.
  - intros (s & d & Hs & Hm & ->). rewrite (proj2 (read_descriptor_Ok c k role d)) by eauto.
    destruct Hs as (_ & _ & Hk & Hr & Hg). by rewrite (proj2 (inspect_Ok c k (record s))) by eauto.
Qed.

(** The body a role reads. *)
Definition body_for (role : Role) (stored : StoredRecord) : option CanonicalOutcome :=
  match role with RDirect _ | RTask => stored_primary stored | RHolder _ => sr_producer stored end.

Lemma loaded_Ok q stored rc :
  loaded q stored = Ok rc ↔
  sr_record stored = rq_record q
  ∧ ∃ o, body_for (rq_role q) stored = Some o ∧ descriptor o = rq_descriptor q
         ∧ rc = mkReadCompletion q o.
Proof.
  unfold loaded, loaded_body, body_for. split.
  - case_bool_decide as Hr; [done|]. destruct (match rq_role q with RHolder _ => _ | _ => _ end)
      as [o|]; simpl; [|done]. case_bool_decide as Hd; [done|]. intros [= <-]. eauto.
  - intros (Hr & o & -> & Hd & ->). rewrite bool_decide_eq_false_2 by auto. simpl.
    by rewrite bool_decide_eq_false_2 by auto.
Qed.

Lemma body_matches_Some body d :
  body_matches body (Some d) false = true →
  ∃ o, body = Some o ∧ descriptor o = d ∧ outcome_valid o = true.
Proof. destruct body as [o|]; simpl; [|done]. intros. bool_prop. eauto. Qed.

Lemma body_matches_None body : body_matches body None false = true → body = None.
Proof. by destruct body. Qed.

(** An aggregate that is not compacted holds the body a role may read. *)
Lemma body_for_role s role d stored :
  stored_for s (Some stored) → may_read s role d →
  ∃ o, body_for role stored = Some o ∧ descriptor o = d ∧ outcome_valid o = true.
Proof.
  intros Hf [Hc Hrole]. destruct (stored_for_bodies _ _ Hf Hc) as [Hp Ho]. simpl in Hp, Ho.
  assert (Hprim : primary (record s) = Some d →
    ∃ o, stored_primary stored = Some o ∧ descriptor o = d ∧ outcome_valid o = true).
  { unfold primary, stored_primary, or_option. intros Hd.
    destruct (r_primary_override (record s)) as [d'|].
    - simplify_eq. destruct (body_matches_Some _ _ Ho) as (o & -> & ? & ?). eauto.
    - apply body_matches_None in Ho as ->. rewrite Hd in Hp. by apply body_matches_Some. }
  destruct role as [owner| |m]; simpl; [apply Hprim, Hrole..|].
  unfold observe_holder in Hrole. destruct (holders s !! _) as [h|]; [|done]. simpl in Hrole.
  destruct (_ || _); [done|]. destruct (h_cancelled h); [done|].
  destruct (r_producer (record s)) as [d'|]; simplify_eq/=. by apply body_matches_Some.
Qed.

(** ** Delivery operations as data *)

Inductive DeliveryOp :=
| DBuild (p : DirectPublicationPermit)
| DReturn (p : TaskPublicationPermit).

Definition deliver (dc : DeliveryChoice) (op : DeliveryOp) : DeliveryChoice * result unit Error :=
  match op with DBuild p => build_direct dc p | DReturn p => return_task dc p end.

Fixpoint deliver_all (dc : DeliveryChoice) (ops : list DeliveryOp)
  : DeliveryChoice * list (result unit Error) :=
  match ops with
  | [] => (dc, [])
  | op :: ops =>
      let '(dc, r) := deliver dc op in
      let '(dc, rs) := deliver_all dc ops in
      (dc, r :: rs)
  end.

Definition successes (rs : list (result unit Error)) : nat := length (List.filter is_ok rs).

Lemma deliver_decided dc op :
  is_undecided (dc_state dc) = false →
  ∃ e, deliver dc op = (dc, Err e).
Proof.
  intros Hd. destruct op; simpl; unfold build_direct, return_task; rewrite Hd;
    case_bool_decide; eauto.
Qed.

Lemma deliver_all_decided ops : ∀ dc,
  is_undecided (dc_state dc) = false →
  (deliver_all dc ops).1 = dc ∧ successes (deliver_all dc ops).2 = 0%nat.
Proof.
  induction ops as [|op ops IH]; intros dc Hd; [done|]. simpl.
  destruct (deliver_decided dc op Hd) as [e ->]. destruct (IH dc Hd) as [IH1 IH2].
  by destruct (deliver_all dc ops).
Qed.

Lemma deliver_step dc op dc' r :
  deliver dc op = (dc', r) →
  dc_key dc' = dc_key dc
  ∧ match r with
    | Ok _ => is_undecided (dc_state dc) = true ∧ is_undecided (dc_state dc') = false
    | Err _ => dc' = dc
    end.
Proof.
  destruct op; simpl; unfold build_direct, return_task; case_bool_decide;
    try destruct (is_undecided (dc_state dc)) eqn:E; intros; simplify_eq/=; auto.
Qed.

(** ** Properties *)

(** C12. Nothing stale or foreign is published: when a read prepared for [k]
    and loaded from a stored aggregate is completed, at whatever later moment,
    then the coordinator is available, the confirmed record is exactly the
    record that was loaded, the reader still has its role (the unacknowledged
    owner, an accepted Task, a live follower), and the permit carries the
    body stored for that role. *)
Theorem publication_sound c k role q stored rc c' pub :
  stored_ok stored → prepare_read c k role = Ok q → loaded q stored = Ok rc →
  complete_read c' rc = Ok pub →
  ∃ s o, slot_of c' k s ∧ record s = sr_record stored ∧ may_read s role (descriptor o)
    ∧ body_for role stored = Some o ∧ outcome_valid o = true ∧ pub = publish k role o
    ∧ epoch c' = epoch c.
Proof.
  intros Hok (s0 & d & Hs0 & Hm0 & ->)%prepare_read_Ok (Hr & o & Ho & Hd & ->)%loaded_Ok.
  intros (He & _ & -> & s & Hs & Hrs & Hm)%complete_read_Ok. simpl in *.
  assert (Hk : r_key (record s0) = k) by apply Hs0. rewrite Hk in *. subst d.
  exists s, o. split_and!; try done; [congruence|].
  destruct (body_for_role s role (descriptor o) stored) as (o' & Ho' & _ & Hv);
    [split; [congruence|done]|done|]. congruence.
Qed.

(** A readable outcome can be published: when the role may read the
    confirmed state and the store still holds its aggregate, preparing,
    loading and completing the read succeeds with the stored body. *)
Theorem read_completes c k s role d stored :
  slot_of c k s → may_read s role d → stored_for s (Some stored) →
  ∃ q rc o, prepare_read c k role = Ok q ∧ loaded q stored = Ok rc
    ∧ complete_read c rc = Ok (publish k role o)
    ∧ body_for role stored = Some o ∧ descriptor o = d.
Proof.
  intros Hs Hm Hf. destruct (body_for_role _ _ _ _ Hf Hm) as (o & Ho & Hd & _).
  assert (Hk : r_key (record s) = k) by apply Hs.
  exists (mkReadRequest (epoch c) (record s) d role).
  exists (mkReadCompletion (mkReadRequest (epoch c) (record s) d role) o), o. split_and!; try done.
  - apply prepare_read_Ok. eauto.
  - apply loaded_Ok. split; [apply Hf|]. eauto.
  - apply complete_read_Ok. simpl. rewrite Hk. eauto 10.
Qed.

(** A frontend chooses its delivery once: over any sequence of attempts
    at most one succeeds, the key never changes, and the state is decided
    exactly when one attempt has succeeded. *)
Theorem delivery_chosen_once k ops dc rs :
  deliver_all (delivery_new k) ops = (dc, rs) →
  (successes rs ≤ 1)%nat ∧ dc_key dc = k
  ∧ (is_undecided (dc_state dc) = true ↔ successes rs = 0%nat).
Proof.
  assert (Hk : dc_key (delivery_new k) = k) by done.
  assert (Hu : is_undecided (dc_state (delivery_new k)) = true) by done. revert Hk Hu.
  generalize (delivery_new k) as dc0. revert dc rs.
  induction ops as [|op ops IH]; intros dc rs dc0 Hk Hu H; simpl in H.
  { simplify_eq. rewrite Hu. unfold successes. simpl. split_and!; auto; lia. }
  destruct (deliver dc0 op) as [dc1 r] eqn:Hd. apply deliver_step in Hd as [Hk1 Hr].
  destruct (deliver_all dc1 ops) as [dc2 rs2] eqn:Ha. simplify_eq.
  destruct r as [u|e].
  - destruct Hr as [_ Hd1]. destruct (deliver_all_decided ops dc1 Hd1) as [E1 E2].
    rewrite Ha in E1, E2. simpl in E1, E2. subst dc1.
    unfold successes in *. simpl. rewrite E2, Hd1. split_and!; try done; lia.
  - subst dc1. by apply (IH dc rs2 dc0).
Qed.

(** A direct delivery can be acknowledged: the digest the frontend
    derives from the outcome it built is the one the contract expects, so the
    acknowledgement of the owner is decided (below the revision limit), and
    from then on the owner can no longer read the result directly. *)
Theorem direct_delivery_acknowledged c rc owner k p dc at_ms :
  CoordInv c → rq_role (rc_request rc) = RDirect owner →
  complete_read c rc = Ok (PDirect p) → dp_key p = k →
  build_direct (delivery_new k) p = (dc, Ok tt) →
  ∃ s digest, slot_of c k s ∧ delivery_ack_digest dc = Some digest
    ∧ (r_revision (record s) < u64_max → ∃ t,
         state_decide s (Acknowledge owner digest at_ms) = Ok (Some t)
         ∧ ∀ d, ¬ may_read (t_state t) (RDirect owner) d).
Proof.
  intros I Hrole (He & Hd & Hpub & s & Hs & Hr & Hm)%complete_read_Ok Hk Hb.
  rewrite Hrole in *. simpl in Hpub. injection Hpub as ->. simpl in Hk. rewrite Hk in *.
  unfold build_direct in Hb. simpl in Hb. rewrite bool_decide_eq_false_2 in Hb by auto.
  injection Hb as <-. exists s, (co_digest (rc_outcome rc)). split_and!; try done.
  intros Hrev. destruct Hm as (Hc & Ho & Hack & Hp). destruct Hs as (_ & _ & _ & Hr0 & Hg).
  destruct (groups c !! k_invocation k) as [slot|] eqn:Hsl; [|done]. simplify_eq/=.
  pose proof (sl_state _ _ _ (ci_slots c I _ _ Hsl)) as Hst.
  assert (V : ValidBody (record (confirmed slot))).
  { destruct (si_record _ Hst) as [[_ V]|E]; [done|]. by rewrite E in Hr0. }
  assert (Hpd : r_primary_digest (record (confirmed slot)) = Some (co_digest (rc_outcome rc))).
  { rewrite (vr_primary _ V), Hp, <- Hd. done. }
  set (ev := Acknowledge owner (co_digest (rc_outcome rc)) at_ms).
  assert (Hev : ∃ t, decide_event (confirmed slot) ev = Ok (Some t)
                ∧ r_acknowledgement (record (t_state t)) ≠ None).
  { simpl. unfold decide_acknowledge. rewrite Ho, Hpd, Hack.
    rewrite !bool_decide_eq_false_2 by auto. simpl. eexists. split; [done|]. done. }
  destruct Hev as (t & Hdt & Ht).
  pose proof (state_decide_total _ ev _ Hst Logic.I Hdt) as Htot.
  rewrite (proj2 (Z.ltb_lt _ _) Hrev) in Htot. destruct Htot as [t' Ht'].
  exists t'. split; [done|]. intros d (_ & _ & Hn & _).
  apply state_decide_Some in Ht' as (t0 & Hd0 & Hs0). rewrite Hdt in Hd0. simplify_eq.
  apply seal_Some in Hs0 as (Hrec & _). rewrite Hrec in Hn. by destruct (must_compact _).
Qed.

End Laws.
End WithCodec.

(** ** Witnesses *)

Definition demo_4 : ExecutionCoordinator := (exec demo_3 (QComplete (committed demo_3 read_key))).1.
Definition demo_5 : ExecutionCoordinator :=
  (exec demo_4 (QReport (mkOutcomeEvidence read_key (sample_run read_key) demo_epoch
                           (sample_outcome true)))).1.
(** The outcome of the worker is committed. *)
Definition demo_6 : ExecutionCoordinator := (exec demo_5 (QComplete (committed demo_5 read_key))).1.
Definition demo_role : Role := RDirect (owner_hash demo_owner).
Definition demo_state : State := state_at demo_6 read_key.
Definition demo_stored : StoredRecord :=
  mkStoredRecord (record demo_state) (Some (sample_outcome true)) None.
Definition demo_read : ReadRequest :=
  mkReadRequest demo_epoch (record demo_state) (descriptor (sample_outcome true)) demo_role.
Definition demo_completion : ReadCompletion := mkReadCompletion demo_read (sample_outcome true).
Definition demo_permit : DirectPublicationPermit :=
  mkDirectPublicationPermit read_key (sample_outcome true).

Lemma demo_6_inv : CoordInv demo_6.
Proof.
  unfold demo_6, demo_5, demo_4, demo_3, demo_2.
  repeat (apply exec_inv_fst; [|first [exact I | event_is_ok]]). apply new_inv.
Qed.

Lemma publication_sound_witness :
  ∃ s o, slot_of demo_6 read_key s ∧ body_for demo_role demo_stored = Some o
    ∧ PDirect demo_permit = publish read_key demo_role o.
Proof.
  destruct (publication_sound demo_6 read_key demo_role demo_read demo_stored demo_completion
              demo_6 (PDirect demo_permit)) as (s & o & Hs & _ & _ & Ho & _ & Hp & _).
  - vm_compute. reflexivity.
  - vm_compute. reflexivity.
  - vm_compute. reflexivity.
  - vm_compute. reflexivity.
  - exists s, o. split; [exact Hs|]. split; [exact Ho|exact Hp].
Defined.

Lemma read_completes_witness :
  ∃ q rc o, prepare_read demo_6 read_key demo_role = Ok q ∧ loaded q demo_stored = Ok rc
    ∧ complete_read demo_6 rc = Ok (publish read_key demo_role o).
Proof.
  destruct (read_completes demo_6 read_key demo_state demo_role
              (descriptor (sample_outcome true)) demo_stored) as (q & rc & o & Hq & Hl & Hc & _).
  - vm_compute. repeat split; discriminate.
  - vm_compute. repeat split.
  - split; vm_compute; reflexivity.
  - exists q, rc, o. split; [exact Hq|]. split; [exact Hl|exact Hc].
Defined.

Lemma delivery_chosen_once_witness :
  (successes (deliver_all (delivery_new read_key)
     [DBuild demo_permit; DReturn (mkTaskPublicationPermit read_key)]).2 ≤ 1)%nat.
Proof.
  apply (delivery_chosen_once read_key
           [DBuild demo_permit; DReturn (mkTaskPublicationPermit read_key)]
           (mkDeliveryChoice read_key (DirectBuilt (sample_outcome true)))).
  vm_compute. reflexivity.
Defined.

Lemma direct_delivery_acknowledged_witness :
  ∃ s digest, slot_of demo_6 read_key s
    ∧ delivery_ack_digest (build_direct (delivery_new read_key) demo_permit).1 = Some digest.
Proof.
  destruct (direct_delivery_acknowledged demo_6 demo_completion (owner_hash demo_owner) read_key
    demo_permit (build_direct (delivery_new read_key) demo_permit).1 9000) as (s & d & Hs & Hd & _).
  - apply demo_6_inv.
  - reflexivity.
  - vm_compute. reflexivity.
  - reflexivity.
  - vm_compute. reflexivity.
  - exists s, d. split; [exact Hs|exact Hd].
Defined.
