(* ===== verification/Redaction.v ===== *)
(** * The stream redactor

    [crates/unica-redaction/src/lib.rs]: secret redaction of a text that
    arrives in chunks.  A [char] is its code point, a [String] the list of its
    characters.  The automaton is the one of the source; the theorems compare
    its bounded key detector with a reference that sees the whole key, and
    show that redacted values do not influence the output. *)

From Stdlib Require Import ZArith Lia Ascii String.
From stdpp Require Import base list option numbers.
From S2P Require Import Prelude.

Local Open Scope Z_scope.

Definition text := list Z.

(** A string literal of the source (ASCII). *)
Definition lit (s : string) : text := (λ a, Z.of_N (N_of_ascii a)) <$> list_ascii_of_string s.

(** ** Characters *)

Definition in_range (lo hi c : Z) : bool := (lo <=? c) && (c <=? hi).
Definition is_ascii_alphanumeric (c : Z) : bool :=
  in_range 48 57 c || in_range 65 90 c || in_range 97 122 c.
Definition to_ascii_lowercase (c : Z) : Z := if in_range 65 90 c then c + 32 else c.
Definition lower (t : text) : text := to_ascii_lowercase <$> t.
Definition eq_ignore_ascii_case (a b : text) : bool := bool_decide (lower a = lower b).

(** [char::is_whitespace]: the Unicode property [White_Space]. *)
Definition is_whitespace (c : Z) : bool :=
  in_range 9 13 c || (c =? 32) || (c =? 133) || (c =? 160) || (c =? 5760)
  || in_range 8192 8202 c || (c =? 8232) || (c =? 8233) || (c =? 8239) || (c =? 8287)
  || (c =? 12288).

(** [secret_key_char]. *)
Definition secret_key_char (c : Z) : bool := is_ascii_alphanumeric c || (c =? 95) || (c =? 45).

(** ** Keys *)

Definition EXACT_SECRET_KEYS : list text := [lit "connection"; lit "pwd"].
Definition SUBSTRING_SECRET_KEYS : list text := [lit "password"; lit "token"; lit "secret"].
Definition MAX_RETAINED_KEY_BYTES : nat := length (lit "connection").

Fixpoint starts_with (t p : text) {struct p} : bool :=
  match p, t with
  | [], _ => true
  | _, [] => false
  | a :: p, b :: t => (a =? b) && starts_with t p
  end.

(** [str::contains]. *)
Fixpoint contains (t p : text) : bool :=
  starts_with t p || match t with [] => false | _ :: t => contains t p end.

Definition strip_prefix (t p : text) : option text :=
  if starts_with t p then Some (drop (length p) t) else None.

Definition exact_key_name (key : text) : text :=
  default key (or_option (strip_prefix key (lit "--")) (strip_prefix key (lit "-"))).

(** [s.get(..n)] on an ASCII string. *)
Definition get_prefix (s : text) (n : nat) : option text :=
  if (n <=? length s)%nat then Some (take n s) else None.

Definition is_possible_exact_secret_key (key : text) : bool :=
  let key := exact_key_name key in
  existsb (λ secret_key,
    is_some_and (λ prefix, eq_ignore_ascii_case prefix key)
      (get_prefix secret_key (length key))) EXACT_SECRET_KEYS.

Definition is_exact_secret_key (key : text) : bool :=
  let key := exact_key_name key in
  existsb (λ secret_key, eq_ignore_ascii_case secret_key key) EXACT_SECRET_KEYS.

Definition is_connection_key (key : text) : bool :=
  eq_ignore_ascii_case (exact_key_name key) (lit "connection").

Definition contains_substring_secret_key (key : text) : bool :=
  existsb (contains (lower key)) SUBSTRING_SECRET_KEYS.

(** [is_secret_key], the policy on a whole key. *)
Definition is_secret_key (key : text) : bool :=
  existsb (λ k, bool_decide (k = lower key)) EXACT_SECRET_KEYS
  || existsb (contains (lower key)) SUBSTRING_SECRET_KEYS.

(** ** The automaton *)

Inductive ExactKeyStatus := Possible | Discarded.
Inductive RedactionMarker := MPending | MWritten.
Inductive SecretValueKind := Connection | Other.

Inductive StreamRedactorState :=
| Text
| Candidate (pending : text) (exact_key : ExactKeyStatus)
| ConfirmedSecretKey
| AfterSecretKey (kind : SecretValueKind)
| RedactingSecretValue (marker : RedactionMarker) (kind : SecretValueKind).

Definition secret_value_delimiter (c : Z) (kind : SecretValueKind) : bool :=
  match kind with
  | Connection => (c =? 10) || (c =? 13)
  | Other => (c =? 59) || (c =? 38) || (c =? 44) || (c =? 10) || (c =? 13) || (c =? 125)
  end.

Definition advance (e : ExactKeyStatus) (key : text) : ExactKeyStatus :=
  match e with
  | Possible => if is_possible_exact_secret_key key then Possible else Discarded
  | Discarded => Discarded
  end.

(** The loop of [retain_secret_key_suffix] over [(1..=length).rev()]: the
    longest suffix that starts a substring key.  Keys are ASCII, so bytes and
    characters agree. *)
Fixpoint retained_length (pending : text) (n : nat) : nat :=
  match n with
  | O => 0%nat
  | S m =>
      if (n <=? length pending)%nat
         && existsb (λ secret_key,
              is_some_and (λ prefix,
                eq_ignore_ascii_case prefix (drop (length pending - n) pending))
                (get_prefix secret_key n)) SUBSTRING_SECRET_KEYS
      then n
      else retained_length pending m
  end.

(** [retain_secret_key_suffix]: what stays pending and what is released. *)
Definition retain_secret_key_suffix (pending : text) : text * text :=
  let n := retained_length pending MAX_RETAINED_KEY_BYTES in
  (drop (length pending - n) pending, take (length pending - n) pending).

(** [advance_candidate]: the next state and the text written. *)
Definition advance_candidate (pending : text) (e : ExactKeyStatus)
  : StreamRedactorState * text :=
  if contains_substring_secret_key pending then (ConfirmedSecretKey, pending)
  else
    match advance e pending with
    | Possible => (Candidate pending Possible, [])
    | Discarded =>
        let '(kept, out) := retain_secret_key_suffix pending in
        (Candidate kept Discarded, out)
    end.

Definition after_secret_key (c : Z) (kind : SecretValueKind) : StreamRedactorState * text :=
  if (c =? 61) || (c =? 58) then (RedactingSecretValue MPending kind, [c])
  else if is_whitespace c then (AfterSecretKey kind, [c])
  else if secret_key_char c then advance_candidate [c] Possible
  else (Text, [c]).

Definition redacted : text := lit "<redacted>".

Definition after_secret_key_value (c : Z) (kind : SecretValueKind) : StreamRedactorState * text :=
  if is_whitespace c then (AfterSecretKey kind, [c])
  else if secret_value_delimiter c kind then (Text, [c])
  else (RedactingSecretValue MWritten kind, redacted).

Definition redact_value (c : Z) (marker : RedactionMarker) (kind : SecretValueKind)
  : StreamRedactorState * text :=
  match marker with
  | MPending =>
      if is_whitespace c then (RedactingSecretValue MPending kind, [c])
      else if secret_value_delimiter c kind then (Text, redacted ++ [c])
      else (RedactingSecretValue MWritten kind, redacted)
  | MWritten =>
      if secret_value_delimiter c kind then (Text, [c])
      else (RedactingSecretValue MWritten kind, [])
  end.

(** [StreamRedactorState::push]. *)
Definition state_push (s : StreamRedactorState) (c : Z) : StreamRedactorState * text :=
  match s with
  | Text =>
      if secret_key_char c then advance_candidate [c] Possible else (Text, [c])
  | Candidate pending e =>
      if secret_key_char c then advance_candidate (pending ++ [c]) e
      else if match e with Possible => is_exact_secret_key pending | Discarded => false end
      then
        let kind := if is_connection_key pending then Connection else Other in
        let '(s, out) := after_secret_key c kind in (s, pending ++ out)
      else (Text, pending ++ [c])
  | ConfirmedSecretKey =>
      if secret_key_char c then (ConfirmedSecretKey, [c]) else after_secret_key c Other
  | AfterSecretKey kind => after_secret_key_value c kind
  | RedactingSecretValue marker kind => redact_value c marker kind
  end.

(** [StreamRedactorState::finish]. *)
Definition state_finish (s : StreamRedactorState) : text :=
  match s with
  | Candidate pending _ => pending
  | RedactingSecretValue MPending _ => redacted
  | _ => []
  end.

(** [StreamRedactor::push] and [redactor]. *)
Fixpoint push (s : StreamRedactorState) (chunk : text) : StreamRedactorState * text :=
  match chunk with
  | [] => (s, [])
  | c :: chunk =>
      let '(s1, o1) := state_push s c in
      let '(s2, o2) := push s1 chunk in
      (s2, o1 ++ o2)
  end.

Definition redactor (t : text) : text :=
  let '(s, out) := push Text t in out ++ state_finish s.

Definition retained_len (s : StreamRedactorState) : nat :=
  match s with Candidate pending _ => length pending | _ => 0 end.

(** ** Bounded tails *)

(** Bytes of a character in UTF-8. *)
Definition utf8_len (c : Z) : nat :=
  if c <? 128 then 1 else if c <? 2048 then 2 else if c <? 65536 then 3 else 4.
Definition byte_len (t : text) : nat := foldr (λ c n, (utf8_len c + n)%nat) 0%nat t.

(** [text.is_char_boundary(i)]. *)
Fixpoint is_char_boundary (t : text) (i : nat) : bool :=
  match i with
  | O => true
  | _ => match t with
         | [] => false
         | c :: t => (utf8_len c <=? i)%nat && is_char_boundary t (i - utf8_len c)
         end
  end.

(** [text[i..]] at a boundary. *)
Fixpoint slice_from (t : text) (i : nat) : text :=
  match i with
  | O => t
  | _ => match t with [] => [] | c :: t => slice_from t (i - utf8_len c) end
  end.

(** The [while] loop of [bounded_tail]; [fuel] bounds it by the text length. *)
Fixpoint next_boundary (fuel : nat) (t : text) (start : nat) : nat :=
  match fuel with
  | O => start
  | S fuel =>
      if (start <? byte_len t)%nat && negb (is_char_boundary t start)
      then next_boundary fuel t (start + 1)
      else start
  end.

Definition bounded_tail (t : text) (max_bytes : nat) : text :=
  if (byte_len t <=? max_bytes)%nat then t
  else slice_from t (next_boundary (byte_len t) t (byte_len t - max_bytes)).

Definition bounded_char_tail (t : text) (max_chars : nat) : text :=
  if (length t <=? max_chars)%nat then t else drop (length t - max_chars) t.

Definition bounded_redacted_tail (t : text) (max_bytes : nat) : text :=
  bounded_tail (redactor t) max_bytes.

Example redact_pwd :
  redactor (lit "starting; Pwd=super-secret;done") = lit "starting; Pwd=<redacted>;done".
Proof. vm_compute. reflexivity. Qed.
