(* ===== verification/RedactionProps.v ===== *)
(** * Properties of the stream redactor *)

From Stdlib Require Import ZArith Lia ZifyBool Ascii String.
From stdpp Require Import base list option numbers.
From S2P Require Import Prelude Redaction.

Local Open Scope Z_scope.

(** ** Strings *)

Lemma starts_with_true t p : starts_with t p = true ↔ ∃ r, t = p ++ r.
Proof.
  revert t. induction p as [|a p IH]; intros t; simpl.
  { destruct t; split; eauto. }
  destruct t as [|b t]; simpl; [by split; [|intros (r & ?)]|].
  rewrite andb_true_iff, Z.eqb_eq, IH. split.
  - intros [-> (r & ->)]. by exists r.
  - intros (r & E). simplify_eq. eauto.
Qed.

Lemma contains_true t p : contains t p = true ↔ ∃ a b, t = a ++ p ++ b.
Proof.
  induction t as [|c t IH]; cbn [contains]; rewrite orb_true_iff, starts_with_true.
  - split; [intros [(r & E)|]; [|done]; by exists [], r|].
    intros (a & b & E). left. exists b. symmetry in E. by apply app_nil in E as [-> ->].
  - rewrite IH. split.
    + intros [(r & E)|(a & b & ->)]; [by exists [], r|by exists (c :: a), b].
    + intros ([|a0 a] & b & E); [left; by exists b|]. right. simplify_eq/=. eauto.
Qed.

Lemma lower_app a b : lower (a ++ b) = lower a ++ lower b.
Proof. apply fmap_app. Qed.
Lemma lower_length a : length (lower a) = length a.
Proof. apply length_fmap. Qed.
Lemma lower_drop n a : lower (drop n a) = drop n (lower a).
Proof. apply fmap_drop. Qed.

(** ** Secret words *)

(** The lowercased text [u] starts a substring key. *)
Definition begins_key (u : text) : Prop :=
  ∃ s r, s ∈ SUBSTRING_SECRET_KEYS ∧ s = u ++ r.

Lemma substring_keys_lower s :
  s ∈ SUBSTRING_SECRET_KEYS → lower s = s ∧ (length s ≤ 8)%nat ∧ s ≠ [].
Proof.
  intros H.
  repeat (apply elem_of_cons in H as [->|H]; [split_and!; [done|vm_compute; lia|done]|]).
  by apply elem_of_nil in H.
Qed.

Lemma contains_key_true w :
  contains_substring_secret_key w = true ↔
  ∃ s a b, s ∈ SUBSTRING_SECRET_KEYS ∧ lower w = a ++ s ++ b.
Proof.
  unfold contains_substring_secret_key. rewrite existsb_exists. split.
  - intros (s & Hs & (a & b & E)%contains_true). exists s, a, b.
    by rewrite list_elem_of_In.
  - intros (s & a & b & Hs & E). exists s. rewrite <- list_elem_of_In. split; [done|].
    apply contains_true. eauto.
Qed.

(** The test of the loop of [retain_secret_key_suffix] on a suffix. *)
Lemma begins_key_test u n :
  length u = n →
  existsb (λ s, is_some_and (λ p, eq_ignore_ascii_case p u) (get_prefix s n))
    SUBSTRING_SECRET_KEYS = true ↔ begins_key (lower u).
Proof.
  intros Hn. rewrite existsb_exists. split.
  - intros (s & Hs%list_elem_of_In & H). unfold get_prefix in H.
    destruct (n <=? length s)%nat; [|done]. simpl in H. unfold eq_ignore_ascii_case in H.
    bool_prop. destruct (substring_keys_lower s Hs) as (Hl & _ & _).
    exists s, (drop n s). split; [done|]. rewrite <- H. unfold lower in *.
    by rewrite fmap_take, Hl, take_drop.
  - intros (s & r & Hs & E). exists s. rewrite <- list_elem_of_In. split; [done|].
    destruct (substring_keys_lower s Hs) as (Hl & _ & _).
    unfold get_prefix. rewrite (proj2 (Nat.leb_le _ _)).
    2: { rewrite E, length_app, lower_length. lia. }
    simpl. unfold eq_ignore_ascii_case. apply bool_decide_eq_true.
    assert (Ht : take n s = lower u).
    { rewrite E. rewrite take_app_le by (rewrite lower_length; lia).
      apply take_ge. rewrite lower_length. lia. }
    unfold lower in *. by rewrite fmap_take, Hl, Ht.
Qed.

(** ** The retained suffix *)

Definition tail_of (w : text) (n : nat) : text := drop (length w - n) w.

Lemma suffix_length w n : (n ≤ length w)%nat → length (tail_of w n) = n.
Proof. intros. unfold tail_of. rewrite length_drop. lia. Qed.

Lemma retained_length_spec w N :
  let n := retained_length w N in
  (n ≤ N)%nat ∧ (n ≤ length w)%nat
  ∧ (n = 0%nat ∨ begins_key (lower (tail_of w n)))
  ∧ (∀ m, (n < m ≤ N)%nat → (m ≤ length w)%nat → ¬ begins_key (lower (tail_of w m))).
Proof.
  induction N as [|N IH]; cbn [retained_length].
  { simpl. split_and!; auto; lia. }
  destruct (Nat.leb_spec (S N) (length w)) as [Hle|Hgt].
  - pose proof (begins_key_test (tail_of w (S N)) (S N) (suffix_length _ _ Hle)) as Ht.
    unfold tail_of in Ht at 1. rewrite andb_true_l. destruct (existsb _ _).
    + split_and!; try lia. right. by apply Ht.
    + destruct IH as (H1 & H2 & H3 & H4). split_and!; auto. intros m Hm Hmw.
      destruct (decide (m = S N)) as [->|]; [|apply H4; lia].
      intros Hb. by apply Ht in Hb.
  - rewrite andb_false_l. destruct IH as (H1 & H2 & H3 & H4). split_and!; auto.
    intros m Hm Hmw. apply H4; lia.
Qed.

(** ** Tracking a key with a bounded suffix *)

Lemma begins_key_length u : begins_key u → (length u ≤ 8)%nat.
Proof.
  intros (s & r & (_ & Hl & _)%substring_keys_lower & ->). rewrite length_app in Hl. lia.
Qed.

Lemma begins_key_init u x : begins_key (u ++ [x]) → begins_key u.
Proof. intros (s & r & Hs & ->). exists (u ++ [x] ++ r), (x :: r). by rewrite <- app_assoc in Hs. Qed.

(** The suffix [p] of [w] remembers every start of a key that [w] ends with. *)
Record tracks (w p : text) : Prop := {
  tr_suffix : p `suffix_of` w;
  tr_keys : ∀ u, begins_key u → u `suffix_of` lower w → u `suffix_of` lower p;
}.

Lemma tracks_refl w : tracks w w.
Proof. by split. Qed.

Lemma lower_suffix p w : p `suffix_of` w → lower p `suffix_of` lower w.
Proof. intros (a & ->). exists (lower a). apply lower_app. Qed.

Lemma contains_key_suffix p w :
  p `suffix_of` w → contains_substring_secret_key p = true → contains_substring_secret_key w = true.
Proof.
  intros (k & ->) (s & a & b & Hs & E)%contains_key_true. apply contains_key_true.
  exists s, (lower k ++ a), b. split; [done|]. by rewrite lower_app, E, <- app_assoc.
Qed.

Lemma suffix_snoc_inv (u w : text) x :
  u `suffix_of` (w ++ [x]) → u = [] ∨ ∃ u', u = u' ++ [x] ∧ u' `suffix_of` w.
Proof.
  intros (k & E). destruct u as [|y u _] using rev_ind; [by left|]. right.
  rewrite app_assoc in E. apply app_inj_tail in E as [-> ->]. exists u. split; [done|by exists k].
Qed.

Lemma tracks_snoc w p c : tracks w p → tracks (w ++ [c]) (p ++ [c]).
Proof.
  intros [[k ->] Hk]. split; [exists k; by rewrite <- app_assoc|].
  intros u Hb Hu. rewrite lower_app in Hu. rewrite lower_app. simpl in *.
  destruct (suffix_snoc_inv _ _ _ Hu) as [->|(u' & -> & Hu')]; [apply suffix_nil|].
  destruct (Hk u') as (l & ->); [by eapply begins_key_init|done|]. exists l. apply eq_sym, app_assoc.
Qed.

Lemma tracks_contains w p c :
  tracks w p → contains_substring_secret_key w = false →
  contains_substring_secret_key (p ++ [c]) = contains_substring_secret_key (w ++ [c]).
Proof.
  intros T Hn. apply eq_true_iff_eq. split; [apply contains_key_suffix, (tracks_snoc _ _ _ T)|].
  intros (s & a & b & Hs & E)%contains_key_true. rewrite lower_app in E. simpl in E.
  destruct b as [|y b _] using rev_ind.
  - rewrite app_nil_r in E. destruct (tracks_snoc w p c T) as [_ Hk].
    destruct (Hk s) as (k & Ek).
    + exists s, []. by rewrite app_nil_r.
    + exists a. rewrite lower_app. done.
    + apply contains_key_true. exists s, k, []. by rewrite app_nil_r.
  - exfalso. rewrite !app_assoc in E. apply app_inj_tail in E as [E _].
    rewrite <- app_assoc in E. apply not_true_iff_false in Hn. apply Hn, contains_key_true. eauto.
Qed.

Lemma tracks_retained w p :
  tracks w p → tracks w (tail_of p (retained_length p MAX_RETAINED_KEY_BYTES)).
Proof.
  intros [[k ->] Hk]. destruct (retained_length_spec p MAX_RETAINED_KEY_BYTES) as (_ & Hn & _ & Hmax).
  set (n := retained_length _ _) in *.
  assert (Hd : p = take (length p - n) p ++ tail_of p n) by (symmetry; apply take_drop).
  split; [exists (k ++ take (length p - n) p); by rewrite <- app_assoc, <- Hd|].
  intros u Hb (l & El)%Hk; [|done].
  assert (Hu : u = lower (tail_of p (length u))).
  { unfold tail_of. rewrite lower_drop, El. rewrite <- (lower_length p), El, length_app.
    replace (length l + length u - length u)%nat with (length l) by lia.
    by rewrite drop_app_length. }
  assert (Hlen : (length u ≤ length p)%nat).
  { rewrite <- (lower_length p), El, length_app. lia. }
  destruct (decide (length u ≤ n)%nat) as [Hle|Hgt].
  - rewrite Hu. apply lower_suffix. exists (drop (length p - n) (take (length p - length u) p)).
    unfold tail_of. rewrite <- (take_drop (length p - length u) p) at 2.
    rewrite drop_app_le; [done|]. rewrite length_take. lia.
  - exfalso. apply (Hmax (length u)); [|done|by rewrite <- Hu].
    pose proof (begins_key_length u Hb). unfold MAX_RETAINED_KEY_BYTES. simpl. lia.
Qed.

(** ** Exact keys *)

Lemma exact_key_name_snoc w c : ∃ r, exact_key_name (w ++ [c]) = exact_key_name w ++ r.
Proof.
  unfold exact_key_name, strip_prefix, or_option.
  change (lit "--") with [45; 45]. change (lit "-") with [45].
  destruct w as [|x [|y t]]; cbn -[Z.eqb drop].
  - by eexists.
  - destruct (45 =? x), (45 =? c); cbn -[Z.eqb]; first [by exists [] | by exists [c]].
  - destruct (45 =? x), (45 =? y); cbn -[Z.eqb]; rewrite ?drop_0; by exists [c].
Qed.

Lemma exact_key_name_length w : (length w ≤ 2 + length (exact_key_name w))%nat.
Proof.
  unfold exact_key_name, strip_prefix, or_option.
  destruct (starts_with w (lit "--")), (starts_with w (lit "-")); simpl; rewrite ?length_drop; lia.
Qed.

Lemma exact_keys_lower s : s ∈ EXACT_SECRET_KEYS → lower s = s ∧ (length s ≤ 10)%nat.
Proof.
  intros H. repeat (apply elem_of_cons in H as [->|H]; [split; [done|vm_compute; lia]|]).
  by apply elem_of_nil in H.
Qed.

Lemma possible_exact_true w :
  is_possible_exact_secret_key w = true ↔
  ∃ s r, s ∈ EXACT_SECRET_KEYS ∧ s = lower (exact_key_name w) ++ r.
Proof.
  unfold is_possible_exact_secret_key. set (k := exact_key_name w). rewrite existsb_exists. split.
  - intros (s & Hs%list_elem_of_In & H). unfold get_prefix in H.
    destruct (_ <=? _)%nat; [|done]. simpl in H. unfold eq_ignore_ascii_case in H. bool_prop.
    exists s, (drop (length k) s). split; [done|]. rewrite <- H. unfold lower.
    rewrite fmap_take. fold (lower s). by rewrite (proj1 (exact_keys_lower s Hs)), take_drop.
  - intros (s & r & Hs & E). exists s. rewrite <- list_elem_of_In. split; [done|].
    unfold get_prefix. rewrite (proj2 (Nat.leb_le _ _)).
    2: { rewrite E, length_app, lower_length. lia. }
    simpl. unfold eq_ignore_ascii_case. apply bool_decide_eq_true.
    unfold lower at 1. rewrite fmap_take. fold (lower s).
    rewrite (proj1 (exact_keys_lower s Hs)), E, <- (lower_length k). apply take_app_length.
Qed.

Lemma possible_exact_snoc w c :
  is_possible_exact_secret_key (w ++ [c]) = true → is_possible_exact_secret_key w = true.
Proof.
  rewrite !possible_exact_true. intros (s & r & Hs & E).
  destruct (exact_key_name_snoc w c) as (r' & Er). rewrite Er, lower_app, <- app_assoc in E. eauto.
Qed.

Lemma possible_exact_length w :
  is_possible_exact_secret_key w = true → (length w ≤ 12)%nat.
Proof.
  intros (s & r & (_ & Hl)%exact_keys_lower & ->)%possible_exact_true.
  rewrite length_app, lower_length in Hl. pose proof (exact_key_name_length w). lia.
Qed.

Lemma exact_possible w :
  is_exact_secret_key w = true → is_possible_exact_secret_key w = true.
Proof.
  unfold is_exact_secret_key. rewrite existsb_exists, possible_exact_true.
  intros (s & Hs%list_elem_of_In & H). unfold eq_ignore_ascii_case in H. bool_prop.
  exists s, []. split; [done|]. by rewrite app_nil_r, <- H, (proj1 (exact_keys_lower s Hs)).
Qed.

(** ** The detector on a whole key *)

Lemma push_app s a b :
  push s (a ++ b) =
  let '(s1, o1) := push s a in let '(s2, o2) := push s1 b in (s2, o1 ++ o2).
Proof.
  revert s. induction a as [|c a IH]; intros s; simpl.
  { by destruct (push s b). }
  destruct (state_push s c) as [s1 o1]. rewrite IH. destruct (push s1 a) as [s2 o2].
  destruct (push s2 b) as [s3 o3]. by rewrite app_assoc.
Qed.

(** What the automaton knows after the key characters [w]. *)
Inductive key_run (w : text) : StreamRedactorState * text → Prop :=
| KR_confirmed :
    contains_substring_secret_key w = true → key_run w (ConfirmedSecretKey, w)
| KR_possible :
    contains_substring_secret_key w = false → is_possible_exact_secret_key w = true →
    key_run w (Candidate w Possible, [])
| KR_discarded p out :
    contains_substring_secret_key w = false → is_possible_exact_secret_key w = false →
    tracks w p → w = out ++ p → (length p ≤ 8)%nat → key_run w (Candidate p Discarded, out).

Lemma retain_run w p out :
  contains_substring_secret_key w = false → is_possible_exact_secret_key w = false →
  tracks w p → w = out ++ p →
  let '(kept, more) := retain_secret_key_suffix p in
  key_run w (Candidate kept Discarded, out ++ more).
Proof.
  intros Hc Hp T Hw. unfold retain_secret_key_suffix.
  destruct (retained_length_spec p MAX_RETAINED_KEY_BYTES) as (_ & Hn & Hb & _).
  pose proof (tracks_retained w p T) as T'. unfold tail_of in T'.
  apply KR_discarded; auto.
  - by rewrite <- app_assoc, take_drop.
  - set (n := retained_length _ _) in *. rewrite length_drop.
    destruct Hb as [->|Hb%begins_key_length]; [lia|].
    rewrite lower_length in Hb. unfold tail_of in Hb. rewrite length_drop in Hb. lia.
Qed.

Lemma key_run_first c : secret_key_char c = true → key_run [c] (advance_candidate [c] Possible).
Proof.
  intros Hc. unfold advance_candidate.
  destruct (contains_substring_secret_key [c]) eqn:E1; [by apply KR_confirmed|].
    unfold advance.
  destruct (is_possible_exact_secret_key [c]) eqn:E2; [by apply KR_possible|].
  pose proof (retain_run [c] [c] [] E1 E2 (tracks_refl [c]) eq_refl) as H.
  by destruct (retain_secret_key_suffix [c]).
Qed.

Lemma key_run_step w s out c :
  secret_key_char c = true → key_run w (s, out) →
  key_run (w ++ [c]) (let '(s', o) := state_push s c in (s', out ++ o)).
Proof.
  intros Hc H. inversion H as [Hw|Hw Hp|p out' Hw Hp T Eo Hl]; subst; unfold state_push; rewrite Hc.
  - apply KR_confirmed. apply contains_key_true in Hw as (k & a & b & Hk & E).
    apply contains_key_true. exists k, a, (b ++ lower [c]). split; [done|].
    by rewrite lower_app, E, <- !app_assoc.
  - unfold advance_candidate.
    destruct (contains_substring_secret_key (w ++ [c])) eqn:E1; [by apply KR_confirmed|].
    unfold advance.
    destruct (is_possible_exact_secret_key (w ++ [c])) eqn:E2; [by apply KR_possible|].
    pose proof (retain_run (w ++ [c]) (w ++ [c]) [] E1 E2 (tracks_refl _) eq_refl) as H'.
    by destruct (retain_secret_key_suffix (w ++ [c])).
  - unfold advance_candidate. rewrite (tracks_contains _ _ c T Hw).
    destruct (contains_substring_secret_key ((out ++ p) ++ [c])) eqn:E1.
    { rewrite app_assoc. by apply KR_confirmed. }
    unfold advance. assert (E2 : is_possible_exact_secret_key ((out ++ p) ++ [c]) = false).
    { apply not_true_iff_false. intros E2%possible_exact_snoc. congruence. }
    pose proof (retain_run _ (p ++ [c]) out E1 E2 (tracks_snoc _ _ c T)) as H'.
    destruct (retain_secret_key_suffix (p ++ [c])). apply H'. by rewrite app_assoc.
Qed.

Lemma key_run_push w :
  w ≠ [] → Forall (λ c, secret_key_char c = true) w → key_run w (push Text w).
Proof.
  induction w as [|c w IH] using rev_ind; [done|]. intros _ [Hw Hc]%Forall_app.
  apply Forall_cons_iff in Hc as [Hc _].
  destruct (decide (w = [])) as [->|Hne].
  - cbn [app push state_push]. rewrite Hc.
    destruct (advance_candidate [c] Possible) as [s o] eqn:E.
    pose proof (key_run_first c Hc) as K. rewrite E in K. by rewrite app_nil_r.
  - rewrite push_app. specialize (IH Hne Hw). destruct (push Text w) as [s o].
    pose proof (key_run_step _ _ _ c Hc IH) as H. cbn [push].
    destruct (state_push s c). by rewrite app_nil_r.
Qed.

(** ** From a key to its value *)

(** The keys the stream recognises: those of the policy, and the exact keys
    behind one or two dashes. *)
Definition stream_secret (k : text) : bool :=
  contains_substring_secret_key k || is_exact_secret_key k.
Definition value_kind (k : text) : SecretValueKind :=
  if contains_substring_secret_key k then Other
  else if is_connection_key k then Connection else Other.

(** What separates a key from its value: [=], [:] or blanks, then blanks. *)
Definition is_link (l : text) : bool :=
  match l with
  | [] => false
  | c :: l => ((c =? 61) || (c =? 58) || is_whitespace c) && forallb is_whitespace l
  end.

(** A value: it starts with no blank and holds no delimiter. *)
Definition is_value (kind : SecretValueKind) (v : text) : bool :=
  match v with
  | [] => false
  | c :: _ => negb (is_whitespace c) && forallb (λ c, negb (secret_value_delimiter c kind)) v
  end.

(** The rest of the output, once the marker stands for the value. *)
Definition after_marker (kind : SecretValueKind) (rest : text) : text :=
  let '(s, o) := push (RedactingSecretValue MWritten kind) rest in o ++ state_finish s.

Lemma link_char c :
  (c =? 61) || (c =? 58) || is_whitespace c = true → secret_key_char c = false.
Proof.
  unfold secret_key_char, is_ascii_alphanumeric, is_whitespace, in_range. lia.
Qed.

(** Waiting for a value. *)
Inductive awaits (kind : SecretValueKind) : StreamRedactorState → Prop :=
| AW_after : awaits kind (AfterSecretKey kind)
| AW_pending : awaits kind (RedactingSecretValue MPending kind).

Lemma awaits_blanks kind s l :
  awaits kind s → forallb is_whitespace l = true → push s l = (s, l).
Proof.
  intros Hs. induction l as [|c l IH]; simpl; [done|]. intros [Hc Hl]%andb_true_iff.
  assert (Hp : state_push s c = (s, [c])).
  { destruct Hs; simpl; unfold after_secret_key_value, redact_value; by rewrite Hc. }
  by rewrite Hp, IH.
Qed.

Lemma after_key_link kind c :
  (c =? 61) || (c =? 58) || is_whitespace c = true →
  ∃ s, after_secret_key c kind = (s, [c]) ∧ awaits kind s.
Proof.
  intros H. unfold after_secret_key. destruct ((c =? 61) || (c =? 58)).
  - eexists. split; [done|constructor].
  - simpl in H. rewrite H. eexists. split; [done|constructor].
Qed.

Lemma key_link k l :
  k ≠ [] → Forall (λ c, secret_key_char c = true) k → stream_secret k = true →
  is_link l = true → ∃ s, push Text (k ++ l) = (s, k ++ l) ∧ awaits (value_kind k) s.
Proof.
  intros Hne Hk Hs Hl. destruct l as [|c l]; [done|]. simpl in Hl.
  apply andb_true_iff in Hl as [Hc Hl]. pose proof (link_char c Hc) as Hnk.
  rewrite push_app. pose proof (key_run_push k Hne Hk) as Hr.
  unfold stream_secret, value_kind in *.
  inversion Hr as [Hw E|Hw Hp E|p out Hw Hp T Eo Hlen E]; rewrite Hw in *; cbn [push state_push];
    rewrite Hnk.
  - destruct (after_key_link Other c Hc) as (s & -> & Ha).
    rewrite (awaits_blanks Other s l Ha Hl). exists s. by split.
  - rewrite orb_false_l in Hs. rewrite Hs.
    destruct (after_key_link (if is_connection_key k then Connection else Other) c Hc)
      as (s & -> & Ha).
    rewrite (awaits_blanks _ s l Ha Hl). exists s. by rewrite <- app_assoc.
  - rewrite orb_false_l in Hs. apply exact_possible in Hs. congruence.
Qed.

Lemma written_value kind v :
  forallb (λ c, negb (secret_value_delimiter c kind)) v = true →
  push (RedactingSecretValue MWritten kind) v = (RedactingSecretValue MWritten kind, []).
Proof.
  induction v as [|c v IH]; simpl; [done|]. intros [Hc Hv]%andb_true_iff.
  apply negb_true_iff in Hc. by rewrite Hc, IH.
Qed.

Lemma value_hidden kind s v :
  awaits kind s → is_value kind v = true →
  push s v = (RedactingSecretValue MWritten kind, redacted).
Proof.
  intros Hs Hv. destruct v as [|c v]; [done|]. simpl in Hv. apply andb_true_iff in Hv as [Hw Hv].
  apply andb_true_iff in Hv as [Hc Hv]. apply negb_true_iff in Hw, Hc.
  assert (Hp : state_push s c = (RedactingSecretValue MWritten kind, redacted)).
  { destruct Hs; unfold state_push, after_secret_key_value, redact_value; by rewrite Hw, Hc. }
  cbn [push]. by rewrite Hp, (written_value kind v Hv), app_nil_r.
Qed.

(** The policy on whole keys is what the stream recognises. *)
Lemma policy_recognised k : is_secret_key k = true → stream_secret k = true.
Proof.
  unfold is_secret_key, stream_secret. intros [H|H]%orb_true_iff.
  - apply orb_true_iff. right. unfold is_exact_secret_key.
    apply existsb_exists in H as (s & Hs & E). bool_prop. subst s.
    assert (Hn : exact_key_name k = k).
    { unfold exact_key_name, strip_prefix. change (lit "--") with [45; 45].
      change (lit "-") with [45]. destruct k as [|x k]; [done|]. cbn [starts_with].
      destruct (Z.eqb_spec 45 x) as [<-|]; [|done]. simpl in Hs.
      destruct Hs as [Hs|[Hs|[]]]; discriminate. }
    rewrite Hn. apply existsb_exists. exists (lower k). split; [done|].
    unfold eq_ignore_ascii_case. apply bool_decide_eq_true.
    by rewrite (proj1 (exact_keys_lower _ (proj2 (list_elem_of_In _ _) Hs))).
  - apply orb_true_iff. left. done.
Qed.

(** ** Retained state *)

(** A held key is always the tail of some run of key characters. *)
Definition held_ok (s : StreamRedactorState) : Prop :=
  match s with Candidate p e => ∃ w out, key_run w (Candidate p e, out) | _ => True end.

Lemma key_run_held w r : key_run w r → held_ok r.1.
Proof. intros H. destruct H; simpl; eauto using key_run. Qed.

Lemma after_secret_key_held c kind : held_ok (after_secret_key c kind).1.
Proof.
  unfold after_secret_key. destruct (_ || _); [done|]. destruct (is_whitespace c); [done|].
  destruct (secret_key_char c) eqn:Hc; [|done]. eapply key_run_held. by apply key_run_first.
Qed.

Lemma state_push_held s c : held_ok s → held_ok (state_push s c).1.
Proof.
  intros H. destruct s as [|p e| |kind|m kind]; unfold state_push.
  - destruct (secret_key_char c) eqn:Hc; [|done]. eapply key_run_held. by apply key_run_first.
  - destruct (secret_key_char c) eqn:Hc.
    + destruct H as (w & out & H). pose proof (key_run_step _ _ _ c Hc H) as H'.
      unfold state_push in H'. rewrite Hc in H'. apply key_run_held in H'.
      by destruct (advance_candidate (p ++ [c]) e).
    + destruct (match e with Possible => _ | Discarded => _ end); [|done].
      set (k := if is_connection_key p then _ else _).
      pose proof (after_secret_key_held c k). by destruct (after_secret_key c k).
  - destruct (secret_key_char c); [done|]. apply after_secret_key_held.
  - unfold after_secret_key_value. by repeat case_match.
  - unfold redact_value. by repeat case_match.
Qed.

Lemma push_held t : ∀ s, held_ok s → held_ok (push s t).1.
Proof.
  induction t as [|c t IH]; intros s H; [done|]. cbn [push].
  pose proof (state_push_held s c H) as H1. destruct (state_push s c) as [s1 o1].
  specialize (IH s1 H1). by destruct (push s1 t).
Qed.

Lemma held_bound s : held_ok s → (retained_len s ≤ 12)%nat.
Proof.
  destruct s as [|p e| |kind|m kind]; simpl; try lia. intros (w & out & H).
  inversion H as [|Hw Hp|? ? ? ? ? ? Hl]; subst; [by apply possible_exact_length|lia].
Qed.

(** ** Text without secret values *)

Definition redacting (s : StreamRedactorState) : bool :=
  match s with RedactingSecretValue _ _ => true | _ => false end.

(** No secret value is met while [t] is pushed from [s]. *)
Fixpoint quiet (s : StreamRedactorState) (t : text) : bool :=
  match t with
  | [] => true
  | c :: t => negb (redacting (state_push s c).1) && quiet (state_push s c).1 t
  end.

Definition held (s : StreamRedactorState) : text :=
  match s with Candidate p _ => p | _ => [] end.

Lemma advance_candidate_text p e :
  let '(s, o) := advance_candidate p e in o ++ held s = p ∧ redacting s = false.
Proof.
  unfold advance_candidate, retain_secret_key_suffix.
  destruct (contains_substring_secret_key p); [by rewrite app_nil_r|].
  destruct (advance e p); [done|]. split; [apply take_drop|done].
Qed.

Lemma after_secret_key_text c kind :
  let '(s, o) := after_secret_key c kind in redacting s = false → o ++ held s = [c].
Proof.
  unfold after_secret_key. destruct (_ || _); [done|]. destruct (is_whitespace c); [done|].
  destruct (secret_key_char c); [|done]. pose proof (advance_candidate_text [c] Possible) as H.
  destruct (advance_candidate [c] Possible). by destruct H.
Qed.

Lemma state_push_text s c :
  redacting s = false →
  let '(s', o) := state_push s c in redacting s' = false → o ++ held s' = held s ++ [c].
Proof.
  intros Hs. destruct s as [|p e| |kind|m kind]; [| | | |done]; unfold state_push.
  - destruct (secret_key_char c); [|done]. pose proof (advance_candidate_text [c] Possible) as H.
    destruct (advance_candidate [c] Possible). by destruct H.
  - destruct (secret_key_char c).
    + pose proof (advance_candidate_text (p ++ [c]) e) as H.
      destruct (advance_candidate (p ++ [c]) e). by destruct H.
    + destruct (match e with Possible => _ | Discarded => _ end).
      * set (k := if is_connection_key p then _ else _).
        pose proof (after_secret_key_text c k) as H. destruct (after_secret_key c k) as [s' o].
        intros Hr. rewrite <- app_assoc, (H Hr). done.
      * intros _. by rewrite app_nil_r.
  - destruct (secret_key_char c); [done|]. apply after_secret_key_text.
  - unfold after_secret_key_value. destruct (is_whitespace c); [done|].
    by destruct (secret_value_delimiter c kind).
Qed.

Lemma push_text t : ∀ s,
  redacting s = false → quiet s t = true →
  let '(s', o) := push s t in o ++ state_finish s' = held s ++ t.
Proof.
  induction t as [|c t IH]; intros s Hs Hq; cbn [push].
  { rewrite app_nil_r. by destruct s as [|p e| |kind|[] kind]. }
  cbn [quiet] in Hq. apply andb_true_iff in Hq as [Hn Hq]. apply negb_true_iff in Hn.
  pose proof (state_push_text s c Hs) as Hp. destruct (state_push s c) as [s1 o1]. simpl in *.
  specialize (IH s1 Hn Hq). destruct (push s1 t) as [s2 o2].
  rewrite <- app_assoc, IH, app_assoc, (Hp Hn), <- app_assoc. done.
Qed.

(** ** Text that names no secret *)

(** The text contains the name of a secret, in any case. *)
Definition mentions_secret (t : text) : bool :=
  existsb (contains (lower t)) (EXACT_SECRET_KEYS ++ SUBSTRING_SECRET_KEYS).

Lemma mentions_secret_true t :
  mentions_secret t = true ↔
  ∃ s a b, s ∈ EXACT_SECRET_KEYS ++ SUBSTRING_SECRET_KEYS ∧ lower t = a ++ s ++ b.
Proof.
  unfold mentions_secret. rewrite existsb_exists. split.
  - intros (s & Hs & (a & b & E)%contains_true). exists s, a, b. by rewrite list_elem_of_In.
  - intros (s & a & b & Hs & E). exists s. rewrite <- list_elem_of_In. split; [done|].
    apply contains_true. eauto.
Qed.

Lemma mentions_part a t b : mentions_secret t = true → mentions_secret (a ++ t ++ b) = true.
Proof.
  rewrite !mentions_secret_true. intros (s & x & y & Hs & E). exists s, (lower a ++ x), (y ++ lower b).
  split; [done|]. by rewrite !lower_app, E, <- !app_assoc.
Qed.

Lemma exact_key_name_suffix w : exact_key_name w `suffix_of` w.
Proof.
  unfold exact_key_name, strip_prefix, or_option.
  destruct (starts_with w (lit "--")), (starts_with w (lit "-")); cbn [default];
    first [apply suffix_drop | reflexivity].
Qed.

Lemma secret_key_mentioned w :
  contains_substring_secret_key w = true ∨ is_exact_secret_key w = true → mentions_secret w = true.
Proof.
  rewrite mentions_secret_true. intros [(s & a & b & Hs & E)%contains_key_true|H].
  - exists s, a, b. split; [|done]. apply elem_of_app. by right.
  - unfold is_exact_secret_key in H. apply existsb_exists in H as (s & Hs%list_elem_of_In & H).
    unfold eq_ignore_ascii_case in H. bool_prop. destruct (exact_key_name_suffix w) as (a & Ha).
    exists s, (lower a), []. split; [apply elem_of_app; by left|].
    rewrite Ha at 1. by rewrite lower_app, <- H, (proj1 (exact_keys_lower s Hs)), app_nil_r.
Qed.

(** After the text [w] the automaton waits for a key, or has a part of one. *)
Definition calm (s : StreamRedactorState) (w : text) : Prop :=
  match s with
  | Text => True
  | Candidate p _ => p `suffix_of` w
  | _ => False
  end.

Lemma advance_candidate_calm p e w :
  p `suffix_of` w → mentions_secret w = false → calm (advance_candidate p e).1 w.
Proof.
  intros Hp Hw. unfold advance_candidate.
  destruct (contains_substring_secret_key p) eqn:E.
  { rewrite secret_key_mentioned in Hw; [done|]. left. by eapply contains_key_suffix. }
  destruct (advance e p); [done|]. unfold retain_secret_key_suffix. cbn.
  by transitivity p; [apply suffix_drop|].
Qed.

Lemma state_push_calm s c w :
  mentions_secret (w ++ [c]) = false → calm s w → calm (state_push s c).1 (w ++ [c]).
Proof.
  intros Hw Hs. destruct s as [|p e| |kind|m kind]; try done; cbn in Hs; unfold state_push.
  - destruct (secret_key_char c); [|done]. apply advance_candidate_calm; [by exists w|done].
  - destruct (secret_key_char c).
    + apply advance_candidate_calm; [|done]. destruct Hs as (k & ->). exists k. by rewrite app_assoc.
    + destruct (match e with Possible => _ | Discarded => _ end) eqn:E; [|done].
      exfalso. destruct e; [|done]. destruct Hs as (k & ->).
      rewrite <- app_assoc, mentions_part in Hw; [done|]. apply secret_key_mentioned. by right.
Qed.

Lemma calm_quiet t : ∀ s w,
  calm s w → mentions_secret (w ++ t) = false → quiet s t = true.
Proof.
  induction t as [|c t IH]; intros s w Hs Hw; [done|]. cbn [quiet].
  replace (w ++ c :: t) with ((w ++ [c]) ++ t) in Hw by (by rewrite <- app_assoc).
  assert (Hc : calm (state_push s c).1 (w ++ [c])).
  { apply state_push_calm; [|done]. destruct (mentions_secret (w ++ [c])) eqn:E; [|done].
    pose proof (mentions_part [] (w ++ [c]) t E) as Hm. cbn [app] in Hm. by rewrite Hm in Hw. }
  rewrite (IH _ _ Hc Hw), andb_true_r. by destruct (state_push s c).1.
Qed.

(** ** Bounded tails *)

Lemma utf8_len_pos c : (1 ≤ utf8_len c ≤ 4)%nat.
Proof. unfold utf8_len. repeat case_match; lia. Qed.

Lemma byte_len_app a b : byte_len (a ++ b) = (byte_len a + byte_len b)%nat.
Proof. induction a as [|c a IH]; simpl; [done|]. unfold byte_len in *. lia. Qed.

(** Boundaries are the lengths of the prefixes. *)
Lemma boundary_true t : ∀ i,
  is_char_boundary t i = true ↔ ∃ a b, t = a ++ b ∧ byte_len a = i.
Proof.
  induction t as [|c t IH]; intros i.
  - destruct i; simpl; split; try done; [by exists [], []|].
    intros (a & b & E & Hb). symmetry in E. by apply app_nil in E as [-> ->].
  - destruct i as [|i]; cbn [is_char_boundary]; [split; [by exists [], (c :: t)|done]|].
    rewrite andb_true_iff, Nat.leb_le, IH. split.
    + intros [Hle (a & b & -> & Hb)]. exists (c :: a), b. split; [done|].
      cbn [byte_len foldr]. fold (byte_len a). lia.
    + intros ([|x a] & b & E & Hb); [done|]. simplify_eq/=. fold (byte_len a) in Hb.
      split; [lia|]. exists a, b. split; [done|]. lia.
Qed.

Lemma slice_from_boundary a b : slice_from (a ++ b) (byte_len a) = b.
Proof.
  induction a as [|c a IH]; [by destruct b|]. simpl. fold (byte_len a).
  pose proof (utf8_len_pos c). destruct (utf8_len c + byte_len a)%nat eqn:E; [lia|].
  rewrite <- E. replace (utf8_len c + byte_len a - utf8_len c)%nat with (byte_len a) by lia.
  apply IH.
Qed.

Lemma next_boundary_spec t fuel : ∀ start,
  (start ≤ byte_len t)%nat → (byte_len t - start ≤ fuel)%nat →
  let n := next_boundary fuel t start in
  (start ≤ n ≤ byte_len t)%nat ∧ is_char_boundary t n = true
  ∧ (∀ m, (start ≤ m < n)%nat → is_char_boundary t m = false).
Proof.
  assert (Hend : is_char_boundary t (byte_len t) = true).
  { apply boundary_true. exists t, []. by rewrite app_nil_r. }
  induction fuel as [|fuel IH]; intros start Hs Hf; cbn [next_boundary].
  { assert (start = byte_len t) as -> by lia. split_and!; try done; lia. }
  destruct (Nat.ltb_spec start (byte_len t)) as [Hlt|Hge]; simpl.
  - destruct (is_char_boundary t start) eqn:Hb; simpl; [split_and!; try done; lia|].
    destruct (IH (start + 1)%nat) as (H1 & H2 & H3); [lia..|]. split_and!; try done; [lia..|].
    intros m Hm. destruct (decide (m = start)) as [->|]; [done|]. apply H3. lia.
  - assert (start = byte_len t) as -> by lia. split_and!; try done; lia.
Qed.

(** ** Properties *)

(** C30. The bounded detector is as good as one that sees the whole key: after
    any run of key characters the automaton has confirmed a secret exactly
    when the run contains [password], [token] or [secret] in any case, and
    otherwise, while the run may still be one of the exact keys, it holds all
    of it; nothing of the run is lost or reordered. *)
Theorem key_detection k :
  k ≠ [] → Forall (λ c, secret_key_char c = true) k →
  let '(s, out) := push Text k in
  out ++ held s = k
  ∧ (s = ConfirmedSecretKey ↔ contains_substring_secret_key k = true)
  ∧ (s = Candidate k Possible ↔
       contains_substring_secret_key k = false ∧ is_possible_exact_secret_key k = true).
Proof.
  intros Hne Hk. pose proof (key_run_push k Hne Hk) as H. destruct (push Text k) as [s out].
  inversion H as [Hw|Hw Hp|p out' Hw Hp T Eo Hl]; subst; simpl; rewrite Hw.
  - rewrite app_nil_r. split_and!; [done|done|]. by split; [|intros [? _]].
  - split_and!; done.
  - rewrite Hp. split_and!; [done|done|]. split; [done|by intros [_ ?]].
Qed.

(** C31. A secret value is hidden: for a key the policy calls secret (or an
    exact key behind dashes), separated from its value by [=], [:] or blanks,
    the output shows the marker in place of the value and continues in a way
    that does not depend on the value.  Two texts that differ only in the
    value have the same output. *)
Theorem secret_value_hidden pre k l v rest :
  (push Text pre).1 = Text → k ≠ [] → Forall (λ c, secret_key_char c = true) k →
  is_secret_key k = true ∨ is_exact_secret_key k = true →
  is_link l = true → is_value (value_kind k) v = true →
  redactor (pre ++ k ++ l ++ v ++ rest)
  = (push Text pre).2 ++ k ++ l ++ redacted ++ after_marker (value_kind k) rest.
Proof.
  intros Hpre Hne Hk Hs Hl Hv.
  assert (Hss : stream_secret k = true).
  { destruct Hs as [Hs|Hs]; [by apply policy_recognised|]. unfold stream_secret.
    rewrite Hs. apply orb_true_r. }
  destruct (key_link k l Hne Hk Hss Hl) as (s & Hkl & Ha).
  unfold redactor, after_marker. rewrite push_app. destruct (push Text pre) as [s0 o0].
  simpl in Hpre. subst s0. rewrite (app_assoc k l), push_app, Hkl, push_app.
  rewrite (value_hidden _ _ _ Ha Hv).
  destruct (push (RedactingSecretValue MWritten (value_kind k)) rest) as [s2 o2].
  simpl. by rewrite <- !app_assoc.
Qed.

(** The pushes of a stream, one chunk after the other, then [finish]. *)
Fixpoint push_chunks (s : StreamRedactorState) (chunks : list text)
  : StreamRedactorState * text :=
  match chunks with
  | [] => (s, [])
  | c :: chunks =>
      let '(s1, o1) := push s c in
      let '(s2, o2) := push_chunks s1 chunks in
      (s2, o1 ++ o2)
  end.

Lemma push_chunks_concat chunks : ∀ s, push_chunks s chunks = push s (concat chunks).
Proof.
  induction chunks as [|c chunks IH]; intros s; [done|]. cbn [push_chunks concat].
  rewrite push_app. destruct (push s c) as [s1 o1]. by rewrite IH.
Qed.

(** C32. Chunk boundaries are invisible and state is bounded: however a text
    is cut into chunks, the stream produces exactly the redaction of the whole
    text, and between two chunks it never holds back more than the twelve
    characters of a dashed exact key. *)
Theorem stream_matches_whole chunks s out :
  push_chunks Text chunks = (s, out) →
  out ++ state_finish s = redactor (concat chunks) ∧ (retained_len s ≤ 12)%nat.
Proof.
  intros H. rewrite push_chunks_concat in H. unfold redactor. rewrite H. split; [done|].
  apply held_bound. change s with (s, out).1. rewrite <- H. by apply push_held.
Qed.

(** Ordinary text passes through: a text that does not contain the name
    of a secret ([connection], [pwd], [password], [token], [secret], in any
    case) comes out unchanged, whatever separators it has. *)
Theorem ordinary_text_preserved t : mentions_secret t = false → redactor t = t.
Proof.
  intros H. pose proof (push_text t Text eq_refl (calm_quiet t Text [] Logic.I H)) as Hp.
  unfold redactor. by destruct (push Text t).
Qed.

(** [bounded_tail] keeps the longest tail that fits: the result is made
    of whole characters from the end of the text, has at most [max_bytes]
    bytes, and one more character would not fit. *)
Theorem bounded_tail_longest t max_bytes :
  ∃ pre, t = pre ++ bounded_tail t max_bytes
    ∧ (byte_len (bounded_tail t max_bytes) ≤ max_bytes)%nat
    ∧ (∀ pre' c, pre = pre' ++ [c] → (max_bytes < byte_len (c :: bounded_tail t max_bytes))%nat).
Proof.
  unfold bounded_tail. destruct (Nat.leb_spec (byte_len t) max_bytes) as [Hle|Hgt].
  { exists []. split_and!; try done. intros [|? ?] c E; done. }
  destruct (next_boundary_spec t (byte_len t) (byte_len t - max_bytes)) as (Hn & Hb & Hmin);
    [lia..|]. set (n := next_boundary _ _ _) in *.
  apply boundary_true in Hb as (a & b & -> & Ha). rewrite <- Ha, slice_from_boundary.
  rewrite byte_len_app in *. exists a. split_and!; [done|lia|].
  intros pre' c ->. rewrite byte_len_app in *. simpl in *. fold (byte_len b).
  destruct (decide (byte_len pre' + byte_len b + utf8_len c - max_bytes ≤ byte_len pre')%nat);
    [exfalso|lia].
  assert (Hf : is_char_boundary ((pre' ++ [c]) ++ b) (byte_len pre') = false).
  { apply Hmin. pose proof (utf8_len_pos c). lia. }
  rewrite (proj2 (boundary_true _ _)) in Hf; [done|]. exists pre', ([c] ++ b).
  by rewrite <- app_assoc.
Qed.

(** ** Witnesses *)

Definition demo_key : text := lit "apiPassWord".

Lemma key_detection_witness :
  (push Text demo_key).1 = ConfirmedSecretKey ↔ contains_substring_secret_key demo_key = true.
Proof.
  pose proof (key_detection demo_key) as H.
  destruct (push Text demo_key) as [s out] eqn:E. apply H.
  - discriminate.
  - repeat (apply Forall_cons; [vm_compute; reflexivity|]). apply Forall_nil.
Defined.

Lemma secret_value_hidden_witness :
  redactor (lit "run " ++ demo_key ++ lit ": " ++ lit "hunter2" ++ lit "; done")
  = lit "run " ++ demo_key ++ lit ": " ++ redacted ++ after_marker Other (lit "; done").
Proof.
  apply (secret_value_hidden (lit "run ") demo_key (lit ": ") (lit "hunter2") (lit "; done")).
  - vm_compute. reflexivity.
  - discriminate.
  - repeat (apply Forall_cons; [vm_compute; reflexivity|]). apply Forall_nil.
  - left. vm_compute. reflexivity.
  - vm_compute. reflexivity.
  - vm_compute. reflexivity.
Defined.

Lemma stream_matches_whole_witness :
  redactor (lit "Pwd=abc") = lit "Pwd=<redacted>".
Proof.
  destruct (stream_matches_whole [lit "P"; lit "wd="; lit "abc"]
    (RedactingSecretValue MWritten Other) (lit "Pwd=<redacted>")) as [H _].
  - vm_compute. reflexivity.
  - symmetry. exact H.
Defined.

Lemma ordinary_text_preserved_witness :
  redactor (lit "build: user=admin; path=C:/tmp") = lit "build: user=admin; path=C:/tmp".
Proof.
  apply (ordinary_text_preserved (lit "build: user=admin; path=C:/tmp")). vm_compute. reflexivity.
Defined.

(** A key in double quotes is not followed by a separator, so a value written
    in JSON form is not recognised. *)
Example quoted_key_not_recognised :
  redactor ([34] ++ lit "password" ++ [34; 58; 34] ++ lit "hunter2" ++ [34])
  = [34] ++ lit "password" ++ [34; 58; 34] ++ lit "hunter2" ++ [34].
Proof. vm_compute. reflexivity. Qed.

(** Twelve characters can be held back, two more than
    [MAX_RETAINED_KEY_BYTES]. *)
Example dashed_key_retained : retained_len (push Text (lit "--connection")).1 = 12%nat.
Proof. vm_compute. reflexivity. Qed.
