(* ===== verification/ResultSize.v ===== *)
(** * Counting writers and the size of a canonical result

    [crates/unica-execution-contract/src/result_size.rs], and the [Counter] of
    [storage/codec.rs].  Both count what a JSON serializer writes and refuse
    to go over a limit.  [io::Write] is a class; [write_all] is the loop of
    the standard library, which retries an [Interrupted] write; a serializer
    is the list of the buffer lengths it writes and whether it fails itself. *)

From Stdlib Require Import ZArith Lia.
From stdpp Require Import base list option numbers.
From S2P Require Import Prelude.

Local Open Scope Z_scope.

(** ** [io::Write] *)

Inductive IoErrorKind := EInterrupted | EFileTooLarge | EWriteZero.

Class Write (W : Type) := write : W → Z → W * result Z IoErrorKind.

(** [Write::write_all] on a buffer of [n] bytes; [None] while it still runs
    after [fuel] calls of [write]. *)
Fixpoint write_all {W} `{Write W} (fuel : nat) (w : W) (n : Z)
  : option (W * result unit IoErrorKind) :=
  if n =? 0 then Some (w, Ok tt)
  else match fuel with
  | O => None
  | S fuel =>
      match write w n with
      | (w, Ok 0) => Some (w, Err EWriteZero)
      | (w, Ok m) => write_all fuel w (n - m)
      | (w, Err EInterrupted) => write_all fuel w n
      | (w, Err e) => Some (w, Err e)
      end
  end.

(** What a serializer does with its writer. *)
Record Serialized := mkSerialized { buffers : list Z; own_failure : bool }.

(** [serde_json::to_writer]: [false] when serialization failed, for a write
    error or for a reason of its own. *)
Fixpoint write_buffers {W} `{Write W} (fuel : nat) (w : W) (bufs : list Z)
  : option (W * bool) :=
  match bufs with
  | [] => Some (w, true)
  | n :: bufs =>
      match write_all fuel w n with
      | None => None
      | Some (w, Err _) => Some (w, false)
      | Some (w, Ok _) => write_buffers fuel w bufs
      end
  end.

Definition to_writer {W} `{Write W} (fuel : nat) (w : W) (s : Serialized) : option (W * bool) :=
  match write_buffers fuel w (buffers s) with
  | Some (w, true) => Some (w, negb (own_failure s))
  | r => r
  end.

(** ** [BoundedCountingWriter] *)

Definition MAX_CANONICAL_RESULT_BYTES : Z := 8 * 1024 * 1024.
Definition MAX_TASK_RECORD_ENVELOPE_BYTES : Z := 64 * 1024.
Definition MAX_TASK_RECORD_BYTES : Z :=
  MAX_CANONICAL_RESULT_BYTES + MAX_TASK_RECORD_ENVELOPE_BYTES.

Inductive CanonicalResultSizeError (E : Type) :=
| TooLarge
| Checkpoint (e : E)
| Serialization.
Arguments TooLarge {E}.
Arguments Checkpoint {E} e.
Arguments Serialization {E}.

Section Checkpointed.
Context {E : Type}.

(** The answers of the checkpoint closure, by the number of the call. *)
Variable checkpoint : nat → result unit E.

Record BoundedCountingWriter := mkBoundedCountingWriter {
  bw_bytes : Z;
  bw_limit : Z;
  bw_calls : nat;
  bw_failure : option (CanonicalResultSizeError E);
}.

#[export] Instance bounded_write : Write BoundedCountingWriter := λ w len,
  match checkpoint (bw_calls w) with
  | Err e =>
      (mkBoundedCountingWriter (bw_bytes w) (bw_limit w) (S (bw_calls w)) (Some (Checkpoint e)),
       Err EInterrupted)
  | Ok _ =>
      match u64_checked_add (bw_bytes w) len with
      | None =>
          (mkBoundedCountingWriter (bw_bytes w) (bw_limit w) (S (bw_calls w)) (Some TooLarge),
           Err EFileTooLarge)
      | Some next =>
          if bw_limit w <? next
          then (mkBoundedCountingWriter (bw_bytes w) (bw_limit w) (S (bw_calls w))
                  (Some TooLarge), Err EFileTooLarge)
          else (mkBoundedCountingWriter next (bw_limit w) (S (bw_calls w)) (bw_failure w), Ok len)
      end
  end.

(** [canonical_result_size_with_checkpoint]; [None] while it still runs. *)
Definition canonical_result_size_with_checkpoint (fuel : nat) (s : Serialized)
  : option (result Z (CanonicalResultSizeError E)) :=
  match to_writer fuel
          (mkBoundedCountingWriter 0 MAX_CANONICAL_RESULT_BYTES 0 None) s with
  | None => None
  | Some (w, serialized) => Some
      match bw_failure w with
      | Some error => Err error
      | None =>
          if negb serialized then Err Serialization
          else match checkpoint (bw_calls w) with
               | Err e => Err (Checkpoint e)
               | Ok _ => Ok (bw_bytes w)
               end
      end
  end.

End Checkpointed.

(** [canonical_result_size]: the checkpoint always agrees. *)
Definition canonical_result_size (fuel : nat) (s : Serialized)
  : option (result Z (CanonicalResultSizeError Empty_set)) :=
  canonical_result_size_with_checkpoint (λ _, Ok tt) fuel s.

(** ** [Counter] of the storage codec *)

Record Counter := mkCounter { ct_bytes : Z; ct_limit : Z; ct_exceeded : bool }.

#[export] Instance counter_write : Write Counter := λ c len,
  match u64_checked_add (ct_bytes c) len with
  | Some n =>
      if ct_limit c <? n then (mkCounter (ct_bytes c) (ct_limit c) true, Err EFileTooLarge)
      else (mkCounter n (ct_limit c) (ct_exceeded c), Ok len)
  | None => (mkCounter (ct_bytes c) (ct_limit c) true, Err EFileTooLarge)
  end.

(** ** Lemmas *)

Definition total (bufs : list Z) : Z := foldr Z.add 0 bufs.

(** Buffers hold a [usize] number of bytes. *)
Definition buffers_ok (bufs : list Z) : Prop := Forall (λ n, 0 ≤ n) bufs.

Lemma total_nonneg bufs : buffers_ok bufs → 0 ≤ total bufs.
Proof. unfold buffers_ok. induction 1; unfold total in *; simpl; lia. Qed.

(** A writer that takes whole buffers up to a bound, and remembers that it
    refused one. *)
Class BoundedWrite (W S : Type) {WW : Write W} := {
  used : W → Z;
  bound : W → Z;
  status : W → S;
  full : S;
  bounded_accepts : ∀ w n, 0 ≤ used w → 0 < n → bound w ≤ u64_max → used w + n ≤ bound w →
    ∃ w', write w n = (w', Ok n) ∧ used w' = used w + n ∧ bound w' = bound w
          ∧ status w' = status w;
  bounded_refuses : ∀ w n, 0 < n → bound w < used w + n →
    ∃ w', write w n = (w', Err EFileTooLarge) ∧ status w' = full;
}.

#[export, refine] Instance counter_bounded : BoundedWrite Counter bool :=
  {| used := ct_bytes; bound := ct_limit; status := ct_exceeded; full := true |}.
Proof.
  - intros w n H0 Hn Hb Hle. unfold write, counter_write, u64_checked_add.
    destruct (Z.leb_spec (ct_bytes w + n) u64_max); [|lia].
    destruct (Z.ltb_spec (ct_limit w) (ct_bytes w + n)); [lia|]. by eexists.
  - intros w n Hn Hgt. unfold write, counter_write, u64_checked_add.
    destruct (Z.leb_spec (ct_bytes w + n) u64_max); [|by eexists].
    destruct (Z.ltb_spec (ct_limit w) (ct_bytes w + n)); [|lia]. by eexists.
Defined.

#[export, refine] Instance bounded_counting_bounded :
  BoundedWrite (@BoundedCountingWriter Empty_set) (option (CanonicalResultSizeError Empty_set))
    (WW := bounded_write (λ _, Ok tt)) :=
  {| used := bw_bytes; bound := bw_limit; status := bw_failure; full := Some TooLarge |}.
Proof.
  - intros w n H0 Hn Hb Hle. unfold write, bounded_write, u64_checked_add.
    destruct (Z.leb_spec (bw_bytes w + n) u64_max); [|lia].
    destruct (Z.ltb_spec (bw_limit w) (bw_bytes w + n)); [lia|]. by eexists.
  - intros w n Hn Hgt. unfold write, bounded_write, u64_checked_add.
    destruct (Z.leb_spec (bw_bytes w + n) u64_max); [|by eexists].
    destruct (Z.ltb_spec (bw_limit w) (bw_bytes w + n)); [|lia]. by eexists.
Defined.

Section Bounded.
Context {W S} `{BW : BoundedWrite W S}.

Lemma write_all_accepts w n fuel :
  0 ≤ used w → 0 ≤ n → bound w ≤ u64_max → used w + n ≤ bound w → (1 ≤ fuel)%nat →
  ∃ w', write_all fuel w n = Some (w', Ok tt) ∧ used w' = used w + n ∧ bound w' = bound w
        ∧ status w' = status w.
Proof.
  intros H0 Hn Hb Hle Hf. destruct fuel as [|fuel]; [lia|]. cbn [write_all].
  destruct (Z.eqb_spec n 0) as [->|Hne]; [exists w; split_and!; try done; lia|].
  destruct (bounded_accepts w n) as (w' & -> & Hw); [lia..|].
  destruct n as [|n|n]; [done| |lia]. rewrite Z.sub_diag. destruct fuel; by exists w'.
Qed.

Lemma write_all_refuses w n fuel :
  0 ≤ n → used w ≤ bound w → bound w < used w + n → (1 ≤ fuel)%nat →
  ∃ w', write_all fuel w n = Some (w', Err EFileTooLarge) ∧ status w' = full.
Proof.
  intros Hn Hle Hgt Hf. destruct fuel as [|fuel]; [lia|]. cbn [write_all].
  destruct (Z.eqb_spec n 0) as [->|Hne]; [lia|].
  destruct (bounded_refuses w n) as (w' & -> & Hw); [lia..|]. by exists w'.
Qed.

(** The writer accepts a sequence of buffers exactly when their total fits,
    however the bytes are split into buffers. *)
Lemma write_buffers_bounded bufs : ∀ w fuel,
  buffers_ok bufs → 0 ≤ used w ≤ bound w → bound w ≤ u64_max → (1 ≤ fuel)%nat →
  ∃ w', if used w + total bufs <=? bound w
        then write_buffers fuel w bufs = Some (w', true) ∧ used w' = used w + total bufs
             ∧ status w' = status w
        else write_buffers fuel w bufs = Some (w', false) ∧ status w' = full.
Proof.
  induction bufs as [|n bufs IH]; intros w fuel Hb Hw Hl Hf.
  { exists w. change (total []) with 0. rewrite Z.add_0_r. by rewrite (proj2 (Z.leb_le _ _) (proj2 Hw)). }
  apply Forall_cons_iff in Hb as [Hn Hb]. pose proof (total_nonneg _ Hb) as Ht.
  change (total (n :: bufs)) with (n + total bufs). cbn [write_buffers].
  destruct (Z.leb_spec (used w + n) (bound w)) as [Hle|Hgt].
  - destruct (write_all_accepts w n fuel) as (w1 & -> & Hu & Hbd & Hr); [lia..|].
    destruct (IH w1 fuel) as (w' & H); [done|lia..|]. exists w'.
    rewrite Hu, Hbd, Hr, <- Z.add_assoc in H. done.
  - destruct (write_all_refuses w n fuel) as (w1 & -> & Hr); [lia..|]. exists w1.
    destruct (Z.leb_spec (used w + (n + total bufs)) (bound w)); [lia|done].
Qed.

End Bounded.

(** ** A checkpoint that rejects *)

Section Rejected.
Context {E : Type} (checkpoint : nat → result unit E).

Lemma write_all_rejected fuel : ∀ (w : BoundedCountingWriter) n,
  0 < n → (∀ i, (bw_calls w ≤ i)%nat → is_err (checkpoint i) = true) →
  write_all (H := bounded_write checkpoint) fuel w n = None.
Proof.
  induction fuel as [|fuel IH]; intros w n Hn Hc; cbn [write_all];
    destruct (Z.eqb_spec n 0); try lia; [done|].
  unfold write, bounded_write. pose proof (Hc (bw_calls w) ltac:(lia)) as He.
  destruct (checkpoint (bw_calls w)) as [|e]; [done|].
  apply IH; [done|]. intros i Hi. apply Hc. simpl in Hi. lia.
Qed.

End Rejected.

(** ** Properties *)

(** C33. The size of a canonical result is exact and bounded: it is the number
    of bytes the serializer writes, whatever buffers it writes them in, when
    that is at most eight mebibytes, and [TooLarge] otherwise; one [write] per
    buffer is enough. *)
Theorem canonical_result_size_exact s fuel :
  buffers_ok (buffers s) → (1 ≤ fuel)%nat →
  canonical_result_size fuel s =
  Some (if total (buffers s) <=? MAX_CANONICAL_RESULT_BYTES
        then if own_failure s then Err Serialization else Ok (total (buffers s))
        else Err TooLarge).
Proof.
  intros Hb Hf. unfold canonical_result_size, canonical_result_size_with_checkpoint, to_writer.
  pose proof (write_buffers_bounded (WW := bounded_write (λ _, Ok tt))
    (buffers s) (mkBoundedCountingWriter 0 MAX_CANONICAL_RESULT_BYTES 0 None) fuel Hb) as H.
  destruct H as (w & H); [vm_compute; split; discriminate|vm_compute; discriminate|done|].
  simpl in H. rewrite Z.add_0_l in H. destruct (_ <=? _).
  - destruct H as (-> & Hu & ->). destruct (own_failure s); simpl; [done|]. by rewrite Hu.
  - by destruct H as (-> & ->).
Qed.

(** A rejecting checkpoint does not end the count: the writer reports the
    rejection as an interrupted write, [write_all] retries such a write, and
    so, when the checkpoint goes on rejecting, the size of a result that
    writes anything is never returned, in however many steps. *)
Theorem checkpoint_rejection_hangs {E} (checkpoint : nat → result unit E) s n bufs fuel :
  buffers s = n :: bufs → 0 < n → (∀ i, is_err (checkpoint i) = true) →
  canonical_result_size_with_checkpoint checkpoint fuel s = None.
Proof.
  intros Hb Hn Hc. unfold canonical_result_size_with_checkpoint, to_writer.
  rewrite Hb. cbn [write_buffers]. by rewrite write_all_rejected.
Qed.

(** ** Witnesses *)

Lemma canonical_result_size_exact_witness :
  canonical_result_size 1 (mkSerialized [1; 0; 41] false) = Some (Ok 42).
Proof.
  apply (canonical_result_size_exact (mkSerialized [1; 0; 41] false) 1).
  - repeat (apply Forall_cons; [lia|]). apply Forall_nil.
  - lia.
Defined.

Lemma checkpoint_rejection_hangs_witness :
  canonical_result_size_with_checkpoint (λ _, Err tt) 1000 (mkSerialized [1] false) = None.
Proof.
  apply (checkpoint_rejection_hangs (λ _, Err tt) (mkSerialized [1] false) 1 [] 1000).
  - reflexivity.
  - lia.
  - reflexivity.
Defined.
