(* ===== verification/StorageCodec.v ===== *)
(** * Raw sections of a stored aggregate

    [crates/unica-execution-contract/src/storage/codec.rs]: an aggregate is
    kept as a metadata section and up to two outcome bodies.  [decode_parts]
    accepts exactly the canonical encoding of a well-formed aggregate whose
    sections are within their limits. *)

From Stdlib Require Import ZArith Lia.
From stdpp Require Import base gmap list option numbers strings.
From S2P Require Import Prelude Contract Decide ContractFacts Sample ContractProps Storage.
From S2P Require Import ResultSize.

Local Open Scope Z_scope.

(** ** The width of the closed metadata shape *)

Definition str_len (s : string) : Z := Z.of_nat (String.length s).

(** [object], with its [while] loop over the fields. *)
Fixpoint object_from (index : nat) (total : Z) (fields : list (string * Z)) : Z :=
  match fields with
  | [] => total
  | (name, width) :: fields =>
      let total := total + (str_len name + 3 + width) in
      object_from (S index) (if bool_decide (index ≠ 0%nat) then total + 1 else total) fields
  end.
Definition object (fields : list (string * Z)) : Z := object_from 0 2 fields.

Definition HASH_BYTES : Z := 2 + 32 * 3 + 31.
Definition U64_BYTES : Z := 20.
Definition UUID_BYTES : Z := 2 + 36.
Definition BOOL_BYTES : Z := 5.
Definition KIND_BYTES : Z := object [("Failed", 2 + str_len "ResumeUnsupported")].
Definition TOOL_BYTES : Z := 2 + str_len "Resolve".
Definition DESCRIPTOR_BYTES : Z :=
  object [("kind", KIND_BYTES); ("digest", HASH_BYTES); ("length", U64_BYTES)].
Definition MAX_METADATA_BYTES : Z :=
  object [
    ("key", object [("invocation", UUID_BYTES); ("task", UUID_BYTES); ("core", HASH_BYTES);
                    ("tool", TOOL_BYTES); ("arguments", HASH_BYTES); ("scope", HASH_BYTES)]);
    ("revision", U64_BYTES);
    ("accepted", object [("owner_hash", HASH_BYTES);
       ("window", object [("received_epoch_ms", U64_BYTES); ("budget_ms", U64_BYTES)])]);
    ("begun", object [
       ("run", object [("attempt", HASH_BYTES); ("generation", U64_BYTES)]);
       ("started_epoch_ms", U64_BYTES);
       ("read_authority", object [("source", HASH_BYTES); ("actor_generation", U64_BYTES);
                                  ("mutation_generation", U64_BYTES)])]);
    ("cancel_requested", BOOL_BYTES);
    ("producer", DESCRIPTOR_BYTES);
    ("producer_digest", HASH_BYTES);
    ("primary_override", DESCRIPTOR_BYTES);
    ("primary_digest", HASH_BYTES);
    ("acknowledgement", object [("digest", HASH_BYTES);
                                ("first_acknowledged_epoch_ms", U64_BYTES)]);
    ("public_task", BOOL_BYTES);
    ("compacted", BOOL_BYTES)].

(** The value the test of the source pins down. *)
Example max_metadata_bytes : MAX_METADATA_BYTES = 2303.
Proof. vm_compute. reflexivity. Qed.

(** ** Decoding *)

Inductive DecodeError := DInvalidRecord | DTooLarge.

(** The rest of [serde_json] that decoding uses: parsing metadata and writing
    a result. *)
Class StoreCodec (C : Codec) := {
  record_from_slice : bytes → option ERecord;
  result_serialized : DomainResult Value → Serialized;
}.

(** Documented behaviour: a record survives its round trip, and buffers have
    lengths. *)
Class StoreCodecLaws (C : Codec) (S : StoreCodec C) : Prop := {
  record_roundtrip : ∀ r, record_from_slice (record_to_vec r) = Some r;
  result_buffers : ∀ r, buffers_ok (buffers (result_serialized r));
}.

Section WithCodec.
Context {C : Codec} {S : StoreCodec C}.

(** The [Counter] pass over a completed result. *)
Definition count_result (result_limit : Z) (v : OutcomeValue Value) : result unit DecodeError :=
  match v with
  | CompletedValue r =>
      match to_writer 1 (mkCounter 0 result_limit false) (result_serialized r) with
      | Some (_, true) => Ok tt
      | Some (c, false) => Err (if ct_exceeded c then DTooLarge else DInvalidRecord)
      | None => Err DInvalidRecord
      end
  | _ => Ok tt
  end.

(** [outcome]. *)
Definition decode_outcome (bs : bytes) (result_limit : Z)
  : result CanonicalOutcome DecodeError :=
  match outcome_from_slice bs with
  | None => Err DInvalidRecord
  | Some v =>
      let? _ := count_result result_limit v in
      let canonical := outcome_of v in
      if bool_decide (co_bytes canonical ≠ bs) then Err DInvalidRecord
      else Ok {| co_digest := co_digest canonical; co_bytes := bs; co_kind := co_kind canonical |}
  end.

(** [serde_json::to_vec(&result).len()]. *)
Definition serialized_len (r : DomainResult Value) : Z := total (buffers (result_serialized r)).

(** [validate_descriptor_bounds]. *)
Definition is_completed (k : OutcomeKind) : bool :=
  match k with KCompleted _ => true | _ => false end.
Definition descriptor_within (bound : Z) (d : option OutcomeDescriptor) : bool :=
  match d with
  | Some d => negb (is_completed (od_kind d) && (bound <? od_length d))
  | None => true
  end.
Definition validate_descriptor_bounds (r : ERecord) (result_limit : Z)
  : result unit DecodeError :=
  let semantic_length := serialized_len (success "") in
  let wrapped_length := Z.of_nat (length (co_bytes (completed (success "")))) in
  let? bound := ok_or (u64_checked_add result_limit
                         (u64_wrapping_sub wrapped_length semantic_length)) DTooLarge in
  if descriptor_within bound (r_producer r) && descriptor_within bound (primary r)
  then Ok tt else Err DTooLarge.

(** [Option<Arc<[u8]>>::map(outcome).transpose()]. *)
Definition decode_body (body : option bytes) (result_limit : Z)
  : result (option CanonicalOutcome) DecodeError :=
  match body with
  | None => Ok None
  | Some bs => let? o := decode_outcome bs result_limit in Ok (Some o)
  end.

(** [decode_parts]. *)
Definition decode_parts (metadata : bytes) (producer override : option bytes) (result_limit : Z)
  : result StoredRecord DecodeError :=
  if MAX_METADATA_BYTES <? Z.of_nat (length metadata) then Err DTooLarge
  else match record_from_slice metadata with
  | None => Err DInvalidRecord
  | Some encoded =>
      match encoded_validate encoded with
      | Err _ => Err DInvalidRecord
      | Ok r =>
          let? _ := validate_descriptor_bounds r result_limit in
          if bool_decide (record_to_vec r ≠ metadata) then Err DInvalidRecord
          else
            let? p := decode_body producer result_limit in
            let? o := decode_body override result_limit in
            match stored_new r p o with
            | Ok stored => Ok stored
            | Err _ => Err DInvalidRecord
            end
      end
  end.

(** [validate_result_sizes]. *)
Definition validate_result_sizes (stored : StoredRecord) (result_limit : Z)
  : result unit DecodeError :=
  let? _ := validate_descriptor_bounds (sr_record stored) result_limit in
  let? _ := decode_body (co_bytes <$> sr_producer stored) result_limit in
  let? _ := decode_body (co_bytes <$> sr_primary_override stored) result_limit in
  Ok tt.

(** ** Lemmas *)

Lemma decode_outcome_Ok bs limit o :
  decode_outcome bs limit = Ok o ↔
  co_bytes o = bs ∧ outcome_valid o = true
  ∧ ∃ v, outcome_from_slice bs = Some v ∧ count_result limit v = Ok tt.
Proof.
  unfold decode_outcome, outcome_valid. split.
  - destruct (outcome_from_slice bs) as [v|] eqn:Hv; [|done].
    destruct (count_result limit v) as [[]|] eqn:Hc; [|done].
    case_bool_decide as Hb; [done|]. intros [= <-]. simpl.
    rewrite Hv. simpl. split_and!; [done| |eauto]. apply bool_decide_eq_true.
    unfold outcome_of in *. simpl in *. by rewrite Hb.
  - intros (<- & Hval & v & Hv & Hc). rewrite Hv in *. simpl in Hval. bool_prop.
    rewrite Hc, Hval. rewrite bool_decide_eq_false_2 by auto. by destruct o.
Qed.

Lemma decode_body_Ok body limit o :
  decode_body body limit = Ok o ↔
  match body, o with
  | None, None => True
  | Some bs, Some o => decode_outcome bs limit = Ok o
  | _, _ => False
  end.
Proof.
  unfold decode_body. destruct body as [bs|]; [|by destruct o].
  destruct (decode_outcome bs limit) as [o'|]; destruct o as [o|]; try done.
  split; by intros [= ->].
Qed.

(** A completed body within the limit, by the counter of the code. *)
Lemma count_result_limit limit r {LS : StoreCodecLaws C S} :
  0 ≤ limit ≤ u64_max →
  count_result limit (CompletedValue r) = Ok tt ↔
  serialized_len r ≤ limit ∧ own_failure (result_serialized r) = false.
Proof.
  intros Hl. unfold count_result, to_writer, serialized_len.
  destruct (write_buffers_bounded (buffers (result_serialized r)) (mkCounter 0 limit false) 1)
    as (c & H); [apply result_buffers|simpl; lia..|lia|].
  change (used (mkCounter 0 limit false)) with 0 in H. rewrite Z.add_0_l in H.
  change (bound (mkCounter 0 limit false)) with limit in H.
  destruct (Z.leb_spec (total (buffers (result_serialized r))) limit) as [Hle|Hgt].
  - destruct H as (-> & _ & Hs). simpl in Hs. destruct (own_failure _); simpl.
    + split; [by rewrite Hs|by intros [_ ?]].
    + done.
  - destruct H as (-> & Hs). simpl in Hs. rewrite Hs. split; [done|]. lia.
Qed.

Lemma decode_parts_Ok md pb ob limit p :
  decode_parts md pb ob limit = Ok p ↔
  Z.of_nat (length md) ≤ MAX_METADATA_BYTES
  ∧ record_from_slice md = Some (sr_record p) ∧ record_to_vec (sr_record p) = md
  ∧ validate_descriptor_bounds (sr_record p) limit = Ok tt
  ∧ decode_body pb limit = Ok (sr_producer p)
  ∧ decode_body ob limit = Ok (sr_primary_override p) ∧ stored_ok p.
Proof.
  unfold decode_parts. split.
  - destruct (Z.ltb_spec MAX_METADATA_BYTES (Z.of_nat (length md))); [done|].
    destruct (record_from_slice md) as [e|] eqn:He; [|done].
    unfold encoded_validate. destruct (validate e); [|done].
    destruct (validate_descriptor_bounds e limit) as [[]|] eqn:Hb; [|done].
    case_bool_decide as Hm; [done|].
    destruct (decode_body pb limit) as [bp|] eqn:Hp; [|done].
    destruct (decode_body ob limit) as [bo|] eqn:Ho; [|done].
    destruct (stored_new e bp bo) as [q|] eqn:Hn; [|done]. intros [= <-].
    pose proof Hn as (_ & _ & _ & ->)%stored_new_Ok. simpl. split_and!; try done.
  - intros (Hlen & He & Hm & Hb & Hp & Ho & Hok).
    destruct (Z.ltb_spec MAX_METADATA_BYTES (Z.of_nat (length md))); [lia|]. rewrite He.
    pose proof Hok as (Hv & _)%stored_new_Ok. unfold encoded_validate.
    rewrite (proj2 (validate_Ok _ tt) Hv), Hb, bool_decide_eq_false_2 by auto.
    rewrite Hp, Ho. unfold stored_ok in Hok. by rewrite Hok.
Qed.

Lemma decode_body_same body limit o :
  decode_body (co_bytes <$> body) limit = Ok o →
  (∀ b, body = Some b → outcome_valid b = true) → o = body.
Proof.
  intros Hd%decode_body_Ok Hv. destruct body as [b|], o as [o|]; simpl in Hd; try done.
  apply decode_outcome_Ok in Hd as (Hb & Hval & v & Hs & _). f_equal.
  specialize (Hv b eq_refl). unfold outcome_valid in *. rewrite Hb in Hval.
  rewrite Hs in *. simpl in *. bool_prop. congruence.
Qed.

Lemma stored_body_valid p b :
  stored_ok p → sr_producer p = Some b ∨ sr_primary_override p = Some b → outcome_valid b = true.
Proof.
  intros (_ & Hp & Ho & _)%stored_new_Ok.
  assert (Hm : ∀ d c, body_matches (Some b) d c = true → outcome_valid b = true).
  { intros [d|] [|]; simpl; try done. intros. by bool_prop. }
  intros [E|E]; rewrite E in *; eauto.
Qed.

(** ** Decoding accepts exactly the canonical encodings *)

Lemma decode_body_bytes body limit o :
  decode_body body limit = Ok o → co_bytes <$> o = body.
Proof.
  intros Hd%decode_body_Ok. destruct body as [bs|], o as [o|]; try done.
  by apply decode_outcome_Ok in Hd as (<- & _).
Qed.

(** Whatever the three sections hold, a decoded aggregate is well-formed, its
    metadata section is exactly the encoding of its record and within the
    metadata bound, its body sections are exactly the bytes of its outcomes,
    and it passes the size validation of the writer. *)
Lemma decode_parts_sound md pb ob limit p :
  decode_parts md pb ob limit = Ok p →
  stored_ok p ∧ record_to_vec (sr_record p) = md
  ∧ Z.of_nat (length md) ≤ MAX_METADATA_BYTES
  ∧ co_bytes <$> sr_producer p = pb ∧ co_bytes <$> sr_primary_override p = ob
  ∧ validate_result_sizes p limit = Ok tt.
Proof.
  intros (Hlen & _ & Hm & Hb & Hp & Ho & Hok)%decode_parts_Ok.
  pose proof (decode_body_bytes _ _ _ Hp) as Ep. pose proof (decode_body_bytes _ _ _ Ho) as Eo.
  split_and!; try done. unfold validate_result_sizes. by rewrite Hb, Ep, Eo, Hp, Ho.
Qed.

(** The sections of a well-formed aggregate that passes the size validation of
    the writer decode to the same aggregate. *)
Lemma decode_parts_roundtrip {LS : StoreCodecLaws C S} p limit :
  stored_ok p → validate_result_sizes p limit = Ok tt →
  Z.of_nat (length (record_to_vec (sr_record p))) ≤ MAX_METADATA_BYTES →
  decode_parts (record_to_vec (sr_record p)) (co_bytes <$> sr_producer p)
    (co_bytes <$> sr_primary_override p) limit = Ok p.
Proof.
  intros Hok Hv Hlen. unfold validate_result_sizes in Hv.
  destruct (validate_descriptor_bounds _ _) as [[]|] eqn:Hb; [|done].
  destruct (decode_body (co_bytes <$> sr_producer p) limit) as [bp|] eqn:Hp; [|done].
  destruct (decode_body (co_bytes <$> sr_primary_override p) limit) as [bo|] eqn:Ho; [|done].
  assert (bp = sr_producer p) as -> by (eapply decode_body_same; eauto using stored_body_valid).
  assert (bo = sr_primary_override p) as -> by (eapply decode_body_same; eauto using stored_body_valid).
  apply decode_parts_Ok. split_and!; try done. apply record_roundtrip.
Qed.

(** A validated completed body is within the result limit. *)
Lemma validated_result_size {LS : StoreCodecLaws C S} p limit o r :
  0 ≤ limit ≤ u64_max → validate_result_sizes p limit = Ok tt →
  sr_producer p = Some o ∨ sr_primary_override p = Some o →
  outcome_from_slice (co_bytes o) = Some (CompletedValue r) → serialized_len r ≤ limit.
Proof.
  intros Hl Hv Ho Hr. unfold validate_result_sizes in Hv.
  destruct (validate_descriptor_bounds _ _) as [[]|]; [|done].
  assert (Hd : ∃ x, decode_outcome (co_bytes o) limit = Ok x).
  { destruct Ho as [E|E]; rewrite E in Hv; simpl in Hv.
    - destruct (decode_outcome (co_bytes o) limit); [eauto|done].
    - destruct (decode_body (co_bytes <$> sr_producer p) limit); [|done].
      destruct (decode_outcome (co_bytes o) limit); [eauto|done]. }
  destruct Hd as (x & (_ & _ & v & Hv' & Hc)%decode_outcome_Ok). simplify_eq.
  by apply count_result_limit in Hc as [? _].
Qed.

End WithCodec.

(** ** A concrete instance, for the witnesses *)

Definition exact_from_slice (bs : list Z) : option ERecord :=
  match bs with [Z.pos p] => decode p | _ => None end.

#[export] Instance exact_store : StoreCodec exact_codec := {|
  record_from_slice := exact_from_slice;
  result_serialized _ := mkSerialized [2] false;
|}.

#[export] Instance exact_store_laws : StoreCodecLaws exact_codec exact_store.
Proof.
  split.
  - intros r. apply decode_encode.
  - intros r. repeat constructor. lia.
Qed.

#[export] Instance exact_codec_laws : CodecLaws exact_codec.
Proof. split; [by intros []|by intros []|done]. Qed.

(** The aggregate of a finished attempt. *)
Definition exact_record : ERecord :=
  record (run_events (C := exact_codec) (state_empty read_key) [ev_submit; ev_begin; ev_outcome]).2.
Definition exact_stored : StoredRecord :=
  mkStoredRecord exact_record (Some (sample_outcome true)) None.
