(* ===== verification/Frame.v ===== *)
(** * The framed aggregate of the file backend

    [crates/unica-execution/src/store/codec.rs]: one file holds a 128-byte
    header, the metadata section and the two body sections.  [prepare] lays
    the frame out, [write_to] writes it, [read_frame] reads it back.  The
    theorems: reading accepts exactly the frames that [prepare] produces for a
    well-formed aggregate, and no proper prefix of a frame is accepted. *)

From Stdlib Require Import ZArith Lia Ascii String.
From stdpp Require Import base gmap list option numbers strings.
From S2P Require Import Prelude Contract Decide ContractFacts Sample ContractProps Storage.
From S2P Require Import ResultSize StorageCodec.

Local Open Scope Z_scope.

(** ** Byte arrays *)

Definition is_byte (b : Z) : Prop := 0 ≤ b < 256.
#[export] Instance is_byte_dec b : Decision (is_byte b).
Proof. unfold is_byte. apply _. Defined.

(** [to_le_bytes] of an [n]-byte integer, and [from_le_bytes]. *)
Fixpoint to_le_bytes (n : nat) (z : Z) : bytes :=
  match n with O => [] | S n => z mod 256 :: to_le_bytes n (z / 256) end.
Fixpoint from_le_bytes (bs : bytes) : Z :=
  match bs with [] => 0 | b :: bs => b + 256 * from_le_bytes bs end.

(** A digest as the [[u8; 32]] it is. *)
Definition digest_bytes (h : hash) : bytes := reverse (to_le_bytes 32 h).

(** [&a[from..to]]. *)
Definition slice (from to : nat) (a : bytes) : bytes := take (to - from) (drop from a).
(** [a[at..at + src.len()].copy_from_slice(src)]. *)
Definition copy_at (at_ : nat) (src a : bytes) : bytes :=
  take at_ a ++ src ++ drop (at_ + length src) a.

(** ** [io::Read] and [io::Write]

    A reader delivers its bytes and then reports the end of the file, or an
    error; a writer takes as many bytes as it has room for. *)

Inductive IoError := UnexpectedEof | OtherIo (code : Z).

Record Reader := mkReader { rd_bytes : bytes; rd_error : option IoError }.

Definition read_exact (rd : Reader) (n : nat) : result (bytes * Reader) IoError :=
  if bool_decide (n ≤ length (rd_bytes rd))%nat
  then Ok (take n (rd_bytes rd), mkReader (drop n (rd_bytes rd)) (rd_error rd))
  else Err (default UnexpectedEof (rd_error rd)).

(** [read] into a buffer of one byte: the number of bytes read. *)
Definition read_one (rd : Reader) : result Z IoError :=
  match rd_bytes rd, rd_error rd with
  | _ :: _, _ => Ok 1
  | [], Some e => Err e
  | [], None => Ok 0
  end.

Record Sink := mkSink { sk_written : bytes; sk_room : option nat; }.

Definition sink_write_all (s : Sink) (bs : bytes) : Sink * result unit IoError :=
  match sk_room s with
  | None => (mkSink (sk_written s ++ bs) None, Ok tt)
  | Some room =>
      if bool_decide (length bs ≤ room)%nat
      then (mkSink (sk_written s ++ bs) (Some (room - length bs)%nat), Ok tt)
      else (mkSink (sk_written s ++ take room bs) (Some 0%nat), Err (OtherIo 0))
  end.

(** ** Frames *)

Definition MAGIC : bytes := (λ a, Z.of_N (N_of_ascii a)) <$> list_ascii_of_string "UNICAEX1".
Definition HEADER_BYTES : nat := 128.
Definition BODY_BOUND : Z := MAX_CANONICAL_RESULT_BYTES + MAX_TASK_RECORD_ENVELOPE_BYTES.
Definition METADATA_BOUND : Z := MAX_METADATA_BYTES.

Inductive CodecError := Io (e : IoError) | Invalid | TooLarge.

(** [From<io::Error>] and [From<raw::DecodeError>], which [?] applies. *)
Definition from_io {A} (r : result A IoError) : result A CodecError :=
  match r with Ok a => Ok a | Err e => Err (Io e) end.
Definition from_decode {A} (r : result A DecodeError) : result A CodecError :=
  match r with
  | Ok a => Ok a
  | Err DInvalidRecord => Err Invalid
  | Err DTooLarge => Err TooLarge
  end.

Record EncodedFrame := mkEncodedFrame {
  ef_header : bytes;
  ef_metadata : bytes;
  ef_producer : bytes;
  ef_primary_override : bytes;
}.

(** The bytes of an optional body. *)
Definition body_bytes (o : option CanonicalOutcome) : bytes := default [] (co_bytes <$> o).

(** [EncodedFrame::write_to]. *)
Definition write_to (f : EncodedFrame) (s : Sink) : Sink * result unit IoError :=
  match sink_write_all s (ef_header f) with
  | (s, Err e) => (s, Err e)
  | (s, Ok _) =>
      match sink_write_all s (ef_metadata f) with
      | (s, Err e) => (s, Err e)
      | (s, Ok _) =>
          match sink_write_all s (ef_producer f) with
          | (s, Err e) => (s, Err e)
          | (s, Ok _) => sink_write_all s (ef_primary_override f)
          end
      end
  end.

Section WithCodec.
Context {C : Codec} {ST : StoreCodec C}.

(** The header before its checksum. *)
Definition header_of (namespace : bytes) (key : Key) (metadata producer override : bytes) : bytes :=
  let total := (HEADER_BYTES + length metadata + length producer + length override)%nat in
  let header := replicate HEADER_BYTES 0 in
  let header := copy_at 0 MAGIC header in
  let header := copy_at 8 (to_le_bytes 2 1) header in
  let header := copy_at 12 (to_le_bytes 4 (Z.of_nat HEADER_BYTES)) header in
  let header := copy_at 16 namespace header in
  let header := copy_at 32 (digest_bytes (key_digest key)) header in
  foldl (λ header field, copy_at field.1 (to_le_bytes 8 (Z.of_nat field.2)) header) header
    [(64, length metadata); (72, length producer); (80, length override); (88, total)]%nat.

(** The checksum over the first 96 bytes of the header and the sections. *)
Definition checksum (header metadata producer override : bytes) : bytes :=
  digest_bytes (sha256 (slice 0 96 header ++ metadata ++ producer ++ override)).

(** [EncodedFrame::prepare]. *)
Definition prepare (stored : StoredRecord) (namespace : bytes)
  : result EncodedFrame CodecError :=
  let? _ := from_decode (validate_result_sizes stored MAX_CANONICAL_RESULT_BYTES) in
  let metadata := record_to_vec (sr_record stored) in
  let producer := body_bytes (sr_producer stored) in
  let override := body_bytes (sr_primary_override stored) in
  if (METADATA_BOUND <? Z.of_nat (length metadata))
     || (BODY_BOUND <? Z.of_nat (length producer))
     || (BODY_BOUND <? Z.of_nat (length override))
  then Err TooLarge
  else
    let header := header_of namespace (r_key (sr_record stored)) metadata producer override in
    let header := copy_at 96 (checksum header metadata producer override) header in
    Ok (mkEncodedFrame header metadata producer override).

(** [section]; [can_reserve] is the allocator. *)
Definition section (can_reserve : nat → bool) (rd : Reader) (length : nat)
  : result (bytes * Reader) CodecError :=
  if negb (can_reserve length) then Err TooLarge else from_io (read_exact rd length).

Definition body (bs : bytes) : option bytes := if bool_decide (bs = []) then None else Some bs.

(** The checks of [read_frame] on the fixed part of the header. *)
Definition header_rejected (header namespace : bytes) : bool :=
  bool_decide (slice 0 8 header ≠ MAGIC)
  || bool_decide (slice 8 10 header ≠ to_le_bytes 2 1)
  || bool_decide (slice 10 12 header ≠ [0; 0])
  || bool_decide (slice 12 16 header ≠ to_le_bytes 4 (Z.of_nat HEADER_BYTES))
  || bool_decide (slice 16 32 header ≠ namespace).

Definition header_length (header : bytes) (offset : nat) : Z :=
  from_le_bytes (slice offset (offset + 8) header).

(** [read_frame]. *)
Definition read_frame (can_reserve : nat → bool) (rd : Reader) (physical_length : Z)
  (namespace : bytes) : result StoredRecord CodecError :=
  let? (header, rd) := from_io (read_exact rd HEADER_BYTES) in
  if header_rejected header namespace then Err Invalid else
  let lengths := [header_length header 64; header_length header 72; header_length header 80] in
  let? total :=
    ok_or (foldl (λ n next, n ≫= λ n, u64_checked_add n next) (Some (Z.of_nat HEADER_BYTES)) lengths)
      Invalid in
  if negb (total =? physical_length) || negb (total =? header_length header 88)
     || (METADATA_BOUND <? header_length header 64)
     || existsb (λ n, BODY_BOUND <? n) (drop 1 lengths)
  then Err Invalid else
  let? (metadata, rd) := section can_reserve rd (Z.to_nat (header_length header 64)) in
  let? (producer, rd) := section can_reserve rd (Z.to_nat (header_length header 72)) in
  let? (override, rd) := section can_reserve rd (Z.to_nat (header_length header 80)) in
  if bool_decide (checksum header metadata producer override ≠ slice 96 HEADER_BYTES header)
  then Err Invalid else
  let? trailing := from_io (read_one rd) in
  if negb (trailing =? 0) then Err Invalid else
  let? stored := from_decode (decode_parts metadata (body producer) (body override)
                                MAX_CANONICAL_RESULT_BYTES) in
  if bool_decide (digest_bytes (key_digest (r_key (sr_record stored))) ≠ slice 32 64 header)
  then Err Invalid
  else Ok stored.

(** The bytes a frame occupies. *)
Definition frame_bytes (f : EncodedFrame) : bytes :=
  ef_header f ++ ef_metadata f ++ ef_producer f ++ ef_primary_override f.

(** ** Lemmas on byte arrays *)

Lemma to_le_bytes_length n z : length (to_le_bytes n z) = n.
Proof. revert z. induction n as [|n IH]; intros z; simpl; [done|by rewrite IH]. Qed.

Lemma from_to_le_bytes n z : 0 ≤ z < 256 ^ Z.of_nat n → from_le_bytes (to_le_bytes n z) = z.
Proof.
  revert z. induction n as [|n IH]; intros z Hz; cbn [to_le_bytes from_le_bytes].
  - rewrite Z.pow_0_r in Hz. lia.
  - rewrite Nat2Z.inj_succ, Z.pow_succ_r in Hz by lia. rewrite IH.
    + pose proof (Z.div_mod z 256). lia.
    + split; [apply Z.div_pos; lia|apply Z.div_lt_upper_bound; lia].
Qed.

Lemma to_from_le_bytes bs n :
  Forall is_byte bs → length bs = n → to_le_bytes n (from_le_bytes bs) = bs.
Proof.
  intros Hb <-. induction Hb as [|b bs Hb _ IH]; [done|]. cbn [length to_le_bytes from_le_bytes].
  unfold is_byte in Hb. f_equal.
  - rewrite Z.mul_comm, Z_mod_plus_full. by apply Z.mod_small.
  - rewrite Z.mul_comm, Z.div_add, Z.div_small, Z.add_0_l by lia. apply IH.
Qed.

Lemma from_le_bytes_nonneg bs : Forall is_byte bs → 0 ≤ from_le_bytes bs.
Proof. induction 1 as [|b bs Hb _ IH]; simpl; unfold is_byte in *; lia. Qed.

Lemma digest_bytes_length h : length (digest_bytes h) = 32%nat.
Proof. unfold digest_bytes. by rewrite length_reverse, to_le_bytes_length. Qed.

Lemma slice_length i j (a : bytes) : (j ≤ length a)%nat → length (slice i j a) = (j - i)%nat.
Proof. intros. unfold slice. rewrite length_take, length_drop. lia. Qed.

Lemma slice_lookup i j (a : bytes) k :
  slice i j a !! k = if bool_decide (k < j - i)%nat then a !! (i + k)%nat else None.
Proof.
  unfold slice. case_bool_decide.
  - by rewrite lookup_take_lt, lookup_drop.
  - apply lookup_take_ge. lia.
Qed.

Lemma slice_Forall P i j (a : bytes) : Forall P a → Forall P (slice i j a).
Proof. intros. by apply Forall_take, Forall_drop. Qed.

Lemma copy_at_length n i (src a : bytes) :
  length a = n → (i + length src ≤ n)%nat → length (copy_at i src a) = n.
Proof. intros. unfold copy_at. rewrite !length_app, length_take, length_drop. lia. Qed.

Lemma slice_copy_same n i j (src a : bytes) :
  length a = n → (j ≤ n)%nat → length src = (j - i)%nat → (i ≤ j)%nat →
  slice i j (copy_at i src a) = src.
Proof.
  intros Ha Hn Hs Hij. unfold slice, copy_at.
  rewrite drop_app_length', take_app_length'; [done|done|]. rewrite length_take. lia.
Qed.

Lemma slice_copy_before n i j k (src a : bytes) :
  length a = n → (k + length src ≤ n)%nat → (j ≤ k)%nat →
  slice i j (copy_at k src a) = slice i j a.
Proof.
  intros Ha Hn Hd. apply list_eq. intros m. rewrite !slice_lookup. case_bool_decide; [|done].
  unfold copy_at. rewrite lookup_app_l by (rewrite length_take; lia). apply lookup_take_lt. lia.
Qed.

Lemma slice_copy_after n i j k (src a : bytes) :
  length a = n → (k + length src ≤ n)%nat → (k + length src ≤ i)%nat →
  slice i j (copy_at k src a) = slice i j a.
Proof.
  intros Ha Hn Hd. apply list_eq. intros m. rewrite !slice_lookup. case_bool_decide; [|done].
  unfold copy_at. rewrite app_assoc, lookup_app_r; rewrite !length_app, !length_take.
  - rewrite lookup_drop. f_equal. lia.
  - lia.
Qed.

(** An array is its head and the slices up to successive offsets. *)
Lemma slice_split i j k (a : bytes) :
  (i ≤ j)%nat → (j ≤ k)%nat → slice i k a = slice i j a ++ slice j k a.
Proof.
  intros Hij Hjk. unfold slice. replace (k - i)%nat with ((j - i) + (k - j))%nat by lia.
  rewrite <- take_take_drop, drop_drop. by replace (i + (j - i))%nat with j by lia.
Qed.

Lemma slice_all (a : bytes) n : length a = n → slice 0 n a = a.
Proof. intros <-. unfold slice. rewrite drop_0, Nat.sub_0_r. apply firstn_all. Qed.

Lemma MAGIC_length : length MAGIC = 8%nat.
Proof. reflexivity. Qed.

(** Compute the length, or a slice, of an array written field by field. *)
Ltac field_length :=
  rewrite ?to_le_bytes_length, ?digest_bytes_length, ?MAGIC_length; lia.
Ltac array_length :=
  repeat (apply copy_at_length; [|field_length]); apply length_replicate.
Ltac array_slice :=
  repeat first
    [ rewrite (slice_copy_same 128); [|array_length|field_length..]
    | rewrite (slice_copy_before 128); [|array_length|field_length..]
    | rewrite (slice_copy_after 128); [|array_length|field_length..] ].

(** ** The layout of a header *)

(** A header with the given fields. *)
Definition header_fields (namespace digest : bytes) (m p o t : Z) (check header : bytes) : Prop :=
  length header = HEADER_BYTES
  ∧ slice 0 8 header = MAGIC ∧ slice 8 10 header = to_le_bytes 2 1 ∧ slice 10 12 header = [0; 0]
  ∧ slice 12 16 header = to_le_bytes 4 (Z.of_nat HEADER_BYTES) ∧ slice 16 32 header = namespace
  ∧ slice 32 64 header = digest ∧ slice 64 72 header = to_le_bytes 8 m
  ∧ slice 72 80 header = to_le_bytes 8 p ∧ slice 80 88 header = to_le_bytes 8 o
  ∧ slice 88 96 header = to_le_bytes 8 t ∧ slice 96 128 header = check.

(** The fields before the checksum determine the bytes it covers. *)
Lemma header_fields_covered ns d m p o t c1 c2 h1 h2 :
  header_fields ns d m p o t c1 h1 → header_fields ns d m p o t c2 h2 →
  slice 0 96 h1 = slice 0 96 h2.
Proof.
  assert (Hsplit : ∀ h : bytes, slice 0 96 h =
    slice 0 8 h ++ slice 8 10 h ++ slice 10 12 h ++ slice 12 16 h ++ slice 16 32 h
    ++ slice 32 64 h ++ slice 64 72 h ++ slice 72 80 h ++ slice 80 88 h ++ slice 88 96 h).
  { intros h. by rewrite <- !slice_split by lia. }
  intros (_ & ? & ? & ? & ? & ? & ? & ? & ? & ? & ? & _)
         (_ & ? & ? & ? & ? & ? & ? & ? & ? & ? & ? & _).
  rewrite (Hsplit h1), (Hsplit h2). congruence.
Qed.

Lemma header_fields_unique ns d m p o t c h1 h2 :
  header_fields ns d m p o t c h1 → header_fields ns d m p o t c h2 → h1 = h2.
Proof.
  intros H1 H2. pose proof (header_fields_covered _ _ _ _ _ _ _ _ _ _ H1 H2) as Hc.
  destruct H1 as (L1 & _ & _ & _ & _ & _ & _ & _ & _ & _ & _ & E1),
    H2 as (L2 & _ & _ & _ & _ & _ & _ & _ & _ & _ & _ & E2).
  rewrite <- (slice_all h1 128 L1), <- (slice_all h2 128 L2).
  rewrite !(slice_split 0 96 128) by lia. congruence.
Qed.

Lemma header_of_fields ns key md pr ov check :
  length ns = 16%nat → length check = 32%nat →
  header_fields ns (digest_bytes (key_digest key)) (Z.of_nat (length md)) (Z.of_nat (length pr))
    (Z.of_nat (length ov))
    (Z.of_nat (HEADER_BYTES + length md + length pr + length ov)) check
    (copy_at 96 check (header_of ns key md pr ov)).
Proof.
  intros Hns Hc. unfold header_fields, header_of. cbn [foldl fst snd].
  generalize (Z.of_nat (HEADER_BYTES + length md + length pr + length ov)).
  generalize (Z.of_nat (length md)) (Z.of_nat (length pr)) (Z.of_nat (length ov)).
  intros a b c t. unfold HEADER_BYTES in *. split; [array_length|].
  split_and!; array_slice; reflexivity.
Qed.

(** ** Reading *)

Lemma read_exact_Ok rd n a rd' :
  read_exact rd n = Ok (a, rd') ↔
  rd_bytes rd = a ++ rd_bytes rd' ∧ length a = n ∧ rd_error rd' = rd_error rd.
Proof.
  unfold read_exact. destruct rd as [bs e], rd' as [bs' e']. simpl. case_bool_decide as Hn.
  - split.
    + intros [= <- <- <-]. rewrite take_drop, length_take. split_and!; [done|lia|done].
    + intros (-> & <- & ->). by rewrite take_app_length, drop_app_length.
  - split; [done|]. intros (-> & <- & _). rewrite length_app in Hn. lia.
Qed.

Lemma read_one_end rd : read_one rd = Ok 0 ↔ rd_bytes rd = [] ∧ rd_error rd = None.
Proof. unfold read_one. destruct (rd_bytes rd), (rd_error rd); naive_solver. Qed.

Lemma section_Ok cr rd n a rd' :
  section cr rd n = Ok (a, rd') ↔
  cr n = true ∧ rd_bytes rd = a ++ rd_bytes rd' ∧ length a = n ∧ rd_error rd' = rd_error rd.
Proof.
  unfold section. rewrite <- read_exact_Ok. destruct (cr n); simpl; [|naive_solver].
  unfold from_io. destruct (read_exact rd n); naive_solver.
Qed.

Lemma body_Some bs o : co_bytes <$> o = body bs → bs = body_bytes o.
Proof.
  unfold body, body_bytes. case_bool_decide; destruct o; simpl; try done. by intros [= ->].
Qed.

Lemma body_body_bytes {L : CodecLaws C} o :
  (∀ b, o = Some b → outcome_valid b = true) → body (body_bytes o) = co_bytes <$> o.
Proof.
  intros Hv. destruct o as [o|]; [|done]. unfold body, body_bytes. simpl.
  case_bool_decide as Hb; [|done]. specialize (Hv o eq_refl). unfold outcome_valid in Hv.
  apply is_some_and_true in Hv as (v & _ & Ho). bool_prop. subst o. simpl in Hb.
  by apply outcome_to_vec_nonempty in Hb.
Qed.

(** What an accepted frame is made of. *)
Record accepted_frame (cr : nat → bool) (rd : Reader) (physical_length : Z) (ns : bytes)
  (p : StoredRecord) (h md pr ov : bytes) : Prop := {
  af_bytes : rd_bytes rd = h ++ md ++ pr ++ ov;
  af_end : rd_error rd = None;
  af_header : length h = HEADER_BYTES;
  af_fixed : header_rejected h ns = false;
  af_physical : physical_length
    = Z.of_nat HEADER_BYTES + header_length h 64 + header_length h 72 + header_length h 80;
  af_u64 : physical_length ≤ u64_max;
  af_total : header_length h 88 = physical_length;
  af_bounds : header_length h 64 ≤ METADATA_BOUND ∧ header_length h 72 ≤ BODY_BOUND
              ∧ header_length h 80 ≤ BODY_BOUND;
  af_lengths : length md = Z.to_nat (header_length h 64) ∧ length pr = Z.to_nat (header_length h 72)
               ∧ length ov = Z.to_nat (header_length h 80);
  af_reserve : cr (length md) = true ∧ cr (length pr) = true ∧ cr (length ov) = true;
  af_checksum : checksum h md pr ov = slice 96 HEADER_BYTES h;
  af_decode : decode_parts md (body pr) (body ov) MAX_CANONICAL_RESULT_BYTES = Ok p;
  af_key : digest_bytes (key_digest (r_key (sr_record p))) = slice 32 64 h;
}.

Lemma read_frame_accepted cr rd len ns p :
  read_frame cr rd len ns = Ok p → ∃ h md pr ov, accepted_frame cr rd len ns p h md pr ov.
Proof.
  unfold read_frame, from_io. intros H.
  destruct (read_exact rd HEADER_BYTES) as [[h rd1]|] eqn:Hh; [|done].
  apply read_exact_Ok in Hh as (E1 & Lh & Er1). cbn [foldl mbind option_bind drop existsb] in H.
  destruct (header_rejected h ns) eqn:Hrej; [done|].
  destruct (u64_checked_add (Z.of_nat HEADER_BYTES) (header_length h 64)) as [t1|] eqn:T1;
    cbn [mbind option_bind ok_or] in H; [|done].
  destruct (u64_checked_add t1 (header_length h 72)) as [t2|] eqn:T2;
    cbn [mbind option_bind ok_or] in H; [|done].
  destruct (u64_checked_add t2 (header_length h 80)) as [t3|] eqn:T3; cbn [ok_or] in H; [|done].
  apply u64_checked_add_Some in T1 as [-> _], T2 as [-> _], T3 as [-> Hu].
  destruct (negb _ || _ || _ || _) eqn:Hchk in H; [done|].
  rewrite orb_false_r in Hchk. bool_prop.
  repeat match goal with H : (_ =? _) = true |- _ => apply Z.eqb_eq in H end.
  destruct (section cr rd1 _) as [[md rd2]|] eqn:S1 in H; [|done].
  destruct (section cr rd2 _) as [[pr rd3]|] eqn:S2 in H; [|done].
  destruct (section cr rd3 _) as [[ov rd4]|] eqn:S3 in H; [|done].
  apply section_Ok in S1 as (C1 & E2 & L2 & Er2), S2 as (C2 & E3 & L3 & Er3), S3 as (C3 & E4 & L4 & Er4).
  case_bool_decide as Hck; [done|].
  destruct (read_one rd4) as [n|] eqn:Hone; [|done].
  destruct (Z.eqb_spec n 0) as [->|]; [|done]. apply read_one_end in Hone as [E5 Er5].
  cbn [negb] in H. unfold from_decode in H.
  destruct (decode_parts md (body pr) (body ov) _) as [q|[]] eqn:Hd; [|done..].
  case_bool_decide as Hkey; [done|]. simplify_eq.
  exists h, md, pr, ov. split; try done.
  - rewrite E1, E2, E3, E4, E5, app_nil_r. done.
  - congruence.
  - split_and!; congruence.
Qed.

Lemma accepted_read_frame cr rd len ns p h md pr ov :
  accepted_frame cr rd len ns p h md pr ov →
  0 ≤ header_length h 64 ∧ 0 ≤ header_length h 72 ∧ 0 ≤ header_length h 80 →
  read_frame cr rd len ns = Ok p.
Proof.
  intros [Eb Er Lh Hrej Hp Hu Ht (B1 & B2 & B3) (L1 & L2 & L3) (C1 & C2 & C3) Hck Hd Hk] (N1 & N2 & N3).
  unfold read_frame, from_io.
  rewrite (proj2 (read_exact_Ok rd HEADER_BYTES h (mkReader (md ++ pr ++ ov) None))) by done.
  rewrite Hrej. cbn [foldl mbind option_bind drop existsb].
  rewrite (proj2 (u64_checked_add_Some _ (header_length h 64) _)) by (split; [done|lia]).
  cbn [mbind option_bind].
  rewrite (proj2 (u64_checked_add_Some _ (header_length h 72) _)) by (split; [done|lia]).
  cbn [mbind option_bind].
  rewrite (proj2 (u64_checked_add_Some _ (header_length h 80) _)) by (split; [done|lia]).
  cbn [ok_or]. rewrite Ht, !Z.eqb_refl.
  rewrite !(proj2 (Z.ltb_ge _ _)) by done. cbn [negb orb].
  rewrite <- L1, <- L2, <- L3.
  rewrite (proj2 (section_Ok cr _ (length md) md (mkReader (pr ++ ov) None))) by done.
  rewrite (proj2 (section_Ok cr _ (length pr) pr (mkReader ov None))) by done.
  rewrite (proj2 (section_Ok cr _ (length ov) ov (mkReader [] None))) by (by rewrite app_nil_r).
  rewrite bool_decide_eq_false_2 by (intros Hn; apply Hn, Hck). cbn.
  rewrite Hd. cbn. by rewrite bool_decide_eq_false_2 by (intros Hn; apply Hn, Hk).
Qed.

Lemma accepted_layout cr rd len ns p h md pr ov :
  accepted_frame cr rd len ns p h md pr ov → Forall is_byte h →
  header_fields ns (digest_bytes (key_digest (r_key (sr_record p)))) (Z.of_nat (length md))
    (Z.of_nat (length pr)) (Z.of_nat (length ov))
    (Z.of_nat (HEADER_BYTES + length md + length pr + length ov)) (checksum h md pr ov) h.
Proof.
  intros [_ _ Lh Hrej Hp _ Ht _ (L1 & L2 & L3) _ Hck _ Hk] Hb.
  assert (Hfield : ∀ i, (i + 8 ≤ 128)%nat → 0 ≤ header_length h i
    ∧ slice i (i + 8) h = to_le_bytes 8 (header_length h i)).
  { intros i Hi. assert (Hs := slice_Forall is_byte i (i + 8) h Hb). unfold header_length. split.
    - by apply from_le_bytes_nonneg.
    - rewrite to_from_le_bytes; [done..|]. rewrite slice_length; [lia|]. unfold HEADER_BYTES in *. lia. }
  unfold header_rejected in Hrej. bool_prop.
  destruct (Hfield 64%nat) as [N1 F1], (Hfield 72%nat) as [N2 F2], (Hfield 80%nat) as [N3 F3],
    (Hfield 88%nat) as [_ F4]; [lia..|].
  unfold header_fields. rewrite L1, L2, L3, !Nat2Z.inj_add, !Z2Nat.id, <- Hp, <- Ht by done.
  split_and!; done.
Qed.

Lemma prepare_Ok p ns f :
  prepare p ns = Ok f ↔
  validate_result_sizes p MAX_CANONICAL_RESULT_BYTES = Ok tt
  ∧ Z.of_nat (length (ef_metadata f)) ≤ METADATA_BOUND
  ∧ Z.of_nat (length (ef_producer f)) ≤ BODY_BOUND
  ∧ Z.of_nat (length (ef_primary_override f)) ≤ BODY_BOUND
  ∧ ef_metadata f = record_to_vec (sr_record p)
  ∧ ef_producer f = body_bytes (sr_producer p)
  ∧ ef_primary_override f = body_bytes (sr_primary_override p)
  ∧ let header := header_of ns (r_key (sr_record p)) (ef_metadata f) (ef_producer f)
                    (ef_primary_override f) in
    ef_header f = copy_at 96 (checksum header (ef_metadata f) (ef_producer f)
                                (ef_primary_override f)) header.
Proof.
  unfold prepare. destruct (validate_result_sizes _ _) as [[]|[]]; cbn [from_decode]; [|naive_solver..].
  destruct (_ || _) eqn:Hb.
  - split; [done|]. intros (_ & B1 & B2 & B3 & E1 & E2 & E3 & _). exfalso.
    rewrite E1 in B1. rewrite E2 in B2. rewrite E3 in B3.
    rewrite !(proj2 (Z.ltb_ge _ _)) in Hb by done. done.
  - bool_prop. split.
    + intros [= <-]. cbn [ef_header ef_metadata ef_producer ef_primary_override]. tauto.
    + destruct f as [h md pr ov]. cbn [ef_header ef_metadata ef_producer ef_primary_override].
      intros (_ & _ & _ & _ & -> & -> & -> & ->). reflexivity.
Qed.

(** The checksum covers only the part of the header written before it. *)
Lemma checksum_copy h md pr ov c :
  length h = HEADER_BYTES → length c = 32%nat →
  checksum (copy_at 96 c h) md pr ov = checksum h md pr ov.
Proof.
  intros Hh Hc. unfold checksum.
  rewrite (slice_copy_before HEADER_BYTES); unfold HEADER_BYTES; [done|done|lia..].
Qed.

Lemma header_of_length ns key md pr ov :
  length ns = 16%nat → length (header_of ns key md pr ov) = HEADER_BYTES.
Proof. intros. unfold header_of, HEADER_BYTES. cbn [foldl fst snd]. array_length. Qed.

(** A prepared header has its fields, and its checksum is over itself. *)
Lemma prepare_layout p ns f :
  prepare p ns = Ok f → length ns = 16%nat →
  header_fields ns (digest_bytes (key_digest (r_key (sr_record p))))
    (Z.of_nat (length (ef_metadata f))) (Z.of_nat (length (ef_producer f)))
    (Z.of_nat (length (ef_primary_override f)))
    (Z.of_nat (HEADER_BYTES + length (ef_metadata f) + length (ef_producer f)
               + length (ef_primary_override f)))
    (checksum (ef_header f) (ef_metadata f) (ef_producer f) (ef_primary_override f))
    (ef_header f).
Proof.
  intros (_ & _ & _ & _ & _ & _ & _ & Hh)%prepare_Ok Hns. cbn zeta in Hh.
  rewrite Hh at 1. rewrite checksum_copy;
    [|by apply header_of_length|apply digest_bytes_length].
  rewrite Hh. apply header_of_fields; [done|apply digest_bytes_length].
Qed.

Lemma prepare_lengths p ns f :
  prepare p ns = Ok f → length ns = 16%nat →
  header_length (ef_header f) 64 = Z.of_nat (length (ef_metadata f))
  ∧ header_length (ef_header f) 72 = Z.of_nat (length (ef_producer f))
  ∧ header_length (ef_header f) 80 = Z.of_nat (length (ef_primary_override f))
  ∧ header_length (ef_header f) 88
    = Z.of_nat (HEADER_BYTES + length (ef_metadata f) + length (ef_producer f)
                + length (ef_primary_override f))
  ∧ Z.of_nat (length (frame_bytes f)) ≤ u64_max.
Proof.
  intros Hp Hns. pose proof (prepare_layout p ns f Hp Hns)
    as (Lh & _ & _ & _ & _ & _ & _ & F1 & F2 & F3 & F4 & _).
  apply prepare_Ok in Hp as (_ & B1 & B2 & B3 & _).
  assert (METADATA_BOUND = 2303) as EM by reflexivity.
  assert (BODY_BOUND = 8454144) as EB by reflexivity.
  assert (256 ^ Z.of_nat 8 = u64_max + 1) as EP by reflexivity.
  assert (u64_max = 18446744073709551615) as EU by reflexivity.
  unfold header_length, frame_bytes, HEADER_BYTES in *. cbn [Nat.add] in *.
  rewrite F1, F2, F3, F4, !length_app, Lh, !from_to_le_bytes by lia. split_and!; lia.
Qed.

Lemma prepare_accepted {L : CodecLaws C} {LS : StoreCodecLaws C ST} cr p ns f :
  stored_ok p → length ns = 16%nat → prepare p ns = Ok f →
  (∀ n, Z.of_nat n ≤ BODY_BOUND → cr n = true) →
  accepted_frame cr (mkReader (frame_bytes f) None) (Z.of_nat (length (frame_bytes f))) ns p
    (ef_header f) (ef_metadata f) (ef_producer f) (ef_primary_override f).
Proof.
  intros Hok Hns Hp Hcr.
  pose proof (prepare_lengths p ns f Hp Hns) as (F1 & F2 & F3 & F4 & Hu).
  pose proof (prepare_layout p ns f Hp Hns) as (Lh & H1 & H2 & H3 & H4 & H5 & Hd & _ & _ & _ & _ & Hc).
  apply prepare_Ok in Hp as (Hv & B1 & B2 & B3 & E1 & E2 & E3 & _).
  assert (METADATA_BOUND ≤ BODY_BOUND) by (vm_compute; discriminate).
  assert (Hlen : Z.of_nat (length (frame_bytes f))
    = Z.of_nat (HEADER_BYTES + length (ef_metadata f) + length (ef_producer f)
                + length (ef_primary_override f))).
  { unfold frame_bytes. rewrite !length_app, Lh. f_equal. lia. }
  split; try done.
  - unfold header_rejected. rewrite H1, H2, H3, H4, H5. by rewrite !bool_decide_eq_false_2 by auto.
  - rewrite F1, F2, F3, Hlen. lia.
  - by rewrite F4, Hlen.
  - by rewrite F1, F2, F3.
  - by rewrite F1, F2, F3, !Nat2Z.id.
  - split_and!; apply Hcr; lia.
  - rewrite E1, E2, E3, !body_body_bytes; eauto using stored_body_valid.
    apply decode_parts_roundtrip; [done..|]. by rewrite <- E1.
Qed.

(** ** Writing *)

Lemma sink_write_step n t bs :
  (length t ≤ n)%nat →
  sink_write_all (mkSink t (Some (n - length t)%nat)) bs
  = (mkSink (take n (t ++ bs)) (Some (n - length (t ++ bs))%nat),
     if bool_decide (length (t ++ bs) ≤ n)%nat then Ok tt else Err (OtherIo 0)).
Proof.
  intros Ht. unfold sink_write_all. cbn [sk_room sk_written].
  rewrite take_app, (take_ge t), length_app by done. repeat case_bool_decide; try lia.
  - rewrite take_ge by lia. do 3 f_equal. lia.
  - do 3 f_equal. lia.
Qed.

(** A writer with room for [n] bytes is left with the first [n] of the frame. *)
Lemma write_to_room f n :
  (write_to f (mkSink [] (Some n))).1.(sk_written) = take n (frame_bytes f)
  ∧ ((write_to f (mkSink [] (Some n))).2 = Ok tt ↔ (length (frame_bytes f) ≤ n)%nat).
Proof.
  unfold write_to, frame_bytes. destruct f as [h md pr ov].
  cbn [ef_header ef_metadata ef_producer ef_primary_override].
  pose proof (sink_write_step n [] h) as H0. cbn [length app] in H0. rewrite Nat.sub_0_r in H0.
  rewrite H0 by lia. clear H0. case_bool_decide.
  2: { cbn [fst snd sk_written]. rewrite (take_app_le h) by lia.
       split; [done|]. split; [done|]. rewrite !length_app in *. lia. }
  rewrite take_ge, (sink_write_step n h md) by done. case_bool_decide.
  2: { cbn [fst snd sk_written]. rewrite (app_assoc h md), (take_app_le (h ++ md)) by lia.
       split; [done|]. split; [done|]. rewrite !length_app in *. lia. }
  rewrite take_ge, (sink_write_step n (h ++ md) pr) by done. case_bool_decide.
  2: { cbn [fst snd sk_written]. rewrite (app_assoc h md), (app_assoc (h ++ md) pr), (take_app_le ((h ++ md) ++ pr)) by lia.
       split; [done|]. split; [done|]. rewrite !length_app in *. lia. }
  rewrite take_ge, (sink_write_step n ((h ++ md) ++ pr) ov) by done.
  cbn [fst snd sk_written]. rewrite !app_assoc. split; [done|].
  case_bool_decide; split; try done; lia.
Qed.

(** No proper prefix of a frame is accepted, whatever length is claimed. *)
Lemma torn_frame_rejected cr e len p q ns f n :
  length ns = 16%nat → prepare p ns = Ok f → (n < length (frame_bytes f))%nat →
  read_frame cr (mkReader (take n (frame_bytes f)) e) len ns ≠ Ok q.
Proof.
  intros Hns Hp Hn (h & md & pr & ov & Ha)%read_frame_accepted.
  destruct Ha as [Eb _ Lh _ _ _ _ _ (L1 & L2 & L3) _ _ _ _].
  pose proof (prepare_lengths p ns f Hp Hns) as (F1 & F2 & F3 & _).
  pose proof (prepare_layout p ns f Hp Hns) as (Lf & _). cbn [rd_bytes] in Eb.
  assert (Hn' : length (take n (frame_bytes f)) = n) by (rewrite length_take; lia).
  assert (h = ef_header f) as ->.
  { assert (Hh : take HEADER_BYTES (take n (frame_bytes f)) = h).
    { rewrite Eb, <- Lh. apply take_app_length. }
    rewrite <- Hh, take_take, Nat.min_l.
    - unfold frame_bytes. rewrite <- Lf. by rewrite take_app_length.
    - rewrite <- Hn', Eb, length_app. lia. }
  rewrite Eb, !length_app in Hn'. unfold frame_bytes in Hn. rewrite !length_app in Hn. lia.
Qed.

(** ** Properties *)

(** C34. What the file backend writes it reads back, and only when the write
    finished: a prepared frame of a well-formed aggregate, written completely,
    is read back as the same aggregate; a write that runs out of room leaves a
    prefix that no reader accepts, whatever length the file reports. *)
Theorem frame_durable {L : CodecLaws C} {LS : StoreCodecLaws C ST} cr p ns f :
  stored_ok p → length ns = 16%nat → prepare p ns = Ok f →
  (∀ n, Z.of_nat n ≤ BODY_BOUND → cr n = true) →
  (let bs := frame_bytes f in
   read_frame cr (mkReader bs None) (Z.of_nat (length bs)) ns = Ok p)
  ∧ ∀ room,
      let '(s, outcome) := write_to f (mkSink [] (Some room)) in
      (outcome = Ok tt → sk_written s = frame_bytes f)
      ∧ (outcome ≠ Ok tt →
           ∀ cr' e len q, read_frame cr' (mkReader (sk_written s) e) len ns ≠ Ok q).
Proof.
  intros Hok Hns Hp Hcr. split.
  - pose proof (prepare_accepted cr p ns f Hok Hns Hp Hcr) as Ha.
    apply (accepted_read_frame _ _ _ _ _ _ _ _ _ Ha).
    destruct (prepare_lengths p ns f Hp Hns) as (-> & -> & -> & _). lia.
  - intros room. pose proof (write_to_room f room) as [Hw Ho].
    destruct (write_to f _) as [s o]. cbn [fst snd] in Hw, Ho. rewrite Hw. split.
    + intros Hroom%Ho. by apply take_ge.
    + intros Hroom cr' e len q. eapply torn_frame_rejected; [done..|].
      destruct (decide (room < length (frame_bytes f))%nat) as [|Hge]; [done|].
      destruct Hroom. apply Ho. lia.
Qed.

(** C35. The frame format is canonical: bytes that [read_frame] accepts are,
    byte for byte, the frame that [prepare] produces for the aggregate it
    returns, in the same namespace; the file ends there, and its length is the
    one reported.  So a frame of another namespace, with a changed length,
    checksum or reserved byte, or with trailing bytes is never accepted. *)
Theorem frame_canonical cr bs e len ns p :
  Forall is_byte (take HEADER_BYTES bs) →
  read_frame cr (mkReader bs e) len ns = Ok p →
  stored_ok p ∧ e = None ∧ len = Z.of_nat (length bs)
  ∧ ∃ f, prepare p ns = Ok f ∧ bs = frame_bytes f.
Proof.
  intros Hbytes (h & md & pr & ov & Ha)%read_frame_accepted.
  pose proof Ha as [Eb Er Lh Hrej Hl _ Ht (B1 & B2 & B3) (L1 & L2 & L3) _ Hck Hd Hk].
  cbn [rd_bytes rd_error] in Eb, Er. subst bs e.
  rewrite <- Lh, take_app_length in Hbytes.
  pose proof (accepted_layout _ _ _ _ _ _ _ _ _ Ha Hbytes) as Hfields.
  apply decode_parts_sound in Hd as (Hok & Em & Bm & Ep & Eo & Hv).
  apply body_Some in Ep, Eo.
  assert (Hns : length ns = 16%nat).
  { destruct Hfields as (_ & _ & _ & _ & _ & <- & _). rewrite slice_length; unfold HEADER_BYTES in *; lia. }
  assert (Hprep : prepare p ns = Ok (mkEncodedFrame
    (copy_at 96 (checksum (header_of ns (r_key (sr_record p)) md pr ov) md pr ov)
       (header_of ns (r_key (sr_record p)) md pr ov)) md pr ov)).
  { apply prepare_Ok. cbn [ef_header ef_metadata ef_producer ef_primary_override].
    assert (0 ≤ METADATA_BOUND ∧ 0 ≤ BODY_BOUND) by (split; vm_compute; discriminate).
    split_and!; try done; lia. }
  pose proof (prepare_layout _ _ _ Hprep Hns) as Hf2. cbn [ef_header ef_metadata ef_producer ef_primary_override] in Hf2.
  assert (Hnn : ∀ i, 0 ≤ header_length h i).
  { intros i. by apply from_le_bytes_nonneg, slice_Forall. }
  pose proof (Hnn 64%nat). pose proof (Hnn 72%nat). pose proof (Hnn 80%nat).
  split_and!; [done|done|rewrite !length_app, Lh; lia|].
  eexists. split; [done|]. unfold frame_bytes.
  cbn [ef_header ef_metadata ef_producer ef_primary_override]. f_equal.
  pose proof (header_fields_covered _ _ _ _ _ _ _ _ _ _ Hfields Hf2) as Hcov.
  eapply header_fields_unique; [done|]. unfold checksum at 1. rewrite Hcov. done.
Qed.

End WithCodec.

(** ** Witnesses *)

Definition sample_namespace : bytes := replicate 16 7.
Definition exact_frame : EncodedFrame :=
  match prepare (C := exact_codec) exact_stored sample_namespace with
  | Ok f => f
  | Err _ => mkEncodedFrame [] [] [] []
  end.

Lemma exact_frame_prepared : prepare (C := exact_codec) exact_stored sample_namespace = Ok exact_frame.
Proof. vm_compute. reflexivity. Qed.
Lemma exact_stored_ok : stored_ok (C := exact_codec) exact_stored.
Proof. vm_compute. reflexivity. Qed.

Lemma exact_frame_reads :
  read_frame (C := exact_codec) (λ _, true) (mkReader (frame_bytes exact_frame) None)
    (Z.of_nat (length (frame_bytes exact_frame))) sample_namespace = Ok exact_stored.
Proof.
  apply (accepted_read_frame (C := exact_codec) _ _ _ _ _ _ _ _ _
    (prepare_accepted (C := exact_codec) (λ _, true) exact_stored sample_namespace exact_frame
       exact_stored_ok eq_refl exact_frame_prepared (λ _ _, eq_refl))).
  destruct (prepare_lengths (C := exact_codec) exact_stored sample_namespace exact_frame
    exact_frame_prepared eq_refl) as (-> & -> & -> & _). lia.
Qed.

Lemma frame_durable_witness :
  read_frame (C := exact_codec) (λ _, true) (mkReader (frame_bytes exact_frame) None)
    (Z.of_nat (length (frame_bytes exact_frame))) sample_namespace = Ok exact_stored.
Proof.
  refine (proj1 (frame_durable (C := exact_codec) (λ _, true) exact_stored sample_namespace
                   exact_frame _ _ _ _)).
  - exact exact_stored_ok.
  - reflexivity.
  - exact exact_frame_prepared.
  - reflexivity.
Defined.

Lemma frame_canonical_witness :
  ∃ f, prepare (C := exact_codec) exact_stored sample_namespace = Ok f
       ∧ frame_bytes exact_frame = frame_bytes f.
Proof.
  refine (proj2 (proj2 (proj2 (frame_canonical (C := exact_codec) (λ _, true)
    (frame_bytes exact_frame) None (Z.of_nat (length (frame_bytes exact_frame)))
    sample_namespace exact_stored _ _)))).
  - apply (bool_decide_eq_true_1 _). vm_compute. reflexivity.
  - exact exact_frame_reads.
Defined.
