(* ===== verification/SharedWork.v ===== *)
(** * Exact-key shared work

    [crates/unica-work-control/src/shared_work.rs]: callers that ask for the
    same key share one producer.  The model interleaves the critical sections
    of the source: one [Action] is what a thread does while it holds a lock
    (or between two locks), [act] its effect.  Strong references ([Arc]) are
    the threads that hold one; the registry keeps weak references, so an entry
    no thread refers to cannot be upgraded. *)

From Stdlib Require Import ZArith Lia.
From stdpp Require Import base gmap list option numbers.
From S2P Require Import Prelude.

Inductive SharedWorkLifetime := OwnerBound | ProducerBound.
#[export] Instance SharedWorkLifetime_eq_dec : EqDecision SharedWorkLifetime.
Proof. solve_decision. Defined.

Record SharedWorkProgress := mkSharedWorkProgress { completed : Z; total : option Z }.

Section SharedWork.
Context {K : Type} `{Countable K} {R E : Type}.

(** [SharedWorkError], with [Result]. *)
Inductive SharedWorkError :=
| Producer (e : E)
| ProducerPanicked
| ProducerSpawnFailed.

Definition Outcome : Type := result R SharedWorkError.

(** [SharedWorkState]: [None] is [Running]. *)
Record SharedWorkEntry := mkSharedWorkEntry {
  se_key : K;
  se_owners : nat;
  se_cancellation_requested : bool;
  se_cancelled : bool;
  se_progress : SharedWorkProgress;
  se_state : option Outcome;
}.

(** [SharedWorkEntry::new]. *)
Definition entry_new (k : K) : SharedWorkEntry :=
  mkSharedWorkEntry k 1 false false (mkSharedWorkProgress 0 None) None.

Definition set_owners (n : nat) (en : SharedWorkEntry) : SharedWorkEntry :=
  mkSharedWorkEntry (se_key en) n (se_cancellation_requested en) (se_cancelled en)
    (se_progress en) (se_state en).
Definition set_requested (en : SharedWorkEntry) : SharedWorkEntry :=
  mkSharedWorkEntry (se_key en) (se_owners en) true (se_cancelled en)
    (se_progress en) (se_state en).
Definition set_cancelled (en : SharedWorkEntry) : SharedWorkEntry :=
  mkSharedWorkEntry (se_key en) (se_owners en) (se_cancellation_requested en) true
    (se_progress en) (se_state en).
Definition set_progress (p : SharedWorkProgress) (en : SharedWorkEntry) : SharedWorkEntry :=
  mkSharedWorkEntry (se_key en) (se_owners en) (se_cancellation_requested en) (se_cancelled en)
    p (se_state en).
Definition set_state (o : Outcome) (en : SharedWorkEntry) : SharedWorkEntry :=
  mkSharedWorkEntry (se_key en) (se_owners en) (se_cancellation_requested en) (se_cancelled en)
    (se_progress en) (Some o).

(** Where a retirement returns to: a dropped reference, or the lease of a
    caller whose producer could not be spawned. *)
Inductive Return := RGone | RLease.

(** The program points of a thread that refers to the entry [e]. *)
Inductive Point :=
| Starting (e : positive)             (** after [entries.insert], before [spawn_producer] *)
| Leased (e : positive)               (** a caller holds a lease *)
| Producing (e : positive)            (** the producer runs [work] *)
| Finishing (e : positive) (o : Outcome) (r : Return)  (** at the head of [finish] *)
| Signalling (e : positive)           (** between the two locks of [drop] *)
| RetireState (e : positive) (r : Return)     (** about to read the state *)
| RetireOwners (e : positive) (r : Return)    (** read [Finished], about to read the owners *)
| RetireRegistry (e : positive) (r : Return). (** about to lock the registry *)

Definition entry_of (p : Point) : positive :=
  match p with
  | Starting e | Leased e | Producing e | Finishing e _ _ | Signalling e
  | RetireState e _ | RetireOwners e _ | RetireRegistry e _ => e
  end.

Record World := mkWorld {
  lifetime : SharedWorkLifetime;
  entries : gmap positive SharedWorkEntry;
  registry : gmap K positive;
  threads : gmap positive Point;
}.

Definition world_new (l : SharedWorkLifetime) : World := mkWorld l ∅ ∅ ∅.

(** [Weak::strong_count] is not zero. *)
Definition strong (w : World) (e : positive) : bool :=
  existsb (λ tp, bool_decide (entry_of tp.2 = e)) (map_to_list (threads w)).

Definition set_thread (t : positive) (p : Point) (w : World) : World :=
  mkWorld (lifetime w) (entries w) (registry w) (<[t := p]> (threads w)).
Definition end_thread (t : positive) (w : World) : World :=
  mkWorld (lifetime w) (entries w) (registry w) (delete t (threads w)).
Definition set_entry (e : positive) (en : SharedWorkEntry) (w : World) : World :=
  mkWorld (lifetime w) (<[e := en]> (entries w)) (registry w) (threads w).
Definition set_registry (m : gmap K positive) (w : World) : World :=
  mkWorld (lifetime w) (entries w) m (threads w).

(** The thread leaves a retirement. *)
Definition return_to (t e : positive) (r : Return) (w : World) : World :=
  match r with RGone => end_thread t w | RLease => set_thread t (Leased e) w end.

Inductive Action :=
| AJoin (t : positive) (k : K) (fresh : positive)
| ASpawn (t producer : positive)
| ASpawnFail (t : positive)
| AReport (t : positive) (p : SharedWorkProgress)
| AProduce (t : positive) (o : Outcome)
| AFinish (t : positive)
| ADrop (t : positive)
| ASignal (t : positive)
| ARetire (t : positive).

(** [join_or_start] up to the end of its registry lock.  [fresh] names the
    entry it allocates when there is none to join. *)
Definition join_or_start (w : World) (t : positive) (k : K) (fresh : positive) : option World :=
  if is_some (threads w !! t) then None
  else
    let live := filter (λ ke, strong w ke.2 = true) (registry w) in
    let w := set_registry live w in
    match registry w !! k with
    | Some e =>
        match entries w !! e with
        | None => None
        | Some en =>
            Some (set_thread t (Leased e) (set_entry e (set_owners (se_owners en + 1) en) w))
        end
    | None =>
        if is_some (entries w !! fresh) then None
        else Some (set_thread t (Starting fresh)
                     (set_registry (<[k := fresh]> (registry w))
                        (set_entry fresh (entry_new k) w)))
    end.

(** [SharedWorkLease::drop] up to the end of its ownership lock. *)
Definition drop_lease (w : World) (t e : positive) (en : SharedWorkEntry) : World :=
  let owners := (se_owners en - 1)%nat in
  let en := set_owners owners en in
  if bool_decide (owners = 0%nat) && bool_decide (lifetime w = OwnerBound)
     && negb (se_cancellation_requested en)
  then set_thread t (Signalling e) (set_entry e (set_requested en) w)
  else set_thread t (RetireState e RGone) (set_entry e en w).

(** The three observations of [retire_if_terminal_and_unowned]. *)
Definition retire (w : World) (t : positive) : option World :=
  match threads w !! t with
  | Some (RetireState e r) =>
      match entries w !! e with
      | None => None
      | Some en => Some (if is_some (se_state en)
                         then set_thread t (RetireOwners e r) w
                         else return_to t e r w)
      end
  | Some (RetireOwners e r) =>
      match entries w !! e with
      | None => None
      | Some en => Some (if bool_decide (se_owners en = 0%nat)
                         then set_thread t (RetireRegistry e r) w
                         else return_to t e r w)
      end
  | Some (RetireRegistry e r) =>
      match entries w !! e with
      | None => None
      | Some en =>
          let w' :=
            if bool_decide (registry w !! se_key en = Some e)
               && bool_decide (se_owners en = 0%nat)
            then set_registry (delete (se_key en) (registry w)) w
            else w in
          Some (return_to t e r w')
      end
  | _ => None
  end.

Definition act (w : World) (a : Action) : option World :=
  match a with
  | AJoin t k fresh => join_or_start w t k fresh
  | ASpawn t producer =>
      match threads w !! t with
      | Some (Starting e) =>
          if is_some (threads w !! producer) then None
          else Some (set_thread producer (Producing e) (set_thread t (Leased e) w))
      | _ => None
      end
  | ASpawnFail t =>
      match threads w !! t with
      | Some (Starting e) =>
          Some (set_thread t (Finishing e (Err ProducerSpawnFailed) RLease) w)
      | _ => None
      end
  | AReport t p =>
      match threads w !! t with
      | Some (Producing e) =>
          match entries w !! e with
          | Some en => Some (set_entry e (set_progress p en) w)
          | None => None
          end
      | _ => None
      end
  | AProduce t o =>
      match threads w !! t with
      | Some (Producing e) => Some (set_thread t (Finishing e o RGone) w)
      | _ => None
      end
  | AFinish t =>
      match threads w !! t with
      | Some (Finishing e o r) =>
          match entries w !! e with
          | Some en => Some (set_thread t (RetireState e r) (set_entry e (set_state o en) w))
          | None => None
          end
      | _ => None
      end
  | ADrop t =>
      match threads w !! t with
      | Some (Leased e) =>
          match entries w !! e with
          | Some en => Some (drop_lease w t e en)
          | None => None
          end
      | _ => None
      end
  | ASignal t =>
      match threads w !! t with
      | Some (Signalling e) =>
          match entries w !! e with
          | Some en =>
              Some (set_thread t (RetireState e RGone) (set_entry e (set_cancelled en) w))
          | None => None
          end
      | _ => None
      end
  | ARetire t => retire w t
  end.

Fixpoint acts (w : World) (l : list Action) : option World :=
  match l with
  | [] => Some w
  | a :: l => match act w a with Some w => acts w l | None => None end
  end.

(** [SharedWorkLease::wait]: what a lease on [e] returns once settled;
    [snapshot] and [wait_timeout] read the same state. *)
Definition lease_outcome (w : World) (t : positive) : option Outcome :=
  match threads w !! t with
  | Some (Leased e) => entries w !! e ≫= se_state
  | _ => None
  end.

End SharedWork.

Arguments SharedWorkError E : clear implicits.
Arguments Outcome R E : clear implicits.
Arguments SharedWorkEntry K R E : clear implicits.
Arguments Point R E : clear implicits.
Arguments World K {_ _} R E.
Arguments Action K R E : clear implicits.
