(* ===== verification/SharedWorkProps.v ===== *)
(** * Properties of exact-key shared work

    Invariants over all interleavings of callers, producers and dropped
    leases. *)

From Stdlib Require Import ZArith Lia.
From stdpp Require Import base gmap list option numbers.
From S2P Require Import Prelude SharedWork.

Section SharedWork.
Context {K : Type} `{Countable K} {R E : Type}.
Implicit Types (w : World K R E) (en : SharedWorkEntry K R E) (p : Point R E).

(** ** Counting threads *)

Definition b2n (b : bool) : nat := if b then 1 else 0.

Definition is_lease (r : Return) : bool := match r with RLease => true | RGone => false end.

(** The thread owns one lease of [e]. *)
Definition holds_lease (e : positive) p : bool :=
  bool_decide (entry_of p = e) &&
  match p with
  | Starting _ | Leased _ => true
  | Finishing _ _ r | RetireState _ r | RetireOwners _ r | RetireRegistry _ r => is_lease r
  | _ => false
  end.

(** The thread has still to settle [e]. *)
Definition produces (e : positive) p : bool :=
  bool_decide (entry_of p = e) &&
  match p with Starting _ | Producing _ | Finishing _ _ _ => true | _ => false end.

Definition count (f : Point R E → bool) (m : gmap positive (Point R E)) : nat :=
  size (filter (λ tp : positive * Point R E, f tp.2 = true) m).

(** A thread moves to its next point, or ends. *)
Definition move (t : positive) (next : option (Point R E)) (m : gmap positive (Point R E)) :=
  match next with Some p => <[t := p]> m | None => delete t m end.
Definition weight (f : Point R E → bool) (o : option (Point R E)) : nat :=
  from_option (b2n ∘ f) 0%nat o.

Lemma count_delete f m t :
  (count f (delete t m) + weight f (m !! t) = count f m)%nat.
Proof.
  unfold count, weight. destruct (m !! t) as [p|] eqn:Ht; simpl.
  - rewrite map_filter_delete.
    destruct (f p) eqn:Hf; simpl.
    + assert (Hin : filter (λ tp : positive * Point R E, f tp.2 = true) m !! t = Some p)
        by (by apply map_lookup_filter_Some).
      rewrite (map_size_delete_Some _ _ (ex_intro _ p Hin)).
      assert (size (filter (λ tp : positive * Point R E, f tp.2 = true) m) ≠ 0%nat).
      { intros Hz%map_size_empty_inv. by rewrite Hz in Hin. }
      lia.
    + rewrite delete_id; [lia|]. apply map_lookup_filter_None. right.
      intros p' Hp'. simplify_eq. simpl. congruence.
  - by rewrite delete_id, Nat.add_0_r.
Qed.

Lemma count_insert f m t p :
  (count f (<[t := p]> m) + weight f (m !! t) = count f m + b2n (f p))%nat.
Proof.
  rewrite <- (count_delete f m t). rewrite <- (count_delete f (<[t := p]> m) t).
  rewrite delete_insert_eq, lookup_insert_eq. simpl. lia.
Qed.

Lemma count_move f m t next :
  (count f (move t next m) + weight f (m !! t) = count f m + weight f next)%nat.
Proof.
  destruct next as [p|]; simpl; [apply count_insert|]. rewrite count_delete. lia.
Qed.

Lemma count_pos f m : (0 < count f m)%nat ↔ ∃ t p, m !! t = Some p ∧ f p = true.
Proof.
  unfold count. split.
  - intros Hp. set (m' := filter _ m) in Hp.
    assert (Hne : m' ≠ ∅) by (intros Hz; rewrite Hz, map_size_empty in Hp; lia).
    apply map_choose in Hne as (t & p & (Ht & Hf)%map_lookup_filter_Some). eauto.
  - intros (t & p & Ht & Hf).
    assert (Hin : filter (λ tp : positive * Point R E, f tp.2 = true) m !! t = Some p)
      by (by apply map_lookup_filter_Some).
    apply Nat.neq_0_lt_0. intros Hz%map_size_empty_inv. by rewrite Hz in Hin.
Qed.

Lemma strong_true w e :
  strong w e = true ↔ ∃ t p, threads w !! t = Some p ∧ entry_of p = e.
Proof.
  unfold strong. rewrite existsb_exists. split.
  - intros ([t p] & Hin & Hb). bool_prop. exists t, p.
    by rewrite <- elem_of_map_to_list, list_elem_of_In.
  - intros (t & p & Ht & He). exists (t, p). rewrite <- list_elem_of_In, elem_of_map_to_list.
    split; [done|]. by apply bool_decide_eq_true.
Qed.

(** ** The invariant *)

Definition running en : bool := is_none (se_state en).

Record WorldInv w : Prop := {
  wi_registry : ∀ k e, registry w !! k = Some e → ∃ en, entries w !! e = Some en ∧ se_key en = k;
  wi_threads : ∀ t p, threads w !! t = Some p → is_Some (entries w !! entry_of p);
  wi_owners : ∀ e en, entries w !! e = Some en → se_owners en = count (holds_lease e) (threads w);
  wi_producer : ∀ e en, entries w !! e = Some en →
    b2n (running en) = count (produces e) (threads w);
  wi_current : ∀ e en, entries w !! e = Some en →
    (0 < se_owners en)%nat ∨ se_state en = None → registry w !! se_key en = Some e;
  wi_retiring : ∀ t e r en, threads w !! t = Some (RetireOwners e r)
      ∨ threads w !! t = Some (RetireRegistry e r) →
    entries w !! e = Some en → se_state en ≠ None;
}.

(** Cancellation follows ownership. *)
Record CancelInv w : Prop := {
  ca_requested : ∀ e en, entries w !! e = Some en → lifetime w = OwnerBound →
    se_owners en = 0%nat → se_cancellation_requested en = true;
  ca_signal : ∀ e en, entries w !! e = Some en → se_cancellation_requested en = true →
    se_cancelled en = true ∨ ∃ t, threads w !! t = Some (Signalling e);
  ca_reason : ∀ e en, entries w !! e = Some en →
    se_cancelled en = true ∨ (∃ t, threads w !! t = Some (Signalling e)) →
    se_cancellation_requested en = true;
  ca_bound : ∀ e en, entries w !! e = Some en → lifetime w = ProducerBound →
    se_cancellation_requested en = false;
}.

Lemma world_new_inv l : WorldInv (world_new l) ∧ CancelInv (world_new (K := K) (R := R) (E := E) l).
Proof. split; split; simpl; done. Qed.

(** The thread [t], at [p0] if it exists, moves to [next] and leaves [en'] in
    its entry. *)
Definition moved w t e next en' : World K R E :=
  mkWorld (lifetime w) (<[e := en']> (entries w)) (registry w) (move t next (threads w)).

Record move_ok w t (p0 : option (Point R E)) e en next en' : Prop := {
  mo_thread : threads w !! t = p0;
  mo_entry : entries w !! e = Some en;
  mo_of : ∀ p, p0 = Some p → entry_of p = e;
  mo_next : ∀ p, next = Some p → entry_of p = e;
  mo_key : se_key en' = se_key en;
  mo_owners : (se_owners en' + weight (holds_lease e) p0
               = se_owners en + weight (holds_lease e) next)%nat;
  mo_producer : (b2n (running en') + weight (produces e) p0
                 = b2n (running en) + weight (produces e) next)%nat;
  mo_live : (0 < se_owners en')%nat ∨ se_state en' = None → registry w !! se_key en = Some e;
  mo_settled : se_state en ≠ None → se_state en' ≠ None;
  mo_retiring : ∀ r, next = Some (RetireOwners e r) ∨ next = Some (RetireRegistry e r) →
                se_state en' ≠ None;
}.

Lemma weight_other f (o : option (Point R E)) e e' :
  (∀ p, entry_of p ≠ e → f e p = false) → e' ≠ e → (∀ p, o = Some p → entry_of p = e') →
  weight (f e) o = 0%nat.
Proof.
  intros Hf Hne Hn. destruct o as [p|]; [|done]. unfold weight. simpl.
  rewrite Hf; [done|]. by rewrite (Hn p eq_refl).
Qed.

Lemma holds_lease_other e p : entry_of p ≠ e → holds_lease e p = false.
Proof. intros. unfold holds_lease. by rewrite bool_decide_eq_false_2. Qed.
Lemma produces_other e p : entry_of p ≠ e → produces e p = false.
Proof. intros. unfold produces. by rewrite bool_decide_eq_false_2. Qed.

Lemma moved_lookup t next (m : gmap positive (Point R E)) t' p :
  move t next m !! t' = Some p → (t' = t ∧ next = Some p) ∨ (t' ≠ t ∧ m !! t' = Some p).
Proof.
  destruct next as [q|]; simpl.
  - rewrite lookup_insert. case_decide; [intros; left|right]; naive_solver.
  - rewrite lookup_delete. case_decide; [done|right]; naive_solver.
Qed.

Lemma moved_inv w t (p0 : option (Point R E)) e en next en' :
  WorldInv w → move_ok w t p0 e en next en' → WorldInv (moved w t e next en').
Proof.
  intros [Hr Ht Ho Hp Hc Hre] [M1 M2 M3 M4 M5 M6 M7 M8 M9 M10]. split; simpl.
  - intros k e' Hk. destruct (Hr k e' Hk) as (en0 & He0 & Hk0). rewrite lookup_insert.
    case_decide; subst; [|eauto]. eexists. split; [done|]. congruence.
  - intros t' p [[-> ->]|[_ Hp']]%moved_lookup.
    + rewrite (M4 p eq_refl), lookup_insert_eq. eauto.
    + rewrite lookup_insert_is_Some. destruct (decide (e = entry_of p)); eauto.
  - intros e' en0. rewrite lookup_insert.
    pose proof (count_move (holds_lease e') (threads w) t next) as Hm. rewrite M1 in Hm.
    case_decide as Hee; [intros [= <-]; subst e'|intros He'].
    + rewrite (Ho _ _ M2) in M6. unfold weight in *. simpl in *. lia.
    + rewrite (weight_other holds_lease p0 e' e), (weight_other holds_lease next e' e) in Hm
        by auto using holds_lease_other.
      rewrite (Ho _ _ He'). lia.
  - intros e' en0. rewrite lookup_insert.
    pose proof (count_move (produces e') (threads w) t next) as Hm. rewrite M1 in Hm.
    case_decide as Hee; [intros [= <-]; subst e'|intros He'].
    + rewrite (Hp _ _ M2) in M7. unfold weight in *. simpl in *. lia.
    + rewrite (weight_other produces p0 e' e), (weight_other produces next e' e) in Hm
        by auto using produces_other.
      rewrite (Hp _ _ He'). lia.
  - intros e' en0. rewrite lookup_insert. case_decide; [intros [= <-]|apply Hc]. subst e'.
    rewrite M5. exact M8.
  - intros t' e' r en0 Hpt. rewrite lookup_insert. case_decide; [intros [= <-]; subst e'|intros He'].
    + destruct Hpt as [[[-> Hn]|[_ Hpt]]%moved_lookup|[[-> Hn]|[_ Hpt]]%moved_lookup]; eauto.
    + destruct Hpt as [[[-> Hn]|[_ Hpt]]%moved_lookup|[[-> Hn]|[_ Hpt]]%moved_lookup]; eauto;
        by apply M4 in Hn.
Qed.

(** Threads change without changing who owns or produces what. *)
Lemma threads_inv w m :
  WorldInv w →
  (∀ e, count (holds_lease e) m = count (holds_lease e) (threads w)) →
  (∀ e, count (produces e) m = count (produces e) (threads w)) →
  (∀ t p, m !! t = Some p → is_Some (entries w !! entry_of p)) →
  (∀ t e r, m !! t = Some (RetireOwners e r) ∨ m !! t = Some (RetireRegistry e r) →
     threads w !! t = Some (RetireOwners e r) ∨ threads w !! t = Some (RetireRegistry e r)) →
  WorldInv (mkWorld (lifetime w) (entries w) (registry w) m).
Proof.
  intros [Hr Ht Ho Hp Hc Hre] H1 H2 H3 H4. split; simpl; auto.
  - intros e en He. by rewrite H1, (Ho e en He).
  - intros e en He. by rewrite H2, (Hp e en He).
  - intros t e r en Hpt He. by eapply Hre; [apply H4|].
Qed.

(** A live entry has a thread that refers to it. *)
Lemma live_strong w e en :
  WorldInv w → entries w !! e = Some en → (0 < se_owners en)%nat ∨ se_state en = None →
  strong w e = true.
Proof.
  intros I He Hl. apply strong_true.
  assert (Hex : ∃ t p, threads w !! t = Some p ∧ (holds_lease e p || produces e p) = true).
  { destruct Hl as [Hl|Hl].
    - rewrite (wi_owners w I e en He) in Hl. apply count_pos in Hl as (t & p & Ht & Hp).
      exists t, p. by rewrite Hp.
    - pose proof (wi_producer w I e en He) as Hp. unfold running in Hp. rewrite Hl in Hp.
      simpl in Hp. assert (0 < count (produces e) (threads w))%nat as
        (t & p & Ht & Hp')%count_pos by lia. exists t, p. rewrite Hp'. by rewrite orb_true_r. }
  destruct Hex as (t & p & Ht & Hp). exists t, p. split; [done|].
  unfold holds_lease, produces in Hp. destruct (bool_decide (entry_of p = e)) eqn:E'; [|done].
  by bool_prop.
Qed.

(** Registry entries may go when they are not live. *)
Lemma registry_inv w m :
  WorldInv w → m ⊆ registry w →
  (∀ e en, entries w !! e = Some en → (0 < se_owners en)%nat ∨ se_state en = None →
     registry w !! se_key en = Some e → m !! se_key en = Some e) →
  WorldInv (set_registry m w).
Proof.
  intros [Hr Ht Ho Hp Hc Hre] Hm Hl. split; simpl; try done.
  - intros k e Hk. apply Hr. by eapply lookup_weaken.
  - intros e en He Hv. apply Hl; auto.
Qed.

Definition retained w : World K R E :=
  set_registry (filter (λ ke : K * positive, strong w ke.2 = true) (registry w)) w.

Lemma retained_inv w : WorldInv w → WorldInv (retained w).
Proof.
  intros I. apply registry_inv; [done|apply map_filter_subseteq|].
  intros e en He Hl Hk. apply map_lookup_filter_Some. split; [done|]. by eapply live_strong.
Qed.

(** The first caller of a key. *)
Lemma started_inv w t k e :
  WorldInv w → threads w !! t = None → registry w !! k = None → entries w !! e = None →
  WorldInv (set_thread t (Starting e)
              (set_registry (<[k := e]> (registry w)) (set_entry e (entry_new k) w))).
Proof.
  intros I Ht Hk He. destruct I as [Hr Htt Ho Hp Hc Hre].
  assert (Hnot : ∀ f, (∀ p, entry_of p ≠ e → f p = false) → count f (threads w) = 0%nat).
  { intros f Hf. destruct (count f (threads w)) eqn:Hz; [done|].
    assert (0 < count f (threads w))%nat as (t' & p & Ht' & Hp')%count_pos by lia.
    destruct (Htt t' p Ht') as [en0 He0].
    destruct (decide (entry_of p = e)); [congruence|]. rewrite Hf in Hp' by done. done. }
  split; simpl.
  - intros k' e'. rewrite !lookup_insert. case_decide; [intros [= <-]; subst|].
    + rewrite decide_True by done. by eexists.
    + intros (en0 & He0 & <-)%Hr. case_decide; [congruence|eauto].
  - intros t' p. rewrite lookup_insert. case_decide; [intros [= <-]; simpl|].
    + rewrite lookup_insert_eq. eauto.
    + intros [en0 Hp0]%Htt. rewrite lookup_insert. case_decide; eauto.
  - intros e' en0. rewrite lookup_insert.
    pose proof (count_insert (holds_lease e') (threads w) t (Starting e)) as Hm. rewrite Ht in Hm.
    unfold weight in Hm. simpl in Hm. case_decide; [intros [= <-]; subst e'|intros He'].
    + rewrite (Hnot (holds_lease e)) in Hm by apply holds_lease_other.
      unfold holds_lease at 2 in Hm. simpl in *. rewrite bool_decide_eq_true_2 in Hm by done.
      simpl in Hm. lia.
    + rewrite (Ho _ _ He'). rewrite holds_lease_other in Hm by done. simpl in Hm. lia.
  - intros e' en0. rewrite lookup_insert.
    pose proof (count_insert (produces e') (threads w) t (Starting e)) as Hm. rewrite Ht in Hm.
    unfold weight in Hm. simpl in Hm. case_decide; [intros [= <-]; subst e'|intros He'].
    + rewrite (Hnot (produces e)) in Hm by apply produces_other.
      unfold produces at 2 in Hm. simpl in *. rewrite bool_decide_eq_true_2 in Hm by done.
      simpl in Hm. lia.
    + rewrite (Hp _ _ He'). rewrite produces_other in Hm by done. simpl in Hm. lia.
  - intros e' en0. rewrite lookup_insert. case_decide; [intros [= <-] _; subst|intros He' Hl].
    + simpl. apply lookup_insert_eq.
    + pose proof (Hc _ _ He' Hl) as Hreg. rewrite lookup_insert. case_decide; congruence.
  - intros t' e' r en0. rewrite !lookup_insert. case_decide; [by intros [|]|].
    intros Hpt. case_decide; [|by apply (Hre t' e' r)]. subst e'. destruct Hpt as [Hpt|Hpt];
      apply Htt in Hpt as [? Hpt]; simpl in Hpt; congruence.
Qed.

(** ** Every action keeps the invariant *)

Definition return_point (e : positive) (r : Return) : option (Point R E) :=
  match r with RGone => None | RLease => Some (Leased e) end.

Lemma set_thread_moved w t e p en :
  entries w !! e = Some en → set_thread t p w = moved w t e (Some p) en.
Proof. intros He. unfold set_thread, moved. by rewrite (insert_id (entries w)). Qed.

Lemma return_moved w t e r en :
  entries w !! e = Some en → return_to t e r w = moved w t e (return_point e r) en.
Proof. intros He. unfold moved. rewrite (insert_id (entries w)) by done. by destruct r. Qed.

(** Decide the conditions of a move from its program points. *)
Ltac moves :=
  split; unfold weight, holds_lease, produces, running, return_point in *; simpl in *;
  try done; try (by intros ? [= <-]); try (by intros ? [?|?]; simplify_eq);
  simpl; repeat match goal with
  | |- context [bool_decide (?x = ?x)] => rewrite (bool_decide_eq_true_2 (x = x)) by done
  end; simpl; auto; try lia.

Lemma leased_owner w t e en :
  WorldInv w → threads w !! t = Some (Leased e) → entries w !! e = Some en → (0 < se_owners en)%nat.
Proof.
  intros I Ht He. rewrite (wi_owners w I e en He). apply count_pos. exists t, (Leased e).
  split; [done|]. unfold holds_lease. simpl. by rewrite bool_decide_eq_true_2.
Qed.

Lemma producing_running w t p e en :
  WorldInv w → threads w !! t = Some p → produces e p = true → entries w !! e = Some en →
  se_state en = None.
Proof.
  intros I Ht Hp He. pose proof (wi_producer w I e en He) as Hc.
  assert (0 < count (produces e) (threads w))%nat by (apply count_pos; eauto).
  unfold running in Hc. destruct (se_state en); [simpl in Hc; lia|done].
Qed.

Lemma join_inv w t k fresh w' :
  WorldInv w → join_or_start w t k fresh = Some w' → WorldInv w'.
Proof.
  intros I. unfold join_or_start. destruct (threads w !! t) eqn:Ht; [done|]. simpl.
  pose proof (retained_inv w I) as I1. fold (retained w).
  change (threads w) with (threads (retained w)) in Ht.
  change (filter _ (registry w)) with (registry (retained w)).
  change (entries w) with (entries (retained w)). set (w1 := retained w) in *. clearbody w1.
  destruct (registry w1 !! k) as [e|] eqn:Hk.
  - destruct (entries w1 !! e) as [en|] eqn:He; [|done]. intros [= <-].
    apply (moved_inv w1 t None e en (Some (Leased e))); [done|]. moves.
    destruct (wi_registry w1 I1 k e Hk) as (en0 & He0 & <-). intros _. by simplify_eq.
  - destruct (entries w1 !! fresh) as [en|] eqn:He; [done|]. intros [= <-]. by apply started_inv.
Qed.

Lemma spawn_inv w t u e :
  WorldInv w → threads w !! t = Some (Starting e) → threads w !! u = None →
  WorldInv (set_thread u (Producing e) (set_thread t (Leased e) w)).
Proof.
  intros I Ht Hu. assert (Hne : t ≠ u) by congruence.
  assert (Hc : ∀ f, (f (Starting e) = f (Leased e) ∧ f (Producing e) = false)
                    ∨ (f (Starting e) = f (Producing e) ∧ f (Leased e) = false) →
    count f (<[u := Producing e]> (<[t := Leased e]> (threads w))) = count f (threads w)).
  { intros f Hf. pose proof (count_insert f (threads w) t (Leased e)) as H1.
    pose proof (count_insert f (<[t := Leased e]> (threads w)) u (Producing e)) as H2.
    rewrite lookup_insert_ne, Hu in H2 by done. rewrite Ht in H1. unfold weight in *. simpl in *.
    destruct Hf as [[E1 E2]|[E1 E2]]; rewrite E1, E2 in *; simpl in *; lia. }
  apply (threads_inv w); [done|..].
  - intros e'. apply Hc. unfold holds_lease. simpl. left. by rewrite andb_false_r.
  - intros e'. apply Hc. unfold produces. simpl. right. by rewrite andb_false_r.
  - pose proof (wi_threads w I t _ Ht) as He. simpl in He.
    intros t' p. simpl. rewrite !lookup_insert. repeat case_decide; try (by intros [= <-]).
    apply (wi_threads w I).
  - intros t' e' r. simpl. rewrite !lookup_insert. repeat case_decide; try (by intros [|]). done.
Qed.

Lemma retire_inv w t w' : WorldInv w → retire w t = Some w' → WorldInv w'.
Proof.
  intros I. unfold retire. destruct (threads w !! t) as [p|] eqn:Ht; [|done].
  destruct p as [e|e|e|e o r|e|e r|e r|e r]; try done;
    destruct (entries w !! e) as [en|] eqn:He; try done.
  - destruct (se_state en) eqn:Hs; simpl; intros [= <-].
    + rewrite (set_thread_moved _ _ _ _ _ He).
      eapply moved_inv; [done|]. moves. apply (wi_current w I e en He).
      intros. by rewrite Hs.
    + rewrite (return_moved _ _ _ _ _ He). eapply moved_inv; [done|].
      destruct r; moves; apply (wi_current w I e en He).
  - pose proof (wi_retiring w I t e r en (or_introl Ht) He) as Hs.
    case_bool_decide; intros [= <-].
    + rewrite (set_thread_moved _ _ _ _ _ He).
      eapply moved_inv; [done|]. moves. apply (wi_current w I e en He).
    + rewrite (return_moved _ _ _ _ _ He). eapply moved_inv; [done|].
      destruct r; moves; apply (wi_current w I e en He).
  - pose proof (wi_retiring w I t e r en (or_intror Ht) He) as Hs.
    set (w1 := if _ && _ then _ else _). intros [= <-].
    assert (I1 : WorldInv w1 ∧ entries w1 = entries w ∧ threads w1 = threads w).
    { unfold w1. destruct (_ && _) eqn:Hb; [|done]. bool_prop. split_and!; try done.
      apply registry_inv; [done|apply delete_subseteq|].
      intros e' en' He' Hl Hk'. rewrite lookup_delete_ne; [done|]. intros Hkk.
      rewrite <- Hkk in Hk'. simplify_eq. destruct Hl; [lia|done]. }
    destruct I1 as (I1 & E1 & E2). clearbody w1. rewrite <- E1 in He. rewrite <- E2 in Ht.
    rewrite (return_moved _ _ _ _ _ He). eapply moved_inv; [done|].
    destruct r; moves; apply (wi_current w1 I1 e en He).
Qed.

Lemma act_inv w a w' : WorldInv w → act w a = Some w' → WorldInv w'.
Proof.
  intros I Ha. destruct a as [t k fresh|t u|t|t pr|t o|t|t|t|t]; simpl in Ha;
    [by eapply join_inv| | | | | | | |by eapply retire_inv];
    destruct (threads w !! t) as [p|] eqn:Ht; try done;
    destruct p as [e|e|e|e o' r|e|e r|e r|e r]; try done.
  - destruct (threads w !! u) eqn:Hu; simplify_eq/=. by apply spawn_inv.
  - simplify_eq. destruct (wi_threads w I _ _ Ht) as [en He]. simpl in He.
    rewrite (set_thread_moved _ _ _ _ _ He). eapply moved_inv; [done|]. moves.
    apply (wi_current w I e en He).
  - destruct (entries w !! e) as [en|] eqn:He; simplify_eq.
    change (set_entry e (set_progress pr en) w)
      with (mkWorld (lifetime w) (<[e := set_progress pr en]> (entries w)) (registry w) (threads w)).
    rewrite <- (insert_id (threads w) t (Producing e)) by done.
    apply (moved_inv w t (Some (Producing e)) e en (Some (Producing e))); [done|]. moves.
    apply (wi_current w I e en He).
  - simplify_eq. destruct (wi_threads w I _ _ Ht) as [en He]. simpl in He.
    rewrite (set_thread_moved _ _ _ _ _ He). eapply moved_inv; [done|]. moves.
    apply (wi_current w I e en He).
  - destruct (entries w !! e) as [en|] eqn:He; simplify_eq.
    assert (Hs : se_state en = None).
    { apply (producing_running w t (Finishing e o' r) e en I Ht); [|done]. unfold produces. simpl.
      by rewrite bool_decide_eq_true_2. }
    apply (moved_inv w t (Some (Finishing e o' r)) e en (Some (RetireState e r))); [done|].
    moves; rewrite ?Hs; auto. intros _. apply (wi_current w I e en He). auto.
  - destruct (entries w !! e) as [en|] eqn:He; simplify_eq.
    pose proof (leased_owner w t e en I Ht He) as Hpos.
    unfold drop_lease. destruct (_ && _).
    + eapply (moved_inv w t (Some (Leased e)) e en (Some (Signalling e))); [done|]. moves.
      intros _. apply (wi_current w I e en He). auto.
    + eapply (moved_inv w t (Some (Leased e)) e en (Some (RetireState e RGone))); [done|]. moves.
      intros _. apply (wi_current w I e en He). auto.
  - destruct (entries w !! e) as [en|] eqn:He; simplify_eq.
    apply (moved_inv w t (Some (Signalling e)) e en (Some (RetireState e RGone))); [done|]. moves.
    apply (wi_current w I e en He).
Qed.

(** ** Cancellation *)

(** The entry keeps what it knows about cancellation. *)
Definition same_cancel en en' : Prop :=
  se_cancellation_requested en' = se_cancellation_requested en
  ∧ se_cancelled en' = se_cancelled en.

Lemma move_other (m : gmap positive (Point R E)) t next t' :
  t' ≠ t → move t next m !! t' = m !! t'.
Proof. intros. destruct next; simpl; [apply lookup_insert_ne|apply lookup_delete_ne]; congruence. Qed.

Lemma moved_cancel w t e next en en' :
  CancelInv w → entries w !! e = Some en → same_cancel en en' →
  threads w !! t ≠ Some (Signalling e) → (∀ e', next ≠ Some (Signalling e')) →
  (∀ e', threads w !! t = Some (Signalling e') → e' = e) →
  (lifetime w = OwnerBound → se_owners en' = 0%nat →
     se_owners en = 0%nat ∨ se_cancellation_requested en' = true) →
  CancelInv (moved w t e next en').
Proof.
  intros [C1 C2 C3 C4] He [E1 E2] Hp0 Hn Hof Ho.
  assert (Hold : ∀ t' e', move t next (threads w) !! t' = Some (Signalling e') →
            threads w !! t' = Some (Signalling e')).
  { intros t' e' [[-> Hx]|[_ Hx]]%moved_lookup; [by destruct (Hn e')|done]. }
  assert (Hnew : ∀ t' e', threads w !! t' = Some (Signalling e') →
            move t next (threads w) !! t' = Some (Signalling e')).
  { intros t' e' Hx. rewrite move_other; [done|]. intros ->.
    pose proof (Hof e' Hx) as ->. by destruct Hp0. }
  split; simpl.
  - intros e' en0. rewrite lookup_insert. case_decide; [intros [= <-] Hl Hz; subst|apply C1].
    destruct (Ho Hl Hz) as [Hz'|?]; [|done]. rewrite E1. eauto.
  - intros e' en0. rewrite lookup_insert. case_decide; [intros [= <-]; subst|].
    + rewrite E1, E2. intros Hr. destruct (C2 _ _ He Hr) as [?|(t' & Hx)]; eauto.
    + intros He' Hr. destruct (C2 _ _ He' Hr) as [?|(t' & Hx)]; eauto.
  - intros e' en0. rewrite lookup_insert. case_decide; [intros [= <-]; subst|].
    + rewrite E1, E2. intros [?|(t' & Hx)]; eapply C3; eauto.
    + intros He' [?|(t' & Hx)]; eapply C3; eauto.
  - intros e' en0. rewrite lookup_insert. case_decide; [intros [= <-]; subst|apply C4].
    rewrite E1. exact (C4 _ _ He).
Qed.

Lemma same_cancel_refl en : same_cancel en en.
Proof. done. Qed.

Lemma retired_cancel w m : CancelInv w → CancelInv (set_registry m w).
Proof. by intros [C1 C2 C3 C4]; split. Qed.

Lemma join_cancel w t k fresh w' :
  WorldInv w → CancelInv w → join_or_start w t k fresh = Some w' → CancelInv w'.
Proof.
  intros I Ci. unfold join_or_start. destruct (threads w !! t) eqn:Ht; [done|].
  cbn [is_some]. set (m := filter _ _). set (w1 := set_registry m w).
  assert (C1 : CancelInv w1) by (by apply retired_cancel).
  change (threads w) with (threads w1) in Ht. change (entries w) with (entries w1).
  assert (Hth : ∀ t' p, threads w1 !! t' = Some p → is_Some (entries w1 !! entry_of p))
    by apply (wi_threads w I). clearbody w1.
  destruct (registry w1 !! k) as [e|].
  - destruct (entries w1 !! e) as [en|] eqn:He; [|done]. intros [= <-].
    apply (moved_cancel w1 t e (Some (Leased e)) en); try done; try congruence.
    simpl. lia.
  - destruct (entries w1 !! fresh) as [en|] eqn:He; [done|]. intros [= <-].
    destruct C1 as [C1 C2 C3 C4]. split; simpl.
    + intros e' en0. rewrite lookup_insert. case_decide; [by intros [= <-]|apply C1].
    + intros e' en0. rewrite lookup_insert. case_decide; [by intros [= <-]|].
      intros He' Hr. destruct (C2 _ _ He' Hr) as [?|(t' & Hx)]; [by left|right].
      exists t'. rewrite lookup_insert_ne; [done|congruence].
    + intros e' en0. rewrite lookup_insert. case_decide; [intros [= <-]; subst|].
      * intros [?|(t' & Hx)]; [done|]. rewrite lookup_insert in Hx. case_decide; [done|].
        apply Hth in Hx as [? Hx]. simpl in Hx. congruence.
      * intros He' [?|(t' & Hx)]; [eapply C3; eauto|]. rewrite lookup_insert in Hx.
        case_decide; [done|]. eapply C3; eauto.
    + intros e' en0. rewrite lookup_insert. case_decide; [by intros [= <-]|apply C4].
Qed.

Lemma drop_cancel w t e en :
  CancelInv w → threads w !! t = Some (Leased e) → entries w !! e = Some en →
  (0 < se_owners en)%nat → CancelInv (drop_lease w t e en).
Proof.
  intros Ci Ht He Hpos. unfold drop_lease. destruct (_ && _) eqn:Hb.
  - bool_prop. destruct Ci as [C1 C2 C3 C4]. split; simpl.
    + intros e' en0. rewrite lookup_insert. case_decide; [by intros [= <-]|apply C1].
    + intros e' en0. rewrite lookup_insert. case_decide; [intros [= <-] _; subst|].
      * right. exists t. by rewrite lookup_insert_eq.
      * intros He' Hr. destruct (C2 _ _ He' Hr) as [?|(t' & Hx)]; [by left|right].
        exists t'. rewrite lookup_insert_ne; [done|congruence].
    + intros e' en0. rewrite lookup_insert. case_decide; [by intros [= <-]|].
      intros He' [?|(t' & Hx)]; [eapply C3; eauto|]. rewrite lookup_insert in Hx.
      case_decide; [congruence|]. eapply C3; eauto.
    + intros e' en0. rewrite lookup_insert. case_decide; [intros [= <-] ?; congruence|apply C4].
  - apply (moved_cancel w t e (Some (RetireState e RGone)) en); try done; try congruence.
    simpl. intros Hl Hz. right. rewrite Hl, Hz in Hb. simpl in Hb.
    by apply negb_false_iff in Hb.
Qed.

Lemma signal_cancel w t e en :
  CancelInv w → threads w !! t = Some (Signalling e) → entries w !! e = Some en →
  CancelInv (set_thread t (RetireState e RGone) (set_entry e (set_cancelled en) w)).
Proof.
  intros [C1 C2 C3 C4] Ht He.
  assert (Hreq : se_cancellation_requested en = true) by (eapply C3; eauto).
  split; simpl.
  - intros e' en0. rewrite lookup_insert. case_decide; [by intros [= <-]|apply C1].
  - intros e' en0. rewrite lookup_insert. case_decide; [by intros [= <-]; left|].
    intros He' Hr. destruct (C2 _ _ He' Hr) as [?|(t' & Hx)]; [by left|right].
    exists t'. rewrite lookup_insert_ne; [done|congruence].
  - intros e' en0. rewrite lookup_insert. case_decide; [by intros [= <-]|].
    intros He' [?|(t' & Hx)]; [eapply C3; eauto|]. rewrite lookup_insert in Hx.
    case_decide; [done|]. eapply C3; eauto.
  - intros e' en0. rewrite lookup_insert. case_decide; [intros [= <-]; subst|apply C4].
    simpl. exact (C4 _ _ He).
Qed.

Lemma retire_cancel w t w' : CancelInv w → retire w t = Some w' → CancelInv w'.
Proof.
  intros Ci. unfold retire. destruct (threads w !! t) as [p|] eqn:Ht; [|done].
  destruct p as [e|e|e|e o r|e|e r|e r|e r]; try done;
    destruct (entries w !! e) as [en|] eqn:He; try done; intros [= <-].
  - destruct (is_some (se_state en)).
    + rewrite (set_thread_moved _ _ _ _ _ He).
      apply (moved_cancel w t e _ en); auto; try done; congruence.
    + rewrite (return_moved _ _ _ _ _ He). destruct r;
        apply (moved_cancel w t e _ en); auto; try done; congruence.
  - case_bool_decide.
    + rewrite (set_thread_moved _ _ _ _ _ He).
      apply (moved_cancel w t e _ en); auto; try done; congruence.
    + rewrite (return_moved _ _ _ _ _ He). destruct r;
        apply (moved_cancel w t e _ en); auto; try done; congruence.
  - set (w1 := if _ && _ then _ else _).
    assert (C1 : CancelInv w1 ∧ entries w1 = entries w ∧ threads w1 = threads w).
    { unfold w1. destruct (_ && _); [|done]. split_and!; try done. by apply retired_cancel. }
    destruct C1 as (C1 & E1 & E2). clearbody w1. rewrite <- E1 in He. rewrite <- E2 in Ht.
    rewrite (return_moved _ _ _ _ _ He). destruct r;
      apply (moved_cancel w1 t e _ en); auto; try done; congruence.
Qed.

Lemma act_cancel w a w' :
  WorldInv w → CancelInv w → act w a = Some w' → CancelInv w'.
Proof.
  intros I Ci Ha. destruct a as [t k fresh|t u|t|t pr|t o|t|t|t|t]; simpl in Ha;
    [by eapply join_cancel| | | | | | | |by eapply retire_cancel];
    destruct (threads w !! t) as [p|] eqn:Ht; try done;
    destruct p as [e|e|e|e o' r|e|e r|e r|e r]; try done.
  - destruct (threads w !! u) eqn:Hu; simplify_eq/=.
    destruct Ci as [C1 C2 C3 C4]. split; simpl; try done.
    + intros e' en0 He' Hr. destruct (C2 _ _ He' Hr) as [?|(t' & Hx)]; [by left|right].
      exists t'. rewrite !lookup_insert_ne; congruence.
    + intros e' en0 He' [?|(t' & Hx)]; [eapply C3; eauto|].
      rewrite !lookup_insert in Hx. repeat case_decide; try done. eapply C3; eauto.
  - simplify_eq. destruct (wi_threads w I _ _ Ht) as [en He]. simpl in He.
    rewrite (set_thread_moved _ _ _ _ _ He).
    apply (moved_cancel w t e _ en); auto; try done; congruence.
  - destruct (entries w !! e) as [en|] eqn:He; simplify_eq.
    change (set_entry e (set_progress pr en) w)
      with (mkWorld (lifetime w) (<[e := set_progress pr en]> (entries w)) (registry w) (threads w)).
    rewrite <- (insert_id (threads w) t (Producing e)) by done.
    apply (moved_cancel w t e (Some (Producing e)) en); auto; try done; congruence.
  - simplify_eq. destruct (wi_threads w I _ _ Ht) as [en He]. simpl in He.
    rewrite (set_thread_moved _ _ _ _ _ He).
    apply (moved_cancel w t e _ en); auto; try done; congruence.
  - destruct (entries w !! e) as [en|] eqn:He; simplify_eq.
    apply (moved_cancel w t e (Some (RetireState e r)) en); auto; try done; congruence.
  - destruct (entries w !! e) as [en|] eqn:He; simplify_eq.
    apply drop_cancel; auto. by eapply leased_owner.
  - destruct (entries w !! e) as [en|] eqn:He; simplify_eq. by apply signal_cancel.
Qed.

Lemma acts_inv l : ∀ w w',
  WorldInv w → CancelInv w → acts w l = Some w' → WorldInv w' ∧ CancelInv w'.
Proof.
  induction l as [|a l IH]; intros w w' I Ci Ha; simpl in Ha; [by simplify_eq|].
  destruct (act w a) as [w1|] eqn:Ha1; [|done].
  apply (IH w1); eauto using act_inv, act_cancel.
Qed.

Lemma world_reachable_inv l qs w :
  acts (world_new l) qs = Some w → WorldInv w ∧ CancelInv w.
Proof. destruct (world_new_inv l). by apply acts_inv. Qed.

(** ** Outcomes are written once *)

Lemma act_outcome w a w' e en o :
  WorldInv w → act w a = Some w' → entries w !! e = Some en → se_state en = Some o →
  ∃ en', entries w' !! e = Some en' ∧ se_key en' = se_key en ∧ se_state en' = Some o.
Proof.
  intros I Ha He Hs.
  assert (Hset : ∀ e1 en1 en2 m, entries w !! e1 = Some en1 → se_key en2 = se_key en1 →
    (se_state en1 = Some o → se_state en2 = Some o) → m = <[e1 := en2]> (entries w) →
    ∃ en', m !! e = Some en' ∧ se_key en' = se_key en ∧ se_state en' = Some o).
  { intros e1 en1 en2 m H1 Hk H2 ->. rewrite lookup_insert. case_decide; [|eauto].
    simplify_eq. eauto. }
  destruct a as [t k fresh|t u|t|t pr|t o1|t|t|t|t]; simpl in Ha.
  - unfold join_or_start in Ha. destruct (is_some (threads w !! t)); [done|].
    cbn zeta in Ha. simpl in Ha. destruct (filter _ _ !! k) as [e1|].
    + destruct (entries w !! e1) as [en1|] eqn:He1; simplify_eq.
      refine (Hset e1 en1 _ _ He1 _ _ eq_refl); done.
    + destruct (entries w !! fresh) as [en1|] eqn:He1; simplify_eq/=.
      rewrite lookup_insert_ne; [eauto|congruence].
  - destruct (threads w !! t) as [[]|]; try done. destruct (is_some _); simplify_eq/=. eauto.
  - destruct (threads w !! t) as [[]|]; simplify_eq. eauto.
  - destruct (threads w !! t) as [[e1|e1|e1|e1 o1 r1|e1|e1 r1|e1 r1|e1 r1]|]; try done.
    destruct (entries w !! e1) as [en1|] eqn:He1; simplify_eq. refine (Hset e1 en1 _ _ He1 _ _ eq_refl); done.
  - destruct (threads w !! t) as [[]|]; simplify_eq. eauto.
  - destruct (threads w !! t) as [[e1|e1|e1|e1 o1 r1|e1|e1 r1|e1 r1|e1 r1]|] eqn:Ht; try done.
    destruct (entries w !! e1) as [en1|] eqn:He1; simplify_eq.
    assert (Hn : se_state en1 = None).
    { apply (producing_running w t (Finishing e1 o1 r1) e1 en1 I Ht); [|done].
      unfold produces. simpl. by rewrite bool_decide_eq_true_2. }
    refine (Hset e1 en1 _ _ He1 _ _ eq_refl); [done|congruence].
  - destruct (threads w !! t) as [[e1|e1|e1|e1 o1 r1|e1|e1 r1|e1 r1|e1 r1]|]; try done.
    destruct (entries w !! e1) as [en1|] eqn:He1; simplify_eq.
    unfold drop_lease. destruct (_ && _); (refine (Hset e1 en1 _ _ He1 _ _ eq_refl); done).
  - destruct (threads w !! t) as [[e1|e1|e1|e1 o1 r1|e1|e1 r1|e1 r1|e1 r1]|]; try done.
    destruct (entries w !! e1) as [en1|] eqn:He1; simplify_eq. refine (Hset e1 en1 _ _ He1 _ _ eq_refl); done.
  - assert (Heq : entries w' = entries w).
    { unfold retire, return_to in Ha.
      destruct (threads w !! t) as [[e1|e1|e1|e1 o1 r1|e1|e1 r1|e1 r1|e1 r1]|]; try done;
        destruct (entries w !! e1); simplify_eq; repeat case_match; done. }
    rewrite Heq. eauto.
Qed.

Lemma acts_outcome l : ∀ w w' e en o,
  WorldInv w → CancelInv w → acts w l = Some w' → entries w !! e = Some en →
  se_state en = Some o →
  ∃ en', entries w' !! e = Some en' ∧ se_key en' = se_key en ∧ se_state en' = Some o.
Proof.
  induction l as [|a l IH]; intros w w' e en o I Ci Ha He Hs; simpl in Ha; [simplify_eq; eauto|].
  destruct (act w a) as [w1|] eqn:Ha1; [|done].
  destruct (act_outcome _ _ _ _ _ _ I Ha1 He Hs) as (en1 & He1 & Hk1 & Hs1).
  destruct (IH w1 w' e en1 o) as (en2 & ? & ? & ?); eauto using act_inv, act_cancel.
  exists en2. split_and!; congruence.
Qed.

(** ** Where a request comes from *)

(** A cancellation is requested by the drop of an owner-bound entry's last
    lease. *)
Definition last_leaves w (a : Action K R E) (e : positive) : Prop :=
  ∃ t en, a = ADrop t ∧ threads w !! t = Some (Leased e) ∧ entries w !! e = Some en
    ∧ (se_owners en - 1 = 0)%nat ∧ lifetime w = OwnerBound.

Lemma act_requested w a w' e en' :
  act w a = Some w' → entries w' !! e = Some en' → se_cancellation_requested en' = true →
  (∃ en, entries w !! e = Some en ∧ se_cancellation_requested en = true) ∨ last_leaves w a e.
Proof.
  intros Ha He' Hr.
  assert (Hset : ∀ e1 en1 en2, entries w !! e1 = Some en1 → <[e1 := en2]> (entries w) !! e = Some en' →
    se_cancellation_requested en2 = se_cancellation_requested en1 →
    ∃ en, entries w !! e = Some en ∧ se_cancellation_requested en = true).
  { intros e1 en1 en2 H1 H2 H3. rewrite lookup_insert in H2. case_decide; [|eauto]. injection H2 as <-. subst. exists en1. split; congruence. }
  destruct a as [t k fresh|t u|t|t pr|t o1|t|t|t|t]; simpl in Ha.
  - left. unfold join_or_start in Ha. destruct (is_some (threads w !! t)); [done|].
    cbn zeta in Ha. simpl in Ha. destruct (filter _ _ !! k) as [e1|].
    + destruct (entries w !! e1) as [en1|] eqn:He1; simplify_eq. exact (Hset e1 en1 _ He1 He' eq_refl).
    + destruct (entries w !! fresh) as [en1|] eqn:He1; simplify_eq/=.
      rewrite lookup_insert in He'. case_decide; [by simplify_eq|eauto].
  - left. destruct (threads w !! t) as [[]|]; try done. destruct (is_some _); simplify_eq/=. eauto.
  - left. destruct (threads w !! t) as [[]|]; simplify_eq. eauto.
  - left. destruct (threads w !! t) as [[e1|e1|e1|e1 o1 r1|e1|e1 r1|e1 r1|e1 r1]|]; try done.
    destruct (entries w !! e1) as [en1|] eqn:He1; simplify_eq. exact (Hset e1 en1 _ He1 He' eq_refl).
  - left. destruct (threads w !! t) as [[]|]; simplify_eq. eauto.
  - left. destruct (threads w !! t) as [[e1|e1|e1|e1 o1 r1|e1|e1 r1|e1 r1|e1 r1]|]; try done.
    destruct (entries w !! e1) as [en1|] eqn:He1; simplify_eq. exact (Hset e1 en1 _ He1 He' eq_refl).
  - destruct (threads w !! t) as [[e1|e1|e1|e1 o1 r1|e1|e1 r1|e1 r1|e1 r1]|] eqn:Ht; try done.
    destruct (entries w !! e1) as [en1|] eqn:He1; simplify_eq.
    unfold drop_lease in He'. destruct (_ && _) eqn:Hb; simpl in He'; [|left; exact (Hset e1 en1 _ He1 He' eq_refl)].
    rewrite lookup_insert in He'. case_decide; [subst e1|left; eauto]. right. bool_prop. exists t, en1. done.
  - left. destruct (threads w !! t) as [[e1|e1|e1|e1 o1 r1|e1|e1 r1|e1 r1|e1 r1]|]; try done.
    destruct (entries w !! e1) as [en1|] eqn:He1; simplify_eq. exact (Hset e1 en1 _ He1 He' eq_refl).
  - left. assert (Heq : entries w' = entries w).
    { unfold retire, return_to in Ha.
      destruct (threads w !! t) as [[e1|e1|e1|e1 o1 r1|e1|e1 r1|e1 r1|e1 r1]|]; try done;
        destruct (entries w !! e1); simplify_eq; repeat case_match; done. }
    rewrite Heq in He'. eauto.
Qed.

Lemma acts_requested qs : ∀ w0 w e en,
  acts w0 qs = Some w → entries w !! e = Some en → se_cancellation_requested en = true →
  (∃ en0, entries w0 !! e = Some en0 ∧ se_cancellation_requested en0 = true)
  ∨ ∃ qs1 a qs2 w1, qs = qs1 ++ a :: qs2 ∧ acts w0 qs1 = Some w1 ∧ last_leaves w1 a e.
Proof.
  induction qs as [|a qs IH]; intros w0 w e en Ha He Hr; simpl in Ha; [simplify_eq; eauto|].
  destruct (act w0 a) as [w1|] eqn:Ha1; [|done].
  destruct (IH w1 w e en Ha He Hr) as [(en0 & He0 & Hr0)|(qs1 & a2 & qs2 & w2 & -> & Hw & Hl)].
  - destruct (act_requested _ _ _ _ _ Ha1 He0 Hr0) as [?|Hl]; [by left|right]. by exists [], a, qs, w0.
  - right. exists (a :: qs1), a2, qs2, w2. simpl. by rewrite Ha1.
Qed.

(** One lease is held by one thread. *)
Lemma sole_holder f (m : gmap positive (Point R E)) t p :
  (count f m ≤ 1)%nat → m !! t = Some p → f p = true → ∀ t' p', m !! t' = Some p' → f p' = true → t' = t.
Proof.
  intros Hc Ht Hp t' p' Ht' Hp'. destruct (decide (t' = t)) as [|Hne]; [done|exfalso].
  pose proof (count_delete f m t) as Hd. rewrite Ht in Hd. simpl in Hd. rewrite Hp in Hd. simpl in Hd.
  assert (0 < count f (delete t m))%nat by (apply count_pos; exists t', p'; by rewrite lookup_delete_ne).
  lia.
Qed.

(** ** Properties *)

(** An entry somebody still works on or waits for. *)
Definition live en : Prop := (0 < se_owners en)%nat ∨ se_state en = None.

(** C36. Single flight: in every interleaving a key has at most one live entry,
    it is the one the registry holds, an unsettled entry has exactly one
    thread that will settle it and a settled one has none.  The owners of an
    entry are exactly the threads that hold a lease on it.  So no two producers
    of the same key ever overlap, and the entry of a lease that is held is the
    registry's entry of its key: no racing retirement has removed it. *)
Theorem single_flight l qs w :
  acts (world_new l) qs = Some w →
  (∀ e en, entries w !! e = Some en → live en → registry w !! se_key en = Some e)
  ∧ (∀ e1 e2 en1 en2, entries w !! e1 = Some en1 → entries w !! e2 = Some en2 →
       live en1 → live en2 → se_key en1 = se_key en2 → e1 = e2)
  ∧ (∀ e en, entries w !! e = Some en →
       count (produces e) (threads w) = if se_state en then 0%nat else 1%nat)
  ∧ (∀ e en, entries w !! e = Some en → se_owners en = count (holds_lease e) (threads w))
  ∧ (∀ t p e, threads w !! t = Some p → holds_lease e p = true →
       ∃ en, entries w !! e = Some en ∧ registry w !! se_key en = Some e).
Proof.
  intros [I _]%world_reachable_inv. split_and!.
  - apply (wi_current w I).
  - intros e1 e2 en1 en2 H1 H2 L1 L2 Hk. pose proof (wi_current w I e1 en1 H1 L1).
    pose proof (wi_current w I e2 en2 H2 L2). congruence.
  - intros e en He. rewrite <- (wi_producer w I e en He). unfold running.
    by destruct (se_state en).
  - apply (wi_owners w I).
  - intros t p e Ht Hp. assert (entry_of p = e) as Ee by (unfold holds_lease in Hp; by bool_prop).
    destruct (wi_threads w I t p Ht) as [en He]. rewrite Ee in He. exists en. split; [done|].
    apply (wi_current w I); [done|]. left. rewrite (wi_owners w I e en He). apply count_pos. by exists t, p.
Qed.

(** Every lease of an entry sees the same outcome: once a lease can read
    the outcome of its entry, whatever happens next, every lease of that
    entry, old or new, reads that same outcome. *)
Theorem leases_share_outcome l qs w t e o qs' w' t' :
  acts (world_new l) qs = Some w → threads w !! t = Some (Leased e) →
  lease_outcome w t = Some o → acts w qs' = Some w' → threads w' !! t' = Some (Leased e) →
  lease_outcome w' t' = Some o.
Proof.
  intros [I Ci]%world_reachable_inv Ht Ho Ha Ht'. unfold lease_outcome in *. rewrite Ht in Ho.
  rewrite Ht'. destruct (entries w !! e) as [en|] eqn:He; [|done]. simpl in Ho.
  destruct (acts_outcome _ _ _ _ _ _ I Ci Ha He Ho) as (en' & -> & _ & Hs). done.
Qed.

(** C37. Cancellation follows ownership: owner-bound work without owners has
    had its cancellation requested, and the request is delivered or about to
    be; a producer is told to cancel only behind such a request, which was
    made when the only thread that held a lease dropped it, so that a caller
    who leaves others behind never cancels; and producer-bound work is never
    cancelled by its observers leaving. *)
Theorem cancellation_follows_ownership l qs w e en :
  acts (world_new l) qs = Some w → entries w !! e = Some en →
  (lifetime w = OwnerBound → se_owners en = 0%nat →
     se_cancelled en = true ∨ ∃ t, threads w !! t = Some (Signalling e))
  ∧ (se_cancelled en = true ∨ (∃ t, threads w !! t = Some (Signalling e)) →
     se_cancellation_requested en = true)
  ∧ (se_cancellation_requested en = true →
     ∃ qs1 t qs2 w1, qs = qs1 ++ ADrop t :: qs2 ∧ acts (world_new l) qs1 = Some w1 ∧ lifetime w1 = OwnerBound
       ∧ threads w1 !! t = Some (Leased e)
       ∧ ∀ t' p, threads w1 !! t' = Some p → holds_lease e p = true → t' = t)
  ∧ (lifetime w = ProducerBound → se_cancelled en = false).
Proof.
  intros Hw He. destruct (world_reachable_inv _ _ _ Hw) as [_ Ci]. split_and!.
  - intros Hl H0. eapply (ca_signal w Ci); [done|]. by eapply (ca_requested w Ci).
  - by apply (ca_reason w Ci).
  - intros Hr. destruct (acts_requested _ _ _ _ _ Hw He Hr) as [(en0 & He0 & _)|(qs1 & a & qs2 & w1 & -> & Hw1 & Hl)].
    { simpl in He0. by rewrite lookup_empty in He0. }
    destruct Hl as (t & en1 & -> & Ht & He1 & Hn & Hb). exists qs1, t, qs2, w1. split_and!; [done..|].
    destruct (world_reachable_inv _ _ _ Hw1) as [I _]. intros t' p. revert t' p. eapply sole_holder; [|exact Ht|].
    + rewrite <- (wi_owners w1 I e en1 He1). lia.
    + unfold holds_lease. simpl. by rewrite bool_decide_eq_true_2.
  - intros Hl. apply not_true_iff_false. intros Hc.
    pose proof (ca_bound w Ci e en He Hl). pose proof (ca_reason w Ci e en He (or_introl Hc)).
    congruence.
Qed.

End SharedWork.

(** ** Witnesses *)

Section Demo.

(** Two callers of one key: the first starts it, the second joins while the
    producer finishes, the first leaves. *)
Definition demo_acts : list (Action positive Z unit) :=
  [AJoin 1 7%positive 100; ASpawn 1 2; AJoin 3 7%positive 101; AProduce 2 (Ok 42%Z); AFinish 2;
   ADrop 1; ARetire 2].
Definition demo_world : World positive Z unit :=
  default (world_new OwnerBound) (acts (world_new OwnerBound) demo_acts).

Lemma single_flight_witness :
  acts (world_new OwnerBound) demo_acts = Some demo_world
  ∧ ∀ e en, entries demo_world !! e = Some en → live en →
      registry demo_world !! se_key en = Some e.
Proof.
  split; [vm_compute; reflexivity|]. apply (single_flight OwnerBound demo_acts demo_world). vm_compute. reflexivity.
Defined.

Lemma leases_share_outcome_witness :
  lease_outcome (default demo_world (acts demo_world [AJoin 4 7%positive 102])) 4
  = Some (Ok 42%Z).
Proof.
  apply (leases_share_outcome OwnerBound demo_acts demo_world 3 100 (Ok 42%Z)
           [AJoin 4 7%positive 102]).
  - vm_compute. reflexivity.
  - vm_compute. reflexivity.
  - vm_compute. reflexivity.
  - vm_compute. reflexivity.
  - vm_compute. reflexivity.
Defined.

(** The only caller leaves while the producer still runs. *)
Definition left_world : World positive Z unit :=
  default (world_new OwnerBound)
    (acts (world_new OwnerBound) [AJoin 1 7%positive 100; ASpawn 1 2; ADrop 1]).
Definition left_entry : SharedWorkEntry positive Z unit :=
  default (entry_new 7%positive) (entries left_world !! 100%positive).

Lemma cancellation_follows_ownership_witness :
  se_cancelled left_entry = true ∨ ∃ t, threads left_world !! t = Some (Signalling 100).
Proof.
  apply (cancellation_follows_ownership OwnerBound
    [AJoin 1 7%positive 100; ASpawn 1 2; ADrop 1] left_world 100 left_entry).
  - vm_compute. reflexivity.
  - vm_compute. reflexivity.
  - reflexivity.
  - vm_compute. reflexivity.
Defined.

End Demo.
