(* ===== verification/Deadlines.v ===== *)
(** * Deadlines and waiting windows

    [operation_deadline.rs], [provider_deadline.rs], [elapsed_budget.rs] and
    [long_work.rs] of [crates/unica-work-control/src].  A [Duration] is its
    number of nanoseconds, an [Instant] its position on the monotonic clock;
    the clock is an argument of the operations that read it. *)

From Stdlib Require Import ZArith Lia.
From stdpp Require Import base option numbers.
From S2P Require Import Prelude.

Local Open Scope Z_scope.

(** ** [Duration] and [Instant] *)

Definition duration_max : Z := (u64_max + 1) * 1000000000 - 1.
Definition is_duration (d : Z) : Prop := 0 ≤ d ≤ duration_max.

Definition duration_saturating_add (a b : Z) : Z := Z.min (a + b) duration_max.
Definition duration_saturating_sub (a b : Z) : Z := Z.max (a - b) 0.
Definition duration_checked_sub (a b : Z) : option Z :=
  if b <=? a then Some (a - b) else None.
(** [Instant::checked_duration_since] and its saturating forms. *)
Definition checked_duration_since (later earlier : Z) : option Z :=
  if earlier <=? later then Some (later - earlier) else None.
Definition saturating_duration_since (later earlier : Z) : Z :=
  default 0 (checked_duration_since later earlier).

(** ** [OperationDeadline] *)

Inductive OperationDeadline (T : Type) :=
| NoDeadline
| Finite (t : T).
Arguments NoDeadline {T}.
Arguments Finite {T} t.

Definition remaining_at (d : OperationDeadline Z) (now : Z) : option Z :=
  match d with
  | NoDeadline => None
  | Finite deadline => Some (saturating_duration_since deadline now)
  end.
Definition is_elapsed_at (d : OperationDeadline Z) (now : Z) : bool :=
  match d with NoDeadline => false | Finite deadline => deadline <=? now end.
Definition as_instant (d : OperationDeadline Z) : option Z :=
  match d with NoDeadline => None | Finite deadline => Some deadline end.
(** [From<Option<Instant>>]. *)
Definition deadline_from (d : option Z) : OperationDeadline Z :=
  match d with None => NoDeadline | Some t => Finite t end.

(** ** [ProviderDeadline] *)

Record RelativeProviderDeadline := mkRelativeProviderDeadline {
  started_at : Z;
  rp_budget : Z;
}.
Definition ProviderDeadline : Type := OperationDeadline RelativeProviderDeadline.

Inductive ProviderDeadlineError := Unsupported.

Definition from_started_at (started budget : Z) : ProviderDeadline :=
  Finite (mkRelativeProviderDeadline started budget).
(** [new] and [from_budget], with the clock reading they start from. *)
Definition provider_new (clock deadline : Z) : ProviderDeadline :=
  from_started_at clock (default 0 (checked_duration_since deadline clock)).
Definition from_budget (clock budget : Z) : ProviderDeadline := from_started_at clock budget.

(** [PartialEq::eq]. *)
Definition provider_eq (a b : ProviderDeadline) : bool :=
  match a, b with
  | NoDeadline, NoDeadline => true
  | Finite lhs, Finite rhs =>
      if started_at lhs <=? started_at rhs
      then bool_decide (duration_checked_sub (rp_budget lhs) (rp_budget rhs)
                        = checked_duration_since (started_at rhs) (started_at lhs))
      else bool_decide (duration_checked_sub (rp_budget rhs) (rp_budget lhs)
                        = checked_duration_since (started_at lhs) (started_at rhs))
  | _, _ => false
  end.

(** [ProviderDeadline::earlier]. *)
Definition earlier (a b : ProviderDeadline) : ProviderDeadline :=
  match a, b with
  | NoDeadline, _ => b
  | _, NoDeadline => a
  | Finite lhs, Finite rhs =>
      let '(first, second) :=
        if started_at lhs <=? started_at rhs then (lhs, rhs) else (rhs, lhs) in
      let second_end :=
        duration_saturating_add (rp_budget second)
          (saturating_duration_since (started_at second) (started_at first)) in
      if rp_budget first <=? second_end then Finite first else Finite second
  end.

(** [ProviderDeadline::remaining] at the clock reading [now]. *)
Definition remaining (d : ProviderDeadline) (now : Z) : option Z :=
  match d with
  | NoDeadline => None
  | Finite f =>
      let elapsed := default 0 (checked_duration_since now (started_at f)) in
      Some (default 0 (duration_checked_sub (rp_budget f) elapsed))
  end.
Definition is_elapsed (d : ProviderDeadline) (now : Z) : bool :=
  is_some_and (λ r, r =? 0) (remaining d now).
Definition finite_remaining (d : ProviderDeadline) (now : Z) : result Z ProviderDeadlineError :=
  ok_or (remaining d now) Unsupported.
Definition wait_slice (d : ProviderDeadline) (now pacing : Z) : Z :=
  match remaining d now with Some r => Z.min r pacing | None => pacing end.

(** ** [ElapsedBudgetDeadline] *)

Record ElapsedBudgetDeadline := mkElapsedBudgetDeadline { eb_started : Z; eb_budget : Z }.
Definition elapsed_remaining (d : ElapsedBudgetDeadline) (now : Z) : option Z :=
  match duration_checked_sub (eb_budget d) (saturating_duration_since now (eb_started d)) with
  | Some r => if r =? 0 then None else Some r
  | None => None
  end.

(** ** The synchronous window *)

Definition DEFAULT_SYNC_WINDOW : Z := 30 * 1000000000.
Definition HOST_CUT_MARGIN : Z := 2 * 1000000000.
Definition sync_window (host_deadline : option Z) : Z :=
  match host_deadline with
  | Some deadline => Z.min (duration_saturating_sub deadline HOST_CUT_MARGIN) DEFAULT_SYNC_WINDOW
  | None => DEFAULT_SYNC_WINDOW
  end.

(** ** End points *)

(** When a deadline falls, if ever. *)
Definition endpoint (d : ProviderDeadline) : option Z :=
  match d with NoDeadline => None | Finite f => Some (started_at f + rp_budget f) end.

Definition deadline_ok (d : ProviderDeadline) : Prop :=
  match d with NoDeadline => True | Finite f => is_duration (rp_budget f) end.

(** The earlier of two end points, absence being never. *)
Definition min_end (a b : option Z) : option Z :=
  match a, b with
  | None, _ => b
  | _, None => a
  | Some x, Some y => Some (Z.min x y)
  end.

Lemma provider_eq_endpoint a b : provider_eq a b = true ↔ endpoint a = endpoint b.
Proof.
  destruct a as [|[sa ba]], b as [|[sb bb]]; simpl; try done.
  unfold duration_checked_sub, checked_duration_since. destruct (Z.leb_spec sa sb); simpl.
  - rewrite bool_decide_eq_true.
    destruct (Z.leb_spec bb ba); split; intros [=]; f_equal; lia.
  - rewrite bool_decide_eq_true, (proj2 (Z.leb_le sb sa)) by lia.
    destruct (Z.leb_spec ba bb); split; intros [=]; f_equal; lia.
Qed.

Lemma earlier_endpoint a b :
  deadline_ok a → deadline_ok b → endpoint (earlier a b) = min_end (endpoint a) (endpoint b).
Proof.
  destruct a as [|[sa ba]], b as [|[sb bb]]; simpl; try done. unfold is_duration. intros Ha Hb.
  unfold duration_saturating_add, saturating_duration_since, checked_duration_since.
  destruct (Z.leb_spec sa sb); simpl.
  - rewrite (proj2 (Z.leb_le sa sb)) by lia. simpl.
    destruct (Z.leb_spec ba (Z.min (bb + (sb - sa)) duration_max)); simpl; f_equal; lia.
  - rewrite (proj2 (Z.leb_le sb sa)) by lia. simpl.
    destruct (Z.leb_spec bb (Z.min (ba + (sa - sb)) duration_max)); simpl; f_equal; lia.
Qed.

Lemma earlier_ok a b : deadline_ok a → deadline_ok b → deadline_ok (earlier a b).
Proof.
  destruct a as [|fa], b as [|fb]; simpl; try done. intros Ha Hb.
  destruct (started_at fa <=? started_at fb); case_match; done.
Qed.

(** ** Deadlines up to their end point *)

Definition same_deadline (a b : ProviderDeadline) : Prop := provider_eq a b = true.

#[export] Instance same_deadline_equiv : Equivalence same_deadline.
Proof.
  unfold same_deadline. split.
  - intros a. by apply provider_eq_endpoint.
  - intros a b. by rewrite !provider_eq_endpoint.
  - intros a b c. rewrite !provider_eq_endpoint. congruence.
Qed.

Lemma min_end_comm a b : min_end a b = min_end b a.
Proof. destruct a, b; simpl; f_equal; lia. Qed.
Lemma min_end_assoc a b c : min_end a (min_end b c) = min_end (min_end a b) c.
Proof. destruct a, b, c; simpl; f_equal; lia. Qed.

(** The clock has passed the start of the deadline. *)
Definition started (d : ProviderDeadline) (now : Z) : Prop :=
  match d with NoDeadline => True | Finite f => started_at f ≤ now end.

Lemma remaining_endpoint d now :
  deadline_ok d → started d now →
  remaining d now = (λ e, Z.max (e - now) 0) <$> endpoint d.
Proof.
  destruct d as [|[s b]]; simpl; [done|]. unfold is_duration. intros Hb Hs.
  unfold checked_duration_since, duration_checked_sub.
  rewrite (proj2 (Z.leb_le s now)) by lia. simpl.
  destruct (Z.leb_spec (now - s) b); simpl; f_equal; lia.
Qed.

Lemma earlier_started a b now : started a now → started b now → started (earlier a b) now.
Proof.
  destruct a as [|fa], b as [|fb]; simpl; try done. intros Ha Hb.
  destruct (started_at fa <=? started_at fb); case_match; done.
Qed.

(** ** Properties *)

(** Combining deadlines is exact and never invents or loses one: the
    earlier of two deadlines leaves, at any clock reading after both started,
    the smaller of the times they leave (no deadline leaving unbounded time);
    up to the equality of the code it is commutative, associative and
    idempotent, and equality means falling at the same moment. *)
Theorem earlier_is_meet a b c now :
  deadline_ok a → deadline_ok b → deadline_ok c → started a now → started b now →
  remaining (earlier a b) now = min_end (remaining a now) (remaining b now)
  ∧ same_deadline (earlier a b) (earlier b a)
  ∧ same_deadline (earlier a (earlier b c)) (earlier (earlier a b) c)
  ∧ same_deadline (earlier a a) a
  ∧ (same_deadline a b ↔ endpoint a = endpoint b).
Proof.
  intros Ha Hb Hc Sa Sb. unfold same_deadline. rewrite !provider_eq_endpoint.
  rewrite !earlier_endpoint; auto using earlier_ok. split_and!.
  - rewrite !remaining_endpoint; auto using earlier_ok, earlier_started.
    rewrite earlier_endpoint by done.
    destruct (endpoint a), (endpoint b); simpl; f_equal; lia.
  - apply min_end_comm.
  - apply min_end_assoc.
  - destruct (endpoint a); simpl; f_equal; lia.
  - done.
Qed.

(** ** Witnesses *)

Lemma earlier_is_meet_witness :
  remaining (earlier (from_started_at 10 50) (from_started_at 20 30)) 25 = Some 25
  ∧ remaining (earlier (from_started_at 10 50) (from_started_at 20 30)) 25
    = min_end (remaining (from_started_at 10 50) 25) (remaining (from_started_at 20 30) 25).
Proof.
  split; [vm_compute; reflexivity|].
  apply (earlier_is_meet (from_started_at 10 50) (from_started_at 20 30) NoDeadline 25).
  - vm_compute. split; discriminate.
  - vm_compute. split; discriminate.
  - exact I.
  - vm_compute. discriminate.
  - vm_compute. discriminate.
Defined.

Example short_host_deadline : sync_window (Some (15 * 1000000000)) = 13 * 1000000000.
Proof. vm_compute. reflexivity. Qed.
