(* ===== verification/Cancellation.v ===== *)
(** * Cancellation tokens

    [crates/unica-work-control/src/cancellation.rs].  A token is a bundle of
    references: its own signal, the signals it observes, the dispatch gate and
    two cells that record facts.  The referenced cells live in a heap that
    clones and children share.  Threads interleave at the granularity of the
    source's atomic accesses: [Point] is where a thread stands inside
    [cancel], [spawn_with_gate] or [handoff_with_gate] while it holds the
    gate, [act] is one step.  A poisoned gate is taken over
    ([PoisonError::into_inner]), so a panicking closure just releases it. *)

From Stdlib Require Import ZArith Lia.
From stdpp Require Import base gmap list option numbers.
From S2P Require Import Prelude.

Local Open Scope Z_scope.

Inductive FactualOutcomeAuthority :=
| Cancellable
| StartedExternalProcess
| CommittedWorkspaceApply.
#[export] Instance FactualOutcomeAuthority_eq_dec : EqDecision FactualOutcomeAuthority.
Proof. solve_decision. Defined.

(** The [repr(u8)] discriminant. *)
Definition discriminant (a : FactualOutcomeAuthority) : Z :=
  match a with Cancellable => 0 | StartedExternalProcess => 1 | CommittedWorkspaceApply => 2 end.

(** References into the heap. *)
Record CancellationToken := mkCancellationToken {
  own_signal : positive;
  observed_signals : list positive;
  dispatch_gate : positive;
  protected_started : positive;
  factual_outcome : positive;
  protect_on_spawn : bool;
}.

Record Heap := mkHeap {
  h_signals : gmap positive bool;
  h_gates : gmap positive nat;        (** the thread that holds the gate *)
  h_started : gmap positive bool;
  h_factual : gmap positive Z;
  h_next : positive;                  (** the next cell to allocate *)
}.
Definition heap_empty : Heap := mkHeap ∅ ∅ ∅ ∅ 1.

Definition set_signals (f : gmap positive bool → gmap positive bool) (h : Heap) : Heap :=
  mkHeap (f (h_signals h)) (h_gates h) (h_started h) (h_factual h) (h_next h).
Definition set_gates (f : gmap positive nat → gmap positive nat) (h : Heap) : Heap :=
  mkHeap (h_signals h) (f (h_gates h)) (h_started h) (h_factual h) (h_next h).
Definition set_started (f : gmap positive bool → gmap positive bool) (h : Heap) : Heap :=
  mkHeap (h_signals h) (h_gates h) (f (h_started h)) (h_factual h) (h_next h).
Definition set_factual (f : gmap positive Z → gmap positive Z) (h : Heap) : Heap :=
  mkHeap (h_signals h) (h_gates h) (h_started h) (f (h_factual h)) (h_next h).

Definition load_signal (h : Heap) (c : positive) : bool := default false (h_signals h !! c).

(** [CancellationToken::default] and [new]. *)
Definition token_new (h : Heap) : Heap * CancellationToken :=
  let c := h_next h in
  (mkHeap (<[c := false]> (h_signals h)) (h_gates h) (<[c := false]> (h_started h))
     (<[c := discriminant Cancellable]> (h_factual h)) (c + 1),
   mkCancellationToken c [c] c c c false).

(** [is_cancelled]. *)
Definition is_cancelled (h : Heap) (t : CancellationToken) : bool :=
  existsb (load_signal h) (observed_signals t).

(** [linked_child]. *)
Definition linked_child (h : Heap) (t : CancellationToken) : Heap * CancellationToken :=
  let c := h_next h in
  (mkHeap (<[c := false]> (h_signals h)) (h_gates h) (<[c := false]> (h_started h))
     (<[c := discriminant Cancellable]> (h_factual h)) (c + 1),
   mkCancellationToken c (observed_signals t ++ [c]) (dispatch_gate t) c c false).

(** [protect_process_on_spawn]. *)
Definition protect_process_on_spawn (t : CancellationToken) : CancellationToken :=
  mkCancellationToken (own_signal t) (observed_signals t) (dispatch_gate t)
    (protected_started t) (factual_outcome t) true.

(** [record_committed_apply]. *)
Definition record_committed_apply (h : Heap) (t : CancellationToken) : Heap :=
  set_factual <[factual_outcome t := discriminant CommittedWorkspaceApply]> h.

Definition protected_process_started (h : Heap) (t : CancellationToken) : bool :=
  default false (h_started h !! protected_started t).

(** [factual_outcome_authority]. *)
Definition factual_outcome_authority (h : Heap) (t : CancellationToken)
  : FactualOutcomeAuthority :=
  if bool_decide (h_factual h !! factual_outcome t = Some (discriminant CommittedWorkspaceApply))
  then CommittedWorkspaceApply
  else if protected_process_started h t then StartedExternalProcess
  else Cancellable.

(** ** Threads *)

(** The two operations that run an effect under the gate. *)
Inductive Kind := Spawn | Handoff.

(** How a closure ends. *)
Inductive Closure := Returned | Refused | Panicked.

Inductive Point :=
| CancelLocked (t : CancellationToken)     (** before the store of the signal *)
| CancelStored (t : CancellationToken)     (** before the gate is dropped *)
| Checking (k : Kind) (t : CancellationToken) (rest : list positive)
    (** [is_cancelled] has [rest] left to load *)
| Effect (k : Kind) (t : CancellationToken)      (** the closure runs *)
| Performed (k : Kind) (t : CancellationToken)   (** it returned [Ok] *)
| Leaving (t : CancellationToken) (r : result (option CancellationToken) unit).
    (** the result is known, the gate is about to be dropped *)

Definition token_of (p : Point) : CancellationToken :=
  match p with
  | CancelLocked t | CancelStored t | Checking _ t _ | Effect _ t | Performed _ t
  | Leaving t _ => t
  end.

Record System := mkSystem {
  heap : Heap;
  tokens : list CancellationToken;          (** every token created so far *)
  threads : gmap nat Point;
  effects : list positive;                  (** [protected_started] of each effect performed *)
  results : list (nat * result (option CancellationToken) unit);
}.
Definition system_empty : System := mkSystem heap_empty [] ∅ [] [].

(** A thread moves to a point with the heap [h]. *)
Definition goto (s : System) (th : nat) (h : Heap) (p : Point) : System :=
  mkSystem h (tokens s) (<[th := p]> (threads s)) (effects s) (results s).
Definition add_token (s : System) (ht : Heap * CancellationToken) : System :=
  mkSystem ht.1 (tokens s ++ [ht.2]) (threads s) (effects s) (results s).

(** What a caller asks for. *)
Inductive Call := CCancel | CSpawn | CHandoff.

Definition first_point (c : Call) (t : CancellationToken) : Point :=
  match c with
  | CCancel => CancelLocked t
  | CSpawn => Checking Spawn t (observed_signals t)
  | CHandoff => Checking Handoff t (observed_signals t)
  end.

(** The step of a thread inside [cancel], [spawn_with_gate] (of a protected
    token) or [handoff_with_gate]; the closure ends as [c] when it is its turn. *)
Definition run_thread (s : System) (th : nat) (p : Point) (c : Closure) : System :=
  match p with
  | CancelLocked t => goto s th (set_signals <[own_signal t := true]> (heap s)) (CancelStored t)
  | CancelStored t | Leaving t _ =>
      mkSystem (set_gates (delete (dispatch_gate t)) (heap s)) (tokens s) (delete th (threads s))
        (effects s) (match p with Leaving _ r => results s ++ [(th, r)] | _ => results s end)
  | Checking k t [] => goto s th (heap s) (Effect k t)
  | Checking k t (sg :: rest) =>
      if load_signal (heap s) sg then goto s th (heap s) (Leaving t (Err tt))
      else goto s th (heap s) (Checking k t rest)
  | Effect k t =>
      match c with
      | Returned =>
          mkSystem (heap s) (tokens s) (<[th := Performed k t]> (threads s))
            (effects s ++ [protected_started t]) (results s)
      | Refused => goto s th (heap s) (Leaving t (Err tt))
      | Panicked =>
          mkSystem (set_gates (delete (dispatch_gate t)) (heap s)) (tokens s)
            (delete th (threads s)) (effects s) (results s)
      end
  | Performed k t =>
      let h := set_started <[protected_started t := true]> (heap s) in
      match k with
      | Spawn =>
          let '(h, fresh) := token_new h in
          mkSystem h (tokens s ++ [fresh]) (<[th := Leaving t (Ok (Some fresh))]> (threads s))
            (effects s) (results s)
      | Handoff => goto s th h (Leaving t (Ok None))
      end
  end.

Inductive Action :=
| New
| LinkedChild (i : nat)
| ProtectOnSpawn (i : nat)
| RecordCommittedApply (i : nat)
| SpawnUnprotected (th i : nat) (c : Closure)
| Enter (th i : nat) (c : Call)
| Advance (th : nat) (c : Closure).

(** One step; [None] when it is not enabled (the gate is held by another
    thread, the thread is busy, there is no such token). *)
Definition act (s : System) (a : Action) : option System :=
  match a with
  | New => Some (add_token s (token_new (heap s)))
  | LinkedChild i => t ← tokens s !! i; Some (add_token s (linked_child (heap s) t))
  | ProtectOnSpawn i =>
      t ← tokens s !! i; Some (add_token s (heap s, protect_process_on_spawn t))
  | RecordCommittedApply i =>
      t ← tokens s !! i;
      Some (mkSystem (record_committed_apply (heap s) t) (tokens s) (threads s) (effects s)
              (results s))
  | SpawnUnprotected th i c =>
      t ← tokens s !! i;
      if protect_on_spawn t then None
      else Some (match c with
                 | Returned => mkSystem (heap s) (tokens s) (threads s) (effects s)
                                 (results s ++ [(th, Ok (Some t))])
                 | Refused => mkSystem (heap s) (tokens s) (threads s) (effects s)
                                (results s ++ [(th, Err tt)])
                 | Panicked => s
                 end)
  | Enter th i c =>
      t ← tokens s !! i;
      match threads s !! th, h_gates (heap s) !! dispatch_gate t, c, protect_on_spawn t with
      | None, None, CSpawn, false => None
      | None, None, _, _ =>
          Some (goto s th (set_gates <[dispatch_gate t := th]> (heap s)) (first_point c t))
      | _, _, _, _ => None
      end
  | Advance th c => p ← threads s !! th; Some (run_thread s th p c)
  end.

Inductive reachable : System → Prop :=
| reachable_empty : reachable system_empty
| reachable_act s a s' : reachable s → act s a = Some s' → reachable s'.

(** ** The heap *)

(** [h'] has the cells of [h] unchanged, and possibly new ones. *)
Record grows (h h' : Heap) : Prop := {
  g_next : (h_next h ≤ h_next h')%positive;
  g_signals : ∀ c, (c < h_next h)%positive → h_signals h' !! c = h_signals h !! c;
  g_gates : h_gates h' = h_gates h;
  g_started : ∀ c, (c < h_next h)%positive → h_started h' !! c = h_started h !! c;
  g_factual : ∀ c, (c < h_next h)%positive → h_factual h' !! c = h_factual h !! c;
  g_fresh : ∀ c, (h_next h ≤ c)%positive → h_started h' !! c = Some true → h_started h !! c = Some true;
}.

Lemma grows_refl h : grows h h.
Proof. split; first [done|lia]. Qed.

Lemma token_new_grows h : grows h (token_new h).1.
Proof.
  split; cbn; try lia; try done; intros c Hc; try (by rewrite lookup_insert_ne by lia).
  rewrite lookup_insert_Some. naive_solver.
Qed.

(** Both constructors allocate the same cells. *)
Lemma linked_child_grows h t : grows h (linked_child h t).1.
Proof. exact (token_new_grows h). Qed.

Lemma load_signal_grows h h' c :
  grows h h' → (c < h_next h)%positive → load_signal h' c = load_signal h c.
Proof. intros G Hc. unfold load_signal. by rewrite (g_signals _ _ G). Qed.

Lemma load_signal_store h o c :
  load_signal (set_signals <[o := true]> h) c = bool_decide (c = o) || load_signal h c.
Proof.
  unfold load_signal. cbn. case_bool_decide; subst; simplify_map_eq; done.
Qed.

Lemma is_cancelled_false h t :
  is_cancelled h t = false ↔ ∀ c, c ∈ observed_signals t → load_signal h c = false.
Proof.
  unfold is_cancelled. induction (observed_signals t) as [|c l IH]; cbn [existsb].
  - split; [|done]. intros _ c Hc. by apply not_elem_of_nil in Hc.
  - rewrite orb_false_iff, IH. setoid_rewrite elem_of_cons. naive_solver.
Qed.

Lemma is_cancelled_true h t :
  is_cancelled h t = true ↔ ∃ c, c ∈ observed_signals t ∧ load_signal h c = true.
Proof.
  unfold is_cancelled. rewrite existsb_exists. setoid_rewrite list_elem_of_In. done.
Qed.

(** ** The invariant *)

Definition cells (t : CancellationToken) : list positive :=
  own_signal t :: protected_started t :: factual_outcome t :: dispatch_gate t
  :: observed_signals t.

Definition token_ok (h : Heap) (t : CancellationToken) : Prop :=
  own_signal t ∈ observed_signals t ∧ ∀ c, c ∈ cells t → (c < h_next h)%positive.

(** What is known of the signals at a point. *)
Definition point_ok (h : Heap) (p : Point) : Prop :=
  match p with
  | CancelLocked _ => True
  | CancelStored t => load_signal h (own_signal t) = true
  | Checking _ t rest =>
      ∃ seen, observed_signals t = seen ++ rest ∧ ∀ c, c ∈ seen → load_signal h c = false
  | Effect _ t | Performed _ t => is_cancelled h t = false
  | Leaving t r => is_ok r = true → is_cancelled h t = false
  end.

Record inv (s : System) : Prop := {
  i_tokens : ∀ t, t ∈ tokens s → token_ok (heap s) t;
  i_home : ∀ a b, a ∈ tokens s → b ∈ tokens s → own_signal a ∈ observed_signals b →
    dispatch_gate a = dispatch_gate b;
  i_threads : ∀ th p, threads s !! th = Some p →
    token_of p ∈ tokens s ∧ h_gates (heap s) !! dispatch_gate (token_of p) = Some th
    ∧ point_ok (heap s) p;
  i_started : ∀ c, h_started (heap s) !! c = Some true → c ∈ effects s;
  i_effects : ∀ c, c ∈ effects s → (c < h_next (heap s))%positive
    ∧ (h_started (heap s) !! c = Some true
       ∨ ∃ th k t, threads s !! th = Some (Performed k t) ∧ protected_started t = c);
  i_performed : ∀ th k t, threads s !! th = Some (Performed k t) → protected_started t ∈ effects s;
}.

Lemma token_ok_mono h h' t : (h_next h ≤ h_next h')%positive → token_ok h t → token_ok h' t.
Proof. intros Hn [Ho Hc]. split; [done|]. intros c Hin. specialize (Hc c Hin). lia. Qed.

Lemma observed_bound h t c : token_ok h t → c ∈ observed_signals t → (c < h_next h)%positive.
Proof. intros [_ H] Hc. apply H. unfold cells. do 4 right. done. Qed.

Lemma is_cancelled_grows h h' t :
  grows h h' → token_ok h t → is_cancelled h' t = is_cancelled h t.
Proof.
  intros G Hok. destruct (is_cancelled h t) eqn:E.
  - apply is_cancelled_true in E as (c & Hc & Hl). apply is_cancelled_true. exists c.
    split; [done|]. rewrite (load_signal_grows h); eauto using observed_bound.
  - apply is_cancelled_false. intros c Hc. rewrite (load_signal_grows h); eauto using observed_bound.
    by apply is_cancelled_false with t.
Qed.

(** The points keep their facts when the signals of their tokens do. *)
Lemma point_ok_ext h h' p :
  own_signal (token_of p) ∈ observed_signals (token_of p) →
  (∀ c, c ∈ observed_signals (token_of p) → load_signal h' c = load_signal h c) →
  point_ok h p → point_ok h' p.
Proof.
  intros Ho Heq. destruct p as [t|t|k t rest|k t|k t|t r]; cbn in *; try done.
  - by rewrite Heq.
  - intros (seen & E & Hs). exists seen. split; [done|]. intros c Hc. rewrite Heq; [by auto|].
    rewrite E. apply elem_of_app. by left.
  - rewrite !is_cancelled_false. intros H c Hc. rewrite Heq; auto.
  - rewrite !is_cancelled_false. intros H c Hc. rewrite Heq; auto.
  - rewrite !is_cancelled_false. intros H Hr c Hc. rewrite Heq; auto.
Qed.

Lemma point_ok_grows h h' p :
  grows h h' → token_ok h (token_of p) → point_ok h p → point_ok h' p.
Proof.
  intros G Hok. apply point_ok_ext; [by destruct Hok|].
  intros c Hc. eauto using load_signal_grows, observed_bound.
Qed.

(** ** The invariant is preserved *)

Lemma inv_add s h t :
  inv s → grows (heap s) h → token_ok h t →
  (∀ a, a ∈ tokens s → own_signal a ∈ observed_signals t → dispatch_gate a = dispatch_gate t) →
  (∀ b, b ∈ tokens s → own_signal t ∈ observed_signals b → dispatch_gate t = dispatch_gate b) →
  inv (add_token s (h, t)).
Proof.
  intros [It Ih Ith Is Ie Ip] G Ht Ha Hb. split; cbn.
  - intros t' [Hin | ->%list_elem_of_singleton]%elem_of_app; [|done].
    eapply token_ok_mono; [apply G|auto].
  - intros a b [Hin | ->%list_elem_of_singleton]%elem_of_app
      [Hin' | ->%list_elem_of_singleton]%elem_of_app; auto.
  - intros th p Hp. destruct (Ith th p Hp) as (H1 & H2 & H3). split_and!.
    + apply elem_of_app. by left.
    + by rewrite (g_gates _ _ G).
    + eapply point_ok_grows; eauto.
  - intros c Hc. apply Is. destruct (decide (c < h_next (heap s))%positive) as [Hlt|Hge].
    + by rewrite <- (g_started _ _ G).
    + apply (g_fresh _ _ G); [lia|done].
  - intros c Hc. destruct (Ie c Hc) as [Hlt Hst]. split.
    + pose proof (g_next _ _ G). lia.
    + destruct Hst as [Hst|Hst]; [left|by right]. by rewrite (g_started _ _ G).
  - done.
Qed.

Lemma fresh_not_observed s t : inv s → t ∈ tokens s → h_next (heap s) ∉ observed_signals t.
Proof. intros I Ht Hin. pose proof (observed_bound _ _ _ (i_tokens s I t Ht) Hin). lia. Qed.

Lemma inv_new s : inv s → inv (add_token s (token_new (heap s))).
Proof.
  intros I. apply inv_add; [done|apply token_new_grows|..].
  - split; cbn; [by left|]. unfold cells. cbn. intros c Hc. set_unfold in Hc. intuition subst; lia.
  - intros a Ha Ho. cbn in Ho. apply list_elem_of_singleton in Ho.
    destruct (i_tokens s I a Ha) as [Hown _]. rewrite Ho in Hown.
    by destruct (fresh_not_observed s a I Ha Hown).
  - intros b Hb Ho. by destruct (fresh_not_observed s b I Hb Ho).
Qed.

Lemma inv_linked_child s t : inv s → t ∈ tokens s → inv (add_token s (linked_child (heap s) t)).
Proof.
  intros I Ht. apply inv_add; [done|apply (linked_child_grows _ t)|..].
  - destruct (i_tokens s I t Ht) as [Hown Hcells]. unfold cells in Hcells.
    split; cbn; [apply elem_of_app; right; by left|].
    unfold cells. cbn. intros c Hc. set_unfold in Hc.
    assert (Hold : c ∈ observed_signals t ∨ c = dispatch_gate t → (c < h_next (heap s) + 1)%positive).
    { intros Hor. enough (c < h_next (heap s))%positive by lia. apply Hcells. set_unfold. tauto. }
    intuition (subst; try lia).
  - intros a Ha [Ho | Ho%list_elem_of_singleton]%elem_of_app.
    + by apply (i_home s I a t).
    + destruct (i_tokens s I a Ha) as [Hown _]. rewrite Ho in Hown.
      by destruct (fresh_not_observed s a I Ha Hown).
  - intros b Hb Ho. by destruct (fresh_not_observed s b I Hb Ho).
Qed.

Lemma inv_protect s t :
  inv s → t ∈ tokens s → inv (add_token s (heap s, protect_process_on_spawn t)).
Proof.
  intros I Ht. apply inv_add; [done|apply grows_refl|..].
  - apply (i_tokens s I t Ht).
  - intros a Ha. apply (i_home s I a t Ha Ht).
  - intros b Hb. apply (i_home s I t b Ht Hb).
Qed.

(** A thread inside the gate moves to [p'], changing the heap. *)
Lemma inv_move s th p p' h effs :
  inv s → threads s !! th = Some p → token_of p' = token_of p →
  h_next h = h_next (heap s) → h_gates h = h_gates (heap s) → point_ok h p' →
  (∀ th' q, th' ≠ th → threads s !! th' = Some q → point_ok h q) →
  (∀ c, h_started h !! c = Some true → c ∈ effs) →
  (∀ c, c ∈ effects s → c ∈ effs) → (∀ k t, p' = Performed k t → protected_started t ∈ effs) →
  (∀ c, c ∈ effs → (c < h_next h)%positive
     ∧ (h_started h !! c = Some true
        ∨ ∃ th' k t, <[th := p']> (threads s) !! th' = Some (Performed k t) ∧ protected_started t = c)) →
  inv (mkSystem h (tokens s) (<[th := p']> (threads s)) effs (results s)).
Proof.
  intros [It Ih Ith Is Ie Ip] Hth Htok Hn Hg Hp' Hq Hs Hsub Hperf He. split; cbn; try done.
  - intros t Ht. eapply token_ok_mono; [|by apply It]. rewrite Hn. lia.
  - intros th' q [[<- <-]|[Hne Hq']]%lookup_insert_Some.
    + rewrite Htok, Hg. destruct (Ith th p Hth) as (? & ? & _). auto.
    + rewrite Hg. destruct (Ith th' q Hq') as (? & ? & _). eauto.
  - intros th' k t [[_ E]|[Hne Hq']]%lookup_insert_Some; eauto.
Qed.

(** A thread that leaves drops the gate. *)
Lemma inv_leave s th p rs :
  inv s → threads s !! th = Some p → (∀ k t, p ≠ Performed k t) →
  inv (mkSystem (set_gates (delete (dispatch_gate (token_of p))) (heap s)) (tokens s)
         (delete th (threads s)) (effects s) rs).
Proof.
  intros [It Ih Ith Is Ie Ip] Hth Hnp. split; cbn; try done.
  - intros th' q [Hne Hq]%lookup_delete_Some. destruct (Ith th' q Hq) as (H1 & H2 & H3).
    split_and!; [done| |done]. rewrite lookup_delete_ne; [done|]. intros E.
    destruct (Ith th p Hth) as (_ & Hg & _). rewrite E in Hg. congruence.
  - intros c Hc. destruct (Ie c Hc) as [Hlt Hst]. split; [done|].
    destruct Hst as [|(th' & k & t & Hp & <-)]; [by left|]. right. exists th', k, t.
    split; [|done]. rewrite lookup_delete_ne; [done|]. intros ->.
    rewrite Hp in Hth. injection Hth as <-. by destruct (Hnp k t).
  - intros th' k t [_ Hq]%lookup_delete_Some. eauto.
Qed.

(** Storing a signal under the gate leaves the other threads' facts alone. *)
Lemma store_signal_others s th t th' q :
  inv s → threads s !! th = Some (CancelLocked t) → th' ≠ th → threads s !! th' = Some q →
  point_ok (set_signals <[own_signal t := true]> (heap s)) q.
Proof.
  intros I Hth Hne Hq. destruct (i_threads s I th' q Hq) as (Hin & Hg & Hp).
  destruct (i_threads s I th _ Hth) as (Hin' & Hg' & _). cbn in Hin', Hg'.
  refine (point_ok_ext (heap s) _ q _ _ Hp); [by destruct (i_tokens s I _ Hin)|].
  intros c Hc. rewrite load_signal_store. case_bool_decide as E; [subst c|done].
  exfalso. assert (dispatch_gate t = dispatch_gate (token_of q)) as Hgate
    by (by apply (i_home s I)). rewrite Hgate in Hg'. congruence.
Qed.

(** An effect whose thread moved on is still recorded or about to be. *)
Lemma effects_move s th p p' :
  inv s → threads s !! th = Some p → (∀ k t, p ≠ Performed k t) →
  ∀ c, c ∈ effects s → (c < h_next (heap s))%positive
    ∧ (h_started (heap s) !! c = Some true
       ∨ ∃ th' k t, <[th := p']> (threads s) !! th' = Some (Performed k t) ∧ protected_started t = c).
Proof.
  intros I Hth Hnp c Hc. destruct (i_effects s I c Hc) as [Hlt Hst]. split; [done|].
  destruct Hst as [|(th' & k & t & Hp & <-)]; [by left|]. right. exists th', k, t.
  split; [|done]. rewrite lookup_insert_ne; [done|]. intros ->.
  rewrite Hp in Hth. injection Hth as <-. by destruct (Hnp k t).
Qed.

(** A step that changes neither the heap nor the effects. *)
Lemma inv_goto s th p p' :
  inv s → threads s !! th = Some p → token_of p' = token_of p → (∀ k t, p ≠ Performed k t) →
  (∀ k t, p' ≠ Performed k t) → point_ok (heap s) p' → inv (goto s th (heap s) p').
Proof.
  intros I Hth Htok Hnp Hnp' Hp'. eapply inv_move; try done.
  - intros th' q _ Hq. by apply (i_threads s I th').
  - apply (i_started s I).
  - intros k t ->. by destruct (Hnp' k t).
  - by apply (effects_move s th p).
Qed.

Lemma inv_performed s th k t r :
  inv s → threads s !! th = Some (Performed k t) →
  inv (goto s th (set_started <[protected_started t := true]> (heap s)) (Leaving t r)).
Proof.
  intros I Hth. destruct (i_threads s I th _ Hth) as (Hin & _ & Hp). cbn in Hin, Hp.
  assert (Hsig : ∀ q, point_ok (heap s) q →
    point_ok (set_started <[protected_started t := true]> (heap s)) q) by (by intros []).
  eapply inv_move; try done.
  - intros _. exact Hp.
  - intros th' q _ Hq. by apply Hsig, (i_threads s I th').
  - cbn. intros c [[<- _]|[_ Hc]]%lookup_insert_Some; [by apply (i_performed s I th k)|].
    by apply (i_started s I).
  - intros c Hc. destruct (i_effects s I c Hc) as [Hlt Hst]. split; [done|].
    cbn. destruct (decide (c = protected_started t)) as [->|Hne].
    + left. by rewrite lookup_insert_eq.
    + rewrite lookup_insert_ne by done. destruct Hst as [|(th' & k' & t' & Hp' & <-)]; [by left|].
      right. exists th', k', t'. split; [|done]. rewrite lookup_insert_ne; [done|]. intros ->.
      congruence.
Qed.

Lemma inv_cancel_store s th t :
  inv s → threads s !! th = Some (CancelLocked t) →
  inv (goto s th (set_signals <[own_signal t := true]> (heap s)) (CancelStored t)).
Proof.
  intros I Hth. eapply inv_move; try done.
  - cbn. rewrite load_signal_store. by rewrite bool_decide_eq_true_2.
  - intros th' q Hne Hq. by eapply store_signal_others.
  - apply (i_started s I).
  - by apply (effects_move s th (CancelLocked t)).
Qed.

Lemma inv_effect s th k t :
  inv s → threads s !! th = Some (Effect k t) →
  inv (mkSystem (heap s) (tokens s) (<[th := Performed k t]> (threads s))
         (effects s ++ [protected_started t]) (results s)).
Proof.
  intros I Hth. destruct (i_threads s I th _ Hth) as (Hin & _ & Hp). cbn in Hin, Hp.
  eapply inv_move; try done.
  - intros th' q _ Hq. by apply (i_threads s I th').
  - intros c Hc. apply elem_of_app. left. by apply (i_started s I).
  - intros c Hc. apply elem_of_app. by left.
  - intros k' t' [= <- <-]. apply elem_of_app. right. by apply list_elem_of_singleton.
  - intros c [Hc | ->%list_elem_of_singleton]%elem_of_app.
    + by apply (effects_move s th (Effect k t)).
    + split; [|right; exists th, k, t; by rewrite lookup_insert_eq].
      apply (i_tokens s I t Hin). unfold cells. right. by left.
Qed.

Lemma inv_run_thread s th p c : inv s → threads s !! th = Some p → inv (run_thread s th p c).
Proof.
  intros I Hth. destruct (i_threads s I th p Hth) as (Hin & Hg & Hp).
  destruct p as [t|t|k t rest|k t|k t|t r]; cbn [run_thread token_of point_ok] in *.
  - by apply inv_cancel_store.
  - by apply (inv_leave s th (CancelStored t)).
  - destruct Hp as (seen & E & Hs). destruct rest as [|sg rest].
    + eapply inv_goto; try done. cbn. apply is_cancelled_false. rewrite E, app_nil_r. done.
    + destruct (load_signal (heap s) sg) eqn:Hl; eapply inv_goto; try done. cbn.
      exists (seen ++ [sg]). rewrite <- app_assoc. split; [done|].
      intros x [Hx | ->%list_elem_of_singleton]%elem_of_app; auto.
  - destruct c.
    + by apply inv_effect.
    + by eapply inv_goto.
    + by apply (inv_leave s th (Effect k t)).
  - destruct k.
    + apply (inv_new (goto s th (set_started <[protected_started t := true]> (heap s))
        (Leaving t (Ok (Some (token_new (set_started <[protected_started t := true]> (heap s))).2))))).
      by eapply inv_performed.
    + by eapply inv_performed.
  - by apply (inv_leave s th (Leaving t r)).
Qed.

Lemma inv_enter s th t c :
  inv s → t ∈ tokens s → threads s !! th = None →
  h_gates (heap s) !! dispatch_gate t = None →
  inv (goto s th (set_gates <[dispatch_gate t := th]> (heap s)) (first_point c t)).
Proof.
  intros [It Ih Ith Is Ie Ip] Ht Hth Hg. split; cbn; try done.
  - intros th' p [[<- <-]|[Hne Hp]]%lookup_insert_Some.
    + destruct c; cbn; (split_and!; [done|by rewrite lookup_insert_eq|]); try done.
      all: exists []; split; [done|]; intros x Hx; by apply not_elem_of_nil in Hx.
    + destruct (Ith th' p Hp) as (H1 & H2 & H3). split_and!; [done| |by destruct p].
      rewrite lookup_insert_ne; [done|]. congruence.
  - intros x Hx. destruct (Ie x Hx) as [Hlt Hst]. split; [done|].
    destruct Hst as [|(th' & k & t' & Hp & <-)]; [by left|]. right. exists th', k, t'.
    split; [|done]. rewrite lookup_insert_ne; congruence.
  - intros th' k t' [[_ E]|[_ Hp]]%lookup_insert_Some; [by destruct c|eauto].
Qed.

Lemma inv_ext s s' :
  inv s → heap s' = heap s ∨ (∃ f, heap s' = set_factual f (heap s)) → tokens s' = tokens s →
  threads s' = threads s → effects s' = effects s → inv s'.
Proof.
  intros I Hh Ht Hth He. destruct s' as [h ts ths effs rs]. cbn in *. subst.
  destruct Hh as [->|[f ->]]; split; cbn; try apply I.
Qed.

Lemma inv_act s a s' : inv s → act s a = Some s' → inv s'.
Proof.
  intros I H. destruct a as [|i|i|i|th i c|th i c|th c]; cbn in H.
  - injection H as <-. by apply inv_new.
  - destruct (tokens s !! i) as [t|] eqn:E; [|done]. injection H as <-.
    by apply inv_linked_child; [|eapply list_elem_of_lookup_2].
  - destruct (tokens s !! i) as [t|] eqn:E; [|done]. injection H as <-.
    by apply inv_protect; [|eapply list_elem_of_lookup_2].
  - destruct (tokens s !! i) as [t|] eqn:E; [|done]. injection H as <-.
    eapply (inv_ext s); try done. right. by eexists.
  - destruct (tokens s !! i) as [t|] eqn:E; [|done]. cbn in H.
    destruct (protect_on_spawn t); [done|]. injection H as <-.
    destruct c; eapply (inv_ext s); eauto.
  - destruct (tokens s !! i) as [t|] eqn:E; [|done]. cbn in H.
    destruct (threads s !! th) eqn:Hth; [done|].
    destruct (h_gates (heap s) !! dispatch_gate t) eqn:Hg; [done|].
    assert (Ht : t ∈ tokens s) by (by eapply list_elem_of_lookup_2).
    destruct c, (protect_on_spawn t); simplify_eq; eauto using inv_enter.
  - destruct (threads s !! th) as [p|] eqn:Hth; [|done]. injection H as <-.
    by apply inv_run_thread.
Qed.

Lemma system_reachable_inv s : reachable s → inv s.
Proof.
  induction 1 as [|s a s' _ IH Ha]; [|by eapply inv_act].
  split; cbn; try done; try (intros t Ht; by apply not_elem_of_nil in Ht).
  intros a b Ha. by apply not_elem_of_nil in Ha.
Qed.

(** ** Facts only accumulate *)

Record later (h h' : Heap) : Prop := {
  l_signals : ∀ c, (c < h_next h)%positive → load_signal h c = true → load_signal h' c = true;
  l_started : ∀ c, (c < h_next h)%positive → h_started h !! c = Some true →
    h_started h' !! c = Some true;
  l_factual : ∀ c, (c < h_next h)%positive →
    h_factual h !! c = Some (discriminant CommittedWorkspaceApply) →
    h_factual h' !! c = Some (discriminant CommittedWorkspaceApply);
}.

Lemma later_refl h : later h h.
Proof. split; auto. Qed.

Lemma grows_later h h' : grows h h' → later h h'.
Proof.
  intros G. split; intros c Hc.
  - by rewrite (load_signal_grows h h' c G Hc).
  - by rewrite (g_started _ _ G).
  - by rewrite (g_factual _ _ G).
Qed.

Lemma later_set_gates h f : later h (set_gates f h).
Proof. split; auto. Qed.

Lemma later_set_started h c : later h (set_started <[c := true]> h).
Proof.
  split; auto. cbn. intros x _ Hx. destruct (decide (x = c)) as [->|]; by simplify_map_eq.
Qed.

Lemma later_committed h t : later h (record_committed_apply h t).
Proof.
  split; auto. cbn. intros x _ Hx.
  destruct (decide (x = factual_outcome t)) as [->|]; by simplify_map_eq.
Qed.

Lemma later_signal h c : later h (set_signals <[c := true]> h).
Proof. split; auto. intros x _ Hx. by rewrite load_signal_store, Hx, orb_true_r. Qed.

Lemma later_new h h' : h_next h = h_next h' → later h h' → later h (token_new h').1.
Proof.
  intros Hn L. pose proof (grows_later _ _ (token_new_grows h')) as G.
  split; intros c Hc Hl; apply G; rewrite <- ?Hn; try done; by apply L.
Qed.

Create HintDb later.
#[export] Hint Resolve later_refl later_set_gates later_set_started later_committed later_signal
  later_new grows_later token_new_grows linked_child_grows : later.

Lemma run_thread_later s th p c : later (heap s) (heap (run_thread s th p c)).
Proof.
  destruct p as [t|t|k t [|sg rest]|k t|[] t|t r]; try (cbn; by auto with later).
  - cbn. destruct (load_signal (heap s) sg); cbn; auto with later.
  - destruct c; cbn; auto with later.
  - apply (later_new (heap s) (set_started <[protected_started t := true]> (heap s)));
      auto with later.
Qed.

Lemma act_later s a s' : act s a = Some s' → later (heap s) (heap s').
Proof.
  intros H. destruct a as [|i|i|i|th i c|th i c|th c]; cbn in H;
    try (destruct (tokens s !! i) as [t|]; [cbn in H|done]).
  - injection H as <-. apply grows_later, token_new_grows.
  - injection H as <-. apply grows_later, (linked_child_grows _ t).
  - injection H as <-. cbn. auto with later.
  - injection H as <-. cbn. auto with later.
  - destruct (protect_on_spawn t); [done|]. injection H as <-. destruct c; cbn; auto with later.
  - break H; cbn; auto with later.
  - destruct (threads s !! th) as [p|]; [|done]. injection H as <-. apply run_thread_later.
Qed.

(** How far the recorded facts reach. *)
Definition rank (h : Heap) (t : CancellationToken) : Z := discriminant (factual_outcome_authority h t).

Lemma discriminant_nonneg a : 0 ≤ discriminant a.
Proof. by destruct a. Qed.

Lemma later_facts h h' t :
  later h h' → token_ok h t →
  (is_cancelled h t = true → is_cancelled h' t = true) ∧ rank h t ≤ rank h' t.
Proof.
  intros L Hok. split.
  - rewrite !is_cancelled_true. intros (c & Hc & Hl). exists c. split; [done|].
    apply (l_signals _ _ L); eauto using observed_bound.
  - destruct Hok as [_ Hc]. unfold cells in Hc.
    pose proof (l_factual _ _ L (factual_outcome t)) as Hf.
    pose proof (l_started _ _ L (protected_started t)) as Hs.
    unfold rank, factual_outcome_authority, protected_process_started.
    case_bool_decide as E1.
    + rewrite bool_decide_eq_true_2; [done|]. apply Hf; [apply Hc; set_unfold; tauto|done].
    + destruct (h_started h !! protected_started t) as [[]|] eqn:E2; cbn [default].
      * rewrite Hs; [|apply Hc; set_unfold; tauto|done]. case_bool_decide; cbn; lia.
      * apply discriminant_nonneg.
      * apply discriminant_nonneg.
Qed.

(** ** A cancelled call is refused *)

(** The thread [th] runs alone for [n] steps. *)
Fixpoint run_alone (n : nat) (s : System) (th : nat) : System :=
  match n with
  | O => s
  | S n => match act s (Advance th Returned) with Some s' => run_alone n s' th | None => s end
  end.

Lemma checking_cancelled k t rest s th :
  threads s !! th = Some (Checking k t rest) →
  (∃ c, c ∈ rest ∧ load_signal (heap s) c = true) →
  ∃ n, (n ≤ length rest)%nat ∧ threads (run_alone n s th) !! th = Some (Leaving t (Err tt))
       ∧ effects (run_alone n s th) = effects s.
Proof.
  revert s. induction rest as [|sg rest IH]; intros s Hth (c & Hc & Hl).
  - by apply not_elem_of_nil in Hc.
  - destruct (load_signal (heap s) sg) eqn:Hsg.
    + exists 1%nat. cbn. rewrite Hth. cbn. rewrite Hsg. cbn. rewrite lookup_insert_eq.
      split_and!; [lia|done..].
    + destruct (IH (goto s th (heap s) (Checking k t rest))) as (n & Hn & H1 & H2).
      * cbn. by rewrite lookup_insert_eq.
      * exists c. split; [|done]. apply elem_of_cons in Hc as [->|]; [congruence|done].
      * exists (S n). cbn [run_alone act]. rewrite Hth. cbn [mbind option_bind run_thread]. rewrite Hsg.
        cbn [length]. split_and!; [lia|done..].
Qed.

(** ** Properties *)

(** Cancelling a linked child is local: no token that existed before sees it,
    while the child sees its parent's cancellation and its own. *)
Theorem child_cancellation_scope s t :
  reachable s → t ∈ tokens s →
  let '(h, child) := linked_child (heap s) t in
  let store sg := set_signals <[sg := true]> h in
  (∀ u, u ∈ tokens s → is_cancelled (store (own_signal child)) u = is_cancelled (heap s) u)
  ∧ is_cancelled h child = is_cancelled (heap s) t
  ∧ is_cancelled (store (own_signal child)) child = true
  ∧ is_cancelled (store (own_signal t)) child = true.
Proof.
  intros I%system_reachable_inv Ht. pose proof (linked_child_grows (heap s) t) as G.
  destruct (linked_child (heap s) t) as [h child] eqn:E. cbn [fst] in G. cbn zeta.
  assert (Hc : own_signal child = h_next (heap s)
    ∧ observed_signals child = observed_signals t ++ [h_next (heap s)]) by (by injection E as _ <-).
  assert (Hf : load_signal h (h_next (heap s)) = false)
    by (injection E as <- _; unfold load_signal; cbn; by rewrite lookup_insert_eq).
  destruct Hc as [-> Ho]. destruct (i_tokens s I t Ht) as [Hown _]. split_and!.
  - intros u Hu. rewrite <- (is_cancelled_grows _ _ u G (i_tokens s I u Hu)).
    apply eq_bool_prop_intro. rewrite !Is_true_true, !is_cancelled_true.
    setoid_rewrite load_signal_store. f_equiv. intros c. split; intros [Hc Hl]; split; try done.
    + case_bool_decide as Ec; [|done]. subst c. by destruct (fresh_not_observed s u I Hu Hc).
    + rewrite Hl. apply orb_true_r.
  - rewrite <- (is_cancelled_grows _ _ t G (i_tokens s I t Ht)). unfold is_cancelled.
    rewrite Ho, existsb_app. cbn. by rewrite Hf, !orb_false_r.
  - apply is_cancelled_true. exists (h_next (heap s)). rewrite Ho, load_signal_store.
    rewrite bool_decide_eq_true_2 by done. split; [|done]. apply elem_of_app. right. by left.
  - apply is_cancelled_true. exists (own_signal t). rewrite Ho, load_signal_store.
    rewrite bool_decide_eq_true_2 by done. split; [|done]. apply elem_of_app. by left.
Qed.

(** C38. Cancellation and a protected effect have one order.  In every
    interleaving: while the closure of a protected launch or handoff runs, and
    until its start is recorded, no signal its token observes is set (a
    concurrent [cancel] waits for the gate); a call that finds its token
    cancelled comes back with an error and performs nothing; a recorded start
    is of an effect that was performed, and a performed effect is recorded or
    about to be by the thread that holds the gate; no step clears a
    cancellation or lowers the proven outcome authority of a token. *)
Theorem protected_effect_boundary s a s' t :
  reachable s → act s a = Some s' → t ∈ tokens s →
  (∀ th k, threads s !! th = Some (Effect k t) ∨ threads s !! th = Some (Performed k t) →
     is_cancelled (heap s) t = false)
  ∧ (∀ th k rest, threads s !! th = Some (Checking k t rest) → is_cancelled (heap s) t = true →
       ∃ n, (n ≤ length rest)%nat
            ∧ threads (run_alone n s th) !! th = Some (Leaving t (Err tt))
            ∧ effects (run_alone n s th) = effects s)
  ∧ (protected_process_started (heap s) t = true → protected_started t ∈ effects s)
  ∧ (protected_started t ∈ effects s →
       protected_process_started (heap s) t = true
       ∨ ∃ th k t', threads s !! th = Some (Performed k t')
                    ∧ h_gates (heap s) !! dispatch_gate t' = Some th
                    ∧ protected_started t' = protected_started t)
  ∧ (is_cancelled (heap s) t = true → is_cancelled (heap s') t = true)
  ∧ discriminant (factual_outcome_authority (heap s) t)
    ≤ discriminant (factual_outcome_authority (heap s') t).
Proof.
  intros I%system_reachable_inv Ha Ht.
  destruct (later_facts _ _ t (act_later _ _ _ Ha) (i_tokens s I t Ht)) as [Hm Hr].
  unfold protected_process_started. split_and!; try done.
  - intros th k [H|H]; by destruct (i_threads s I th _ H) as (_ & _ & ?).
  - intros th k rest Hth Hc. eapply checking_cancelled; [done|].
    destruct (i_threads s I th _ Hth) as (_ & _ & seen & E & Hs).
    apply is_cancelled_true in Hc as (c & Hin & Hl). exists c. split; [|done].
    rewrite E in Hin. apply elem_of_app in Hin as [Hin|]; [|done]. by rewrite Hs in Hl.
  - destruct (h_started (heap s) !! protected_started t) as [[]|] eqn:E; try done.
    intros _. by apply (i_started s I).
  - intros He. destruct (i_effects s I _ He) as [_ [->|(th & k & t' & Hth & Heq)]]; [by left|].
    right. exists th, k, t'. split_and!; [done| |done]. by apply (i_threads s I th (Performed k t')).
Qed.

(** ** Witnesses *)

Definition acts (l : list Action) : option System :=
  foldl (λ s a, s ≫= λ s, act s a) (Some system_empty) l.

Lemma acts_reachable l s : acts l = Some s → reachable s.
Proof.
  unfold acts. assert (H : ∀ s0, reachable s0 → foldl (λ s a, s ≫= λ s, act s a) (Some s0) l = Some s →
    reachable s); [|by apply H; constructor].
  induction l as [|a l IH]; intros s0 H0; cbn; [by intros [= <-]|].
  destruct (act s0 a) as [s1|] eqn:E.
  - apply IH. by econstructor.
  - intros H. exfalso. clear -H. by induction l.
Qed.

(** A protected launch is in flight while another thread waits to cancel. *)
Definition in_flight : list Action :=
  [New; ProtectOnSpawn 0; Enter 1 1 CSpawn; Advance 1 Returned; Advance 1 Returned].
Definition in_flight_system : System := default system_empty (acts in_flight).
Definition in_flight_token : CancellationToken := mkCancellationToken 1 [1%positive] 1 1 1 true.

Example cancel_waits : act in_flight_system (Enter 2 0 CCancel) = None.
Proof. vm_compute. reflexivity. Qed.

Lemma protected_effect_boundary_witness :
  is_cancelled (heap in_flight_system) in_flight_token = false.
Proof.
  refine (proj1 (protected_effect_boundary in_flight_system (Advance 1 Returned)
    (run_thread in_flight_system 1 (Effect Spawn in_flight_token) Returned)
    in_flight_token _ _ _) 1%nat Spawn _).
  - apply (acts_reachable in_flight). vm_compute. reflexivity.
  - vm_compute. reflexivity.
  - vm_compute. right. left.
  - left. vm_compute. reflexivity.
Defined.
