(* ===== verification/Position.v ===== *)
(** * Text positions

    [crates/unica-lsp/src/position.rs]: conversions between LSP positions
    (zero-based line, UTF-16 code units) and byte offsets of UTF-8 text.  The
    index is built over bytes, as in the source; a slice of a [str] that does
    not lie on character boundaries panics, which is [None] here.  The
    theorems compare the index with a reference that splits the text into
    lines of characters, and show that the conversions are inverse. *)

From Stdlib Require Import ZArith Lia.
From stdpp Require Import base sets list option numbers.
From S2P Require Import Prelude Redaction RedactionProps.

Local Open Scope Z_scope.

(** ** UTF-8 and UTF-16 *)

(** [char::encode_utf8] and [str::as_bytes]. *)
Definition encode_utf8 (c : Z) : list Z :=
  if c <? 128 then [c]
  else if c <? 2048 then [192 + c / 64; 128 + c mod 64]
  else if c <? 65536 then [224 + c / 4096; 128 + (c / 64) mod 64; 128 + c mod 64]
  else [240 + c / 262144; 128 + (c / 4096) mod 64; 128 + (c / 64) mod 64; 128 + c mod 64].
Definition as_bytes (t : text) : list Z := t ≫= encode_utf8.

(** [char::len_utf16] and [str::encode_utf16().count()]. *)
Definition len_utf16 (c : Z) : nat := if c <? 65536 then 1 else 2.
Definition utf16_count (t : text) : nat := foldr (λ c n, (len_utf16 c + n)%nat) 0%nat t.

(** A [char] of the text. *)
Definition is_char (c : Z) : Prop := 0 ≤ c < 1114112.
#[export] Instance is_char_dec c : Decision (is_char c).
Proof. unfold is_char. apply _. Defined.

(** [&text[from..to]]; [None] is the panic of a slice off a boundary. *)
Fixpoint chars_upto (t : text) (n : nat) : option text :=
  match n with
  | O => Some []
  | _ => match t with
         | [] => None
         | c :: t => if (utf8_len c <=? n)%nat then cons c <$> chars_upto t (n - utf8_len c) else None
         end
  end.
Definition str_slice (t : text) (from to : nat) : option text :=
  if (from <=? to)%nat && is_char_boundary t from then chars_upto (slice_from t from) (to - from)
  else None.

(** ** The line index *)

Record Utf16Position := mkUtf16Position { line : Z; character : Z }.
Record UnicaPoint := mkUnicaPoint { u_line : nat; byte_column : nat }.
Inductive PositionError := LineOutOfRange | InsideSurrogatePair.

(** The loop of [LineIndex::new] from the byte [index]. *)
Fixpoint line_starts (index : nat) (bs : list Z) : list nat :=
  match bs with
  | [] => []
  | b :: rest =>
      if b =? 10 then (index + 1)%nat :: line_starts (index + 1) rest
      else if b =? 13 then
        match rest with
        | n :: rest' => if n =? 10 then (index + 2)%nat :: line_starts (index + 2) rest'
                        else (index + 1)%nat :: line_starts (index + 1) rest
        | [] => (index + 1)%nat :: line_starts (index + 1) rest
        end
      else line_starts (index + 1) rest
  end.

(** [LineIndex::new]: the [starts]. *)
Definition line_index_new (t : text) : list nat := 0%nat :: line_starts 0 (as_bytes t).
Definition line_count (starts : list nat) : nat := length starts.

(** One of the two trims of [line_bytes]. *)
Definition trim (t : text) (start stop : nat) (b : Z) : nat :=
  if (start <? stop)%nat && bool_decide (as_bytes t !! (stop - 1)%nat = Some b)
  then (stop - 1)%nat else stop.

(** [LineIndex::line_bytes]. *)
Definition line_bytes (starts : list nat) (t : text) (ln : nat) : option (nat * nat) :=
  match starts !! ln with
  | None => None
  | Some start =>
      let stop := default (byte_len t) (starts !! (ln + 1)%nat) in
      let stop := trim t start stop 10 in
      let stop := trim t start stop 13 in
      Some (start, stop)
  end.

(** The loop of [offset] over [char_indices]: the offset found, or [None] for
    the end of the line. *)
Fixpoint seek (chars : text) (offset units wanted : nat) : result (option nat) PositionError :=
  match chars with
  | [] => if (wanted <? units)%nat then Err InsideSurrogatePair else Ok None
  | c :: chars =>
      match Nat.compare units wanted with
      | Eq => Ok (Some offset)
      | Gt => Err InsideSurrogatePair
      | Lt => seek chars (offset + utf8_len c) (units + len_utf16 c) wanted
      end
  end.

(** [LineIndex::offset]. *)
Definition offset (starts : list nat) (t : text) (p : Utf16Position)
  : option (result nat PositionError) :=
  match line_bytes starts t (Z.to_nat (line p)) with
  | None => Some (Err LineOutOfRange)
  | Some (start, stop) =>
      match str_slice t start stop with
      | None => None
      | Some chars =>
          Some (match seek chars 0 0 (Z.to_nat (character p)) with
                | Ok (Some o) => Ok (start + o)%nat
                | Ok None => Ok stop
                | Err e => Err e
                end)
      end
  end.

(** [slice::binary_search] on a sorted slice without duplicates. *)
Definition binary_search (l : list nat) (x : nat) : result nat nat :=
  let n := length (filter (λ y, y < x)%nat l) in
  if bool_decide (l !! n = Some x) then Ok n else Err n.

(** A [usize] cast to [u32]. *)
Definition as_u32 (n : nat) : Z := Z.of_nat n mod 4294967296.

(** [LineIndex::position]. *)
Definition position (starts : list nat) (t : text) (o : nat) : option Utf16Position :=
  let o := Nat.min o (byte_len t) in
  let ln := match binary_search starts o with Ok ln => ln | Err next => (next - 1)%nat end in
  match line_bytes starts t ln with
  | None => None
  | Some (start, stop) =>
      match str_slice t start (Nat.min o stop) with
      | None => None
      | Some column => Some (mkUtf16Position (as_u32 ln) (as_u32 (utf16_count column)))
      end
  end.

(** [LineIndex::unica_point]. *)
Definition unica_point (starts : list nat) (t : text) (p : Utf16Position)
  : option (result UnicaPoint PositionError) :=
  match offset starts t p with
  | None => None
  | Some (Err e) => Some (Err e)
  | Some (Ok o) =>
      let ln := Z.to_nat (line p) in
      match starts !! ln with
      | None => None
      | Some start => Some (Ok (mkUnicaPoint (ln + 1) (o - start)))
      end
  end.

(** [LineIndex::lsp_position]: [Some None] is the [None] of the source. *)
Definition lsp_position (starts : list nat) (t : text) (u : UnicaPoint)
  : option (option Utf16Position) :=
  match u_line u with
  | O => Some None
  | S ln =>
      match line_bytes starts t ln with
      | None => Some None
      | Some (start, stop) =>
          let o := (start + byte_column u)%nat in
          if (o <=? stop)%nat && is_char_boundary t o
          then Some <$> position starts t o
          else Some None
      end
  end.

(** The text of the first test of the source, a Cyrillic letter and an emoji. *)
Example surrogate_pair :
  let t := [9; 47; 128512; 1041; 13; 10; 99] in
  let ix := line_index_new t in
  offset ix t (mkUtf16Position 0 3) = Some (Err InsideSurrogatePair)
  ∧ offset ix t (mkUtf16Position 0 4) = Some (Ok 6%nat)
  ∧ position ix t 6 = Some (mkUtf16Position 0 4)
  ∧ position ix t 9 = Some (mkUtf16Position 0 5)
  ∧ offset ix t (mkUtf16Position 1 9) = Some (Ok 11%nat).
Proof. vm_compute. split_and!; reflexivity. Qed.

(** ** Bytes of characters *)

Lemma byte_len_cons c t : byte_len (c :: t) = (utf8_len c + byte_len t)%nat.
Proof. done. Qed.
Lemma as_bytes_cons c t : as_bytes (c :: t) = encode_utf8 c ++ as_bytes t.
Proof. done. Qed.
Lemma as_bytes_app a b : as_bytes (a ++ b) = as_bytes a ++ as_bytes b.
Proof. apply bind_app. Qed.
Lemma utf16_count_app a b : utf16_count (a ++ b) = (utf16_count a + utf16_count b)%nat.
Proof. induction a as [|c a IH]; simpl; [done|]. fold (utf16_count a). fold (utf16_count (a ++ b)). lia. Qed.
Lemma len_utf16_pos c : (1 ≤ len_utf16 c ≤ 2)%nat.
Proof. unfold len_utf16. destruct (_ <? _); lia. Qed.

Lemma encode_utf8_length c : length (encode_utf8 c) = utf8_len c.
Proof. unfold encode_utf8, utf8_len. repeat case_match; done. Qed.

Lemma as_bytes_length t : length (as_bytes t) = byte_len t.
Proof.
  induction t as [|c t IH]; [done|]. rewrite as_bytes_cons, length_app, encode_utf8_length, IH. done.
Qed.

(** Every byte of a character other than the line ends is none of them. *)
Definition plain (b : Z) : Prop := b ≠ 10 ∧ b ≠ 13.

Lemma encode_utf8_plain c : is_char c → plain c → Forall plain (encode_utf8 c).
Proof.
  unfold is_char, plain. intros Hc Hp. unfold encode_utf8.
  pose proof (Z.mod_pos_bound c 64). pose proof (Z.mod_pos_bound (c / 64) 64).
  pose proof (Z.mod_pos_bound (c / 4096) 64).
  pose proof (Z.div_pos c 64). pose proof (Z.div_pos c 4096). pose proof (Z.div_pos c 262144).
  repeat case_match; repeat constructor; lia.
Qed.

Lemma as_bytes_plain t : Forall is_char t → Forall plain t → Forall plain (as_bytes t).
Proof.
  induction 1 as [|c t Hc _ IH]; intros Hp; [constructor|].
  inversion_clear Hp. rewrite as_bytes_cons. apply Forall_app. auto using encode_utf8_plain.
Qed.

(** The first byte of a text is a line feed only when its first character is. *)
Lemma head_line_feed c : is_char c → ∃ b bs, encode_utf8 c = b :: bs ∧ (b = 10 ↔ c = 10).
Proof.
  unfold is_char. intros Hc. unfold encode_utf8.
  pose proof (Z.div_pos c 64). pose proof (Z.div_pos c 4096). pose proof (Z.div_pos c 262144).
  repeat case_match; bool_prop; eexists _, _; (split; [reflexivity|]); lia.
Qed.

Lemma line_starts_plain bs rest i :
  Forall plain bs → line_starts i (bs ++ rest) = line_starts (i + length bs) rest.
Proof.
  intros H. revert i. induction H as [|b bs [H10 H13] _ IH]; intros i; cbn [app length].
  - by rewrite Nat.add_0_r.
  - cbn [line_starts]. rewrite (proj2 (Z.eqb_neq b 10)), (proj2 (Z.eqb_neq b 13)) by done.
    rewrite IH. f_equal. lia.
Qed.

(** ** The reference: lines of characters *)

Fixpoint lines (t : text) : list (text * text) :=
  match t with
  | [] => [([], [])]
  | c :: rest =>
      if c =? 10 then ([], [10]) :: lines rest
      else if c =? 13 then
        match rest with
        | n :: rest' => if n =? 10 then ([], [13; 10]) :: lines rest' else ([], [13]) :: lines rest
        | [] => ([], [13]) :: lines rest
        end
      else match lines rest with
           | (content, stop) :: ls => (c :: content, stop) :: ls
           | [] => [([c], [])]
           end
  end.

Definition line_text (l : text * text) : text := l.1 ++ l.2.

(** Induction on a text, line end by line end. *)
Lemma text_ind (P : list Z → Prop) :
  P [] → (∀ t, P t → P (10 :: t)) → (∀ t, P t → P (13 :: 10 :: t)) →
  (∀ t, (∀ t', t ≠ 10 :: t') → P t → P (13 :: t)) →
  (∀ c t, plain c → P t → P (c :: t)) → ∀ t, P t.
Proof.
  intros H0 H1 H2 H3 H4 t. remember (length t) as n eqn:Hn. revert t Hn.
  induction n as [n IH] using lt_wf_ind. intros [|c t] ->; [done|].
  assert (IHt : ∀ t', (length t' < length (c :: t))%nat → P t') by (intros; by eapply IH).
  destruct (decide (c = 10)) as [->|N10]; [apply H1, IHt; simpl; lia|].
  destruct (decide (c = 13)) as [->|N13]; [|apply H4; [done|apply IHt; simpl; lia]].
  destruct t as [|d t]; [apply H3; [done|done]|].
  destruct (decide (d = 10)) as [->|Nd]; [apply H2, IHt; simpl; lia|].
  apply H3; [congruence|apply IHt; simpl; lia].
Qed.

Lemma lines_lf t : lines (10 :: t) = ([], [10]) :: lines t.
Proof. done. Qed.
Lemma lines_crlf t : lines (13 :: 10 :: t) = ([], [13; 10]) :: lines t.
Proof. done. Qed.
Lemma lines_cr t : (∀ t', t ≠ 10 :: t') → lines (13 :: t) = ([], [13]) :: lines t.
Proof.
  intros Ht. destruct t as [|d t]; [done|]. cbn [lines].
  destruct (Z.eqb_spec d 10) as [->|]; [by destruct (Ht t)|done].
Qed.
Lemma lines_plain c t :
  plain c → ∃ content stop ls, lines t = (content, stop) :: ls
                               ∧ lines (c :: t) = (c :: content, stop) :: ls.
Proof.
  intros [H10 H13]. cbn [lines]. rewrite (proj2 (Z.eqb_neq c 10)), (proj2 (Z.eqb_neq c 13)) by done.
  assert (Hne : lines t ≠ []).
  { destruct t as [|d t]; [done|]. cbn [lines]. repeat case_match; done. }
  destruct (lines t) as [|[content stop] ls]; [done|eauto].
Qed.

(** The byte offsets at which lines start. *)
Fixpoint starts_of (i : nat) (ls : list (text * text)) : list nat :=
  match ls with
  | [] => []
  | l :: ls => i :: starts_of (i + byte_len (line_text l)) ls
  end.

Lemma line_starts_lines t i :
  Forall is_char t → i :: line_starts i (as_bytes t) = starts_of i (lines t).
Proof.
  revert i. induction t as [|t IH|t IH|t Ht IH|c t Hc IH] using text_ind; intros i Hv.
  - done.
  - inversion_clear Hv. rewrite lines_lf. cbn [starts_of]. f_equal.
    by rewrite <- IH.
  - inversion_clear Hv as [|? ? _ Hv']. inversion_clear Hv'. rewrite lines_crlf. cbn [starts_of].
    f_equal. by rewrite <- IH.
  - inversion_clear Hv as [|? ? _ Hv']. rewrite lines_cr by done. cbn [starts_of]. f_equal.
    rewrite <- IH by done. change (byte_len (line_text ([], [13]))) with 1%nat.
    rewrite as_bytes_cons. change (encode_utf8 13) with [13]. cbn [app line_starts]. cbn [Z.eqb Pos.eqb].
    destruct t as [|d t]; [done|]. inversion_clear Hv' as [|? ? Hd _].
    destruct (head_line_feed d Hd) as (b & bs & E & Hb). rewrite as_bytes_cons, E. cbn [app].
    destruct (Z.eqb_spec b 10) as [H10|]; [|done].
    apply Hb in H10 as ->. by destruct (Ht t).
  - inversion_clear Hv as [|? ? Hcc Hv'].
    destruct (lines_plain c t Hc) as (content & stop & ls & E & ->).
    rewrite as_bytes_cons, line_starts_plain by (by apply encode_utf8_plain).
    rewrite encode_utf8_length. specialize (IH (i + utf8_len c)%nat Hv'). rewrite E in IH.
    cbn [starts_of] in *. injection IH as ->. f_equal. f_equal. unfold line_text. cbn [fst snd app].
    rewrite byte_len_cons. lia.
Qed.

Lemma lines_concat t : concat (line_text <$> lines t) = t.
Proof.
  induction t as [|t IH|t IH|t Ht IH|c t Hc IH] using text_ind.
  - done.
  - rewrite lines_lf, fmap_cons. cbn [concat]. by rewrite IH.
  - rewrite lines_crlf, fmap_cons. cbn [concat]. by rewrite IH.
  - rewrite lines_cr, fmap_cons by done. cbn [concat]. by rewrite IH.
  - destruct (lines_plain c t Hc) as (content & stop & ls & E & ->). rewrite E in IH.
    rewrite fmap_cons in *. cbn [concat] in *. rewrite <- IH. done.
Qed.

Definition terminators : list text := [[]; [10]; [13]; [13; 10]].

(** Contents have no line ends, and only the last line has no terminator. *)
Lemma lines_shape t k (content stop : text) :
  lines t !! k = Some (content, stop) →
  Forall plain content ∧ stop ∈ terminators ∧ (stop = [] ↔ lines t !! S k = None).
Proof.
  revert k content stop.
  assert (Hcons : ∀ tm t, tm ∈ terminators → tm ≠ [] →
    (∀ k (content stop : text), lines t !! k = Some (content, stop) →
       Forall plain content ∧ stop ∈ terminators ∧ (stop = [] ↔ lines t !! S k = None)) →
    ∀ k (content stop : text), (([], tm) :: lines t) !! k = Some (content, stop) →
       Forall plain content ∧ stop ∈ terminators ∧ (stop = [] ↔ (([], tm) :: lines t) !! S k = None)).
  { intros tm t' Htm Hne IH [|k] content stop; cbn; [|apply IH]. intros [= <- <-].
    split_and!; [constructor|done|]. split; [done|]. intros Hn.
    pose proof (lines_concat t'). destruct t' as [|d t']; [done|]. destruct (lines (d :: t')); done. }
  induction t as [|t IH|t IH|t Ht IH|c t Hc IH] using text_ind.
  - intros [|k] content stop; cbn; [|done]. intros [= <- <-]. split_and!; [constructor| |done].
    unfold terminators. set_solver.
  - rewrite lines_lf. apply Hcons; [unfold terminators; set_solver|done|done].
  - rewrite lines_crlf. apply Hcons; [unfold terminators; set_solver|done|done].
  - rewrite lines_cr by done. apply Hcons; [unfold terminators; set_solver|done|done].
  - destruct (lines_plain c t Hc) as (content & stop & ls & E & ->). rewrite E in IH.
    intros [|k] content' stop'; cbn; [|apply (IH (S k))]. intros [= <- <-].
    destruct (IH 0%nat content stop eq_refl) as (H1 & H2 & H3). split_and!; [by constructor|done|done].
Qed.

(** The text before a line, and the line's place in the text. *)
Definition before (t : text) (k : nat) : text := concat (line_text <$> take k (lines t)).

Lemma line_place t k l :
  lines t !! k = Some l → ∃ post, t = before t k ++ line_text l ++ post
    ∧ before t (S k) = before t k ++ line_text l ∧ (lines t !! S k = None → post = []).
Proof.
  intros Hk. exists (concat (line_text <$> drop (S k) (lines t))). unfold before. split_and!.
  - rewrite <- (lines_concat t) at 1. rewrite <- (take_drop_middle _ _ _ Hk) at 1.
    rewrite fmap_app, concat_app, fmap_cons. done.
  - by rewrite (take_S_r _ _ _ Hk), fmap_app, concat_app, fmap_cons, fmap_nil, concat_cons,
      concat_nil, app_nil_r.
  - intros Hn. apply lookup_ge_None in Hn. by rewrite drop_ge.
Qed.

Lemma starts_of_lookup ls : ∀ i k,
  starts_of i ls !! k =
  (λ _, (i + byte_len (concat (line_text <$> take k ls)))%nat) <$> ls !! k.
Proof.
  induction ls as [|l ls IH]; intros i [|k]; cbn; try done.
  - by rewrite Nat.add_0_r.
  - rewrite IH. destruct (ls !! k); cbn; [|done]. f_equal. rewrite byte_len_app. lia.
Qed.

Section Index.
Context (t : text) (Hvalid : Forall is_char t).

Lemma starts_lookup k : line_index_new t !! k = (λ _, byte_len (before t k)) <$> lines t !! k.
Proof. unfold line_index_new. rewrite line_starts_lines by done. apply starts_of_lookup. Qed.

Lemma line_next k l :
  lines t !! k = Some l →
  default (byte_len t) (line_index_new t !! (k + 1)%nat) = byte_len (before t k ++ line_text l).
Proof.
  intros Hk. destruct (line_place t k l Hk) as (post & Et & Eb & Hp).
  rewrite starts_lookup, Nat.add_1_r. destruct (lines t !! S k) eqn:E; cbn.
  - by rewrite Eb.
  - rewrite Et at 1. by rewrite Hp, app_nil_r.
Qed.

(** Trimming looks at the last byte of what is left of the line. *)
Definition last_byte (a : text) : option Z := reverse (as_bytes a) !! 0%nat.

Lemma trim_last pre a post b :
  t = pre ++ a ++ post →
  trim t (byte_len pre) (byte_len pre + byte_len a) b =
  if bool_decide (last_byte a = Some b)
  then (byte_len pre + byte_len a - 1)%nat else (byte_len pre + byte_len a)%nat.
Proof.
  intros Et. unfold trim, last_byte. rewrite Et, !as_bytes_app, <- !as_bytes_length.
  destruct (as_bytes a) as [|x bs _] using rev_ind.
  - cbn [length]. rewrite Nat.add_0_r, Nat.ltb_irrefl. cbn [andb].
    case_bool_decide as Hb; [discriminate Hb|done].
  - rewrite length_app, reverse_snoc. cbn [length lookup list_lookup].
    rewrite (proj2 (Nat.ltb_lt _ _)) by lia.
    replace (length (as_bytes pre) + (length bs + 1) - 1)%nat
      with (length (as_bytes pre) + length bs)%nat by lia.
    assert (Hl : (as_bytes pre ++ (bs ++ [x]) ++ as_bytes post)
      !! (length (as_bytes pre) + length bs)%nat = Some x).
    { rewrite lookup_app_r, <- app_assoc by lia. apply list_lookup_middle. lia. }
    by rewrite Hl.
Qed.

Lemma last_byte_snoc a c : 0 ≤ c < 128 → last_byte (a ++ [c]) = Some c.
Proof.
  intros Hc. unfold last_byte. rewrite as_bytes_app. unfold as_bytes at 2. cbn [mbind list_bind].
  unfold encode_utf8. rewrite (proj2 (Z.ltb_lt c 128)) by lia. rewrite app_nil_r, reverse_snoc. done.
Qed.

Lemma last_byte_plain a b :
  Forall is_char a → Forall plain a → b = 10 ∨ b = 13 → last_byte a ≠ Some b.
Proof.
  intros Hc Hp Hb Hl. pose proof (as_bytes_plain a Hc Hp) as Hbytes. unfold last_byte in Hl.
  apply list_elem_of_lookup_2 in Hl. rewrite elem_of_reverse in Hl. apply list_elem_of_In in Hl.
  rewrite Forall_forall in Hbytes. apply Hbytes in Hl. unfold plain in Hl. lia.
Qed.

Lemma trim_snoc pre a post c b :
  0 ≤ c < 128 → t = pre ++ (a ++ [c]) ++ post →
  trim t (byte_len pre) (byte_len pre + byte_len (a ++ [c])) b =
  if bool_decide (c = b) then (byte_len pre + byte_len a)%nat
  else (byte_len pre + byte_len (a ++ [c]))%nat.
Proof.
  intros Hc Et. rewrite (trim_last pre _ post b Et), last_byte_snoc by done.
  assert (Hl : byte_len [c] = 1%nat).
  { unfold byte_len, utf8_len. cbn [foldr]. by rewrite (proj2 (Z.ltb_lt c 128)) by lia. }
  rewrite byte_len_app, Hl. repeat case_bool_decide; try congruence. lia.
Qed.

(** The byte range of a line is that of its content. *)
Lemma line_bytes_spec k (content stop : text) :
  lines t !! k = Some (content, stop) →
  line_bytes (line_index_new t) t k
  = Some (byte_len (before t k), byte_len (before t k ++ content)).
Proof.
  intros Hk. destruct (line_place t k _ Hk) as (post & Et & _ & _).
  destruct (lines_shape t k _ _ Hk) as (Hp & Hs & _). unfold line_text in Et. cbn [fst snd] in Et.
  assert (Hc : Forall is_char content).
  { rewrite Et in Hvalid. by apply Forall_app in Hvalid as [_ [[Hc _]%Forall_app _]%Forall_app]. }
  unfold line_bytes. rewrite (line_next k _ Hk), starts_lookup, Hk. cbn [fmap option_fmap option_map].
  unfold line_text. cbn [fst snd]. f_equal. f_equal.
  set (pre := before t k) in *. rewrite !byte_len_app.
  assert (Hcontent : ∀ post', t = pre ++ content ++ post' → ∀ b, b = 10 ∨ b = 13 →
    trim t (byte_len pre) (byte_len pre + byte_len content) b = (byte_len pre + byte_len content)%nat).
  { intros post' E b Hb. rewrite (trim_last pre content post' b E), bool_decide_eq_false_2; [done|].
    by apply last_byte_plain. }
  unfold terminators in Hs. set_unfold in Hs.
  destruct Hs as [->|[->|[->|[->|[]]]]].
  - rewrite app_nil_r in Et. rewrite Nat.add_0_r. by rewrite !(Hcontent post Et) by auto.
  - rewrite <- (byte_len_app content), (trim_snoc pre content post 10 10) by (done || lia).
    rewrite <- app_assoc in Et. cbn. apply (Hcontent _ Et). auto.
  - rewrite <- (byte_len_app content), (trim_snoc pre content post 13 10) by (done || lia).
    rewrite bool_decide_eq_false_2 by done.
    by rewrite (trim_snoc pre content post 13 13) by (done || lia).
  - replace (content ++ [13; 10]) with ((content ++ [13]) ++ [10]) in * by (by rewrite <- app_assoc).
    replace (byte_len content + byte_len [13%Z; 10%Z])%nat
      with (byte_len ((content ++ [13]) ++ [10]))
      by (by rewrite !byte_len_app, <- Nat.add_assoc).
    rewrite (trim_snoc pre (content ++ [13]) post 10 10) by (done || lia). cbn [bool_decide].
    rewrite bool_decide_eq_true_2 by done. rewrite <- app_assoc in Et.
    by rewrite (trim_snoc pre content ([10] ++ post) 13 13) by (done || lia).
Qed.

Lemma line_bytes_none k : lines t !! k = None → line_bytes (line_index_new t) t k = None.
Proof. intros Hk. unfold line_bytes. by rewrite starts_lookup, Hk. Qed.
End Index.

(** ** Slices and columns *)

Lemma byte_len_nil t : byte_len t = 0%nat → t = [].
Proof. destruct t as [|c t]; [done|]. rewrite byte_len_cons. pose proof (utf8_len_pos c). lia. Qed.

Lemma chars_upto_app a post : chars_upto (a ++ post) (byte_len a) = Some a.
Proof.
  induction a as [|c a IH]; [by destruct post|]. cbn [app]. rewrite byte_len_cons.
  pose proof (utf8_len_pos c). destruct (utf8_len c + byte_len a)%nat eqn:E; [lia|].
  rewrite <- E. unfold chars_upto; fold chars_upto. rewrite E, <- E.
  rewrite (proj2 (Nat.leb_le _ _)) by lia. rewrite Nat.add_comm, Nat.add_sub, IH. done.
Qed.

Lemma str_slice_app pre a post :
  str_slice (pre ++ a ++ post) (byte_len pre) (byte_len (pre ++ a)) = Some a.
Proof.
  unfold str_slice. rewrite byte_len_app, (proj2 (Nat.leb_le _ _)) by lia.
  rewrite (proj2 (boundary_true _ _)) by eauto. cbn [andb].
  rewrite slice_from_boundary, Nat.add_comm, Nat.add_sub. apply chars_upto_app.
Qed.

(** Two cuts of a text, the first not after the second. *)
Lemma cut_order (x y a b : text) :
  x ++ y = a ++ b → (byte_len x ≤ byte_len a)%nat → ∃ p, a = x ++ p ∧ y = p ++ b.
Proof.
  intros E Hle. apply app_eq_inv in E as [(k & -> & ->)|(k & -> & ->)]; [|eauto].
  rewrite byte_len_app in Hle. assert (k = []) as -> by (apply byte_len_nil; lia).
  exists []. by rewrite !app_nil_r.
Qed.

(** The reference column: the part of a line before the code unit [w]. *)
Fixpoint column (content : text) (w : nat) : option text :=
  match content with
  | [] => Some []
  | c :: content =>
      match w with
      | O => Some []
      | _ => if (len_utf16 c <=? w)%nat then cons c <$> column content (w - len_utf16 c) else None
      end
  end.

Lemma seek_column content : ∀ o u w,
  match seek content o u (u + w) with
  | Ok (Some x) => ∃ p, column content w = Some p ∧ x = (o + byte_len p)%nat
  | Ok None => column content w = Some content
  | Err e => e = InsideSurrogatePair ∧ column content w = None
  end.
Proof.
  induction content as [|c content IH]; intros o u w; cbn [seek].
  - by rewrite (proj2 (Nat.ltb_ge _ _)) by lia.
  - destruct (Nat.compare_spec u (u + w)) as [E|Hlt|Hgt]; [| |lia].
    + exists []. destruct w; [|lia]. split; [done|]. cbn. lia.
    + destruct w as [|w]; [lia|]. cbn [column]. pose proof (len_utf16_pos c).
      destruct (Nat.leb_spec (len_utf16 c) (S w)) as [Hle|Hover].
      * specialize (IH (o + utf8_len c)%nat (u + len_utf16 c)%nat (S w - len_utf16 c)%nat).
        replace (u + len_utf16 c + (S w - len_utf16 c))%nat with (u + S w)%nat in IH by lia.
        destruct (seek _ _ _ _) as [[x|]|e].
        -- destruct IH as (p & -> & ->). exists (c :: p). split; [done|]. rewrite byte_len_cons. lia.
        -- by rewrite IH.
        -- destruct IH as [-> ->]. done.
      * assert (len_utf16 c = 2 ∧ w = 0)%nat as [-> ->] by lia.
        destruct content as [|d content]; cbn [seek].
        -- by rewrite (proj2 (Nat.ltb_lt _ _)) by lia.
        -- destruct (Nat.compare_spec (u + 2) (u + 1)); [lia|lia|done].
Qed.

Lemma column_prefix content : ∀ w p,
  column content w = Some p →
  ∃ r, content = p ++ r ∧ utf16_count p = Nat.min w (utf16_count content).
Proof.
  induction content as [|c content IH]; intros w p; cbn [column].
  - intros [= <-]. exists []. split; [done|]. cbn. lia.
  - destruct w as [|w]; [intros [= <-]; by eexists|].
    destruct (Nat.leb_spec (len_utf16 c) (S w)) as [Hle|]; [|done].
    destruct (column content _) as [q|] eqn:E; [|done]. intros [= <-].
    destruct (IH _ _ E) as (r & -> & Hu). exists r. split; [done|].
    cbn [utf16_count foldr]. fold (utf16_count q). fold (utf16_count (q ++ r)). lia.
Qed.

Lemma column_of_prefix p : ∀ r, column (p ++ r) (utf16_count p) = Some p.
Proof.
  induction p as [|c p IH]; intros r; [by destruct r|]. cbn [app utf16_count foldr].
  fold (utf16_count p). pose proof (len_utf16_pos c). cbn [column].
  destruct (len_utf16 c + utf16_count p)%nat eqn:E; [lia|]. rewrite <- E.
  rewrite (proj2 (Nat.leb_le _ _)) by lia. by rewrite Nat.add_comm, Nat.add_sub, IH.
Qed.

(** A code unit has no column just inside a surrogate pair. *)
Lemma column_none content : ∀ w,
  column content w = None ↔ ∃ q c r, content = q ++ c :: r ∧ 65536 ≤ c ∧ (utf16_count q + 1 = w)%nat.
Proof.
  induction content as [|c content IH]; intros w; cbn [column].
  { split; [done|]. intros ([|] & ? & ? & [=] & _). }
  destruct w as [|w]; [split; [done|intros (? & ? & ? & _ & _ & ?); lia]|].
  destruct (Nat.leb_spec (len_utf16 c) (S w)) as [Hle|Hgt].
  - rewrite fmap_None, IH. split.
    + intros (q & d & r & -> & Hd & Hu). exists (c :: q), d, r. split_and!; [done..|].
      cbn [utf16_count foldr]. fold (utf16_count q). lia.
    + intros ([|c' q] & d & r & [= -> ->] & Hd & Hu).
      * exfalso. unfold len_utf16 in Hle. cbn in Hu. destruct (Z.ltb_spec d 65536); lia.
      * exists q, d, r. split_and!; [done..|]. cbn [utf16_count foldr] in Hu. fold (utf16_count q) in Hu. lia.
  - split; [intros _|done]. exists [], c, content. unfold len_utf16 in Hgt. cbn.
    destruct (Z.ltb_spec c 65536); split_and!; (done || lia).
Qed.

(** Past the end of the line it is the line. *)
Lemma column_past content : ∀ w, (utf16_count content ≤ w)%nat → column content w = Some content.
Proof.
  induction content as [|c content IH]; intros w Hw; [done|]. cbn [column utf16_count foldr] in *.
  fold (utf16_count content) in Hw. pose proof (len_utf16_pos c). destruct w as [|w]; [lia|].
  rewrite (proj2 (Nat.leb_le _ _)), IH by lia. done.
Qed.

(** ** Finding the line of an offset *)

Lemma search_split l1 x l2 o :
  (∀ y, y ∈ l1 → (y < o)%nat) → (x ≤ o)%nat → (∀ y, y ∈ l2 → (o < y)%nat) →
  match binary_search (l1 ++ x :: l2) o with Ok n => n | Err n => (n - 1)%nat end = length l1.
Proof.
  intros H1 Hx H2. unfold binary_search. rewrite list.filter_app, list.filter_cons.
  assert (F1 : filter (λ y, y < o)%nat l1 = l1).
  { clear -H1. induction l1 as [|y l1 IH]; [done|]. rewrite list.filter_cons_True, IH; [done|..].
    - intros z Hz. apply H1. by right.
    - apply H1. by left. }
  assert (F2 : filter (λ y, y < o)%nat l2 = []).
  { clear -H2. induction l2 as [|y l2 IH]; [done|]. rewrite list.filter_cons_False, IH; [done|..].
    - intros z Hz. apply H2. by right.
    - specialize (H2 y ltac:(by left)). lia. }
  rewrite F1, F2, length_app. destruct (decide (x < o)%nat) as [Hlt|Hge]; cbn [length].
  - rewrite bool_decide_eq_false_2; [lia|]. intros Hl. rewrite lookup_app_r in Hl by lia.
    replace (length l1 + 1 - length l1)%nat with 1%nat in Hl by lia. cbn in Hl.
    apply list_elem_of_lookup_2, H2 in Hl. lia.
  - rewrite Nat.add_0_r, list_lookup_middle by done. rewrite bool_decide_eq_true_2; [done|].
    f_equal. lia.
Qed.

(** Some line of a list holds the offset [o]. *)
Lemma locate ls o :
  ls ≠ [] →
  ∃ k l, ls !! k = Some l ∧ (byte_len (concat (line_text <$> take k ls)) ≤ o)%nat
    ∧ (ls !! S k ≠ None → (o < byte_len (concat (line_text <$> take (S k) ls)))%nat).
Proof.
  revert o. induction ls as [|l ls IH]; intros o Hne; [done|].
  destruct (decide (ls = [])) as [->|Hls].
  { exists 0%nat, l. split_and!; [done|cbn; lia|done]. }
  destruct (decide (o < byte_len (line_text l))%nat) as [Hlt|Hge].
  { exists 0%nat, l. split_and!; [done|cbn; lia|]. intros _. cbn [take fmap list_fmap concat].
    rewrite take_0. cbn. by rewrite app_nil_r. }
  destruct (IH (o - byte_len (line_text l))%nat Hls) as (k & l' & Hk & Hle & Hn).
  exists (S k), l'. split_and!; [done| |]; cbn [take fmap list_fmap concat].
  - rewrite byte_len_app. change (list_fmap _ _ line_text (take k ls)) with (line_text <$> take k ls). lia.
  - intros Hs. specialize (Hn Hs). rewrite byte_len_app.
    change (list_fmap _ _ line_text (take (S k) ls)) with (line_text <$> take (S k) ls). lia.
Qed.

(** Lines start one after the other. *)
Lemma before_lt t i j :
  (i < j)%nat → is_Some (lines t !! j) → (byte_len (before t i) < byte_len (before t j))%nat.
Proof.
  intros Hij. induction Hij as [|j Hij IH]; intros Hj.
  - destruct (lookup_lt_is_Some_2 (lines t) i) as [[content stop] Hi].
    { apply lookup_lt_is_Some in Hj. lia. }
    destruct (line_place t i _ Hi) as (_ & _ & -> & _).
    destruct (lines_shape t i _ _ Hi) as (_ & _ & Hs).
    rewrite byte_len_app. unfold line_text. cbn [fst snd]. rewrite byte_len_app.
    destruct (byte_len stop) eqn:E; [|lia]. apply byte_len_nil, Hs in E. by rewrite E in Hj; destruct Hj.
  - destruct (lookup_lt_is_Some_2 (lines t) j) as [[content stop] Hl].
    { apply lookup_lt_is_Some in Hj. lia. }
    destruct (line_place t j _ Hl) as (_ & _ & -> & _). rewrite byte_len_app.
    assert (is_Some (lines t !! j)) as Hsj by eauto. specialize (IH Hsj). lia.
Qed.

Lemma line_number_bound t k : is_Some (lines t !! k) → (k ≤ byte_len (before t k))%nat.
Proof.
  induction k as [|k IH]; intros Hk; [lia|].
  assert (is_Some (lines t !! k)) as Hk' by (apply lookup_lt_is_Some in Hk; apply lookup_lt_is_Some; lia).
  pose proof (before_lt t k (S k) ltac:(lia) Hk). specialize (IH Hk'). lia.
Qed.

Lemma utf16_count_bytes t : (utf16_count t ≤ byte_len t)%nat.
Proof.
  induction t as [|c t IH]; [done|]. rewrite byte_len_cons. cbn [utf16_count foldr].
  fold (utf16_count t). enough (len_utf16 c ≤ utf8_len c)%nat by lia.
  unfold len_utf16, utf8_len. repeat case_match; bool_prop; lia.
Qed.

Lemma as_u32_small n : Z.of_nat n < 4294967296 → as_u32 n = Z.of_nat n.
Proof. intros. apply Z.mod_small. lia. Qed.

(** ** The conversions against the reference *)

Section Conversions.
Context (t : text) (Hvalid : Forall is_char t).
Notation ix := (line_index_new t).

Lemma offset_spec p :
  offset ix t p = Some
    match lines t !! Z.to_nat (line p) with
    | None => Err LineOutOfRange
    | Some (content, _) =>
        match column content (Z.to_nat (character p)) with
        | None => Err InsideSurrogatePair
        | Some q => Ok (byte_len (before t (Z.to_nat (line p)) ++ q))
        end
    end.
Proof.
  unfold offset. set (k := Z.to_nat (line p)). set (w := Z.to_nat (character p)).
  destruct (lines t !! k) as [[content stop]|] eqn:Hk; [|by rewrite line_bytes_none].
  rewrite (line_bytes_spec t Hvalid k _ _ Hk).
  destruct (line_place t k _ Hk) as (post & Et & _ & _).
  unfold line_text in Et. cbn [fst snd] in Et. rewrite <- app_assoc in Et.
  assert (Hsl : str_slice t (byte_len (before t k)) (byte_len (before t k ++ content)) = Some content).
  { rewrite Et at 1. apply str_slice_app. }
  rewrite Hsl. f_equal. pose proof (seek_column content 0 0 w) as H. cbn [Nat.add] in H.
  destruct (seek content 0 0 w) as [[x|]|e].
  - destruct H as (q & -> & ->). by rewrite byte_len_app.
  - by rewrite H.
  - by destruct H as [-> ->].
Qed.

Lemma position_spec k (content stop q r : text) o :
  lines t !! k = Some (content, stop) → content = q ++ r → (o ≤ byte_len t)%nat →
  (byte_len (before t k) ≤ o)%nat →
  (lines t !! S k ≠ None → (o < byte_len (before t (S k)))%nat) →
  Nat.min o (byte_len (before t k ++ content)) = byte_len (before t k ++ q) →
  position ix t o = Some (mkUtf16Position (as_u32 k) (as_u32 (utf16_count q))).
Proof.
  intros Hk Hq Ho Hle Hnext Hmin. unfold position. rewrite (Nat.min_l o) by done.
  assert (Hix : ix !! k = Some (byte_len (before t k))) by (by rewrite starts_lookup, Hk).
  assert (Hsearch : match binary_search ix o with Ok n => n | Err n => (n - 1)%nat end = k).
  { rewrite <- (take_drop_middle ix k _ Hix).
    rewrite search_split; [rewrite length_take; apply lookup_lt_Some in Hix; lia|..|done|].
    - intros y (i & Hi)%list_elem_of_lookup. apply lookup_take_Some in Hi as [Hi Hik].
      rewrite starts_lookup in Hi by done. destruct (lines t !! i) eqn:E; [|done].
      injection Hi as <-. pose proof (before_lt t i k Hik ltac:(eauto)). lia.
    - intros y (j & Hj)%list_elem_of_lookup. rewrite lookup_drop, starts_lookup in Hj by done.
      destruct (lines t !! (S k + j)%nat) eqn:E; [|done]. injection Hj as <-.
      assert (is_Some (lines t !! S k)) as [l' Hl'].
      { apply lookup_lt_is_Some. apply lookup_lt_Some in E. lia. }
      rewrite Hl' in Hnext. specialize (Hnext ltac:(done)).
      destruct j as [|j]; [by rewrite Nat.add_0_r|].
      eapply Nat.lt_trans; [exact Hnext|]. apply before_lt; [lia|by eexists]. }
  rewrite Hsearch, (line_bytes_spec t Hvalid k _ _ Hk), Hmin.
  destruct (line_place t k _ Hk) as (post & Et & _ & _).
  unfold line_text in Et. cbn [fst snd] in Et. rewrite Hq, <- !app_assoc in Et.
  assert (Hsl : str_slice t (byte_len (before t k)) (byte_len (before t k ++ q)) = Some q).
  { rewrite Et at 1. apply str_slice_app. }
  by rewrite Hsl.
Qed.

(** The facts about an offset inside the content of a line. *)
Lemma content_offset k (content stop q r : text) :
  lines t !! k = Some (content, stop) → content = q ++ r →
  let o := byte_len (before t k ++ q) in
  is_char_boundary t o = true ∧ (o ≤ byte_len t)%nat
  ∧ position ix t o = Some (mkUtf16Position (as_u32 k) (as_u32 (utf16_count q))).
Proof.
  intros Hk Hq o. destruct (line_place t k _ Hk) as (post & Et & Eb & _).
  destruct (lines_shape t k _ _ Hk) as (_ & _ & Hs).
  unfold line_text in Et, Eb. cbn [fst snd] in Et, Eb.
  assert (Hcut : t = (before t k ++ q) ++ r ++ stop ++ post).
  { rewrite Et at 1. rewrite Hq. by rewrite <- !app_assoc. }
  assert (Hlen : (o ≤ byte_len t)%nat).
  { rewrite Hcut, byte_len_app. unfold o. lia. }
  split_and!; [apply boundary_true; eauto|done|].
  eapply position_spec; try done.
  - unfold o. rewrite byte_len_app. lia.
  - intros Hn. rewrite Eb, Hq. unfold o. rewrite !byte_len_app.
    destruct (byte_len stop) eqn:E; [|lia]. apply byte_len_nil, Hs in E. by destruct Hn.
  - unfold o. rewrite Hq, !byte_len_app. lia.
Qed.

Context (Hlen : Z.of_nat (byte_len t) < 4294967296).

(** Line numbers and columns fit in a [u32]. *)
Lemma content_u32 k (content stop q r : text) :
  lines t !! k = Some (content, stop) → content = q ++ r →
  as_u32 k = Z.of_nat k ∧ as_u32 (utf16_count q) = Z.of_nat (utf16_count q).
Proof.
  intros Hk Hq. destruct (content_offset k _ _ q r Hk Hq) as (_ & Ho & _).
  rewrite byte_len_app in Ho. pose proof (line_number_bound t k ltac:(eauto)).
  pose proof (utf16_count_bytes q). split; apply as_u32_small; lia.
Qed.

Lemma content_position k (content stop q r : text) :
  lines t !! k = Some (content, stop) → content = q ++ r →
  let o := byte_len (before t k ++ q) in
  let p := mkUtf16Position (Z.of_nat k) (Z.of_nat (utf16_count q)) in
  position ix t o = Some p ∧ offset ix t p = Some (Ok o).
Proof.
  intros Hk Hq o p. destruct (content_offset k _ _ q r Hk Hq) as (_ & _ & Hp).
  destruct (content_u32 k _ _ q r Hk Hq) as [E1 E2]. rewrite E1, E2 in Hp. split; [done|].
  rewrite offset_spec. unfold p. cbn [line character]. rewrite !Nat2Z.id, Hk, Hq.
  by rewrite column_of_prefix.
Qed.

Lemma offset_roundtrip p :
  0 ≤ line p → 0 ≤ character p → ∃ res, offset ix t p = Some res
  ∧ (res = Err LineOutOfRange ↔ Z.of_nat (line_count ix) ≤ line p)
  ∧ ∀ o, res = Ok o → is_char_boundary t o = true
      ∧ ∃ q, position ix t o = Some q ∧ offset ix t q = Some (Ok o)
             ∧ line q = line p ∧ character q ≤ character p
             ∧ (character q < character p →
                ∃ start, line_bytes ix t (Z.to_nat (line p)) = Some (start, o)).
Proof.
  intros Hl Hc. rewrite (offset_spec p). eexists. split; [reflexivity|].
  set (k := Z.to_nat (line p)). assert (Ek : line p = Z.of_nat k) by (unfold k; lia).
  assert (Hcount : (line_count ix ≤ k)%nat ↔ lines t !! k = None).
  { unfold line_count. rewrite <- lookup_ge_None, starts_lookup by done.
    by destruct (lines t !! k). }
  destruct (lines t !! k) as [[content stop]|] eqn:Hk.
  2: { split; [|done]. split; [|done]. intros _. pose proof (proj2 Hcount eq_refl). lia. }
  assert (Hin : ¬ (line_count ix ≤ k)%nat) by (intros H; by apply Hcount in H).
  destruct (column content (Z.to_nat (character p))) as [q|] eqn:Hq.
  2: { split; [|done]. split; [done|]. lia. }
  split; [split; [done|lia]|]. intros o [= <-].
  destruct (column_prefix _ _ _ Hq) as (r & Er & Hu).
  destruct (content_offset k _ _ q r Hk Er) as (Hb & _ & _).
  destruct (content_position k _ _ q r Hk Er) as [Hp Ho].
  split; [done|]. eexists. split_and!; [done|done|cbn; lia|cbn; lia|].
  cbn [character]. intros Hlt. rewrite (line_bytes_spec t Hvalid k _ _ Hk).
  assert (r = []) as ->; [|rewrite app_nil_r in Er; subst content; eauto].
  rewrite Er, utf16_count_app in Hu. destruct r as [|d r]; [done|].
  cbn [utf16_count foldr] in Hu. pose proof (len_utf16_pos d). lia.
Qed.

(** What an offset is, in terms of the reference. *)
Lemma offset_reference p (content stop : text) :
  0 ≤ character p → lines t !! Z.to_nat (line p) = Some (content, stop) →
  (offset ix t p = Some (Err InsideSurrogatePair) ↔
     ∃ q c r, content = q ++ c :: r ∧ 65536 ≤ c ∧ Z.of_nat (utf16_count q) + 1 = character p)
  ∧ (∀ q r, content = q ++ r → Z.of_nat (utf16_count q) = character p →
       offset ix t p = Some (Ok (byte_len (before t (Z.to_nat (line p)) ++ q))))
  ∧ (Z.of_nat (utf16_count content) ≤ character p →
       offset ix t p = Some (Ok (byte_len (before t (Z.to_nat (line p)) ++ content)))).
Proof.
  intros Hc Hk. rewrite (offset_spec p), Hk. split_and!.
  - transitivity (column content (Z.to_nat (character p)) = None).
    { destruct (column _ _); split; congruence. }
    rewrite column_none. split; intros (q & c & r & E & Hc' & Hu); exists q, c, r; (split; [done|]); split; (done || lia).
  - intros q r -> Hu. replace (Z.to_nat (character p)) with (utf16_count q) by lia. by rewrite column_of_prefix.
  - intros Hu. rewrite column_past by lia. done.
Qed.

Lemma position_offset o :
  is_char_boundary t o = true →
  ∃ q start stop, position ix t o = Some q
    ∧ line_bytes ix t (Z.to_nat (line q)) = Some (start, stop) ∧ (start ≤ o)%nat
    ∧ offset ix t q = Some (Ok (Nat.min o stop)).
Proof.
  intros (a & b & Et & Ho)%boundary_true.
  assert (Hle : (o ≤ byte_len t)%nat) by (rewrite Et, byte_len_app; lia).
  destruct (locate (lines t) o) as (k & [content stop] & Hk & Hs & Hn).
  { intros E. pose proof (lines_concat t) as H. rewrite E in H. cbn in H. by rewrite <- H in E. }
  fold (before t k) in Hs. fold (before t (S k)) in Hn.
  assert (∃ q r, content = q ++ r
    ∧ Nat.min o (byte_len (before t k ++ content)) = byte_len (before t k ++ q)) as (q & r & Eq & Hmin).
  { destruct (decide (byte_len (before t k ++ content) ≤ o)%nat) as [Hge|Hlt].
    { exists content, []. rewrite app_nil_r. split; [done|]. lia. }
    destruct (line_place t k _ Hk) as (post & Ep & _ & _).
    unfold line_text in Ep. cbn [fst snd] in Ep. rewrite <- app_assoc, Et in Ep.
    destruct (cut_order (before t k) (content ++ stop ++ post) a b) as (q & -> & E); [congruence|lia|].
    symmetry in E. destruct (cut_order q b content (stop ++ post)) as (r & -> & _); [done| |].
    - rewrite !byte_len_app in *. lia.
    - exists q, r. split; [done|]. rewrite !byte_len_app in *. lia. }
  destruct (content_u32 k _ _ q r Hk Eq) as [E1 E2].
  destruct (content_position k _ _ q r Hk Eq) as [_ Hoff].
  exists (mkUtf16Position (Z.of_nat k) (Z.of_nat (utf16_count q))), (byte_len (before t k)),
    (byte_len (before t k ++ content)).
  split_and!; [|cbn [line]; rewrite Nat2Z.id; by apply (line_bytes_spec t Hvalid k content stop)|done|].
  - rewrite <- E1, <- E2. by apply (position_spec k content stop q r).
  - by rewrite Hmin.
Qed.

Lemma unica_roundtrip p u :
  unica_point ix t p = Some (Ok u) →
  ∃ o, offset ix t p = Some (Ok o) ∧ lsp_position ix t u = Some (position ix t o).
Proof.
  unfold unica_point. rewrite (offset_spec p). set (k := Z.to_nat (line p)).
  destruct (lines t !! k) as [[content stop]|] eqn:Hk; [|done].
  destruct (column content _) as [q|] eqn:Hq; [|done].
  rewrite starts_lookup, Hk by done. cbn [fmap option_fmap option_map]. intros [= <-].
  destruct (column_prefix _ _ _ Hq) as (r & Er & _).
  destruct (content_offset k _ _ q r Hk Er) as (Hb & _ & Hp).
  eexists. split; [done|]. unfold lsp_position. cbn [u_line byte_column].
  rewrite Nat.add_1_r, (line_bytes_spec t Hvalid k _ _ Hk).
  replace (byte_len (before t k) + (byte_len (before t k ++ q) - byte_len (before t k)))%nat
    with (byte_len (before t k ++ q)) by (rewrite byte_len_app; lia).
  rewrite Hb, Hp, (proj2 (Nat.leb_le _ _)); [done|]. rewrite Er, !byte_len_app. lia.
Qed.
End Conversions.

(** ** Properties *)

(** C39. Text positions and byte offsets are inverse, over any text shorter
    than four gibibytes: no conversion panics; an LSP position fails only past
    the last line or on the second unit of a surrogate pair, and fails there;
    at the units of a part of its line it names the end of that part, and with
    a character past the line end the line end; what it names is a character
    boundary whose position is the same one, but for that clamp; the position
    of any character boundary names that boundary again, or the end of its
    line when the boundary lies inside the line terminator; and a Unica point
    stands for the same place as the position it was made from. *)
Theorem position_roundtrip t :
  Forall is_char t → Z.of_nat (byte_len t) < 4294967296 →
  let ix := line_index_new t in
  (∀ p, 0 ≤ line p → 0 ≤ character p → ∃ res, offset ix t p = Some res
     ∧ (res = Err LineOutOfRange ↔ Z.of_nat (line_count ix) ≤ line p)
     ∧ ∀ o, res = Ok o → is_char_boundary t o = true
         ∧ ∃ q, position ix t o = Some q ∧ offset ix t q = Some (Ok o)
                ∧ line q = line p ∧ character q ≤ character p
                ∧ (character q < character p →
                   ∃ start, line_bytes ix t (Z.to_nat (line p)) = Some (start, o)))
  ∧ (∀ p (content stop : text), 0 ≤ character p → lines t !! Z.to_nat (line p) = Some (content, stop) →
       (offset ix t p = Some (Err InsideSurrogatePair) ↔
          ∃ q c r, content = q ++ c :: r ∧ 65536 ≤ c ∧ Z.of_nat (utf16_count q) + 1 = character p)
       ∧ (∀ q r, content = q ++ r → Z.of_nat (utf16_count q) = character p →
            offset ix t p = Some (Ok (byte_len (before t (Z.to_nat (line p)) ++ q))))
       ∧ (Z.of_nat (utf16_count content) ≤ character p →
            offset ix t p = Some (Ok (byte_len (before t (Z.to_nat (line p)) ++ content)))))
  ∧ (∀ o, is_char_boundary t o = true →
       ∃ q start stop, position ix t o = Some q
         ∧ line_bytes ix t (Z.to_nat (line q)) = Some (start, stop) ∧ (start ≤ o)%nat
         ∧ offset ix t q = Some (Ok (Nat.min o stop)))
  ∧ (∀ p u, unica_point ix t p = Some (Ok u) →
       ∃ o, offset ix t p = Some (Ok o) ∧ lsp_position ix t u = Some (position ix t o)).
Proof.
  intros Hv Hlen ix. split_and!.
  - by apply offset_roundtrip.
  - intros p content stop. by apply offset_reference.
  - by apply position_offset.
  - by apply unica_roundtrip.
Qed.

(** ** Witnesses *)

(** A tab, an emoji, a Cyrillic letter, a line end of two bytes, a letter. *)
Definition sample_text : text := [9; 128512; 1041; 13; 10; 99].

Lemma position_roundtrip_witness :
  ∃ q start stop, position (line_index_new sample_text) sample_text 8 = Some q
    ∧ line_bytes (line_index_new sample_text) sample_text (Z.to_nat (line q)) = Some (start, stop)
    ∧ (start ≤ 8)%nat
    ∧ offset (line_index_new sample_text) sample_text q = Some (Ok (Nat.min 8 stop)).
Proof.
  apply (position_roundtrip sample_text).
  - apply (bool_decide_eq_true_1 _). vm_compute. reflexivity.
  - vm_compute. reflexivity.
  - vm_compute. reflexivity.
Defined.
