(* ===== verification/AddressKinds.v ===== *)
(** * Kinds of logical nodes

    The vocabulary of logical addresses: [NodeKind] with its spellings
    ([crates/unica-address/src/address.rs]), the metadata kinds with their
    aliases ([crates/unica-address/src/source_target.rs]) and XML names
    ([crates/unica-xml-format/src/names.rs]).  The tables are those of the
    source; a string is the list of its characters. *)

From Stdlib Require Import ZArith Lia Ascii String.
From stdpp Require Import base list option numbers.
From S2P Require Import Prelude Redaction.

Local Open Scope Z_scope.

(** ** String literals of the source, in UTF-8 *)

Fixpoint utf8_decode (bs : list Z) : text :=
  match bs with
  | [] => []
  | a :: bs =>
      if a <? 128 then a :: utf8_decode bs
      else match bs with
      | [] => []
      | b :: bs =>
          if a <? 224 then ((a - 192) * 64 + (b - 128)) :: utf8_decode bs
          else match bs with
          | [] => []
          | c :: bs => ((a - 224) * 4096 + (b - 128) * 64 + (c - 128)) :: utf8_decode bs
          end
      end
  end.
Definition str (s : string) : text := utf8_decode (lit s).

Example str_cyrillic : str "Ёж" = [1025; 1078].
Proof. vm_compute. reflexivity. Qed.

(** ** XML names *)

Definition XML_NCNAME_START_RANGES : list (Z * Z) :=
  [(65, 90); (95, 95); (97, 122); (192, 214); (216, 246); (248, 767); (880, 893);
   (895, 8191); (8204, 8205); (8304, 8591); (11264, 12271); (12289, 55295); (63744, 64975);
   (65008, 65533); (65536, 983039)].
Definition XML_NCNAME_EXTRA_RANGES : list (Z * Z) :=
  [(45, 45); (46, 46); (48, 57); (183, 183); (768, 879); (8255, 8256)].

Definition in_xml_name_ranges (c : Z) (ranges : list (Z * Z)) : bool :=
  existsb (λ r, in_range r.1 r.2 c) ranges.
Definition xml_ncname_is_start (c : Z) : bool := in_xml_name_ranges c XML_NCNAME_START_RANGES.
Definition xml_ncname_is_character (c : Z) : bool :=
  xml_ncname_is_start c || in_xml_name_ranges c XML_NCNAME_EXTRA_RANGES.
Definition xml_ncname_is_valid (value : text) : bool :=
  match value with
  | [] => false
  | c :: rest => xml_ncname_is_start c && forallb xml_ncname_is_character rest
  end.

(** ** Kinds *)

Inductive NodeKind :=
| KConfiguration | KLanguage | KSubsystem | KStyleItem | KStyle | KCommonPicture
| KSessionParameter | KRole | KCommonTemplate | KFilterCriterion | KCommonModule | KBot
| KCommonAttribute | KExchangePlan | KXdtoPackage | KWebService | KHttpService | KWsReference
| KEventSubscription | KScheduledJob | KSchedule | KDefinition | KSettingsStorage
| KFunctionalOption | KFunctionalOptionsParameter | KDefinedType | KCommonCommand
| KCommandGroup | KConstant | KCommonForm | KCatalog | KDocument | KDocumentNumerator
| KSequence | KDocumentJournal | KEnum | KReport | KDataProcessor | KInformationRegister
| KAccumulationRegister | KChartOfCharacteristicTypes | KChartOfAccounts | KAccountingRegister
| KChartOfCalculationTypes | KCalculationRegister | KBusinessProcess | KTask
| KIntegrationService | KForm | KMetadata | KTemplate | KCommand | KExternalDataProcessor
| KExternalReport | KWebSocketClient | KAttribute | KAddressingAttribute | KStandardAttribute
| KTabularSection | KDimension | KResource | KEnumValue | KColumn | KRecalculation | KItem
| KParameter | KRight | KRls | KDataSet | KField | KQuery | KDataSource | KCalculatedField
| KTotal | KSetting | KArea | KGroup | KModule | KMethod | KBody | KRegion | KInterface
| KEvent | KCompilation | KUrlTemplate | KOperation | KChannel | KNamespace | KType | KProperty
| KRelation | KCharacteristic | KStandardTabularSection | KCaller | KCallee | KPredefinedItem
| KCan | KProps.

(** Every kind, in the order of the source. *)
Definition all_kinds : list NodeKind :=
  [KConfiguration; KLanguage; KSubsystem; KStyleItem; KStyle; KCommonPicture;
   KSessionParameter; KRole; KCommonTemplate; KFilterCriterion; KCommonModule; KBot;
   KCommonAttribute; KExchangePlan; KXdtoPackage; KWebService; KHttpService; KWsReference;
   KEventSubscription; KScheduledJob; KSchedule; KDefinition; KSettingsStorage;
   KFunctionalOption; KFunctionalOptionsParameter; KDefinedType; KCommonCommand; KCommandGroup;
   KConstant; KCommonForm; KCatalog; KDocument; KDocumentNumerator; KSequence;
   KDocumentJournal; KEnum; KReport; KDataProcessor; KInformationRegister;
   KAccumulationRegister; KChartOfCharacteristicTypes; KChartOfAccounts; KAccountingRegister;
   KChartOfCalculationTypes; KCalculationRegister; KBusinessProcess; KTask;
   KIntegrationService; KForm; KMetadata; KTemplate; KCommand; KExternalDataProcessor;
   KExternalReport; KWebSocketClient; KAttribute; KAddressingAttribute; KStandardAttribute;
   KTabularSection; KDimension; KResource; KEnumValue; KColumn; KRecalculation; KItem;
   KParameter; KRight; KRls; KDataSet; KField; KQuery; KDataSource; KCalculatedField; KTotal;
   KSetting; KArea; KGroup; KModule; KMethod; KBody; KRegion; KInterface; KEvent; KCompilation;
   KUrlTemplate; KOperation; KChannel; KNamespace; KType; KProperty; KRelation;
   KCharacteristic; KStandardTabularSection; KCaller; KCallee; KPredefinedItem; KCan; KProps].

(** [NodeKind::as_str]. *)
Definition as_str (k : NodeKind) : text :=
  match k with
  | KConfiguration => str "Configuration"
  | KLanguage => str "Language"
  | KSubsystem => str "Subsystem"
  | KStyleItem => str "StyleItem"
  | KStyle => str "Style"
  | KCommonPicture => str "CommonPicture"
  | KSessionParameter => str "SessionParameter"
  | KRole => str "Role"
  | KCommonTemplate => str "CommonTemplate"
  | KFilterCriterion => str "FilterCriterion"
  | KCommonModule => str "CommonModule"
  | KBot => str "Bot"
  | KCommonAttribute => str "CommonAttribute"
  | KExchangePlan => str "ExchangePlan"
  | KXdtoPackage => str "XDTOPackage"
  | KWebService => str "WebService"
  | KHttpService => str "HTTPService"
  | KWsReference => str "WSReference"
  | KEventSubscription => str "EventSubscription"
  | KScheduledJob => str "ScheduledJob"
  | KSchedule => str "Schedule"
  | KDefinition => str "Definition"
  | KSettingsStorage => str "SettingsStorage"
  | KFunctionalOption => str "FunctionalOption"
  | KFunctionalOptionsParameter => str "FunctionalOptionsParameter"
  | KDefinedType => str "DefinedType"
  | KCommonCommand => str "CommonCommand"
  | KCommandGroup => str "CommandGroup"
  | KConstant => str "Constant"
  | KCommonForm => str "CommonForm"
  | KCatalog => str "Catalog"
  | KDocument => str "Document"
  | KDocumentNumerator => str "DocumentNumerator"
  | KSequence => str "Sequence"
  | KDocumentJournal => str "DocumentJournal"
  | KEnum => str "Enum"
  | KReport => str "Report"
  | KDataProcessor => str "DataProcessor"
  | KInformationRegister => str "InformationRegister"
  | KAccumulationRegister => str "AccumulationRegister"
  | KChartOfCharacteristicTypes => str "ChartOfCharacteristicTypes"
  | KChartOfAccounts => str "ChartOfAccounts"
  | KAccountingRegister => str "AccountingRegister"
  | KChartOfCalculationTypes => str "ChartOfCalculationTypes"
  | KCalculationRegister => str "CalculationRegister"
  | KBusinessProcess => str "BusinessProcess"
  | KTask => str "Task"
  | KIntegrationService => str "IntegrationService"
  | KForm => str "Form"
  | KMetadata => str "Metadata"
  | KTemplate => str "Template"
  | KCommand => str "Command"
  | KExternalDataProcessor => str "ExternalDataProcessor"
  | KExternalReport => str "ExternalReport"
  | KWebSocketClient => str "WebSocketClient"
  | KAttribute => str "Attribute"
  | KAddressingAttribute => str "AddressingAttribute"
  | KStandardAttribute => str "StandardAttribute"
  | KTabularSection => str "TabularSection"
  | KDimension => str "Dimension"
  | KResource => str "Resource"
  | KEnumValue => str "EnumValue"
  | KColumn => str "Column"
  | KRecalculation => str "Recalculation"
  | KItem => str "Item"
  | KParameter => str "Parameter"
  | KRight => str "Right"
  | KRls => str "RLS"
  | KDataSet => str "DataSet"
  | KField => str "Field"
  | KQuery => str "Query"
  | KDataSource => str "DataSource"
  | KCalculatedField => str "CalculatedField"
  | KTotal => str "Total"
  | KSetting => str "Setting"
  | KArea => str "Area"
  | KGroup => str "Group"
  | KModule => str "Module"
  | KMethod => str "Method"
  | KBody => str "Body"
  | KRegion => str "Region"
  | KInterface => str "Interface"
  | KEvent => str "Event"
  | KCompilation => str "Compilation"
  | KUrlTemplate => str "URLTemplate"
  | KOperation => str "Operation"
  | KChannel => str "Channel"
  | KNamespace => str "Namespace"
  | KType => str "Type"
  | KProperty => str "Property"
  | KRelation => str "Relation"
  | KCharacteristic => str "Characteristic"
  | KStandardTabularSection => str "StandardTabularSection"
  | KCaller => str "Caller"
  | KCallee => str "Callee"
  | KPredefinedItem => str "PredefinedItem"
  | KCan => str "Can"
  | KProps => str "Props"
  end.

Definition LEGACY_METADATA_KINDS : list NodeKind :=
  [KLanguage; KSubsystem; KStyleItem; KStyle; KCommonPicture; KSessionParameter; KRole;
   KCommonTemplate; KFilterCriterion; KCommonModule; KBot; KCommonAttribute; KExchangePlan;
   KXdtoPackage; KWebService; KHttpService; KWsReference; KEventSubscription; KScheduledJob;
   KSettingsStorage; KFunctionalOption; KFunctionalOptionsParameter; KDefinedType;
   KCommonCommand; KCommandGroup; KConstant; KCommonForm; KCatalog; KDocument;
   KDocumentNumerator; KSequence; KDocumentJournal; KEnum; KReport; KDataProcessor;
   KInformationRegister; KAccumulationRegister; KChartOfCharacteristicTypes; KChartOfAccounts;
   KAccountingRegister; KChartOfCalculationTypes; KCalculationRegister; KBusinessProcess;
   KTask; KIntegrationService; KForm; KTemplate; KCommand; KExternalDataProcessor;
   KExternalReport].

Record V13KindSpelling := mkV13KindSpelling { v_kind : NodeKind; v_aliases : list text }.

Definition V13_KIND_SPELLINGS : list V13KindSpelling :=
  [mkV13KindSpelling KConfiguration [str "Конфигурация"];
   mkV13KindSpelling KMetadata [str "Метаданные"];
   mkV13KindSpelling KSchedule [str "Расписание"];
   mkV13KindSpelling KWebSocketClient [];
   mkV13KindSpelling KAttribute [str "Реквизит"];
   mkV13KindSpelling KAddressingAttribute [str "РеквизитАдресации"];
   mkV13KindSpelling KStandardAttribute [str "СтандартныйРеквизит"];
   mkV13KindSpelling KTabularSection [str "ТабличнаяЧасть"];
   mkV13KindSpelling KDimension [str "Измерение"];
   mkV13KindSpelling KResource [str "Ресурс"];
   mkV13KindSpelling KEnumValue [str "ЗначениеПеречисления"];
   mkV13KindSpelling KColumn [str "Колонка"];
   mkV13KindSpelling KRecalculation [str "Перерасчет"; str "Перерасчёт"; str "Перерасчеты"; str "Перерасчёты"];
   mkV13KindSpelling KItem [str "Элемент"];
   mkV13KindSpelling KParameter [str "Параметр"];
   mkV13KindSpelling KRight [str "Право"];
   mkV13KindSpelling KRls [];
   mkV13KindSpelling KDataSet [str "НаборДанных"];
   mkV13KindSpelling KField [str "Поле"];
   mkV13KindSpelling KQuery [str "Запрос"];
   mkV13KindSpelling KDataSource [str "ИсточникДанных"];
   mkV13KindSpelling KCalculatedField [str "ВычисляемоеПоле"];
   mkV13KindSpelling KTotal [str "Итог"];
   mkV13KindSpelling KSetting [str "Настройка"];
   mkV13KindSpelling KArea [str "Область"];
   mkV13KindSpelling KModule [str "Модуль"];
   mkV13KindSpelling KMethod [str "Метод"];
   mkV13KindSpelling KBody [str "Тело"];
   mkV13KindSpelling KRegion [str "ОбластьКода"];
   mkV13KindSpelling KInterface [str "Интерфейс"];
   mkV13KindSpelling KGroup [str "Группа"];
   mkV13KindSpelling KEvent [str "Событие"];
   mkV13KindSpelling KCompilation [str "Компиляция"];
   mkV13KindSpelling KUrlTemplate [str "ШаблонURL"];
   mkV13KindSpelling KOperation [str "Операция"];
   mkV13KindSpelling KChannel [str "Канал"];
   mkV13KindSpelling KNamespace [str "ПространствоИмен"];
   mkV13KindSpelling KType [str "Тип"];
   mkV13KindSpelling KProperty [str "Свойство"];
   mkV13KindSpelling KDefinition [str "Определение"];
   mkV13KindSpelling KRelation [str "Связь"];
   mkV13KindSpelling KCharacteristic [str "Характеристика"];
   mkV13KindSpelling KStandardTabularSection [str "СтандартнаяТабличнаяЧасть"];
   mkV13KindSpelling KCaller [str "Вызывающий"];
   mkV13KindSpelling KCallee [str "Вызываемый"];
   mkV13KindSpelling KPredefinedItem [str "ПредопределённыйЭлемент"];
   mkV13KindSpelling KCan [];
   mkV13KindSpelling KProps []].

Record AddressKind := mkAddressKind {
  ak_canonical : text;
  ak_russian_aliases : list text;
  ak_collection_aliases : list text;
}.

Definition ADDRESS_KINDS : list AddressKind :=
  [mkAddressKind (str "Language") [str "Язык"]
     [str "Languages"; str "Языки"];
   mkAddressKind (str "Subsystem") [str "Подсистема"]
     [str "Subsystems"; str "Подсистемы"];
   mkAddressKind (str "StyleItem") [str "ЭлементСтиля"]
     [str "StyleItems"; str "ЭлементыСтиля"];
   mkAddressKind (str "Style") [str "Стиль"]
     [str "Styles"; str "Стили"];
   mkAddressKind (str "CommonPicture") [str "ОбщаяКартинка"]
     [str "CommonPictures"; str "ОбщиеКартинки"];
   mkAddressKind (str "SessionParameter") [str "ПараметрСеанса"]
     [str "SessionParameters"; str "ПараметрыСеанса"];
   mkAddressKind (str "Role") [str "Роль"]
     [str "Roles"; str "Роли"];
   mkAddressKind (str "CommonTemplate") [str "ОбщийМакет"]
     [str "CommonTemplates"; str "ОбщиеМакеты"];
   mkAddressKind (str "FilterCriterion") [str "КритерийОтбора"]
     [str "FilterCriteria"; str "КритерииОтбора"];
   mkAddressKind (str "CommonModule") [str "ОбщийМодуль"]
     [str "CommonModules"; str "ОбщиеМодули"];
   mkAddressKind (str "Bot") [str "Бот"]
     [str "Bots"; str "Боты"];
   mkAddressKind (str "CommonAttribute") [str "ОбщийРеквизит"]
     [str "CommonAttributes"; str "ОбщиеРеквизиты"];
   mkAddressKind (str "ExchangePlan") [str "ПланОбмена"]
     [str "ExchangePlans"; str "ПланыОбмена"];
   mkAddressKind (str "XDTOPackage") [str "ПакетXDTO"]
     [str "XDTOPackages"; str "ПакетыXDTO"];
   mkAddressKind (str "WebService") [str "ВебСервис"]
     [str "WebServices"; str "ВебСервисы"];
   mkAddressKind (str "HTTPService") [str "HTTPСервис"]
     [str "HTTPServices"; str "HTTPСервисы"];
   mkAddressKind (str "WSReference") [str "WSСсылка"]
     [str "WSReferences"; str "WSСсылки"];
   mkAddressKind (str "EventSubscription") [str "ПодпискаНаСобытие"]
     [str "EventSubscriptions"; str "ПодпискиНаСобытия"];
   mkAddressKind (str "ScheduledJob") [str "РегламентноеЗадание"]
     [str "ScheduledJobs"; str "РегламентныеЗадания"];
   mkAddressKind (str "SettingsStorage") [str "ХранилищеНастроек"]
     [str "SettingsStorages"; str "ХранилищаНастроек"];
   mkAddressKind (str "FunctionalOption") [str "ФункциональнаяОпция"]
     [str "FunctionalOptions"; str "ФункциональныеОпции"];
   mkAddressKind (str "FunctionalOptionsParameter") [str "ПараметрФункциональнойОпции"]
     [str "FunctionalOptionsParameters"; str "ПараметрыФункциональныхОпций"];
   mkAddressKind (str "DefinedType") [str "ОпределяемыйТип"]
     [str "DefinedTypes"; str "ОпределяемыеТипы"];
   mkAddressKind (str "CommonCommand") [str "ОбщаяКоманда"]
     [str "CommonCommands"; str "ОбщиеКоманды"];
   mkAddressKind (str "CommandGroup") [str "ГруппаКоманд"]
     [str "CommandGroups"; str "ГруппыКоманд"];
   mkAddressKind (str "Constant") [str "Константа"]
     [str "Constants"; str "Константы"];
   mkAddressKind (str "CommonForm") [str "ОбщаяФорма"]
     [str "CommonForms"; str "ОбщиеФормы"];
   mkAddressKind (str "Catalog") [str "Справочник"]
     [str "Catalogs"; str "Справочники"];
   mkAddressKind (str "Document") [str "Документ"]
     [str "Documents"; str "Документы"];
   mkAddressKind (str "DocumentNumerator") [str "НумераторДокументов"]
     [str "DocumentNumerators"; str "НумераторыДокументов"];
   mkAddressKind (str "Sequence") [str "Последовательность"]
     [str "Sequences"; str "Последовательности"];
   mkAddressKind (str "DocumentJournal") [str "ЖурналДокументов"]
     [str "DocumentJournals"; str "ЖурналыДокументов"];
   mkAddressKind (str "Enum") [str "Перечисление"]
     [str "Enums"; str "Перечисления"];
   mkAddressKind (str "Report") [str "Отчет"; str "Отчёт"]
     [str "Reports"; str "Отчеты"; str "Отчёты"];
   mkAddressKind (str "DataProcessor") [str "Обработка"]
     [str "DataProcessors"; str "Обработки"];
   mkAddressKind (str "InformationRegister") [str "РегистрСведений"]
     [str "InformationRegisters"; str "РегистрыСведений"];
   mkAddressKind (str "AccumulationRegister") [str "РегистрНакопления"]
     [str "AccumulationRegisters"; str "РегистрыНакопления"];
   mkAddressKind (str "ChartOfCharacteristicTypes") [str "ПланВидовХарактеристик"]
     [str "ChartsOfCharacteristicTypes"; str "ПланыВидовХарактеристик"];
   mkAddressKind (str "ChartOfAccounts") [str "ПланСчетов"]
     [str "ChartsOfAccounts"; str "ПланыСчетов"];
   mkAddressKind (str "AccountingRegister") [str "РегистрБухгалтерии"]
     [str "AccountingRegisters"; str "РегистрыБухгалтерии"];
   mkAddressKind (str "ChartOfCalculationTypes") [str "ПланВидовРасчета"; str "ПланВидовРасчёта"]
     [str "ChartsOfCalculationTypes"; str "ПланыВидовРасчета"; str "ПланыВидовРасчёта"];
   mkAddressKind (str "CalculationRegister") [str "РегистрРасчета"; str "РегистрРасчёта"]
     [str "CalculationRegisters"; str "РегистрыРасчета"; str "РегистрыРасчёта"];
   mkAddressKind (str "BusinessProcess") [str "БизнесПроцесс"]
     [str "BusinessProcesses"; str "БизнесПроцессы"];
   mkAddressKind (str "Task") [str "Задача"]
     [str "Tasks"; str "Задачи"];
   mkAddressKind (str "IntegrationService") [str "СервисИнтеграции"]
     [str "IntegrationServices"; str "СервисыИнтеграции"];
   mkAddressKind (str "Form") [str "Форма"]
     [str "Forms"; str "Формы"];
   mkAddressKind (str "Template") [str "Макет"]
     [str "Templates"; str "Макеты"];
   mkAddressKind (str "Command") [str "Команда"]
     [str "Commands"; str "Команды"];
   mkAddressKind (str "ExternalDataProcessor") [str "ВнешняяОбработка"]
     [str "ExternalDataProcessors"; str "ВнешниеОбработки"];
   mkAddressKind (str "ExternalReport") [str "ВнешнийОтчет"; str "ВнешнийОтчёт"]
     [str "ExternalReports"; str "ВнешниеОтчеты"; str "ВнешниеОтчёты"]].

(** A position in [all_kinds], for decidable equality. *)
Definition kind_index (k : NodeKind) : nat :=
  match k with
  | KConfiguration => 0
  | KLanguage => 1
  | KSubsystem => 2
  | KStyleItem => 3
  | KStyle => 4
  | KCommonPicture => 5
  | KSessionParameter => 6
  | KRole => 7
  | KCommonTemplate => 8
  | KFilterCriterion => 9
  | KCommonModule => 10
  | KBot => 11
  | KCommonAttribute => 12
  | KExchangePlan => 13
  | KXdtoPackage => 14
  | KWebService => 15
  | KHttpService => 16
  | KWsReference => 17
  | KEventSubscription => 18
  | KScheduledJob => 19
  | KSchedule => 20
  | KDefinition => 21
  | KSettingsStorage => 22
  | KFunctionalOption => 23
  | KFunctionalOptionsParameter => 24
  | KDefinedType => 25
  | KCommonCommand => 26
  | KCommandGroup => 27
  | KConstant => 28
  | KCommonForm => 29
  | KCatalog => 30
  | KDocument => 31
  | KDocumentNumerator => 32
  | KSequence => 33
  | KDocumentJournal => 34
  | KEnum => 35
  | KReport => 36
  | KDataProcessor => 37
  | KInformationRegister => 38
  | KAccumulationRegister => 39
  | KChartOfCharacteristicTypes => 40
  | KChartOfAccounts => 41
  | KAccountingRegister => 42
  | KChartOfCalculationTypes => 43
  | KCalculationRegister => 44
  | KBusinessProcess => 45
  | KTask => 46
  | KIntegrationService => 47
  | KForm => 48
  | KMetadata => 49
  | KTemplate => 50
  | KCommand => 51
  | KExternalDataProcessor => 52
  | KExternalReport => 53
  | KWebSocketClient => 54
  | KAttribute => 55
  | KAddressingAttribute => 56
  | KStandardAttribute => 57
  | KTabularSection => 58
  | KDimension => 59
  | KResource => 60
  | KEnumValue => 61
  | KColumn => 62
  | KRecalculation => 63
  | KItem => 64
  | KParameter => 65
  | KRight => 66
  | KRls => 67
  | KDataSet => 68
  | KField => 69
  | KQuery => 70
  | KDataSource => 71
  | KCalculatedField => 72
  | KTotal => 73
  | KSetting => 74
  | KArea => 75
  | KGroup => 76
  | KModule => 77
  | KMethod => 78
  | KBody => 79
  | KRegion => 80
  | KInterface => 81
  | KEvent => 82
  | KCompilation => 83
  | KUrlTemplate => 84
  | KOperation => 85
  | KChannel => 86
  | KNamespace => 87
  | KType => 88
  | KProperty => 89
  | KRelation => 90
  | KCharacteristic => 91
  | KStandardTabularSection => 92
  | KCaller => 93
  | KCallee => 94
  | KPredefinedItem => 95
  | KCan => 96
  | KProps => 97
  end.

Lemma all_kinds_index k : all_kinds !! kind_index k = Some k.
Proof. by destruct k. Qed.

#[export] Instance NodeKind_eq_dec : EqDecision NodeKind.
Proof.
  refine (λ a b, cast_if (decide (kind_index a = kind_index b))).
  - pose proof (all_kinds_index a). pose proof (all_kinds_index b). congruence.
  - congruence.
Defined.

Lemma all_kinds_complete k : k ∈ all_kinds.
Proof. eapply list_elem_of_lookup_2, all_kinds_index. Qed.

(** ** Spellings *)

Definition text_is (a b : text) : bool := bool_decide (a = b).
Definition text_in (a : text) (l : list text) : bool := existsb (text_is a) l.

(** [metadata_address_kind_matches]. *)
Definition metadata_address_kind_matches (canonical raw : text) : bool :=
  is_some_and (λ k, text_is (ak_canonical k) raw || text_in raw (ak_russian_aliases k))
    (List.find (λ k, text_is (ak_canonical k) canonical) ADDRESS_KINDS).

(** Codes of [AddressError]; the message is for people. *)
Inductive AddressErrorCode :=
| SourceSetRequired
| AmbiguousAddress
| AddressEmpty
| EmptySegment
| UnknownKind
| InvalidName
| ConfigurationRootOnly.
#[export] Instance AddressErrorCode_eq_dec : EqDecision AddressErrorCode.
Proof. solve_decision. Defined.

(** [NodeKind::parse]. *)
Definition node_kind_parse (token : text) : result NodeKind AddressErrorCode :=
  match List.find (λ k, metadata_address_kind_matches (as_str k) token) LEGACY_METADATA_KINDS with
  | Some k => Ok k
  | None =>
      match List.find (λ s, text_is (as_str (v_kind s)) token || text_in token (v_aliases s))
              V13_KIND_SPELLINGS with
      | Some s => Ok (v_kind s)
      | None => Err UnknownKind
      end
  end.

(** [NodeKind::takes_name] and [NodeKind::is_metadata_kind]. *)
Definition takes_name (k : NodeKind) : bool :=
  match k with
  | KConfiguration | KInterface | KMetadata | KSchedule | KDefinition => false
  | _ => true
  end.
Definition is_metadata_kind (k : NodeKind) : bool :=
  bool_decide (k = KWebSocketClient) || bool_decide (k ∈ LEGACY_METADATA_KINDS).

(** ** Facts about the tables *)

(** A test of every kind is a test of all of them. *)
Lemma forall_kinds (f : NodeKind → bool) : forallb f all_kinds = true → ∀ k, f k = true.
Proof.
  rewrite forallb_forall. intros H k. apply H, list_elem_of_In, all_kinds_complete.
Qed.

Lemma as_str_parse k : node_kind_parse (as_str k) = Ok k.
Proof.
  assert (H : bool_decide (node_kind_parse (as_str k) = Ok k) = true).
  { revert k. apply (forall_kinds (λ k, bool_decide (node_kind_parse (as_str k) = Ok k))).
    vm_compute. reflexivity. }
  by bool_prop.
Qed.

(** Every spelling the tables hold, with its kind. *)
Definition spellings (k : NodeKind) : list text :=
  as_str k
  :: concat (ak_russian_aliases <$> filter (λ a, ak_canonical a = as_str k)
       (if bool_decide (k ∈ LEGACY_METADATA_KINDS) then ADDRESS_KINDS else []))
  ++ concat (v_aliases <$> filter (λ s, v_kind s = k) V13_KIND_SPELLINGS).

Definition spellings_recognised (k : NodeKind) : bool :=
  forallb (λ s, bool_decide (node_kind_parse s = Ok k)) (spellings k).

Lemma spelling_parse k s : s ∈ spellings k → node_kind_parse s = Ok k.
Proof.
  intros Hs. assert (H : spellings_recognised k = true).
  { revert k Hs. intros k _. revert k. apply forall_kinds. vm_compute. reflexivity. }
  unfold spellings_recognised in H. rewrite forallb_forall in H.
  apply list_elem_of_In, H in Hs. by bool_prop.
Qed.

(** The canonical spelling of a kind is made of Latin letters. *)
Definition is_letter (c : Z) : bool := in_range 65 90 c || in_range 97 122 c.
Lemma as_str_letters k : as_str k ≠ [] ∧ forallb is_letter (as_str k) = true.
Proof.
  assert (H : (negb (text_is (as_str k) []) && forallb is_letter (as_str k)) = true).
  { apply (forall_kinds (λ k, negb (text_is (as_str k) []) && forallb is_letter (as_str k))).
    vm_compute. reflexivity. }
  unfold text_is in H. bool_prop. done.
Qed.
