(* ===== verification/ModuleRoutes.v ===== *)
(** * Logical addresses: data and module routes

    The data of [QualifiedAddress] ([crates/unica-address/src/address.rs]) and
    the structural module routes of [crates/unica-address/src/module_routes.rs]:
    which addresses name a BSL module, or a projection of one. *)

From Stdlib Require Import ZArith Lia String.
From stdpp Require Import base list option numbers.
From S2P Require Import Prelude Redaction AddressKinds.

Local Open Scope Z_scope.

(** ** Addresses *)

Record AddressSegment := mkSegment { s_kind : NodeKind; s_name : option text }.
#[export] Instance AddressSegment_eq_dec : EqDecision AddressSegment.
Proof. solve_decision. Defined.

(** Inclusive file lines; a single-line selector keeps its spelling. *)
Record BodyLineRange := mkBodyLineRange { lr_from : Z; lr_to : Z; lr_single : bool }.
#[export] Instance BodyLineRange_eq_dec : EqDecision BodyLineRange.
Proof. solve_decision. Defined.

Record QualifiedAddress := mkQualifiedAddress {
  source_set : text;
  segments : list AddressSegment;
  line_range : option BodyLineRange;
}.
#[export] Instance QualifiedAddress_eq_dec : EqDecision QualifiedAddress.
Proof. solve_decision. Defined.

Definition kind_is (k : NodeKind) (s : AddressSegment) : bool := bool_decide (s_kind s = k).
Definition named (s : AddressSegment) : bool := is_some (s_name s).

(** ** Roles and routes *)

Inductive ModuleRole :=
| RObject | RManager | RRecordSet | RValueManager | RCommon | RForm | RCommand
| RManagedApplication | ROrdinaryApplication | RSession | RExternalConnection | RHttpService
| RWebService | RIntegrationService | RBot | RWebSocketClient.
#[export] Instance ModuleRole_eq_dec : EqDecision ModuleRole.
Proof. solve_decision. Defined.

(** [ModuleRole::ALL]. *)
Definition all_roles : list ModuleRole :=
  [RObject; RManager; RRecordSet; RValueManager; RCommon; RForm; RCommand; RManagedApplication;
   ROrdinaryApplication; RSession; RExternalConnection; RHttpService; RWebService;
   RIntegrationService; RBot; RWebSocketClient].

(** [ModuleRole::as_str]. *)
Definition role_as_str (r : ModuleRole) : text :=
  match r with
  | RObject => str "Object"
  | RManager => str "Manager"
  | RRecordSet => str "RecordSet"
  | RValueManager => str "ValueManager"
  | RCommon => str "Common"
  | RForm => str "Form"
  | RCommand => str "Command"
  | RManagedApplication => str "ManagedApplication"
  | ROrdinaryApplication => str "OrdinaryApplication"
  | RSession => str "Session"
  | RExternalConnection => str "ExternalConnection"
  | RHttpService => str "HTTPService"
  | RWebService => str "WebService"
  | RIntegrationService => str "IntegrationService"
  | RBot => str "Bot"
  | RWebSocketClient => str "WebSocketClient"
  end.

(** A [match] of the source on string literals. *)
Fixpoint match_str {A} (arms : list (text * A)) (value : text) : option A :=
  match arms with
  | [] => None
  | (pattern, a) :: arms => if text_is value pattern then Some a else match_str arms value
  end.

(** [ModuleRole::from_v12_terminal]. *)
Definition from_v12_terminal : text → option ModuleRole :=
  match_str [(str "ObjectModule", RObject); (str "ManagerModule", RManager);
             (str "RecordSetModule", RRecordSet); (str "ValueManagerModule", RValueManager)].

(** [ModuleRole::from_semantic_name]. *)
Definition from_semantic_name : text → option ModuleRole :=
  match_str
    [(str "Object", RObject); (str "Manager", RManager); (str "RecordSet", RRecordSet);
     (str "ValueManager", RValueManager); (str "Form", RForm); (str "Command", RCommand);
     (str "ManagedApplication", RManagedApplication);
     (str "OrdinaryApplication", ROrdinaryApplication); (str "Session", RSession);
     (str "ExternalConnection", RExternalConnection); (str "HTTPService", RHttpService);
     (str "WebService", RWebService); (str "IntegrationService", RIntegrationService);
     (str "Bot", RBot); (str "WebSocketClient", RWebSocketClient)].

Inductive ModuleRouteKind :=
| RtRoot | RtDirect | RtCommon | RtCommonForm | RtCommonCommand | RtNestedForm
| RtNestedCommand | RtService | RtBot | RtWebSocketClient.

Record ModuleRoute := mkRoute {
  mr_owner_kind : NodeKind;
  mr_role : ModuleRole;
  mr_route_kind : ModuleRouteKind;
}.

Definition has_direct_module_route (owner : NodeKind) (role : ModuleRole) : bool :=
  match role with
  | RObject =>
      match owner with
      | KCatalog | KDocument | KExchangePlan | KChartOfAccounts | KChartOfCharacteristicTypes
      | KChartOfCalculationTypes | KBusinessProcess | KTask | KReport | KDataProcessor
      | KExternalDataProcessor | KExternalReport => true
      | _ => false
      end
  | RManager =>
      match owner with
      | KCatalog | KDocument | KInformationRegister | KAccumulationRegister | KAccountingRegister
      | KCalculationRegister | KChartOfAccounts | KChartOfCharacteristicTypes
      | KChartOfCalculationTypes | KBusinessProcess | KTask | KExchangePlan | KEnum | KReport
      | KDataProcessor | KConstant | KDocumentJournal | KFilterCriterion | KSettingsStorage => true
      | _ => false
      end
  | RRecordSet =>
      match owner with
      | KInformationRegister | KAccumulationRegister | KAccountingRegister
      | KCalculationRegister => true
      | _ => false
      end
  | RValueManager => match owner with KConstant => true | _ => false end
  | _ => false
  end.

Definition has_nested_module_route (owner : NodeKind) : bool :=
  match owner with
  | KDocument | KCatalog | KDataProcessor | KReport | KInformationRegister | KAccumulationRegister
  | KAccountingRegister | KCalculationRegister | KChartOfAccounts | KChartOfCharacteristicTypes
  | KChartOfCalculationTypes | KExchangePlan | KBusinessProcess | KTask | KDocumentJournal | KEnum
  | KConstant | KSequence | KDocumentNumerator | KExternalDataProcessor | KExternalReport => true
  | _ => false
  end.

(** [Compilation] or [Body] without a name. *)
Definition projection (s : AddressSegment) : bool :=
  (kind_is KCompilation s || kind_is KBody s) && negb (named s).

(** The last arm of [module_projection_suffix_is_valid]: nested regions, of
    which only the last may lack a name. *)
Fixpoint regions_valid (l : list AddressSegment) : bool :=
  match l with
  | [] => true
  | s :: l => kind_is KRegion s && (named s || bool_decide (l = [])) && regions_valid l
  end.

(** [module_projection_suffix_is_valid]. *)
Definition module_projection_suffix_is_valid (suffix : list AddressSegment) : bool :=
  match suffix with
  | [] => true
  | [branch] =>
      projection branch
      || (kind_is KMethod branch || kind_is KInterface branch || kind_is KEvent branch)
      || regions_valid suffix
  | [method; proj] =>
      (kind_is KMethod method && named method && projection proj) || regions_valid suffix
  | _ => regions_valid suffix
  end.

(** [direct_or_named_module]. *)
Definition direct_or_named_module (owner : NodeKind) (raw_role : text) : option ModuleRoute :=
  match from_semantic_name raw_role with
  | None => None
  | Some role =>
      if has_direct_module_route owner role then Some (mkRoute owner role RtDirect)
      else match owner, role with
           | KCommonForm, RForm => Some (mkRoute owner role RtCommonForm)
           | KCommonCommand, RCommand => Some (mkRoute owner role RtCommonCommand)
           | KHttpService, RHttpService | KWebService, RWebService
           | KIntegrationService, RIntegrationService => Some (mkRoute owner role RtService)
           | KBot, RBot => Some (mkRoute owner role RtBot)
           | KWebSocketClient, RWebSocketClient => Some (mkRoute owner role RtWebSocketClient)
           | _, _ => None
           end
  end.

(** [nested_module]. *)
Definition nested_module (owner child : NodeKind) (raw_role : text) : option ModuleRoute :=
  if negb (has_nested_module_route owner) then None
  else match from_semantic_name raw_role with
  | None => None
  | Some role =>
      match child, role with
      | KForm, RForm => Some (mkRoute owner RForm RtNestedForm)
      | KCommand, RCommand => Some (mkRoute owner RCommand RtNestedCommand)
      | _, _ => None
      end
  end.

(** [module_route_for_segments]. *)
Definition module_route_for_segments (l : list AddressSegment) : option ModuleRoute :=
  match l with
  | [owner] =>
      if named owner && kind_is KCommonModule owner
      then Some (mkRoute KCommonModule RCommon RtCommon)
      else if kind_is KModule owner then
        match s_name owner ≫= from_semantic_name with
        | Some role =>
            match role with
            | RManagedApplication | ROrdinaryApplication | RSession | RExternalConnection =>
                Some (mkRoute KConfiguration role RtRoot)
            | _ => None
            end
        | None => None
        end
      else None
  | [owner; module] =>
      if named owner && kind_is KModule module && named module
      then s_name module ≫= direct_or_named_module (s_kind owner)
      else None
  | [owner; child; module] =>
      if named owner && named child && kind_is KModule module && named module
      then s_name module ≫= nested_module (s_kind owner) (s_kind child)
      else None
  | _ => None
  end.

Definition module_route (a : QualifiedAddress) : option ModuleRoute :=
  module_route_for_segments (segments a).

(** The search of [module_prefix_route] over [(1..=n).rev()]. *)
Fixpoint prefix_route_from (l : list AddressSegment) (n : nat) : option ModuleRoute :=
  match n with
  | O => None
  | S m =>
      match module_route_for_segments (take n l) with
      | Some r => if module_projection_suffix_is_valid (drop n l) then Some r
                  else prefix_route_from l m
      | None => prefix_route_from l m
      end
  end.
Definition module_prefix_route (a : QualifiedAddress) : option ModuleRoute :=
  prefix_route_from (segments a) (length (segments a)).

(** ** Facts *)

(** A role is recognised by its own name, the common module apart, which has
    no semantic name. *)
Lemma role_name_roundtrip r :
  from_semantic_name (role_as_str r) = if bool_decide (r = RCommon) then None else Some r.
Proof. by destruct r. Qed.

(** The kinds that occur in the address of a module or of its projections. *)
Definition route_kind (k : NodeKind) : bool :=
  match k with
  | KModule | KForm | KCommand | KCommonModule | KCommonForm | KCommonCommand | KHttpService
  | KWebService | KIntegrationService | KBot | KWebSocketClient | KCompilation | KBody | KMethod
  | KInterface | KEvent | KRegion => true
  | k => has_nested_module_route k || has_direct_module_route k RObject
         || has_direct_module_route k RManager || has_direct_module_route k RRecordSet
         || has_direct_module_route k RValueManager
  end.

Lemma regions_route_kinds l : regions_valid l = true → Forall (λ s, route_kind (s_kind s) = true) l.
Proof.
  induction l as [|s l IH]; simpl; [constructor|]. intros H. bool_prop. unfold kind_is in *.
  bool_prop. constructor; [by rewrite H|auto].
Qed.

Lemma projection_route_kind s : projection s = true → route_kind (s_kind s) = true.
Proof.
  unfold projection, kind_is. intros H. bool_prop.
  apply orb_true_iff in H as [H|H]; bool_prop; by rewrite H.
Qed.

Lemma suffix_route_kinds l :
  module_projection_suffix_is_valid l = true → Forall (λ s, route_kind (s_kind s) = true) l.
Proof.
  destruct l as [|a [|b [|c l]]]; cbn [module_projection_suffix_is_valid].
  - constructor.
  - intros [[H|H]%orb_true_iff|H]%orb_true_iff; [| |by apply regions_route_kinds].
    + constructor; [by apply projection_route_kind|constructor].
    + constructor; [|constructor]. unfold kind_is in H.
      apply orb_true_iff in H as [[H|H]%orb_true_iff|H]; bool_prop; by rewrite H.
  - intros [H|H]%orb_true_iff; [|by apply regions_route_kinds]. bool_prop.
    unfold kind_is in *. bool_prop.
    repeat constructor; [by rewrite H|by apply projection_route_kind].
  - apply regions_route_kinds.
Qed.

Lemma direct_route_kind owner raw r :
  direct_or_named_module owner raw = Some r → route_kind owner = true.
Proof.
  unfold direct_or_named_module. destruct (from_semantic_name raw) as [role|]; [|done].
  destruct (has_direct_module_route owner role) eqn:E.
  - intros _. by destruct role; destruct owner.
  - clear E. by destruct owner; destruct role.
Qed.

Lemma nested_route_kind owner child raw r :
  nested_module owner child raw = Some r → route_kind owner = true ∧ route_kind child = true.
Proof.
  unfold nested_module. destruct (has_nested_module_route owner) eqn:E; [|done]. cbn [negb].
  destruct (from_semantic_name raw) as [role|]; [|done]. intros H. split.
  - clear H. by destruct owner.
  - by destruct child, role.
Qed.

Lemma module_route_kinds l r :
  module_route_for_segments l = Some r → Forall (λ s, route_kind (s_kind s) = true) l.
Proof.
  unfold kind_is. destruct l as [|a [|b [|c [|d l]]]]; cbn [module_route_for_segments]; [done|..|done].
  - destruct (named a && kind_is KCommonModule a) eqn:E.
    + intros _. unfold kind_is in E. bool_prop. repeat constructor. by rewrite H0.
    + destruct (kind_is KModule a) eqn:E2; [|done]. intros _. unfold kind_is in E2. bool_prop.
      repeat constructor. by rewrite E2.
  - destruct (_ && _) eqn:E; [|done]. unfold kind_is in E. bool_prop.
    destruct (s_name b) as [raw|]; [|done]. intros Hr%direct_route_kind.
    repeat constructor; [done|]. by rewrite H1.
  - destruct (_ && _) eqn:E; [|done]. unfold kind_is in E. bool_prop.
    destruct (s_name c) as [raw|]; [|done]. intros [Hr1 Hr2]%nested_route_kind.
    repeat constructor; [done|done|]. by rewrite H1.
Qed.

Lemma prefix_route_kinds l n r :
  prefix_route_from l n = Some r → Forall (λ s, route_kind (s_kind s) = true) l.
Proof.
  induction n as [|n IH]; cbn [prefix_route_from]; [done|].
  destruct (module_route_for_segments (take (S n) l)) as [r'|] eqn:Er; [|apply IH].
  destruct (module_projection_suffix_is_valid (drop (S n) l)) eqn:Es; [|apply IH].
  intros _. rewrite <- (take_drop (S n) l). apply Forall_app. split.
  - by eapply module_route_kinds.
  - by apply suffix_route_kinds.
Qed.
