(* ===== verification/Address.v ===== *)
(** * Parsing and printing logical addresses

    [QualifiedAddress] of [crates/unica-address/src/address.rs].  A string is
    the list of its characters, an error its code (the message is for
    people).  [parse] calls itself on the part before a [#]; the model bounds
    that recursion by the length of the input, and [parse_equation] is the
    equation of the source. *)

From Stdlib Require Import ZArith Lia String.
From stdpp Require Import base list option numbers.
From S2P Require Import Prelude Redaction AddressKinds ModuleRoutes.

Local Open Scope Z_scope.

(** ** Strings *)

(** [str::split_once] at a character. *)
Fixpoint split_once (c : Z) (t : text) : option (text * text) :=
  match t with
  | [] => None
  | x :: t => if x =? c then Some ([], t) else (λ p, (x :: p.1, p.2)) <$> split_once c t
  end.

(** [str::split_once] at a string. *)
Fixpoint split_once_str (p t : text) : option (text * text) :=
  match strip_prefix t p with
  | Some rest => Some ([], rest)
  | None => match t with
            | [] => None
            | x :: t => (λ q, (x :: q.1, q.2)) <$> split_once_str p t
            end
  end.

(** [str::split] at a dot. *)
Fixpoint pieces (t : text) : list text :=
  match t with
  | [] => [[]]
  | c :: t =>
      if c =? 46 then [] :: pieces t
      else match pieces t with p :: ps => (c :: p) :: ps | [] => [[c]] end
  end.

(** [[&str]::join]. *)
Fixpoint join (sep : text) (l : list text) : text :=
  match l with
  | [] => []
  | [x] => x
  | x :: l => x ++ sep ++ join sep l
  end.

Definition has_char (c : Z) (t : text) : bool := existsb (Z.eqb c) t.

(** [str::replace] of a dot by an escaped dot. *)
Definition replace_dot (t : text) : text := t ≫= λ c, if c =? 46 then [92; 46] else [c].

(** ** Decimal numbers *)

Fixpoint decimal_from (fuel : nat) (n : Z) : text :=
  match fuel with
  | O => []
  | S fuel => if n <? 10 then [48 + n] else decimal_from fuel (n / 10) ++ [48 + n mod 10]
  end.
(** [usize::to_string]; twenty digits are enough for 64 bits. *)
Definition decimal (n : Z) : text := decimal_from 20 n.

Definition is_ascii_digit (c : Z) : bool := in_range 48 57 c.
Definition digits_value (t : text) : Z := foldl (λ n c, n * 10 + (c - 48)) 0 t.
(** [str::parse::<usize>] on a non-empty string of digits. *)
Definition parse_usize (t : text) : option Z :=
  let n := digits_value t in if n <=? u64_max then Some n else None.

(** ** Line selectors *)

(** The closure [number] of [BodyLineRange::parse]. *)
Definition line_number (t : text) : result Z AddressErrorCode :=
  if text_is t [] || negb (forallb is_ascii_digit t) then Err InvalidName
  else match parse_usize t with
       | Some n => if 0 <? n then Ok n else Err InvalidName
       | None => Err InvalidName
       end.

(** [BodyLineRange::parse]. *)
Definition line_range_parse (raw : text) : result BodyLineRange AddressErrorCode :=
  let? bounds :=
    match strip_prefix raw (str "L") ≫= split_once_str (str "-L") with
    | Some (from, to) => Ok (from, to, false)
    | None =>
        let? from := ok_or (strip_prefix raw (str "L")) InvalidName in
        Ok (from, from, true)
    end in
  let '(from, to, single) := bounds in
  let? from := line_number from in
  let? to := line_number to in
  if to <? from then Err InvalidName else Ok (mkBodyLineRange from to single).

(** [Display for BodyLineRange]. *)
Definition line_range_display (r : BodyLineRange) : text :=
  if lr_single r then str "#L" ++ decimal (lr_from r)
  else str "#L" ++ decimal (lr_from r) ++ str "-L" ++ decimal (lr_to r).

(** ** Names *)

(** [Iterator::rposition]. *)
Fixpoint rposition {A} (p : A → bool) (l : list A) : option nat :=
  match l with
  | [] => None
  | x :: l => match rposition p l with
              | Some i => Some (S i)
              | None => if p x then Some 0%nat else None
              end
  end.

(** [slice::last]. *)
Fixpoint last_opt {A} (l : list A) : option A :=
  match l with [] => None | [x] => Some x | _ :: l => last_opt l end.

(** [structure_item_route]. *)
Definition structure_item_route (owners : list AddressSegment) : bool :=
  is_some_and (λ position,
    is_some_and named (owners !! position)
    && forallb (λ o, kind_is KItem o && named o) (drop (S position) owners))
    (rposition (kind_is KSetting) owners).

(** [NodeKind::name_may_contain_dot]. *)
Definition name_may_contain_dot (k : NodeKind) (owners : list AddressSegment) : bool :=
  let first := s_kind <$> list.head owners in
  let previous := s_kind <$> last_opt owners in
  let inside_template :=
    bool_decide (first = Some KCommonTemplate)
    || existsb (λ o, kind_is KTemplate o && named o) owners in
  match k with
  | KField | KParameter | KArea => inside_template
  | KCalculatedField | KTotal => inside_template
  | KItem => inside_template && structure_item_route owners
  | KGroup => bool_decide (previous = Some KInterface)
  | KType | KProperty => bool_decide (first = Some KXdtoPackage)
  | KRight => bool_decide (first = Some KRole) && bool_decide (length owners = 1%nat)
  | _ => false
  end.

(** [NodeKind::name_is_free_text]. *)
Definition name_is_free_text (k : NodeKind) (owners : list AddressSegment) : bool :=
  bool_decide (k = KItem) && name_may_contain_dot k owners.

(** ** Segments *)

(** The loop of [split_segments]: the raw part read so far, its unescaped
    form, and the rest of the path. *)
Fixpoint split_from (raw current : text) (t : text)
  : result (list (text * text)) AddressErrorCode :=
  match t with
  | [] => Ok [(raw, current)]
  | c :: t =>
      if c =? 92 then
        match t with
        | d :: t => if d =? 46 then split_from (raw ++ [92; 46]) (current ++ [46]) t
                    else Err InvalidName
        | [] => Err InvalidName
        end
      else if c =? 46 then
        let? rest := split_from [] [] t in Ok ((raw, current) :: rest)
      else split_from (raw ++ [c]) (current ++ [c]) t
  end.
(** [split_segments]: each part, raw and unescaped. *)
Definition split_segments (path : text) : result (list (text * text)) AddressErrorCode :=
  split_from [] [] path.

(** [escape_name]. *)
Definition escape_name (name : text) : text := if has_char 46 name then replace_dot name else name.

(** The checks on an application name. *)
Definition name_refused (k : NodeKind) (owners : list AddressSegment) (name : text) : bool :=
  (has_char 46 name && negb (name_may_contain_dot k owners))
  || (negb (xml_ncname_is_valid name) && negb (name_is_free_text k owners)).

(** [asks_dictionary]: the next part is [Can] and the one after is no kind. *)
Definition asks_dictionary (rest : list (text * text)) : bool :=
  match rest with
  | (_, can) :: (_, next) :: _ => text_is can (as_str KCan) && is_err (node_kind_parse next)
  | _ => false
  end.

(** The loop of [QualifiedAddress::parse] over the parts. *)
Fixpoint parse_parts (parts : list (text * text)) (segs : list AddressSegment)
  : result (list AddressSegment) AddressErrorCode :=
  match parts with
  | [] => Ok segs
  | (_, token) :: rest =>
      let? kind := node_kind_parse token in
      if bool_decide (kind = KCan) then
        let operation := join [46] (fst <$> rest) in
        if negb (text_is operation []) && negb (xml_ncname_is_valid operation)
        then Err InvalidName
        else Ok (segs ++ [mkSegment kind (if text_is operation [] then None else Some operation)])
      else if bool_decide (kind = KProps) then
        match rest with
        | [(_, property)] => Ok (segs ++ [mkSegment kind (Some property)])
        | _ => Err InvalidName
        end
      else if takes_name kind && negb (asks_dictionary rest) then
        match rest with
        | [] => Ok (segs ++ [mkSegment kind None])
        | (_, name) :: rest =>
            if name_refused kind segs name then Err InvalidName
            else parse_parts rest (segs ++ [mkSegment kind (Some name)])
        end
      else
        match rest with
        | (_, written) :: _ =>
            if is_err (node_kind_parse written) then Err ConfigurationRootOnly
            else parse_parts rest (segs ++ [mkSegment kind None])
        | [] => Ok (segs ++ [mkSegment kind None])
        end
  end.

(** ** Addresses *)

(** [QualifiedAddress::prefix]. *)
Definition prefix (a : QualifiedAddress) (len : nat) : QualifiedAddress :=
  mkQualifiedAddress (source_set a) (take len (segments a)) None.
Definition without_line_range (a : QualifiedAddress) : QualifiedAddress :=
  prefix a (length (segments a)).

(** [form_metadata_owner]. *)
Definition form_metadata_owner (a : QualifiedAddress) : option QualifiedAddress :=
  let valid :=
    match segments a with
    | [form; metadata] =>
        kind_is KCommonForm form && named form && kind_is KMetadata metadata
        && negb (named metadata)
    | [owner; form; metadata] =>
        is_metadata_kind (s_kind owner) && named owner && kind_is KForm form && named form
        && kind_is KMetadata metadata && negb (named metadata)
    | _ => false
    end in
  if valid then Some (prefix a (length (segments a) - 1)) else None.

(** [slice::split_last]. *)
Definition split_last {A} (l : list A) : option (A * list A) :=
  match last_opt l with Some x => Some (x, take (length l - 1) l) | None => None end.

(** [operation_query] and [property_query]. *)
Definition operation_query (a : QualifiedAddress) : option (QualifiedAddress * option text) :=
  match split_last (segments a) with
  | Some (l, owner) =>
      if kind_is KCan l then Some (mkQualifiedAddress (source_set a) owner None, s_name l) else None
  | None => None
  end.
Definition property_query (a : QualifiedAddress) : option (QualifiedAddress * text) :=
  match split_last (segments a) with
  | Some (l, owner) =>
      if negb (kind_is KProps l) || bool_decide (owner = []) then None
      else (λ n, (mkQualifiedAddress (source_set a) owner None, n)) <$> s_name l
  | None => None
  end.

(** [main:Can.<op>] asks the root. *)
Definition insert_root (segs : list AddressSegment) : list AddressSegment :=
  match segs with
  | [can] => if kind_is KCan can then [mkSegment KConfiguration None; can] else segs
  | _ => segs
  end.

Definition sole_configuration_root (segs : list AddressSegment) : bool :=
  match segs with
  | [root] => kind_is KConfiguration root && negb (named root)
  | [root; can] => kind_is KConfiguration root && negb (named root) && kind_is KCan can
  | _ => false
  end.

(** The checks after the loop. *)
Definition finish_address (set_name : text) (segs : list AddressSegment)
  : result QualifiedAddress AddressErrorCode :=
  let segs := insert_root segs in
  if negb (sole_configuration_root segs) && existsb (kind_is KConfiguration) segs
  then Err ConfigurationRootOnly
  else
    let address := mkQualifiedAddress set_name segs None in
    let metadata_subject :=
      match operation_query address with Some (owner, _) => owner | None => address end in
    if existsb (kind_is KMetadata) (segments metadata_subject)
       && is_none (form_metadata_owner metadata_subject)
    then Err InvalidName
    else Ok address.

(** [QualifiedAddress::parse] after the line selector. *)
Definition parse_plain (raw : text) : result QualifiedAddress AddressErrorCode :=
  match split_once 58 raw with
  | None => Err SourceSetRequired
  | Some (set_name, logical_path) =>
      if text_is set_name [] || negb (xml_ncname_is_valid set_name) then Err SourceSetRequired
      else if text_is logical_path [] then Err AddressEmpty
      else
        let? parts := split_segments logical_path in
        if existsb (λ p, text_is p.2 []) parts then Err EmptySegment
        else
          let? segs := parse_parts parts [] in
          finish_address set_name segs
  end.

(** The last segment is a nameless [Body]. *)
Definition ends_in_body (a : QualifiedAddress) : bool :=
  is_some_and (λ s, kind_is KBody s && negb (named s)) (last_opt (segments a)).

(** What [parse] does with the address before a [#]. *)
Definition select_lines (raw selector : text) (owner : result QualifiedAddress AddressErrorCode)
  : result QualifiedAddress AddressErrorCode :=
  match owner with
  | Ok body =>
      if ends_in_body body then
        if is_some (line_range body) then Err InvalidName
        else if is_none (module_prefix_route body) then Err InvalidName
        else
          let? range := line_range_parse selector in
          Ok (mkQualifiedAddress (source_set body) (segments body) (Some range))
      else parse_plain raw
  | Err _ => parse_plain raw
  end.

Fixpoint parse_fuel (fuel : nat) (raw : text) : result QualifiedAddress AddressErrorCode :=
  match fuel with
  | O => parse_plain raw
  | S fuel =>
      match split_once 35 raw with
      | Some (owner, selector) => select_lines raw selector (parse_fuel fuel owner)
      | None => parse_plain raw
      end
  end.

(** [QualifiedAddress::parse]. *)
Definition parse (raw : text) : result QualifiedAddress AddressErrorCode :=
  parse_fuel (length raw) raw.

(** [QualifiedAddress::resolve_input]. *)
Definition resolve_input (raw : text) (available : list text)
  : result QualifiedAddress AddressErrorCode :=
  let qualified :=
    is_some_and (λ p, negb (has_char 46 p.1) || text_in p.1 available) (split_once 58 raw) in
  if qualified then parse raw
  else match available with
  | [set_name] => parse (set_name ++ [58] ++ raw)
  | [] => Err SourceSetRequired
  | _ => Err AmbiguousAddress
  end.

(** ** Printing *)

(** [render_segments]. *)
Definition render_segment (s : AddressSegment) : list text :=
  as_str (s_kind s) ::
  match s_name s with
  | Some name => [if kind_is KCan s then name else escape_name name]
  | None => []
  end.
Definition render_segments (segs : list AddressSegment) : text :=
  join [46] (segs ≫= render_segment).

(** [logical_path] and [Display]. *)
Definition logical_path (a : QualifiedAddress) : text :=
  render_segments (segments a)
  ++ match line_range a with Some r => line_range_display r | None => [] end.
Definition display (a : QualifiedAddress) : text :=
  source_set a ++ [58] ++ logical_path a.

(** [member_address] and [member]. *)
Definition member_address (branch name : text) : text := branch ++ [46] ++ escape_name name.
Definition member (a : QualifiedAddress) (name : text) : result QualifiedAddress AddressErrorCode :=
  parse (member_address (display a) name).

(** ** Examples *)

Definition check_address (raw canonical : string) : bool :=
  match parse (str raw) with Ok a => text_is (display a) (str canonical) | Err _ => false end.

Example russian_kinds : check_address "main:Справочник.Валюты.Реквизит.Код"
                                      "main:Catalog.Валюты.Attribute.Код" = true.
Proof. vm_compute. reflexivity. Qed.
Example root_dictionary : check_address "main:Can.add" "main:Configuration.Can.add" = true.
Proof. vm_compute. reflexivity. Qed.
Example escaped_dot :
  check_address "main:CommonTemplate.T.DataSet.D.Field.Контрагент\.ИНН"
                "main:CommonTemplate.T.DataSet.D.Field.Контрагент\.ИНН" = true.
Proof. vm_compute. reflexivity. Qed.
Example line_selector : check_address "main:CommonModule.М.Method.Ф.Body#L007-L12"
                                      "main:CommonModule.М.Method.Ф.Body#L7-L12" = true.
Proof. vm_compute. reflexivity. Qed.
Example branch_dictionary : check_address "main:Catalog.Валюты.Attribute.Can.query.set"
                                          "main:Catalog.Валюты.Attribute.Can.query.set" = true.
Proof. vm_compute. reflexivity. Qed.
