(* ===== verification/AddressFacts.v ===== *)
(** * Facts about logical addresses

    The grammar that [parse] accepts, as a predicate on segments ([wf_from]),
    the parts a rendered address splits into ([tokens]), and the two
    directions: a well-formed address is read back from its parts, and what
    is read is well formed. *)

From Stdlib Require Import ZArith Lia String.
From stdpp Require Import base list option numbers.
From S2P Require Import Prelude Redaction AddressKinds ModuleRoutes Address.

Local Open Scope Z_scope.

(** ** Characters *)

Lemma has_char_app c s t : has_char c (s ++ t) = has_char c s || has_char c t.
Proof. apply existsb_app. Qed.

Lemma has_char_false c t : has_char c t = false ↔ c ∉ t.
Proof.
  unfold has_char. induction t as [|x t IH]; simpl; [split; [intros _; apply not_elem_of_nil|done]|].
  rewrite orb_false_iff, IH, not_elem_of_cons, Z.eqb_neq. naive_solver.
Qed.
Lemma has_char_true c t : has_char c t = true ↔ c ∈ t.
Proof.
  destruct (has_char c t) eqn:E; [|apply has_char_false in E; naive_solver].
  split; [intros _|done]. destruct (decide (c ∈ t)) as [|H]; [done|].
  apply has_char_false in H. congruence.
Qed.

Lemma text_is_true a b : text_is a b = true ↔ a = b.
Proof. apply bool_decide_eq_true. Qed.
Lemma text_is_false a b : text_is a b = false ↔ a ≠ b.
Proof. apply bool_decide_eq_false. Qed.
Lemma text_is_nil_cons c t : text_is (c :: t) [] = false.
Proof. by apply text_is_false. Qed.

(** The characters a name of XML never holds: [#], [:] and the backslash. *)
Lemma ncname_char_not c :
  c = 35 ∨ c = 58 ∨ c = 92 → xml_ncname_is_character c = false.
Proof. intros [->|[->| ->]]; vm_compute; reflexivity. Qed.

Lemma ncname_lacks c t :
  xml_ncname_is_character c = false → xml_ncname_is_valid t = true → has_char c t = false.
Proof.
  intros Hc Ht. apply has_char_false. intros Hin.
  destruct t as [|x t]; [done|]. cbn [xml_ncname_is_valid] in Ht. bool_prop.
  apply elem_of_cons in Hin as [->|Hin].
  - unfold xml_ncname_is_character in Hc. rewrite H in Hc. done.
  - rewrite forallb_forall in H0. apply list_elem_of_In, H0 in Hin. congruence.
Qed.
Lemma ncname_no c t :
  c = 35 ∨ c = 58 ∨ c = 92 → xml_ncname_is_valid t = true → has_char c t = false.
Proof. intros Hc%ncname_char_not. by apply ncname_lacks. Qed.

Lemma ncname_nonempty t : xml_ncname_is_valid t = true → t ≠ [].
Proof. by intros Ht ->. Qed.

Lemma letters_no c t : is_letter c = false → forallb is_letter t = true → has_char c t = false.
Proof.
  intros Hc Ht. apply has_char_false. intros Hin%list_elem_of_In.
  rewrite forallb_forall in Ht. apply Ht in Hin. congruence.
Qed.

Lemma as_str_no c k : is_letter c = false → has_char c (as_str k) = false.
Proof. intros Hc. apply letters_no; [done|]. apply as_str_letters. Qed.

(** No spelling of a kind holds a character outside names. *)
Definition spelling_clean (t : text) : bool := negb (has_char 35 t).

Lemma find_Some_in {A} (f : A → bool) l x : List.find f l = Some x → In x l ∧ f x = true.
Proof. apply find_some. Qed.

Lemma kind_token_no_hash t k : node_kind_parse t = Ok k → has_char 35 t = false.
Proof.
  assert (HA : forallb (λ a, spelling_clean (ak_canonical a)
                             && forallb spelling_clean (ak_russian_aliases a)) ADDRESS_KINDS = true)
    by (vm_compute; reflexivity).
  assert (HV : forallb (λ s, spelling_clean (as_str (v_kind s))
                             && forallb spelling_clean (v_aliases s)) V13_KIND_SPELLINGS = true)
    by (vm_compute; reflexivity).
  assert (Hin : ∀ l, text_in t l = true → forallb spelling_clean l = true → has_char 35 t = false).
  { intros l [x [Hx Ht]]%existsb_exists Hl. apply text_is_true in Ht as ->.
    rewrite forallb_forall in Hl. apply Hl in Hx. unfold spelling_clean in Hx. by bool_prop. }
  rewrite forallb_forall in HA, HV. unfold node_kind_parse.
  destruct (List.find _ LEGACY_METADATA_KINDS) as [k'|] eqn:E1.
  - intros _. apply find_Some_in in E1 as [_ E1]. unfold metadata_address_kind_matches in E1.
    apply is_some_and_true in E1 as (a & Ha & E1). apply find_Some_in in Ha as [Ha _].
    apply HA in Ha. bool_prop. apply orb_true_iff in E1 as [<-%text_is_true|E1]; [|by eapply Hin].
    unfold spelling_clean in *. by bool_prop.
  - destruct (List.find _ V13_KIND_SPELLINGS) as [s|] eqn:E2; [|done]. intros _.
    apply find_Some_in in E2 as [Hs E2]. apply HV in Hs. bool_prop.
    apply orb_true_iff in E2 as [<-%text_is_true|E2]; [|by eapply Hin].
    unfold spelling_clean in *. by bool_prop.
Qed.

(** ** Splitting and joining at dots *)

Lemma join_cons (sep x : text) l : l ≠ [] → join sep (x :: l) = x ++ sep ++ join sep l.
Proof. by destruct l. Qed.

Lemma join_app (sep : text) (l1 l2 : list text) :
  l1 ≠ [] → l2 ≠ [] → join sep (l1 ++ l2) = join sep l1 ++ sep ++ join sep l2.
Proof.
  intros H1 H2. induction l1 as [|x l1 IH]; [done|].
  destruct l1 as [|y l1].
  - cbn [app]. by rewrite join_cons.
  - change ((x :: y :: l1) ++ l2) with (x :: (y :: l1) ++ l2).
    rewrite join_cons by done. rewrite IH by done. rewrite (join_cons _ x) by done.
    by rewrite <- !app_assoc.
Qed.

Lemma join_concat (sep : text) (ll : list (list text)) :
  Forall (λ l, l ≠ []) ll → join sep (concat ll) = join sep (join sep <$> ll).
Proof.
  induction 1 as [|l ll Hl Hll IH]; [done|]. destruct ll as [|l' ll].
  - cbn. by rewrite app_nil_r.
  - cbn [concat fmap list_fmap] in *. rewrite join_app, IH.
    + symmetry; by apply join_cons.
    + done.
    + inversion Hll; subst. by destruct l'.
Qed.

Lemma pieces_nonempty t : pieces t ≠ [].
Proof. destruct t as [|c t]; [done|]. simpl. destruct (c =? 46); [done|]. by destruct (pieces t). Qed.

Lemma join_pieces t : join [46] (pieces t) = t.
Proof.
  induction t as [|c t IH]; [done|]. simpl. destruct (Z.eqb_spec c 46) as [->|Hc].
  - rewrite join_cons by apply pieces_nonempty. by rewrite IH.
  - destruct (pieces t) as [|p ps] eqn:E; [by destruct (pieces_nonempty t)|].
    destruct ps; simpl in *; by rewrite <- IH.
Qed.

Lemma pieces_app_dot x t : has_char 46 x = false → pieces (x ++ 46 :: t) = x :: pieces t.
Proof.
  induction x as [|c x IH]; [done|]. unfold has_char in *. cbn [existsb app pieces].
  intros [H1 H2]%orb_false_iff. rewrite IH by done. rewrite Z.eqb_sym, H1. done.
Qed.

Lemma pieces_dotless x : has_char 46 x = false → pieces x = [x].
Proof.
  induction x as [|c x IH]; [done|]. unfold has_char in *. cbn [existsb pieces].
  intros [H1 H2]%orb_false_iff. rewrite IH by done. rewrite Z.eqb_sym, H1. done.
Qed.

Lemma pieces_join l :
  l ≠ [] → Forall (λ x, has_char 46 x = false) l → pieces (join [46] l) = l.
Proof.
  intros Hne Hl. induction Hl as [|x l Hx Hl IH]; [done|]. destruct l as [|y l].
  - by apply pieces_dotless.
  - rewrite join_cons by done. cbn [app]. rewrite pieces_app_dot by done. by rewrite IH.
Qed.

Lemma has_char_join c (sep : text) l :
  has_char c sep = false → has_char c (join sep l) = existsb (has_char c) l.
Proof.
  intros Hs. induction l as [|x l IH]; [done|]. destruct l as [|y l].
  - cbn. by rewrite orb_false_r.
  - rewrite join_cons by done. rewrite !has_char_app, Hs, IH. done.
Qed.

Lemma pieces_no c t : c ≠ 46 → existsb (has_char c) (pieces t) = has_char c t.
Proof.
  intros Hc. rewrite <- (has_char_join c [46]); [by rewrite join_pieces|].
  unfold has_char. cbn. rewrite orb_false_r. by apply Z.eqb_neq.
Qed.

(** ** Parts of a path *)

(** A part [r] that reads as [u]: the splitter passes over it. *)
Definition reads (p : text * text) : Prop :=
  ∀ raw current rest,
    split_from raw current (p.1 ++ rest) = split_from (raw ++ p.1) (current ++ p.2) rest.

Lemma reads_plain t : has_char 46 t = false → has_char 92 t = false → reads (t, t).
Proof.
  unfold reads, has_char. cbn [fst snd]. induction t as [|c t IH]; intros H1 H2 raw cur rest.
  - by rewrite !app_nil_r.
  - cbn [existsb] in *. apply orb_false_iff in H1 as [H1 H1'], H2 as [H2 H2'].
    cbn [app split_from]. rewrite Z.eqb_sym, H2, Z.eqb_sym, H1, IH by done.
    by rewrite <- !app_assoc.
Qed.

Lemma reads_escape n : has_char 92 n = false → reads (escape_name n, n).
Proof.
  intros H. unfold escape_name. destruct (has_char 46 n) eqn:E; [|by apply reads_plain].
  clear E. unfold reads, replace_dot. cbn [fst snd].
  induction n as [|c n IH]; intros raw cur rest.
  - cbn. by rewrite !app_nil_r.
  - unfold has_char in *. cbn [existsb] in *. apply orb_false_iff in H as [H H'].
    rewrite bind_cons. destruct (Z.eqb_spec c 46) as [->|Hc].
    + cbn [app split_from Z.eqb Pos.eqb]. rewrite IH by done. by rewrite <- !app_assoc.
    + cbn [app split_from]. rewrite Z.eqb_sym, H, (proj2 (Z.eqb_neq _ _)), IH by done.
      by rewrite <- !app_assoc.
Qed.

Lemma split_from_join raw cur (l : list (text * text)) r u :
  Forall reads ((r, u) :: l) →
  split_from raw cur (join [46] (fst <$> (r, u) :: l)) = Ok ((raw ++ r, cur ++ u) :: l).
Proof.
  revert raw cur r u. induction l as [|[r' u'] l IH]; intros raw cur r u Hl.
  - apply Forall_cons_1 in Hl as [Hr _]. cbn. specialize (Hr raw cur []). cbn in Hr.
    rewrite app_nil_r in Hr. by rewrite Hr.
  - apply Forall_cons_1 in Hl as [Hr Hl]. cbn [fmap list_fmap fst] in *.
    rewrite join_cons by done. rewrite (Hr raw cur). cbn [app split_from Z.eqb Pos.eqb].
    pose proof (IH [] [] r' u' Hl) as IH'. cbn [fmap list_fmap fst app] in IH'. by rewrite IH'.
Qed.

Lemma split_segments_join (l : list (text * text)) :
  l ≠ [] → Forall reads l → split_segments (join [46] (fst <$> l)) = Ok l.
Proof. destruct l as [|[r u] l]; [done|]. intros _ H. by apply (split_from_join [] []). Qed.

(** Induction that steps over one or two elements. *)
Lemma list_ind2 {A} (P : list A → Prop) :
  P [] → (∀ x, P [x]) → (∀ x y l, P l → P (y :: l) → P (x :: y :: l)) → ∀ l, P l.
Proof.
  intros H0 H1 H2 l. enough (P l ∧ ∀ x, P (x :: l)) by tauto.
  induction l as [|y l [IH1 IH2]]; auto.
Qed.

(** What the splitter yields: a part without a backslash reads as itself. *)
Definition part_ok (p : text * text) : Prop :=
  has_char 92 p.2 = false ∧ (has_char 92 p.1 = false → p.1 = p.2 ∧ has_char 46 p.1 = false).

Lemma part_ok_snoc raw cur c :
  part_ok (raw, cur) → c ≠ 46 → c ≠ 92 → part_ok (raw ++ [c], cur ++ [c]).
Proof.
  unfold part_ok. cbn [fst snd]. rewrite !has_char_app. intros [H1 H2] Hd Hb.
  assert (has_char 92 [c] = false ∧ has_char 46 [c] = false) as [Eb Ed]
    by (unfold has_char; cbn [existsb]; rewrite !orb_false_r, !Z.eqb_neq; lia).
  rewrite Eb, Ed, !orb_false_r. split; [done|]. intros [-> ->]%H2. done.
Qed.

Lemma split_from_plain raw cur c t :
  c ≠ 92 → c ≠ 46 → split_from raw cur (c :: t) = split_from (raw ++ [c]) (cur ++ [c]) t.
Proof. intros H1%Z.eqb_neq H2%Z.eqb_neq. cbn [split_from]. by rewrite H1, H2. Qed.
Lemma split_from_dot raw cur t :
  split_from raw cur (46 :: t) = let? rest := split_from [] [] t in Ok ((raw, cur) :: rest).
Proof. reflexivity. Qed.
Lemma split_from_escape raw cur d t l :
  split_from raw cur (92 :: d :: t) = Ok l →
  d = 46 ∧ split_from (raw ++ [92; 46]) (cur ++ [46]) t = Ok l.
Proof. cbn [split_from Z.eqb Pos.eqb]. by destruct (Z.eqb_spec d 46). Qed.

Lemma split_parts_ok t raw cur l :
  part_ok (raw, cur) → split_from raw cur t = Ok l → l ≠ [] ∧ Forall part_ok l.
Proof.
  revert raw cur l. induction t as [|c|c d t IH1 IH2] using list_ind2; intros raw cur l Hp.
  - intros [= <-]. split; [done|]. by apply Forall_singleton.
  - cbn [split_from]. destruct (Z.eqb_spec c 92); [done|]. destruct (Z.eqb_spec c 46).
    + intros [= <-]. split; [done|]. constructor; [done|by apply Forall_singleton].
    + intros [= <-]. split; [done|]. by apply Forall_singleton, part_ok_snoc.
  - destruct (decide (c = 92)) as [->|H92]; [|destruct (decide (c = 46)) as [->|H46]].
    + intros [_ H]%split_from_escape. eapply IH1; [|exact H]. unfold part_ok in *.
      cbn [fst snd] in *. rewrite !has_char_app. split; [by rewrite (proj1 Hp)|].
      cbn. rewrite orb_true_r. done.
    + rewrite split_from_dot. destruct (split_from [] [] (d :: t)) as [rest|] eqn:E; [|done].
      intros [= <-]. apply IH2 in E as [_ E]; [|done]. split; [done|]. by constructor.
    + rewrite split_from_plain by done. intros H. eapply IH2; [|exact H]. by apply part_ok_snoc.
Qed.

(** ** The grammar of segments *)

Definition operation_ok (op : option text) : Prop :=
  match op with
  | None => True
  | Some op => xml_ncname_is_valid op = true ∧ Forall (λ p, p ≠ []) (pieces op)
  end.

(** The name of a segment: no backslash, and not empty. *)
Definition name_ok (n : text) : Prop := n ≠ [] ∧ has_char 92 n = false.

(** The kinds that are not terminal questions. *)
Definition plain_kind (k : NodeKind) : Prop := k ≠ KCan ∧ k ≠ KProps.

(** The segments [parse] yields after the owners it has read. *)
Inductive wf_from : list AddressSegment → list AddressSegment → Prop :=
| wf_end owners : wf_from owners []
| wf_can owners op : operation_ok op → wf_from owners [mkSegment KCan op]
| wf_props owners n : name_ok n → wf_from owners [mkSegment KProps (Some n)]
| wf_named owners k n rest :
    takes_name k = true → plain_kind k → name_ok n → name_refused k owners n = false →
    wf_from (owners ++ [mkSegment k (Some n)]) rest →
    wf_from owners (mkSegment k (Some n) :: rest)
| wf_branch owners k :
    takes_name k = true → plain_kind k → wf_from owners [mkSegment k None]
| wf_nameless owners k rest :
    takes_name k = false → wf_from (owners ++ [mkSegment k None]) rest →
    wf_from owners (mkSegment k None :: rest)
| wf_asked owners k op :
    takes_name k = true → plain_kind k → operation_ok (Some op) →
    is_some_and (λ p, is_err (node_kind_parse p)) (list.head (pieces op)) = true →
    wf_from owners [mkSegment k None; mkSegment KCan (Some op)].

(** The parts of a rendered segment. *)
Definition token_parts (s : AddressSegment) : list (text * text) :=
  (as_str (s_kind s), as_str (s_kind s)) ::
  match s_name s with
  | None => []
  | Some n => if kind_is KCan s then (λ p, (p, p)) <$> pieces n else [(escape_name n, n)]
  end.
Definition tokens (segs : list AddressSegment) : list (text * text) := segs ≫= token_parts.

Lemma plain_kind_tests k :
  plain_kind k → bool_decide (k = KCan) = false ∧ bool_decide (k = KProps) = false.
Proof. intros [H1 H2]. by rewrite !bool_decide_eq_false. Qed.

Lemma nameless_plain k : takes_name k = false → plain_kind k.
Proof. by destruct k. Qed.

Lemma fst_dup (l : list text) : fst <$> ((λ p, (p, p)) <$> l) = l.
Proof. induction l; [done|]. cbn in *. by rewrite IHl. Qed.

(** After a named segment nothing looks like a question to the dictionary:
    what follows [Can] is a kind. *)
Lemma asks_dictionary_named p segs : asks_dictionary (p :: tokens segs) = false.
Proof.
  destruct p as [r u]. destruct segs as [|s segs]; [done|]. cbn.
  rewrite as_str_parse. apply andb_false_r.
Qed.

Lemma operation_read owners op :
  operation_ok op →
  parse_parts (token_parts (mkSegment KCan op)) owners = Ok (owners ++ [mkSegment KCan op]).
Proof.
  unfold token_parts. cbn [s_kind s_name]. intros Hop. cbn [parse_parts].
  rewrite as_str_parse. rewrite bool_decide_eq_true_2 by done.
  destruct op as [op|]; [|done]. destruct Hop as [Hv _].
  replace (kind_is KCan _) with true by reflexivity. rewrite fst_dup, join_pieces.
  assert (text_is op [] = false) as -> by (apply text_is_false; by apply ncname_nonempty).
  rewrite Hv. done.
Qed.

Lemma tokens_cons s segs : tokens (s :: segs) = token_parts s ++ tokens segs.
Proof. reflexivity. Qed.
Lemma token_parts_named k n :
  plain_kind k ∨ k = KProps →
  token_parts (mkSegment k (Some n)) = [(as_str k, as_str k); (escape_name n, n)].
Proof.
  intros Hk. unfold token_parts, kind_is. cbn [s_kind s_name].
  rewrite bool_decide_eq_false_2; [done|]. by destruct Hk as [[? _]| ->].
Qed.

(** The question to the dictionary of a nameless branch. *)
Lemma asks_dictionary_can op :
  is_some_and (λ p, is_err (node_kind_parse p)) (list.head (pieces op)) = true →
  asks_dictionary (token_parts (mkSegment KCan (Some op))) = true.
Proof.
  unfold token_parts. cbn [s_kind s_name]. replace (kind_is KCan _) with true by reflexivity.
  destruct (pieces op) as [|p ps]; [done|]. cbn [list.head is_some_and]. intros Hp.
  cbn [fmap list_fmap asks_dictionary]. rewrite Hp. by rewrite (proj2 (text_is_true _ _)).
Qed.

(** A kind without a name, when what follows is no name of it. *)
Lemma parse_nameless k owners segs :
  plain_kind k →
  takes_name k && negb (asks_dictionary (tokens segs)) = false →
  parse_parts (tokens (mkSegment k None :: segs)) owners
  = parse_parts (tokens segs) (owners ++ [mkSegment k None]).
Proof.
  intros [Hk1 Hk2]%plain_kind_tests Hn. rewrite tokens_cons.
  cbn [token_parts s_kind s_name app parse_parts]. rewrite as_str_parse, Hk1, Hk2, Hn.
  destruct segs as [|s segs]; [done|]. rewrite tokens_cons. unfold token_parts at 1.
  cbn [app]. by rewrite as_str_parse.
Qed.

(** A well-formed address is read back from its parts. *)
Lemma tokens_read owners segs :
  wf_from owners segs → parse_parts (tokens segs) owners = Ok (owners ++ segs).
Proof.
  induction 1 as
    [owners|owners op Hop|owners n Hn|owners k n rest Ht Hk Hn Hr Hrest IH|owners k Ht Hk
    |owners k rest Ht Hrest IH|owners k op Ht Hk Hop Hp].
  - cbn. by rewrite app_nil_r.
  - rewrite tokens_cons, app_nil_r. by apply operation_read.
  - rewrite tokens_cons, token_parts_named by auto. cbn [app parse_parts].
    by rewrite as_str_parse.
  - rewrite tokens_cons, token_parts_named by auto.
    apply plain_kind_tests in Hk as [Hk1 Hk2]. cbn [app parse_parts].
    rewrite as_str_parse, Hk1, Hk2, Ht, asks_dictionary_named, Hr. cbn [negb andb].
    by rewrite IH, <- app_assoc.
  - apply plain_kind_tests in Hk as [Hk1 Hk2].
    rewrite tokens_cons. cbn [token_parts s_kind s_name app parse_parts].
    by rewrite as_str_parse, Hk1, Hk2, Ht.
  - rewrite parse_nameless by (rewrite ?Ht; by try apply nameless_plain).
    by rewrite IH, <- app_assoc.
  - assert (Hasks := asks_dictionary_can op Hp).
    rewrite parse_nameless; [|done|].
    + rewrite tokens_cons, app_nil_r, operation_read by done. by rewrite <- app_assoc.
    + rewrite tokens_cons, app_nil_r, Hasks. apply andb_false_r.
Qed.

(** ** What is read is well formed *)

Definition parts_ok (parts : list (text * text)) : Prop :=
  Forall part_ok parts ∧ Forall (λ p, p.2 ≠ []) parts.

Lemma parts_ok_cons p l : parts_ok (p :: l) → part_ok p ∧ name_ok p.2 ∧ parts_ok l.
Proof.
  intros [H1 H2]. apply Forall_cons_1 in H1 as [H1 H1'], H2 as [H2 H2'].
  unfold name_ok, parts_ok. split_and!; try done. apply H1.
Qed.

(** The parts of an operation name are its pieces. *)
Lemma operation_pieces rest :
  rest ≠ [] → parts_ok rest → xml_ncname_is_valid (join [46] (fst <$> rest)) = true →
  pieces (join [46] (fst <$> rest)) = snd <$> rest.
Proof.
  intros Hne [Hp _] Hv.
  assert (Hb : existsb (has_char 92) (fst <$> rest) = false).
  { rewrite <- (has_char_join 92 [46]) by done. apply ncname_no; [lia|done]. }
  assert (Hall : Forall (λ p, p.1 = p.2 ∧ has_char 46 p.1 = false) rest).
  { clear Hne Hv. induction Hp as [|p l [_ Hp] Hl IH]; [constructor|].
    cbn [fmap list_fmap existsb] in Hb. apply orb_false_iff in Hb as [Hb1 Hb2].
    constructor; auto. }
  assert (Heq : fst <$> rest = snd <$> rest).
  { clear -Hall. induction Hall as [|p l [H _] Hl IH]; [done|]. cbn in *. by rewrite H, IH. }
  rewrite pieces_join.
  - done.
  - by destruct rest.
  - apply Forall_fmap. eapply Forall_impl; [|exact Hall]. by intros p [_ H].
Qed.

Lemma operation_wf rest :
  parts_ok rest →
  let op := join [46] (fst <$> rest) in
  negb (text_is op []) && negb (xml_ncname_is_valid op) = false →
  operation_ok (if text_is op [] then None else Some op).
Proof.
  intros Hp op Hop. destruct (text_is op []) eqn:E; [done|]. cbn [negb andb] in Hop. bool_prop.
  split; [done|]. unfold op in *. rewrite operation_pieces; [|by intros ->|done|done].
  apply Forall_fmap, Hp.
Qed.

Lemma operation_empty rest : parts_ok rest → join [46] (fst <$> rest) = [] → rest = [].
Proof.
  intros Hp. destruct rest as [|[r u] rest]; [done|].
  apply parts_ok_cons in Hp as ([_ Hr] & [Hu _] & _). cbn [fst snd] in *.
  destruct rest as [|p rest]; cbn [fmap list_fmap fst].
  - cbn. intros ->. by destruct Hr as [<- _].
  - rewrite join_cons by done. by intros [_ ?]%app_eq_nil.
Qed.

(** A nameless segment before a question to its dictionary. *)
Lemma asked_wf k owners rest segs :
  parts_ok rest → takes_name k = true → plain_kind k → asks_dictionary rest = true →
  parse_parts rest (owners ++ [mkSegment k None]) = Ok (owners ++ [mkSegment k None] ++ segs) →
  wf_from owners (mkSegment k None :: segs).
Proof.
  intros Hp Ht Hk Ha. destruct rest as [|[r1 u1] [|[r2 u2] rest]]; [done..|].
  cbn [asks_dictionary] in Ha. apply andb_true_iff in Ha as [->%text_is_true He].
  cbn [parse_parts]. rewrite as_str_parse. rewrite bool_decide_eq_true_2 by done.
  apply parts_ok_cons in Hp as (_ & _ & Hp).
  set (op := join [46] (fst <$> (r2, u2) :: rest)).
  destruct (_ && _) eqn:Hop; [done|]. pose proof (operation_wf _ Hp Hop) as Hok. fold op in Hok.
  rewrite app_assoc. intros [= <-%app_inv_head].
  destruct (text_is op []) eqn:E.
  - apply text_is_true, operation_empty in E; done.
  - apply wf_asked; try done. destruct Hok as [Hv _].
    unfold op. rewrite operation_pieces by done. done.
Qed.

(** What the loop yields extends the owners by a well-formed suffix. *)
Lemma parse_parts_wf n parts owners r :
  (length parts ≤ n)%nat → parts_ok parts → parse_parts parts owners = Ok r →
  ∃ segs, r = owners ++ segs ∧ wf_from owners segs ∧ (parts ≠ [] → segs ≠ []).
Proof.
  revert parts owners r. induction n as [|n IH]; intros [|[r1 u1] rest] owners r Hn Hp;
    cbn [length] in Hn; try lia;
    try (intros [= <-]; exists []; rewrite app_nil_r; split_and!; [done|constructor|done]).
  cbn [parse_parts]. destruct (node_kind_parse u1) as [k|]; [|done].
  apply parts_ok_cons in Hp as (_ & _ & Hp).
  destruct (bool_decide (k = KCan)) eqn:Hk1; [|destruct (bool_decide (k = KProps)) eqn:Hk2].
  - bool_prop. subst k. destruct (_ && _) eqn:Hop; [done|]. intros [= <-].
    eexists. split; [reflexivity|]. split; [|done]. apply wf_can. by apply (operation_wf rest).
  - bool_prop. subst k. destruct rest as [|[r2 u2] [|]]; try done. intros [= <-].
    eexists. split; [reflexivity|]. split; [|done].
    apply wf_props. by apply parts_ok_cons in Hp as (_ & ? & _).
  - bool_prop. assert (Hk : plain_kind k) by done.
    destruct (takes_name k && negb (asks_dictionary rest)) eqn:Ht.
    + bool_prop. destruct rest as [|[r2 u2] rest].
      * intros [= <-]. eexists. split; [reflexivity|]. split; [by apply wf_branch|done].
      * destruct (name_refused k owners u2) eqn:Hr; [done|]. cbn [length] in Hn.
        apply parts_ok_cons in Hp as (_ & Hu & Hp). intros Hr'.
        apply IH in Hr' as (segs & -> & Hwf & _); [|lia|done].
        exists (mkSegment k (Some u2) :: segs). split; [by rewrite <- app_assoc|].
        split; [by apply wf_named|done].
    + assert (Hrec : parse_parts rest (owners ++ [mkSegment k None]) = Ok r →
        ∃ segs, r = owners ++ segs ∧ wf_from owners segs ∧ ((r1, u1) :: rest ≠ [] → segs ≠ [])).
      { intros Hr. pose proof Hr as Hr'. apply IH in Hr as (segs & -> & Hwf & _); [|lia|done].
        exists (mkSegment k None :: segs). rewrite <- app_assoc in *. split; [done|].
        split; [|done]. destruct (takes_name k) eqn:Ek; [|by apply wf_nameless].
        cbn [andb] in Ht. bool_prop. by eapply asked_wf. }
      destruct rest as [|[r2 u2] rest]; [exact Hrec|].
      destruct (is_err (node_kind_parse u2)); [done|exact Hrec].
Qed.

(** ** Rendering *)

Lemma pieces_dotless_all t : Forall (λ p, has_char 46 p = false) (pieces t).
Proof.
  induction t as [|c t IH]; [by repeat constructor|]. cbn [pieces].
  destruct (c =? 46) eqn:E; [by constructor|].
  destruct (pieces t) as [|p ps]; apply Forall_cons_1 in IH as [IH1 IH2] || clear IH.
  - apply Forall_singleton. unfold has_char. cbn [existsb]. by rewrite Z.eqb_sym, E.
  - constructor; [|done]. unfold has_char in *. cbn [existsb]. by rewrite Z.eqb_sym, E.
Qed.

(** The groups of parts of a segment: a kind, and the pieces of its name. *)
Definition part_groups (s : AddressSegment) : list (list text) :=
  [as_str (s_kind s)] ::
  match s_name s with
  | None => []
  | Some n => [if kind_is KCan s then pieces n else [escape_name n]]
  end.

Lemma token_groups segs : fst <$> tokens segs = concat (segs ≫= part_groups).
Proof.
  induction segs as [|[k [n|]] segs IH]; [done| |].
  - rewrite tokens_cons, fmap_app, IH. cbn [mbind list_bind]. rewrite concat_app. f_equal.
    unfold token_parts, part_groups. cbn [s_name]. destruct (kind_is KCan _).
    + cbn [fmap list_fmap fst concat app]. f_equal. rewrite app_nil_r. apply fst_dup.
    + done.
  - rewrite tokens_cons, fmap_app, IH. cbn [mbind list_bind]. by rewrite concat_app.
Qed.

Lemma render_groups segs : segs ≫= render_segment = join [46] <$> (segs ≫= part_groups).
Proof.
  induction segs as [|[k [n|]] segs IH]; [done| |]; cbn [mbind list_bind] in *;
    rewrite fmap_app, IH; [|done]. f_equal. unfold render_segment, part_groups. cbn [s_name].
  destruct (kind_is KCan _); [|done]. cbn [fmap list_fmap]. by rewrite join_pieces.
Qed.

Lemma groups_nonempty segs : Forall (λ l, l ≠ []) (segs ≫= part_groups).
Proof.
  induction segs as [|[k [n|]] segs IH]; [constructor| |]; cbn [mbind list_bind] in *;
    apply Forall_app; (split; [|done]); unfold part_groups; cbn [s_name]; repeat constructor; try done.
  destruct (kind_is KCan _); [apply pieces_nonempty|done].
Qed.

Lemma render_tokens segs : render_segments segs = join [46] (fst <$> tokens segs).
Proof.
  unfold render_segments. rewrite token_groups, join_concat by apply groups_nonempty.
  by rewrite render_groups.
Qed.

(** Every part of a rendered address reads back and is not empty. *)
Definition token_ok (p : text * text) : Prop := reads p ∧ p.2 ≠ [].

Lemma kind_token_ok k : token_ok (as_str k, as_str k).
Proof. split; [by apply reads_plain; apply as_str_no|apply as_str_letters]. Qed.

Lemma name_token_ok n : name_ok n → token_ok (escape_name n, n).
Proof. intros [H1 H2]. split; [by apply reads_escape|done]. Qed.

Lemma can_tokens_ok op : operation_ok op → Forall token_ok (token_parts (mkSegment KCan op)).
Proof.
  intros Hop. constructor; [apply kind_token_ok|]. cbn [s_name]. destruct op as [op|]; [|constructor].
  replace (kind_is KCan _) with true by reflexivity. destruct Hop as [Hv Hne].
  pose proof (pieces_dotless_all op) as Hd.
  pose proof (pieces_no 92 op ltac:(lia)) as Hb. rewrite (ncname_no 92 op) in Hb by (lia || done).
  induction Hne as [|p l Hp Hl IH]; [constructor|]. apply Forall_cons_1 in Hd as [Hd1 Hd2].
  cbn [existsb] in Hb. apply orb_false_iff in Hb as [Hb1 Hb2].
  constructor; [|by apply IH]. split; [by apply reads_plain|done].
Qed.

Lemma tokens_ok owners segs : wf_from owners segs → Forall token_ok (tokens segs).
Proof.
  induction 1; rewrite ?tokens_cons, ?token_parts_named by auto; rewrite ?app_nil_r.
  - constructor.
  - by apply can_tokens_ok.
  - repeat constructor; by apply kind_token_ok || apply name_token_ok.
  - constructor; [apply kind_token_ok|]. constructor; [by apply name_token_ok|done].
  - apply Forall_singleton, kind_token_ok.
  - constructor; [apply kind_token_ok|done].
  - constructor; [apply kind_token_ok|]. by apply can_tokens_ok.
Qed.
