(* ===== verification/AddressProps.v ===== *)
(** * Round trips of logical addresses

    The recursion of [QualifiedAddress::parse] ends, what it accepts is well
    formed, and the printed address is read back as the same address, also
    through the contextual entry [resolve_input]. *)

From Stdlib Require Import ZArith Lia String.
From stdpp Require Import base list option numbers.
From S2P Require Import Prelude Redaction AddressKinds ModuleRoutes Address AddressFacts.

Local Open Scope Z_scope.

(** ** [split_once] *)

Lemma split_once_Some c t a b :
  split_once c t = Some (a, b) ↔ t = a ++ c :: b ∧ has_char c a = false.
Proof.
  revert a. induction t as [|x t IH]; intros a; cbn [split_once].
  - split; [done|]. intros [H _]. by destruct a.
  - unfold has_char in *. destruct (Z.eqb_spec x c) as [->|Hx].
    + split.
      * by intros [= <- <-].
      * intros [H1 H2]. destruct a as [|y a]; [by simplify_eq/=|].
        cbn [app existsb] in *. simplify_eq. by rewrite Z.eqb_refl in H2.
    + destruct a as [|y a].
      * split; [by destruct (split_once c t)|]. intros [[= ->] _]. done.
      * cbn [existsb app]. specialize (IH a). destruct (split_once c t) as [[p q]|]; cbn.
        -- split.
           ++ intros [= -> -> ->]. destruct (proj1 IH eq_refl) as [-> ->].
              rewrite (proj2 (Z.eqb_neq _ _)) by done. done.
           ++ intros [[= -> Ht] [_ H2]%orb_false_iff].
              by injection (proj2 IH (conj Ht H2)) as -> ->.
        -- split; [done|]. intros [[= -> Ht] [_ H2]%orb_false_iff].
           discriminate (proj2 IH (conj Ht H2)).
Qed.

Lemma split_once_None c t : split_once c t = None ↔ has_char c t = false.
Proof.
  unfold has_char. induction t as [|x t IH]; [done|]. cbn [split_once existsb].
  destruct (Z.eqb_spec x c) as [->|Hx].
  - by rewrite Z.eqb_refl.
  - rewrite (proj2 (Z.eqb_neq c x)) by done. rewrite <- IH.
    by destruct (split_once c t).
Qed.

(** ** The recursion of [parse] *)

Lemma parse_fuel_plain n raw : has_char 35 raw = false → parse_fuel n raw = parse_plain raw.
Proof.
  intros H%split_once_None. destruct n as [|n]; [done|]. cbn [parse_fuel]. by rewrite H.
Qed.

Lemma parse_fuel_equation n raw :
  (length raw ≤ n)%nat →
  parse_fuel n raw = match split_once 35 raw with
                     | Some (owner, selector) => select_lines raw selector (parse_plain owner)
                     | None => parse_plain raw
                     end.
Proof.
  intros Hn. destruct n as [|n].
  - by destruct raw; [|cbn in Hn; lia].
  - cbn [parse_fuel]. destruct (split_once 35 raw) as [[owner sel]|] eqn:E; [|done].
    apply split_once_Some in E as [_ E]. by rewrite parse_fuel_plain.
Qed.

Lemma parse_no_hash raw : has_char 35 raw = false → parse raw = parse_plain raw.
Proof. apply parse_fuel_plain. Qed.

(** [QualifiedAddress::parse] terminates: its call on the part before
    the first [#] never calls itself again, so that any bound at least the
    length of the input gives the same answer, and that answer satisfies the
    recursive equation of the source. *)
Theorem parse_terminates raw :
  (∀ n, (length raw ≤ n)%nat → parse_fuel n raw = parse raw)
  ∧ parse raw = match split_once 35 raw with
                | Some (owner, selector) => select_lines raw selector (parse owner)
                | None => parse_plain raw
                end.
Proof.
  unfold parse at 1 2. split.
  - intros n Hn. by rewrite !parse_fuel_equation.
  - rewrite parse_fuel_equation by done.
    destruct (split_once 35 raw) as [[owner sel]|] eqn:E; [|done].
    apply split_once_Some in E as [_ E]. by rewrite parse_no_hash.
Qed.

(** ** Plain addresses *)

Lemma finish_address_inv set_name segs a :
  finish_address set_name segs = Ok a →
  a = mkQualifiedAddress set_name (insert_root segs) None
  ∧ finish_address set_name (insert_root segs) = Ok a.
Proof.
  assert (Hi : insert_root (insert_root segs) = insert_root segs).
  { destruct segs as [|s [|s' segs]]; [done| |done]. cbn [insert_root].
    destruct (kind_is KCan s) eqn:E; [done|]. cbn [insert_root]. by rewrite E. }
  unfold finish_address. rewrite Hi. destruct (_ && _); [done|]. destruct (_ && _); [done|].
  by intros [= <-].
Qed.

Lemma insert_root_wf segs : segs ≠ [] → wf_from [] segs → wf_from [] (insert_root segs).
Proof.
  intros Hne Hwf. destruct segs as [|s [|s' segs]]; [done| |done]. cbn [insert_root].
  destruct (kind_is KCan s) eqn:E; [|done]. unfold kind_is in E. bool_prop.
  apply wf_nameless; [done|]. destruct s as [k op]. cbn [s_kind] in E. subst k.
  apply wf_can. inversion Hwf; subst; try done;
    by match goal with H : plain_kind KCan |- _ => destruct H end.
Qed.

(** What the plain grammar accepts. *)
Record plain_wf (a : QualifiedAddress) : Prop := {
  pw_set : xml_ncname_is_valid (source_set a) = true;
  pw_segments : segments a ≠ [];
  pw_from : wf_from [] (segments a);
  pw_finish : finish_address (source_set a) (segments a) = Ok a;
}.

Lemma parse_plain_wf raw a : parse_plain raw = Ok a → plain_wf a.
Proof.
  unfold parse_plain. destruct (split_once 58 raw) as [[set_name path]|]; [|done].
  destruct (_ || _) eqn:Hs; [done|]. destruct (text_is path []); [done|].
  destruct (split_segments path) as [parts|] eqn:Ep; [|done].
  destruct (existsb _ parts) eqn:Ee; [done|].
  destruct (parse_parts parts []) as [segs|] eqn:Es; [|done]. intros Hf.
  bool_prop. unfold split_segments in Ep. apply split_parts_ok in Ep as [Hne Hp]; [|done].
  assert (Hok : parts_ok parts).
  { split; [done|]. clear -Ee. induction parts as [|p l IH]; [constructor|].
    cbn [existsb] in Ee. apply orb_false_iff in Ee as [E1%text_is_false E2]. by constructor; auto. }
  apply (parse_parts_wf (length parts)) in Es as (segs' & Hsegs & Hwf & Hsne); [|done..].
  cbn [app] in Hsegs. subst segs'. specialize (Hsne Hne).
  apply finish_address_inv in Hf as [-> Hf].
  split; [done| |by apply insert_root_wf|done].
  cbn [segments]. destruct segs as [|s [|]]; [done| |done]. cbn. by destruct (kind_is KCan s).
Qed.

Lemma render_nonempty segs : segs ≠ [] → render_segments segs ≠ [].
Proof.
  rewrite render_tokens. destruct segs as [|s segs]; [done|]. intros _ H. rewrite tokens_cons in H.
  unfold token_parts in H. cbn [app fmap list_fmap fst] in H.
  destruct (as_str_letters (s_kind s)) as [Hne _]. destruct (as_str (s_kind s)) as [|c t]; [done|].
  by destruct (fst <$> _) in H.
Qed.

Lemma split_render owners segs :
  segs ≠ [] → wf_from owners segs → split_segments (render_segments segs) = Ok (tokens segs).
Proof.
  intros Hne Hwf%tokens_ok. rewrite render_tokens. apply split_segments_join.
  - by destruct segs as [|s segs].
  - eapply Forall_impl; [|exact Hwf]. by intros p [? _].
Qed.

(** A well-formed address is read back from what it prints. *)
Lemma parse_plain_display a :
  plain_wf a → parse_plain (source_set a ++ [58] ++ render_segments (segments a)) = Ok a.
Proof.
  intros [Hs Hne Hwf Hf]. unfold parse_plain.
  rewrite (proj2 (split_once_Some 58 _ (source_set a) (render_segments (segments a)))).
  2: { split; [done|]. by apply ncname_no; [lia|]. }
  rewrite Hs. rewrite (proj2 (text_is_false _ _)) by by apply ncname_nonempty.
  rewrite (proj2 (text_is_false _ _)) by by apply render_nonempty.
  rewrite (split_render []) by done. cbn [orb negb].
  replace (existsb _ (tokens (segments a))) with false.
  - by rewrite tokens_read.
  - symmetry. apply tokens_ok in Hwf. clear -Hwf.
    induction Hwf as [|p l [_ Hp] Hl IH]; [done|]. cbn [existsb].
    by rewrite (proj2 (text_is_false _ _)).
Qed.

(** ** A [#] inside a name *)

(** What has been read of a part stays in it. *)
Lemma split_first_part c t raw cur l :
  split_from raw cur t = Ok l → c ∈ raw → c ∈ cur → ∃ r u l', l = (r, u) :: l' ∧ c ∈ r ∧ c ∈ u.
Proof.
  revert raw cur l. induction t as [|x|x d t IH1 IH2] using list_ind2; intros raw cur l.
  - intros [= <-]. eauto 10.
  - cbn [split_from]. destruct (x =? 92); [done|]. destruct (x =? 46); intros [= <-]; eauto 10.
    intros. do 3 eexists. split; [done|]. by rewrite !elem_of_app; auto.
  - destruct (decide (x = 92)) as [->|H92]; [|destruct (decide (x = 46)) as [->|H46]].
    + intros [_ H]%split_from_escape ??. eapply IH1; [exact H|by rewrite elem_of_app; auto..].
    + rewrite split_from_dot. destruct (split_from [] [] _); [|done]. intros [= <-]. eauto 10.
    + rewrite split_from_plain by done. intros H ??.
      eapply IH2; [exact H|by rewrite elem_of_app; auto..].
Qed.

(** Cutting a path inside a part cuts that part. *)
Lemma split_prefix t c q raw cur l :
  c ≠ 46 → c ≠ 92 → split_from raw cur (t ++ c :: q) = Ok l →
  is_err (split_from raw cur t) = true
  ∨ ∃ l1 r u r' u' l2, split_from raw cur t = Ok (l1 ++ [(r, u)])
      ∧ l = l1 ++ (r', u') :: l2 ∧ c ∈ r' ∧ c ∈ u'.
Proof.
  intros H46 H92. revert raw cur l.
  induction t as [|x|x d t IH1 IH2] using list_ind2; intros raw cur l.
  - cbn [app]. rewrite split_from_plain by done. intros H.
    apply (split_first_part c) in H as (r' & u' & l2 & -> & Hr & Hu); [|by apply elem_of_app; right; left..].
    right. exists [], raw, cur, r', u', l2. done.
  - cbn [app]. destruct (decide (x = 92)) as [->|H92']; [|destruct (decide (x = 46)) as [->|H46']].
    + by left.
    + rewrite split_from_dot, split_from_plain by done.
      destruct (split_from _ _ q) as [l0|] eqn:E; [|done]. intros [= <-].
      apply (split_first_part c) in E as (r' & u' & l2 & -> & Hr & Hu); [|by left..].
      right. exists [(raw, cur)], [], [], r', u', l2. done.
    + rewrite split_from_plain by done. rewrite split_from_plain by done. intros E.
      apply (split_first_part c) in E as (r' & u' & l2 & -> & Hr & Hu); [|by apply elem_of_app; right; left..].
      right. exists [], (raw ++ [x]), (cur ++ [x]), r', u', l2.
      by rewrite split_from_plain.
  - cbn [app]. destruct (decide (x = 92)) as [->|H92']; [|destruct (decide (x = 46)) as [->|H46']].
    + intros [-> H]%split_from_escape. apply IH1 in H. done.
    + rewrite !split_from_dot. destruct (split_from [] [] (d :: t ++ c :: q)) as [l0|] eqn:E; [|done].
      intros [= <-]. apply IH2 in E as [E|(l1 & r & u & r' & u' & l2 & E & -> & Hc)].
      * left. by destruct (split_from [] [] (d :: t)).
      * right. rewrite E. exists ((raw, cur) :: l1), r, u, r', u', l2. done.
    + rewrite !(split_from_plain raw cur) by done. apply IH2.
Qed.

(** The last segment is not a [Body] that a selector could follow. *)
Definition no_body (segs : list AddressSegment) : Prop :=
  is_some_and (λ s, kind_is KBody s && negb (named s)) (last_opt segs) = false.

Lemma last_opt_snoc {A} (l : list A) x : last_opt (l ++ [x]) = Some x.
Proof.
  induction l as [|y l IH]; [done|]. cbn [app last_opt]. rewrite IH.
  by destruct (l ++ [x]) eqn:E; [destruct l|].
Qed.

Lemma no_body_named segs k n : no_body (segs ++ [mkSegment k (Some n)]).
Proof. unfold no_body. rewrite last_opt_snoc. cbn. by rewrite andb_false_r. Qed.

Lemma hash_operation_refused l : existsb (has_char 35) l = true →
  negb (text_is (join [46] l) []) && negb (xml_ncname_is_valid (join [46] l)) = true.
Proof.
  intros H. rewrite <- (has_char_join 35 [46]) in H by done.
  destruct (xml_ncname_is_valid _) eqn:E; [rewrite ncname_no in H by (done || lia); done|].
  rewrite (proj2 (text_is_false _ _)); [done|]. intros E'. by rewrite E' in H.
Qed.

Lemma hash_in_part (l1 l2 : list (text * text)) r u :
  35 ∈ r → existsb (has_char 35) (fst <$> l1 ++ (r, u) :: l2) = true.
Proof.
  intros H. rewrite fmap_app, existsb_app. cbn [fmap list_fmap existsb fst].
  rewrite (proj2 (has_char_true 35 r)) by done. cbn [orb]. apply orb_true_r.
Qed.

Lemma hash_no_kind u : 35 ∈ u → is_err (node_kind_parse u) = true.
Proof.
  intros H. destruct (node_kind_parse u) as [k|] eqn:E; [|done].
  apply kind_token_no_hash, has_char_false in E. done.
Qed.

(** A question to the dictionary takes all that follows. *)
Lemma hash_not_asked l1 r' u' l2 owners x :
  35 ∈ r' → asks_dictionary (l1 ++ (r', u') :: l2) = true → 35 ∈ u' →
  parse_parts (l1 ++ (r', u') :: l2) owners ≠ Ok x.
Proof.
  intros Hr Ha Hu. destruct l1 as [|[rn un] l1].
  - cbn [app parse_parts]. apply hash_no_kind in Hu. by destruct (node_kind_parse u').
  - assert (un = as_str KCan) as ->.
    { cbn [app asks_dictionary] in Ha. destruct (l1 ++ (r', u') :: l2) as [|[]]; [done|].
      apply andb_true_iff in Ha as [Ha _]. by apply text_is_true. }
    cbn [app parse_parts]. rewrite as_str_parse. rewrite bool_decide_eq_true_2 by done.
    by rewrite hash_operation_refused by by apply hash_in_part.
Qed.

Lemma asks_dictionary_cut p l1 r u r' u' l2 :
  35 ∈ u' → asks_dictionary (p :: l1 ++ (r', u') :: l2) = false →
  asks_dictionary (p :: l1 ++ [(r, u)]) = false.
Proof.
  intros Hu. destruct p as [rn un]. destruct l1 as [|[] l1]; [|done]. cbn [app asks_dictionary].
  rewrite hash_no_kind by done. rewrite andb_true_r. by intros ->.
Qed.

(** Where a part holds a [#], reading only up to it never ends in a nameless
    [Body]: that part is the name of a free-text item or of a property. *)
Lemma hash_cut n l1 r u r' u' l2 owners x y :
  (length l1 ≤ n)%nat → 35 ∈ r' → 35 ∈ u' →
  parse_parts (l1 ++ (r', u') :: l2) owners = Ok x →
  parse_parts (l1 ++ [(r, u)]) owners = Ok y → no_body y.
Proof.
  intros Hn Hr' Hu'. revert l1 owners Hn. induction n as [|n IH]; intros [|[rk uk] l1] owners Hn;
    cbn [length] in Hn; try lia.
  1, 2: cbn [app parse_parts]; apply hash_no_kind in Hu'; by destruct (node_kind_parse u').
  cbn [app parse_parts]. destruct (node_kind_parse uk) as [k|]; [|done].
  destruct (bool_decide (k = KCan)) eqn:Hk1; [|destruct (bool_decide (k = KProps)) eqn:Hk2].
  - by rewrite hash_operation_refused by by apply hash_in_part.
  - destruct l1 as [|p [|]]; [|by destruct p|by destruct p].
    cbn [app]. intros _ [= <-]. apply no_body_named.
  - destruct (takes_name k) eqn:Ht; cbn [andb].
    + destruct l1 as [|[rn un] l1].
      * cbn [app asks_dictionary negb]. intros _. destruct (name_refused k owners u); [done|].
        intros [= <-]. apply no_body_named.
      * destruct (asks_dictionary (((rn, un) :: l1) ++ (r', u') :: l2)) eqn:Ha; cbn [app negb].
        { destruct (is_err (node_kind_parse un)); [done|]. intros Hx.
          by apply (hash_not_asked ((rn, un) :: l1)) in Hx. }
        cbn [app] in Ha. rewrite (asks_dictionary_cut _ _ r u _ _ _ Hu' Ha). cbn [negb].
        destruct (name_refused k owners un); [done|]. apply IH. cbn [length] in Hn. lia.
    + destruct l1 as [|[rn un] l1]; cbn [app].
      * by rewrite hash_no_kind.
      * destruct (is_err (node_kind_parse un)); [done|]. apply (IH ((rn, un) :: l1)). lia.
Qed.

Lemma parse_equation raw :
  parse raw = match split_once 35 raw with
              | Some (owner, selector) => select_lines raw selector (parse_plain owner)
              | None => parse_plain raw
              end.
Proof. by apply parse_fuel_equation. Qed.

Lemma no_body_insert_root segs : no_body segs → no_body (insert_root segs).
Proof.
  destruct segs as [|s [|]]; try done. cbn [insert_root]. by destruct (kind_is KCan s).
Qed.

(** Before a [#] of a printed address there is no [Body] to select from. *)
Lemma cut_no_body a path1 selector b :
  plain_wf a → render_segments (segments a) = path1 ++ 35 :: selector →
  parse_plain (source_set a ++ 58 :: path1) = Ok b → ends_in_body b = false.
Proof.
  intros [Hs Hne Hwf _] Hr. unfold parse_plain.
  rewrite (proj2 (split_once_Some 58 _ (source_set a) path1)).
  2: { split; [done|]. by apply ncname_no; [lia|]. }
  destruct (_ || _); [done|]. destruct (text_is path1 []); [done|].
  pose proof (split_render _ _ Hne Hwf) as Ht. rewrite Hr in Ht. unfold split_segments in *.
  apply split_prefix in Ht as [Ht|(l1 & r & u & r' & u' & l2 & -> & Ht & Hr' & Hu')]; [| |done..].
  { by destruct (split_from [] [] path1). }
  destruct (existsb _ _); [done|].
  destruct (parse_parts (l1 ++ [(r, u)]) []) as [y|] eqn:Ey; [|done].
  intros [-> _]%finish_address_inv. apply no_body_insert_root.
  pose proof (tokens_read _ _ Hwf) as Hx. rewrite Ht in Hx.
  exact (hash_cut _ _ _ _ _ _ _ _ _ _ (le_n _) Hr' Hu' Hx Ey).
Qed.

Lemma parse_display_plain a :
  plain_wf a → parse (source_set a ++ [58] ++ render_segments (segments a)) = Ok a.
Proof.
  intros Hwf. rewrite parse_equation.
  destruct (split_once 35 _) as [[owner sel]|] eqn:E; [|by apply parse_plain_display].
  apply split_once_Some in E as [E _].
  assert (∃ path1, owner = source_set a ++ 58 :: path1
                   ∧ render_segments (segments a) = path1 ++ 35 :: sel) as (path1 & -> & Hp).
  { rewrite app_assoc in E. apply app_eq_inv in E as [(k & E1 & E2)|(k & E1 & E2)].
    - destruct k as [|c k].
      + rewrite app_nil_r in E1. exists []. by rewrite <- E1.
      + cbn [app] in E2. injection E2 as <- E2. exfalso.
        assert (H : has_char 35 (source_set a ++ [58]) = false).
        { rewrite has_char_app. by rewrite ncname_no by (lia || apply Hwf). }
        rewrite E1, has_char_app in H. unfold has_char in H. cbn [existsb] in H.
        by rewrite Z.eqb_refl, orb_true_r in H.
    - exists k. rewrite <- app_assoc in E1. done. }
  unfold select_lines. destruct (parse_plain (source_set a ++ 58 :: path1)) as [b|] eqn:Eb.
  - rewrite (cut_no_body a path1 sel b) by done. by apply parse_plain_display.
  - by apply parse_plain_display.
Qed.

(** ** Line selectors *)

Lemma digits_value_app s t : digits_value (s ++ t) =
  foldl (λ n c, n * 10 + (c - 48)) (digits_value s) t.
Proof. apply foldl_app. Qed.

Lemma decimal_from_value fuel n :
  0 ≤ n → n < 10 ^ (Z.of_nat fuel) →
  digits_value (decimal_from fuel n) = n
  ∧ forallb is_ascii_digit (decimal_from fuel n) = true
  ∧ (fuel ≠ O → decimal_from fuel n ≠ []).
Proof.
  revert n. induction fuel as [|fuel IH]; intros n H0 Hn.
  - cbn in *. assert (n = 0) as -> by lia. done.
  - rewrite Nat2Z.inj_succ, Z.pow_succ_r in Hn by lia. cbn [decimal_from].
    destruct (Z.ltb_spec n 10) as [Hlt|Hge].
    + split_and!; [cbn; lia| |done]. cbn. unfold is_ascii_digit, in_range.
      rewrite !(proj2 (Z.leb_le _ _)) by lia. done.
    + assert (0 ≤ n / 10 < 10 ^ Z.of_nat fuel) as [Hd1 Hd2].
      { split; [apply Z.div_pos; lia|]. apply Z.div_lt_upper_bound; lia. }
      destruct (IH (n / 10) Hd1 Hd2) as (IH1 & IH2 & _).
      pose proof (Z.mod_pos_bound n 10 ltac:(lia)) as Hm. pose proof (Z.div_mod n 10 ltac:(lia)).
      rewrite digits_value_app, IH1, forallb_app, IH2. split_and!.
      * cbn. lia.
      * cbn. unfold is_ascii_digit, in_range. rewrite !(proj2 (Z.leb_le _ _)) by lia. done.
      * intros _. by destruct (decimal_from fuel (n / 10)).
Qed.

(** A positive 64-bit number is read back from its decimal digits. *)
Lemma line_number_decimal n : 0 < n ≤ u64_max → line_number (decimal n) = Ok n.
Proof.
  intros Hn. assert (Hb : n < 10 ^ Z.of_nat 20) by (unfold u64_max in Hn; cbn; lia).
  destruct (decimal_from_value 20 n) as (Hv & Hd & Hne); [lia|done|].
  unfold line_number, decimal, parse_usize. rewrite Hv, Hd.
  rewrite (proj2 (text_is_false _ _)) by by apply Hne. cbn [orb negb].
  rewrite (proj2 (Z.leb_le _ _)), (proj2 (Z.ltb_lt _ _)) by lia. done.
Qed.

Lemma line_number_inv t n : line_number t = Ok n → 0 < n ≤ u64_max.
Proof.
  unfold line_number, parse_usize. destruct (_ || _); [done|].
  destruct (Z.leb_spec (digits_value t) u64_max); [|done].
  destruct (Z.ltb_spec 0 (digits_value t)); [|done]. intros [= <-]. lia.
Qed.

Lemma starts_with_app p t : starts_with (p ++ t) p = true.
Proof. induction p as [|c p IH]; [by destruct t|]. cbn. by rewrite Z.eqb_refl, IH. Qed.
Lemma strip_prefix_app p t : strip_prefix (p ++ t) p = Some t.
Proof. unfold strip_prefix. by rewrite starts_with_app, drop_app_length. Qed.
Lemma strip_prefix_other c p x t : x ≠ c → strip_prefix (x :: t) (c :: p) = None.
Proof.
  intros Hx. unfold strip_prefix. cbn. by rewrite (proj2 (Z.eqb_neq c x)) by done.
Qed.

Lemma split_once_str_app c p s t :
  has_char c s = false → split_once_str (c :: p) (s ++ (c :: p) ++ t) = Some (s, t).
Proof.
  unfold has_char. induction s as [|x s IH]; cbn [existsb]; intros Hs.
  - change ([] ++ (c :: p) ++ t) with ((c :: p) ++ t).
    pose proof (strip_prefix_app (c :: p) t) as H. cbn [app split_once_str] in *. by rewrite H.
  - apply orb_false_iff in Hs as [Hx Hs]. cbn [app split_once_str].
    rewrite strip_prefix_other by (intros ->; by rewrite Z.eqb_refl in Hx).
    specialize (IH Hs). cbn [app] in IH. by rewrite IH.
Qed.
Lemma split_once_str_None c p t : has_char c t = false → split_once_str (c :: p) t = None.
Proof.
  unfold has_char. induction t as [|x t IH]; [done|]. cbn [existsb split_once_str].
  intros [Hx Hs]%orb_false_iff.
  rewrite strip_prefix_other by (intros ->; by rewrite Z.eqb_refl in Hx). by rewrite IH.
Qed.

Lemma decimal_no c n :
  is_ascii_digit c = false → 0 < n ≤ u64_max → has_char c (decimal n) = false.
Proof.
  intros Hc Hn. assert (Hb : n < 10 ^ Z.of_nat 20) by (unfold u64_max in Hn; cbn; lia).
  destruct (decimal_from_value 20 n) as (_ & Hd & _); [lia|done|].
  apply has_char_false. intros Hin%list_elem_of_In. rewrite forallb_forall in Hd.
  apply Hd in Hin. congruence.
Qed.

(** The ranges [BodyLineRange::parse] yields. *)
Definition range_ok (r : BodyLineRange) : Prop :=
  0 < lr_from r ∧ lr_from r ≤ lr_to r ∧ lr_to r ≤ u64_max
  ∧ (lr_single r = true → lr_to r = lr_from r).

Lemma line_range_parse_ok raw r : line_range_parse raw = Ok r → range_ok r.
Proof.
  unfold line_range_parse. intros H.
  destruct (strip_prefix raw (str "L") ≫= split_once_str (str "-L")) as [[f t]|].
  - destruct (line_number f) as [from|] eqn:Ef; [|done].
    destruct (line_number t) as [to|] eqn:Et; [|done].
    destruct (Z.ltb_spec to from); [done|]. injection H as <-.
    apply line_number_inv in Ef, Et. split_and!; cbn; by try lia.
  - destruct (strip_prefix raw (str "L")) as [f|]; [|done]. cbn [ok_or] in H.
    destruct (line_number f) as [from|] eqn:Ef; [|done].
    destruct (Z.ltb_spec from from); [done|]. injection H as <-.
    apply line_number_inv in Ef. split_and!; cbn; try lia.
Qed.

(** A line selector is read back from what it prints. *)
Lemma line_range_roundtrip r :
  range_ok r → ∃ selector, line_range_display r = 35 :: selector ∧ line_range_parse selector = Ok r.
Proof.
  intros (H1 & H2 & H3 & H4). destruct r as [from to single]. cbn [lr_from lr_to lr_single] in *.
  unfold line_range_display. cbn [lr_from lr_to lr_single].
  replace (str "#L") with (35 :: str "L") by reflexivity.
  destruct single; (eexists; split; [reflexivity|]); unfold line_range_parse.
  - rewrite strip_prefix_app. cbn [mbind option_bind ok_or].
    replace (str "-L") with [45; 76] by reflexivity.
    rewrite split_once_str_None by (apply decimal_no; [done|lia]).
    rewrite line_number_decimal by lia. rewrite Z.ltb_irrefl. by rewrite H4.
  - rewrite strip_prefix_app. cbn [mbind option_bind ok_or].
    replace (str "-L") with [45; 76] by reflexivity.
    rewrite split_once_str_app by (apply decimal_no; [done|lia]).
    rewrite !line_number_decimal by lia. by rewrite (proj2 (Z.ltb_ge _ _)).
Qed.

(** ** Names without [#] *)

Lemma name_without_hash k owners n :
  name_refused k owners n = false → k ≠ KItem → has_char 35 n = false.
Proof.
  unfold name_refused, name_is_free_text. intros H Hk.
  rewrite (bool_decide_eq_false_2 (k = KItem)) in H by done. cbn [andb negb] in H.
  rewrite andb_true_r in H. bool_prop. apply ncname_no; [lia|done].
Qed.

Lemma escape_no_hash n : has_char 35 n = false → has_char 35 (escape_name n) = false.
Proof.
  unfold escape_name, replace_dot, has_char. destruct (existsb (Z.eqb 46) n); [|done].
  induction n as [|c n IH]; [done|]. cbn [existsb mbind list_bind].
  intros [H1 H2]%orb_false_iff. rewrite existsb_app. fold (existsb (Z.eqb 35)).
  destruct (c =? 46); cbn [existsb]; rewrite ?H1; by apply IH.
Qed.

Lemma operation_no_hash op : operation_ok (Some op) → existsb (has_char 35) (pieces op) = false.
Proof. intros [Hv _]. rewrite pieces_no by lia. apply ncname_no; [lia|done]. Qed.

Lemma wf_no_hash owners segs :
  wf_from owners segs → Forall (λ s, route_kind (s_kind s) = true) segs →
  existsb (has_char 35) (fst <$> tokens segs) = false.
Proof.
  assert (Hk : ∀ k, has_char 35 (as_str k) = false) by (intros; by apply as_str_no).
  induction 1 as [owners|owners op Hop|owners n Hn|owners k n rest Ht Hp Hn Hr Hrest IH|owners k Ht Hp
    |owners k rest Ht Hrest IH|owners k op Ht Hp Hop Hq]; intros HF;
    repeat match goal with H : Forall _ (_ :: _) |- _ => apply Forall_cons_1 in H as [? ?] end;
    cbn [s_kind] in *; try done; rewrite tokens_cons.
  - rewrite token_parts_named by auto. cbn [app fmap list_fmap existsb fst].
    rewrite Hk, IH by done. rewrite escape_no_hash; [done|].
    eapply name_without_hash; [done|]. by intros ->.
  - cbn [app fmap list_fmap existsb fst token_parts s_kind s_name]. by rewrite Hk.
  - cbn [app fmap list_fmap existsb fst token_parts s_kind s_name]. by rewrite Hk, IH.
Qed.

(** ** Parsed addresses *)

Lemma plain_wf_no_range a : plain_wf a → line_range a = None.
Proof. intros [_ _ _ Hf]. by apply finish_address_inv in Hf as [-> _]. Qed.

(** An accepted address is plain, or a module body with a line range. *)
Lemma parse_cases raw a :
  parse raw = Ok a →
  plain_wf a
  ∨ ∃ b r, plain_wf b ∧ ends_in_body b = true ∧ is_none (module_prefix_route b) = false
           ∧ range_ok r ∧ a = mkQualifiedAddress (source_set b) (segments b) (Some r).
Proof.
  rewrite parse_equation. destruct (split_once 35 raw) as [[owner sel]|];
    [|intros H; left; by eapply parse_plain_wf].
  unfold select_lines. destruct (parse_plain owner) as [b|] eqn:Eb;
    [|intros H; left; by eapply parse_plain_wf].
  destruct (ends_in_body b) eqn:Hb; [|intros H; left; by eapply parse_plain_wf].
  destruct (is_some (line_range b)); [done|].
  destruct (is_none (module_prefix_route b)) eqn:Hm; [done|].
  destruct (line_range_parse sel) as [r|] eqn:Er; [|done]. intros [= <-].
  right. exists b, r. apply parse_plain_wf in Eb. by apply line_range_parse_ok in Er.
Qed.

Lemma display_plain a :
  plain_wf a → display a = source_set a ++ [58] ++ render_segments (segments a).
Proof.
  intros H%plain_wf_no_range. unfold display, logical_path. by rewrite H, app_nil_r.
Qed.

(** The address of a module body is read back with its line selector. *)
Lemma parse_selected b r :
  plain_wf b → ends_in_body b = true → is_none (module_prefix_route b) = false → range_ok r →
  let a := mkQualifiedAddress (source_set b) (segments b) (Some r) in parse (display a) = Ok a.
Proof.
  intros Hb He Hm Hr a. destruct (line_range_roundtrip r Hr) as (sel & Hd & Hs).
  assert (Hno : has_char 35 (source_set b ++ [58] ++ render_segments (segments b)) = false).
  { rewrite !has_char_app, render_tokens. rewrite (ncname_no 35) by (lia || apply Hb).
    rewrite has_char_join by done. apply is_none_false in Hm as [route Hm].
    rewrite (wf_no_hash [] (segments b)); [done|apply Hb|by eapply prefix_route_kinds]. }
  unfold display, logical_path, a. cbn [source_set segments line_range]. rewrite Hd.
  rewrite parse_equation.
  rewrite (proj2 (split_once_Some 35 _ (source_set b ++ [58] ++ render_segments (segments b)) sel))
    by (by rewrite <- !app_assoc).
  unfold select_lines. rewrite parse_plain_display by done.
  rewrite He, (plain_wf_no_range b Hb), Hm, Hs. done.
Qed.

Lemma printed_reads_back raw a : parse raw = Ok a → parse (display a) = Ok a.
Proof.
  intros [Hp|(b & r & Hb & He & Hm & Hr & ->)]%parse_cases.
  - rewrite display_plain by done. by apply parse_display_plain.
  - by apply parse_selected.
Qed.

(** C40. The printed form of an address is its identity: whatever spelling
    was parsed (Russian kinds, redundant zeros of a line number, the short
    question to the root), the address prints as a text that parses to the
    same address, and addresses that print alike are equal. *)
Theorem parse_display raw a :
  parse raw = Ok a →
  parse (display a) = Ok a
  ∧ ∀ raw' a', parse raw' = Ok a' → display a' = display a → a' = a.
Proof.
  intros H%printed_reads_back. split; [done|]. intros raw' a' H'%printed_reads_back Hd.
  congruence.
Qed.
Lemma parse_display_witness :
  let a := mkQualifiedAddress (str "main")
             [mkSegment KCatalog (Some (str "Валюты")); mkSegment KModule (Some (str "Object"));
              mkSegment KMethod (Some (str "Ф")); mkSegment KBody None]
             (Some (mkBodyLineRange 7 12 false)) in
  parse (str "main:Справочник.Валюты.Модуль.Object.Метод.Ф.Body#L007-L12") = Ok a
  ∧ parse (display a) = Ok a.
Proof.
  split; [vm_compute; reflexivity|].
  refine (proj1 (parse_display (str "main:Справочник.Валюты.Модуль.Object.Метод.Ф.Body#L007-L12") _ _)).
  vm_compute. reflexivity.
Defined.

(** ** The shape of an accepted address *)

Lemma sole_root_shape segs :
  sole_configuration_root segs = true →
  segs = [mkSegment KConfiguration None] ∨ ∃ op, segs = [mkSegment KConfiguration None; mkSegment KCan op].
Proof.
  destruct segs as [|[k n] [|[k' n'] [|]]]; cbn; try done; unfold kind_is, named; cbn [s_kind s_name];
    intros H; bool_prop; destruct n; try done; subst; [by left|]. right. by exists n'.
Qed.

(** The owner of a form description. *)
Lemma form_metadata_shape a o :
  form_metadata_owner a = Some o →
  segments a = segments o ++ [mkSegment KMetadata None]
  ∧ ((∃ n, segments o = [mkSegment KCommonForm (Some n)])
     ∨ ∃ k m n, is_metadata_kind k = true
                ∧ segments o = [mkSegment k (Some m); mkSegment KForm (Some n)]).
Proof.
  unfold form_metadata_owner, prefix, kind_is, named.
  destruct (segments a) as [|[k1 n1] [|[k2 n2] [|[k3 n3] [|]]]]; try done; cbn [s_kind s_name];
    destruct (_ && _) eqn:E; try done; intros [= <-]; bool_prop; cbn [segments take length Nat.sub];
    destruct n1, n2; try destruct n3; try done; subst; (split; [done|]); [left|right]; eauto 10.
Qed.

(** Where [Configuration] and [Metadata] may stand. *)
Definition root_shape (segs : list AddressSegment) : Prop :=
  existsb (kind_is KConfiguration) segs = true →
  segs = [mkSegment KConfiguration None]
  ∨ ∃ op, segs = [mkSegment KConfiguration None; mkSegment KCan op].

Definition query_subject (a : QualifiedAddress) : list AddressSegment :=
  match operation_query a with Some (owner, _) => segments owner | None => segments a end.

Definition metadata_shape (subject : list AddressSegment) : Prop :=
  existsb (kind_is KMetadata) subject = true →
  (∃ n, subject = [mkSegment KCommonForm (Some n); mkSegment KMetadata None])
  ∨ ∃ k m n, is_metadata_kind k = true
      ∧ subject = [mkSegment k (Some m); mkSegment KForm (Some n); mkSegment KMetadata None].

Lemma subject_segments a :
  query_subject a = segments (match operation_query a with Some (owner, _) => owner | None => a end).
Proof. unfold query_subject. by destruct (operation_query a) as [[? ?]|]. Qed.

Lemma finish_shapes set_name segs a :
  finish_address set_name segs = Ok a → root_shape (segments a) ∧ metadata_shape (query_subject a).
Proof.
  intros H. pose proof (finish_address_inv _ _ _ H) as [Ha _]. revert H. unfold finish_address.
  rewrite <- Ha. destruct (negb _ && _) eqn:E1; [done|].
  destruct (_ && is_none _) eqn:E2; [done|]. intros _.
  split.
  - intros Hc. subst a. cbn [segments] in *. rewrite Hc, andb_true_r in E1. bool_prop.
    by apply sole_root_shape.
  - rewrite subject_segments. intros Hm. rewrite Hm in E2. cbn [andb] in E2.
    apply is_none_false in E2 as [o Ho].
    apply form_metadata_shape in Ho as [-> [[n ->]|(k & m & n & Hk & ->)]].
    + left. by exists n.
    + right. by exists k, m, n.
Qed.

Lemma plain_shapes a : plain_wf a → root_shape (segments a) ∧ metadata_shape (query_subject a).
Proof. intros [_ _ _ Hf]. by eapply finish_shapes. Qed.

(** What [QualifiedAddress::parse] accepts is well formed: the source
    set is an XML name, the segments follow the grammar (a name only where
    the kind takes one and of the kind's form, [Can] and [Props] only last),
    [Configuration] is the sole root and [Metadata] the nameless end of a
    named form, and a line range is positive, ascending and selects from the
    nameless [Body] of a BSL module. *)
Theorem parse_well_formed raw a :
  parse raw = Ok a →
  xml_ncname_is_valid (source_set a) = true
  ∧ segments a ≠ [] ∧ wf_from [] (segments a)
  ∧ root_shape (segments a) ∧ metadata_shape (query_subject a)
  ∧ ∀ r, line_range a = Some r →
      range_ok r ∧ ends_in_body a = true ∧ is_some (module_prefix_route a) = true.
Proof.
  intros [Hp|(b & r & Hb & He & Hm & Hr & ->)]%parse_cases.
  - pose proof (plain_shapes a Hp) as [Hc Hs]. pose proof (plain_wf_no_range a Hp).
    destruct Hp as [H1 H2 H3 _]. split_and!; try done. congruence.
  - pose proof (plain_shapes b Hb) as [Hc Hs]. destruct Hb as [H1 H2 H3 _].
    split_and!; try done. intros r' [= <-]. split_and!; [done|done|].
    apply is_none_false in Hm as [route Hm]. apply is_some_true. by exists route.
Qed.
Lemma parse_well_formed_witness :
  let a := mkQualifiedAddress (str "main")
             [mkSegment KDocument (Some (str "Заказ")); mkSegment KForm (Some (str "Ф"));
              mkSegment KMetadata None; mkSegment KCan (Some (str "form.set"))] None in
  parse (str "main:Документ.Заказ.Форма.Ф.Метаданные.Can.form.set") = Ok a
  ∧ segments a ≠ [].
Proof.
  split; [vm_compute; reflexivity|].
  refine (proj1 (proj2 (parse_well_formed
    (str "main:Документ.Заказ.Форма.Ф.Метаданные.Can.form.set") _ _))).
  vm_compute. reflexivity.
Defined.

(** ** Input against the selected source sets *)

(** A colon of a printed path comes after a dot: it belongs to a name. *)
Lemma colon_after_dot k l sel p q :
  has_char 58 k = false → has_char 58 sel = false →
  join [46] (k :: l) ++ sel = p ++ 58 :: q → has_char 46 p = true.
Proof.
  assert (Hin : ∀ t u, has_char 58 (t ++ 58 :: u) = true)
    by (intros; by rewrite has_char_app, orb_true_iff; right).
  intros Hk Hs E. destruct l as [|x l].
  - exfalso. pose proof (Hin p q) as H. rewrite <- E, has_char_app in H. cbn [join] in H.
    by rewrite Hk, Hs in H.
  - rewrite join_cons in E by done. rewrite <- app_assoc in E.
    apply app_eq_inv in E as [(t & E1 & E2)|(t & E1 & E2)].
    + exfalso. destruct t as [|c t]; [done|]. cbn [app] in E2. injection E2 as <- E2.
      rewrite E1, Hin in Hk. done.
    + destruct t as [|c t]; [done|]. injection E2 as <- E2. rewrite E1, has_char_app.
      apply orb_true_r.
Qed.

Lemma line_range_no_colon r : range_ok r → has_char 58 (line_range_display r) = false.
Proof.
  intros (H1 & H2 & H3 & _). unfold line_range_display.
  destruct (lr_single r); rewrite ?has_char_app; repeat rewrite decimal_no by (done || lia); done.
Qed.

Lemma logical_path_colon raw a p q :
  parse raw = Ok a → split_once 58 (logical_path a) = Some (p, q) → has_char 46 p = true.
Proof.
  intros Ha [E _]%split_once_Some. unfold logical_path in E.
  assert (Hne : segments a ≠ [] ∧
    has_char 58 (match line_range a with Some r => line_range_display r | None => [] end) = false).
  { apply parse_cases in Ha as [Ha|(b & r & Hb & _ & _ & Hr & ->)].
    - split; [apply Ha|]. by rewrite plain_wf_no_range.
    - split; [apply Hb|]. by apply line_range_no_colon. }
  destruct Hne as [Hne Hs]. rewrite render_tokens in E. destruct (segments a) as [|s segs]; [done|].
  rewrite tokens_cons in E. unfold token_parts in E. cbn [app fmap list_fmap fst] in E.
  eapply colon_after_dot; [|exact Hs|exact E]. by apply as_str_no.
Qed.

(** The contextual entry agrees with the printed forms.  A printed
    address is accepted unchanged whatever source sets are selected, unless
    its own set has a dot and is not selected.  The logical path alone, even
    with a colon in a free-text name, is completed by the only source set,
    refused as ambiguous among several and as unqualified with none. *)
Theorem resolve_input_printed raw a available :
  parse raw = Ok a → Forall (λ s, has_char 46 s = false) available →
  (has_char 46 (source_set a) = false → resolve_input (display a) available = Ok a)
  ∧ resolve_input (logical_path a) available =
      match available with
      | [] => Err SourceSetRequired
      | [s] => parse (s ++ [58] ++ logical_path a)
      | _ => Err AmbiguousAddress
      end
  ∧ (available = [source_set a] → resolve_input (logical_path a) available = Ok a).
Proof.
  intros Ha Hav. pose proof (printed_reads_back raw a Ha) as Hp.
  assert (Hset : has_char 58 (source_set a) = false).
  { apply ncname_no; [lia|]. apply parse_cases in Ha as [Ha|(b & r & Hb & _ & _ & _ & ->)].
    - apply Ha.
    - apply Hb. }
  assert (Hq : is_some_and (λ p, negb (has_char 46 p.1) || text_in p.1 available)
                 (split_once 58 (logical_path a)) = false).
  { apply is_some_and_false. intros [p q] Hpq. cbn [fst].
    pose proof (logical_path_colon raw a p q Ha Hpq) as Hd. rewrite Hd. cbn [negb orb].
    destruct (text_in p available) eqn:E; [|done]. exfalso.
    apply existsb_exists in E as (s & Hs & ->%text_is_true).
    rewrite List.Forall_forall in Hav. apply Hav in Hs. congruence. }
  split_and!.
  - intros Hdot. unfold resolve_input, display.
    rewrite (proj2 (split_once_Some 58 _ (source_set a) (logical_path a))) by done.
    cbn [is_some_and fst]. rewrite Hdot. cbn [negb orb]. exact Hp.
  - unfold resolve_input. by rewrite Hq.
  - intros ->. unfold resolve_input. rewrite Hq. exact Hp.
Qed.
Lemma resolve_input_printed_witness :
  let raw := str "main:Report.R.Template.S.Setting.V.Item.Итоги: по #1" in
  match parse raw with
  | Ok a => resolve_input (logical_path a) [str "main"] = Ok a
  | Err _ => False
  end.
Proof.
  intros raw. destruct (parse raw) as [a|e] eqn:E; [|by vm_compute in E].
  apply (resolve_input_printed raw a [str "main"] E); [by repeat constructor|].
  vm_compute in E. injection E as <-. reflexivity.
Defined.

(** ** Members of a branch *)

Lemma wf_name_branch owners segs :
  wf_from owners segs →
  ∀ pre k n, segs = pre ++ [mkSegment k None] → takes_name k = true → plain_kind k → name_ok n →
  name_refused k (owners ++ pre) n = false → wf_from owners (pre ++ [mkSegment k (Some n)]).
Proof.
  induction 1 as [owners|owners op Hop|owners n' Hn'|owners k' n' rest Ht' Hk' Hn' Hr' Hrest IH
    |owners k' Ht' Hk'|owners k' rest Ht' Hrest IH|owners k' op Ht' Hk' Hop Hq];
    intros [|s pre] k n E Ht Hk Hn Hr; cbn [app] in E; simplify_eq; rewrite ?app_nil_r in Hr;
    try congruence; try (by destruct pre); try (by destruct Hk).
  - cbn [app]. apply wf_named; try done. apply IH; try done. by rewrite <- app_assoc.
  - cbn [app]. apply wf_named; [done..|constructor].
  - cbn [app]. apply wf_nameless; [done|]. apply IH; try done. by rewrite <- app_assoc.
  - destruct pre as [|s' pre]; cbn [app] in *; simplify_eq. by destruct pre.
Qed.

(** The checks after the loop do not see the name of a plain branch. *)
Lemma finish_name_branch set_name pre k n a :
  takes_name k = true → plain_kind k →
  finish_address set_name (pre ++ [mkSegment k None]) = Ok a →
  finish_address set_name (pre ++ [mkSegment k (Some n)])
  = Ok (mkQualifiedAddress set_name (pre ++ [mkSegment k (Some n)]) None).
Proof.
  intros Ht [Hk1 Hk2] H.
  assert (Hroot : ∀ o, insert_root (pre ++ [mkSegment k o]) = pre ++ [mkSegment k o]).
  { intros o. destruct pre as [|s [|]]; [|done..]. cbn. unfold kind_is. cbn [s_kind].
    by rewrite bool_decide_eq_false_2. }
  assert (Hop : ∀ o, operation_query (mkQualifiedAddress set_name (pre ++ [mkSegment k o]) None) = None).
  { intros o. unfold operation_query, split_last. cbn [segments]. rewrite last_opt_snoc.
    unfold kind_is. cbn [s_kind]. by rewrite bool_decide_eq_false_2. }
  assert (Hcm : ∀ k', takes_name k' = false → ∀ o,
            existsb (kind_is k') (pre ++ [mkSegment k o]) = existsb (kind_is k') pre).
  { intros k' Hk' o. rewrite existsb_app. cbn. unfold kind_is at 2. cbn [s_kind].
    rewrite bool_decide_eq_false_2 by (intros ->; congruence). by rewrite !orb_false_r. }
  pose proof (finish_shapes _ _ _ H) as [Hc Hm]. apply finish_address_inv in H as [-> _].
  rewrite subject_segments in Hm. rewrite Hroot, Hop in *. cbn [segments] in *.
  unfold root_shape, metadata_shape in *. rewrite Hcm in Hc, Hm by done.
  unfold finish_address. rewrite Hroot, Hop. cbn [segments]. rewrite !Hcm by done.
  destruct (existsb (kind_is KConfiguration) pre).
  { destruct (Hc eq_refl) as [E|[op E]].
    - by destruct pre as [|s [|]]; cbn in E; simplify_eq.
    - by destruct pre as [|s [|s' [|]]]; cbn in E; simplify_eq. }
  rewrite andb_false_r. destruct (existsb (kind_is KMetadata) pre); [|done].
  exfalso. destruct (Hm eq_refl) as [[m E]|(k' & m & n' & _ & E)].
  - apply (f_equal last_opt) in E. rewrite last_opt_snoc in E. cbn in E. by simplify_eq.
  - apply (f_equal last_opt) in E. rewrite last_opt_snoc in E. cbn in E. by simplify_eq.
Qed.

Lemma join_snoc (sep : text) l (x : text) : l ≠ [] → join sep (l ++ [x]) = join sep l ++ sep ++ x.
Proof. intros H. by rewrite join_app. Qed.

Lemma render_name_branch pre k n :
  plain_kind k →
  render_segments (pre ++ [mkSegment k None]) ++ [46] ++ escape_name n
  = render_segments (pre ++ [mkSegment k (Some n)]).
Proof.
  intros [Hk _]. unfold render_segments. rewrite !bind_app. cbn [mbind list_bind].
  rewrite !app_nil_r. unfold render_segment at 2 4. cbn [s_kind s_name]. unfold kind_is.
  cbn [s_kind]. rewrite (bool_decide_eq_false_2 (k = KCan)) by done.
  change [as_str k; escape_name n] with ([as_str k] ++ [escape_name n]).
  rewrite (app_assoc _ [as_str k]), (join_snoc _ (_ ++ [as_str k])); [done|].
  by destruct (pre ≫= render_segment).
Qed.

(** [member] names an element of a collection: on an accepted address
    that ends in a branch without a name, an acceptable name, with its dots,
    [#] or colons where the kind allows free text, gives the address of that
    element and of nothing else. *)
Theorem member_names raw a pre k n :
  parse raw = Ok a → line_range a = None → segments a = pre ++ [mkSegment k None] →
  takes_name k = true → plain_kind k → name_ok n → name_refused k pre n = false →
  member a n = Ok (mkQualifiedAddress (source_set a) (pre ++ [mkSegment k (Some n)]) None).
Proof.
  intros Ha Hr Hs Ht Hk Hn Hf.
  apply parse_cases in Ha as [Ha|(b & r & _ & _ & _ & _ & ->)]; [|done].
  destruct Ha as [H1 H2 H3 H4]. unfold member, member_address, display, logical_path.
  rewrite Hr, Hs, app_nil_r, <- !app_assoc, render_name_branch by done.
  apply (parse_display_plain (mkQualifiedAddress (source_set a) (pre ++ [mkSegment k (Some n)]) None)).
  rewrite Hs in *. split; cbn [source_set segments].
  - done.
  - by destruct pre.
  - by eapply wf_name_branch.
  - by eapply finish_name_branch.
Qed.
Lemma member_names_witness :
  let a := mkQualifiedAddress (str "main")
             [mkSegment KReport (Some (str "R")); mkSegment KTemplate (Some (str "S"));
              mkSegment KSetting (Some (str "V")); mkSegment KItem None] None in
  member a (str "Итоги: №1.2 #3") =
    Ok (mkQualifiedAddress (str "main")
          [mkSegment KReport (Some (str "R")); mkSegment KTemplate (Some (str "S"));
           mkSegment KSetting (Some (str "V")); mkSegment KItem (Some (str "Итоги: №1.2 #3"))] None).
Proof.
  intros a. apply (member_names (str "main:Отчет.R.Макет.S.Setting.V.Item") a
    [mkSegment KReport (Some (str "R")); mkSegment KTemplate (Some (str "S"));
     mkSegment KSetting (Some (str "V"))] KItem).
  - vm_compute. reflexivity.
  - reflexivity.
  - reflexivity.
  - reflexivity.
  - by split.
  - by split.
  - vm_compute. reflexivity.
Defined.
