(* ===== verification/SourceTarget.v ===== *)
(** * Metadata addresses of a source profile

    [MetadataAddress], [MetadataAddressPrefix] and [AddressProfile] of
    [crates/unica-address/src/source_target.rs]: the logical identity of a
    metadata object or module, in canonical spelling. *)

From Stdlib Require Import ZArith Lia String.
From stdpp Require Import base list option numbers.
From S2P Require Import Prelude Redaction AddressKinds ModuleRoutes Address AddressFacts.

Local Open Scope Z_scope.

(** ** Data *)

Inductive TargetKind := SourceRoot | MetadataObject | TargetModule.
#[export] Instance TargetKind_eq_dec : EqDecision TargetKind.
Proof. solve_decision. Defined.

Inductive SourceTargetErrorCode :=
| TSourceSetRequired
| TSourceSetNotFound
| TSourceRootNotAddressable
| TMetadataAddressInvalid
| TMetadataAddressNotFound
| TTargetKindMismatch
| TAddressProfileUnsupported
| TContainmentDenied.

(** How a call of the profile ends without a value: an error of the source,
    or an [unreachable!] arm. *)
Inductive TargetFault := Refused (code : SourceTargetErrorCode) | Unreachable.

Definition invalid : TargetFault := Refused TMetadataAddressInvalid.

Definition PLATFORM_XML_8_3_27_FORMAT_2_20 : text := str "platform-xml-8.3.27-format-2.20".

(** ** Tables *)

Definition RECALCULATION_KIND_SPELLINGS : list text :=
  [str "Recalculation"; str "Recalculations"; str "Перерасчет"; str "Перерасчёт";
   str "Перерасчеты"; str "Перерасчёты"].

Definition MODULE_TERMINALS : list text :=
  [str "Module"; str "ObjectModule"; str "ManagerModule"; str "RecordSetModule";
   str "ValueManagerModule"; str "FormModule"; str "CommandModule";
   str "ManagedApplicationModule"; str "OrdinaryApplicationModule"; str "SessionModule";
   str "ExternalConnectionModule"].

Definition ROOT_MODULE_TERMINALS : list text :=
  [str "ManagedApplicationModule"; str "OrdinaryApplicationModule"; str "SessionModule";
   str "ExternalConnectionModule"].

Definition is_module_terminal (value : text) : bool := text_in value MODULE_TERMINALS.
Definition is_root_module_terminal (value : text) : bool := text_in value ROOT_MODULE_TERMINALS.

(** ** Kinds *)

(** The closures of the searches in the table. *)
Definition names_kind (raw : text) (k : AddressKind) : bool :=
  text_is (ak_canonical k) raw || text_in raw (ak_russian_aliases k).
Definition names_kind_or_collection (raw : text) (k : AddressKind) : bool :=
  text_is (ak_canonical k) raw || text_in raw (ak_russian_aliases k)
  || text_in raw (ak_collection_aliases k).

(** [canonical_kind]: collection aliases and unknown kinds are refused with
    the same code. *)
Definition canonical_kind (raw : text) : result text TargetFault :=
  match List.find (names_kind raw) ADDRESS_KINDS with
  | Some k => Ok (ak_canonical k)
  | None => Err invalid
  end.

Definition canonical_kind_or_collection (raw : text) : result text TargetFault :=
  match List.find (names_kind_or_collection raw) ADDRESS_KINDS with
  | Some k => Ok (ak_canonical k)
  | None => Err invalid
  end.

Definition metadata_address_kind_spellings (canonical : text) : option (list text) :=
  (λ k, ak_canonical k :: ak_russian_aliases k)
    <$> List.find (λ k, text_is (ak_canonical k) canonical) ADDRESS_KINDS.

Definition is_canonical_token_prefix (raw : text) : bool :=
  existsb (λ k, starts_with (ak_canonical k) raw) ADDRESS_KINDS
  || existsb (λ t, starts_with t raw) ROOT_MODULE_TERMINALS.

(** [is_alias_prefix] only chooses the message of an error. *)
Definition is_alias_prefix (raw : text) : bool :=
  existsb (λ k, existsb (λ a, starts_with a raw) (ak_russian_aliases k ++ ak_collection_aliases k))
    ADDRESS_KINDS.

Definition canonical_nested_kind (raw : text) : result text TargetFault :=
  let? canonical := canonical_kind_or_collection raw in
  if text_in canonical [str "Form"; str "Template"; str "Command"] then Ok canonical
  else Err invalid.

Definition canonical_nested_kind_for_owner (owner_kind raw : text) : result text TargetFault :=
  if text_is owner_kind (str "CalculationRegister") && text_in raw RECALCULATION_KIND_SPELLINGS
  then Ok (str "Recalculation")
  else canonical_nested_kind raw.

(** ** The profile *)

(** [AddressProfile::new]. *)
Definition profile_new (id : text) : result text TargetFault :=
  if text_is id PLATFORM_XML_8_3_27_FORMAT_2_20 then Ok PLATFORM_XML_8_3_27_FORMAT_2_20
  else Err (Refused TAddressProfileUnsupported).

Definition last_part (parts : list text) : text := default [] (last_opt parts).

(** [AddressProfile::parse] on the parts of the path: the canonical parts. *)
Definition profile_parts (parts : list text) : result (list text) TargetFault :=
  match parts with
  | [root] => if is_root_module_terminal root then Ok [root] else Err invalid
  | _ =>
      let len := length parts in
      if ((len =? 3)%nat || (len =? 5)%nat)
         && negb (is_module_terminal (last_part parts))
      then Err invalid
      else if negb ((2 <=? len)%nat && (len <=? 5)%nat) then Err invalid
      else match parts with
      | raw_kind :: name :: rest =>
          let? owner_kind := canonical_kind raw_kind in
          let? nested :=
            match rest with
            | raw_child :: child_name :: _ =>
                let? child_kind := canonical_nested_kind_for_owner owner_kind raw_child in
                if text_is child_kind (str "Recalculation") && negb (len =? 4)%nat
                then Err invalid
                else Ok [child_kind; child_name]
            | _ => Ok []
            end in
          let terminal := if Nat.odd len then [last_part parts] else [] in
          Ok ([owner_kind; name] ++ nested ++ terminal)
      | _ => Err Unreachable
      end
  end.
Definition profile_parse (raw : text) : result text TargetFault :=
  let parts := pieces raw in
  if existsb (λ p, text_is p []) parts then Err invalid
  else let? canonical := profile_parts parts in Ok (join [46] canonical).

(** [AddressProfile::parse_prefix]: the terminal below a nested kind. *)
Definition prefix_terminal (child_kind : text) : result text TargetFault :=
  if text_is child_kind (str "Form") then Ok (str "FormModule")
  else if text_is child_kind (str "Command") then Ok (str "CommandModule")
  else if text_is child_kind (str "Template") then Err invalid
  else Err Unreachable.

(** The parts after the owner. *)
Definition prefix_tail (owner_kind : text) (rest : list text) : result (list text) TargetFault :=
  match rest with
  | [] => Ok []
  | [transition] =>
      match canonical_nested_kind_for_owner owner_kind transition with
      | Ok child_kind => Ok [child_kind]
      | Err _ =>
          if existsb (λ t, starts_with t transition) MODULE_TERMINALS then Ok [transition]
          else Err invalid
      end
  | [raw_child; child_name] =>
      let? child_kind := canonical_nested_kind_for_owner owner_kind raw_child in
      Ok [child_kind; child_name]
  | [raw_child; child_name; terminal] =>
      let? child_kind := canonical_nested_kind_for_owner owner_kind raw_child in
      if text_is child_kind (str "Recalculation") then Err invalid
      else
        let? expected := prefix_terminal child_kind in
        if negb (starts_with expected terminal) then Err invalid
        else Ok [child_kind; child_name; terminal]
  | _ => Err Unreachable
  end.

Definition prefix_parts (parts : list text) : result (list text) TargetFault :=
  match parts with
  | [root] =>
      match canonical_kind_or_collection root with
      | Ok kind => Ok [kind]
      | Err _ =>
          if is_root_module_terminal root then Ok [root]
          else if is_canonical_token_prefix root then Ok [root]
          else Err invalid
      end
  | raw_kind :: name :: rest =>
      let? owner_kind := canonical_kind_or_collection raw_kind in
      let? tail := prefix_tail owner_kind rest in
      Ok ([owner_kind; name] ++ tail)
  | [] => Err Unreachable
  end.
Definition parse_prefix (raw : text) : result text TargetFault :=
  let parts := pieces raw in
  if existsb (λ p, text_is p []) parts then Err invalid
  else if (5 <? length parts)%nat then Err invalid
  else let? canonical := prefix_parts parts in Ok (join [46] canonical).

(** [MetadataAddress::parse], [MetadataAddressPrefix::parse] and
    [MetadataAddress::target_kind]. *)
Definition metadata_address_parse (profile raw : text) : result text TargetFault :=
  let? _ := profile_new profile in profile_parse raw.
Definition metadata_address_prefix_parse (profile raw : text) : result text TargetFault :=
  let? _ := profile_new profile in parse_prefix raw.
Definition target_kind (address : text) : TargetKind :=
  if Nat.odd (length (pieces address)) then TargetModule else MetadataObject.

(** ** Examples *)

Example nested_form_canonical :
  profile_parse (str "Справочник.Контрагенты.Формы.Списка.FormModule")
  = Ok (str "Catalog.Контрагенты.Form.Списка.FormModule").
Proof. vm_compute. reflexivity. Qed.
Example collection_refused : profile_parse (str "Catalogs.Items") = Err invalid.
Proof. vm_compute. reflexivity. Qed.
Example prefix_expanded : parse_prefix (str "Документы.Заказ.Fo") = Ok (str "Document.Заказ.Fo").
Proof. vm_compute. reflexivity. Qed.
Example recalculation_owner :
  profile_parse (str "РегистрРасчета.Р.Перерасчеты.П") = Ok (str "CalculationRegister.Р.Recalculation.П").
Proof. vm_compute. reflexivity. Qed.

(** ** Canonical kinds *)

(** A canonical spelling: a non-empty word without a dot. *)
Definition word (t : text) : Prop := t ≠ [] ∧ has_char 46 t = false.

Definition kind_found (f : text → AddressKind → bool) (a : AddressKind) : bool :=
  match List.find (f (ak_canonical a)) ADDRESS_KINDS with
  | Some b => text_is (ak_canonical b) (ak_canonical a)
  | None => false
  end.

Lemma kinds_found (f : text → AddressKind → bool) raw k :
  forallb (kind_found f) ADDRESS_KINDS = true → List.find (f raw) ADDRESS_KINDS = Some k →
  ∃ k', List.find (f (ak_canonical k)) ADDRESS_KINDS = Some k' ∧ ak_canonical k' = ak_canonical k.
Proof.
  rewrite forallb_forall. intros H [Hk%H _]%find_some. unfold kind_found in Hk.
  destruct (List.find _ _) as [k'|]; [|done]. exists k'. by apply text_is_true in Hk.
Qed.

Lemma kind_words a : In a ADDRESS_KINDS → word (ak_canonical a).
Proof.
  intros Ha.
  assert (H : forallb (λ a, negb (text_is (ak_canonical a) []) && negb (has_char 46 (ak_canonical a)))
                ADDRESS_KINDS = true) by (vm_compute; reflexivity).
  rewrite forallb_forall in H. apply H in Ha. bool_prop. split; [by apply text_is_false|done].
Qed.

Lemma canonical_kind_stable raw k : canonical_kind raw = Ok k → word k ∧ canonical_kind k = Ok k.
Proof.
  unfold canonical_kind. destruct (List.find _ ADDRESS_KINDS) as [a|] eqn:E; [|done]. intros [= <-].
  split; [apply find_some in E as [E _]; by apply kind_words|].
  apply (kinds_found names_kind) in E as (a' & -> & ->); [done|]. vm_compute. reflexivity.
Qed.

Lemma kind_or_collection_stable raw k :
  canonical_kind_or_collection raw = Ok k → word k ∧ canonical_kind_or_collection k = Ok k.
Proof.
  unfold canonical_kind_or_collection.
  destruct (List.find _ ADDRESS_KINDS) as [a|] eqn:E; [|done]. intros [= <-].
  split; [apply find_some in E as [E _]; by apply kind_words|].
  apply (kinds_found names_kind_or_collection) in E as (a' & -> & ->); [done|]. vm_compute. reflexivity.
Qed.

(** The nested kinds: three everywhere, a fourth below calculation registers. *)
Lemma nested_kind_cases owner raw k :
  canonical_nested_kind_for_owner owner raw = Ok k →
  k = str "Form" ∨ k = str "Template" ∨ k = str "Command"
  ∨ k = str "Recalculation" ∧ owner = str "CalculationRegister".
Proof.
  unfold canonical_nested_kind_for_owner. destruct (_ && _) eqn:E.
  - intros [= <-]. bool_prop. apply text_is_true in H. auto.
  - unfold canonical_nested_kind. destruct (canonical_kind_or_collection raw) as [c|]; [|done].
    destruct (text_in c _) eqn:E2; [|done]. intros [= <-]. clear E.
    unfold text_in in E2. cbn [existsb] in E2. rewrite !orb_true_iff in E2.
    destruct E2 as [E|[E|[E|E]]]; try done; apply text_is_true in E; auto.
Qed.

Lemma nested_kind_fixed owner k :
  k = str "Form" ∨ k = str "Template" ∨ k = str "Command" →
  canonical_nested_kind_for_owner owner k = Ok k.
Proof.
  intros Hk. unfold canonical_nested_kind_for_owner.
  assert (text_in k RECALCULATION_KIND_SPELLINGS = false) as ->
    by (destruct Hk as [->|[->| ->]]; vm_compute; reflexivity).
  rewrite andb_false_r. destruct Hk as [->|[->| ->]]; vm_compute; reflexivity.
Qed.

Lemma nested_kind_stable owner raw k :
  canonical_nested_kind_for_owner owner raw = Ok k →
  word k ∧ canonical_nested_kind_for_owner owner k = Ok k.
Proof.
  intros H%nested_kind_cases. split.
  - by destruct H as [->|[->|[->|[-> _]]]].
  - destruct H as [H|[H|[H|[-> ->]]]]; [by apply nested_kind_fixed; auto..|].
    vm_compute. reflexivity.
Qed.

(** ** Canonical addresses *)

(** The words a path splits into are words of the path. *)
Lemma pieces_words raw :
  existsb (λ p, text_is p []) (pieces raw) = false → Forall word (pieces raw).
Proof.
  pose proof (pieces_dotless_all raw) as Hd. intros He.
  induction Hd as [|p l Hp Hl IH]; [constructor|]. cbn [existsb] in He.
  apply orb_false_iff in He as [He1%text_is_false He2]. constructor; [by split|auto].
Qed.

Lemma pieces_join_words l : l ≠ [] → Forall word l → pieces (join [46] l) = l.
Proof.
  intros Hne Hl. apply pieces_join; [done|]. eapply Forall_impl; [|exact Hl]. by intros p [_ ?].
Qed.

Lemma words_nonempty l : Forall word l → existsb (λ p, text_is p []) l = false.
Proof.
  induction 1 as [|p l [Hp _] Hl IH]; [done|]. cbn. by rewrite (proj2 (text_is_false _ _)).
Qed.

Lemma terminal_word t : is_module_terminal t = true → word t.
Proof.
  intros (x & Hx & ->%text_is_true)%existsb_exists.
  assert (H : forallb (λ t, negb (text_is t []) && negb (has_char 46 t)) MODULE_TERMINALS = true)
    by (vm_compute; reflexivity).
  rewrite forallb_forall in H. apply H in Hx. bool_prop. split; [by apply text_is_false|done].
Qed.

(** What a canonicaliser of parts promises: the same number of words, which
    it leaves alone a second time. *)
Definition canonicalises (f : list text → result (list text) TargetFault) : Prop :=
  ∀ parts c, Forall word parts → f parts = Ok c →
    Forall word c ∧ length c = length parts ∧ f c = Ok c.

(** Note that the canonical kinds are words and stay fixed. *)
Ltac words :=
  repeat match goal with
  | H : Forall word (_ :: _) |- _ => apply Forall_cons_1 in H as [? ?]
  end;
  repeat match goal with
  | H : canonical_kind ?r = Ok ?k |- _ =>
      assert_fails (unify r k); apply canonical_kind_stable in H as [? ->]
  | H : canonical_kind_or_collection ?r = Ok ?k |- _ =>
      assert_fails (unify r k); apply kind_or_collection_stable in H as [? ->]
  | H : canonical_nested_kind_for_owner _ ?r = Ok ?k |- _ =>
      assert_fails (unify r k); apply nested_kind_stable in H as [? ->]
  end.

#[local] Opaque canonical_kind canonical_kind_or_collection canonical_nested_kind_for_owner
  is_module_terminal is_root_module_terminal is_canonical_token_prefix MODULE_TERMINALS str.

Ltac run_parts :=
  cbn [profile_parts prefix_parts prefix_tail length Nat.eqb Nat.leb Nat.ltb Nat.odd Nat.even
       andb orb negb last_part last_opt default app fmap].

Ltac all_words :=
  split_and!; [repeat first [assumption | apply Forall_nil_2 | apply Forall_cons_2]
              | reflexivity | try reflexivity].

Lemma profile_parts_canonical : canonicalises profile_parts.
Proof.
  intros parts c Hw.
  destruct parts as [|p1 [|p2 [|p3 [|p4 [|p5 [|p6 rest]]]]]]; run_parts.
  - discriminate.
  - destruct (is_root_module_terminal p1) eqn:E; [|discriminate]. intros [= <-]. run_parts.
    by rewrite E.
  - destruct (canonical_kind p1) as [k|] eqn:Ek; [|discriminate]. intros [= <-]. run_parts. words.
    all_words.
  - destruct (is_module_terminal _) eqn:Et; [|discriminate]. run_parts.
    destruct (canonical_kind p1) as [k|] eqn:Ek; [|discriminate]. intros [= <-]. run_parts. words.
    all_words. change (last_part _) with p3 in *. by rewrite Et.
  - destruct (canonical_kind p1) as [k|] eqn:Ek; [|discriminate].
    destruct (canonical_nested_kind_for_owner k p3) as [k'|] eqn:Ek'; [|discriminate].
    rewrite andb_false_r. intros [= <-]. run_parts. words. all_words. by rewrite andb_false_r.
  - destruct (is_module_terminal _) eqn:Et; [|discriminate]. run_parts.
    destruct (canonical_kind p1) as [k|] eqn:Ek; [|discriminate].
    destruct (canonical_nested_kind_for_owner k p3) as [k'|] eqn:Ek'; [|discriminate].
    destruct (text_is k' (str "Recalculation")) eqn:Er; [discriminate|]. run_parts.
    intros [= <-]. run_parts. words. all_words. change (last_part _) with p5 in *.
    by rewrite Et, Er.
  - discriminate.
Qed.

Lemma prefix_parts_canonical : canonicalises prefix_parts.
Proof.
  intros parts c Hw.
  destruct parts as [|p1 [|p2 [|p3 [|p4 [|p5 [|p6 rest]]]]]]; run_parts; try discriminate.
  - destruct (canonical_kind_or_collection p1) as [k|] eqn:Ek.
    + intros [= <-]. run_parts. words. all_words.
    + destruct (is_root_module_terminal p1) eqn:Er; [|destruct (is_canonical_token_prefix p1) eqn:Et;
        [|discriminate]]; intros [= <-]; run_parts; rewrite Ek, Er, ?Et; all_words.
  - destruct (canonical_kind_or_collection p1) as [k|] eqn:Ek; [|discriminate].
    intros [= <-]. run_parts. words. all_words.
  - destruct (canonical_kind_or_collection p1) as [k|] eqn:Ek; [|discriminate].
    destruct (canonical_nested_kind_for_owner k p3) as [k'|] eqn:Ek'.
    + intros [= <-]. run_parts. words. all_words.
    + destruct (existsb _ MODULE_TERMINALS) eqn:Et; [|discriminate]. intros [= <-]. run_parts.
      words. rewrite Ek', Et. all_words.
  - destruct (canonical_kind_or_collection p1) as [k|] eqn:Ek; [|discriminate].
    destruct (canonical_nested_kind_for_owner k p3) as [k'|] eqn:Ek'; [|discriminate].
    intros [= <-]. run_parts. words. all_words.
  - destruct (canonical_kind_or_collection p1) as [k|] eqn:Ek; [|discriminate].
    destruct (canonical_nested_kind_for_owner k p3) as [k'|] eqn:Ek'; [|discriminate].
    destruct (text_is k' (str "Recalculation")) eqn:Er; [discriminate|].
    destruct (prefix_terminal k') as [expected|] eqn:Ex; [|discriminate].
    destruct (negb (starts_with expected p5)) eqn:Es; [discriminate|].
    intros [= <-]. run_parts. words. rewrite Er, Ex, Es. all_words.
  - destruct (canonical_kind_or_collection p1); discriminate.
Qed.

Lemma prefix_terminal_reached owner raw k :
  canonical_nested_kind_for_owner owner raw = Ok k → text_is k (str "Recalculation") = false →
  prefix_terminal k ≠ Err Unreachable.
Proof.
  intros Hk Hr. apply nested_kind_cases in Hk as [->|[->|[->|[-> _]]]]; vm_compute; discriminate.
Qed.

Lemma nested_kind_fault owner raw e : canonical_nested_kind_for_owner owner raw = Err e → e = invalid.
Proof.
  with_strategy transparent [canonical_nested_kind_for_owner canonical_kind_or_collection]
    unfold canonical_nested_kind_for_owner, canonical_nested_kind, canonical_kind_or_collection.
  destruct (_ && _); [discriminate|]. destruct (List.find _ _); [|by intros [= <-]].
  destruct (text_in _ _); by intros [= <-].
Qed.
Lemma kind_fault raw e : canonical_kind raw = Err e → e = invalid.
Proof.
  with_strategy transparent [canonical_kind] unfold canonical_kind.
  destruct (List.find _ _); by intros [= <-].
Qed.
Lemma kind_or_collection_fault raw e : canonical_kind_or_collection raw = Err e → e = invalid.
Proof.
  with_strategy transparent [canonical_kind_or_collection] unfold canonical_kind_or_collection.
  destruct (List.find _ _); by intros [= <-].
Qed.

(** A canonicaliser of parts gives a canonicaliser of paths. *)
Lemma canonicalises_path f raw c :
  canonicalises f → existsb (λ p, text_is p []) (pieces raw) = false → f (pieces raw) = Ok c →
  pieces (join [46] c) = c ∧ existsb (λ p, text_is p []) c = false
  ∧ length c = length (pieces raw) ∧ f c = Ok c.
Proof.
  intros Hf Hw%pieces_words Hc. destruct (Hf _ _ Hw Hc) as (H1 & H2 & H3).
  split_and!; [|by apply words_nonempty|done|done]. apply pieces_join_words; [|done].
  intros ->. pose proof (pieces_nonempty raw). by destruct (pieces raw).
Qed.

(** A metadata address has one canonical spelling: what
    [AddressProfile::parse] yields from any accepted spelling is accepted
    again and left as it is, with the same number of segments, hence the same
    kind of target (object or module). *)
Theorem metadata_address_canonical raw c :
  profile_parse raw = Ok c →
  profile_parse c = Ok c ∧ length (pieces c) = length (pieces raw)
  ∧ target_kind c = target_kind raw.
Proof.
  unfold profile_parse, target_kind. destruct (existsb _ (pieces raw)) eqn:He; [discriminate|].
  destruct (profile_parts (pieces raw)) as [l|] eqn:El; [|discriminate]. intros [= <-].
  destruct (canonicalises_path _ _ _ profile_parts_canonical He El) as (H1 & H2 & H3 & H4).
  rewrite H1, H2, H3, H4. done.
Qed.
Lemma metadata_address_canonical_witness :
  let c := str "CalculationRegister.Р.Recalculation.П" in
  profile_parse (str "РегистрРасчета.Р.Перерасчеты.П") = Ok c ∧ profile_parse c = Ok c.
Proof.
  split; [vm_compute; reflexivity|].
  refine (proj1 (metadata_address_canonical (str "РегистрРасчета.Р.Перерасчеты.П") _ _)).
  vm_compute. reflexivity.
Defined.

(** Prefixes are canonical in the same sense. *)
Theorem metadata_prefix_canonical raw c :
  parse_prefix raw = Ok c → parse_prefix c = Ok c ∧ length (pieces c) = length (pieces raw).
Proof.
  unfold parse_prefix. destruct (existsb _ (pieces raw)) eqn:He; [discriminate|].
  destruct (5 <? length (pieces raw))%nat eqn:Hl; [discriminate|].
  destruct (prefix_parts (pieces raw)) as [l|] eqn:El; [|discriminate]. intros [= <-].
  destruct (canonicalises_path _ _ _ prefix_parts_canonical He El) as (H1 & H2 & H3 & H4).
  rewrite H1, H2, H3, Hl, H4. done.
Qed.

(** ** Errors *)

Lemma prefix_parts_reached parts :
  parts ≠ [] → (length parts ≤ 5)%nat → prefix_parts parts ≠ Err Unreachable.
Proof.
  intros Hne Hl. destruct parts as [|p1 [|p2 rest]]; [done| |]; run_parts.
  - destruct (canonical_kind_or_collection p1); [discriminate|].
    destruct (is_root_module_terminal p1), (is_canonical_token_prefix p1); discriminate.
  - destruct (canonical_kind_or_collection p1) as [k|] eqn:Ek;
      [|apply kind_or_collection_fault in Ek as ->; discriminate].
    assert (prefix_tail k rest ≠ Err Unreachable) as Ht; [|by destruct (prefix_tail k rest); congruence].
    destruct rest as [|p3 [|p4 [|p5 [|p6 rest]]]]; cbn [length] in Hl; try lia; run_parts;
      try discriminate; destruct (canonical_nested_kind_for_owner k p3) as [k'|e] eqn:Ek';
      try (apply nested_kind_fault in Ek' as ->); try discriminate.
    + destruct (existsb _ _); discriminate.
    + destruct (text_is k' _) eqn:Er; [discriminate|].
      pose proof (prefix_terminal_reached k p3 k' Ek' Er).
      destruct (prefix_terminal k') as [t|]; [|congruence]. destruct (negb _); discriminate.
Qed.

(** No input reaches an [unreachable!] arm of the profile: every refusal
    of an address is [MetadataAddressInvalid], and a prefix is parsed or
    refused without reaching the arm. *)
Theorem profile_never_unreachable raw :
  (∀ e, profile_parse raw = Err e → e = invalid)
  ∧ parse_prefix raw ≠ Err Unreachable.
Proof.
  split.
  - intros e. unfold profile_parse. destruct (existsb _ (pieces raw)); [by intros [= <-]|].
    destruct (profile_parts (pieces raw)) as [l|e'] eqn:El; [discriminate|]. intros [= <-]. revert El.
    pose proof (pieces_nonempty raw).
    destruct (pieces raw) as [|p1 [|p2 rest]]; [done| |].
    + run_parts. destruct (is_root_module_terminal p1); [discriminate|]. by intros [= <-].
    + unfold profile_parts. destruct (_ && negb _); [by intros [= <-]|].
      destruct (negb _); [by intros [= <-]|].
      destruct (canonical_kind p1) as [k|] eqn:Ek; [|intros [= <-]; by eapply kind_fault].
      destruct rest as [|p3 [|p4 rest]]; [discriminate..|].
      destruct (canonical_nested_kind_for_owner k p3) as [k'|] eqn:Ek';
        [|intros [= <-]; by eapply nested_kind_fault].
      destruct (_ && negb _); [by intros [= <-]|discriminate].
  - unfold parse_prefix. destruct (existsb _ (pieces raw)); [discriminate|].
    destruct (5 <? length (pieces raw))%nat eqn:Hl; [discriminate|]. apply Nat.ltb_ge in Hl.
    pose proof (prefix_parts_reached _ (pieces_nonempty raw) Hl).
    destruct (prefix_parts (pieces raw)); congruence.
Qed.
