(* ===== verification/ReceiptLedger.v ===== *)
(** * Receipts: data

    [crates/unica-execution/src/receipt_ledger.rs]: receipt keys and their
    digests, original cutoffs, task projections and links, transfer
    certificates and the twelve states of a receipt, each with the checks of
    its constructor.

    A digest is its text of 64 hexadecimal digits, an identity a [Uuid]; a
    [u64] is a [Z].  SHA-256 and the printing of a [Uuid] are third-party
    code: fields of [ReceiptCodec], with the documented facts in
    [ReceiptCodecLaws].  [Corrupt] and [Storage] errors carry a message for
    people that is left out.  Last, what equal digests say of keys. *)

From Stdlib Require Import ZArith Lia String.
From stdpp Require Import base gmap list option numbers countable strings.
From S2P Require Import Prelude Contract ResultSize Redaction.

Local Open Scope Z_scope.

(** ** Constants *)

Definition MAX_REQUEST_SCOPE_BYTES : Z := 16 * 1024.
Definition MAX_TASK_LIFECYCLE_LINK_RECORD_BYTES : Z := 1024.
Definition MAX_ORIGINAL_RESPONSE_BUDGET_MS : Z := 7000.
Definition MAX_RECEIPT_ENTITLEMENT_BYTES : Z :=
  MAX_CANONICAL_RESULT_BYTES + MAX_TASK_RECORD_ENVELOPE_BYTES.
Definition DIRECT_TERMINAL_RETENTION_MS : Z := 3600000.
Definition LEGACY_CANCEL_RESERVATION_TTL_MS : Z := 7125.
Definition ACKNOWLEDGED_TOMBSTONE_TTL_MS : Z := 900000.
Definition MAX_ACKNOWLEDGED_TOMBSTONE_BYTES : Z := 512.

(** ** Digests *)

Notation digest := text (only parsing).

Definition is_normalized_sha256 (encoded : text) : bool :=
  (length encoded =? 64)%nat && forallb (λ b, in_range 48 57 b || in_range 97 102 b) encoded.

Definition hex_digit (n : Z) : Z := if n <? 10 then 48 + n else 87 + n.
Definition encode_sha256 (bs : list Z) : text :=
  bs ≫= λ b, [hex_digit (b / 16); hex_digit (b mod 16)].

(** [<Digest as FromStr>::from_str]. *)
Definition digest_from_str (encoded : text) : option text :=
  if is_normalized_sha256 encoded then Some encoded else None.

Definition REQUEST_SCOPE_DOMAIN : list Z := lit "unica.request-scope.v1" ++ [0].
Definition RECEIPT_KEY_DOMAIN : list Z := lit "unica.receipt-key.v1" ++ [0].
Definition TASK_LINK_DOMAIN : list Z := lit "unica.task-link.v1" ++ [0].
Definition TERMINAL_OUTCOME_DOMAIN : list Z := lit "unica.terminal-outcome.v1" ++ [0].

(** [u32::to_be_bytes]. *)
Definition be_bytes32 (n : Z) : list Z :=
  [n / 16777216 mod 256; n / 65536 mod 256; n / 256 mod 256; n mod 256].
(** [update_framed]: the length of a component, then its bytes. *)
Definition framed (component : list Z) : list Z :=
  be_bytes32 (Z.of_nat (length component)) ++ component.

(** A JSON literal of the source, written with apostrophes for its quotes. *)
Definition json_lit (s : string) : list Z := (λ c, if c =? 39 then 34 else c) <$> lit s.

(** ** Errors *)

Inductive ReceiptLedgerError :=
| AlreadyOwned
| DeadlineExceeded
| InvocationIdentityMismatch
| ReservedTaskIdentityMismatch
| TaskBoundMismatch
| TaskCancellationMismatch
| ReceiptVersionMismatch (expected actual : Z)
| ReceiptMutationSequenceMismatch (expected actual : Z)
| TerminalMismatch
| ReceiptDigestCollision
| ReceiptNotFound
| CapacityExceeded
| TombstoneCapacityExceeded
| RecordTooLarge
| TimestampOverflow
| StoreUnavailable
| CommitUncertain (receipt_key_digest : digest)
| ConcurrentGenerationChange (generation_before generation_after : Z)
| Corrupt
| EmptyBatch
| ReceiptRowPresentUnsupported
| LedgerStorage.
#[export] Instance ReceiptLedgerError_eq_dec : EqDecision ReceiptLedgerError.
Proof. solve_decision. Defined.

Definition requires_reopen (e : ReceiptLedgerError) : bool :=
  match e with
  | StoreUnavailable | CommitUncertain _ | ConcurrentGenerationChange _ _
  | ReceiptDigestCollision | Corrupt | LedgerStorage => true
  | _ => false
  end.

(** ** Keys *)

Inductive V5ToolIdentity := TView | TApply | TResolve | TSearch | TCheck | TDiff | TRun | TDocs.
#[export] Instance V5ToolIdentity_eq_dec : EqDecision V5ToolIdentity.
Proof. solve_decision. Defined.

(** [V5ToolIdentity::ALL]. *)
Definition all_tools : list V5ToolIdentity :=
  [TView; TApply; TResolve; TSearch; TCheck; TDiff; TRun; TDocs].
Definition wire_name (t : V5ToolIdentity) : text :=
  match t with
  | TView => lit "unica.view"
  | TApply => lit "unica.apply"
  | TResolve => lit "unica.resolve"
  | TSearch => lit "unica.search"
  | TCheck => lit "unica.check"
  | TDiff => lit "unica.diff"
  | TRun => lit "unica.run"
  | TDocs => lit "unica.docs"
  end.
Definition from_wire_name (name : text) : option V5ToolIdentity :=
  List.find (λ t, bool_decide (wire_name t = name)) all_tools.

Record ReceiptKey := mkReceiptKey {
  rk_invocation_id : InvocationId;
  rk_reserved_task_id : TaskId;
  rk_core_identity_digest : digest;
  rk_tool : V5ToolIdentity;
  rk_normalized_arguments_hash : digest;
  rk_request_scope_hash : digest;
}.
#[export] Instance ReceiptKey_eq_dec : EqDecision ReceiptKey.
Proof. solve_decision. Defined.

Record RequestIdentity := mkRequestIdentity {
  ri_core_identity_digest : digest;
  ri_tool : V5ToolIdentity;
  ri_normalized_arguments_hash : digest;
  ri_request_scope_hash : digest;
}.
Definition request_identity (k : ReceiptKey) : RequestIdentity :=
  mkRequestIdentity (rk_core_identity_digest k) (rk_tool k) (rk_normalized_arguments_hash k)
    (rk_request_scope_hash k).

Record TaskLinkIdentity := mkTaskLinkIdentity {
  tl_receipt_key_digest : digest;
  tl_task_id : TaskId;
  tl_invocation_id : InvocationId;
  tl_workspace_identity_hash : digest;
}.
#[export] Instance TaskLinkIdentity_eq_dec : EqDecision TaskLinkIdentity.
Proof. solve_decision. Defined.

(** ** Third-party code *)

Class ReceiptCodec := {
  json_value : Type;
  (** [serde_json::Value] has decidable equality. *)
  json_eq_dec :: EqDecision json_value;
  sha256_bytes : list Z → list Z;
  uuid_to_string : N → text;
  (** [serde_json::to_vec] of a [DomainResult]. *)
  result_to_vec : DomainResult json_value → option (list Z);
  (** The [DomainResult] that [serde_json::from_slice] of a row reads where
      these bytes stand for the result, in the row that nests it deepest. *)
  result_from_slice : list Z → option (DomainResult json_value);
}.

(** A digest has 32 bytes; the text of a [Uuid] is its 36 characters. *)
Class ReceiptCodecLaws (C : ReceiptCodec) : Prop := {
  sha256_bytes_length : ∀ m, length (sha256_bytes m) = 32%nat;
  sha256_bytes_range : ∀ m, Forall (λ b, 0 ≤ b < 256) (sha256_bytes m);
  uuid_text_length : ∀ u, length (uuid_to_string u) = 36%nat;
  uuid_text_inj : ∀ u v, uuid_to_string u = uuid_to_string v → u = v;
}.

(** ** Terminal outcomes *)

Inductive V5SafeFailureReason :=
| FInvocationFailed | FResultTooLarge | FInterrupted | FResumeUnsupported | FPersistenceFailed
| FOutcomeUncertain | FTaskCapacity | FWorkspaceCapacity | FWorkspaceRegistryFailed
| FWorkspaceChanged.
Definition reason_wire_name (r : V5SafeFailureReason) : text :=
  match r with
  | FInvocationFailed => lit "invocation_failed"
  | FResultTooLarge => lit "result_too_large"
  | FInterrupted => lit "interrupted"
  | FResumeUnsupported => lit "resume_unsupported"
  | FPersistenceFailed => lit "persistence_failed"
  | FOutcomeUncertain => lit "outcome_uncertain"
  | FTaskCapacity => lit "task_capacity"
  | FWorkspaceCapacity => lit "workspace_capacity"
  | FWorkspaceRegistryFailed => lit "workspace_registry_failed"
  | FWorkspaceChanged => lit "workspace_changed"
  end.

Inductive ReceiptTerminalOutcome (V : Type) :=
| RCompleted (result : DomainResult V)
| RFailed (reason : V5SafeFailureReason)
| RCancelled.
Arguments RCompleted {V}.
Arguments RFailed {V}.
Arguments RCancelled {V}.

#[export] Instance SourceTextReadHint_eq_dec : EqDecision SourceTextReadHint.
Proof. solve_decision. Defined.
#[export] Instance DomainResult_eq_dec {V} `{EqDecision V} : EqDecision (DomainResult V).
Proof. solve_decision. Defined.
#[export] Instance V5SafeFailureReason_eq_dec : EqDecision V5SafeFailureReason.
Proof. solve_decision. Defined.
#[export] Instance ReceiptTerminalOutcome_eq_dec {V} `{EqDecision V} :
  EqDecision (ReceiptTerminalOutcome V).
Proof. solve_decision. Defined.

Inductive CanonicalTerminalError := TerminalTooLarge | TerminalSerialization.

(** [V5CanonicalTerminal]: an outcome with its canonical payload and digest. *)
Record V5CanonicalTerminal (V : Type) := mkTerminal {
  ct_outcome : ReceiptTerminalOutcome V;
  ct_payload : list Z;
  ct_digest : digest;
}.
Arguments mkTerminal {V}.
Arguments ct_outcome {V}.
Arguments ct_payload {V}.
Arguments ct_digest {V}.
#[export] Instance V5CanonicalTerminal_eq_dec {V} `{EqDecision V} :
  EqDecision (V5CanonicalTerminal V).
Proof. solve_decision. Defined.

(** ** Cutoffs, versions, tasks and links *)

Record OriginalCutoffDescriptor := mkCutoff {
  accepted_epoch_ms : Z;
  response_budget_ms : Z;
}.
#[export] Instance OriginalCutoffDescriptor_eq_dec : EqDecision OriginalCutoffDescriptor.
Proof. solve_decision. Defined.

Inductive OriginalCutoffDescriptorError := ResponseBudgetTooLarge | EpochBudgetOverflow.

Definition cutoff_new (accepted budget : Z)
  : result OriginalCutoffDescriptor OriginalCutoffDescriptorError :=
  if MAX_ORIGINAL_RESPONSE_BUDGET_MS <? budget then Err ResponseBudgetTooLarge
  else match u64_checked_add accepted budget with
       | None => Err EpochBudgetOverflow
       | Some _ => Ok (mkCutoff accepted budget)
       end.

(** [ReceiptVersion]: a non-zero [u64]. *)
Definition version_initial : Z := 1.
Definition version_new (v : Z) : option Z := if v =? 0 then None else Some v.
Definition checked_next (v : Z) : option Z := u64_checked_add v 1 ≫= version_new.
Definition checked_previous (v : Z) : option Z := if v <? 1 then None else version_new (v - 1).

Inductive AttemptPhase := NotBegun | AttemptBegun.
#[export] Instance AttemptPhase_eq_dec : EqDecision AttemptPhase.
Proof. solve_decision. Defined.

Record ReceiptTaskProjection := mkProjection {
  tp_task_id : TaskId;
  tp_invocation_id : InvocationId;
  tp_created_at : Z;
  tp_updated_at : Z;
  tp_ttl_ms : Z;
  tp_poll_interval_ms : Z;
  tp_version : Z;
}.
#[export] Instance ReceiptTaskProjection_eq_dec : EqDecision ReceiptTaskProjection.
Proof. solve_decision. Defined.

Definition projection_new (t : ReceiptTaskProjection)
  : result ReceiptTaskProjection ReceiptLedgerError :=
  if tp_updated_at t <? tp_created_at t then Err Corrupt
  else if (tp_ttl_ms t =? 0) || (tp_poll_interval_ms t =? 0) || (tp_version t =? 0)
  then Err Corrupt
  else Ok t.

Record TaskLinkReference := mkLink { link_identity : TaskLinkIdentity; link_digest : digest }.
#[export] Instance TaskLinkReference_eq_dec : EqDecision TaskLinkReference.
Proof. solve_decision. Defined.

(** Evidence that the capacity for Task links is exhausted. *)
Inductive ProvenTaskLinkCapacity :=
| CapacityCount (observed_live_links maximum_live_links : Z)
| CapacityBytes (required_link_bytes available_link_bytes : Z).
#[export] Instance ProvenTaskLinkCapacity_eq_dec : EqDecision ProvenTaskLinkCapacity.
Proof. solve_decision. Defined.

Inductive ClosedTerminalStatus := ClosedCompleted | ClosedFailed | ClosedCancelled.

Section WithCodec.
Context {C : ReceiptCodec}.

Notation Outcome := (ReceiptTerminalOutcome json_value).
Notation Terminal := (V5CanonicalTerminal json_value).

Definition invocation_text (i : InvocationId) : text :=
  match i with mkInvocationId u => uuid_to_string u end.
Definition task_text (t : TaskId) : text := match t with mkTaskId u => uuid_to_string u end.

(** What [receipt_key_digest] hashes: the domain and the framed components. *)
Definition receipt_key_components (k : ReceiptKey) : list (list Z) :=
  [invocation_text (rk_invocation_id k); task_text (rk_reserved_task_id k);
   rk_core_identity_digest k; wire_name (rk_tool k); rk_normalized_arguments_hash k;
   rk_request_scope_hash k].
Definition receipt_key_digest (k : ReceiptKey) : digest :=
  encode_sha256 (sha256_bytes (RECEIPT_KEY_DOMAIN ++ concat (framed <$> receipt_key_components k))).

Definition task_link_components (i : TaskLinkIdentity) : list (list Z) :=
  [tl_receipt_key_digest i; task_text (tl_task_id i); invocation_text (tl_invocation_id i);
   tl_workspace_identity_hash i].
Definition task_link_digest (i : TaskLinkIdentity) : digest :=
  encode_sha256 (sha256_bytes (TASK_LINK_DOMAIN ++ concat (framed <$> task_link_components i))).

(** [TaskLinkReference::new]. *)
Definition link_new (key_digest : digest) (task : TaskId) (invocation : InvocationId)
    (workspace : digest) : TaskLinkReference :=
  let i := mkTaskLinkIdentity key_digest task invocation workspace in mkLink i (task_link_digest i).

(** [canonical_v5_terminal_from_shared]. *)
Definition terminal_payload (o : Outcome) : result (list Z) CanonicalTerminalError :=
  match o with
  | RCompleted r =>
      match result_to_vec r with
      | None => Err TerminalSerialization
      | Some bs =>
          if MAX_CANONICAL_RESULT_BYTES <? Z.of_nat (length bs) then Err TerminalTooLarge
          else Ok (json_lit "{'status':'completed','result':" ++ bs ++ json_lit "}")
      end
  | RFailed reason =>
      Ok (json_lit "{'status':'failed','reason':'" ++ reason_wire_name reason ++ json_lit "'}")
  | RCancelled => Ok (json_lit "{'status':'cancelled'}")
  end.
Definition canonical_terminal (o : Outcome) : result Terminal CanonicalTerminalError :=
  let? payload := terminal_payload o in
  Ok (mkTerminal o payload
        (encode_sha256 (sha256_bytes (TERMINAL_OUTCOME_DOMAIN ++ framed payload)))).

(** [restore_canonical_terminal] of [terminal_codec.rs]. *)
Definition restore_canonical_terminal (o : Outcome) (expected : digest)
  : result Terminal ReceiptLedgerError :=
  match canonical_terminal o with
  | Err _ => Err Corrupt
  | Ok t => if bool_decide (ct_digest t = expected) then Ok t else Err Corrupt
  end.
End WithCodec.

(** ** Receipt keys: theorems *)

(** ** Framing *)

Lemma be_bytes32_inj a b :
  0 ≤ a < 4294967296 → 0 ≤ b < 4294967296 → be_bytes32 a = be_bytes32 b → a = b.
Proof.
  intros Ha Hb [= H1 H2 H3 H4].
  assert (∀ n, 0 ≤ n < 4294967296 →
    n = 16777216 * (n / 16777216 mod 256) + 65536 * (n / 65536 mod 256)
        + 256 * (n / 256 mod 256) + n mod 256) as Hsplit.
  { intros n Hn. replace 16777216 with (256 * 256 * 256) by lia.
    replace 65536 with (256 * 256) by lia. rewrite <-!Z.div_div by lia.
    set (q1 := n / 256). set (q2 := q1 / 256). set (q3 := q2 / 256).
    assert (n = 256 * q1 + n mod 256) by (unfold q1; apply Z.div_mod; lia).
    assert (q1 = 256 * q2 + q1 mod 256) by (unfold q2; apply Z.div_mod; lia).
    assert (q2 = 256 * q3 + q2 mod 256) by (unfold q3; apply Z.div_mod; lia).
    assert (0 ≤ q3 < 256) as Hq3.
    { pose proof (Z.mod_pos_bound n 256). pose proof (Z.mod_pos_bound q1 256).
      pose proof (Z.mod_pos_bound q2 256). lia. }
    rewrite (Z.mod_small q3 256) by lia. lia. }
  rewrite (Hsplit a Ha), (Hsplit b Hb). congruence.
Qed.

(** A component that is short enough for its length to be written. *)
Definition frames (component : list Z) : Prop := Z.of_nat (length component) < 4294967296.

Lemma framed_app_inj a b x y :
  frames a → frames b → framed a ++ x = framed b ++ y → a = b ∧ x = y.
Proof.
  unfold frames. intros Ha Hb Heq. unfold framed in Heq. rewrite <-!(assoc_L (++)) in Heq.
  apply app_inj_1 in Heq as [Hlen Heq]; [|done].
  apply be_bytes32_inj in Hlen; [|lia..]. by apply app_inj_1 in Heq; [|lia].
Qed.
Lemma framed_concat_inj xs ys :
  Forall frames xs → Forall frames ys → length xs = length ys →
  concat (framed <$> xs) = concat (framed <$> ys) → xs = ys.
Proof.
  revert ys. induction xs as [|x xs IH]; intros [|y ys] Hx Hy Hlen Heq; try done.
  apply Forall_cons_1 in Hx as [Hx Hxs]. apply Forall_cons_1 in Hy as [Hy Hys].
  cbn [fmap list_fmap concat] in Heq. apply framed_app_inj in Heq as [-> Heq]; [|done..].
  f_equal. apply IH; auto.
Qed.

(** ** Hexadecimal text *)

Lemma hex_digit_inj a b : 0 ≤ a < 16 → 0 ≤ b < 16 → hex_digit a = hex_digit b → a = b.
Proof. unfold hex_digit. intros. destruct (Z.ltb_spec a 10), (Z.ltb_spec b 10); lia. Qed.
Lemma encode_sha256_inj xs ys :
  Forall (λ b, 0 ≤ b < 256) xs → Forall (λ b, 0 ≤ b < 256) ys →
  encode_sha256 xs = encode_sha256 ys → xs = ys.
Proof.
  revert ys. induction xs as [|x xs IH]; intros [|y ys] Hx Hy Heq; try done.
  apply Forall_cons_1 in Hx as [Hx Hxs]. apply Forall_cons_1 in Hy as [Hy Hys].
  unfold encode_sha256 in Heq. cbn in Heq. injection Heq as H1 H2 Heq.
  pose proof (Z.mod_pos_bound x 16). pose proof (Z.mod_pos_bound y 16).
  apply hex_digit_inj in H1; [|split; [apply Z.div_pos; lia|apply Z.div_lt_upper_bound; lia]..].
  apply hex_digit_inj in H2; [|lia..].
  f_equal; [|by apply IH]. rewrite (Z.div_mod x 16), (Z.div_mod y 16) by lia. congruence.
Qed.

(** ** Keys *)

Section Keys.
Context {C : ReceiptCodec} {CL : ReceiptCodecLaws C}.

Definition sha256_collision : Prop := ∃ a b, a ≠ b ∧ sha256_bytes a = sha256_bytes b.
(** The digests inside a key are digests. *)
Definition key_wf (k : ReceiptKey) : Prop :=
  is_normalized_sha256 (rk_core_identity_digest k) = true
  ∧ is_normalized_sha256 (rk_normalized_arguments_hash k) = true
  ∧ is_normalized_sha256 (rk_request_scope_hash k) = true.

Lemma normalized_frames d : is_normalized_sha256 d = true → frames d.
Proof.
  unfold is_normalized_sha256, frames. intros [H _]%andb_true_iff. apply Nat.eqb_eq in H. lia.
Qed.
Lemma wire_name_inj a b : wire_name a = wire_name b → a = b.
Proof. by destruct a, b. Qed.
Lemma components_frame k : key_wf k → Forall frames (receipt_key_components k).
Proof.
  intros (H1 & H2 & H3). unfold receipt_key_components.
  repeat apply Forall_cons_2; auto using normalized_frames, Forall_nil_2.
  - unfold frames, invocation_text. destruct (rk_invocation_id k). rewrite uuid_text_length. lia.
  - unfold frames, task_text. destruct (rk_reserved_task_id k). rewrite uuid_text_length. lia.
  - unfold frames. by destruct (rk_tool k).
Qed.
Lemma components_inj k1 k2 :
  receipt_key_components k1 = receipt_key_components k2 → k1 = k2.
Proof.
  destruct k1 as [[i1] [t1] c1 tool1 a1 s1], k2 as [[i2] [t2] c2 tool2 a2 s2].
  unfold receipt_key_components. cbn. intros H. injection H as H1 H2 H3 H4 H5 H6.
  apply uuid_text_inj in H1, H2. apply wire_name_inj in H4. by subst.
Qed.

(** Two keys with the same digest are the same key, or exhibit a collision of
    SHA-256: the store's [ReceiptDigestCollision] has no other cause. *)
Theorem equal_digests_equal_keys k1 k2 :
  key_wf k1 → key_wf k2 → receipt_key_digest k1 = receipt_key_digest k2 →
  k1 = k2 ∨ sha256_collision.
Proof.
  intros Hk1 Hk2 Heq. unfold receipt_key_digest in Heq.
  apply encode_sha256_inj in Heq; [|apply sha256_bytes_range..].
  destruct (decide (k1 = k2)) as [|Hne]; [by left|right].
  eexists _, _. split; [|exact Heq]. intros Happ. apply Hne, components_inj.
  apply (app_inv_head RECEIPT_KEY_DOMAIN) in Happ.
  by apply framed_concat_inj in Happ; auto using components_frame.
Qed.
End Keys.
