(* ===== verification/ReceiptStates.v ===== *)
(** * Receipt states

    The twelve states of a receipt ([ReceiptState] of
    [crates/unica-execution/src/receipt_ledger.rs]): record headers, transfer
    certificates and the body of every state, each with the checks of its
    constructor; task cancellation receipts and when one is the exact
    successor of another.

    A constructor of the source that always returns [Ok] is the record
    constructor itself. *)

From Stdlib Require Import ZArith Lia String.
From stdpp Require Import base gmap list option numbers countable strings.
From S2P Require Import Prelude Contract ResultSize Redaction ReceiptLedger.

Local Open Scope Z_scope.

(** ** Headers *)

Inductive ReservedPhase :=
| Unbound
| ActorBound (bound_workspace_identity : digest)
| Begun (bound_workspace_identity : digest).
#[export] Instance ReservedPhase_eq_dec : EqDecision ReservedPhase.
Proof. solve_decision. Defined.

Record ReceiptRecordHeader := mkHeader {
  rh_key : ReceiptKey;
  rh_key_digest : digest;
  rh_record_version : Z;
  rh_mutation_sequence : Z;
  rh_encoded_bytes : Z;
}.
#[export] Instance ReceiptRecordHeader_eq_dec : EqDecision ReceiptRecordHeader.
Proof. solve_decision. Defined.

Record LifecycleLinkRecordHeader := mkLinkHeader {
  lh_key : ReceiptKey;
  lh_key_digest : digest;
  lh_link : TaskLinkReference;
  lh_lifecycle_link_version : Z;
  lh_mutation_sequence : Z;
  lh_encoded_bytes : Z;
}.
#[export] Instance LifecycleLinkRecordHeader_eq_dec : EqDecision LifecycleLinkRecordHeader.
Proof. solve_decision. Defined.

Record RetainedDualIdAccounting := mkDualId {
  invocation_index_bytes : Z;
  reserved_task_index_bytes : Z;
}.
Definition dual_id_new (invocation reserved : Z)
  : result RetainedDualIdAccounting ReceiptLedgerError :=
  if (invocation =? 0) || (reserved =? 0) then Err Corrupt else Ok (mkDualId invocation reserved).

(** ** Transfer certificates *)

Inductive ProvisionalTaskStatus := PQueued | PWorking.
#[export] Instance ProvisionalTaskStatus_eq_dec : EqDecision ProvisionalTaskStatus.
Proof. solve_decision. Defined.

Inductive StagedTaskPublicationCase :=
| CaseAbsent (final_task_record_max_bytes task_response_frame_max_bytes : Z)
| CaseExactProvisional (status : ProvisionalTaskStatus) (version : Z) (cancel_requested : bool)
    (final_task_record_max_bytes task_response_frame_max_bytes : Z).
#[export] Instance StagedTaskPublicationCase_eq_dec : EqDecision StagedTaskPublicationCase.
Proof. solve_decision. Defined.

Inductive StagedTerminalTransferCertificateError :=
  InvalidTaskPublicationCases | TaskTerminalBoundLinkRecordTooLarge.

(** [StagedTaskPublicationCases::new] on an array of five cases. *)
Definition publication_cases_new (cases : list StagedTaskPublicationCase)
  : result (list StagedTaskPublicationCase) StagedTerminalTransferCertificateError :=
  match cases with
  | [CaseAbsent _ _; CaseExactProvisional PQueued v1 false _ _;
     CaseExactProvisional PQueued v2 true _ _; CaseExactProvisional PWorking v3 false _ _;
     CaseExactProvisional PWorking v4 true _ _] =>
      if forallb (Z.eqb u64_max) [v1; v2; v3; v4] then Ok cases
      else Err InvalidTaskPublicationCases
  | _ => Err InvalidTaskPublicationCases
  end.

(** [StagedTerminalTransferCertificate]; its protocol and version fields are
    constants. *)
Record StagedTerminalTransferCertificate := mkCertificate {
  cert_core_identity_digest : digest;
  cert_receipt_key_digest : digest;
  cert_task_id : TaskId;
  cert_invocation_id : InvocationId;
  cert_task_link_digest : digest;
  cert_terminal_digest : digest;
  cert_terminal_epoch_ms : Z;
  cert_staged_receipt_record_max_bytes : Z;
  cert_task_terminal_bound_link_record_max_bytes : Z;
  cert_task_publication_cases : list StagedTaskPublicationCase;
  (** [StagedCapacityFallbackCase::LinkCapacity]: record and frame bytes. *)
  cert_capacity_fallback : Z * Z;
}.
#[export] Instance StagedTerminalTransferCertificate_eq_dec :
  EqDecision StagedTerminalTransferCertificate.
Proof. solve_decision. Defined.

(** [StagedTerminalTransferCertificate::new]. *)
Definition certificate_new (core key_digest : digest) (task : TaskId) (invocation : InvocationId)
    (link terminal : digest) (terminal_epoch staged_max link_max : Z)
    (cases : list StagedTaskPublicationCase) (fallback : Z * Z)
  : result StagedTerminalTransferCertificate StagedTerminalTransferCertificateError :=
  let? cases := publication_cases_new cases in
  if MAX_TASK_LIFECYCLE_LINK_RECORD_BYTES <? link_max then Err TaskTerminalBoundLinkRecordTooLarge
  else Ok (mkCertificate core key_digest task invocation link terminal terminal_epoch staged_max
             link_max cases fallback).

(** [canonical_staged_transfer_certificate]. *)
Definition canonical_staged_transfer_certificate {V} (key : ReceiptKey) (key_digest : digest)
    (link : TaskLinkReference) (terminal_epoch_ms : Z) (terminal : V5CanonicalTerminal V)
  : result StagedTerminalTransferCertificate ReceiptLedgerError :=
  let m := MAX_RECEIPT_ENTITLEMENT_BYTES in
  match certificate_new (rk_core_identity_digest key) key_digest (rk_reserved_task_id key)
          (rk_invocation_id key) (link_digest link) (ct_digest terminal) terminal_epoch_ms
          m MAX_TASK_LIFECYCLE_LINK_RECORD_BYTES
          [CaseAbsent m m; CaseExactProvisional PQueued u64_max false m m;
           CaseExactProvisional PQueued u64_max true m m;
           CaseExactProvisional PWorking u64_max false m m;
           CaseExactProvisional PWorking u64_max true m m] (m, m) with
  | Ok c => Ok c
  | Err _ => Err Corrupt
  end.

Definition matches_staged_terminal {V} (c : StagedTerminalTransferCertificate) (key : ReceiptKey)
    (key_digest : digest) (link : TaskLinkReference) (terminal_epoch_ms : Z)
    (terminal : V5CanonicalTerminal V) : bool :=
  bool_decide (cert_core_identity_digest c = rk_core_identity_digest key)
  && bool_decide (cert_receipt_key_digest c = key_digest)
  && bool_decide (cert_task_id c = rk_reserved_task_id key)
  && bool_decide (cert_invocation_id c = rk_invocation_id key)
  && bool_decide (cert_task_link_digest c = link_digest link)
  && bool_decide (cert_terminal_digest c = ct_digest terminal)
  && (cert_terminal_epoch_ms c =? terminal_epoch_ms).

(** ** Bodies of the states *)

Record CancelReservedReceipt := mkCancelReserved {
  cr_record : ReceiptRecordHeader;
  cr_cancel_reserved_at : Z;
}.
Record ReservedReceipt := mkReserved {
  rr_record : ReceiptRecordHeader;
  rr_reserved_at : Z;
  rr_original_cutoff : OriginalCutoffDescriptor;
  rr_phase : ReservedPhase;
  rr_cancel_requested : bool;
  rr_reserved_result_bytes : Z;
}.
Record TaskPromisedUnboundReceipt := mkPromisedUnbound {
  pu_record : ReceiptRecordHeader;
  pu_task : ReceiptTaskProjection;
  pu_cancel_requested : bool;
  pu_reserved_result_bytes : Z;
}.
Record TaskPromisedActorBoundReceipt := mkPromisedActorBound {
  pa_record : ReceiptRecordHeader;
  pa_task : ReceiptTaskProjection;
  pa_link : TaskLinkReference;
  pa_cancel_requested : bool;
  pa_reserved_result_bytes : Z;
}.
Record TaskReceiptOwnedActorBoundReceipt := mkReceiptOwned {
  ro_record : ReceiptRecordHeader;
  ro_task : ReceiptTaskProjection;
  ro_link : TaskLinkReference;
  ro_cancel_requested : bool;
  ro_reserved_result_bytes : Z;
  ro_proven_link_capacity : ProvenTaskLinkCapacity;
}.
Record AcknowledgedTombstoneReceipt := mkTombstone {
  at_key : ReceiptKey;
  at_key_digest : digest;
  at_terminal_digest : digest;
  at_acknowledged_at : Z;
  at_encoded_bytes : Z;
}.
Record TaskBoundReceipt := mkTaskBound {
  tb_record : LifecycleLinkRecordHeader;
  tb_task : ReceiptTaskProjection;
  tb_task_record_version : Z;
  tb_bind_epoch_ms : Z;
  tb_phase : AttemptPhase;
}.
Record TaskTerminalBoundReceipt := mkTaskTerminalBound {
  ttb_record : LifecycleLinkRecordHeader;
  ttb_task : ReceiptTaskProjection;
  ttb_task_record_version : Z;
  ttb_terminal_status : ClosedTerminalStatus;
  ttb_terminal_digest : digest;
  ttb_terminal_epoch_ms : Z;
  ttb_expires_at : Z;
}.
Record TaskRetirementPendingReceipt := mkRetirementPending {
  trp_record : LifecycleLinkRecordHeader;
  trp_task : ReceiptTaskProjection;
  trp_expected_terminal_task_version : Z;
  trp_terminal_status : ClosedTerminalStatus;
  trp_terminal_digest : digest;
  trp_terminal_epoch_ms : Z;
  trp_expires_at : Z;
  trp_retained_link_bytes : Z;
  trp_retained_dual_id : RetainedDualIdAccounting;
}.

Section States.
Context (V : Type).

Inductive HandoffTerminalStage :=
| NoTerminal
| Staged (terminal_epoch_ms : Z) (terminal : V5CanonicalTerminal V)
    (certificate : StagedTerminalTransferCertificate).

Record TaskHandoffActorBoundReceipt := mkHandoff {
  ho_record : ReceiptRecordHeader;
  ho_task : ReceiptTaskProjection;
  ho_link : TaskLinkReference;
  ho_phase : AttemptPhase;
  ho_cancel_requested : bool;
  ho_reserved_result_bytes : Z;
  ho_terminal_stage : HandoffTerminalStage;
}.
Record DirectTerminalUnackedReceipt := mkDirect {
  dt_record : ReceiptRecordHeader;
  dt_original_cutoff : OriginalCutoffDescriptor;
  dt_terminal_epoch_ms : Z;
  dt_terminal : V5CanonicalTerminal V;
  dt_reserved_result_bytes : Z;
}.
Record TaskTerminalReceiptBackedReceipt := mkReceiptBacked {
  rb_record : ReceiptRecordHeader;
  rb_task : ReceiptTaskProjection;
  rb_terminal_epoch_ms : Z;
  rb_terminal : V5CanonicalTerminal V;
  rb_cancel_requested : bool;
  rb_reserved_result_bytes : Z;
}.

Inductive ReceiptState :=
| SCancelReserved (r : CancelReservedReceipt)
| SReserved (r : ReservedReceipt)
| SDirectTerminalUnacked (r : DirectTerminalUnackedReceipt)
| SAcknowledgedTombstone (r : AcknowledgedTombstoneReceipt)
| STaskPromisedUnbound (r : TaskPromisedUnboundReceipt)
| STaskPromisedActorBound (r : TaskPromisedActorBoundReceipt)
| STaskHandoffActorBound (r : TaskHandoffActorBoundReceipt)
| STaskReceiptOwnedActorBound (r : TaskReceiptOwnedActorBoundReceipt)
| STaskTerminalReceiptBacked (r : TaskTerminalReceiptBackedReceipt)
| STaskBound (r : TaskBoundReceipt)
| STaskTerminalBound (r : TaskTerminalBoundReceipt)
| STaskRetirementPending (r : TaskRetirementPendingReceipt).

Inductive ReserveOutcome :=
| RCreated (r : ReservedReceipt)
| RExistingExact (s : ReceiptState).
Inductive CancelResolution :=
| NewlyReserved (r : CancelReservedReceipt)
| CExistingExact (r : CancelReservedReceipt)
| ExistingWinner (s : ReceiptState).

Definition outcome_reservation (o : ReserveOutcome) : option ReservedReceipt :=
  match o with
  | RCreated r | RExistingExact (SReserved r) => Some r
  | RExistingExact _ => None
  end.
Definition into_state (o : ReserveOutcome) : ReceiptState :=
  match o with RCreated r => SReserved r | RExistingExact s => s end.
End States.

Arguments NoTerminal {V}.
Arguments Staged {V}.
Arguments mkHandoff {V}.
Arguments ho_record {V}.
Arguments ho_task {V}.
Arguments ho_link {V}.
Arguments ho_phase {V}.
Arguments ho_cancel_requested {V}.
Arguments ho_reserved_result_bytes {V}.
Arguments ho_terminal_stage {V}.
Arguments mkDirect {V}.
Arguments dt_record {V}.
Arguments dt_original_cutoff {V}.
Arguments dt_terminal_epoch_ms {V}.
Arguments dt_terminal {V}.
Arguments dt_reserved_result_bytes {V}.
Arguments mkReceiptBacked {V}.
Arguments rb_record {V}.
Arguments rb_task {V}.
Arguments rb_terminal_epoch_ms {V}.
Arguments rb_terminal {V}.
Arguments rb_cancel_requested {V}.
Arguments rb_reserved_result_bytes {V}.
Arguments SCancelReserved {V}.
Arguments SReserved {V}.
Arguments SDirectTerminalUnacked {V}.
Arguments SAcknowledgedTombstone {V}.
Arguments STaskPromisedUnbound {V}.
Arguments STaskPromisedActorBound {V}.
Arguments STaskHandoffActorBound {V}.
Arguments STaskReceiptOwnedActorBound {V}.
Arguments STaskTerminalReceiptBacked {V}.
Arguments STaskBound {V}.
Arguments STaskTerminalBound {V}.
Arguments STaskRetirementPending {V}.
Arguments RCreated {V}.
Arguments RExistingExact {V}.
Arguments NewlyReserved {V}.
Arguments CExistingExact {V}.
Arguments ExistingWinner {V}.
Arguments outcome_reservation {V}.
Arguments into_state {V}.

(** ** Kinds *)

Inductive ReceiptStateKind :=
| KCancelReserved | KReservedUnbound | KReservedActorBound | KReservedBegun
| KDirectTerminalUnacked | KAcknowledgedTombstone | KTaskPromisedUnbound
| KTaskPromisedActorBound | KTaskHandoffActorBoundNotBegun | KTaskHandoffActorBoundBegun
| KTaskReceiptOwnedActorBound | KTaskTerminalReceiptBacked | KTaskBoundNotBegun
| KTaskBoundBegun | KTaskTerminalBound | KTaskRetirementPending.
#[export] Instance ReceiptStateKind_eq_dec : EqDecision ReceiptStateKind.
Proof. solve_decision. Defined.

(** [ReceiptState::kind]. *)
Definition state_kind {V} (s : ReceiptState V) : ReceiptStateKind :=
  match s with
  | SCancelReserved _ => KCancelReserved
  | SReserved r =>
      match rr_phase r with
      | Unbound => KReservedUnbound
      | ActorBound _ => KReservedActorBound
      | Begun _ => KReservedBegun
      end
  | SDirectTerminalUnacked _ => KDirectTerminalUnacked
  | SAcknowledgedTombstone _ => KAcknowledgedTombstone
  | STaskPromisedUnbound _ => KTaskPromisedUnbound
  | STaskPromisedActorBound _ => KTaskPromisedActorBound
  | STaskHandoffActorBound r =>
      match ho_phase r with
      | NotBegun => KTaskHandoffActorBoundNotBegun
      | AttemptBegun => KTaskHandoffActorBoundBegun
      end
  | STaskReceiptOwnedActorBound _ => KTaskReceiptOwnedActorBound
  | STaskTerminalReceiptBacked _ => KTaskTerminalReceiptBacked
  | STaskBound r =>
      match tb_phase r with
      | NotBegun => KTaskBoundNotBegun
      | AttemptBegun => KTaskBoundBegun
      end
  | STaskTerminalBound _ => KTaskTerminalBound
  | STaskRetirementPending _ => KTaskRetirementPending
  end.

(** ** Constructors *)

Section Constructors.
Context {C : ReceiptCodec}.

Notation Terminal := (V5CanonicalTerminal json_value).

(** [LifecycleLinkRecordHeader::new]. *)
Definition link_header_new (key : ReceiptKey) (link : TaskLinkReference)
    (lifecycle_link_version mutation_sequence encoded_bytes : Z)
  : result LifecycleLinkRecordHeader ReceiptLedgerError :=
  let key_digest := receipt_key_digest key in
  if (lifecycle_link_version =? 0) || (mutation_sequence =? 0) || (encoded_bytes =? 0)
  then Err Corrupt
  else if MAX_TASK_LIFECYCLE_LINK_RECORD_BYTES <? encoded_bytes then Err RecordTooLarge
  else if negb (bool_decide (tl_receipt_key_digest (link_identity link) = key_digest)
                && bool_decide (tl_task_id (link_identity link) = rk_reserved_task_id key)
                && bool_decide (tl_invocation_id (link_identity link) = rk_invocation_id key)
                && bool_decide (task_link_digest (link_identity link) = link_digest link))
  then Err Corrupt
  else Ok (mkLinkHeader key key_digest link lifecycle_link_version mutation_sequence
             encoded_bytes).

Definition cancel_reserved_new (key : ReceiptKey) (version sequence encoded_bytes reserved_at : Z)
  : CancelReservedReceipt :=
  mkCancelReserved (mkHeader key (receipt_key_digest key) version sequence encoded_bytes)
    reserved_at.

(** The task of a receipt is the task of its key. *)
Definition task_of_key (record : ReceiptRecordHeader) (task : ReceiptTaskProjection) : bool :=
  bool_decide (tp_task_id task = rk_reserved_task_id (rh_key record))
  && bool_decide (tp_invocation_id task = rk_invocation_id (rh_key record)).
(** The link of a receipt binds its key digest and its task. *)
Definition link_of_task (record : ReceiptRecordHeader) (task : ReceiptTaskProjection)
    (link : TaskLinkReference) : bool :=
  bool_decide (tl_receipt_key_digest (link_identity link) = rh_key_digest record)
  && bool_decide (tl_task_id (link_identity link) = tp_task_id task)
  && bool_decide (tl_invocation_id (link_identity link) = tp_invocation_id task)
  && bool_decide (task_link_digest (link_identity link) = link_digest link).

Definition promised_unbound_new (record : ReceiptRecordHeader) (task : ReceiptTaskProjection)
    (cancel_requested : bool) (reserved : Z)
  : result TaskPromisedUnboundReceipt ReceiptLedgerError :=
  if task_of_key record task then Ok (mkPromisedUnbound record task cancel_requested reserved)
  else Err Corrupt.

Definition promised_actor_bound_new (record : ReceiptRecordHeader) (task : ReceiptTaskProjection)
    (link : TaskLinkReference) (cancel_requested : bool) (reserved : Z)
  : result TaskPromisedActorBoundReceipt ReceiptLedgerError :=
  if task_of_key record task && link_of_task record task link
  then Ok (mkPromisedActorBound record task link cancel_requested reserved)
  else Err Corrupt.

Definition handoff_new (record : ReceiptRecordHeader) (task : ReceiptTaskProjection)
    (link : TaskLinkReference) (phase : AttemptPhase) (cancel_requested : bool) (reserved : Z)
    (stage : HandoffTerminalStage json_value)
  : result (TaskHandoffActorBoundReceipt json_value) ReceiptLedgerError :=
  if negb (task_of_key record task && link_of_task record task link) then Err Corrupt
  else
    let certified :=
      match stage with
      | NoTerminal => true
      | Staged epoch terminal certificate =>
          matches_staged_terminal certificate (rh_key record) (rh_key_digest record) link epoch
            terminal
      end in
    if certified
    then Ok (mkHandoff record task link phase cancel_requested reserved stage)
    else Err Corrupt.

Definition receipt_owned_new (record : ReceiptRecordHeader) (task : ReceiptTaskProjection)
    (link : TaskLinkReference) (cancel_requested : bool) (reserved : Z)
    (capacity : ProvenTaskLinkCapacity)
  : result TaskReceiptOwnedActorBoundReceipt ReceiptLedgerError :=
  if negb (task_of_key record task && link_of_task record task link) then Err Corrupt
  else
    match capacity with
    | CapacityCount observed maximum =>
        if (maximum =? 0) || (observed <? maximum) then Err Corrupt
        else Ok (mkReceiptOwned record task link cancel_requested reserved capacity)
    | CapacityBytes required available =>
        if (required =? 0) || (required <=? available) then Err Corrupt
        else Ok (mkReceiptOwned record task link cancel_requested reserved capacity)
    end.

Definition receipt_backed_new (record : ReceiptRecordHeader) (task : ReceiptTaskProjection)
    (terminal_epoch_ms : Z) (terminal : Terminal) (cancel_requested : bool) (reserved : Z)
  : result (TaskTerminalReceiptBackedReceipt json_value) ReceiptLedgerError :=
  if negb (task_of_key record task && (tp_updated_at task =? terminal_epoch_ms)) then Err Corrupt
  else match u64_checked_add terminal_epoch_ms (tp_ttl_ms task) with
       | None => Err TimestampOverflow
       | Some _ =>
           Ok (mkReceiptBacked record task terminal_epoch_ms terminal cancel_requested reserved)
       end.

Definition tombstone_new (key : ReceiptKey) (key_digest terminal_digest : digest)
    (acknowledged_at encoded_bytes : Z)
  : result AcknowledgedTombstoneReceipt ReceiptLedgerError :=
  match u64_checked_add acknowledged_at ACKNOWLEDGED_TOMBSTONE_TTL_MS with
  | None => Err TimestampOverflow
  | Some _ => Ok (mkTombstone key key_digest terminal_digest acknowledged_at encoded_bytes)
  end.
(** [AcknowledgedTombstoneReceipt::expires_at_epoch_ms]. *)
Definition tombstone_expires_at (t : AcknowledgedTombstoneReceipt) : Z :=
  at_acknowledged_at t + ACKNOWLEDGED_TOMBSTONE_TTL_MS.

(** The task of a lifecycle link record is the task of its key and link. *)
Definition task_of_link (record : LifecycleLinkRecordHeader) (task : ReceiptTaskProjection)
  : bool :=
  bool_decide (tp_task_id task = rk_reserved_task_id (lh_key record))
  && bool_decide (tp_invocation_id task = rk_invocation_id (lh_key record))
  && bool_decide (tp_task_id task = tl_task_id (link_identity (lh_link record)))
  && bool_decide (tp_invocation_id task = tl_invocation_id (link_identity (lh_link record))).

Definition task_bound_new (record : LifecycleLinkRecordHeader) (task : ReceiptTaskProjection)
    (task_record_version bind_epoch_ms : Z) (phase : AttemptPhase)
  : result TaskBoundReceipt ReceiptLedgerError :=
  if negb (task_of_link record task) || negb (tp_version task =? task_record_version)
     || (task_record_version =? 0) || (bind_epoch_ms <? tp_created_at task)
  then Err Corrupt
  else Ok (mkTaskBound record task task_record_version bind_epoch_ms phase).

Definition task_terminal_bound_new (record : LifecycleLinkRecordHeader)
    (task : ReceiptTaskProjection) (task_record_version : Z) (status : ClosedTerminalStatus)
    (terminal_digest : digest) (terminal_epoch_ms expires_at : Z)
  : result TaskTerminalBoundReceipt ReceiptLedgerError :=
  match u64_checked_add terminal_epoch_ms (tp_ttl_ms task) with
  | None => Err TimestampOverflow
  | Some expected_expiry =>
      if negb (task_of_link record task) || negb (tp_version task =? task_record_version)
         || (task_record_version =? 0) || negb (tp_updated_at task =? terminal_epoch_ms)
         || negb (expires_at =? expected_expiry)
      then Err Corrupt
      else Ok (mkTaskTerminalBound record task task_record_version status terminal_digest
                 terminal_epoch_ms expires_at)
  end.

Definition retirement_pending_new (record : LifecycleLinkRecordHeader)
    (task : ReceiptTaskProjection) (expected_version : Z) (status : ClosedTerminalStatus)
    (terminal_digest : digest) (terminal_epoch_ms expires_at retained_link_bytes : Z)
    (dual_id : RetainedDualIdAccounting)
  : result TaskRetirementPendingReceipt ReceiptLedgerError :=
  match u64_checked_add terminal_epoch_ms (tp_ttl_ms task) with
  | None => Err TimestampOverflow
  | Some expected_expiry =>
      if negb (task_of_link record task) || negb (tp_version task =? expected_version)
         || (expected_version =? 0) || negb (tp_updated_at task =? terminal_epoch_ms)
         || negb (expires_at =? expected_expiry) || (retained_link_bytes =? 0)
      then Err Corrupt
      else Ok (mkRetirementPending record task expected_version status terminal_digest
                 terminal_epoch_ms expires_at retained_link_bytes dual_id)
  end.

(** A canonical certificate is always granted and certifies its terminal. *)
Lemma canonical_certificate_ok key key_digest link epoch (t : Terminal) :
  ∃ c, canonical_staged_transfer_certificate key key_digest link epoch t = Ok c
       ∧ matches_staged_terminal c key key_digest link epoch t = true.
Proof.
  eexists. split; [reflexivity|].
  unfold matches_staged_terminal. cbn.
  by rewrite !bool_decide_true, Z.eqb_refl by done.
Qed.
End Constructors.

(** ** Cancellation of a task *)

Inductive TaskCancellationReceipt (V : Type) :=
| TCPromisedUnbound (r : TaskPromisedUnboundReceipt)
| TCPromisedActorBound (r : TaskPromisedActorBoundReceipt)
| TCHandoffActorBound (r : TaskHandoffActorBoundReceipt V)
| TCReceiptOwnedActorBound (r : TaskReceiptOwnedActorBoundReceipt).
Arguments TCPromisedUnbound {V}.
Arguments TCPromisedActorBound {V}.
Arguments TCHandoffActorBound {V}.
Arguments TCReceiptOwnedActorBound {V}.

Definition tc_record {V} (r : TaskCancellationReceipt V) : ReceiptRecordHeader :=
  match r with
  | TCPromisedUnbound r => pu_record r
  | TCPromisedActorBound r => pa_record r
  | TCHandoffActorBound r => ho_record r
  | TCReceiptOwnedActorBound r => ro_record r
  end.
Definition tc_task {V} (r : TaskCancellationReceipt V) : ReceiptTaskProjection :=
  match r with
  | TCPromisedUnbound r => pu_task r
  | TCPromisedActorBound r => pa_task r
  | TCHandoffActorBound r => ho_task r
  | TCReceiptOwnedActorBound r => ro_task r
  end.
Definition tc_cancel_requested {V} (r : TaskCancellationReceipt V) : bool :=
  match r with
  | TCPromisedUnbound r => pu_cancel_requested r
  | TCPromisedActorBound r => pa_cancel_requested r
  | TCHandoffActorBound r => ho_cancel_requested r
  | TCReceiptOwnedActorBound r => ro_cancel_requested r
  end.
Definition tc_reserved_result_bytes {V} (r : TaskCancellationReceipt V) : Z :=
  match r with
  | TCPromisedUnbound r => pu_reserved_result_bytes r
  | TCPromisedActorBound r => pa_reserved_result_bytes r
  | TCHandoffActorBound r => ho_reserved_result_bytes r
  | TCReceiptOwnedActorBound r => ro_reserved_result_bytes r
  end.
(** [TaskCancellationReceipt::into_receipt_state]. *)
Definition tc_into_state {V} (r : TaskCancellationReceipt V) : ReceiptState V :=
  match r with
  | TCPromisedUnbound r => STaskPromisedUnbound r
  | TCPromisedActorBound r => STaskPromisedActorBound r
  | TCHandoffActorBound r => STaskHandoffActorBound r
  | TCReceiptOwnedActorBound r => STaskReceiptOwnedActorBound r
  end.

(** The bytes a receipt holds and may still use. *)
Definition tc_entitlement {V} (r : TaskCancellationReceipt V) : Z :=
  rh_encoded_bytes (tc_record r) + tc_reserved_result_bytes r.

#[export] Instance HandoffTerminalStage_eq_dec {V} `{EqDecision V} :
  EqDecision (HandoffTerminalStage V).
Proof. solve_decision. Defined.

(** Receipts compare field by field. *)
#[export] Instance CancelReservedReceipt_eq_dec : EqDecision CancelReservedReceipt.
Proof. solve_decision. Defined.
#[export] Instance ReservedReceipt_eq_dec : EqDecision ReservedReceipt.
Proof. solve_decision. Defined.
#[export] Instance TaskPromisedUnboundReceipt_eq_dec : EqDecision TaskPromisedUnboundReceipt.
Proof. solve_decision. Defined.
#[export] Instance TaskPromisedActorBoundReceipt_eq_dec : EqDecision TaskPromisedActorBoundReceipt.
Proof. solve_decision. Defined.
#[export] Instance TaskReceiptOwnedActorBoundReceipt_eq_dec :
  EqDecision TaskReceiptOwnedActorBoundReceipt.
Proof. solve_decision. Defined.
#[export] Instance AcknowledgedTombstoneReceipt_eq_dec : EqDecision AcknowledgedTombstoneReceipt.
Proof. solve_decision. Defined.
#[export] Instance TaskBoundReceipt_eq_dec : EqDecision TaskBoundReceipt.
Proof. solve_decision. Defined.
#[export] Instance ClosedTerminalStatus_eq_dec : EqDecision ClosedTerminalStatus.
Proof. solve_decision. Defined.
#[export] Instance TaskTerminalBoundReceipt_eq_dec : EqDecision TaskTerminalBoundReceipt.
Proof. solve_decision. Defined.
#[export] Instance RetainedDualIdAccounting_eq_dec : EqDecision RetainedDualIdAccounting.
Proof. solve_decision. Defined.
#[export] Instance TaskRetirementPendingReceipt_eq_dec : EqDecision TaskRetirementPendingReceipt.
Proof. solve_decision. Defined.
#[export] Instance TaskHandoffActorBoundReceipt_eq_dec {V} `{EqDecision V} :
  EqDecision (TaskHandoffActorBoundReceipt V).
Proof. solve_decision. Defined.
#[export] Instance DirectTerminalUnackedReceipt_eq_dec {V} `{EqDecision V} :
  EqDecision (DirectTerminalUnackedReceipt V).
Proof. solve_decision. Defined.
#[export] Instance TaskTerminalReceiptBackedReceipt_eq_dec {V} `{EqDecision V} :
  EqDecision (TaskTerminalReceiptBackedReceipt V).
Proof. solve_decision. Defined.
#[export] Instance ReceiptState_eq_dec {V} `{EqDecision V} : EqDecision (ReceiptState V).
Proof. solve_decision. Defined.
#[export] Instance TaskCancellationReceipt_eq_dec {V} `{EqDecision V} :
  EqDecision (TaskCancellationReceipt V).
Proof. solve_decision. Defined.

(** [TaskCancellationReceipt::is_exact_cancel_successor_of]. *)
Definition is_exact_cancel_successor_of {V} `{EqDecision V}
    (actual expected : TaskCancellationReceipt V) : bool :=
  if negb (tc_cancel_requested actual) || tc_cancel_requested expected
     || negb (bool_decide (checked_next (rh_record_version (tc_record expected))
                           = Some (rh_record_version (tc_record actual))))
  then false
  else
    let same_record :=
      bool_decide (rh_key (tc_record actual) = rh_key (tc_record expected))
      && bool_decide (rh_key_digest (tc_record actual) = rh_key_digest (tc_record expected))
      && bool_decide (tc_task actual = tc_task expected) in
    let same_bytes := tc_entitlement actual =? tc_entitlement expected in
    match actual, expected with
    | TCPromisedUnbound _, TCPromisedUnbound _ => same_record && same_bytes
    | TCPromisedActorBound a, TCPromisedActorBound e =>
        same_record && bool_decide (pa_link a = pa_link e) && same_bytes
    | TCHandoffActorBound a, TCHandoffActorBound e =>
        same_record && bool_decide (ho_link a = ho_link e)
        && bool_decide (ho_phase a = ho_phase e)
        && bool_decide (ho_terminal_stage a = ho_terminal_stage e) && same_bytes
    | TCReceiptOwnedActorBound a, TCReceiptOwnedActorBound e =>
        same_record && bool_decide (ro_link a = ro_link e)
        && bool_decide (ro_proven_link_capacity a = ro_proven_link_capacity e) && same_bytes
    | _, _ => false
    end.
