(* ===== verification/ReceiptRows.v ===== *)
(** * Receipt rows and states

    The durable rows of [crates/unica-execution/src/receipt_store.rs]
    ([StoredActiveReceiptV1] and its lifecycles), the catalog entry made of a
    row and its encoded length, its byte accounting, and the receipt state
    ([receipt_ledger.rs]) that an entry stands for, with the checks of every
    constructor.

    A catalog does not hold result bodies: the body of a terminal is [None]
    where the source holds its shared stand-in for a body left on disk.  The
    seven fields of a Task projection, inlined in the stored rows, are one
    record here. *)

From Stdlib Require Import ZArith Lia String.
From stdpp Require Import base gmap list option numbers countable strings.
From S2P Require Import Prelude Contract ResultSize Redaction ReceiptLedger ReceiptStates.

Local Open Scope Z_scope.

Definition RECEIPT_RECORD_SCHEMA_VERSION : Z := 1.
Definition PERSISTENT_CANCEL_RECORD_SCHEMA_VERSION : Z := 2.
Definition MAX_CANCEL_RESERVED_RECORD_BYTES : Z := 1024.
Definition MAX_COMPLETED_TASK_HANDOFF_WITNESS_BYTES : Z := 2048.

(** ** Stored rows *)

Section Rows.
Context (V : Type).

(** A result body: [None] is the stand-in for a body on disk. *)
Definition Body := option (ReceiptTerminalOutcome V).

Inductive StoredHandoffTerminalStageV1 :=
| StageNone
| StageStaged (terminal_epoch_ms : Z) (terminal_digest : digest) (terminal : Body).

Record HandoffWitness := mkHandoffWitness {
  hw_prior_record_version : Z;
  hw_prior_mutation_sequence : Z;
  hw_prior_created_at : Z;
  hw_prior_task_version : Z;
  hw_workspace_identity_hash : digest;
  hw_task_link_digest : digest;
  hw_task_bound_lifecycle_link_version : Z;
  hw_task_bound_mutation_sequence : Z;
  hw_task_record_version : Z;
  hw_bind_epoch_ms : Z;
  hw_phase : AttemptPhase;
  hw_terminal_staged : bool;
}.

Inductive StoredActiveLifecycleV1 :=
| LCancelReserved (cancel_reserved_at : Z) (expires_at : option Z) (cancel_requested : bool)
| LExpiredDeletion (observed_at prior_record_version prior_mutation_sequence
    prior_cancel_reserved_at prior_expires_at : Z)
| LExpiredTombstoneDeletion (observed_at prior_acknowledged_at : Z) (prior_terminal_digest : digest)
| LExpiredDirectDeletion (observed_at prior_record_version prior_mutation_sequence
    prior_terminal_epoch : Z) (prior_terminal_digest : digest)
| LExpiredTaskReceiptDeletion (observed_at prior_record_version prior_mutation_sequence
    prior_terminal_epoch prior_ttl_ms : Z) (prior_terminal_digest : digest)
| LCompletedTaskHandoffDeletion (w : HandoffWitness)
| LReservedUnbound (reserved_at : Z) (cutoff : OriginalCutoffDescriptor) (cancel_requested : bool)
| LReservedActorBound (reserved_at : Z) (cutoff : OriginalCutoffDescriptor)
    (bound_workspace_identity : digest) (cancel_requested : bool)
| LReservedBegun (reserved_at : Z) (cutoff : OriginalCutoffDescriptor)
    (bound_workspace_identity : digest) (cancel_requested : bool)
| LTaskPromisedUnbound (cutoff : OriginalCutoffDescriptor) (task : ReceiptTaskProjection)
    (cancel_requested : bool)
| LTaskPromisedActorBound (cutoff : OriginalCutoffDescriptor) (task : ReceiptTaskProjection)
    (workspace_identity_hash task_link_digest : digest) (cancel_requested : bool)
| LTaskHandoffActorBound (cutoff : OriginalCutoffDescriptor) (task : ReceiptTaskProjection)
    (workspace_identity_hash task_link_digest : digest) (phase : AttemptPhase)
    (cancel_requested : bool) (terminal_stage : StoredHandoffTerminalStageV1)
| LTaskReceiptOwnedActorBound (cutoff : OriginalCutoffDescriptor) (task : ReceiptTaskProjection)
    (workspace_identity_hash task_link_digest : digest) (capacity : ProvenTaskLinkCapacity)
    (cancel_requested : bool)
| LDirectTerminalUnacked (cutoff : OriginalCutoffDescriptor) (terminal_epoch_ms : Z)
    (terminal_digest : digest) (terminal : Body)
| LTaskTerminalReceiptBacked (task : ReceiptTaskProjection) (terminal_epoch_ms : Z)
    (terminal_digest : digest) (terminal : Body) (cancel_requested : bool)
| LAcknowledgementCommit (terminal_digest : digest) (acknowledged_at prior_record_version
    prior_mutation_sequence : Z)
| LAcknowledgedTombstone (terminal_digest : digest) (acknowledged_at : Z).

Record StoredActiveReceiptV1 := mkRow {
  row_schema_version : Z;
  row_mutation_sequence : Z;
  row_record_version : Z;
  row_key : ReceiptKey;
  row_key_digest : digest;
  row_lifecycle : StoredActiveLifecycleV1;
}.

(** [CatalogEntry]. *)
Record CatalogEntry := mkEntry {
  ce_record : StoredActiveReceiptV1;
  ce_encoded_bytes : Z;
}.
End Rows.

Arguments StageNone {V}.
Arguments StageStaged {V}.
Arguments LCancelReserved {V}.
Arguments LExpiredDeletion {V}.
Arguments LExpiredTombstoneDeletion {V}.
Arguments LExpiredDirectDeletion {V}.
Arguments LExpiredTaskReceiptDeletion {V}.
Arguments LCompletedTaskHandoffDeletion {V}.
Arguments LReservedUnbound {V}.
Arguments LReservedActorBound {V}.
Arguments LReservedBegun {V}.
Arguments LTaskPromisedUnbound {V}.
Arguments LTaskPromisedActorBound {V}.
Arguments LTaskHandoffActorBound {V}.
Arguments LTaskReceiptOwnedActorBound {V}.
Arguments LDirectTerminalUnacked {V}.
Arguments LTaskTerminalReceiptBacked {V}.
Arguments LAcknowledgementCommit {V}.
Arguments LAcknowledgedTombstone {V}.
Arguments mkRow {V}.
Arguments row_schema_version {V}.
Arguments row_mutation_sequence {V}.
Arguments row_record_version {V}.
Arguments row_key {V}.
Arguments row_key_digest {V}.
Arguments row_lifecycle {V}.
Arguments mkEntry {V}.
Arguments ce_record {V}.
Arguments ce_encoded_bytes {V}.

(** ** Records and entries without their bodies *)

Section Entries.
Context {V : Type} `{EqDecision V}.

Notation Row := (StoredActiveReceiptV1 V).
Notation Lifecycle := (StoredActiveLifecycleV1 V).
Notation Entry := (CatalogEntry V).

(** [result_body_mut]: the body of a lifecycle that has one. *)
Definition result_body (l : Lifecycle) : option (Body V) :=
  match l with
  | LDirectTerminalUnacked _ _ _ terminal => Some terminal
  | LTaskTerminalReceiptBacked _ _ _ terminal _ => Some terminal
  | LTaskHandoffActorBound _ _ _ _ _ _ (StageStaged _ _ terminal) => Some terminal
  | _ => None
  end.
(** ... and a lifecycle with another body. *)
Definition set_result_body (b : Body V) (l : Lifecycle) : Lifecycle :=
  match l with
  | LDirectTerminalUnacked cutoff epoch digest _ => LDirectTerminalUnacked cutoff epoch digest b
  | LTaskTerminalReceiptBacked task epoch digest _ cancel =>
      LTaskTerminalReceiptBacked task epoch digest b cancel
  | LTaskHandoffActorBound cutoff task workspace link phase cancel (StageStaged epoch digest _) =>
      LTaskHandoffActorBound cutoff task workspace link phase cancel (StageStaged epoch digest b)
  | l => l
  end.
Definition row_set_body (b : Body V) (r : Row) : Row :=
  mkRow (row_schema_version r) (row_mutation_sequence r) (row_record_version r) (row_key r)
    (row_key_digest r) (set_result_body b (row_lifecycle r)).

(** [StoredActiveReceiptV1::without_result_body]. *)
Definition without_result_body (r : Row) : Row := row_set_body None r.
Definition result_body_is_on_disk (r : Row) : bool :=
  match result_body (row_lifecycle r) with
  | Some None => true
  | _ => false
  end.
(** [CatalogEntry::without_result_body] and [with_result_body]. *)
Definition entry_without_result_body (e : Entry) : Entry :=
  mkEntry (without_result_body (ce_record e)) (ce_encoded_bytes e).
Definition with_result_body (e : Entry) (t : V5CanonicalTerminal V) : Entry :=
  mkEntry (row_set_body (Some (ct_outcome t)) (ce_record e)) (ce_encoded_bytes e).

#[export] Instance StoredHandoffTerminalStageV1_eq_dec :
  EqDecision (StoredHandoffTerminalStageV1 V).
Proof. solve_decision. Defined.
#[export] Instance HandoffWitness_eq_dec : EqDecision HandoffWitness.
Proof. solve_decision. Defined.
#[export] Instance StoredActiveLifecycleV1_eq_dec : EqDecision Lifecycle.
Proof. solve_decision. Defined.
#[export] Instance StoredActiveReceiptV1_eq_dec : EqDecision Row.
Proof. solve_decision. Defined.

(** [StoredActiveReceiptV1::same_record]. *)
Definition same_record (a b : Row) : bool :=
  bool_decide (without_result_body a = without_result_body b).
(** [<CatalogEntry as PartialEq>::eq]. *)
Definition entry_eq (a b : Entry) : bool :=
  (ce_encoded_bytes a =? ce_encoded_bytes b) && same_record (ce_record a) (ce_record b).

(** ** Byte accounting *)

Definition is_tombstone (e : Entry) : bool :=
  match row_lifecycle (ce_record e) with LAcknowledgedTombstone _ _ => true | _ => false end.
Definition live_actual_bytes (e : Entry) : Z := if is_tombstone e then 0 else ce_encoded_bytes e.
Definition tombstone_bytes (e : Entry) : Z := if is_tombstone e then ce_encoded_bytes e else 0.

(** Whether a lifecycle keeps its entitlement to result bytes. *)
Definition keeps_entitlement (l : Lifecycle) : bool :=
  match l with
  | LCancelReserved _ _ _ | LExpiredDeletion _ _ _ _ _ | LExpiredTombstoneDeletion _ _ _
  | LExpiredDirectDeletion _ _ _ _ _ | LExpiredTaskReceiptDeletion _ _ _ _ _ _
  | LCompletedTaskHandoffDeletion _ | LAcknowledgementCommit _ _ _ _
  | LAcknowledgedTombstone _ _ => false
  | LReservedUnbound _ _ _ | LReservedActorBound _ _ _ _ | LReservedBegun _ _ _ _
  | LTaskPromisedUnbound _ _ _ | LTaskPromisedActorBound _ _ _ _ _
  | LTaskHandoffActorBound _ _ _ _ _ _ _ | LTaskReceiptOwnedActorBound _ _ _ _ _ _
  | LDirectTerminalUnacked _ _ _ _ | LTaskTerminalReceiptBacked _ _ _ _ _ => true
  end.
(** [CatalogEntry::reserved_result_bytes].  The source panics on a row over
    its entitlement; here the difference is then negative, and
    [entry_fits] excludes such entries. *)
Definition reserved_result_bytes (e : Entry) : Z :=
  if keeps_entitlement (row_lifecycle (ce_record e))
  then MAX_RECEIPT_ENTITLEMENT_BYTES - ce_encoded_bytes e
  else 0.
Definition entry_fits (e : Entry) : Prop :=
  0 < ce_encoded_bytes e ≤ MAX_RECEIPT_ENTITLEMENT_BYTES.

(** ** Classes of rows *)

Definition is_expired_deletion (e : Entry) : bool :=
  match row_lifecycle (ce_record e) with
  | LExpiredDeletion _ _ _ _ _ | LExpiredTombstoneDeletion _ _ _
  | LExpiredDirectDeletion _ _ _ _ _ | LCompletedTaskHandoffDeletion _ => true
  | _ => false
  end.
Definition is_acknowledgement_commit (e : Entry) : bool :=
  match row_lifecycle (ce_record e) with LAcknowledgementCommit _ _ _ _ => true | _ => false end.
Definition direct_terminal_digest (e : Entry) : option digest :=
  match row_lifecycle (ce_record e) with
  | LDirectTerminalUnacked _ _ terminal_digest _ => Some terminal_digest
  | _ => None
  end.
Definition record_header (e : Entry) : ReceiptRecordHeader :=
  let r := ce_record e in
  mkHeader (row_key r) (row_key_digest r) (row_record_version r) (row_mutation_sequence r)
    (ce_encoded_bytes e).
End Entries.

(** ** The state of an entry *)

Section StateOf.
Context {C : ReceiptCodec}.

Notation Entry := (CatalogEntry json_value).
Notation State := (ReceiptState json_value).

Definition restore_held_terminal (b : Body json_value) (expected : digest)
  : result (V5CanonicalTerminal json_value) ReceiptLedgerError :=
  match b with
  | None => Err Corrupt
  | Some outcome => restore_canonical_terminal outcome expected
  end.

(** The link a row stores must be the link of its task and workspace. *)
Definition stored_link (e : Entry) (task : ReceiptTaskProjection) (workspace stored : digest)
  : result TaskLinkReference ReceiptLedgerError :=
  let link := link_new (row_key_digest (ce_record e)) (tp_task_id task) (tp_invocation_id task)
                workspace in
  if bool_decide (link_digest link = stored) then Ok link else Err Corrupt.

(** [CatalogEntry::state]. *)
Definition state (e : Entry) : result State ReceiptLedgerError :=
  let r := ce_record e in
  match row_lifecycle r with
  | LCancelReserved reserved_at _ cancel_requested =>
      let receipt := cancel_reserved_new (row_key r) (row_record_version r)
                       (row_mutation_sequence r) (ce_encoded_bytes e) reserved_at in
      if negb cancel_requested then Err Corrupt else Ok (SCancelReserved receipt)
  | LExpiredDeletion _ _ _ _ _ | LExpiredTombstoneDeletion _ _ _
  | LExpiredDirectDeletion _ _ _ _ _ | LExpiredTaskReceiptDeletion _ _ _ _ _ _
  | LCompletedTaskHandoffDeletion _ => Err Corrupt
  | LReservedUnbound reserved_at cutoff cancel =>
      Ok (SReserved (mkReserved (record_header e) reserved_at cutoff Unbound cancel
                       (reserved_result_bytes e)))
  | LReservedActorBound reserved_at cutoff workspace cancel =>
      Ok (SReserved (mkReserved (record_header e) reserved_at cutoff (ActorBound workspace) cancel
                       (reserved_result_bytes e)))
  | LReservedBegun reserved_at cutoff workspace cancel =>
      Ok (SReserved (mkReserved (record_header e) reserved_at cutoff (Begun workspace) cancel
                       (reserved_result_bytes e)))
  | LTaskPromisedUnbound _ task cancel =>
      let? task := projection_new task in
      let? receipt := promised_unbound_new (record_header e) task cancel
                        (reserved_result_bytes e) in
      Ok (STaskPromisedUnbound receipt)
  | LTaskPromisedActorBound _ task workspace link_digest cancel =>
      let? task := projection_new task in
      let? link := stored_link e task workspace link_digest in
      let? receipt := promised_actor_bound_new (record_header e) task link cancel
                        (reserved_result_bytes e) in
      Ok (STaskPromisedActorBound receipt)
  | LTaskHandoffActorBound _ task workspace link_digest phase cancel stage =>
      let? task := projection_new task in
      let? link := stored_link e task workspace link_digest in
      let? stage :=
        match stage with
        | StageNone => Ok NoTerminal
        | StageStaged epoch terminal_digest body =>
            let? terminal := restore_held_terminal body terminal_digest in
            let? certificate := canonical_staged_transfer_certificate (row_key r)
                                  (row_key_digest r) link epoch terminal in
            Ok (Staged epoch terminal certificate)
        end in
      let? receipt := handoff_new (record_header e) task link phase cancel
                        (reserved_result_bytes e) stage in
      Ok (STaskHandoffActorBound receipt)
  | LTaskReceiptOwnedActorBound _ task workspace link_digest capacity cancel =>
      let? task := projection_new task in
      let? link := stored_link e task workspace link_digest in
      let? receipt := receipt_owned_new (record_header e) task link cancel
                        (reserved_result_bytes e) capacity in
      Ok (STaskReceiptOwnedActorBound receipt)
  | LDirectTerminalUnacked cutoff epoch terminal_digest body =>
      let? terminal := restore_held_terminal body terminal_digest in
      Ok (SDirectTerminalUnacked (mkDirect (record_header e) cutoff epoch terminal
                                    (reserved_result_bytes e)))
  | LTaskTerminalReceiptBacked task epoch terminal_digest body cancel =>
      let? terminal := restore_held_terminal body terminal_digest in
      let? task := projection_new task in
      let? receipt := receipt_backed_new (record_header e) task epoch terminal cancel
                        (reserved_result_bytes e) in
      Ok (STaskTerminalReceiptBacked receipt)
  | LAcknowledgementCommit _ _ _ _ => Err Corrupt
  | LAcknowledgedTombstone terminal_digest acknowledged_at =>
      match tombstone_new (row_key r) (row_key_digest r) terminal_digest acknowledged_at
              (ce_encoded_bytes e) with
      | Err _ => Err Corrupt
      | Ok receipt => Ok (SAcknowledgedTombstone receipt)
      end
  end.

(** [CatalogEntry::reservation] answers a reservation, an error, or panics:
    its [unreachable!] arm takes every other state. *)
Inductive reservation_answer :=
| Reservation (r : ReservedReceipt)
| NoReservation (e : ReceiptLedgerError)
| ReservationPanics.
Definition reservation (e : Entry) : reservation_answer :=
  match state e with
  | Err error => NoReservation error
  | Ok (SReserved r) => Reservation r
  | Ok (SCancelReserved _) | Ok (SDirectTerminalUnacked _) | Ok (STaskTerminalReceiptBacked _)
  | Ok (SAcknowledgedTombstone _) => NoReservation ReceiptRowPresentUnsupported
  | Ok _ => ReservationPanics
  end.

Definition exact_reserved_state (expected_key : ReceiptKey) (r : ReservedReceipt)
  : result State ReceiptLedgerError :=
  if bool_decide (rh_key (rr_record r) = expected_key) then Ok (SReserved r)
  else Err ReceiptDigestCollision.
End StateOf.
