(* ===== verification/ReceiptCatalog.v ===== *)
(** * Receipt catalog

    [crates/unica-execution/src/receipt_store/catalog.rs]: the in-memory
    catalog of receipt rows, its checks before an insertion, a removal or a
    replacement (alone or in a batch), and the commits that follow them.

    Counters are [u64] or [usize]: a check uses checked arithmetic, a commit
    the wrapping arithmetic of a release build.  [catalog_wf] says that every
    counter is the exact sum over the rows, that both identity indexes mirror
    the rows and that live rows have distinct mutation sequences; a checked
    commit keeps it, so no commit ever wraps.

    The map from rows to batch files is not part of the catalog here. *)

From Stdlib Require Import ZArith Lia String.
From stdpp Require Import base gmap list option numbers countable strings.
From S2P Require Import Prelude Contract ResultSize Redaction ReceiptLedger ReceiptStates.
From S2P Require Import ReceiptRows.

Local Open Scope Z_scope.

(** [u64::checked_sub] and [usize::from(bool)]. *)
Definition u64_checked_sub (a b : Z) : option Z := if a <? b then None else Some (a - b).
Definition flag (b : bool) : Z := if b then 1 else 0.

Section Catalog.
Context {V : Type} `{EqDecision V}.

Notation Row := (StoredActiveReceiptV1 V).
Notation Entry := (CatalogEntry V).

Record ReceiptCatalog := mkCatalog {
  cat_records : gmap digest Entry;
  cat_invocation_index : gmap InvocationId digest;
  cat_reserved_task_index : gmap TaskId digest;
  cat_actual_bytes : Z;
  cat_reserved_result_bytes : Z;
  cat_tombstone_bytes : Z;
  cat_live_records : Z;
  cat_tombstone_records : Z;
  cat_unavailable : bool;
}.
(** [ReceiptCatalog::default]. *)
Definition catalog_default : ReceiptCatalog := mkCatalog ∅ ∅ ∅ 0 0 0 0 0 false.

Definition set_unavailable (c : ReceiptCatalog) : ReceiptCatalog :=
  mkCatalog (cat_records c) (cat_invocation_index c) (cat_reserved_task_index c)
    (cat_actual_bytes c) (cat_reserved_result_bytes c) (cat_tombstone_bytes c)
    (cat_live_records c) (cat_tombstone_records c) true.

Definition entry_digest (e : Entry) : digest := row_key_digest (ce_record e).
Definition entry_invocation (e : Entry) : InvocationId := rk_invocation_id (row_key (ce_record e)).
Definition entry_task (e : Entry) : TaskId := rk_reserved_task_id (row_key (ce_record e)).
Definition entry_sequence (e : Entry) : Z := row_mutation_sequence (ce_record e).

(** Some live row other than [except] has this mutation sequence. *)
Definition live_sequence_used (c : ReceiptCatalog) (except : option digest) (sequence : Z) : bool :=
  existsb (λ p, negb (bool_decide (Some p.1 = except)) && negb (is_tombstone p.2)
                && (entry_sequence p.2 =? sequence)) (map_to_list (cat_records c)).

(** ** Insertion *)

Definition validate_catalog_insert (c : ReceiptCatalog) (e : Entry) (recovering : bool)
  : result unit ReceiptLedgerError :=
  let? _ := ok_or (u64_checked_add (cat_live_records c) (flag (negb (is_tombstone e)))) Corrupt in
  let? _ := ok_or (u64_checked_add (cat_tombstone_records c) (flag (is_tombstone e))) Corrupt in
  if is_some (cat_records c !! entry_digest e)
  then Err (if recovering then Corrupt else ReceiptDigestCollision)
  else if is_some (cat_invocation_index c !! entry_invocation e)
  then Err (if recovering then Corrupt else InvocationIdentityMismatch)
  else if is_some (cat_reserved_task_index c !! entry_task e)
  then Err (if recovering then Corrupt else ReservedTaskIdentityMismatch)
  else if negb (is_tombstone e) && live_sequence_used c None (entry_sequence e)
  then Err Corrupt
  else
    let? actual := ok_or (u64_checked_add (cat_actual_bytes c) (live_actual_bytes e))
                     CapacityExceeded in
    let? reserved := ok_or (u64_checked_add (cat_reserved_result_bytes c)
                              (reserved_result_bytes e)) CapacityExceeded in
    if is_none (u64_checked_add actual reserved)
    then Err (if recovering then Corrupt else CapacityExceeded)
    else
      let? _ := ok_or (u64_checked_add (cat_tombstone_bytes c) (tombstone_bytes e))
                  TombstoneCapacityExceeded in
      Ok tt.

Definition commit_catalog_insert (c : ReceiptCatalog) (e : Entry) : ReceiptCatalog :=
  let e := entry_without_result_body e in
  mkCatalog (<[entry_digest e := e]> (cat_records c))
    (<[entry_invocation e := entry_digest e]> (cat_invocation_index c))
    (<[entry_task e := entry_digest e]> (cat_reserved_task_index c))
    (u64_wrapping_add (cat_actual_bytes c) (live_actual_bytes e))
    (u64_wrapping_add (cat_reserved_result_bytes c) (reserved_result_bytes e))
    (u64_wrapping_add (cat_tombstone_bytes c) (tombstone_bytes e))
    (u64_wrapping_add (cat_live_records c) (flag (negb (is_tombstone e))))
    (u64_wrapping_add (cat_tombstone_records c) (flag (is_tombstone e)))
    (cat_unavailable c).

Definition insert_catalog_entry (c : ReceiptCatalog) (e : Entry) (recovering : bool)
  : result ReceiptCatalog ReceiptLedgerError :=
  let? _ := validate_catalog_insert c e recovering in
  Ok (commit_catalog_insert c e).

(** The running counters of a batch check. *)
Record BatchTotals := mkTotals {
  bt_live : Z; bt_tombstones : Z; bt_actual : Z; bt_reserved : Z; bt_tombstone_bytes : Z }.
Definition totals_of (c : ReceiptCatalog) : BatchTotals :=
  mkTotals (cat_live_records c) (cat_tombstone_records c) (cat_actual_bytes c)
    (cat_reserved_result_bytes c) (cat_tombstone_bytes c).

Fixpoint insert_batch_loop (c : ReceiptCatalog) (entries : list Entry) (sequences : list Z)
    (t : BatchTotals) : result BatchTotals ReceiptLedgerError :=
  match entries with
  | [] => Ok t
  | e :: rest =>
      if is_some (cat_records c !! entry_digest e) then Err ReceiptDigestCollision
      else if is_some (cat_invocation_index c !! entry_invocation e)
      then Err InvocationIdentityMismatch
      else if is_some (cat_reserved_task_index c !! entry_task e)
      then Err ReservedTaskIdentityMismatch
      else if bool_decide (entry_sequence e ∈ sequences) then Err Corrupt
      else
        let? counts :=
          if is_tombstone e
          then let? n := ok_or (u64_checked_add (bt_tombstones t) 1) TombstoneCapacityExceeded in
               Ok (bt_live t, n)
          else let? n := ok_or (u64_checked_add (bt_live t) 1) CapacityExceeded in
               Ok (n, bt_tombstones t) in
        let? actual := ok_or (u64_checked_add (bt_actual t) (live_actual_bytes e))
                         CapacityExceeded in
        let? reserved := ok_or (u64_checked_add (bt_reserved t) (reserved_result_bytes e))
                           CapacityExceeded in
        let? tombstones := ok_or (u64_checked_add (bt_tombstone_bytes t) (tombstone_bytes e))
                             TombstoneCapacityExceeded in
        insert_batch_loop c rest (entry_sequence e :: sequences)
          (mkTotals counts.1 counts.2 actual reserved tombstones)
  end.
Definition validate_catalog_insert_batch (c : ReceiptCatalog) (entries : list Entry)
  : result unit ReceiptLedgerError :=
  let? t := insert_batch_loop c entries [] (totals_of c) in
  if is_none (u64_checked_add (bt_actual t) (bt_reserved t)) then Err CapacityExceeded else Ok tt.

(** ** Expiry *)

(** [observed] is at or past [at + ttl]; an overflowing expiry never comes. *)
Definition reached (at_epoch ttl observed : Z) : bool :=
  is_some_and (λ expires, expires <=? observed) (u64_checked_add at_epoch ttl).
Definition entry_is_expired_tombstone (e : Entry) (observed : Z) : bool :=
  match row_lifecycle (ce_record e) with
  | LAcknowledgedTombstone _ acknowledged_at =>
      reached acknowledged_at ACKNOWLEDGED_TOMBSTONE_TTL_MS observed
  | _ => false
  end.
Definition entry_is_expired_direct_terminal (e : Entry) (observed : Z) : bool :=
  match row_lifecycle (ce_record e) with
  | LDirectTerminalUnacked _ terminal_epoch _ _ =>
      reached terminal_epoch DIRECT_TERMINAL_RETENTION_MS observed
  | _ => false
  end.
Definition entry_is_expired_task_receipt_terminal (e : Entry) (observed : Z) : bool :=
  match row_lifecycle (ce_record e) with
  | LTaskTerminalReceiptBacked task terminal_epoch _ _ _ =>
      reached terminal_epoch (tp_ttl_ms task) observed
  | _ => false
  end.
Definition catalog_entry_is_expired_identity_reclaimable (c : ReceiptCatalog) (d : digest)
    (observed : Z) : result bool ReceiptLedgerError :=
  let? e := ok_or (cat_records c !! d) Corrupt in
  Ok (entry_is_expired_tombstone e observed || entry_is_expired_direct_terminal e observed).

(** ** Removal *)

(** [map.get(key) == Some(expected)], by [entry_eq]. *)
Definition holds_entry (c : ReceiptCatalog) (expected : Entry) : bool :=
  is_some_and (λ e, entry_eq e expected) (cat_records c !! entry_digest expected).

Definition validate_catalog_remove (c : ReceiptCatalog) (expected : Entry)
  : result unit ReceiptLedgerError :=
  if negb (holds_entry c expected) then Err Corrupt
  else if negb (bool_decide (cat_invocation_index c !! entry_invocation expected
                             = Some (entry_digest expected)))
  then Err Corrupt
  else if negb (bool_decide (cat_reserved_task_index c !! entry_task expected
                             = Some (entry_digest expected)))
  then Err Corrupt
  else
    let? _ := ok_or (u64_checked_sub (cat_actual_bytes c) (live_actual_bytes expected)) Corrupt in
    let? _ := ok_or (u64_checked_sub (cat_reserved_result_bytes c)
                       (reserved_result_bytes expected)) Corrupt in
    let? _ := ok_or (u64_checked_sub (cat_tombstone_bytes c) (tombstone_bytes expected))
                Corrupt in
    Ok tt.

Definition commit_catalog_remove (c : ReceiptCatalog) (expected : Entry) : ReceiptCatalog :=
  mkCatalog (delete (entry_digest expected) (cat_records c))
    (delete (entry_invocation expected) (cat_invocation_index c))
    (delete (entry_task expected) (cat_reserved_task_index c))
    (u64_wrapping_sub (cat_actual_bytes c) (live_actual_bytes expected))
    (u64_wrapping_sub (cat_reserved_result_bytes c) (reserved_result_bytes expected))
    (u64_wrapping_sub (cat_tombstone_bytes c) (tombstone_bytes expected))
    (u64_wrapping_sub (cat_live_records c) (flag (negb (is_tombstone expected))))
    (u64_wrapping_sub (cat_tombstone_records c) (flag (is_tombstone expected)))
    (cat_unavailable c).

(** ** Replacement *)

(** [total.checked_sub(old).and_then(|n| n.checked_add(new))]. *)
Definition exchange (total old new : Z) : option Z :=
  u64_checked_sub total old ≫= λ n, u64_checked_add n new.

Definition validate_catalog_replace (c : ReceiptCatalog) (expected replacement : Entry)
  : result unit ReceiptLedgerError :=
  if negb (holds_entry c expected) then Err Corrupt
  else if negb (bool_decide (entry_digest replacement = entry_digest expected))
          || negb (bool_decide (row_key (ce_record replacement) = row_key (ce_record expected)))
  then Err Corrupt
  else if negb (is_tombstone replacement)
          && live_sequence_used c (Some (entry_digest expected)) (entry_sequence replacement)
  then Err Corrupt
  else
    let? _ := ok_or (exchange (cat_live_records c) (flag (negb (is_tombstone expected)))
                       (flag (negb (is_tombstone replacement)))) Corrupt in
    let? actual := ok_or (exchange (cat_actual_bytes c) (live_actual_bytes expected)
                            (live_actual_bytes replacement)) Corrupt in
    let? reserved := ok_or (exchange (cat_reserved_result_bytes c)
                              (reserved_result_bytes expected)
                              (reserved_result_bytes replacement)) Corrupt in
    if is_none (u64_checked_add actual reserved) then Err CapacityExceeded
    else
      let? _ := ok_or (exchange (cat_tombstone_records c) (flag (is_tombstone expected))
                         (flag (is_tombstone replacement))) Corrupt in
      let? _ := ok_or (exchange (cat_tombstone_bytes c) (tombstone_bytes expected)
                         (tombstone_bytes replacement)) Corrupt in
      Ok tt.

Fixpoint replace_batch_loop (c : ReceiptCatalog) (replacements : list (Entry * Entry))
    (digests : list digest) (sequences : list Z) (t : BatchTotals)
  : result BatchTotals ReceiptLedgerError :=
  match replacements with
  | [] => Ok t
  | (expected, replacement) :: rest =>
      if negb (holds_entry c expected) then Err Corrupt
      else if negb (bool_decide (entry_digest replacement = entry_digest expected))
              || negb (bool_decide (row_key (ce_record replacement)
                                    = row_key (ce_record expected)))
              || bool_decide (entry_digest expected ∈ digests)
      then Err Corrupt
      else if bool_decide (entry_sequence replacement ∈ sequences) then Err Corrupt
      else
        let? live := ok_or (exchange (bt_live t) (flag (negb (is_tombstone expected)))
                              (flag (negb (is_tombstone replacement)))) Corrupt in
        let? tombstones := ok_or (exchange (bt_tombstones t) (flag (is_tombstone expected))
                                    (flag (is_tombstone replacement))) Corrupt in
        let? actual := ok_or (exchange (bt_actual t) (live_actual_bytes expected)
                                (live_actual_bytes replacement)) Corrupt in
        let? reserved := ok_or (exchange (bt_reserved t) (reserved_result_bytes expected)
                                  (reserved_result_bytes replacement)) Corrupt in
        let? tombstone_bytes := ok_or (exchange (bt_tombstone_bytes t) (tombstone_bytes expected)
                                         (tombstone_bytes replacement)) Corrupt in
        replace_batch_loop c rest (entry_digest expected :: digests)
          (entry_sequence replacement :: sequences)
          (mkTotals live tombstones actual reserved tombstone_bytes)
  end.
Definition validate_catalog_replace_batch (c : ReceiptCatalog)
    (replacements : list (Entry * Entry)) : result unit ReceiptLedgerError :=
  let? t := replace_batch_loop c replacements [] [] (totals_of c) in
  if is_none (u64_checked_add (bt_actual t) (bt_reserved t)) then Err CapacityExceeded else Ok tt.

(** [None] is the panic of [expect] on a digest the catalog does not hold. *)
Definition commit_catalog_replace (c : ReceiptCatalog) (replacement : Entry)
  : option ReceiptCatalog :=
  let r := entry_without_result_body replacement in
  p ← cat_records c !! entry_digest r;
  let counts :=
    match is_tombstone p, 0 <? tombstone_bytes r with
    | false, true => (u64_wrapping_sub (cat_live_records c) 1,
                      u64_wrapping_add (cat_tombstone_records c) 1)
    | true, false => (u64_wrapping_add (cat_live_records c) 1,
                      u64_wrapping_sub (cat_tombstone_records c) 1)
    | _, _ => (cat_live_records c, cat_tombstone_records c)
    end in
  Some (mkCatalog (<[entry_digest r := r]> (cat_records c))
    (cat_invocation_index c) (cat_reserved_task_index c)
    (u64_wrapping_add (u64_wrapping_sub (cat_actual_bytes c) (live_actual_bytes p))
       (live_actual_bytes r))
    (u64_wrapping_add (u64_wrapping_sub (cat_reserved_result_bytes c) (reserved_result_bytes p))
       (reserved_result_bytes r))
    (u64_wrapping_add (u64_wrapping_sub (cat_tombstone_bytes c) (tombstone_bytes p))
       (tombstone_bytes r))
    counts.1 counts.2 (cat_unavailable c)).

(** [latch_catalog_error] and [latch_catalog_result]. *)
Definition latch_catalog_error {A} (c : ReceiptCatalog) (e : ReceiptLedgerError)
  : ReceiptCatalog * result A ReceiptLedgerError := (set_unavailable c, Err e).
Definition latch_catalog_result {A} (c : ReceiptCatalog) (r : result A ReceiptLedgerError)
  : ReceiptCatalog * result A ReceiptLedgerError :=
  match r with Ok a => (c, Ok a) | Err e => latch_catalog_error c e end.
End Catalog.

Arguments ReceiptCatalog : clear implicits.
