(* ===== verification/ReceiptCatalogFacts.v ===== *)
(** * Receipt catalog: invariant

    [catalog_wf]: every counter is the exact sum over the rows, both identity
    indexes mirror the rows, live rows have distinct mutation sequences and
    the totals fit in a [u64].  Checked insertions, removals and replacements,
    alone and in batches, keep it and act on the rows as a finite map. *)

From Stdlib Require Import ZArith Lia String.
From stdpp Require Import base gmap list option numbers countable strings.
From S2P Require Import Prelude Contract ResultSize Redaction ReceiptLedger ReceiptStates.
From S2P Require Import ReceiptRows ReceiptCatalog.

Local Open Scope Z_scope.

(** ** Sums over a map *)

Definition msum {K A} `{Countable K} (f : A → Z) (m : gmap K A) : Z :=
  map_fold (λ _ a acc, f a + acc) 0 m.

Section Sums.
Context {K A : Type} `{Countable K}.
Implicit Types (m : gmap K A) (f : A → Z).

Lemma msum_empty f : msum f (∅ : gmap K A) = 0.
Proof. unfold msum. apply map_fold_empty. Qed.
Lemma msum_insert f m k a : m !! k = None → msum f (<[k:=a]> m) = f a + msum f m.
Proof. intros Hk. unfold msum. rewrite map_fold_insert_L; [done| |done]. intros; lia. Qed.
Lemma msum_delete f m k a : m !! k = Some a → msum f (delete k m) = msum f m - f a.
Proof.
  intros Hk. rewrite <-(insert_delete_id m k a Hk) at 2.
  rewrite msum_insert by apply lookup_delete_eq. lia.
Qed.
Lemma msum_replace f m k a b :
  m !! k = Some a → msum f (<[k:=b]> m) = msum f m - f a + f b.
Proof.
  intros Hk. rewrite <-(insert_delete_eq m k b).
  rewrite msum_insert by apply lookup_delete_eq. rewrite (msum_delete f m k a Hk). lia.
Qed.
Lemma msum_nonneg f m : (∀ k a, m !! k = Some a → 0 ≤ f a) → 0 ≤ msum f m.
Proof.
  induction m as [|k a m Hk IH] using map_ind; intros Hf; [by rewrite msum_empty|].
  rewrite msum_insert by done.
  assert (0 ≤ f a) by (apply (Hf k); apply lookup_insert_eq).
  assert (0 ≤ msum f m); [|lia].
  apply IH. intros k' a' Hk'. apply (Hf k'). rewrite lookup_insert_ne; [done|congruence].
Qed.
Lemma msum_le f m k a : (∀ k a, m !! k = Some a → 0 ≤ f a) → m !! k = Some a → f a ≤ msum f m.
Proof.
  intros Hf Hk. pose proof (msum_delete f m k a Hk).
  assert (0 ≤ msum f (delete k m)); [|lia].
  apply msum_nonneg. intros k' a' Hk'. apply lookup_delete_Some in Hk' as [_ Hk']. eauto.
Qed.
End Sums.

(** ** Checked and wrapping arithmetic *)

Lemma u64_checked_sub_Some a b c : u64_checked_sub a b = Some c ↔ c = a - b ∧ b ≤ a.
Proof.
  unfold u64_checked_sub. destruct (Z.ltb_spec a b).
  - split; [done|lia].
  - split; [intros [= <-]; done|by intros [-> _]].
Qed.
Lemma exchange_Some t a b c :
  exchange t a b = Some c ↔ c = t - a + b ∧ a ≤ t ∧ t - a + b ≤ u64_max.
Proof.
  unfold exchange. rewrite bind_Some. setoid_rewrite u64_checked_sub_Some.
  setoid_rewrite u64_checked_add_Some. naive_solver.
Qed.

Lemma u64_checked_add_ok a b : a + b ≤ u64_max → u64_checked_add a b = Some (a + b).
Proof. intros. by apply u64_checked_add_Some. Qed.
Lemma u64_checked_sub_ok a b : b ≤ a → u64_checked_sub a b = Some (a - b).
Proof. intros. by apply u64_checked_sub_Some. Qed.
Lemma exchange_ok t a b : a ≤ t → t - a + b ≤ u64_max → exchange t a b = Some (t - a + b).
Proof. intros. by apply exchange_Some. Qed.
Lemma u64_wrapping_exchange t a b :
  0 ≤ t ≤ u64_max → 0 ≤ a ≤ t → 0 ≤ t - a + b ≤ u64_max →
  u64_wrapping_add (u64_wrapping_sub t a) b = t - a + b.
Proof.
  intros Ht Ha Hb. rewrite u64_wrapping_sub_small by lia.
  rewrite u64_wrapping_add_small by lia. lia.
Qed.

Section CatalogFacts.
Context {V : Type} `{EqDecision V}.

Notation Entry := (CatalogEntry V).
Notation Catalog := (ReceiptCatalog V).
Implicit Types (e a b : Entry) (c : Catalog) (m : gmap digest Entry).

(** ** Entries without bodies *)

Definition stripped (e : Entry) : Prop := entry_without_result_body e = e.

Lemma without_body_idemp (r : StoredActiveReceiptV1 V) :
  without_result_body (without_result_body r) = without_result_body r.
Proof.
  destruct r as [s q v k d l]. unfold without_result_body, row_set_body. cbn.
  f_equal. destruct l as [| | | | | | | | | | |? ? ? ? ? ? []| | | | |]; reflexivity.
Qed.
Lemma strip_stripped e : stripped (entry_without_result_body e).
Proof. unfold stripped, entry_without_result_body. cbn. by rewrite without_body_idemp. Qed.
Lemma strip_digest e : entry_digest (entry_without_result_body e) = entry_digest e.
Proof. done. Qed.
Lemma strip_invocation e : entry_invocation (entry_without_result_body e) = entry_invocation e.
Proof. done. Qed.
Lemma strip_task e : entry_task (entry_without_result_body e) = entry_task e.
Proof. done. Qed.
Lemma strip_sequence e : entry_sequence (entry_without_result_body e) = entry_sequence e.
Proof. done. Qed.
Lemma strip_tombstone e : is_tombstone (entry_without_result_body e) = is_tombstone e.
Proof.
  unfold is_tombstone. destruct e as [[s q v k d l] n]. cbn.
  destruct l as [| | | | | | | | | | |? ? ? ? ? ? []| | | | |]; reflexivity.
Qed.
Lemma strip_entitlement e :
  keeps_entitlement (row_lifecycle (ce_record (entry_without_result_body e)))
  = keeps_entitlement (row_lifecycle (ce_record e)).
Proof.
  destruct e as [[s q v k d l] n]. cbn.
  destruct l as [| | | | | | | | | | |? ? ? ? ? ? []| | | | |]; reflexivity.
Qed.
Lemma strip_bytes e :
  live_actual_bytes (entry_without_result_body e) = live_actual_bytes e
  ∧ reserved_result_bytes (entry_without_result_body e) = reserved_result_bytes e
  ∧ tombstone_bytes (entry_without_result_body e) = tombstone_bytes e.
Proof.
  unfold live_actual_bytes, reserved_result_bytes, tombstone_bytes.
  by rewrite strip_tombstone, strip_entitlement.
Qed.

Lemma entry_eq_true a b :
  entry_eq a b = true ↔ entry_without_result_body a = entry_without_result_body b.
Proof.
  unfold entry_eq, same_record, entry_without_result_body.
  rewrite andb_true_iff, Z.eqb_eq, bool_decide_eq_true. split.
  - by intros [-> ->].
  - intros Heq. split; [exact (f_equal ce_encoded_bytes Heq) | exact (f_equal ce_record Heq)].
Qed.
(** Equal entries have the same identity and take the same bytes. *)
Lemma entry_eq_view a b :
  entry_eq a b = true →
  entry_digest a = entry_digest b ∧ row_key (ce_record a) = row_key (ce_record b)
  ∧ entry_sequence a = entry_sequence b ∧ is_tombstone a = is_tombstone b
  ∧ ce_encoded_bytes a = ce_encoded_bytes b
  ∧ live_actual_bytes a = live_actual_bytes b
  ∧ reserved_result_bytes a = reserved_result_bytes b ∧ tombstone_bytes a = tombstone_bytes b.
Proof.
  intros Heq. apply entry_eq_true in Heq.
  pose proof (strip_bytes a) as (Ha1 & Ha2 & Ha3). pose proof (strip_bytes b) as (Hb1 & Hb2 & Hb3).
  rewrite <-(strip_tombstone a), <-(strip_tombstone b).
  rewrite Heq in *. rewrite <-Ha1, <-Ha2, <-Ha3, <-Hb1, <-Hb2, <-Hb3.
  assert (row_key_digest (ce_record a) = row_key_digest (ce_record b)
          ∧ row_key (ce_record a) = row_key (ce_record b)
          ∧ row_mutation_sequence (ce_record a) = row_mutation_sequence (ce_record b)
          ∧ ce_encoded_bytes a = ce_encoded_bytes b) as (H1 & H2 & H3 & H4).
  { unfold entry_without_result_body, without_result_body, row_set_body in Heq.
    injection Heq as ? ? ? ? ? ? ?. done. }
  done.
Qed.

Lemma fits_bytes e :
  entry_fits e → 0 ≤ live_actual_bytes e ∧ 0 ≤ reserved_result_bytes e ∧ 0 ≤ tombstone_bytes e.
Proof.
  unfold entry_fits, live_actual_bytes, reserved_result_bytes, tombstone_bytes.
  intros. destruct (is_tombstone e), (keeps_entitlement _); lia.
Qed.
Lemma tombstone_bytes_positive e : entry_fits e → (0 <? tombstone_bytes e) = is_tombstone e.
Proof. unfold entry_fits, tombstone_bytes. intros. destruct (is_tombstone e); lia. Qed.
Lemma flag_range (b : bool) : 0 ≤ flag b ≤ 1.
Proof. destruct b; cbn; lia. Qed.

(** ** Identity indexes *)

(** [idx] maps the [key] of every row to its digest, and nothing else. *)
Definition indexes {K} `{Countable K} (key : Entry → K) (idx : gmap K digest)
    (m : gmap digest Entry) : Prop :=
  ∀ i d, idx !! i = Some d ↔ ∃ e, m !! d = Some e ∧ key e = i.

Section Indexes.
Context {K : Type} `{Countable K}.
Implicit Types (key : Entry → K) (idx : gmap K digest).

Lemma indexes_insert key idx m d e :
  indexes key idx m → idx !! key e = None → m !! d = None →
  indexes key (<[key e := d]> idx) (<[d := e]> m).
Proof.
  intros Hidx Hkey Hd i d'. rewrite lookup_insert_Some. split.
  - intros [[<- <-]|[Hne Hi]]; [exists e; by rewrite lookup_insert_eq|].
    apply Hidx in Hi as (e' & He' & <-). exists e'. split; [|done].
    rewrite lookup_insert_ne; [done|congruence].
  - intros (e' & He' & <-). apply lookup_insert_Some in He' as [[-> ->]|[Hne He']]; [by left|].
    assert (idx !! key e' = Some d') as Hi by (apply Hidx; eauto).
    right. split; [congruence|done].
Qed.
Lemma indexes_delete key idx m d e :
  indexes key idx m → m !! d = Some e → indexes key (delete (key e) idx) (delete d m).
Proof.
  intros Hidx Hd i d'. rewrite lookup_delete_Some.
  assert (idx !! key e = Some d) as Hkey by (apply Hidx; eauto). split.
  - intros [Hne Hi]. apply Hidx in Hi as (e' & He' & <-). exists e'. split; [|done].
    apply lookup_delete_Some. split; [congruence|done].
  - intros (e' & He' & <-). apply lookup_delete_Some in He' as [Hne He'].
    assert (idx !! key e' = Some d') as Hi by (apply Hidx; eauto).
    split; [congruence|done].
Qed.
Lemma indexes_replace key idx m d p e :
  indexes key idx m → m !! d = Some p → key e = key p → indexes key idx (<[d := e]> m).
Proof.
  intros Hidx Hd Hkey i d'. rewrite (Hidx i d'). split.
  - intros (e' & He' & <-). destruct (decide (d = d')) as [->|Hne].
    + exists e. rewrite lookup_insert_eq. split; [done|congruence].
    + exists e'. by rewrite lookup_insert_ne.
  - intros (e' & He' & <-). apply lookup_insert_Some in He' as [[-> ->]|[Hne He']]; eauto.
Qed.
End Indexes.

(** Live rows have distinct mutation sequences. *)
Definition distinct_sequences (m : gmap digest Entry) : Prop :=
  ∀ d1 d2 e1 e2, m !! d1 = Some e1 → m !! d2 = Some e2 →
    is_tombstone e1 = false → is_tombstone e2 = false →
    entry_sequence e1 = entry_sequence e2 → d1 = d2.
(** No other live row has the sequence of [e]. *)
Definition fresh_sequence (m : gmap digest Entry) (d : digest) (e : Entry) : Prop :=
  ∀ d' e', m !! d' = Some e' → d' ≠ d → is_tombstone e' = false → is_tombstone e = false →
    entry_sequence e' ≠ entry_sequence e.

Lemma distinct_insert m d e :
  distinct_sequences m → fresh_sequence m d e → distinct_sequences (<[d := e]> m).
Proof.
  intros Hd Hf d1 d2 e1 e2 H1 H2 T1 T2 Hs.
  apply lookup_insert_Some in H1 as [[-> ->]|[N1 H1]];
    apply lookup_insert_Some in H2 as [[-> ->]|[N2 H2]]; [done| | |eauto].
  - exfalso. by apply (Hf d2 e2).
  - exfalso. by apply (Hf d1 e1).
Qed.
Lemma distinct_delete m d : distinct_sequences m → distinct_sequences (delete d m).
Proof.
  intros Hd d1 d2 e1 e2 H1 H2. apply lookup_delete_Some in H1 as [_ H1].
  apply lookup_delete_Some in H2 as [_ H2]. eauto.
Qed.

(** ** The invariant *)

Definition live_flag (e : Entry) : Z := flag (negb (is_tombstone e)).
Definition tombstone_flag (e : Entry) : Z := flag (is_tombstone e).

Definition row_wf (d : digest) (e : Entry) : Prop :=
  entry_digest e = d ∧ entry_fits e ∧ stripped e.

(** The byte and row totals of a set of rows fit their integers ... *)
Definition within_budget (m : gmap digest Entry) : Prop :=
  msum live_actual_bytes m ≤ u64_max ∧ msum reserved_result_bytes m ≤ u64_max
  ∧ msum tombstone_bytes m ≤ u64_max ∧ msum live_flag m ≤ u64_max
  ∧ msum tombstone_flag m ≤ u64_max.
(** ... and so do all the bytes the live rows hold or may still claim. *)
Definition within_capacity (m : gmap digest Entry) : Prop :=
  msum live_actual_bytes m + msum reserved_result_bytes m ≤ u64_max.

Record catalog_wf (c : Catalog) : Prop := {
  wf_rows : ∀ d e, cat_records c !! d = Some e → row_wf d e;
  wf_invocations : indexes entry_invocation (cat_invocation_index c) (cat_records c);
  wf_tasks : indexes entry_task (cat_reserved_task_index c) (cat_records c);
  wf_sequences : distinct_sequences (cat_records c);
  wf_actual : cat_actual_bytes c = msum live_actual_bytes (cat_records c);
  wf_reserved : cat_reserved_result_bytes c = msum reserved_result_bytes (cat_records c);
  wf_tombstone_bytes : cat_tombstone_bytes c = msum tombstone_bytes (cat_records c);
  wf_live : cat_live_records c = msum live_flag (cat_records c);
  wf_tombstones : cat_tombstone_records c = msum tombstone_flag (cat_records c);
  wf_budget : within_budget (cat_records c);
}.
(** A catalog between two operations. *)
Definition catalog_ok (c : Catalog) : Prop := catalog_wf c ∧ within_capacity (cat_records c).

Lemma catalog_default_wf : catalog_wf catalog_default.
Proof.
  split; cbn; try (rewrite msum_empty; reflexivity).
  - by intros d e Hd.
  - intros i d. by rewrite lookup_empty; split; [|intros (? & ? & _)].
  - intros i d. by rewrite lookup_empty; split; [|intros (? & ? & _)].
  - by intros d1 d2 e1 e2 Hd.
  - unfold within_budget. rewrite !msum_empty. unfold u64_max. lia.
Qed.

(** Each row adds non-negative amounts. *)
Lemma rows_nonneg m f :
  (∀ d e, m !! d = Some e → row_wf d e) →
  f = live_actual_bytes ∨ f = reserved_result_bytes ∨ f = tombstone_bytes ∨ f = live_flag
    ∨ f = tombstone_flag →
  ∀ d e, m !! d = Some e → 0 ≤ f e.
Proof.
  intros Hrows Hf d e Hd. destruct (Hrows d e Hd) as (_ & Hfit & _).
  apply fits_bytes in Hfit as (? & ? & ?).
  destruct Hf as [->|[->|[->|[->| ->]]]]; try done; apply flag_range.
Qed.
Lemma totals_nonneg m :
  (∀ d e, m !! d = Some e → row_wf d e) →
  0 ≤ msum live_actual_bytes m ∧ 0 ≤ msum reserved_result_bytes m ∧ 0 ≤ msum tombstone_bytes m
  ∧ 0 ≤ msum live_flag m ∧ 0 ≤ msum tombstone_flag m.
Proof. intros Hrows. repeat split; apply msum_nonneg, rows_nonneg; naive_solver. Qed.
Lemma totals_le m d e :
  (∀ d e, m !! d = Some e → row_wf d e) → m !! d = Some e →
  live_actual_bytes e ≤ msum live_actual_bytes m
  ∧ reserved_result_bytes e ≤ msum reserved_result_bytes m
  ∧ tombstone_bytes e ≤ msum tombstone_bytes m ∧ live_flag e ≤ msum live_flag m
  ∧ tombstone_flag e ≤ msum tombstone_flag m.
Proof.
  intros Hrows Hd. repeat split; (apply (msum_le _ m d e); [apply rows_nonneg; naive_solver|done]).
Qed.

Lemma live_sequence_used_false c except sequence :
  live_sequence_used c except sequence = false ↔
  ∀ d e, cat_records c !! d = Some e → Some d ≠ except → is_tombstone e = false →
         entry_sequence e ≠ sequence.
Proof.
  unfold live_sequence_used. rewrite <-not_true_iff_false, existsb_exists. split.
  - intros Hno d e Hd Hne Ht Hs. apply Hno. exists (d, e). split.
    + apply list_elem_of_In. by apply elem_of_map_to_list.
    + cbn. rewrite bool_decide_false by done. rewrite Ht, Hs, Z.eqb_refl. done.
  - intros Hall ([d e] & Hin & Htest). apply list_elem_of_In, elem_of_map_to_list in Hin.
    cbn in Htest. rewrite !andb_true_iff, !negb_true_iff in Htest.
    destruct Htest as ((Hne & Ht) & Hs). apply bool_decide_eq_false in Hne.
    apply Z.eqb_eq in Hs. by apply (Hall d e Hin Hne Ht).
Qed.

(** ** Insertion *)

(** What an insertion needs of the rows. *)
Record insertable_row (m : gmap digest Entry) (e : Entry) : Prop := {
  ins_digest : m !! entry_digest e = None;
  ins_invocation : ∀ d e', m !! d = Some e' → entry_invocation e' ≠ entry_invocation e;
  ins_task : ∀ d e', m !! d = Some e' → entry_task e' ≠ entry_task e;
  ins_sequence : fresh_sequence m (entry_digest e) e;
}.
Record insertable (m : gmap digest Entry) (e : Entry) : Prop := {
  ins_row : insertable_row m e;
  ins_budget : within_budget (<[entry_digest e := entry_without_result_body e]> m);
  ins_capacity : within_capacity (<[entry_digest e := entry_without_result_body e]> m);
}.

Lemma index_none {K} `{Countable K} (key : Entry → K) idx m i :
  indexes key idx m → idx !! i = None ↔ ∀ d e, m !! d = Some e → key e ≠ i.
Proof.
  intros Hidx. split.
  - intros Hi d e Hd Hk. assert (idx !! i = Some d) by (apply Hidx; eauto). congruence.
  - intros Hno. destruct (idx !! i) as [d|] eqn:Hi; [|done].
    apply Hidx in Hi as (e & Hd & Hk). by destruct (Hno d e Hd).
Qed.

Lemma fresh_of_unused c except e :
  is_tombstone e = false →
  live_sequence_used c except (entry_sequence e) = false →
  except = None ∨ except = Some (entry_digest e) →
  fresh_sequence (cat_records c) (entry_digest e) e.
Proof.
  intros He Hused Hex d' e' Hd' Hne Ht _.
  apply (proj1 (live_sequence_used_false c except _) Hused d' e' Hd'); [|done].
  destruct Hex as [-> | ->]; congruence.
Qed.

(** The totals with [e] put in place of the amounts in [p]. *)
Lemma strip_flags e :
  live_flag (entry_without_result_body e) = live_flag e
  ∧ tombstone_flag (entry_without_result_body e) = tombstone_flag e.
Proof. unfold live_flag, tombstone_flag. by rewrite strip_tombstone. Qed.
Lemma budget_insert m e :
  m !! entry_digest e = None →
  within_budget (<[entry_digest e := entry_without_result_body e]> m) ↔
  msum live_actual_bytes m + live_actual_bytes e ≤ u64_max
  ∧ msum reserved_result_bytes m + reserved_result_bytes e ≤ u64_max
  ∧ msum tombstone_bytes m + tombstone_bytes e ≤ u64_max
  ∧ msum live_flag m + live_flag e ≤ u64_max
  ∧ msum tombstone_flag m + tombstone_flag e ≤ u64_max.
Proof.
  intros Hd. unfold within_budget. rewrite !msum_insert by done.
  destruct (strip_bytes e) as (-> & -> & ->). destruct (strip_flags e) as (-> & ->). lia.
Qed.
Lemma budget_replace m p e :
  m !! entry_digest e = Some p →
  within_budget (<[entry_digest e := entry_without_result_body e]> m) ↔
  msum live_actual_bytes m - live_actual_bytes p + live_actual_bytes e ≤ u64_max
  ∧ msum reserved_result_bytes m - reserved_result_bytes p + reserved_result_bytes e ≤ u64_max
  ∧ msum tombstone_bytes m - tombstone_bytes p + tombstone_bytes e ≤ u64_max
  ∧ msum live_flag m - live_flag p + live_flag e ≤ u64_max
  ∧ msum tombstone_flag m - tombstone_flag p + tombstone_flag e ≤ u64_max.
Proof.
  intros Hd. unfold within_budget. rewrite !(msum_replace _ m _ p) by done.
  destruct (strip_bytes e) as (-> & -> & ->). destruct (strip_flags e) as (-> & ->). lia.
Qed.
Lemma capacity_insert m e :
  m !! entry_digest e = None →
  within_capacity (<[entry_digest e := entry_without_result_body e]> m) ↔
  msum live_actual_bytes m + live_actual_bytes e
    + (msum reserved_result_bytes m + reserved_result_bytes e) ≤ u64_max.
Proof.
  intros Hd. unfold within_capacity. rewrite !msum_insert by done.
  destruct (strip_bytes e) as (-> & -> & _). lia.
Qed.
Lemma capacity_replace m p e :
  m !! entry_digest e = Some p →
  within_capacity (<[entry_digest e := entry_without_result_body e]> m) ↔
  msum live_actual_bytes m - live_actual_bytes p + live_actual_bytes e
    + (msum reserved_result_bytes m - reserved_result_bytes p + reserved_result_bytes e) ≤ u64_max.
Proof.
  intros Hd. unfold within_capacity. rewrite !(msum_replace _ m _ p) by done.
  destruct (strip_bytes e) as (-> & -> & _). lia.
Qed.

Ltac checked :=
  opt_prop; repeat match goal with
    | E : ok_or _ _ = Ok _ |- _ => apply ok_or_Ok in E
    | E : u64_checked_add _ _ = Some _ |- _ => apply u64_checked_add_Some in E as [-> ?]
    | E : u64_checked_sub _ _ = Some _ |- _ => apply u64_checked_sub_Some in E as [-> ?]
    | E : exchange _ _ _ = Some _ |- _ => apply exchange_Some in E as (-> & ? & ?)
  end.

Lemma validate_insert_Ok c e recovering :
  catalog_wf c → validate_catalog_insert c e recovering = Ok tt → insertable (cat_records c) e.
Proof.
  intros W Hv. unfold validate_catalog_insert in Hv. break Hv; checked.
  split; [split; [done| | |]| |].
  - by apply (index_none _ _ _ _ (wf_invocations c W)).
  - by apply (index_none _ _ _ _ (wf_tasks c W)).
  - destruct (is_tombstone e) eqn:Ht; [by intros ? ? ? ? ? ?; congruence|].
    by apply (fresh_of_unused c None); [done| |left].
  - apply budget_insert; [done|]. fold (live_flag e) (tombstone_flag e) in *.
    rewrite <-(wf_actual c W), <-(wf_reserved c W), <-(wf_tombstone_bytes c W),
      <-(wf_live c W), <-(wf_tombstones c W). lia.
  - apply capacity_insert; [done|]. rewrite <-(wf_actual c W), <-(wf_reserved c W). lia.
Qed.

(** ... and the check refuses nothing else. *)
Lemma insertable_validates c e recovering :
  catalog_wf c → entry_fits e → insertable (cat_records c) e →
  validate_catalog_insert c e recovering = Ok tt.
Proof.
  intros W Hfit [[Hd Hi Ht Hs] Hb Hc].
  apply budget_insert in Hb as (B1 & B2 & B3 & B4 & B5); [|done].
  apply capacity_insert in Hc; [|done].
  pose proof (fits_bytes e Hfit) as (? & ? & ?).
  pose proof (totals_nonneg _ (wf_rows c W)) as (? & ? & ? & ? & ?).
  rewrite <-(wf_actual c W), <-(wf_reserved c W), <-(wf_tombstone_bytes c W),
      <-(wf_live c W), <-(wf_tombstones c W) in *.
  apply (index_none _ _ _ _ (wf_invocations c W)) in Hi.
  apply (index_none _ _ _ _ (wf_tasks c W)) in Ht.
  unfold validate_catalog_insert. fold (live_flag e) (tombstone_flag e).
  rewrite !u64_checked_add_ok by lia. cbn [ok_or].
  rewrite Hd, Hi, Ht. cbn [is_some].
  assert (negb (is_tombstone e) && live_sequence_used c None (entry_sequence e) = false) as ->.
  { destruct (is_tombstone e) eqn:He; [done|]. cbn. apply live_sequence_used_false.
    intros d' e' Hd' _ Ht'. apply (Hs d' e' Hd'); [congruence|done|done]. }
  by rewrite u64_checked_add_ok by lia.
Qed.

Lemma row_wf_strip e : entry_fits e → row_wf (entry_digest e) (entry_without_result_body e).
Proof. intros. split_and!; [done|done|apply strip_stripped]. Qed.
Lemma rows_insert m d e :
  (∀ d e, m !! d = Some e → row_wf d e) → row_wf d e →
  ∀ d' e', <[d := e]> m !! d' = Some e' → row_wf d' e'.
Proof.
  intros Hm He d' e' Hd'. apply lookup_insert_Some in Hd' as [[<- <-]|[_ Hd']]; eauto.
Qed.

Lemma fresh_strip m d e :
  fresh_sequence m d e → fresh_sequence m d (entry_without_result_body e).
Proof. intros Hf d' e'. rewrite strip_tombstone, strip_sequence. apply Hf. Qed.

Lemma commit_insert_wf c e :
  catalog_wf c → entry_fits e → insertable_row (cat_records c) e →
  within_budget (<[entry_digest e := entry_without_result_body e]> (cat_records c)) →
  catalog_wf (commit_catalog_insert c e).
Proof.
  intros W Hfit [Hd Hi Ht Hs] Hb.
  pose proof (totals_nonneg _ (rows_insert _ _ _ (wf_rows c W) (row_wf_strip e Hfit))) as Hn.
  pose proof (totals_nonneg _ (wf_rows c W)) as Hn0. pose proof Hb as (B1 & B2 & B3 & B4 & B5).
  assert (∀ f, msum f (<[entry_digest e := entry_without_result_body e]> (cat_records c))
               = msum f (cat_records c) + f (entry_without_result_body e)) as Hsum
    by (intros f; rewrite msum_insert by done; lia).
  do 5 rewrite Hsum in Hn. rewrite Hsum in B1, B2, B3, B4, B5.
  split; unfold commit_catalog_insert; cbn.
  - by apply rows_insert; [apply W|apply row_wf_strip].
  - apply (indexes_insert entry_invocation); [apply W| |done].
    by apply (index_none _ _ _ _ (wf_invocations c W)).
  - apply (indexes_insert entry_task); [apply W| |done].
    by apply (index_none _ _ _ _ (wf_tasks c W)).
  - apply distinct_insert; [apply W|by apply fresh_strip].
  - rewrite Hsum, (wf_actual c W). apply u64_wrapping_add_small. lia.
  - rewrite Hsum, (wf_reserved c W). apply u64_wrapping_add_small. lia.
  - rewrite Hsum, (wf_tombstone_bytes c W). apply u64_wrapping_add_small. lia.
  - rewrite Hsum, (wf_live c W). apply u64_wrapping_add_small.
    change (flag (negb (is_tombstone (entry_without_result_body e))))
      with (live_flag (entry_without_result_body e)). lia.
  - rewrite Hsum, (wf_tombstones c W). apply u64_wrapping_add_small.
    change (flag (is_tombstone (entry_without_result_body e)))
      with (tombstone_flag (entry_without_result_body e)). lia.
  - exact Hb.
Qed.
(** ** Removal *)

(** The catalog holds the row of [e], whichever copy has the body. *)
Definition held (m : gmap digest Entry) (e : Entry) : Prop :=
  m !! entry_digest e = Some (entry_without_result_body e).

Lemma holds_entry_true c e :
  catalog_wf c → holds_entry c e = true ↔ held (cat_records c) e.
Proof.
  intros W. unfold holds_entry, held. rewrite is_some_and_true. split.
  - intros (s & Hs & Heq). apply entry_eq_true in Heq.
    destruct (wf_rows c W _ _ Hs) as (_ & _ & Hstr). rewrite Hs. congruence.
  - intros Hs. eexists. split; [exact Hs|]. apply entry_eq_true. apply strip_stripped.
Qed.

(** The row of a held entry takes the bytes of the entry. *)
Lemma held_view c e :
  catalog_wf c → held (cat_records c) e →
  entry_fits e
  ∧ live_actual_bytes e ≤ cat_actual_bytes c
  ∧ reserved_result_bytes e ≤ cat_reserved_result_bytes c
  ∧ tombstone_bytes e ≤ cat_tombstone_bytes c ∧ live_flag e ≤ cat_live_records c
  ∧ tombstone_flag e ≤ cat_tombstone_records c.
Proof.
  intros W Hh. pose proof (totals_le _ _ _ (wf_rows c W) Hh) as Hle.
  destruct (strip_bytes e) as (S1 & S2 & S3), (strip_flags e) as (S4 & S5).
  destruct (wf_rows c W _ _ Hh) as (_ & Hfit & _).
  rewrite (wf_actual c W), (wf_reserved c W), (wf_tombstone_bytes c W), (wf_live c W),
    (wf_tombstones c W). split; [exact Hfit|]. lia.
Qed.

(** A removal is refused exactly when the row is not the expected one. *)
Lemma validate_remove_Ok c e :
  catalog_wf c → validate_catalog_remove c e = Ok tt ↔ held (cat_records c) e.
Proof.
  intros W. unfold validate_catalog_remove.
  pose proof (holds_entry_true c e W) as Hiff. split.
  - intros Hv. destruct (holds_entry c e); [by apply Hiff|done].
  - intros Hh. rewrite (proj2 Hiff Hh). cbn [negb].
    destruct (held_view c e W Hh) as (_ & ? & ? & ? & ? & ?).
    rewrite !bool_decide_true by (apply W; eexists; split; [exact Hh|done]). cbn [negb].
    by rewrite !u64_checked_sub_ok by lia.
Qed.

Lemma commit_remove_wf c e :
  catalog_wf c → held (cat_records c) e → catalog_wf (commit_catalog_remove c e).
Proof.
  intros W Hh. destruct (held_view c e W Hh) as (Hfit & ? & ? & ? & ? & ?).
  destruct (fits_bytes e Hfit) as (? & ? & ?). destruct (wf_budget c W) as (B1 & B2 & B3 & B4 & B5).
  assert (∀ f, msum f (delete (entry_digest e) (cat_records c))
               = msum f (cat_records c) - f (entry_without_result_body e)) as Hsum
    by (intros f; by apply msum_delete).
  destruct (strip_bytes e) as (S1 & S2 & S3), (strip_flags e) as (S4 & S5).
  rewrite <-(wf_actual c W), <-(wf_reserved c W), <-(wf_tombstone_bytes c W), <-(wf_live c W),
    <-(wf_tombstones c W) in *.
  pose proof (flag_range (is_tombstone e)). pose proof (flag_range (negb (is_tombstone e))).
  fold (live_flag e) in *. fold (tombstone_flag e) in *.
  split; unfold commit_catalog_remove; cbn [cat_records cat_invocation_index
    cat_reserved_task_index cat_actual_bytes cat_reserved_result_bytes cat_tombstone_bytes
    cat_live_records cat_tombstone_records].
  - intros d' e' Hd'. apply lookup_delete_Some in Hd' as [_ Hd']. by apply (wf_rows c W).
  - rewrite <-strip_invocation. by apply indexes_delete; [apply W|].
  - rewrite <-strip_task. by apply indexes_delete; [apply W|].
  - apply distinct_delete, W.
  - rewrite Hsum, <-(wf_actual c W), S1. apply u64_wrapping_sub_small. lia.
  - rewrite Hsum, <-(wf_reserved c W), S2. apply u64_wrapping_sub_small. lia.
  - rewrite Hsum, <-(wf_tombstone_bytes c W), S3. apply u64_wrapping_sub_small. lia.
  - fold (live_flag e).
    rewrite Hsum, <-(wf_live c W), S4. apply u64_wrapping_sub_small. lia.
  - fold (tombstone_flag e).
    rewrite Hsum, <-(wf_tombstones c W), S5. apply u64_wrapping_sub_small. lia.
  - unfold within_budget. rewrite !Hsum, <-(wf_actual c W), <-(wf_reserved c W),
      <-(wf_tombstone_bytes c W), <-(wf_live c W), <-(wf_tombstones c W). lia.
Qed.

(** ** Replacement *)

Record replaceable (m : gmap digest Entry) (e r : Entry) : Prop := {
  rep_held : held m e;
  rep_digest : entry_digest r = entry_digest e;
  rep_key : row_key (ce_record r) = row_key (ce_record e);
  rep_sequence : fresh_sequence m (entry_digest r) r;
  rep_budget : within_budget (<[entry_digest r := entry_without_result_body r]> m);
  rep_capacity : within_capacity (<[entry_digest r := entry_without_result_body r]> m);
}.

Lemma validate_replace_Ok c e r :
  catalog_wf c → validate_catalog_replace c e r = Ok tt → replaceable (cat_records c) e r.
Proof.
  intros W Hv. unfold validate_catalog_replace in Hv. break Hv; checked.
  apply (holds_entry_true c e W) in E. split; [done|done|done| | |].
  - destruct (is_tombstone r) eqn:Ht; [by intros ? ? ? ? ? ?; congruence|].
    apply (fresh_of_unused c (Some (entry_digest e))); [done|done|right; congruence].
  - apply (budget_replace _ (entry_without_result_body e)); [congruence|].
    fold (live_flag r) (tombstone_flag r) (live_flag e) (tombstone_flag e) in *.
    destruct (strip_bytes e) as (-> & -> & ->), (strip_flags e) as (-> & ->).
    rewrite <-(wf_actual c W), <-(wf_reserved c W), <-(wf_tombstone_bytes c W),
      <-(wf_live c W), <-(wf_tombstones c W). lia.
  - apply (capacity_replace _ (entry_without_result_body e)); [congruence|].
    destruct (strip_bytes e) as (-> & -> & _). rewrite <-(wf_actual c W), <-(wf_reserved c W). lia.
Qed.

Lemma flags_of e :
  live_flag e = (if is_tombstone e then 0 else 1)
  ∧ tombstone_flag e = (if is_tombstone e then 1 else 0).
Proof. unfold live_flag, tombstone_flag. by destruct (is_tombstone e). Qed.

(** A committed replacement puts the row in place of the one it found. *)
Lemma commit_replace_wf c r p :
  catalog_wf c → entry_fits r → cat_records c !! entry_digest r = Some p →
  row_key (ce_record r) = row_key (ce_record p) →
  fresh_sequence (cat_records c) (entry_digest r) r →
  within_budget (<[entry_digest r := entry_without_result_body r]> (cat_records c)) →
  ∃ c', commit_catalog_replace c r = Some c' ∧ catalog_wf c'
        ∧ cat_records c' = <[entry_digest r := entry_without_result_body r]> (cat_records c)
        ∧ cat_unavailable c' = cat_unavailable c.
Proof.
  intros W Hfit Hp Hkey Hs Hb. unfold commit_catalog_replace.
  rewrite strip_digest, Hp. cbn [mbind option_bind]. eexists. split; [reflexivity|].
  split; [|done].
  pose proof (totals_nonneg _ (rows_insert _ _ _ (wf_rows c W) (row_wf_strip r Hfit))) as Hn.
  pose proof (totals_le _ _ _ (wf_rows c W) Hp) as Hle.
  destruct (wf_rows c W _ _ Hp) as (Hpd & Hpf & _).
  assert (∀ f, msum f (<[entry_digest r := entry_without_result_body r]> (cat_records c))
               = msum f (cat_records c) - f p + f (entry_without_result_body r)) as Hsum
    by (intros f; by apply msum_replace).
  pose proof Hb as (B1 & B2 & B3 & B4 & B5). pose proof (wf_budget c W) as (A1 & A2 & A3 & A4 & A5).
  pose proof (totals_nonneg _ (wf_rows c W)) as Hn0. pose proof (fits_bytes p Hpf) as Hnp.
  do 5 rewrite Hsum in Hn. rewrite Hsum in B1, B2, B3, B4, B5.
  split; cbn [cat_records cat_invocation_index
    cat_reserved_task_index cat_actual_bytes cat_reserved_result_bytes cat_tombstone_bytes
    cat_live_records cat_tombstone_records].
  - by apply rows_insert; [apply W|apply row_wf_strip].
  - apply (indexes_replace _ _ _ _ p); [apply W|done|].
    unfold entry_invocation. cbn. congruence.
  - apply (indexes_replace _ _ _ _ p); [apply W|done|]. unfold entry_task. cbn. congruence.
  - apply distinct_insert; [apply W|by apply fresh_strip].
  - rewrite Hsum, (wf_actual c W). apply u64_wrapping_exchange; lia.
  - rewrite Hsum, (wf_reserved c W). apply u64_wrapping_exchange; lia.
  - rewrite Hsum, (wf_tombstone_bytes c W). apply u64_wrapping_exchange; lia.
  - rewrite Hsum, (wf_live c W), tombstone_bytes_positive by done.
    destruct (flags_of p) as [Fp _], (flags_of (entry_without_result_body r)) as [Fr _].
    rewrite Fp, Fr in *.
    destruct (is_tombstone p), (is_tombstone (entry_without_result_body r)); cbn in *;
      rewrite ?u64_wrapping_add_small, ?u64_wrapping_sub_small; lia.
  - rewrite Hsum, (wf_tombstones c W), tombstone_bytes_positive by done.
    destruct (flags_of p) as [_ Fp], (flags_of (entry_without_result_body r)) as [_ Fr].
    rewrite Fp, Fr in *.
    destruct (is_tombstone p), (is_tombstone (entry_without_result_body r)); cbn in *;
      rewrite ?u64_wrapping_add_small, ?u64_wrapping_sub_small; lia.
  - exact Hb.
Qed.
End CatalogFacts.
