(* ===== verification/ReceiptCatalogProps.v ===== *)
(** * Receipt catalog: theorems

    Batches, sequences of catalog operations, and what holds of every catalog
    they build. *)

From Stdlib Require Import ZArith Lia String.
From stdpp Require Import base gmap list option numbers countable strings.
From S2P Require Import Prelude Contract ResultSize Redaction ReceiptLedger ReceiptStates.
From S2P Require Import ReceiptRows ReceiptCatalog ReceiptCatalogFacts.

Local Open Scope Z_scope.

Section CatalogProps.
Context {V : Type} `{EqDecision V}.

Notation Entry := (CatalogEntry V).
Notation Catalog := (ReceiptCatalog V).
Implicit Types (e r a b : Entry) (c : Catalog) (m : gmap digest Entry) (es : list Entry).

(** ** Single operations *)

Lemma commit_insert_ok c e :
  catalog_ok c → entry_fits e → insertable (cat_records c) e →
  catalog_ok (commit_catalog_insert c e).
Proof. intros [W _] Hfit []. split; [by apply commit_insert_wf|done]. Qed.
Lemma insert_ok c e recovering c' :
  catalog_ok c → entry_fits e → insert_catalog_entry c e recovering = Ok c' →
  catalog_ok c'
  ∧ cat_records c' = <[entry_digest e := entry_without_result_body e]> (cat_records c).
Proof.
  intros Hc Hfit Hins. unfold insert_catalog_entry in Hins.
  destruct (validate_catalog_insert c e recovering) as [[]|] eqn:Hv; [|done].
  injection Hins as <-. split; [|done].
  apply commit_insert_ok; [done|done|]. by apply (validate_insert_Ok c e recovering (proj1 Hc)).
Qed.

Lemma commit_remove_ok c e :
  catalog_ok c → held (cat_records c) e → catalog_ok (commit_catalog_remove c e).
Proof.
  intros [W Hc] Hh. split; [by apply commit_remove_wf|].
  destruct (fits_bytes e) as (? & ? & _); [by apply (held_view c e W)|].
  unfold within_capacity in *. cbn. rewrite !(msum_delete _ _ _ _ Hh).
  destruct (strip_bytes e) as (-> & -> & _). lia.
Qed.
Lemma remove_ok c e :
  catalog_ok c → validate_catalog_remove c e = Ok tt →
  catalog_ok (commit_catalog_remove c e)
  ∧ cat_records (commit_catalog_remove c e) = delete (entry_digest e) (cat_records c).
Proof.
  intros Hc Hv. apply (validate_remove_Ok c e (proj1 Hc)) in Hv as Hh.
  split; [by apply commit_remove_ok|done].
Qed.

Lemma commit_replace_ok c e r :
  catalog_ok c → entry_fits r → replaceable (cat_records c) e r →
  ∃ c', commit_catalog_replace c r = Some c' ∧ catalog_ok c'
        ∧ cat_records c' = <[entry_digest r := entry_without_result_body r]> (cat_records c)
        ∧ cat_unavailable c' = cat_unavailable c.
Proof.
  intros [W _] Hfit [Hh Hd Hk Hs Hb Hc].
  assert (cat_records c !! entry_digest r = Some (entry_without_result_body e)) as Hp
    by (rewrite Hd; exact Hh).
  destruct (commit_replace_wf c r _ W Hfit Hp Hk Hs Hb) as (c' & Hcom & W' & Hrec & Hun).
  exists c'. split_and!; [done| |done|done]. split; [done|]. by rewrite Hrec.
Qed.
Lemma replace_ok c e r :
  catalog_ok c → entry_fits r → validate_catalog_replace c e r = Ok tt →
  ∃ c', commit_catalog_replace c r = Some c' ∧ catalog_ok c'
        ∧ cat_records c' = <[entry_digest r := entry_without_result_body r]> (cat_records c)
        ∧ cat_unavailable c' = cat_unavailable c.
Proof.
  intros Hc Hfit Hv. apply (commit_replace_ok c e r Hc Hfit).
  by apply (validate_replace_Ok c e r (proj1 Hc)).
Qed.

(** ** Batches of insertions *)

Definition commit_inserts (c : Catalog) (es : list Entry) : Catalog :=
  foldl commit_catalog_insert c es.

(** The totals after a row are those before it and the row's own amounts. *)
Definition add_totals (t : BatchTotals) (e : Entry) : BatchTotals :=
  mkTotals (bt_live t + live_flag e) (bt_tombstones t + tombstone_flag e)
    (bt_actual t + live_actual_bytes e) (bt_reserved t + reserved_result_bytes e)
    (bt_tombstone_bytes t + tombstone_bytes e).
Definition totals_fit (t : BatchTotals) : Prop :=
  bt_live t ≤ u64_max ∧ bt_tombstones t ≤ u64_max ∧ bt_actual t ≤ u64_max
  ∧ bt_reserved t ≤ u64_max ∧ bt_tombstone_bytes t ≤ u64_max.

Lemma insert_batch_cons c e es seqs t t' :
  totals_fit t → insert_batch_loop c (e :: es) seqs t = Ok t' →
  cat_records c !! entry_digest e = None ∧ cat_invocation_index c !! entry_invocation e = None
  ∧ cat_reserved_task_index c !! entry_task e = None ∧ entry_sequence e ∉ seqs
  ∧ totals_fit (add_totals t e)
  ∧ insert_batch_loop c es (entry_sequence e :: seqs) (add_totals t e) = Ok t'.
Proof.
  intros Hfit Hl. unfold totals_fit in *. cbn [insert_batch_loop] in Hl.
  destruct (is_some (cat_records c !! entry_digest e)) eqn:E1; [done|].
  destruct (is_some (cat_invocation_index c !! entry_invocation e)) eqn:E2; [done|].
  destruct (is_some (cat_reserved_task_index c !! entry_task e)) eqn:E3; [done|].
  destruct (bool_decide (entry_sequence e ∈ seqs)) eqn:E4; [done|]. opt_prop.
  destruct (flags_of e) as (F1 & F2). unfold add_totals. cbn.
  rewrite F1, F2. split_and!; try done.
  all: destruct (is_tombstone e);
    repeat match type of Hl with
    | context [ok_or ?o _] =>
        let E := fresh "E" in destruct o eqn:E; cbn [ok_or fst snd] in Hl; [|done];
        apply u64_checked_add_Some in E as [-> ?]
    end; rewrite ?Z.add_0_r; first [lia | exact Hl].
Qed.

Lemma insert_batch_checks c es seqs t t' :
  catalog_wf c → totals_fit t → insert_batch_loop c es seqs t = Ok t' →
  NoDup (entry_sequence <$> es)
  ∧ ∀ e, e ∈ es → entry_sequence e ∉ seqs ∧ cat_records c !! entry_digest e = None
      ∧ (∀ d x, cat_records c !! d = Some x → entry_invocation x ≠ entry_invocation e)
      ∧ (∀ d x, cat_records c !! d = Some x → entry_task x ≠ entry_task e).
Proof.
  intros W. revert seqs t. induction es as [|e es IH]; intros seqs t Hfit Hl.
  { split; [apply NoDup_nil_2|by intros e ?%not_elem_of_nil]. }
  apply insert_batch_cons in Hl as (Hd & Hi & Ht & Hs & Hfit' & Hl); [|done].
  destruct (IH _ _ Hfit' Hl) as [Hnd Hall]. split.
  - cbn. apply NoDup_cons_2; [|done]. intros (e' & He' & Hin)%list_elem_of_fmap.
    apply (Hall e' Hin). rewrite <-He'. by left.
  - intros e' [->|Hin]%elem_of_cons.
    + split_and!; [done|done| |].
      * by apply (index_none _ _ _ _ (wf_invocations c W)).
      * by apply (index_none _ _ _ _ (wf_tasks c W)).
    + destruct (Hall e' Hin) as [Hs' ?]. split; [|done]. intros ?. apply Hs'. by right.
Qed.

(** What a batch of insertions needs of the rows besides its checks: its own
    rows have distinct identities and its sequences are new. *)
Record batch_rows (m : gmap digest Entry) (es : list Entry) : Prop := {
  br_fit : Forall entry_fits es;
  br_digests : NoDup (entry_digest <$> es);
  br_invocations : NoDup (entry_invocation <$> es);
  br_tasks : NoDup (entry_task <$> es);
  br_sequences : NoDup (entry_sequence <$> es);
  br_rows : ∀ e, e ∈ es → insertable_row m e;
}.

Lemma NoDup_fmap_ne {A B} (f : A → B) x xs y :
  NoDup (f <$> x :: xs) → y ∈ xs → f y ≠ f x.
Proof.
  intros Hnd Hin Heq. apply NoDup_cons in Hnd as [Hno _]. apply Hno.
  apply list_elem_of_fmap. by exists y.
Qed.
Lemma NoDup_fmap_tail {A B} (f : A → B) x xs : NoDup (f <$> x :: xs) → NoDup (f <$> xs).
Proof. intros [_ ?]%NoDup_cons. done. Qed.

Lemma batch_rows_cons m e es :
  batch_rows m (e :: es) →
  entry_fits e ∧ insertable_row m e
  ∧ batch_rows (<[entry_digest e := entry_without_result_body e]> m) es.
Proof.
  intros [Hf Hd Hi Ht Hs Hr]. apply Forall_cons_1 in Hf as [Hfe Hf].
  split_and!; [done|by apply Hr; left|].
  split; [done|exact (NoDup_fmap_tail _ _ _ Hd)|exact (NoDup_fmap_tail _ _ _ Hi)
         |exact (NoDup_fmap_tail _ _ _ Ht)|exact (NoDup_fmap_tail _ _ _ Hs)|].
  intros e' Hin. destruct (Hr e') as [H1 H2 H3 H4]; [by right|].
  pose proof (NoDup_fmap_ne _ _ _ _ Hd Hin). pose proof (NoDup_fmap_ne _ _ _ _ Hi Hin).
  pose proof (NoDup_fmap_ne _ _ _ _ Ht Hin). pose proof (NoDup_fmap_ne _ _ _ _ Hs Hin).
  split.
  - by rewrite lookup_insert_ne.
  - intros d x [[<- <-]|[_ Hx]]%lookup_insert_Some; [|eauto]. rewrite strip_invocation. congruence.
  - intros d x [[<- <-]|[_ Hx]]%lookup_insert_Some; [|eauto]. rewrite strip_task. congruence.
  - intros d x [[<- <-]|[_ Hx]]%lookup_insert_Some; [|eauto]. rewrite strip_sequence. congruence.
Qed.

Lemma totals_of_insert c e :
  catalog_wf c → catalog_wf (commit_catalog_insert c e) →
  cat_records c !! entry_digest e = None →
  totals_of (commit_catalog_insert c e) = add_totals (totals_of c) e.
Proof.
  intros W W' Hd. unfold totals_of, add_totals.
  rewrite (wf_actual _ W'), (wf_reserved _ W'), (wf_tombstone_bytes _ W'), (wf_live _ W'),
    (wf_tombstones _ W').
  cbn [commit_catalog_insert cat_records]. rewrite !msum_insert by done.
  destruct (strip_bytes e) as (-> & -> & ->), (strip_flags e) as (-> & ->).
  rewrite (wf_actual _ W), (wf_reserved _ W), (wf_tombstone_bytes _ W), (wf_live _ W),
    (wf_tombstones _ W). cbn. f_equal; lia.
Qed.

Lemma insert_batch_commits c0 es c seqs t' :
  catalog_wf c → batch_rows (cat_records c) es →
  insert_batch_loop c0 es seqs (totals_of c) = Ok t' →
  catalog_wf (commit_inserts c es) ∧ totals_of (commit_inserts c es) = t'.
Proof.
  revert c seqs. induction es as [|e es IH]; intros c seqs W Hb Hl.
  { cbn in *. by injection Hl as <-. }
  apply batch_rows_cons in Hb as (Hfit & Hrow & Hb).
  pose proof (wf_budget c W) as Hbud. unfold within_budget in Hbud.
  rewrite <-(wf_actual c W), <-(wf_reserved c W), <-(wf_tombstone_bytes c W), <-(wf_live c W),
    <-(wf_tombstones c W) in Hbud.
  apply insert_batch_cons in Hl as (_ & _ & _ & _ & Hfit' & Hl); [|unfold totals_fit; cbn; lia].
  assert (catalog_wf (commit_catalog_insert c e)) as W'.
  { apply commit_insert_wf; [done|done|done|]. apply budget_insert; [apply Hrow|].
    unfold totals_fit in Hfit'. cbn in Hfit'.
    rewrite <-(wf_actual c W), <-(wf_reserved c W), <-(wf_tombstone_bytes c W), <-(wf_live c W),
      <-(wf_tombstones c W). lia. }
  rewrite <-(totals_of_insert c e W W') in Hl by apply Hrow.
  exact (IH _ _ W' Hb Hl).
Qed.

Lemma wf_totals_fit c : catalog_wf c → totals_fit (totals_of c).
Proof.
  intros W. pose proof (wf_budget c W) as Hb. unfold within_budget in Hb.
  unfold totals_fit. cbn. rewrite (wf_actual c W), (wf_reserved c W), (wf_tombstone_bytes c W),
    (wf_live c W), (wf_tombstones c W). lia.
Qed.

(** A checked batch of rows with distinct identities keeps the catalog. *)
Lemma insert_batch_ok c es :
  catalog_ok c → validate_catalog_insert_batch c es = Ok tt →
  Forall entry_fits es → NoDup (entry_digest <$> es) → NoDup (entry_invocation <$> es) →
  NoDup (entry_task <$> es) →
  (∀ e, e ∈ es → fresh_sequence (cat_records c) (entry_digest e) e) →
  catalog_ok (commit_inserts c es).
Proof.
  intros [W Hc] Hv Hf Hd Hi Ht Hs. unfold validate_catalog_insert_batch in Hv.
  destruct (insert_batch_loop c es [] (totals_of c)) as [t|] eqn:Hl; [|done].
  destruct (is_none (u64_checked_add (bt_actual t) (bt_reserved t))) eqn:Hn; [done|].
  opt_prop. apply u64_checked_add_Some in H as [_ Hcap].
  destruct (insert_batch_checks c es [] (totals_of c) t W) as [Hseq Hall]; [|done|].
  { apply wf_totals_fit, W. }
  destruct (insert_batch_commits c es c [] t W) as [W' Ht']; [|done|].
  { split; [done..|]. intros e Hin. destruct (Hall e Hin) as (_ & ? & ? & ?).
    split; eauto. }
  split; [done|]. unfold within_capacity.
  rewrite <-(wf_actual _ W'), <-(wf_reserved _ W'). rewrite <-Ht' in Hcap. exact Hcap.
Qed.

(** ** Batches of replacements *)

Definition commit_replaces (c : Catalog) (rs : list (Entry * Entry)) : option Catalog :=
  foldl (λ oc p, c ← oc; commit_catalog_replace c p.2) (Some c) rs.

Definition exchange_totals (t : BatchTotals) (e r : Entry) : BatchTotals :=
  mkTotals (bt_live t - live_flag e + live_flag r)
    (bt_tombstones t - tombstone_flag e + tombstone_flag r)
    (bt_actual t - live_actual_bytes e + live_actual_bytes r)
    (bt_reserved t - reserved_result_bytes e + reserved_result_bytes r)
    (bt_tombstone_bytes t - tombstone_bytes e + tombstone_bytes r).

Lemma replace_batch_cons c e r rs digests seqs t t' :
  replace_batch_loop c ((e, r) :: rs) digests seqs t = Ok t' →
  holds_entry c e = true ∧ entry_digest r = entry_digest e
  ∧ row_key (ce_record r) = row_key (ce_record e) ∧ entry_digest e ∉ digests
  ∧ entry_sequence r ∉ seqs ∧ totals_fit (exchange_totals t e r)
  ∧ replace_batch_loop c rs (entry_digest e :: digests) (entry_sequence r :: seqs)
      (exchange_totals t e r) = Ok t'.
Proof.
  cbn [replace_batch_loop]. intros Hl. fold (live_flag e) (live_flag r) in Hl.
  fold (tombstone_flag e) (tombstone_flag r) in Hl.
  destruct (holds_entry c e) eqn:E1; [|done]. cbn [negb] in Hl.
  destruct (negb (bool_decide (entry_digest r = entry_digest e))
            || negb (bool_decide (row_key (ce_record r) = row_key (ce_record e)))
            || bool_decide (entry_digest e ∈ digests)) eqn:E2; [done|].
  destruct (bool_decide (entry_sequence r ∈ seqs)) eqn:E3; [done|]. opt_prop.
  repeat match type of Hl with
    | context [ok_or ?o _] =>
        let E := fresh "E" in destruct o eqn:E; cbn [ok_or] in Hl; [|done];
        apply exchange_Some in E as (-> & ? & ?)
    end.
  split_and!; try done; unfold totals_fit, exchange_totals; cbn; lia.
Qed.

Record batch_replaceable (m : gmap digest Entry) (rs : list (Entry * Entry)) : Prop := {
  bp_digests : NoDup ((λ p, entry_digest p.2) <$> rs);
  bp_sequences : NoDup ((λ p, entry_sequence p.2) <$> rs);
  bp_rows : ∀ p, p ∈ rs → entry_fits p.2 ∧ held m p.1 ∧ entry_digest p.2 = entry_digest p.1
    ∧ row_key (ce_record p.2) = row_key (ce_record p.1)
    ∧ fresh_sequence m (entry_digest p.2) p.2;
}.

Lemma batch_replaceable_cons m e r rs :
  batch_replaceable m ((e, r) :: rs) →
  batch_replaceable (<[entry_digest r := entry_without_result_body r]> m) rs.
Proof.
  intros [Hd Hs Hr]. split; [exact (NoDup_fmap_tail _ _ _ Hd)|exact (NoDup_fmap_tail _ _ _ Hs)|].
  intros p Hin. destruct (Hr p) as (H1 & H2 & H3 & H4 & H5); [by right|].
  pose proof (NoDup_fmap_ne (λ p, entry_digest p.2) _ _ _ Hd Hin) as Nd.
  pose proof (NoDup_fmap_ne (λ p, entry_sequence p.2) _ _ _ Hs Hin) as Ns. cbn in Nd, Ns.
  split_and!; [done| |done|done|].
  - unfold held in *. rewrite lookup_insert_ne by congruence. done.
  - intros d x [[<- <-]|[_ Hx]]%lookup_insert_Some; [|eauto]. rewrite strip_sequence. congruence.
Qed.

Lemma totals_of_replace c c' e r :
  catalog_wf c → catalog_wf c' → held (cat_records c) e → entry_digest r = entry_digest e →
  cat_records c' = <[entry_digest r := entry_without_result_body r]> (cat_records c) →
  totals_of c' = exchange_totals (totals_of c) e r.
Proof.
  intros W W' Hh Hd Hrec. unfold totals_of, exchange_totals.
  rewrite (wf_actual _ W'), (wf_reserved _ W'), (wf_tombstone_bytes _ W'), (wf_live _ W'),
    (wf_tombstones _ W'), Hrec, Hd.
  rewrite !(msum_replace _ _ _ _ _ Hh).
  destruct (strip_bytes e) as (-> & -> & ->), (strip_flags e) as (-> & ->).
  destruct (strip_bytes r) as (-> & -> & ->), (strip_flags r) as (-> & ->).
  by rewrite (wf_actual _ W), (wf_reserved _ W), (wf_tombstone_bytes _ W), (wf_live _ W),
    (wf_tombstones _ W).
Qed.

Lemma replace_batch_commits c0 rs c digests seqs t' :
  catalog_wf c → batch_replaceable (cat_records c) rs →
  replace_batch_loop c0 rs digests seqs (totals_of c) = Ok t' →
  ∃ c', commit_replaces c rs = Some c' ∧ catalog_wf c' ∧ totals_of c' = t'.
Proof.
  revert c digests seqs. induction rs as [|[e r] rs IH]; intros c digests seqs W Hb Hl.
  { cbn in *. injection Hl as <-. by exists c. }
  apply replace_batch_cons in Hl as (_ & Hd & Hk & _ & _ & Hfit & Hl).
  destruct (bp_rows _ _ Hb (e, r)) as (H1 & H2 & _ & _ & H5); [by left|]. cbn in H1, H2, H5.
  assert (cat_records c !! entry_digest r = Some (entry_without_result_body e)) as Hp
    by (rewrite Hd; exact H2).
  destruct (commit_replace_wf c r _ W H1 Hp Hk H5) as (c1 & Hcom & W1 & Hrec & _).
  { apply (budget_replace _ _ _ Hp). unfold totals_fit in Hfit. cbn in Hfit.
    destruct (strip_bytes e) as (-> & -> & ->), (strip_flags e) as (-> & ->).
    rewrite <-(wf_actual c W), <-(wf_reserved c W), <-(wf_tombstone_bytes c W), <-(wf_live c W),
      <-(wf_tombstones c W). lia. }
  apply batch_replaceable_cons in Hb. rewrite <-Hrec in Hb.
  rewrite <-(totals_of_replace c c1 e r W W1 H2 Hd Hrec) in Hl.
  destruct (IH c1 _ _ W1 Hb Hl) as (c' & Hc' & ?). exists c'. split; [|done].
  unfold commit_replaces in *. cbn. by rewrite Hcom.
Qed.
Lemma replace_batch_checks c rs digests seqs t t' :
  catalog_wf c → replace_batch_loop c rs digests seqs t = Ok t' →
  NoDup ((λ p, entry_digest p.2) <$> rs) ∧ NoDup ((λ p, entry_sequence p.2) <$> rs)
  ∧ ∀ p, p ∈ rs → held (cat_records c) p.1 ∧ entry_digest p.2 = entry_digest p.1
      ∧ row_key (ce_record p.2) = row_key (ce_record p.1)
      ∧ entry_digest p.2 ∉ digests ∧ entry_sequence p.2 ∉ seqs.
Proof.
  intros W. revert digests seqs t. induction rs as [|[e r] rs IH]; intros digests seqs t Hl.
  { split_and!; [apply NoDup_nil_2..|by intros e ?%not_elem_of_nil]. }
  apply replace_batch_cons in Hl as (Hh & Hd & Hk & Nd & Ns & _ & Hl).
  destruct (IH _ _ _ Hl) as (HNd & HNs & Hall). split_and!.
  - cbn. apply NoDup_cons_2; [|done]. intros (p & Hp & Hin)%list_elem_of_fmap.
    destruct (Hall p Hin) as (_ & _ & _ & Hno & _). cbn in Hp. apply Hno. rewrite <-Hp, Hd.
    by left.
  - cbn. apply NoDup_cons_2; [|done]. intros (p & Hp & Hin)%list_elem_of_fmap.
    destruct (Hall p Hin) as (_ & _ & _ & _ & Hno). cbn in Hp. apply Hno. rewrite <-Hp.
    by left.
  - intros p [->|Hin]%elem_of_cons.
    + cbn. rewrite Hd. split_and!; try done. by apply (holds_entry_true c e W).
    + destruct (Hall p Hin) as (? & ? & ? & Nd' & Ns'). split_and!; try done.
      * intros ?. apply Nd'. by right.
      * intros ?. apply Ns'. by right.
Qed.

(** A checked batch of replacements with new sequences keeps the catalog and
    never meets the panic of a missing row. *)
Lemma replace_batch_ok c rs :
  catalog_ok c → validate_catalog_replace_batch c rs = Ok tt →
  (∀ p, p ∈ rs → entry_fits p.2 ∧ fresh_sequence (cat_records c) (entry_digest p.2) p.2) →
  ∃ c', commit_replaces c rs = Some c' ∧ catalog_ok c'.
Proof.
  intros [W Hc] Hv Hr. unfold validate_catalog_replace_batch in Hv.
  destruct (replace_batch_loop c rs [] [] (totals_of c)) as [t|] eqn:Hl; [|done].
  destruct (is_none (u64_checked_add (bt_actual t) (bt_reserved t))) eqn:Hn; [done|].
  opt_prop. apply u64_checked_add_Some in H as [_ Hcap].
  destruct (replace_batch_checks c rs [] [] (totals_of c) t W Hl) as (Hd & Hs & Hall).
  destruct (replace_batch_commits c rs c [] [] t W) as (c' & Hcom & W' & Ht); [|done|].
  { split; [done|done|]. intros p Hin. destruct (Hall p Hin) as (? & ? & ? & _).
    destruct (Hr p Hin). done. }
  exists c'. split; [done|]. split; [done|]. unfold within_capacity.
  rewrite <-(wf_actual _ W'), <-(wf_reserved _ W'). rewrite <-Ht in Hcap. exact Hcap.
Qed.

(** ** Sequences of operations *)

Inductive catalog_op :=
| OpInsert (e : Entry) (recovering : bool)
| OpInsertBatch (es : list Entry)
| OpRemove (e : Entry)
| OpReplace (e r : Entry)
| OpReplaceBatch (rs : list (Entry * Entry))
| OpLatch.

(** An operation commits when its validation accepts it and leaves the
    catalog otherwise; [None] is the panic of a commit that misses its row. *)
Definition apply_op (c : Catalog) (op : catalog_op) : option Catalog :=
  match op with
  | OpInsert e recovering =>
      Some (match insert_catalog_entry c e recovering with Ok c' => c' | Err _ => c end)
  | OpInsertBatch es =>
      Some (match validate_catalog_insert_batch c es with Ok _ => commit_inserts c es | Err _ => c end)
  | OpRemove e =>
      Some (match validate_catalog_remove c e with Ok _ => commit_catalog_remove c e | Err _ => c end)
  | OpReplace e r =>
      match validate_catalog_replace c e r with Ok _ => commit_catalog_replace c r | Err _ => Some c end
  | OpReplaceBatch rs =>
      match validate_catalog_replace_batch c rs with Ok _ => commit_replaces c rs | Err _ => Some c end
  | OpLatch => Some (set_unavailable c)
  end.
Fixpoint apply_ops (ops : list catalog_op) (c : Catalog) : option Catalog :=
  match ops with
  | [] => Some c
  | op :: ops => apply_op c op ≫= apply_ops ops
  end.

(** What an operation takes from its callers, since its own validation does
    not check it: a row has the length of an encoded record, and of a batch
    the rows have identities of their own and mutation sequences that no
    other live row of the catalog has. *)
Definition op_sound (c : Catalog) (op : catalog_op) : Prop :=
  match op with
  | OpInsert e _ | OpReplace _ e => entry_fits e
  | OpInsertBatch es =>
      Forall entry_fits es
      ∧ NoDup (entry_digest <$> es) ∧ NoDup (entry_invocation <$> es) ∧ NoDup (entry_task <$> es)
      ∧ ∀ e, e ∈ es → fresh_sequence (cat_records c) (entry_digest e) e
  | OpReplaceBatch rs =>
      ∀ p, p ∈ rs → entry_fits p.2 ∧ fresh_sequence (cat_records c) (entry_digest p.2) p.2
  | OpRemove _ | OpLatch => True
  end.
Fixpoint ops_sound (ops : list catalog_op) (c : Catalog) : Prop :=
  match ops with
  | [] => True
  | op :: ops => op_sound c op ∧ ∀ c', apply_op c op = Some c' → ops_sound ops c'
  end.

Lemma apply_op_ok c op :
  catalog_ok c → op_sound c op → ∃ c', apply_op c op = Some c' ∧ catalog_ok c'.
Proof.
  intros Hok Hop. destruct op as [e recovering|es|e|e r|rs|]; cbn in Hop |- *.
  - eexists. split; [done|]. destruct (insert_catalog_entry c e recovering) as [c'|] eqn:Hi; [|done].
    by apply (insert_ok c e recovering c').
  - eexists. split; [done|]. destruct (validate_catalog_insert_batch c es) as [[]|] eqn:Hv; [|done].
    destruct Hop as (? & ? & ? & ? & ?). by apply insert_batch_ok.
  - eexists. split; [done|]. destruct (validate_catalog_remove c e) as [[]|] eqn:Hv; [|done].
    by apply remove_ok.
  - destruct (validate_catalog_replace c e r) as [[]|] eqn:Hv; [|eauto].
    destruct (replace_ok c e r Hok Hop Hv) as (c' & Hc' & Hok' & _). eauto.
  - destruct (validate_catalog_replace_batch c rs) as [[]|] eqn:Hv; [|eauto].
    by apply replace_batch_ok.
  - eexists. split; [done|]. destruct Hok as [[] Hc]. split; [by split|done].
Qed.
Lemma catalog_default_ok : catalog_ok (catalog_default : Catalog).
Proof.
  split; [apply catalog_default_wf|]. unfold within_capacity. cbn. rewrite !msum_empty.
  unfold u64_max. lia.
Qed.

(** C16. Any sequence of operations on the empty catalog, insertions, batches,
    removals, replacements and the latch, accepted or refused each by its own
    validation, runs without the panic of a missing row and leaves a catalog
    with exact byte and row counts: the counters, updated with wrapping [u64]
    arithmetic, are the sums over its rows, the bytes its live rows hold and
    may still claim fit in a [u64], both identity indexes mirror the rows and
    no two live rows share a mutation sequence.  The callers see to it
    ([op_sound]) that an entry has the length of an encoded record and that
    the rows of a batch have pairwise distinct identities and mutation
    sequences which no other live row of the catalog has. *)
Theorem catalog_counters_exact ops :
  ops_sound ops catalog_default → ∃ c, apply_ops ops catalog_default = Some c ∧ catalog_ok c.
Proof.
  generalize catalog_default_ok. generalize (catalog_default : Catalog).
  induction ops as [|op ops IH]; intros c Hok Hops; [by exists c|]. destruct Hops as [Hop Hops].
  destruct (apply_op_ok c op Hok Hop) as (c' & Hc' & Hok'). cbn. rewrite Hc'. cbn. eauto.
Qed.

(** A catalog is a function of its rows: two well-formed catalogs with the
    same rows have the same indexes and the same counters. *)
Theorem catalog_determined_by_rows c1 c2 :
  catalog_ok c1 → catalog_ok c2 → cat_records c1 = cat_records c2 →
  cat_unavailable c1 = cat_unavailable c2 → c1 = c2.
Proof.
  intros [W1 _] [W2 _] Hrec Hun.
  assert (cat_invocation_index c1 = cat_invocation_index c2) as Hi.
  { apply map_eq. intros i. apply option_eq. intros d.
    by rewrite (wf_invocations c1 W1 i d), (wf_invocations c2 W2 i d), Hrec. }
  assert (cat_reserved_task_index c1 = cat_reserved_task_index c2) as Ht.
  { apply map_eq. intros i. apply option_eq. intros d.
    by rewrite (wf_tasks c1 W1 i d), (wf_tasks c2 W2 i d), Hrec. }
  pose proof (wf_actual c1 W1) as A1. pose proof (wf_actual c2 W2) as A2.
  pose proof (wf_reserved c1 W1) as B1. pose proof (wf_reserved c2 W2) as B2.
  pose proof (wf_tombstone_bytes c1 W1) as D1. pose proof (wf_tombstone_bytes c2 W2) as D2.
  pose proof (wf_live c1 W1) as E1. pose proof (wf_live c2 W2) as E2.
  pose proof (wf_tombstones c1 W1) as F1. pose proof (wf_tombstones c2 W2) as F2.
  destruct c1, c2. cbn in *. by subst.
Qed.

(** A row is refused by an insertion exactly when one of its identities or,
    for a live row, its mutation sequence is taken, or the totals would not
    fit. *)
Theorem insert_decides c e recovering :
  catalog_ok c → entry_fits e →
  (is_ok (insert_catalog_entry c e recovering) = true ↔ insertable (cat_records c) e).
Proof.
  intros [W _] Hf. unfold insert_catalog_entry. split.
  - destruct (validate_catalog_insert c e recovering) as [[]|] eqn:Hv; [|done].
    intros _. by apply (validate_insert_Ok c e recovering).
  - intros Hi. by rewrite (insertable_validates c e recovering W Hf Hi).
Qed.
End CatalogProps.
