(* ===== verification/ReceiptRecords.v ===== *)
(** * Receipt rows: building, encoding and validation

    [receipt_store/records.rs] (one builder per transition),
    [receipt_store/encoding.rs] (the serializer of rows and the check that a
    stored row is canonical), [receipt_store/validation.rs]
    ([validate_active_record]), the direct terminal codec of
    [terminal_codec.rs] and the readers of a stored row in
    [receipt_store.rs].

    JSON encoding is third-party code: the fields of [RowCodec], with the
    facts that are relied on in [RowCodecLaws] (a row whose results read back
    is decoded as it was encoded, and a tombstone's compact form is not a
    row).  A byte count is the length of a list: it always fits in a [u64].
    Last, the theorems on rows that are read back. *)

From Stdlib Require Import ZArith Lia String.
From stdpp Require Import base gmap list option numbers countable strings.
From S2P Require Import Prelude Contract ResultSize Redaction ReceiptLedger ReceiptStates ReceiptRows ReceiptCatalog.

Local Open Scope Z_scope.

Definition blen (bs : list Z) : Z := Z.of_nat (length bs).

(** [u64::to_string]: decimal digits, at most twenty. *)
Fixpoint decimal_digits (fuel : nat) (n : Z) (acc : list Z) : list Z :=
  match fuel with
  | O => acc
  | S fuel =>
      let acc := (48 + n mod 10) :: acc in
      if n <? 10 then acc else decimal_digits fuel (n / 10) acc
  end.
Definition u64_to_string (n : Z) : list Z := decimal_digits 20 n [].

Class RowCodec {C : ReceiptCodec} := {
  (** [serde_json::to_vec] and [from_slice] of a [StoredActiveReceiptV1]. *)
  row_to_vec : StoredActiveReceiptV1 json_value → option (list Z);
  row_from_slice : list Z → option (StoredActiveReceiptV1 json_value);
  (** ... and of a [StoredAcknowledgedTombstoneV1]: key, terminal digest,
      epoch and version. *)
  tombstone_to_vec : ReceiptKey * digest * Z * option Z → option (list Z);
  tombstone_from_slice : list Z → option (ReceiptKey * digest * Z * option Z);
  key_to_vec : ReceiptKey → option (list Z);
  cutoff_to_vec : OriginalCutoffDescriptor → option (list Z);
}.
Arguments RowCodec : clear implicits.

Section Records.
Context {C : ReceiptCodec} {R : RowCodec C}.

Notation Row := (StoredActiveReceiptV1 json_value).
Notation Entry := (CatalogEntry json_value).
Notation Terminal := (V5CanonicalTerminal json_value).

(** ** Builders *)

Definition build_reserved_record (key : ReceiptKey) (key_digest : digest)
    (cutoff : OriginalCutoffDescriptor) (mutation_sequence record_version : Z)
    (cancel_requested : bool) : Row :=
  mkRow RECEIPT_RECORD_SCHEMA_VERSION mutation_sequence record_version key key_digest
    (LReservedUnbound (accepted_epoch_ms cutoff) cutoff cancel_requested).

(** A row of the same receipt as [e]. *)
Definition successor_row (e : Entry) (mutation_sequence record_version : Z)
    (l : StoredActiveLifecycleV1 json_value) : Row :=
  mkRow RECEIPT_RECORD_SCHEMA_VERSION mutation_sequence record_version (row_key (ce_record e))
    (row_key_digest (ce_record e)) l.
(** ... of the next version. *)
Definition next_row (e : Entry) (mutation_sequence : Z) (l : StoredActiveLifecycleV1 json_value)
  : result Row ReceiptLedgerError :=
  let? version := ok_or (checked_next (row_record_version (ce_record e))) Corrupt in
  Ok (successor_row e mutation_sequence version l).

(** [build_reserved_phase_record], on the reservation of [expected]. *)
Definition build_reserved_phase_record (expected : Entry) (reserved : ReservedReceipt)
    (phase : ReservedPhase) (mutation_sequence record_version : Z)
  : result Row ReceiptLedgerError :=
  match phase with
  | Unbound => Err Corrupt
  | ActorBound workspace =>
      Ok (successor_row expected mutation_sequence record_version
            (LReservedActorBound (rr_reserved_at reserved) (rr_original_cutoff reserved) workspace
               (rr_cancel_requested reserved)))
  | Begun workspace =>
      Ok (successor_row expected mutation_sequence record_version
            (LReservedBegun (rr_reserved_at reserved) (rr_original_cutoff reserved) workspace
               (rr_cancel_requested reserved)))
  end.

(** [build_reserved_cancel_record], on the reservation of [expected]. *)
Definition build_reserved_cancel_record (expected : Entry) (reserved : ReservedReceipt)
    (mutation_sequence record_version : Z) : Row :=
  successor_row expected mutation_sequence record_version
    (match rr_phase reserved with
     | Unbound => LReservedUnbound (rr_reserved_at reserved) (rr_original_cutoff reserved) true
     | ActorBound workspace =>
         LReservedActorBound (rr_reserved_at reserved) (rr_original_cutoff reserved) workspace true
     | Begun workspace =>
         LReservedBegun (rr_reserved_at reserved) (rr_original_cutoff reserved) workspace true
     end).

Definition build_cancel_reserved_record (key : ReceiptKey) (key_digest : digest)
    (cancel_reserved_at mutation_sequence : Z) : Row :=
  mkRow PERSISTENT_CANCEL_RECORD_SCHEMA_VERSION mutation_sequence version_initial key key_digest
    (LCancelReserved cancel_reserved_at None true).

Definition build_expired_tombstone_deletion_record (expected : Entry)
    (observed_at mutation_sequence : Z) : result Row ReceiptLedgerError :=
  match row_lifecycle (ce_record expected) with
  | LAcknowledgedTombstone terminal_digest acknowledged_at =>
      Ok (successor_row expected mutation_sequence 4
            (LExpiredTombstoneDeletion observed_at acknowledged_at terminal_digest))
  | _ => Err Corrupt
  end.

Definition build_expired_direct_deletion_record (expected : Entry)
    (observed_at mutation_sequence : Z) : result Row ReceiptLedgerError :=
  match row_lifecycle (ce_record expected) with
  | LDirectTerminalUnacked _ terminal_epoch terminal_digest _ =>
      next_row expected mutation_sequence
        (LExpiredDirectDeletion observed_at (row_record_version (ce_record expected))
           (row_mutation_sequence (ce_record expected)) terminal_epoch terminal_digest)
  | _ => Err Corrupt
  end.

Definition build_expired_task_receipt_deletion_record (expected : Entry)
    (observed_at mutation_sequence : Z) : result Row ReceiptLedgerError :=
  match row_lifecycle (ce_record expected) with
  | LTaskTerminalReceiptBacked task terminal_epoch terminal_digest _ _ =>
      next_row expected mutation_sequence
        (LExpiredTaskReceiptDeletion observed_at (row_record_version (ce_record expected))
           (row_mutation_sequence (ce_record expected)) terminal_epoch (tp_ttl_ms task)
           terminal_digest)
  | _ => Err Corrupt
  end.

(** The witness of a completed handoff of [task]. *)
Definition handoff_witness (expected : Entry) (task : ReceiptTaskProjection)
    (workspace link : digest) (link_version bound_sequence task_version bind_epoch : Z)
    (phase : AttemptPhase) (staged : bool) : HandoffWitness :=
  mkHandoffWitness (row_record_version (ce_record expected))
    (row_mutation_sequence (ce_record expected)) (tp_created_at task) (tp_version task)
    workspace link link_version bound_sequence task_version bind_epoch phase staged.

Definition build_completed_task_handoff_deletion_record (expected : Entry)
    (bound : TaskBoundReceipt) (mutation_sequence : Z) : result Row ReceiptLedgerError :=
  let witness task workspace link phase :=
    handoff_witness expected task workspace link (lh_lifecycle_link_version (tb_record bound))
      (lh_mutation_sequence (tb_record bound)) (tb_task_record_version bound)
      (tb_bind_epoch_ms bound) phase false in
  match row_lifecycle (ce_record expected) with
  | LTaskPromisedActorBound _ task workspace link _ =>
      next_row expected mutation_sequence
        (LCompletedTaskHandoffDeletion (witness task workspace link NotBegun))
  | LTaskHandoffActorBound _ task workspace link phase _ StageNone =>
      next_row expected mutation_sequence
        (LCompletedTaskHandoffDeletion (witness task workspace link phase))
  | _ => Err Corrupt
  end.

Definition build_completed_staged_task_handoff_deletion_record (expected : Entry)
    (bound : TaskTerminalBoundReceipt) (mutation_sequence : Z) : result Row ReceiptLedgerError :=
  match row_lifecycle (ce_record expected) with
  | LTaskHandoffActorBound _ task workspace link phase _ (StageStaged _ _ _) =>
      next_row expected mutation_sequence
        (LCompletedTaskHandoffDeletion
           (handoff_witness expected task workspace link
              (lh_lifecycle_link_version (ttb_record bound))
              (lh_mutation_sequence (ttb_record bound)) (ttb_task_record_version bound)
              (ttb_terminal_epoch_ms bound) phase true))
  | _ => Err Corrupt
  end.

Definition build_acknowledgement_commit_record (expected : Entry) (terminal_digest : digest)
    (acknowledged_at mutation_sequence : Z) : result Row ReceiptLedgerError :=
  match row_lifecycle (ce_record expected) with
  | LDirectTerminalUnacked _ _ _ _ =>
      next_row expected mutation_sequence
        (LAcknowledgementCommit terminal_digest acknowledged_at
           (row_record_version (ce_record expected)) (row_mutation_sequence (ce_record expected)))
  | _ => Err Corrupt
  end.

Definition build_acknowledged_tombstone_record_from_witness (witness : Entry)
  : result Row ReceiptLedgerError :=
  match row_lifecycle (ce_record witness) with
  | LAcknowledgementCommit terminal_digest acknowledged_at _ _ =>
      Ok (successor_row witness 0 (row_record_version (ce_record witness))
            (LAcknowledgedTombstone terminal_digest acknowledged_at))
  | _ => Err Corrupt
  end.

(** ** Encoding *)

(** [serialize_reserved_record]; the source also returns its argument. *)
Definition serialize_reserved_record (r : Row) (maximum : Z)
  : result (list Z) ReceiptLedgerError :=
  match row_lifecycle r with
  | LDirectTerminalUnacked _ _ _ _ => Err Corrupt
  | l =>
      if result_body_is_on_disk r then Err Corrupt
      else
        let? encoded :=
          ok_or (match l with
                 | LAcknowledgedTombstone terminal_digest acknowledged_at =>
                     tombstone_to_vec
                       (row_key r, terminal_digest, acknowledged_at,
                        if row_record_version r =? 3 then None else Some (row_record_version r))
                 | _ => row_to_vec r
                 end) Corrupt in
        if (maximum <? blen encoded) || (MAX_RECEIPT_ENTITLEMENT_BYTES <? blen encoded)
        then Err RecordTooLarge
        else Ok encoded
  end.

(** The byte limit of each lifecycle; a direct terminal has its own codec. *)
Definition reserved_limit (l : StoredActiveLifecycleV1 json_value) : option Z :=
  match l with
  | LCancelReserved _ _ _ | LExpiredDeletion _ _ _ _ _ | LExpiredTombstoneDeletion _ _ _
  | LExpiredDirectDeletion _ _ _ _ _ | LExpiredTaskReceiptDeletion _ _ _ _ _ _
  | LAcknowledgementCommit _ _ _ _ => Some MAX_CANCEL_RESERVED_RECORD_BYTES
  | LCompletedTaskHandoffDeletion _ => Some MAX_COMPLETED_TASK_HANDOFF_WITNESS_BYTES
  | LTaskHandoffActorBound _ _ _ _ _ _ (StageStaged _ _ _) => Some MAX_RECEIPT_ENTITLEMENT_BYTES
  | LReservedUnbound _ _ _ | LReservedActorBound _ _ _ _ | LReservedBegun _ _ _ _
  | LTaskPromisedUnbound _ _ _ | LTaskPromisedActorBound _ _ _ _ _
  | LTaskHandoffActorBound _ _ _ _ _ _ StageNone | LTaskReceiptOwnedActorBound _ _ _ _ _ _ =>
      Some MAX_TASK_RECORD_ENVELOPE_BYTES
  | LTaskTerminalReceiptBacked _ _ _ _ _ => Some MAX_RECEIPT_ENTITLEMENT_BYTES
  | LAcknowledgedTombstone _ _ => Some MAX_ACKNOWLEDGED_TOMBSTONE_BYTES
  | LDirectTerminalUnacked _ _ _ _ => None
  end.
Definition validate_persisted_reserved_record_bytes (r : Row) (persisted : list Z)
  : result unit ReceiptLedgerError :=
  let? maximum := ok_or (reserved_limit (row_lifecycle r)) Corrupt in
  let? canonical := serialize_reserved_record r maximum in
  if bool_decide (canonical = persisted) then Ok tt else Err Corrupt.

(** ** The direct terminal codec *)

(** The bytes of a direct record around its key, cutoff and payload. *)
Definition direct_record_bytes (mutation_sequence record_version : Z)
    (key_json key_digest cutoff_json : list Z) (terminal_epoch_ms : Z) (terminal : Terminal)
  : list Z :=
  json_lit "{'schemaVersion':1,'mutationSequence':" ++ u64_to_string mutation_sequence
  ++ json_lit ",'recordVersion':" ++ u64_to_string record_version
  ++ json_lit ",'key':" ++ key_json
  ++ json_lit ",'keyDigest':'" ++ key_digest
  ++ json_lit "','lifecycle':{'state':'direct_terminal_unacked','originalCutoff':"
  ++ cutoff_json
  ++ json_lit ",'terminalEpochMs':" ++ u64_to_string terminal_epoch_ms
  ++ json_lit ",'terminalDigest':'" ++ ct_digest terminal
  ++ json_lit "','terminal':" ++ ct_payload terminal ++ json_lit "}}".

(** [encode_direct_record]: the key's JSON and the row's bytes; the row's
    length and the rest of its entitlement follow from the bytes. *)
Definition encode_direct_record (mutation_sequence record_version : Z) (key : ReceiptKey)
    (key_digest : digest) (cutoff : OriginalCutoffDescriptor) (terminal_epoch_ms : Z)
    (terminal : Terminal) : result (list Z * list Z) ReceiptLedgerError :=
  let? _ := ok_or (u64_checked_add terminal_epoch_ms DIRECT_TERMINAL_RETENTION_MS)
              TimestampOverflow in
  let? key_json := ok_or (key_to_vec key) Corrupt in
  let? cutoff_json := ok_or (cutoff_to_vec cutoff) Corrupt in
  let bytes := direct_record_bytes mutation_sequence record_version key_json key_digest
                 cutoff_json terminal_epoch_ms terminal in
  if MAX_RECEIPT_ENTITLEMENT_BYTES <? blen bytes then Err RecordTooLarge
  else Ok (key_json, bytes).

(** [prepare_direct_wire_frame]. *)
Definition prepare_direct_wire_frame (key_json : list Z) (terminal : Terminal)
    (terminal_epoch_ms : Z) : result (list Z) ReceiptLedgerError :=
  let wire :=
    json_lit "{'kind':'invocation','outcome':{'resultType':'direct','receipt':{'receiptKey':"
    ++ key_json ++ json_lit ",'terminal':" ++ ct_payload terminal
    ++ json_lit ",'terminalDigest':'" ++ ct_digest terminal
    ++ json_lit "','terminalEpochMs':" ++ u64_to_string terminal_epoch_ms
    ++ json_lit "}}}" ++ [10] in
  if MAX_RECEIPT_ENTITLEMENT_BYTES <? blen wire then Err RecordTooLarge else Ok wire.

(** [DirectReceiptWriteSlot::new]: the slot advances version and generation. *)
Definition direct_write_slot (expected_version committed_version generation mutation_sequence : Z)
  : result unit ReceiptLedgerError :=
  if negb (bool_decide (checked_next expected_version = Some committed_version)) then Err Corrupt
  else if negb (bool_decide (u64_checked_add generation 1 = Some mutation_sequence))
  then Err Corrupt
  else Ok tt.

(** [prepare_direct_terminal]: the bytes of the row and of the wire frame. *)
Definition prepare_direct_terminal (key : ReceiptKey) (committed_version mutation_sequence : Z)
    (cutoff : OriginalCutoffDescriptor) (terminal : Terminal) (terminal_epoch_ms : Z)
  : result (list Z * list Z) ReceiptLedgerError :=
  let? encoded := encode_direct_record mutation_sequence committed_version key
                    (receipt_key_digest key) cutoff terminal_epoch_ms terminal in
  let? wire := prepare_direct_wire_frame encoded.1 terminal terminal_epoch_ms in
  Ok (encoded.2, wire).

(** [prepare_committed_direct_wire]. *)
Definition prepare_committed_direct_wire (r : DirectTerminalUnackedReceipt json_value)
  : result (list Z) ReceiptLedgerError :=
  let? _ := ok_or (u64_checked_add (dt_terminal_epoch_ms r) DIRECT_TERMINAL_RETENTION_MS)
              TimestampOverflow in
  if negb (bool_decide (rh_key_digest (dt_record r) = receipt_key_digest (rh_key (dt_record r))))
  then Err Corrupt
  else
    let? _ := ok_or (checked_previous (rh_record_version (dt_record r))) Corrupt in
    let? key_json := ok_or (key_to_vec (rh_key (dt_record r))) Corrupt in
    prepare_direct_wire_frame key_json (dt_terminal r) (dt_terminal_epoch_ms r).

(** The value of a body; the stand-in of the source is a [Cancelled]. *)
Definition body_value (b : Body json_value) : ReceiptTerminalOutcome json_value :=
  default RCancelled b.

Definition validate_persisted_direct_record_bytes (mutation_sequence record_version : Z)
    (key : ReceiptKey) (key_digest : digest) (cutoff : OriginalCutoffDescriptor)
    (terminal_epoch_ms : Z) (terminal_digest : digest) (body : Body json_value)
    (persisted : list Z) : result unit ReceiptLedgerError :=
  let? terminal := restore_canonical_terminal (body_value body) terminal_digest in
  let? encoded := encode_direct_record mutation_sequence record_version key key_digest cutoff
                    terminal_epoch_ms terminal in
  if bool_decide (encoded.2 = persisted) then Ok tt else Err Corrupt.

(** ** Validation *)

(** A witness names the version and the mutation before its own. *)
Definition follows_version (r : Row) (prior_version : Z) : bool :=
  bool_decide (checked_next prior_version = Some (row_record_version r)).
Definition follows_mutation (r : Row) (prior_sequence : Z) : bool :=
  negb (prior_sequence =? 0) && (prior_sequence <? row_mutation_sequence r).
(** The task of a stored row agrees with the key and is well formed. *)
Definition task_consistent (r : Row) (task : ReceiptTaskProjection) : bool :=
  bool_decide (tp_task_id task = rk_reserved_task_id (row_key r))
  && bool_decide (tp_invocation_id task = rk_invocation_id (row_key r))
  && (tp_created_at task <=? tp_updated_at task)
  && negb (tp_ttl_ms task =? 0) && negb (tp_poll_interval_ms task =? 0)
  && negb (tp_version task =? 0).
Definition link_consistent (r : Row) (task : ReceiptTaskProjection) (workspace stored : digest)
  : bool :=
  bool_decide (link_digest (link_new (row_key_digest r) (tp_task_id task) (tp_invocation_id task)
                              workspace) = stored).
Definition minimum_version (phase : AttemptPhase) : Z :=
  match phase with NotBegun => 3 | AttemptBegun => 4 end.
Definition capacity_exhausted (c : ProvenTaskLinkCapacity) : bool :=
  match c with
  | CapacityCount observed maximum => (0 <? maximum) && (maximum <=? observed)
  | CapacityBytes required available => (0 <? required) && (available <? required)
  end.

Definition fail_unless (b : bool) : result unit ReceiptLedgerError :=
  if b then Ok tt else Err Corrupt.

(** The checks of each lifecycle, and its byte limit. *)
Definition validate_lifecycle (r : Row) (encoded : list Z) : result Z ReceiptLedgerError :=
  match row_lifecycle r with
  | LCancelReserved reserved_at expires_at cancel_requested =>
      let? _ := fail_unless (row_record_version r =? version_initial) in
      let? _ := fail_unless cancel_requested in
      if row_schema_version r =? RECEIPT_RECORD_SCHEMA_VERSION then
        let? expected := ok_or (u64_checked_add reserved_at LEGACY_CANCEL_RESERVATION_TTL_MS)
                           Corrupt in
        let? _ := fail_unless (bool_decide (expires_at = Some expected)) in
        Ok MAX_CANCEL_RESERVED_RECORD_BYTES
      else Ok MAX_CANCEL_RESERVED_RECORD_BYTES
  | LExpiredDeletion observed_at prior_version prior_sequence prior_reserved_at prior_expires_at =>
      let? _ := fail_unless (prior_version =? version_initial) in
      let? _ := fail_unless (follows_version r prior_version) in
      let? _ := fail_unless (follows_mutation r prior_sequence) in
      let? _ := fail_unless (bool_decide (u64_checked_add prior_reserved_at
                   LEGACY_CANCEL_RESERVATION_TTL_MS = Some prior_expires_at)) in
      let? _ := fail_unless (prior_expires_at <=? observed_at) in
      Ok MAX_CANCEL_RESERVED_RECORD_BYTES
  | LExpiredTombstoneDeletion observed_at prior_acknowledged_at _ =>
      let? _ := fail_unless (row_record_version r =? 4) in
      let? expires := ok_or (u64_checked_add prior_acknowledged_at ACKNOWLEDGED_TOMBSTONE_TTL_MS)
                        Corrupt in
      let? _ := fail_unless (expires <=? observed_at) in
      Ok MAX_CANCEL_RESERVED_RECORD_BYTES
  | LExpiredDirectDeletion observed_at prior_version prior_sequence prior_epoch _ =>
      let? _ := fail_unless (negb (prior_version =? version_initial)
                             && follows_version r prior_version) in
      let? _ := fail_unless (follows_mutation r prior_sequence) in
      let? expires := ok_or (u64_checked_add prior_epoch DIRECT_TERMINAL_RETENTION_MS) Corrupt in
      let? _ := fail_unless (expires <=? observed_at) in
      Ok MAX_CANCEL_RESERVED_RECORD_BYTES
  | LExpiredTaskReceiptDeletion observed_at prior_version prior_sequence prior_epoch prior_ttl _ =>
      let? _ := fail_unless (negb (prior_version =? version_initial)
                             && follows_version r prior_version) in
      let? _ := fail_unless (follows_mutation r prior_sequence) in
      let? expires := ok_or (u64_checked_add prior_epoch prior_ttl) Corrupt in
      let? _ := fail_unless (negb (prior_ttl =? 0) && (expires <=? observed_at)) in
      Ok MAX_CANCEL_RESERVED_RECORD_BYTES
  | LCompletedTaskHandoffDeletion w =>
      let link := link_new (row_key_digest r) (rk_reserved_task_id (row_key r))
                    (rk_invocation_id (row_key r)) (hw_workspace_identity_hash w) in
      let? _ := fail_unless
        ((minimum_version (hw_phase w) <=? hw_prior_record_version w)
         && follows_version r (hw_prior_record_version w)
         && follows_mutation r (hw_prior_mutation_sequence w)
         && negb (hw_prior_task_version w =? 0)
         && (if hw_terminal_staged w
             then hw_prior_task_version w <? hw_task_record_version w
             else hw_task_record_version w =? hw_prior_task_version w)
         && negb (hw_task_bound_lifecycle_link_version w =? 0)
         && negb (hw_task_bound_mutation_sequence w =? 0)
         && (hw_prior_created_at w <=? hw_bind_epoch_ms w)
         && bool_decide (link_digest link = hw_task_link_digest w)) in
      Ok MAX_COMPLETED_TASK_HANDOFF_WITNESS_BYTES
  | LReservedUnbound reserved_at cutoff _ | LReservedActorBound reserved_at cutoff _ _
  | LReservedBegun reserved_at cutoff _ _ =>
      let? _ := fail_unless (reserved_at =? accepted_epoch_ms cutoff) in
      Ok MAX_TASK_RECORD_ENVELOPE_BYTES
  | LTaskPromisedUnbound cutoff task _ =>
      let? _ := fail_unless
        (negb (row_record_version r =? version_initial) && task_consistent r task
         && (accepted_epoch_ms cutoff <=? tp_created_at task)) in
      Ok MAX_TASK_RECORD_ENVELOPE_BYTES
  | LTaskPromisedActorBound cutoff task workspace link _ =>
      let? _ := fail_unless
        ((3 <=? row_record_version r) && task_consistent r task
         && (accepted_epoch_ms cutoff <=? tp_created_at task)
         && link_consistent r task workspace link) in
      Ok MAX_TASK_RECORD_ENVELOPE_BYTES
  | LTaskHandoffActorBound cutoff task workspace link phase _ stage =>
      let? _ := fail_unless
        ((minimum_version phase <=? row_record_version r) && task_consistent r task
         && (accepted_epoch_ms cutoff <=? tp_created_at task)
         && link_consistent r task workspace link) in
      match stage with
      | StageNone => Ok MAX_TASK_RECORD_ENVELOPE_BYTES
      | StageStaged terminal_epoch terminal_digest body =>
          let? _ := fail_unless (tp_updated_at task <=? terminal_epoch) in
          let? _ := restore_canonical_terminal (body_value body) terminal_digest in
          Ok MAX_RECEIPT_ENTITLEMENT_BYTES
      end
  | LTaskReceiptOwnedActorBound cutoff task workspace link capacity _ =>
      let? _ := fail_unless
        ((5 <=? row_record_version r) && task_consistent r task
         && (accepted_epoch_ms cutoff <=? tp_created_at task)
         && link_consistent r task workspace link && capacity_exhausted capacity) in
      Ok MAX_TASK_RECORD_ENVELOPE_BYTES
  | LDirectTerminalUnacked cutoff terminal_epoch terminal_digest body =>
      let? _ := fail_unless (negb (row_record_version r =? version_initial)) in
      let? _ := ok_or (u64_checked_add terminal_epoch DIRECT_TERMINAL_RETENTION_MS) Corrupt in
      let? _ := validate_persisted_direct_record_bytes (row_mutation_sequence r)
                  (row_record_version r) (row_key r) (row_key_digest r) cutoff terminal_epoch
                  terminal_digest body encoded in
      Ok MAX_RECEIPT_ENTITLEMENT_BYTES
  | LTaskTerminalReceiptBacked task terminal_epoch terminal_digest body _ =>
      let? _ := fail_unless
        (negb (row_record_version r =? version_initial) && task_consistent r task
         && (tp_updated_at task =? terminal_epoch)) in
      let? _ := ok_or (u64_checked_add terminal_epoch (tp_ttl_ms task)) Corrupt in
      let? _ := restore_canonical_terminal (body_value body) terminal_digest in
      Ok MAX_RECEIPT_ENTITLEMENT_BYTES
  | LAcknowledgementCommit _ acknowledged_at prior_version prior_sequence =>
      let? _ := fail_unless (follows_version r prior_version) in
      let? _ := fail_unless (follows_mutation r prior_sequence) in
      let? _ := ok_or (u64_checked_add acknowledged_at ACKNOWLEDGED_TOMBSTONE_TTL_MS) Corrupt in
      Ok MAX_CANCEL_RESERVED_RECORD_BYTES
  | LAcknowledgedTombstone _ acknowledged_at =>
      let? _ := fail_unless (3 <=? row_record_version r) in
      let? _ := ok_or (u64_checked_add acknowledged_at ACKNOWLEDGED_TOMBSTONE_TTL_MS) Corrupt in
      Ok MAX_ACKNOWLEDGED_TOMBSTONE_BYTES
  end.

Definition schema_supported (r : Row) : bool :=
  (row_schema_version r =? RECEIPT_RECORD_SCHEMA_VERSION)
  || ((row_schema_version r =? PERSISTENT_CANCEL_RECORD_SCHEMA_VERSION)
      && match row_lifecycle r with LCancelReserved _ None _ => true | _ => false end).
Definition row_is_tombstone (r : Row) : bool :=
  match row_lifecycle r with LAcknowledgedTombstone _ _ => true | _ => false end.

Definition validate_active_record (r : Row) (encoded : list Z) (expected_digest : digest)
  : result unit ReceiptLedgerError :=
  let? _ := fail_unless (schema_supported r) in
  let? _ := fail_unless (negb (row_mutation_sequence r =? 0) || row_is_tombstone r) in
  let? _ := fail_unless (bool_decide (row_key_digest r = expected_digest)
                         && bool_decide (receipt_key_digest (row_key r) = row_key_digest r)) in
  let? limit := validate_lifecycle r encoded in
  fail_unless (blen encoded <=? limit).

(** ** Reading a stored row *)

(** [serde_json::from_slice], with the compact form of a tombstone. *)
Definition parse_row (bytes : list Z) : result Row ReceiptLedgerError :=
  match row_from_slice bytes with
  | Some r => Ok r
  | None =>
      let? t := ok_or (tombstone_from_slice bytes) Corrupt in
      match t with
      | (key, terminal_digest, ack_epoch_ms, version) =>
          Ok (mkRow RECEIPT_RECORD_SCHEMA_VERSION 0 (default 3 version) key
                (receipt_key_digest key) (LAcknowledgedTombstone terminal_digest ack_epoch_ms))
      end
  end.

(** The rows whose canonical form is checked on reading: all but direct
    terminals, whose validation checks it, and the deletion witness of an
    expired task receipt. *)
Definition canonical_checked (l : StoredActiveLifecycleV1 json_value) : bool :=
  match l with
  | LDirectTerminalUnacked _ _ _ _ | LExpiredTaskReceiptDeletion _ _ _ _ _ _ => false
  | _ => true
  end.

(** [read_active_record_from_retained] on the bytes of the file. *)
Definition decode_active_record (bytes : list Z) (expected_digest : digest)
  : result Entry ReceiptLedgerError :=
  let? _ := fail_unless (blen bytes <=? MAX_RECEIPT_ENTITLEMENT_BYTES) in
  let? r := parse_row bytes in
  let? _ := validate_active_record r bytes expected_digest in
  let? _ := (if canonical_checked (row_lifecycle r)
             then validate_persisted_reserved_record_bytes r bytes else Ok tt) in
  Ok (mkEntry r (blen bytes)).

(** [catalog_entry_from_batch_record]. *)
Definition catalog_entry_from_batch_record (r : Row) (bytes : list Z)
  : result Entry ReceiptLedgerError :=
  let? _ := validate_active_record r bytes (row_key_digest r) in
  let? _ := (match row_lifecycle r with
             | LDirectTerminalUnacked _ _ _ _ => Ok tt
             | _ => validate_persisted_reserved_record_bytes r bytes
             end) in
  Ok (mkEntry r (blen bytes)).
End Records.

(** ** What the store relies on of the codec *)

(** The JSON of a result reads back as that result.  A row is closed data but
    for the result it may hold: strings, integers and enumerations.  A result
    need not read back: [Some(Value::Null)] in an optional field is written as
    [null] and read as [None], and serde_json refuses to read what nests
    deeper than it writes. *)
Definition result_reads_back {C : ReceiptCodec} (x : DomainResult json_value) : Prop :=
  ∃ bs, result_to_vec x = Some bs ∧ result_from_slice bs = Some x.
Definition outcome_reads_back {C : ReceiptCodec} (o : ReceiptTerminalOutcome json_value) : Prop :=
  match o with RCompleted x => result_reads_back x | _ => True end.
Definition body_reads_back {C : ReceiptCodec} (l : StoredActiveLifecycleV1 json_value) : Prop :=
  match result_body l with Some (Some o) => outcome_reads_back o | _ => True end.
Definition staged {V : Type} (l : StoredActiveLifecycleV1 V) : bool :=
  match l with LTaskHandoffActorBound _ _ _ _ _ _ (StageStaged _ _ _) => true | _ => false end.

Class RowCodecLaws (C : ReceiptCodec) (R : RowCodec C) : Prop := {
  (** A row that holds its body is read back as it was written, when the
      result in its body is. *)
  row_round_trip : ∀ r bs, result_body_is_on_disk r = false → body_reads_back (row_lifecycle r) →
    row_to_vec r = Some bs → row_from_slice bs = Some r;
  (** A result that was read from where it nests deepest reads back
      (serde_json with [float_roundtrip]). *)
  staged_reads_back : ∀ r bs, row_from_slice bs = Some r → staged (row_lifecycle r) = true →
    body_reads_back (row_lifecycle r);
  (** JSON is not empty. *)
  row_not_empty : ∀ r, row_to_vec r ≠ Some [];
  tombstone_round_trip : ∀ t bs, tombstone_to_vec t = Some bs → tombstone_from_slice bs = Some t;
  (** The compact form lacks the fields of a row. *)
  tombstone_not_row : ∀ t bs, tombstone_to_vec t = Some bs → row_from_slice bs = None;
  (** Reading a direct record gives the row its codec wrote. *)
  direct_round_trip : ∀ seq version key cutoff epoch terminal bs,
    canonical_terminal (ct_outcome terminal) = Ok terminal →
    outcome_reads_back (ct_outcome terminal) → 0 ≤ seq ≤ u64_max → 0 < version ≤ u64_max → 0 ≤ epoch ≤ u64_max →
    encode_direct_record seq version key (receipt_key_digest key) cutoff epoch terminal = Ok bs →
    row_from_slice bs.2 = Some (mkRow RECEIPT_RECORD_SCHEMA_VERSION seq version key
      (receipt_key_digest key)
      (LDirectTerminalUnacked cutoff epoch (ct_digest terminal) (Some (ct_outcome terminal))));
  (** A version read from JSON is a [NonZeroU64]. *)
  row_version_positive : ∀ r bs, row_from_slice bs = Some r → 0 < row_record_version r;
  (** Empty bytes are not JSON. *)
  row_of_nothing : row_from_slice [] = None;
  tombstone_of_nothing : tombstone_from_slice [] = None;
}.

(** ** Records: facts *)

Lemma fail_unless_Ok b u : fail_unless b = Ok u ↔ b = true.
Proof. by destruct b, u. Qed.

(** Checked steps as equations. *)
Ltac checked_result :=
  opt_prop; repeat match goal with
    | E : ok_or _ _ = Ok _ |- _ => apply ok_or_Ok in E
    | E : fail_unless _ = Ok _ |- _ => apply fail_unless_Ok in E
    | E : u64_checked_add _ _ = Some _ |- _ => apply u64_checked_add_Some in E as [-> ?]
  end.

Section RecordProps.
Context {C : ReceiptCodec} {R : RowCodec C} {L : RowCodecLaws C R}.

Notation Row := (StoredActiveReceiptV1 json_value).
Notation Entry := (CatalogEntry json_value).
Notation Terminal := (V5CanonicalTerminal json_value).
Implicit Types (r : Row) (e : Entry) (bs : list Z) (d : digest).

(** Validation of [r] with the bytes [bs]. *)
Definition row_valid (r : Row) (bs : list Z) : Prop :=
  validate_active_record r bs (row_key_digest r) = Ok tt.

Lemma validate_active_record_Ok r bs d :
  validate_active_record r bs d = Ok tt ↔
  schema_supported r = true
  ∧ (row_mutation_sequence r ≠ 0 ∨ row_is_tombstone r = true)
  ∧ row_key_digest r = d ∧ receipt_key_digest (row_key r) = row_key_digest r
  ∧ ∃ limit, validate_lifecycle r bs = Ok limit ∧ blen bs ≤ limit.
Proof.
  unfold validate_active_record.
  destruct (schema_supported r); [|naive_solver]. cbn [fail_unless].
  destruct (negb (row_mutation_sequence r =? 0) || row_is_tombstone r) eqn:E; cbn [fail_unless].
  2:{ split; [done|]. intros (_ & H & _). apply orb_false_iff in E as [E1 E2].
      apply negb_false_iff, Z.eqb_eq in E1. destruct H; congruence. }
  assert (row_mutation_sequence r ≠ 0 ∨ row_is_tombstone r = true) as Hs.
  { apply orb_true_iff in E as [E|E]; [left|by right].
    intros H. by rewrite H in E. }
  destruct (bool_decide (row_key_digest r = d)
            && bool_decide (receipt_key_digest (row_key r) = row_key_digest r)) eqn:E2;
    cbn [fail_unless].
  2:{ split; [done|]. intros (_ & _ & H1 & H2 & _). by rewrite !bool_decide_true in E2 by done. }
  apply andb_true_iff in E2 as [E2 E3]. apply bool_decide_eq_true in E2, E3.
  destruct (validate_lifecycle r bs) as [limit|]; [|naive_solver].
  rewrite fail_unless_Ok, Z.leb_le. naive_solver.
Qed.

(** A row's limit when it is written is its limit when it is validated. *)
Lemma validate_lifecycle_limit r bs limit :
  validate_lifecycle r bs = Ok limit →
  limit ≤ MAX_RECEIPT_ENTITLEMENT_BYTES
  ∧ (canonical_checked (row_lifecycle r) = true → reserved_limit (row_lifecycle r) = Some limit).
Proof.
  unfold validate_lifecycle. intros Hv.
  destruct (row_lifecycle r) as [| | | | | | | | | | |? ? ? ? ? ? []| | | | |] eqn:El;
    break Hv; split; done.
Qed.

(** Rows without a result. *)
Lemma tombstone_reads_back r : row_is_tombstone r = true → body_reads_back (row_lifecycle r).
Proof. unfold row_is_tombstone, body_reads_back. by destruct (row_lifecycle r). Qed.
Lemma deletion_reads_back r n :
  is_expired_deletion (mkEntry r n) = true → body_reads_back (row_lifecycle r).
Proof. unfold is_expired_deletion, body_reads_back. cbn. by destruct (row_lifecycle r). Qed.

(** Serialization splits into the compact form and the row's own JSON. *)
Lemma serialize_Ok r maximum bs :
  serialize_reserved_record r maximum = Ok bs →
  result_body_is_on_disk r = false ∧ blen bs ≤ maximum
  ∧ blen bs ≤ MAX_RECEIPT_ENTITLEMENT_BYTES
  ∧ match row_lifecycle r with
    | LDirectTerminalUnacked _ _ _ _ => False
    | LAcknowledgedTombstone terminal_digest acknowledged_at =>
        tombstone_to_vec (row_key r, terminal_digest, acknowledged_at,
          if row_record_version r =? 3 then None else Some (row_record_version r)) = Some bs
    | _ => row_to_vec r = Some bs
    end.
Proof.
  unfold serialize_reserved_record. intros Hs.
  destruct (row_lifecycle r) eqn:El; try done; break Hs; checked_result; split_and!; done || lia.
Qed.
Lemma serialize_retry r maximum maximum' bs :
  serialize_reserved_record r maximum = Ok bs → blen bs ≤ maximum' →
  serialize_reserved_record r maximum' = Ok bs.
Proof.
  intros Hs Hm. destruct (serialize_Ok _ _ _ Hs) as (Hb & _ & Hmax & Hl).
  unfold serialize_reserved_record in *.
  destruct (row_lifecycle r) eqn:El; try done; rewrite Hb, Hl; cbn [ok_or];
    rewrite (proj2 (Z.ltb_ge _ _)), (proj2 (Z.ltb_ge _ _)); done || lia.
Qed.
Lemma serialize_nonempty r maximum bs :
  serialize_reserved_record r maximum = Ok bs → 0 < blen bs.
Proof.
  intros (Hb & _ & _ & Hl)%serialize_Ok. destruct bs as [|b bs]; [exfalso|unfold blen; cbn; lia].
  destruct (row_lifecycle r); try done;
    first [by apply row_not_empty in Hl
          |apply tombstone_round_trip in Hl; by rewrite tombstone_of_nothing in Hl].
Qed.

Lemma serialize_parses r maximum bs :
  serialize_reserved_record r maximum = Ok bs → row_valid r bs →
  (row_is_tombstone r = true → row_mutation_sequence r = 0) → body_reads_back (row_lifecycle r) →
  parse_row bs = Ok r.
Proof.
  intros Hs (Hschema & _ & _ & Hkey & _)%validate_active_record_Ok Hseq Hbody.
  destruct (serialize_Ok _ _ _ Hs) as (Hb & _ & _ & Hl). unfold parse_row.
  destruct (row_is_tombstone r) eqn:Ht.
  - unfold row_is_tombstone in Ht. unfold schema_supported in Hschema.
    destruct r as [schema seq version key kd l]. cbn in *. destruct l; try done.
    rewrite (tombstone_not_row _ _ Hl), (tombstone_round_trip _ _ Hl). cbn.
    rewrite andb_false_r, orb_false_r in Hschema. apply Z.eqb_eq in Hschema.
    rewrite Hschema, Hkey, Hseq by done.
    destruct (version =? 3) eqn:Hv; [apply Z.eqb_eq in Hv; by subst|done].
  - unfold row_is_tombstone in Ht.
    destruct (row_lifecycle r) eqn:El; try done; by rewrite (row_round_trip r bs Hb); rewrite ?El.
Qed.

Lemma serialized_decodes r maximum bs :
  serialize_reserved_record r maximum = Ok bs → row_valid r bs →
  (row_is_tombstone r = true → row_mutation_sequence r = 0) → body_reads_back (row_lifecycle r) →
  decode_active_record bs (row_key_digest r) = Ok (mkEntry r (blen bs)).
Proof.
  intros Hs Hv Hseq Hbody. unfold decode_active_record.
  rewrite (serialize_parses r maximum bs Hs Hv Hseq Hbody).
  destruct (serialize_Ok _ _ _ Hs) as (_ & _ & Hmax & _).
  rewrite (proj2 (Z.leb_le _ _) Hmax). cbn [fail_unless].
  rewrite Hv. apply validate_active_record_Ok in Hv as (_ & _ & _ & _ & limit & Hlim & Hle).
  destruct (validate_lifecycle_limit r bs limit Hlim) as [_ Hres].
  destruct (canonical_checked (row_lifecycle r)) eqn:Hc; [|done].
  unfold validate_persisted_reserved_record_bytes. rewrite (Hres eq_refl). cbn [ok_or].
  rewrite (serialize_retry r maximum limit bs Hs Hle). by rewrite bool_decide_true.
Qed.

(** ** Direct terminals *)

Lemma restore_canonical outcome t :
  canonical_terminal outcome = Ok t → ct_outcome t = outcome
  ∧ restore_canonical_terminal (ct_outcome t) (ct_digest t) = Ok t.
Proof.
  intros Ht. assert (ct_outcome t = outcome) as Ho.
  { unfold canonical_terminal in Ht. break Ht. done. }
  split; [done|]. unfold restore_canonical_terminal. rewrite Ho, Ht. by rewrite bool_decide_true.
Qed.

(** The row of a direct terminal. *)
Definition direct_row (seq version : Z) (key : ReceiptKey) (cutoff : OriginalCutoffDescriptor)
    (epoch : Z) (t : Terminal) : Row :=
  mkRow RECEIPT_RECORD_SCHEMA_VERSION seq version key (receipt_key_digest key)
    (LDirectTerminalUnacked cutoff epoch (ct_digest t) (Some (ct_outcome t))).

Lemma direct_record_bytes_nonempty seq version kj d cj epoch t :
  0 < blen (direct_record_bytes seq version kj d cj epoch t).
Proof.
  unfold direct_record_bytes, blen. rewrite length_app.
  enough (0 < length (json_lit "{'schemaVersion':1,'mutationSequence':"))%nat by lia.
  vm_compute. lia.
Qed.
Lemma encode_direct_bounds seq version key d cutoff epoch t enc :
  encode_direct_record seq version key d cutoff epoch t = Ok enc →
  0 < blen enc.2 ≤ MAX_RECEIPT_ENTITLEMENT_BYTES ∧ epoch + DIRECT_TERMINAL_RETENTION_MS ≤ u64_max.
Proof.
  unfold encode_direct_record. intros He.
  destruct (u64_checked_add epoch DIRECT_TERMINAL_RETENTION_MS) eqn:E1; [|done].
  apply u64_checked_add_Some in E1 as [_ E1]. cbn [ok_or] in He.
  destruct (key_to_vec key) as [kj|]; [|done].
  destruct (cutoff_to_vec cutoff) as [cj|]; [|done]. cbn [ok_or] in He.
  pose proof (direct_record_bytes_nonempty seq version kj d cj epoch t) as Hpos.
  destruct (Z.ltb_spec MAX_RECEIPT_ENTITLEMENT_BYTES
              (blen (direct_record_bytes seq version kj d cj epoch t))); [done|].
  injection He as <-. done.
Qed.

Lemma direct_decodes outcome t seq version key cutoff epoch enc :
  canonical_terminal outcome = Ok t → outcome_reads_back outcome →
  encode_direct_record seq version key (receipt_key_digest key) cutoff epoch t = Ok enc →
  0 < seq ≤ u64_max → version_initial < version ≤ u64_max → 0 ≤ epoch →
  decode_active_record enc.2 (receipt_key_digest key)
  = Ok (mkEntry (direct_row seq version key cutoff epoch t) (blen enc.2)).
Proof.
  intros Ht Hback He Hseq Hver He0. unfold version_initial in Hver.
  destruct (encode_direct_bounds _ _ _ _ _ _ _ _ He) as [[_ Hle] Hep].
  destruct (restore_canonical outcome t Ht) as [Hout Hr].
  assert (canonical_terminal (ct_outcome t) = Ok t) as Hcan by (by rewrite Hout).
  assert (outcome_reads_back (ct_outcome t)) as Hback' by (by rewrite Hout).
  assert (epoch ≤ u64_max) as He1 by (unfold DIRECT_TERMINAL_RETENTION_MS in Hep; lia).
  unfold decode_active_record, parse_row.
  rewrite (proj2 (Z.leb_le _ _) Hle). cbn [fail_unless].
  rewrite (direct_round_trip _ _ _ _ _ _ _ Hcan Hback' (conj (Z.lt_le_incl _ _ (proj1 Hseq)) (proj2 Hseq))
    (conj (Z.lt_trans _ _ _ Z.lt_0_1 (proj1 Hver)) (proj2 Hver)) (conj He0 He1) He). fold (direct_row seq version key cutoff epoch t).
  assert (validate_active_record (direct_row seq version key cutoff epoch t) enc.2
            (receipt_key_digest key) = Ok tt) as ->; [|done].
  apply validate_active_record_Ok. split_and!; [done|left; cbn; lia|done|done|].
  exists MAX_RECEIPT_ENTITLEMENT_BYTES. split; [|done].
  unfold validate_lifecycle, direct_row. cbn [row_lifecycle row_record_version
    row_mutation_sequence row_key row_key_digest].
  rewrite (proj2 (Z.eqb_neq _ _)) by (unfold version_initial; lia). cbn [negb fail_unless].
  rewrite (proj2 (u64_checked_add_Some _ _ _) (conj eq_refl Hep)). cbn [ok_or].
  unfold validate_persisted_direct_record_bytes.
  change (body_value (Some (ct_outcome t))) with (ct_outcome t).
  rewrite Hr, He. by rewrite bool_decide_true.
Qed.

(** A direct terminal in its canonical form is read back from the bytes the
    direct codec wrote, with its outcome. *)
Theorem direct_row_reads_back outcome t seq version key cutoff epoch enc :
  canonical_terminal outcome = Ok t → outcome_reads_back outcome →
  encode_direct_record seq version key (receipt_key_digest key) cutoff epoch t = Ok enc →
  0 < seq ≤ u64_max → version_initial < version ≤ u64_max → 0 ≤ epoch →
  decode_active_record enc.2 (receipt_key_digest key)
  = Ok (mkEntry (direct_row seq version key cutoff epoch t) (blen enc.2)).
Proof. exact (direct_decodes outcome t seq version key cutoff epoch enc). Qed.

Lemma persisted_checked r bs u :
  validate_persisted_reserved_record_bytes r bs = Ok u →
  ∃ limit, reserved_limit (row_lifecycle r) = Some limit ∧ serialize_reserved_record r limit = Ok bs.
Proof.
  unfold validate_persisted_reserved_record_bytes. intros Hp. break Hp. checked_result. bool_prop.
  subst. eauto.
Qed.
Lemma direct_checked seq version key d cutoff epoch terminal body bs u :
  validate_persisted_direct_record_bytes seq version key d cutoff epoch terminal body bs = Ok u →
  ∃ t key_json, restore_canonical_terminal (body_value body) terminal = Ok t
    ∧ encode_direct_record seq version key d cutoff epoch t = Ok (key_json, bs).
Proof.
  unfold validate_persisted_direct_record_bytes. intros Hp. break Hp. bool_prop. subst.
  match goal with E : encode_direct_record _ _ _ _ _ _ _ = Ok ?x |- _ => destruct x end. eauto.
Qed.

(** C17. The store reads back nothing but what it writes.  Bytes that are
    accepted as the row of a receipt are the very bytes that the store writes
    for that row: the serialization of the row within the limit of its
    lifecycle, the compact form for a tombstone, and for a direct terminal
    the record that the direct codec builds from its restored outcome; the
    row's key has the digest it was read under.  Any other bytes, longer than
    an entitlement, not canonical, or of another receipt, are refused.  The
    one row the reader does not compare is the deletion witness of an expired
    task receipt. *)
Theorem read_row_is_written bs d e :
  decode_active_record bs d = Ok e →
  let r := ce_record e in
  row_key_digest r = d ∧ receipt_key_digest (row_key r) = d
  ∧ ce_encoded_bytes e = blen bs ∧ blen bs ≤ MAX_RECEIPT_ENTITLEMENT_BYTES
  ∧ match row_lifecycle r with
    | LDirectTerminalUnacked cutoff epoch terminal_digest body =>
        ∃ t key_json, restore_canonical_terminal (body_value body) terminal_digest = Ok t
          ∧ encode_direct_record (row_mutation_sequence r) (row_record_version r) (row_key r) d
              cutoff epoch t = Ok (key_json, bs)
    | LExpiredTaskReceiptDeletion _ _ _ _ _ _ => True
    | l => ∃ limit, reserved_limit l = Some limit ∧ serialize_reserved_record r limit = Ok bs
    end.
Proof.
  unfold decode_active_record. intros Hd.
  destruct (blen bs <=? MAX_RECEIPT_ENTITLEMENT_BYTES) eqn:Hle; [|done]. cbn [fail_unless] in Hd.
  destruct (parse_row bs) as [r|]; [|done].
  destruct (validate_active_record r bs d) as [[]|] eqn:Hv; [|done].
  apply validate_active_record_Ok in Hv as (_ & _ & Hd1 & Hd2 & limit & Hl & _).
  destruct (if canonical_checked _ then _ else _) as [u|] eqn:Hp; [|done].
  injection Hd as <-. cbn [ce_record ce_encoded_bytes].
  split_and!; [done|by rewrite Hd2|done|by apply Z.leb_le|].
  assert (canonical_checked (row_lifecycle r) = true →
    ∃ limit, reserved_limit (row_lifecycle r) = Some limit ∧ serialize_reserved_record r limit = Ok bs) as Hw.
  { intros Hc. rewrite Hc in Hp. by eapply persisted_checked. }
  unfold validate_lifecycle in Hl.
  destruct (row_lifecycle r); cbn [canonical_checked] in Hw; try (by apply Hw); [done|].
  break Hl. by eapply direct_checked.
Qed.
End RecordProps.
