(* ===== verification/ReceiptStore.v ===== *)
(** * Receipt store: effects

    The storage steps of [crates/unica-execution/src/receipt_store.rs]: the
    state a ledger works on, the effects of reading and publishing rows and
    the generation, and the fences around them.

    A [World] holds the catalog under the writer lock, the rows of the
    [active] directory (digest to bytes), the bytes of the [generation] file,
    the generation high-water mark in memory, and the answers of the
    environment still to come.  Every deadline check and every call into the
    file system takes the next answer: it succeeds, fails, finds the
    authority contradicted, or the process stops there.  With no answers left
    everything succeeds.  An answer covers the calls between two effects that
    report their failure alike.  A rename takes effect at once and stays.

    Not part of the model: batch files, staging files left behind by a
    failure, and ownership of the directories beyond the answers above. *)

From Stdlib Require Import ZArith Lia String.
From stdpp Require Import base gmap list option numbers countable strings.
From S2P Require Import Prelude Contract ResultSize Redaction ReceiptLedger ReceiptStates.
From S2P Require Import ReceiptRows ReceiptCatalog ReceiptRecords.

Local Open Scope Z_scope.

Inductive answer := Fine | Fails | Contradicts | Stops.

(** What a call comes to: a value, an error, a panic, or the process stopping. *)
Inductive outcome (A : Type) :=
| Done (a : A)
| Refused (e : ReceiptLedgerError)
| Panics
| Stopped.
Arguments Done {A}.
Arguments Refused {A}.
Arguments Panics {A}.
Arguments Stopped {A}.

(** ** The generation file *)

Definition MAX_GENERATION_FILE_BYTES : Z := 32.
Definition generation_bytes (g : Z) : list Z := u64_to_string g ++ [10].
Definition is_ascii_digit (b : Z) : bool := in_range 48 57 b.
Definition decimal_value (ds : list Z) : Z := foldl (λ n b, 10 * n + (b - 48)) 0 ds.

(** [parse_generation]; text of ASCII digits is UTF-8, and the number must be
    a [u64]. *)
Definition parse_generation (bytes : list Z) : result Z ReceiptLedgerError :=
  match List.rev bytes with
  | 10 :: reversed =>
      if MAX_GENERATION_FILE_BYTES <? blen bytes then Err Corrupt
      else
        let text := List.rev reversed in
        if match text with [] => true | _ => false end
           || negb (forallb is_ascii_digit text)
           || ((1 <? blen text) && match text with 48 :: _ => true | _ => false end)
        then Err Corrupt
        else if u64_max <? decimal_value text then Err Corrupt
        else Ok (decimal_value text)
  | _ => Err Corrupt
  end.

Section Effects.
Context {C : ReceiptCodec} {R : RowCodec C}.

Notation Row := (StoredActiveReceiptV1 json_value).
Notation Entry := (CatalogEntry json_value).
Notation Catalog := (ReceiptCatalog json_value).

Record World := mkWorld {
  w_catalog : Catalog;
  w_active : gmap digest (list Z);
  w_generation : list Z;
  w_highwater : Z;
  w_answers : list answer;
}.
Definition set_catalog (c : Catalog) (w : World) : World :=
  mkWorld c (w_active w) (w_generation w) (w_highwater w) (w_answers w).
Definition set_active (m : gmap digest (list Z)) (w : World) : World :=
  mkWorld (w_catalog w) m (w_generation w) (w_highwater w) (w_answers w).
Definition set_generation (g : list Z) (w : World) : World :=
  mkWorld (w_catalog w) (w_active w) g (w_highwater w) (w_answers w).
Definition set_highwater (g : Z) (w : World) : World :=
  mkWorld (w_catalog w) (w_active w) (w_generation w) g (w_answers w).
Definition set_answers (l : list answer) (w : World) : World :=
  mkWorld (w_catalog w) (w_active w) (w_generation w) (w_highwater w) l.

Definition M (A : Type) : Type := World → World * outcome A.

#[export] Instance M_ret : MRet M := λ A a w, (w, Done a).
#[export] Instance M_bind : MBind M := λ A B f m w,
  match m w with
  | (w, Done a) => f a w
  | (w, Refused e) => (w, Refused e)
  | (w, Panics) => (w, Panics)
  | (w, Stopped) => (w, Stopped)
  end.

Definition refuse {A} (e : ReceiptLedgerError) : M A := λ w, (w, Refused e).
Definition panic {A} : M A := λ w, (w, Panics).
Definition lift {A} (r : result A ReceiptLedgerError) : M A :=
  match r with Ok a => mret a | Err e => refuse e end.
(** An error caught as a value; a panic or a stop goes on. *)
Definition attempt {A} (m : M A) : M (result A ReceiptLedgerError) := λ w,
  match m w with
  | (w, Done a) => (w, Done (Ok a))
  | (w, Refused e) => (w, Done (Err e))
  | (w, Panics) => (w, Panics)
  | (w, Stopped) => (w, Stopped)
  end.
Definition succeeds {A} (m : M A) : M bool := r ← attempt m; mret (is_ok r).
Definition map_error {A} (f : ReceiptLedgerError → ReceiptLedgerError) (m : M A) : M A :=
  r ← attempt m; match r with Ok a => mret a | Err e => refuse (f e) end.

Definition gets {A} (f : World → A) : M A := λ w, (w, Done (f w)).
Definition modify (f : World → World) : M unit := λ w, (f w, Done tt).
Definition catalog : M Catalog := gets w_catalog.

(** ** The environment *)

Definition ask : M answer := λ w,
  match w_answers w with
  | [] => (w, Done Fine)
  | Stops :: rest => (set_answers rest w, Stopped)
  | a :: rest => (set_answers rest w, Done a)
  end.
Definition check_deadline : M unit :=
  a ← ask; match a with Fine => mret tt | _ => refuse DeadlineExceeded end.
(** Calls into the file system that report a storage error. *)
Definition io : M unit :=
  a ← ask; match a with Fine => mret tt | _ => refuse LedgerStorage end.
Definition verify_named_authority : M unit :=
  a ← ask;
  match a with
  | Fine => mret tt
  | Contradicts => refuse Corrupt
  | _ => refuse LedgerStorage
  end.

(** ** Latching *)

Definition latch : M unit := modify (λ w, set_catalog (set_unavailable (w_catalog w)) w).
(** [return latch_catalog_error(..)] and [latch_catalog_result(..)?]. *)
Definition latch_error {A} (e : ReceiptLedgerError) : M A := _ ← latch; refuse e.
Definition latched {A} (m : M A) : M A :=
  r ← attempt m; match r with Ok a => mret a | Err e => latch_error e end.
(** An error that leaves the store available only when it is a deadline. *)
Definition latch_unless_deadline {A} (m : M A) : M A :=
  r ← attempt m;
  match r with
  | Ok a => mret a
  | Err DeadlineExceeded => refuse DeadlineExceeded
  | Err e => latch_error e
  end.
Definition available : M unit :=
  c ← catalog; if cat_unavailable c then refuse StoreUnavailable else mret tt.

(** ** Reading *)

Definition generation_under_writer_lock : M Z :=
  _ ← verify_named_authority;
  _ ← io;
  bytes ← gets w_generation;
  value ← lift (parse_generation bytes);
  _ ← verify_named_authority;
  highwater ← gets w_highwater;
  mret (Z.max value highwater).

(** [read_active_record_bytes]. *)
Definition read_active_record_bytes (d : digest) : M (option (list Z)) :=
  _ ← io;
  active ← gets w_active;
  match active !! d with
  | None => mret None
  | Some bytes =>
      if MAX_RECEIPT_ENTITLEMENT_BYTES <? blen bytes then refuse Corrupt else mret (Some bytes)
  end.
(** [read_active_record]. *)
Definition read_active_record (d : digest) : M (option Entry) :=
  _ ← io;
  active ← gets w_active;
  match active !! d with
  | None => mret None
  | Some bytes => e ← lift (decode_active_record bytes d); mret (Some e)
  end.

(** [inspect_catalog_with_generation_under_stable_fence]. *)
Definition inspect_under_fence {A} (inspect : Catalog → Z → A) : M A :=
  _ ← available;
  _ ← check_deadline;
  _ ← latched verify_named_authority;
  _ ← check_deadline;
  before ← latched generation_under_writer_lock;
  _ ← check_deadline;
  c ← catalog;
  _ ← check_deadline;
  after ← latched generation_under_writer_lock;
  if negb (after =? before) then latch_error (ConcurrentGenerationChange before after)
  else
    _ ← check_deadline;
    _ ← latched verify_named_authority;
    _ ← check_deadline;
    mret (inspect c before).

Definition read_entry_under_writer_lock (d : digest) : M (option Entry) :=
  _ ← available;
  _ ← check_deadline;
  _ ← latched verify_named_authority;
  _ ← check_deadline;
  before ← latched generation_under_writer_lock;
  _ ← check_deadline;
  entry ← latched (read_active_record d);
  _ ← check_deadline;
  after ← latched generation_under_writer_lock;
  if negb (after =? before) then latch_error (ConcurrentGenerationChange before after)
  else
    _ ← check_deadline;
    _ ← latched verify_named_authority;
    _ ← check_deadline;
    c ← catalog;
    match cat_records c !! d, entry with
    | None, None => mret None
    | Some expected, Some actual =>
        if entry_eq expected actual then mret (Some actual) else latch_error Corrupt
    | None, Some _ | Some _, None => latch_error Corrupt
    end.

Definition reject_before_mutation {A} (e : ReceiptLedgerError) : M A :=
  _ ← check_deadline;
  _ ← latched verify_named_authority;
  refuse e.

(** ** Publishing *)

(** A staged file that will not be published is removed; a failed removal
    leaves the store to a reopen. *)
Definition discard_staged {A} (e : ReceiptLedgerError) : M A :=
  cleaned ← succeeds io;
  refuse (if cleaned : bool then e else StoreUnavailable).
Definition stage_file : M unit :=
  _ ← io;
  identified ← succeeds io;
  if negb identified then refuse StoreUnavailable
  else
    written ← succeeds io;
    if negb written then discard_staged LedgerStorage
    else
      in_time ← succeeds check_deadline;
      if negb in_time then discard_staged DeadlineExceeded else mret tt.

(** A rename onto a name of [active]; [replace] allows the name to exist. *)
Definition rename_row (replace : bool) (d : digest) (encoded : list Z) : M unit :=
  renamed ← succeeds io;
  active ← gets w_active;
  if negb renamed || (negb replace && is_some (active !! d)) then discard_staged LedgerStorage
  else modify (set_active (<[d := encoded]> active)).

Definition publish_row (replace : bool) (r : Row) (encoded : list Z) (on_visible : M unit)
  : M unit :=
  _ ← check_deadline;
  _ ← verify_named_authority;
  _ ← stage_file;
  _ ← rename_row replace (row_key_digest r) encoded;
  _ ← on_visible;
  synced ← succeeds io;
  if negb synced then refuse (CommitUncertain (row_key_digest r))
  else
    in_time ← succeeds check_deadline;
    if negb in_time then refuse (CommitUncertain (row_key_digest r)) else mret tt.
Definition publish_new_record := publish_row false.
Definition publish_replacement_record := publish_row true.

Definition after_row_error (d : option digest) (fallback : ReceiptLedgerError)
  : ReceiptLedgerError :=
  match d with Some d => CommitUncertain d | None => fallback end.

Definition publish_generation (next : Z) (d : option digest) : M unit :=
  map_error (after_row_error d) (
    _ ← check_deadline;
    _ ← verify_named_authority;
    _ ← stage_file;
    replaced ← succeeds io;
    if negb replaced then discard_staged LedgerStorage
    else
      _ ← modify (set_generation (generation_bytes next));
      _ ← io;
      _ ← verify_named_authority;
      _ ← check_deadline;
      highwater ← gets w_highwater;
      modify (set_highwater (Z.max highwater next))).

Definition remove_expired_deletion_witness (d : digest) (expected : list Z) : M unit :=
  map_error (λ _, CommitUncertain d) (
    _ ← check_deadline;
    _ ← verify_named_authority;
    _ ← io;
    active ← gets w_active;
    bytes ← lift (ok_or (active !! d) LedgerStorage);
    _ ← lift (fail_unless (blen bytes <=? MAX_RECEIPT_ENTITLEMENT_BYTES));
    _ ← lift (fail_unless (bool_decide (bytes = expected)));
    _ ← check_deadline;
    _ ← verify_named_authority;
    _ ← io;
    _ ← modify (set_active (delete d active));
    _ ← io;
    _ ← check_deadline;
    verify_named_authority).

(** ** Commits *)

Definition commit_replace (r : Entry) : M unit :=
  c ← catalog;
  match commit_catalog_replace c r with
  | Some c => modify (set_catalog c)
  | None => panic
  end.
Definition commit_insert (e : Entry) : M unit :=
  c ← catalog; modify (set_catalog (commit_catalog_insert c e)).
Definition commit_remove (e : Entry) : M unit :=
  c ← catalog; modify (set_catalog (commit_catalog_remove c e)).

Definition confirm_bytes (d : digest) (encoded : list Z) : M unit :=
  r ← attempt (read_active_record_bytes d);
  match r with
  | Ok (Some committed) =>
      if bool_decide (committed = encoded) then mret tt else latch_error (CommitUncertain d)
  | _ => latch_error (CommitUncertain d)
  end.

(** The tail that every row replacement shares: publish the row and commit it
    to the catalog, publish its sequence as the generation, read it back. *)
Definition replace_row (r : Row) (encoded : list Z) (replacement : Entry) (sequence : Z)
  : M unit :=
  _ ← latch_unless_deadline (publish_replacement_record r encoded (commit_replace replacement));
  _ ← latched (publish_generation sequence (Some (row_key_digest r)));
  confirm_bytes (row_key_digest r) encoded.
(** ... and that every new row shares. *)
Definition insert_row (r : Row) (encoded : list Z) (e : Entry) (sequence : Z) : M unit :=
  _ ← latch_unless_deadline (publish_new_record r encoded (commit_insert e));
  _ ← latched (publish_generation sequence (Some (row_key_digest r)));
  confirm_bytes (row_key_digest r) encoded.
(** A removal publishes a witness in the row's place, then its sequence, and
    only then removes the witness. *)
Definition delete_row (witness : Row) (encoded : list Z) (persisted : Entry) (sequence : Z)
  : M unit :=
  _ ← latch_unless_deadline
        (publish_replacement_record witness encoded (commit_remove persisted));
  _ ← latched (publish_generation sequence (Some (row_key_digest witness)));
  _ ← latched (remove_expired_deletion_witness (row_key_digest witness) encoded);
  confirmed ← succeeds (_ ← check_deadline; verify_named_authority);
  if confirmed : bool then mret tt else latch_error (CommitUncertain (row_key_digest witness)).

(** ** Steps that operations share *)

(** Find the row of [key], in the catalog and on disk. *)
Definition open_row (key : ReceiptKey) : M (Entry * Entry) :=
  let d := receipt_key_digest key in
  _ ← available;
  _ ← latched verify_named_authority;
  c ← catalog;
  expected ← lift (ok_or (cat_records c !! d) ReceiptNotFound);
  if negb (bool_decide (row_key (ce_record expected) = key)) then latch_error ReceiptDigestCollision
  else
    persisted ← read_entry_under_writer_lock d;
    persisted ← lift (ok_or persisted Corrupt);
    if negb (entry_eq persisted expected) then latch_error Corrupt
    else mret (expected, persisted).
Definition expect_version (e : Entry) (expected : Z) : M unit :=
  if row_record_version (ce_record e) =? expected then mret tt
  else refuse (ReceiptVersionMismatch expected (row_record_version (ce_record e))).
Definition next_version (v : Z) : M Z := lift (ok_or (checked_next v) Corrupt).
(** The next mutation sequence. *)
Definition next_sequence : M Z :=
  generation ← latched generation_under_writer_lock;
  lift (ok_or (u64_checked_add generation 1) Corrupt).
Definition reserved_of (e : Entry) : M ReservedReceipt :=
  match reservation e with
  | Reservation r => mret r
  | NoReservation error => refuse error
  | ReservationPanics => panic
  end.
(** The row an operation committed. *)
Definition committed_entry (d : digest) : M Entry :=
  c ← catalog; lift (ok_or (cat_records c !! d) (CommitUncertain d)).
Definition confirm_authority (d : digest) : M unit :=
  confirmed ← succeeds (_ ← check_deadline; verify_named_authority);
  if confirmed : bool then mret tt else latch_error (CommitUncertain d).
End Effects.
