(* ===== verification/ReceiptOps.v ===== *)
(** * Receipt store: operations

    The single-row operations of [ReceiptLedgerStore]
    ([crates/unica-execution/src/receipt_store.rs]): reservation and
    cancellation before a submission, the phases of a reservation, the
    promise and hand-off of a task, terminals, acknowledgement, retention,
    and lookups. *)

From Stdlib Require Import ZArith Lia String.
From stdpp Require Import base gmap list option numbers countable strings.
From S2P Require Import Prelude Contract ResultSize Redaction ReceiptLedger ReceiptStates.
From S2P Require Import ReceiptRows ReceiptCatalog ReceiptRecords ReceiptStore.

Local Open Scope Z_scope.

Section Ops.
Context {C : ReceiptCodec} {R : RowCodec C}.

Notation Row := (StoredActiveReceiptV1 json_value).
Notation Entry := (CatalogEntry json_value).
Notation Terminal := (V5CanonicalTerminal json_value).
Notation State := (ReceiptState json_value).

(** ** Retention *)

(** An expired row is replaced by its deletion witness and removed. *)
Definition reclaim_row (d : digest) (expires_at : State → option (result Z ReceiptLedgerError))
    (build : Entry → Z → Z → result Row ReceiptLedgerError) (observed_at : Z) : M unit :=
  _ ← check_deadline;
  c ← catalog;
  expected ← lift (ok_or (cat_records c !! d) Corrupt);
  persisted ← read_entry_under_writer_lock d;
  persisted ← lift (ok_or persisted Corrupt);
  if negb (entry_eq persisted expected) then latch_error Corrupt
  else
    expires ← match state persisted with
              | Ok s =>
                  match expires_at s with
                  | Some r => lift r
                  | None => latch_error Corrupt
                  end
              | Err e => latch_error e
              end;
    if observed_at <? expires then latch_error Corrupt
    else
      sequence ← next_sequence;
      witness ← lift (build persisted observed_at sequence);
      encoded ← lift (serialize_reserved_record witness MAX_CANCEL_RESERVED_RECORD_BYTES);
      c ← catalog;
      match validate_catalog_remove c persisted with
      | Err e => latch_error e
      | Ok _ => delete_row witness encoded persisted sequence
      end.

Definition reclaim_expired_tombstone_under_writer_lock (d : digest) (observed_at : Z) : M unit :=
  reclaim_row d
    (λ s, match s with
          | SAcknowledgedTombstone r => Some (Ok (tombstone_expires_at r))
          | _ => None
          end)
    build_expired_tombstone_deletion_record observed_at.
Definition reclaim_expired_direct_terminal_under_writer_lock (d : digest) (observed_at : Z)
  : M unit :=
  reclaim_row d
    (λ s, match s with
          | SDirectTerminalUnacked r =>
              Some (ok_or (u64_checked_add (dt_terminal_epoch_ms r) DIRECT_TERMINAL_RETENTION_MS)
                      Corrupt)
          | _ => None
          end)
    build_expired_direct_deletion_record observed_at.
Definition reclaim_expired_task_receipt_terminal_under_writer_lock (d : digest)
    (observed_at : Z) : M unit :=
  reclaim_row d
    (λ s, match s with
          | STaskTerminalReceiptBacked r =>
              Some (Ok (rb_terminal_epoch_ms r + tp_ttl_ms (rb_task r)))
          | _ => None
          end)
    build_expired_task_receipt_deletion_record observed_at.

(** [reclaim_expired_tombstones]: every expired row, in the order of digests
    (the order of the list). *)
Definition expired_digests (c : ReceiptCatalog json_value) (observed_at : Z) : list digest :=
  (map_to_list (cat_records c)) ≫= λ p,
    if entry_is_expired_tombstone p.2 observed_at
       || entry_is_expired_direct_terminal p.2 observed_at
       || entry_is_expired_task_receipt_terminal p.2 observed_at
    then [p.1] else [].
Fixpoint digest_leb (a b : digest) : bool :=
  match a, b with
  | [], _ => true
  | _ :: _, [] => false
  | x :: a, y :: b => (x <? y) || ((x =? y) && digest_leb a b)
  end.
Fixpoint insert_sorted (d : digest) (l : list digest) : list digest :=
  match l with
  | [] => [d]
  | x :: l => if digest_leb d x then d :: x :: l else x :: insert_sorted d l
  end.
Definition sort_digests (l : list digest) : list digest := foldr insert_sorted [] l.

Definition reclaim_one (d : digest) (observed_at : Z) : M unit :=
  c ← catalog;
  match row_lifecycle ∘ ce_record <$> cat_records c !! d with
  | Some (LAcknowledgedTombstone _ _) => reclaim_expired_tombstone_under_writer_lock d observed_at
  | Some (LDirectTerminalUnacked _ _ _ _) =>
      reclaim_expired_direct_terminal_under_writer_lock d observed_at
  | Some (LTaskTerminalReceiptBacked _ _ _ _ _) =>
      reclaim_expired_task_receipt_terminal_under_writer_lock d observed_at
  | _ => latch_error Corrupt
  end.
Fixpoint reclaim_all (ds : list digest) (observed_at : Z) : M unit :=
  match ds with
  | [] => mret tt
  | d :: ds => _ ← reclaim_one d observed_at; reclaim_all ds observed_at
  end.
Definition reclaim_expired_tombstones (observed_at : Z) : M Z :=
  _ ← check_deadline;
  _ ← available;
  _ ← latched verify_named_authority;
  c ← catalog;
  let expired := sort_digests (expired_digests c observed_at) in
  _ ← reclaim_all expired observed_at;
  mret (Z.of_nat (length expired)).

(** ** Admission *)

(** The rows that hold an identity of a new key must be expired, and are
    reclaimed. *)
Definition identity_holder (held_by : option digest) (observed_at : Z) (e : ReceiptLedgerError)
  : M (list digest) :=
  match held_by with
  | None => mret []
  | Some d =>
      c ← catalog;
      match catalog_entry_is_expired_identity_reclaimable c d observed_at with
      | Err error => latch_error error
      | Ok false => reject_before_mutation e
      | Ok true => mret [d]
      end
  end.
(** One identity reclaimed for a new admission. *)
Definition reclaim_identity (d : digest) (observed_at : Z) : M unit :=
  c ← catalog;
  match row_lifecycle ∘ ce_record <$> cat_records c !! d with
  | Some (LAcknowledgedTombstone _ _) => reclaim_expired_tombstone_under_writer_lock d observed_at
  | Some (LDirectTerminalUnacked _ _ _ _) =>
      reclaim_expired_direct_terminal_under_writer_lock d observed_at
  | _ => latch_error Corrupt
  end.
Fixpoint reclaim_identities (ds : list digest) (observed_at : Z) : M unit :=
  match ds with
  | [] => mret tt
  | d :: ds => _ ← reclaim_identity d observed_at; reclaim_identities ds observed_at
  end.
(** [Vec::dedup] of a sorted list of at most two. *)
Definition dedup_sorted (l : list digest) : list digest :=
  match l with
  | [a; b] => if bool_decide (a = b) then [a] else [a; b]
  | l => l
  end.
Definition prepare_new_admission_under_writer_lock (key : ReceiptKey) (observed_at : Z) : M unit :=
  c ← catalog;
  by_invocation ← identity_holder (cat_invocation_index c !! rk_invocation_id key) observed_at
                    InvocationIdentityMismatch;
  by_task ← identity_holder (cat_reserved_task_index c !! rk_reserved_task_id key) observed_at
              ReservedTaskIdentityMismatch;
  reclaim_identities (dedup_sorted (sort_digests (by_invocation ++ by_task))) observed_at.

(** The next sequence of an admission: exhaustion is refused before any
    mutation. *)
Definition admission_sequence : M Z :=
  generation ← latched generation_under_writer_lock;
  match u64_checked_add generation 1 with
  | Some sequence => mret sequence
  | None => reject_before_mutation Corrupt
  end.
(** The catalog still holds the row just written. *)
Definition committed_same (r : Row) : M Entry :=
  c ← catalog;
  match cat_records c !! row_key_digest r with
  | Some e =>
      if same_record (ce_record e) r then mret e
      else latch_error (CommitUncertain (row_key_digest r))
  | None => latch_error (CommitUncertain (row_key_digest r))
  end.
(** A new row, checked, written and confirmed. *)
Definition admit_row (r : Row) (encoded : list Z) (sequence : Z) : M Entry :=
  let e := mkEntry r (blen encoded) in
  c ← catalog;
  match validate_catalog_insert c e false with
  | Err error => reject_before_mutation error
  | Ok _ =>
      _ ← insert_row r encoded e sequence;
      _ ← confirm_authority (row_key_digest r);
      committed_same r
  end.

(** ** Reservation *)

Definition convert_cancel_reserved_to_submit (expected : Entry) (key : ReceiptKey)
    (cutoff : OriginalCutoffDescriptor) : M (ReserveOutcome json_value) :=
  let d := row_key_digest (ce_record expected) in
  cancel_requested ← match row_lifecycle (ce_record expected) with
                     | LCancelReserved _ _ _ => mret true
                     | _ => latch_error Corrupt
                     end;
  version ← match checked_next (row_record_version (ce_record expected)) with
            | Some version => mret version
            | None => latch_error Corrupt
            end;
  generation ← latched generation_under_writer_lock;
  sequence ← match u64_checked_add generation 1 with
             | Some sequence => mret sequence
             | None => latch_error Corrupt
             end;
  let r := build_reserved_record key d cutoff sequence version cancel_requested in
  match serialize_reserved_record r MAX_TASK_RECORD_ENVELOPE_BYTES with
  | Err e => reject_before_mutation e
  | Ok encoded =>
      let replacement := mkEntry r (blen encoded) in
      c ← catalog;
      match validate_catalog_replace c expected replacement with
      | Err e => if requires_reopen e then latch_error e else reject_before_mutation e
      | Ok _ =>
          _ ← replace_row r encoded replacement sequence;
          _ ← confirm_authority d;
          committed ← committed_same r;
          match reservation committed with
          | Reservation reserved => mret (RCreated reserved)
          | NoReservation _ => latch_error (CommitUncertain d)
          | ReservationPanics => panic
          end
      end
  end.

(** A tombstone or an unacknowledged terminal past its retention. *)
Definition expired_state (s : State) (observed_at : Z) : bool :=
  match s with
  | SAcknowledgedTombstone r => tombstone_expires_at r <=? observed_at
  | SDirectTerminalUnacked r =>
      reached (dt_terminal_epoch_ms r) DIRECT_TERMINAL_RETENTION_MS observed_at
  | _ => false
  end.
Definition reclaim_expired_state (s : State) (d : digest) (observed_at : Z) : M unit :=
  match s with
  | SAcknowledgedTombstone _ => reclaim_expired_tombstone_under_writer_lock d observed_at
  | _ => reclaim_expired_direct_terminal_under_writer_lock d observed_at
  end.

(** The row of [key] when there is one, as it is on disk. *)
Definition existing_state (key : ReceiptKey) : M (option (Entry * State)) :=
  let d := receipt_key_digest key in
  c ← catalog;
  match cat_records c !! d with
  | None => mret None
  | Some existing =>
      if negb (bool_decide (row_key (ce_record existing) = key))
      then reject_before_mutation ReceiptDigestCollision
      else
        persisted ← read_entry_under_writer_lock d;
        persisted ← lift (ok_or persisted Corrupt);
        match state persisted with
        | Ok s => mret (Some (persisted, s))
        | Err e => latch_error e
        end
  end.

(** The new row of [reserve]. *)
Definition admit_reservation (key : ReceiptKey) (cutoff : OriginalCutoffDescriptor)
  : M (ReserveOutcome json_value) :=
  _ ← prepare_new_admission_under_writer_lock key (accepted_epoch_ms cutoff);
  sequence ← admission_sequence;
  let r := build_reserved_record key (receipt_key_digest key) cutoff sequence version_initial
             false in
  match serialize_reserved_record r MAX_TASK_RECORD_ENVELOPE_BYTES with
  | Err e => reject_before_mutation e
  | Ok encoded =>
      c ← catalog;
      let capacity :=
        actual ← u64_checked_add (cat_actual_bytes c) (blen encoded);
        reserved ← u64_checked_add (cat_reserved_result_bytes c)
                     (MAX_RECEIPT_ENTITLEMENT_BYTES - blen encoded);
        u64_checked_add actual reserved in
      if is_none capacity then reject_before_mutation CapacityExceeded
      else
        committed ← admit_row r encoded sequence;
        reserved ← reserved_of committed;
        mret (RCreated reserved)
  end.

Definition reserve (key : ReceiptKey) (cutoff : OriginalCutoffDescriptor)
  : M (ReserveOutcome json_value) :=
  _ ← check_deadline;
  _ ← available;
  _ ← check_deadline;
  _ ← latched verify_named_authority;
  existing ← existing_state key;
  match existing with
  | None => admit_reservation key cutoff
  | Some (persisted, SCancelReserved _) => convert_cancel_reserved_to_submit persisted key cutoff
  | Some (_, s) =>
      if expired_state s (accepted_epoch_ms cutoff) then
        _ ← reclaim_expired_state s (receipt_key_digest key) (accepted_epoch_ms cutoff);
        admit_reservation key cutoff
      else mret (RExistingExact s)
  end.

(** ** Replacing a row *)

(** Serialize the successor of [expected], check it and write it. *)
Definition replace_with (expected : Entry) (r : Row) (maximum : Z) : M (list Z) :=
  encoded ← lift (serialize_reserved_record r maximum);
  let replacement := mkEntry r (blen encoded) in
  c ← catalog;
  _ ← lift (validate_catalog_replace c expected replacement);
  _ ← replace_row r encoded replacement (row_mutation_sequence r);
  mret encoded.

(** The state an operation answers with. *)
Definition answer_state {A} (e : Entry) (select : State → option A) : M A :=
  s ← lift (state e);
  lift (ok_or (select s) (CommitUncertain (row_key_digest (ce_record e)))).
(** ... latching when it is not the one expected. *)
Definition answer_or_latch {A} (e : option Entry) (d : digest) (select : State → option A) : M A :=
  match e ≫= λ e, match state e with Ok s => select s | Err _ => None end with
  | Some a => mret a
  | None => latch_error (CommitUncertain d)
  end.

(** ** Cancellation before a submission *)

Definition commit_reserved_cancel_under_writer_lock (persisted : Entry) : M ReservedReceipt :=
  version ← next_version (row_record_version (ce_record persisted));
  sequence ← next_sequence;
  reserved ← reserved_of persisted;
  let r := build_reserved_cancel_record persisted reserved sequence version in
  _ ← replace_with persisted r MAX_TASK_RECORD_ENVELOPE_BYTES;
  committed ← committed_entry (row_key_digest (ce_record persisted));
  reserved_of committed.

Definition admit_cancellation (key : ReceiptKey) (cancel_reserved_at : Z)
  : M (CancelResolution json_value) :=
  _ ← prepare_new_admission_under_writer_lock key cancel_reserved_at;
  sequence ← admission_sequence;
  let d := receipt_key_digest key in
  let r := build_cancel_reserved_record key d cancel_reserved_at sequence in
  match serialize_reserved_record r MAX_CANCEL_RESERVED_RECORD_BYTES with
  | Err e => reject_before_mutation e
  | Ok encoded =>
      committed ← admit_row r encoded sequence;
      answer_or_latch (Some committed) d
        (λ s, match s with SCancelReserved receipt => Some (NewlyReserved receipt) | _ => None end)
  end.

Definition request_cancel_or_reserve (key : ReceiptKey) (cancel_reserved_at : Z)
  : M (CancelResolution json_value) :=
  _ ← check_deadline;
  _ ← available;
  _ ← check_deadline;
  _ ← latched verify_named_authority;
  existing ← existing_state key;
  match existing with
  | None => admit_cancellation key cancel_reserved_at
  | Some (_, SCancelReserved receipt) => mret (CExistingExact receipt)
  | Some (persisted, SReserved receipt) =>
      if rr_cancel_requested receipt then mret (ExistingWinner (SReserved receipt))
      else
        cancelled ← commit_reserved_cancel_under_writer_lock persisted;
        mret (ExistingWinner (SReserved cancelled))
  | Some (_, s) =>
      if expired_state s cancel_reserved_at then
        _ ← reclaim_expired_state s (receipt_key_digest key) cancel_reserved_at;
        admit_cancellation key cancel_reserved_at
      else mret (ExistingWinner s)
  end.

(** ** Phases of a reservation *)

Inductive ReservedPhaseTransition := BindActor (workspace : digest) | MarkBegun.

Definition transition_reserved_phase (key : ReceiptKey) (expected_version : Z)
    (transition : ReservedPhaseTransition) : M ReservedReceipt :=
  _ ← check_deadline;
  rows ← open_row key;
  _ ← expect_version rows.2 expected_version;
  reserved ← reserved_of rows.2;
  if rr_cancel_requested reserved then refuse ReceiptRowPresentUnsupported
  else
    phase ← match transition, rr_phase reserved with
            | BindActor workspace, Unbound => mret (ActorBound workspace)
            | MarkBegun, ActorBound workspace => mret (Begun workspace)
            | _, _ => refuse ReceiptRowPresentUnsupported
            end;
    version ← next_version expected_version;
    sequence ← next_sequence;
    r ← lift (build_reserved_phase_record rows.2 reserved phase sequence version);
    _ ← replace_with rows.1 r MAX_TASK_RECORD_ENVELOPE_BYTES;
    committed ← committed_entry (receipt_key_digest key);
    reserved_of committed.
Definition bind_reserved_actor (key : ReceiptKey) (expected_version : Z) (workspace : digest) :=
  transition_reserved_phase key expected_version (BindActor workspace).
Definition mark_reserved_begun (key : ReceiptKey) (expected_version : Z) :=
  transition_reserved_phase key expected_version MarkBegun.

(** ** Promise and hand-off of a task *)

Definition new_task (key : ReceiptKey) (created_at ttl_ms poll_interval_ms : Z)
  : result ReceiptTaskProjection ReceiptLedgerError :=
  projection_new (mkProjection (rk_reserved_task_id key) (rk_invocation_id key) created_at
                    created_at ttl_ms poll_interval_ms 1).
(** A row of [key] with the next version and sequence. *)
Definition key_row (key : ReceiptKey) (sequence version : Z)
    (l : StoredActiveLifecycleV1 json_value) : Row :=
  mkRow RECEIPT_RECORD_SCHEMA_VERSION sequence version key (receipt_key_digest key) l.

Definition promise_task_unbound (key : ReceiptKey) (expected_version created_at ttl_ms
    poll_interval_ms : Z) : M TaskPromisedUnboundReceipt :=
  _ ← check_deadline;
  task ← lift (new_task key created_at ttl_ms poll_interval_ms);
  rows ← open_row key;
  _ ← expect_version rows.2 expected_version;
  reserved ← reserved_of rows.2;
  match rr_phase reserved with
  | Unbound =>
      version ← next_version expected_version;
      sequence ← next_sequence;
      let r := key_row key sequence version
                 (LTaskPromisedUnbound (rr_original_cutoff reserved) task
                    (rr_cancel_requested reserved)) in
      _ ← replace_with rows.1 r MAX_TASK_RECORD_ENVELOPE_BYTES;
      committed ← committed_entry (receipt_key_digest key);
      answer_state committed
        (λ s, match s with STaskPromisedUnbound receipt => Some receipt | _ => None end)
  | _ => refuse ReceiptRowPresentUnsupported
  end.

Definition bind_promised_task_actor (key : ReceiptKey) (expected_version : Z) (workspace : digest)
  : M TaskPromisedActorBoundReceipt :=
  let d := receipt_key_digest key in
  _ ← check_deadline;
  rows ← open_row key;
  _ ← expect_version rows.2 expected_version;
  match row_lifecycle (ce_record rows.2) with
  | LTaskPromisedUnbound cutoff _ _ =>
      s ← lift (state rows.2);
      match s with
      | STaskPromisedUnbound promised =>
          let task := pu_task promised in
          let link := link_new d (tp_task_id task) (tp_invocation_id task) workspace in
          version ← next_version expected_version;
          sequence ← next_sequence;
          let r := key_row key sequence version
                     (LTaskPromisedActorBound cutoff task workspace (link_digest link)
                        (pu_cancel_requested promised)) in
          _ ← replace_with rows.1 r MAX_TASK_RECORD_ENVELOPE_BYTES;
          committed ← committed_entry d;
          answer_state committed
            (λ s, match s with STaskPromisedActorBound receipt => Some receipt | _ => None end)
      | _ => refuse ReceiptRowPresentUnsupported
      end
  | _ => refuse ReceiptRowPresentUnsupported
  end.

Definition begin_bound_task_handoff (key : ReceiptKey) (expected_version created_at ttl_ms
    poll_interval_ms : Z) : M (TaskHandoffActorBoundReceipt json_value) :=
  let d := receipt_key_digest key in
  _ ← check_deadline;
  task ← lift (new_task key created_at ttl_ms poll_interval_ms);
  rows ← open_row key;
  _ ← expect_version rows.2 expected_version;
  from ← match row_lifecycle (ce_record rows.2) with
         | LReservedActorBound _ cutoff workspace cancel => mret (cutoff, workspace, NotBegun, cancel)
         | LReservedBegun _ cutoff workspace cancel => mret (cutoff, workspace, AttemptBegun, cancel)
         | LTaskPromisedActorBound cutoff _ workspace _ cancel =>
             mret (cutoff, workspace, NotBegun, cancel)
         | _ => refuse ReceiptRowPresentUnsupported
         end;
  match from with
  | (cutoff, workspace, phase, cancel) =>
      let link := link_new d (tp_task_id task) (tp_invocation_id task) workspace in
      version ← next_version expected_version;
      sequence ← next_sequence;
      let r := key_row key sequence version
                 (LTaskHandoffActorBound cutoff task workspace (link_digest link) phase cancel
                    StageNone) in
      _ ← replace_with rows.1 r MAX_TASK_RECORD_ENVELOPE_BYTES;
      committed ← committed_entry d;
      answer_state committed
        (λ s, match s with STaskHandoffActorBound receipt => Some receipt | _ => None end)
  end.
End Ops.
