(* ===== verification/ReceiptTerminals.v ===== *)
(** * Receipt store: hand-off completion, terminals and lookups

    The operations of [ReceiptLedgerStore]
    ([crates/unica-execution/src/receipt_store.rs]) that end a receipt: the
    completion of a hand-off, staged, receipt-backed and direct terminals and
    their acknowledgement; and the lookups by key and by task. *)

From Stdlib Require Import ZArith Lia String.
From stdpp Require Import base gmap list option numbers countable strings.
From S2P Require Import Prelude Contract ResultSize Redaction ReceiptLedger ReceiptStates.
From S2P Require Import ReceiptRows ReceiptCatalog ReceiptRecords ReceiptStore ReceiptOps.

Local Open Scope Z_scope.

Section Terminals.
Context {C : ReceiptCodec} {R : RowCodec C}.

Notation Row := (StoredActiveReceiptV1 json_value).
Notation Entry := (CatalogEntry json_value).
Notation Terminal := (V5CanonicalTerminal json_value).
Notation State := (ReceiptState json_value).

(** ** Completing a hand-off *)

(** A witness of completion takes the row's place and is removed. *)
Definition retire_handoff (persisted : Entry)
    (build : Z → result Row ReceiptLedgerError) : M unit :=
  sequence ← next_sequence;
  match build sequence with
  | Err e => latch_error e
  | Ok witness =>
      match serialize_reserved_record witness MAX_COMPLETED_TASK_HANDOFF_WITNESS_BYTES with
      | Err e => reject_before_mutation e
      | Ok encoded =>
          c ← catalog;
          match validate_catalog_remove c persisted with
          | Err e => latch_error e
          | Ok _ => delete_row witness encoded persisted sequence
          end
      end
  end.

(** The confirmed task is the promised one, or its next version when a
    cancellation was requested. *)
Definition confirmed_task_matches (confirmed expected : ReceiptTaskProjection)
    (phase : AttemptPhase) (cancel_requested : bool) : bool :=
  bool_decide (tp_task_id confirmed = tp_task_id expected)
  && bool_decide (tp_invocation_id confirmed = tp_invocation_id expected)
  && (tp_created_at confirmed =? tp_created_at expected)
  && (tp_ttl_ms confirmed =? tp_ttl_ms expected)
  && (tp_poll_interval_ms confirmed =? tp_poll_interval_ms expected)
  && (if cancel_requested then
        (bool_decide (phase = AttemptBegun) && bool_decide (confirmed = expected))
        || (is_some_and (λ v, tp_version confirmed =? v) (u64_checked_add (tp_version expected) 1)
            && (tp_updated_at expected <=? tp_updated_at confirmed))
      else bool_decide (confirmed = expected)).

Definition complete_bound_task_handoff (key : ReceiptKey) (expected_version : Z)
    (bound : TaskBoundReceipt) : M TaskBoundReceipt :=
  let d := receipt_key_digest key in
  _ ← check_deadline;
  _ ← available;
  _ ← check_deadline;
  _ ← latched verify_named_authority;
  c ← catalog;
  match cat_records c !! d with
  | None =>
      reject_before_mutation
        (if is_some (cat_invocation_index c !! rk_invocation_id key)
         then InvocationIdentityMismatch
         else if is_some (cat_reserved_task_index c !! rk_reserved_task_id key)
         then ReservedTaskIdentityMismatch else ReceiptNotFound)
  | Some expected =>
      if negb (bool_decide (row_key (ce_record expected) = key))
      then reject_before_mutation ReceiptDigestCollision
      else
        persisted ← read_entry_under_writer_lock d;
        persisted ← lift (ok_or persisted Corrupt);
        if negb (entry_eq persisted expected) then latch_error Corrupt
        else
          _ ← expect_version persisted expected_version;
          from ← match state persisted with
                 | Ok (STaskPromisedActorBound r) =>
                     mret (pa_link r, pa_task r, NotBegun, pa_cancel_requested r)
                 | Ok (STaskHandoffActorBound r) =>
                     match ho_terminal_stage r with
                     | Staged _ _ _ => refuse ReceiptRowPresentUnsupported
                     | NoTerminal => mret (ho_link r, ho_task r, ho_phase r, ho_cancel_requested r)
                     end
                 | Ok _ => refuse ReceiptRowPresentUnsupported
                 | Err e => latch_error e
                 end;
          match from with
          | (link, task, phase, cancel) =>
              if negb (bool_decide (lh_key (tb_record bound) = key))
                 || negb (bool_decide (lh_key_digest (tb_record bound) = d))
                 || negb (bool_decide (lh_link (tb_record bound) = link))
                 || negb (confirmed_task_matches (tb_task bound) task phase cancel)
                 || negb (bool_decide (tb_phase bound = phase))
              then reject_before_mutation TaskBoundMismatch
              else
                _ ← retire_handoff persisted
                      (build_completed_task_handoff_deletion_record persisted bound);
                mret bound
          end
  end.

Definition complete_staged_task_handoff (key : ReceiptKey) (expected_version : Z)
    (bound : TaskTerminalBoundReceipt) : M TaskTerminalBoundReceipt :=
  let d := receipt_key_digest key in
  _ ← check_deadline;
  rows ← open_row key;
  _ ← expect_version rows.2 expected_version;
  handoff ← match state rows.2 with
            | Ok (STaskHandoffActorBound r) => mret r
            | Ok _ => refuse ReceiptRowPresentUnsupported
            | Err e => latch_error e
            end;
  match ho_terminal_stage handoff with
  | NoTerminal => refuse ReceiptRowPresentUnsupported
  | Staged epoch terminal _ =>
      let task := ttb_task bound in
      let expected := ho_task handoff in
      if negb (bool_decide (lh_key (ttb_record bound) = key))
         || negb (bool_decide (lh_key_digest (ttb_record bound) = d))
         || negb (bool_decide (lh_link (ttb_record bound) = ho_link handoff))
         || negb (bool_decide (tp_task_id task = tp_task_id expected))
         || negb (bool_decide (tp_invocation_id task = tp_invocation_id expected))
         || negb (tp_created_at task =? tp_created_at expected)
         || negb (tp_ttl_ms task =? tp_ttl_ms expected)
         || negb (tp_poll_interval_ms task =? tp_poll_interval_ms expected)
         || negb (ttb_terminal_epoch_ms bound =? epoch)
         || negb (bool_decide (ttb_terminal_digest bound = ct_digest terminal))
      then reject_before_mutation TaskBoundMismatch
      else
        _ ← retire_handoff rows.2
              (build_completed_staged_task_handoff_deletion_record rows.2 bound);
        mret bound
  end.

(** ** Staged terminals, capacity and cancellation *)

(** [*terminal_stage = Staged {..}] on the lifecycle of a hand-off. *)
Definition set_stage (l : StoredActiveLifecycleV1 json_value)
    (stage : StoredHandoffTerminalStageV1 json_value)
  : option (StoredActiveLifecycleV1 json_value) :=
  match l with
  | LTaskHandoffActorBound cutoff task workspace link phase cancel _ =>
      Some (LTaskHandoffActorBound cutoff task workspace link phase cancel stage)
  | _ => None
  end.

Definition stage_bound_task_handoff_terminal (key : ReceiptKey) (expected_version epoch : Z)
    (terminal : Terminal) (certificate : StagedTerminalTransferCertificate)
  : M (TaskHandoffActorBoundReceipt json_value) :=
  let d := receipt_key_digest key in
  _ ← check_deadline;
  rows ← open_row key;
  handoff ← match state rows.2 with
            | Ok (STaskHandoffActorBound r) => mret r
            | Ok _ => refuse ReceiptRowPresentUnsupported
            | Err e => latch_error e
            end;
  match ho_terminal_stage handoff with
  | Staged actual_epoch actual_terminal actual_certificate =>
      if (actual_epoch =? epoch) && bool_decide (actual_terminal = terminal)
         && bool_decide (actual_certificate = certificate)
      then mret handoff
      else refuse TerminalMismatch
  | NoTerminal =>
      if negb (rh_record_version (ho_record handoff) =? expected_version)
      then refuse (ReceiptVersionMismatch expected_version (rh_record_version (ho_record handoff)))
      else if negb (matches_staged_terminal certificate key d (ho_link handoff) epoch terminal)
      then refuse TerminalMismatch
      else
        version ← next_version expected_version;
        sequence ← next_sequence;
        l ← lift (ok_or (set_stage (row_lifecycle (ce_record rows.2))
                           (StageStaged epoch (ct_digest terminal) (Some (ct_outcome terminal))))
                    ReceiptRowPresentUnsupported);
        _ ← replace_with rows.1 (key_row key sequence version l) MAX_RECEIPT_ENTITLEMENT_BYTES;
        c ← catalog;
        answer_or_latch ((λ e, with_result_body e terminal) <$> cat_records c !! d) d
          (λ s, match s with
                | STaskHandoffActorBound r =>
                    match ho_terminal_stage r with Staged _ _ _ => Some r | NoTerminal => None end
                | _ => None
                end)
  end.

Definition retain_begun_task_after_link_capacity (key : ReceiptKey) (expected_version : Z)
    (capacity : ProvenTaskLinkCapacity) : M TaskReceiptOwnedActorBoundReceipt :=
  let d := receipt_key_digest key in
  _ ← check_deadline;
  _ ← available;
  _ ← latched verify_named_authority;
  expected ← read_entry_under_writer_lock d;
  expected ← lift (ok_or expected ReceiptNotFound);
  if negb (bool_decide (row_key (ce_record expected) = key)) then latch_error ReceiptDigestCollision
  else
    _ ← expect_version expected expected_version;
    match row_lifecycle (ce_record expected) with
    | LTaskHandoffActorBound cutoff task workspace link AttemptBegun cancel _ =>
        version ← next_version expected_version;
        sequence ← next_sequence;
        let r := key_row key sequence version
                   (LTaskReceiptOwnedActorBound cutoff task workspace link capacity cancel) in
        _ ← replace_with expected r MAX_TASK_RECORD_ENVELOPE_BYTES;
        c ← catalog;
        answer_or_latch (cat_records c !! d) d
          (λ s, match s with STaskReceiptOwnedActorBound r => Some r | _ => None end)
    | _ => refuse ReceiptRowPresentUnsupported
    end.

Definition task_cancellation_state (s : State) : option (TaskCancellationReceipt json_value) :=
  match s with
  | STaskPromisedUnbound r => Some (TCPromisedUnbound r)
  | STaskPromisedActorBound r => Some (TCPromisedActorBound r)
  | STaskHandoffActorBound r => Some (TCHandoffActorBound r)
  | _ => None
  end.
Definition set_cancel_requested (l : StoredActiveLifecycleV1 json_value)
  : option (StoredActiveLifecycleV1 json_value) :=
  match l with
  | LTaskPromisedUnbound cutoff task _ => Some (LTaskPromisedUnbound cutoff task true)
  | LTaskPromisedActorBound cutoff task workspace link _ =>
      Some (LTaskPromisedActorBound cutoff task workspace link true)
  | LTaskHandoffActorBound cutoff task workspace link phase _ stage =>
      Some (LTaskHandoffActorBound cutoff task workspace link phase true stage)
  | LTaskReceiptOwnedActorBound cutoff task workspace link capacity _ =>
      Some (LTaskReceiptOwnedActorBound cutoff task workspace link capacity true)
  | _ => None
  end.
(** [CatalogEntry::with_body_from_bytes]. *)
Definition with_body_from_bytes (e : Entry) (committed : list Z)
  : result Entry ReceiptLedgerError :=
  if negb (result_body_is_on_disk (ce_record e)) then Ok e
  else
    let? r := ok_or (row_from_slice committed) Corrupt in
    let entry := mkEntry r (blen committed) in
    if entry_eq entry e then Ok entry else Err Corrupt.

Definition request_task_cancel (key : ReceiptKey) (expected : TaskCancellationReceipt json_value)
  : M (TaskCancellationReceipt json_value) :=
  let d := receipt_key_digest key in
  _ ← check_deadline;
  if negb (bool_decide (rh_key (tc_record expected) = key)) then refuse TaskCancellationMismatch
  else
    rows ← open_row key;
    actual ← match state rows.2 with
             | Ok s => lift (ok_or (task_cancellation_state s) ReceiptRowPresentUnsupported)
             | Err e => latch_error e
             end;
    if (bool_decide (actual = expected) && tc_cancel_requested actual)
       || is_exact_cancel_successor_of actual expected
    then mret actual
    else if negb (bool_decide (actual = expected)) then refuse TaskCancellationMismatch
    else
      version ← next_version (rh_record_version (tc_record actual));
      sequence ← next_sequence;
      l ← lift (ok_or (set_cancel_requested (row_lifecycle (ce_record rows.2)))
                  ReceiptRowPresentUnsupported);
      encoded ← replace_with rows.1 (key_row key sequence version l)
                  MAX_TASK_RECORD_ENVELOPE_BYTES;
      committed ← committed_entry d;
      committed ← lift (with_body_from_bytes committed encoded);
      s ← match state committed with Ok s => mret s | Err e => latch_error e end;
      match task_cancellation_state s with
      | Some after =>
          if is_exact_cancel_successor_of after expected then mret after
          else latch_error (CommitUncertain d)
      | None => latch_error (CommitUncertain d)
      end.

(** ** Receipt-backed and direct terminals *)

(** A hand-off takes its terminal only before it began, or the staged one. *)
Definition terminal_allowed (expected : TaskCancellationReceipt json_value) (epoch : Z)
    (terminal : Terminal) : result unit ReceiptLedgerError :=
  match expected with
  | TCHandoffActorBound r =>
      match ho_terminal_stage r with
      | NoTerminal =>
          if bool_decide (ho_phase r = AttemptBegun) then Err ReceiptRowPresentUnsupported
          else Ok tt
      | Staged staged_epoch staged_terminal _ =>
          if negb (staged_epoch =? epoch) || negb (bool_decide (staged_terminal = terminal))
          then Err TerminalMismatch else Ok tt
      end
  | _ => Ok tt
  end.

(** The row of the ended task, checked and written. *)
Definition write_task_terminal (key : ReceiptKey)
    (expected_state : TaskCancellationReceipt json_value) (expected : Entry)
    (terminal_task : ReceiptTaskProjection) (epoch : Z) (terminal : Terminal)
  : M (TaskTerminalReceiptBackedReceipt json_value) :=
  let d := receipt_key_digest key in
  version ← next_version (row_record_version (ce_record expected));
  sequence ← next_sequence;
  let r := key_row key sequence version
             (LTaskTerminalReceiptBacked terminal_task epoch (ct_digest terminal)
                (Some (ct_outcome terminal)) (tc_cancel_requested expected_state)) in
  encoded ← lift (serialize_reserved_record r MAX_RECEIPT_ENTITLEMENT_BYTES);
  let replacement := mkEntry r (blen encoded) in
  c ← catalog;
  match validate_catalog_replace c expected replacement with
  | Err e => if requires_reopen e then latch_error e else refuse e
  | Ok _ =>
      _ ← replace_row r encoded replacement sequence;
      committed ← committed_entry d;
      answer_or_latch (Some (with_result_body committed terminal)) d
        (λ s, match s with STaskTerminalReceiptBacked r => Some r | _ => None end)
  end.

Definition publish_receipt_backed_task_terminal (key : ReceiptKey)
    (expected_state : TaskCancellationReceipt json_value) (epoch : Z) (terminal : Terminal)
  : M (TaskTerminalReceiptBackedReceipt json_value) :=
  let d := receipt_key_digest key in
  _ ← check_deadline;
  if negb (bool_decide (rh_key (tc_record expected_state) = key)) then refuse TaskBoundMismatch
  else
    _ ← lift (terminal_allowed expected_state epoch terminal);
    let task := tc_task expected_state in
    task_version ← lift (ok_or (u64_checked_add (tp_version task) 1) Corrupt);
    terminal_task ← lift (projection_new
      (mkProjection (tp_task_id task) (tp_invocation_id task) (tp_created_at task) epoch
         (tp_ttl_ms task) (tp_poll_interval_ms task) task_version));
    _ ← available;
    _ ← latched verify_named_authority;
    expected ← read_entry_under_writer_lock d;
    expected ← lift (ok_or expected ReceiptNotFound);
    if negb (bool_decide (row_key (ce_record expected) = key))
    then latch_error ReceiptDigestCollision
    else
      let version_mismatch :=
        ReceiptVersionMismatch (rh_record_version (tc_record expected_state))
          (row_record_version (ce_record expected)) in
      match state expected with
      | Err e => latch_error e
      | Ok (STaskTerminalReceiptBacked r) =>
          if bool_decide (rb_task r = terminal_task) && (rb_terminal_epoch_ms r =? epoch)
             && bool_decide (rb_terminal r = terminal)
             && bool_decide (rb_cancel_requested r = tc_cancel_requested expected_state)
          then mret r
          else refuse version_mismatch
      | Ok actual =>
          if negb (bool_decide (actual = tc_into_state expected_state)) then refuse version_mismatch
          else if negb (row_record_version (ce_record expected)
                        =? rh_record_version (tc_record expected_state))
          then refuse version_mismatch
          else write_task_terminal key expected_state expected terminal_task epoch terminal
      end.

(** The row of [key], or the error that says why there is none. *)
Definition classify (key : ReceiptKey) (c : ReceiptCatalog json_value)
  : result Entry ReceiptLedgerError :=
  match cat_records c !! receipt_key_digest key with
  | Some existing =>
      if bool_decide (row_key (ce_record existing) = key) then Ok existing
      else Err ReceiptDigestCollision
  | None =>
      if is_some (cat_invocation_index c !! rk_invocation_id key)
      then Err InvocationIdentityMismatch
      else if is_some (cat_reserved_task_index c !! rk_reserved_task_id key)
      then Err ReservedTaskIdentityMismatch
      else Err ReceiptNotFound
  end.
Definition classified_row (key : ReceiptKey) : M (Entry * Entry) :=
  found ← inspect_under_fence (λ c _, classify key c);
  expected ← match found with
             | Ok e => mret e
             | Err e => if requires_reopen e then latch_error e else refuse e
             end;
  persisted ← read_entry_under_writer_lock (receipt_key_digest key);
  match persisted with
  | Some e => if entry_eq e expected then mret (expected, e) else latch_error Corrupt
  | None => latch_error Corrupt
  end.

(** [publish_direct_terminal_publication]; it answers with the receipt and
    its wire frame. *)
Definition publish_direct_terminal_publication (key : ReceiptKey) (expected_version epoch : Z)
    (terminal : Terminal) : M (DirectTerminalUnackedReceipt json_value * list Z) :=
  let d := receipt_key_digest key in
  _ ← check_deadline;
  rows ← classified_row key;
  let write (cutoff : OriginalCutoffDescriptor) :=
    _ ← expect_version rows.2 expected_version;
    version ← match checked_next expected_version with
              | Some v => mret v
              | None => latch_error Corrupt
              end;
    generation ← latched generation_under_writer_lock;
    sequence ← match u64_checked_add generation 1 with
               | Some sequence => mret sequence
               | None => latch_error Corrupt
               end;
    _ ← latched (lift (direct_write_slot expected_version version generation sequence));
    prepared ← match prepare_direct_terminal key version sequence cutoff terminal epoch with
               | Ok prepared => mret prepared
               | Err e => if requires_reopen e then latch_error e else refuse e
               end;
    let encoded := prepared.1 in
    let r := key_row key sequence version
               (LDirectTerminalUnacked cutoff epoch (ct_digest terminal)
                  (Some (ct_outcome terminal))) in
    let replacement := mkEntry r (blen encoded) in
    c ← catalog;
    match validate_catalog_replace c rows.1 replacement with
    | Err e => if requires_reopen e then latch_error e else refuse e
    | Ok _ =>
        _ ← replace_row r encoded replacement sequence;
        _ ← confirm_authority d;
        mret (mkDirect (mkHeader key d version sequence (blen encoded)) cutoff epoch terminal
                (MAX_RECEIPT_ENTITLEMENT_BYTES - blen encoded), prepared.2)
    end in
  match state rows.2 with
  | Err e => latch_error e
  | Ok (SDirectTerminalUnacked committed) =>
      if (dt_terminal_epoch_ms committed =? epoch) && bool_decide (dt_terminal committed = terminal)
      then
        match prepare_committed_direct_wire committed with
        | Ok wire => mret (committed, wire)
        | Err e => if requires_reopen e then latch_error e else refuse e
        end
      else refuse TerminalMismatch
  | Ok (SReserved reserved) => write (rr_original_cutoff reserved)
  | Ok _ => refuse ReceiptRowPresentUnsupported
  end.

(** ** Acknowledgement *)

(** A commit witness takes the row's place, the generation follows, and the
    tombstone replaces the witness. *)
Definition acknowledge_row (witness : Row) (witness_encoded : list Z) (r : Row) (encoded : list Z)
    (replacement : Entry) (sequence : Z) : M unit :=
  let d := row_key_digest r in
  _ ← latch_unless_deadline (publish_replacement_record witness witness_encoded (mret tt));
  _ ← latched (publish_generation sequence (Some d));
  _ ← latched (map_error (after_row_error (Some d))
                 (publish_replacement_record r encoded (commit_replace replacement)));
  confirm_bytes d encoded.
(** The tombstone of a direct terminal. *)
Definition write_acknowledgement (key : ReceiptKey) (persisted : Entry) (terminal_digest : digest)
    (acknowledged_at : Z) : M AcknowledgedTombstoneReceipt :=
  let d := receipt_key_digest key in
  version ← next_version (row_record_version (ce_record persisted));
  let r := key_row key 0 version (LAcknowledgedTombstone terminal_digest acknowledged_at) in
  encoded ← lift (serialize_reserved_record r MAX_ACKNOWLEDGED_TOMBSTONE_BYTES);
  let replacement := mkEntry r (blen encoded) in
  c ← catalog;
  match validate_catalog_replace c persisted replacement with
  | Err e => reject_before_mutation e
  | Ok _ =>
      sequence ← next_sequence;
      witness ← lift (build_acknowledgement_commit_record persisted terminal_digest
                        acknowledged_at sequence);
      witness_encoded ← lift (serialize_reserved_record witness MAX_CANCEL_RESERVED_RECORD_BYTES);
      _ ← acknowledge_row witness witness_encoded r encoded replacement sequence;
      _ ← confirm_authority d;
      lift (tombstone_new key d terminal_digest acknowledged_at (blen encoded))
  end.

Definition acknowledge_direct (key : ReceiptKey) (terminal_digest : digest) (acknowledged_at : Z)
  : M AcknowledgedTombstoneReceipt :=
  let d := receipt_key_digest key in
  _ ← check_deadline;
  _ ← lift (ok_or (u64_checked_add acknowledged_at ACKNOWLEDGED_TOMBSTONE_TTL_MS)
              TimestampOverflow);
  rows ← classified_row key;
  match state rows.2 with
  | Ok (SAcknowledgedTombstone tombstone) =>
      if negb (bool_decide (at_terminal_digest tombstone = terminal_digest))
      then reject_before_mutation TerminalMismatch
      else if tombstone_expires_at tombstone <=? acknowledged_at then
        _ ← reclaim_expired_tombstone_under_writer_lock d acknowledged_at;
        refuse ReceiptNotFound
      else mret tombstone
  | Ok (SDirectTerminalUnacked receipt) =>
      if reached (dt_terminal_epoch_ms receipt) DIRECT_TERMINAL_RETENTION_MS acknowledged_at then
        _ ← reclaim_expired_direct_terminal_under_writer_lock d acknowledged_at;
        refuse ReceiptNotFound
      else if negb (bool_decide (ct_digest (dt_terminal receipt) = terminal_digest))
      then reject_before_mutation TerminalMismatch
      else write_acknowledgement key rows.2 terminal_digest acknowledged_at
  | Ok _ => reject_before_mutation ReceiptRowPresentUnsupported
  | Err e => latch_error e
  end.

(** ** Lookups *)

Definition read_reserved (d : digest) : M (option ReservedReceipt) :=
  entry ← read_entry_under_writer_lock d;
  match entry with
  | None => mret None
  | Some e => r ← reserved_of e; mret (Some r)
  end.

(** [recover_exact_inner]. *)
Definition recover_exact (key : ReceiptKey) (observed_at : option Z) : M State :=
  let d := receipt_key_digest key in
  _ ← check_deadline;
  mismatch ← inspect_under_fence (λ c _,
    if is_some_and (λ x, negb (bool_decide (x = d)))
         (cat_invocation_index c !! rk_invocation_id key)
    then Some InvocationIdentityMismatch
    else if is_some_and (λ x, negb (bool_decide (x = d)))
              (cat_reserved_task_index c !! rk_reserved_task_id key)
    then Some ReservedTaskIdentityMismatch
    else None);
  match mismatch with
  | Some e => refuse e
  | None =>
      recovered ← read_entry_under_writer_lock d;
      match recovered with
      | None => _ ← check_deadline; refuse ReceiptNotFound
      | Some e =>
          if negb (bool_decide (row_key (ce_record e) = key))
          then latch_error ReceiptDigestCollision
          else
            match state e with
            | Err error => latch_error error
            | Ok s =>
                match observed_at with
                | Some observed =>
                    if expired_state s observed then
                      _ ← reclaim_expired_state s d observed;
                      refuse ReceiptNotFound
                    else _ ← check_deadline; mret s
                | None => _ ← check_deadline; mret s
                end
            end
      end
  end.

Definition is_task_state (s : State) : bool :=
  match s with
  | STaskPromisedUnbound _ | STaskPromisedActorBound _ | STaskHandoffActorBound _
  | STaskReceiptOwnedActorBound _ | STaskTerminalReceiptBacked _ | STaskBound _
  | STaskTerminalBound _ | STaskRetirementPending _ => true
  | _ => false
  end.
Definition resolve_task_exact (task : TaskId) : M State :=
  _ ← check_deadline;
  found ← inspect_under_fence (λ c _, cat_reserved_task_index c !! task);
  d ← lift (ok_or found ReceiptNotFound);
  entry ← read_entry_under_writer_lock d;
  e ← lift (ok_or entry ReceiptNotFound);
  if negb (bool_decide (rk_reserved_task_id (row_key (ce_record e)) = task))
  then latch_error Corrupt
  else
    match state e with
    | Err error => latch_error error
    | Ok s =>
        if negb (is_task_state s) then refuse ReceiptNotFound
        else _ ← check_deadline; mret s
    end.
End Terminals.
