(* ===== verification/ReceiptRecovery.v ===== *)
(** * Receipt store: recovery

    [recover_existing_catalog] and the opening of a ledger
    ([crates/unica-execution/src/receipt_store.rs]) on a directory of single
    rows: every row is decoded, the catalog is rebuilt, a pending
    acknowledgement is finished, the generation is brought up to the largest
    mutation sequence and deletion witnesses are removed.

    The [generation] file and the [active] directory exist; abandoned staging
    files are not part of the model. *)

From Stdlib Require Import ZArith Lia String.
From stdpp Require Import base gmap list option numbers countable strings.
From S2P Require Import Prelude Contract ResultSize Redaction ReceiptLedger ReceiptStates.
From S2P Require Import ReceiptRows ReceiptCatalog ReceiptRecords ReceiptStore ReceiptOps.

Local Open Scope Z_scope.

Section Recovery.
Context {C : ReceiptCodec} {R : RowCodec C}.

Notation Row := (StoredActiveReceiptV1 json_value).
Notation Entry := (CatalogEntry json_value).
Notation Catalog := (ReceiptCatalog json_value).

(** [RecoveredCatalog], with the sets that detect duplicates. *)
Record Recovered := mkRecovered {
  rc_catalog : Catalog;
  rc_maximum_sequence : Z;
  rc_sequences : list Z;
  rc_invocations : list InvocationId;
  rc_tasks : list TaskId;
  rc_expired_deletions : list digest;
  rc_expired_deletion_sequence : option Z;
  (** [AcknowledgementRecovery]: the tombstone, its bytes, the sequence. *)
  rc_acknowledgement : option (Row * list Z * Z);
}.
Definition recovered_default : Recovered := mkRecovered catalog_default 0 [] [] [] [] None None.

(** Identities and, for a live row, the mutation sequence must be new. *)
Definition record_identity (s : Recovered) (e : Entry) : result Recovered ReceiptLedgerError :=
  if bool_decide (entry_invocation e ∈ rc_invocations s) then Err Corrupt
  else if bool_decide (entry_task e ∈ rc_tasks s) then Err Corrupt
  else if negb (is_tombstone e) && bool_decide (entry_sequence e ∈ rc_sequences s)
  then Err Corrupt
  else Ok (mkRecovered (rc_catalog s)
             (if is_tombstone e then rc_maximum_sequence s
              else Z.max (rc_maximum_sequence s) (entry_sequence e))
             (if is_tombstone e then rc_sequences s else entry_sequence e :: rc_sequences s)
             (entry_invocation e :: rc_invocations s) (entry_task e :: rc_tasks s)
             (rc_expired_deletions s) (rc_expired_deletion_sequence s) (rc_acknowledgement s)).

Definition with_catalog (s : Recovered) (c : Catalog) : Recovered :=
  mkRecovered c (rc_maximum_sequence s) (rc_sequences s) (rc_invocations s) (rc_tasks s)
    (rc_expired_deletions s) (rc_expired_deletion_sequence s) (rc_acknowledgement s).
Definition with_deletion (s : Recovered) (d : digest) (sequence : Z) : Recovered :=
  mkRecovered (rc_catalog s) (rc_maximum_sequence s) (rc_sequences s) (rc_invocations s)
    (rc_tasks s) (rc_expired_deletions s ++ [d]) (Some sequence) (rc_acknowledgement s).
Definition with_acknowledgement (s : Recovered) (c : Catalog) (r : Row) (bs : list Z)
    (sequence : Z) : Recovered :=
  mkRecovered c (rc_maximum_sequence s) (rc_sequences s) (rc_invocations s) (rc_tasks s)
    (rc_expired_deletions s) (rc_expired_deletion_sequence s) (Some (r, bs, sequence)).

(** One file of the directory. *)
Definition recover_row (s : Recovered) (d : digest) (bytes : list Z)
  : result Recovered ReceiptLedgerError :=
  let? e := decode_active_record bytes d in
  if is_some (cat_records (rc_catalog s) !! d) then Err Corrupt
  else
    let? s := record_identity s e in
    if is_expired_deletion e then
      if is_some (rc_expired_deletion_sequence s) then Err Corrupt
      else Ok (with_deletion s d (entry_sequence e))
    else if is_acknowledgement_commit e then
      if is_some (rc_acknowledgement s) then Err Corrupt
      else
        let? compact := build_acknowledged_tombstone_record_from_witness e in
        let? encoded := serialize_reserved_record compact MAX_ACKNOWLEDGED_TOMBSTONE_BYTES in
        let? c := insert_catalog_entry (rc_catalog s) (mkEntry compact (blen encoded)) true in
        Ok (with_acknowledgement s c compact encoded (entry_sequence e))
    else
      let? c := insert_catalog_entry (rc_catalog s) e true in
      Ok (with_catalog s c).

Fixpoint recover_rows (s : Recovered) (files : list (digest * list Z))
  : result Recovered ReceiptLedgerError :=
  match files with
  | [] => Ok s
  | (d, bytes) :: files => let? s := recover_row s d bytes in recover_rows s files
  end.
(** The files in the order of their names. *)
Definition sorted_files (active : gmap digest (list Z)) : list (digest * list Z) :=
  sort_digests (map_to_list active).*1 ≫= λ d,
    match active !! d with Some bytes => [(d, bytes)] | None => [] end.
Definition recover_existing_catalog (active : gmap digest (list Z))
  : result Recovered ReceiptLedgerError :=
  recover_rows recovered_default (sorted_files active).

(** A pending witness is the last mutation, published or about to be. *)
Definition pending_sequence (s : Recovered) : option Z :=
  match rc_expired_deletion_sequence s with
  | Some sequence => Some sequence
  | None => (λ a, a.2) <$> rc_acknowledgement s
  end.
Definition check_pending (s : Recovered) (persisted : Z) : result unit ReceiptLedgerError :=
  if is_some (rc_expired_deletion_sequence s) && is_some (rc_acknowledgement s) then Err Corrupt
  else
    match pending_sequence s with
    | None => Ok tt
    | Some sequence =>
        if negb ((sequence =? persisted)
                 || bool_decide (u64_checked_add persisted 1 = Some sequence))
           || negb (sequence =? rc_maximum_sequence s)
        then Err Corrupt else Ok tt
    end.

(** [remove_active_staging] on the deletion witnesses. *)
Fixpoint remove_witnesses (ds : list digest) : M unit :=
  match ds with
  | [] => _ ← verify_named_authority; check_deadline
  | d :: ds =>
      _ ← check_deadline;
      _ ← verify_named_authority;
      _ ← io;
      active ← gets w_active;
      _ ← modify (set_active (delete d active));
      _ ← check_deadline;
      remove_witnesses ds
  end.

(** The end of the opening: the generation, what is pending, the catalog. *)
Definition reopen_rest (s : Recovered) (persisted : Z) : M unit :=
  _ ← (if persisted <? rc_maximum_sequence s
       then publish_generation (rc_maximum_sequence s) None else mret tt);
  _ ← (match rc_acknowledgement s with
       | None => mret tt
       | Some (compact, encoded, _) =>
           _ ← publish_replacement_record compact encoded (mret tt);
           r ← attempt (read_active_record_bytes (row_key_digest compact));
           match r with
           | Ok (Some committed) =>
               if bool_decide (committed = encoded) then mret tt
               else refuse (CommitUncertain (row_key_digest compact))
           | _ => refuse (CommitUncertain (row_key_digest compact))
           end
       end);
  _ ← remove_witnesses (rc_expired_deletions s);
  _ ← check_deadline;
  modify (set_catalog (rc_catalog s)).

(** Opening a ledger: the catalog and the high-water mark in memory are new. *)
Definition reopen : M unit :=
  _ ← check_deadline;
  _ ← verify_named_authority;
  active ← gets w_active;
  _ ← io;
  s ← lift (recover_existing_catalog active);
  _ ← check_deadline;
  _ ← io;
  bytes ← gets w_generation;
  persisted ← lift (parse_generation bytes);
  _ ← lift (check_pending s persisted);
  _ ← modify (set_highwater persisted);
  _ ← modify (set_catalog catalog_default);
  _ ← verify_named_authority;
  _ ← check_deadline;
  confirmed ← latched generation_under_writer_lock;
  if negb (confirmed =? persisted) then refuse Corrupt
  else reopen_rest s persisted.

(** A directory just created: no row, generation zero. *)
Definition new_ledger : World := mkWorld catalog_default ∅ (generation_bytes 0) 0 [].
End Recovery.
