(* ===== verification/ReceiptDisk.v ===== *)
(** * Receipt store: what a disk holds

    The contents a directory of rows and a generation stand for
    ([stored]), whether or not the last mutation was finished: a deletion
    witness stands for no row, an acknowledgement witness for its tombstone.
    Writing the next mutation, publishing the generation and finishing a
    witness keep the relation; [recover_existing_catalog] rebuilds exactly
    the contents. *)

From Stdlib Require Import ZArith Lia String.
From stdpp Require Import base gmap list option numbers countable strings.
From S2P Require Import Prelude Contract ResultSize Redaction ReceiptLedger ReceiptStates.
From S2P Require Import ReceiptRows ReceiptCatalog ReceiptCatalogFacts ReceiptCatalogProps.
From S2P Require Import ReceiptRecords ReceiptStore ReceiptOps ReceiptRecovery.

Local Open Scope Z_scope.

(** ** Sums of a part *)

Lemma msum_subseteq {K A} `{Countable K} (f : A → Z) (m1 m2 : gmap K A) :
  m1 ⊆ m2 → (∀ k a, m2 !! k = Some a → 0 ≤ f a) → msum f m1 ≤ msum f m2.
Proof.
  revert m2. induction m1 as [|k a m1 Hk IH] using map_ind; intros m2 Hsub Hf.
  - rewrite msum_empty. by apply msum_nonneg.
  - assert (m2 !! k = Some a) as Hk2 by (eapply lookup_weaken; [apply lookup_insert_eq|done]).
    rewrite msum_insert by done. pose proof (msum_delete f m2 k a Hk2).
    enough (msum f m1 ≤ msum f (delete k m2)) by lia. apply IH.
    + rewrite <-(delete_insert_id m1 k a) by done. by apply delete_mono.
    + intros k' a' Hk'. apply lookup_delete_Some in Hk' as [_ Hk']. eauto.
Qed.

Section Disk.
Context {C : ReceiptCodec} {R : RowCodec C} {L : RowCodecLaws C R}.

Notation Row := (StoredActiveReceiptV1 json_value).
Notation Entry := (CatalogEntry json_value).
Implicit Types (r : Row) (e : Entry) (bs : list Z) (d : digest) (m : gmap digest Entry)
  (active : gmap digest (list Z)).

(** The row of a file. *)
Definition entry_at (active : gmap digest (list Z)) (d : digest) : option Entry :=
  bs ← active !! d;
  match decode_active_record bs d with Ok e => Some e | Err _ => None end.

(** A mutation whose second half is still to come. *)
Definition is_witness (e : Entry) : bool := is_expired_deletion e || is_acknowledgement_commit e.

(** What a file stands for. *)
Definition settled_as (e : Entry) (o : option Entry) : Prop :=
  if is_expired_deletion e then o = None
  else if is_acknowledgement_commit e then
    ∃ t encoded, build_acknowledged_tombstone_record_from_witness e = Ok t
      ∧ serialize_reserved_record t MAX_ACKNOWLEDGED_TOMBSTONE_BYTES = Ok encoded
      ∧ row_valid t encoded
      ∧ o = Some (entry_without_result_body (mkEntry t (blen encoded)))
  else o = Some (entry_without_result_body e).

(** The rows of some catalog. *)
Definition rows_ok (m : gmap digest Entry) : Prop := ∃ c, catalog_ok c ∧ cat_records c = m.

(** The files [active] and the generation [g] stand for the rows [m]; the
    last mutation has a sequence of at most [top]. *)
Record stored (g top : Z) (active : gmap digest (list Z)) (m : gmap digest Entry) : Prop := {
  st_rows : rows_ok m;
  st_file : ∀ d bs, active !! d = Some bs →
    ∃ e, decode_active_record bs d = Ok e ∧ settled_as e (m !! d);
  st_none : ∀ d, active !! d = None → m !! d = None;
  st_identity : ∀ d1 d2 e1 e2, entry_at active d1 = Some e1 → entry_at active d2 = Some e2 →
    entry_invocation e1 = entry_invocation e2 ∨ entry_task e1 = entry_task e2 → d1 = d2;
  st_sequence : ∀ d1 d2 e1 e2, entry_at active d1 = Some e1 → entry_at active d2 = Some e2 →
    is_tombstone e1 = false → is_tombstone e2 = false →
    entry_sequence e1 = entry_sequence e2 → d1 = d2;
  st_bound : ∀ d e, entry_at active d = Some e → is_tombstone e = false → entry_sequence e ≤ top;
  st_witness : ∀ d e, entry_at active d = Some e → is_witness e = true → entry_sequence e = top;
  st_generation : 0 ≤ g;
  st_top : g = top ∨ top = g + 1;
  st_max : top ≤ u64_max;
}.
Definition no_witness (active : gmap digest (list Z)) : Prop :=
  ∀ d e, entry_at active d = Some e → is_witness e = false.

(** ** Decoded rows *)

Lemma decode_Ok bs d e :
  decode_active_record bs d = Ok e →
  row_valid (ce_record e) bs ∧ entry_digest e = d ∧ ce_encoded_bytes e = blen bs
  ∧ blen bs ≤ MAX_RECEIPT_ENTITLEMENT_BYTES ∧ parse_row bs = Ok (ce_record e).
Proof.
  unfold decode_active_record. intros Hd. break Hd. checked_result.
  match goal with E : validate_active_record _ _ _ = Ok ?u |- _ => destruct u end.
  match goal with E : validate_active_record ?r _ _ = Ok _ |- _ =>
    apply validate_active_record_Ok in E as H; destruct H as (_ & _ & Hdig & _) end.
  split_and!; cbn; try done.
  - unfold row_valid. by rewrite Hdig.
  - by apply Z.leb_le.
Qed.
Lemma parse_nonempty bs r : parse_row bs = Ok r → 0 < blen bs.
Proof.
  intros Hp. destruct bs as [|b bs]; [|unfold blen; cbn; lia].
  unfold parse_row in Hp. by rewrite row_of_nothing, tombstone_of_nothing in Hp.
Qed.
Lemma decode_fits bs d e : decode_active_record bs d = Ok e → entry_fits e.
Proof.
  intros (_ & _ & Hlen & Hmax & Hp)%decode_Ok. apply parse_nonempty in Hp.
  unfold entry_fits. by rewrite Hlen.
Qed.
Lemma entry_at_Some active d e :
  entry_at active d = Some e ↔ ∃ bs, active !! d = Some bs ∧ decode_active_record bs d = Ok e.
Proof.
  unfold entry_at. rewrite bind_Some. split.
  - intros (bs & Hd & He). exists bs. destruct (decode_active_record bs d); naive_solver.
  - intros (bs & Hd & He). exists bs. by rewrite He.
Qed.
Lemma entry_at_digest active d e : entry_at active d = Some e → entry_digest e = d.
Proof. intros (bs & _ & (_ & H & _)%decode_Ok)%entry_at_Some. done. Qed.
Lemma entry_at_insert_eq active d bs e :
  decode_active_record bs d = Ok e → entry_at (<[d := bs]> active) d = Some e.
Proof. intros He. apply entry_at_Some. exists bs. by rewrite lookup_insert_eq. Qed.
Lemma entry_at_insert_ne active d d' bs :
  d ≠ d' → entry_at (<[d := bs]> active) d' = entry_at active d'.
Proof. intros Hne. unfold entry_at. by rewrite lookup_insert_ne. Qed.
Lemma entry_at_delete active d d' e :
  entry_at (delete d active) d' = Some e ↔ d ≠ d' ∧ entry_at active d' = Some e.
Proof. unfold entry_at. destruct (decide (d = d')) as [->|Hne].
  - rewrite lookup_delete_eq. cbn. naive_solver.
  - rewrite lookup_delete_ne by done. naive_solver.
Qed.
(** A row of the contents, from its file. *)
Lemma stored_entry g top active m d e :
  stored g top active m → entry_at active d = Some e → settled_as e (m !! d).
Proof.
  intros St (bs & Hd & He)%entry_at_Some.
  destruct (st_file _ _ _ _ St d bs Hd) as (e' & He' & H). naive_solver congruence.
Qed.
Lemma stored_plain g top active m d e :
  stored g top active m → entry_at active d = Some e → is_witness e = false →
  m !! d = Some (entry_without_result_body e).
Proof.
  intros St He Hw. pose proof (stored_entry _ _ _ _ _ _ St He) as H. unfold settled_as in H.
  unfold is_witness in Hw. apply orb_false_iff in Hw as [Hw1 Hw2]. by rewrite Hw1, Hw2 in H.
Qed.
Lemma stored_found g top active m d :
  stored g top active m → is_Some (m !! d) → ∃ e, entry_at active d = Some e.
Proof.
  intros St [x Hx]. destruct (active !! d) as [bs|] eqn:Hd.
  - destruct (st_file _ _ _ _ St d bs Hd) as (e & He & _). exists e. apply entry_at_Some. eauto.
  - rewrite (st_none _ _ _ _ St d Hd) in Hx. done.
Qed.

(** A witness is a live row. *)
Lemma witness_live e : is_witness e = true → is_tombstone e = false.
Proof.
  unfold is_witness, is_expired_deletion, is_acknowledgement_commit, is_tombstone.
  by destruct (row_lifecycle (ce_record e)).
Qed.

(** ** Mutations of the disk *)

(** The next mutation: one file takes sequence [g + 1]. *)
Lemma stored_write g active m d bs e m' :
  stored g g active m → no_witness active →
  decode_active_record bs d = Ok e → is_tombstone e = false → entry_sequence e = g + 1 →
  g + 1 ≤ u64_max →
  (∀ d' e', d' ≠ d → entry_at active d' = Some e' →
     entry_invocation e' ≠ entry_invocation e ∧ entry_task e' ≠ entry_task e) →
  settled_as e (m' !! d) → (∀ d', d' ≠ d → m' !! d' = m !! d') → rows_ok m' →
  stored g (g + 1) (<[d := bs]> active) m'.
Proof.
  intros St Hnw He Hlive Hseq Hmax Hid Hset Hm' Hok.
  assert (∀ d' e', entry_at (<[d := bs]> active) d' = Some e' →
            (d' = d ∧ e' = e) ∨ (d' ≠ d ∧ entry_at active d' = Some e')) as Hat.
  { intros d' e' H. destruct (decide (d' = d)) as [->|Hne].
    - rewrite (entry_at_insert_eq active d bs e He) in H. left. naive_solver.
    - rewrite entry_at_insert_ne in H by done. by right. }
  assert (∀ d' e', entry_at active d' = Some e' → is_tombstone e' = false →
            entry_sequence e' ≤ g) as Hle by apply (st_bound _ _ _ _ St).
  split; try done.
  - intros d' bs' Hd'. apply lookup_insert_Some in Hd' as [[<- <-]|[Hne Hd']]; [eauto|].
    rewrite Hm' by done. by apply (st_file _ _ _ _ St).
  - intros d' Hd'. apply lookup_insert_None in Hd' as [Hd' Hne].
    rewrite Hm' by done. by apply (st_none _ _ _ _ St).
  - intros d1 d2 e1 e2 [[-> ->]|[N1 H1]]%Hat [[-> ->]|[N2 H2]]%Hat Hor; try done.
    + exfalso. destruct (Hid d2 e2 N2 H2). destruct Hor; congruence.
    + exfalso. destruct (Hid d1 e1 N1 H1). destruct Hor; congruence.
    + by apply (st_identity _ _ _ _ St d1 d2 e1 e2).
  - intros d1 d2 e1 e2 [[-> ->]|[N1 H1]]%Hat [[-> ->]|[N2 H2]]%Hat T1 T2 Hs; try done.
    + specialize (Hle d2 e2 H2 T2). lia.
    + specialize (Hle d1 e1 H1 T1). lia.
    + by apply (st_sequence _ _ _ _ St d1 d2 e1 e2).
  - intros d' e' [[-> ->]|[N1 H1]]%Hat T; [lia|]. specialize (Hle d' e' H1 T). lia.
  - intros d' e' [[-> ->]|[N1 H1]]%Hat Hw; [done|]. by rewrite (Hnw d' e' H1) in Hw.
  - apply (st_generation _ _ _ _ St).
  - by right.
Qed.

(** The generation catches up with the last mutation. *)
Lemma stored_publish g top active m : stored g top active m → stored top top active m.
Proof.
  intros St. destruct St; split; try done; [|by left]. destruct st_top0; lia.
Qed.
(** ... or with the largest sequence in the files. *)
Lemma stored_catch_up g top active m mx :
  stored g top active m → 0 ≤ mx ≤ Z.max g top →
  (∀ d e, entry_at active d = Some e → is_tombstone e = false → entry_sequence e ≤ mx) →
  stored (Z.max g mx) (Z.max g mx) active m.
Proof.
  intros St Hmx Hb. pose proof (st_top _ _ _ _ St) as Htop. pose proof (st_max _ _ _ _ St).
  pose proof (st_generation _ _ _ _ St). destruct St. split; try done; try lia.
  - intros d e Hd Ht. specialize (Hb d e Hd Ht). lia.
  - intros d e Hd Hw. specialize (Hb d e Hd (witness_live e Hw)). rewrite (st_witness0 d e Hd Hw) in *. lia.
Qed.

(** A deletion witness stands for no row: it can go. *)
Lemma stored_remove g top active m d e :
  stored g top active m → entry_at active d = Some e → is_expired_deletion e = true →
  stored g top (delete d active) m.
Proof.
  intros St He Hdel. pose proof (stored_entry _ _ _ _ _ _ St He) as Hset.
  unfold settled_as in Hset. rewrite Hdel in Hset. destruct St; split; try done.
  - intros d' bs' [Hne Hd']%lookup_delete_Some. eauto.
  - intros d' Hd'. destruct (decide (d = d')) as [<-|Hne]; [done|].
    rewrite lookup_delete_ne in Hd' by done. eauto.
  - intros d1 d2 e1 e2 [_ H1]%entry_at_delete [_ H2]%entry_at_delete. eauto.
  - intros d1 d2 e1 e2 [_ H1]%entry_at_delete [_ H2]%entry_at_delete. eauto.
  - intros d' e' [_ H1]%entry_at_delete. eauto.
  - intros d' e' [_ H1]%entry_at_delete. eauto.
Qed.

(** An acknowledgement witness stands for its tombstone, which can take its
    place. *)
Lemma stored_compact g top active m d e t encoded :
  stored g top active m → entry_at active d = Some e → is_acknowledgement_commit e = true →
  build_acknowledged_tombstone_record_from_witness e = Ok t →
  serialize_reserved_record t MAX_ACKNOWLEDGED_TOMBSTONE_BYTES = Ok encoded →
  stored g top (<[d := encoded]> active) m.
Proof.
  intros St He Hack Ht Henc. pose proof (stored_entry _ _ _ _ _ _ St He) as Hset.
  pose proof (entry_at_digest _ _ _ He) as Hdig.
  unfold settled_as in Hset. assert (is_expired_deletion e = false) as Hdel.
  { unfold is_expired_deletion, is_acknowledgement_commit in *.
    by destruct (row_lifecycle (ce_record e)). }
  rewrite Hdel, Hack in Hset. destruct Hset as (t' & enc' & Ht' & Henc' & Hv & Hm).
  rewrite Ht in Ht'. injection Ht' as <-. rewrite Henc in Henc'. injection Henc' as <-.
  assert (row_is_tombstone t = true ∧ row_mutation_sequence t = 0 ∧ row_key_digest t = d
          ∧ row_key t = row_key (ce_record e)) as (Htomb & Hzero & Htd & Htk).
  { unfold build_acknowledged_tombstone_record_from_witness in Ht.
    destruct (row_lifecycle (ce_record e)); try done. injection Ht as <-. split_and!; done. }
  assert (decode_active_record encoded d = Ok (mkEntry t (blen encoded))) as Hdec.
  { rewrite <-Htd. eapply serialized_decodes; eauto using tombstone_reads_back. }
  assert (is_tombstone (mkEntry t (blen encoded)) = true) as Htomb' by exact Htomb.
  assert (is_witness (mkEntry t (blen encoded)) = false) as Hnw.
  { unfold is_witness, is_expired_deletion, is_acknowledgement_commit. cbn.
    unfold row_is_tombstone in Htomb. by destruct (row_lifecycle t). }
  assert (∀ d' e', entry_at (<[d := encoded]> active) d' = Some e' →
            (d' = d ∧ e' = mkEntry t (blen encoded)) ∨ (d' ≠ d ∧ entry_at active d' = Some e'))
    as Hat.
  { intros d' e' H. destruct (decide (d' = d)) as [->|Hne].
    - rewrite (entry_at_insert_eq active d encoded _ Hdec) in H. left. naive_solver.
    - rewrite entry_at_insert_ne in H by done. by right. }
  assert (entry_invocation (mkEntry t (blen encoded)) = entry_invocation e
          ∧ entry_task (mkEntry t (blen encoded)) = entry_task e) as [Hi Htk'].
  { unfold entry_invocation, entry_task. cbn. by rewrite Htk. }
  destruct St; split; try done.
  - intros d' bs' [[<- <-]|[Hne Hd']]%lookup_insert_Some; [|eauto].
    eexists. split; [exact Hdec|]. unfold settled_as. unfold is_witness in Hnw.
    apply orb_false_iff in Hnw as [-> ->]. done.
  - intros d' [Hd' Hne]%lookup_insert_None. eauto.
  - intros d1 d2 e1 e2 [[-> ->]|[N1 H1]]%Hat [[-> ->]|[N2 H2]]%Hat Hor; try done.
    + exfalso. rewrite Hi, Htk' in Hor. by specialize (st_identity0 d d2 e e2 He H2 Hor).
    + exfalso. rewrite Hi, Htk' in Hor. by specialize (st_identity0 d1 d e1 e H1 He Hor).
    + eauto.
  - intros d1 d2 e1 e2 [[-> ->]|[N1 H1]]%Hat [[-> ->]|[N2 H2]]%Hat T1 T2 Hs; try done;
      [by rewrite Htomb' in T1|by rewrite Htomb' in T2|eauto].
  - intros d' e' [[-> ->]|[N1 H1]]%Hat T; [by rewrite Htomb' in T|eauto].
  - intros d' e' [[-> ->]|[N1 H1]]%Hat Hw; [by rewrite Hnw in Hw|eauto].
Qed.
(** There is at most one witness. *)
Lemma one_witness g top active m d1 d2 e1 e2 :
  stored g top active m → entry_at active d1 = Some e1 → entry_at active d2 = Some e2 →
  is_witness e1 = true → is_witness e2 = true → d1 = d2.
Proof.
  intros St H1 H2 W1 W2. apply (st_sequence _ _ _ _ St d1 d2 e1 e2 H1 H2); auto using witness_live.
  by rewrite (st_witness _ _ _ _ St d1 e1 H1 W1), (st_witness _ _ _ _ St d2 e2 H2 W2).
Qed.
End Disk.
