(* ===== verification/ReceiptRecoveryProps.v ===== *)
(** * Receipt store: recovery rebuilds the contents

    [recover_existing_catalog] succeeds on every directory that stands for
    some rows, in whatever order its files come, and rebuilds a catalog of
    exactly those rows; the pending witness it reports is the one in the
    directory, and the check of its sequence passes. *)

From Stdlib Require Import ZArith Lia String.
From stdpp Require Import base gmap list option numbers countable strings.
From S2P Require Import Prelude Contract ResultSize Redaction ReceiptLedger ReceiptStates.
From S2P Require Import ReceiptRows ReceiptCatalog ReceiptCatalogFacts ReceiptCatalogProps.
From S2P Require Import ReceiptRecords ReceiptStore ReceiptOps ReceiptRecovery.
From S2P Require Import ReceiptDisk.

Local Open Scope Z_scope.

Section RecoveryProps.
Context {C : ReceiptCodec} {R : RowCodec C} {L : RowCodecLaws C R}.

Notation Row := (StoredActiveReceiptV1 json_value).
Notation Entry := (CatalogEntry json_value).
Implicit Types (r : Row) (e : Entry) (bs : list Z) (d : digest) (m : gmap digest Entry)
  (active : gmap digest (list Z)) (D : list digest).

(** ** A part of the contents *)

Lemma rows_wf m : rows_ok m → ∀ d e, m !! d = Some e → row_wf d e.
Proof. intros (c & [W _] & <-). apply (wf_rows c W). Qed.
Lemma budget_part m m' : rows_ok m → m' ⊆ m → within_budget m' ∧ within_capacity m'.
Proof.
  intros Hok Hsub. pose proof (rows_wf m Hok) as Hrows.
  destruct Hok as (c & [W Hc] & <-). pose proof (wf_budget c W) as Hb.
  unfold within_budget, within_capacity in *.
  assert (∀ f, f = live_actual_bytes ∨ f = reserved_result_bytes ∨ f = tombstone_bytes
               ∨ f = live_flag ∨ f = tombstone_flag →
            msum f m' ≤ msum f (cat_records c)) as Hle.
  { intros f Hf. apply msum_subseteq; [done|]. by apply rows_nonneg. }
  pose proof (Hle live_actual_bytes (or_introl eq_refl)).
  pose proof (Hle reserved_result_bytes (or_intror (or_introl eq_refl))).
  pose proof (Hle tombstone_bytes (or_intror (or_intror (or_introl eq_refl)))).
  pose proof (Hle live_flag (or_intror (or_intror (or_intror (or_introl eq_refl))))).
  pose proof (Hle tombstone_flag (or_intror (or_intror (or_intror (or_intror eq_refl))))).
  clear Hle. destruct Hb as (? & ? & ? & ? & ?). repeat split; lia.
Qed.

(** ** One file after another *)

Section Scan.
Context (g top : Z) (active : gmap digest (list Z)) (m : gmap digest Entry).
Context (St : stored g top active m).

Definition seen (D : list digest) (e : Entry) : Prop := ∃ d, d ∈ D ∧ entry_at active d = Some e.

(** The recovery has read the files of [D]. *)
Record progress (s : Recovered) (D : list digest) : Prop := {
  pr_catalog : catalog_ok (rc_catalog s);
  pr_available : cat_unavailable (rc_catalog s) = false;
  pr_records : ∀ d, cat_records (rc_catalog s) !! d = if decide (d ∈ D) then m !! d else None;
  pr_invocations : ∀ i, i ∈ rc_invocations s → ∃ e, seen D e ∧ entry_invocation e = i;
  pr_tasks : ∀ t, t ∈ rc_tasks s → ∃ e, seen D e ∧ entry_task e = t;
  pr_sequences : ∀ q, q ∈ rc_sequences s →
    ∃ e, seen D e ∧ is_tombstone e = false ∧ entry_sequence e = q;
  pr_maximum : ∀ e, seen D e → is_tombstone e = false → entry_sequence e ≤ rc_maximum_sequence s;
  pr_maximum_range : 0 ≤ rc_maximum_sequence s ≤ Z.max 0 top;
  pr_deletion : match rc_expired_deletion_sequence s with
    | None => rc_expired_deletions s = [] ∧ ∀ e, seen D e → is_expired_deletion e = false
    | Some q => ∃ d e, d ∈ D ∧ entry_at active d = Some e ∧ is_expired_deletion e = true
        ∧ entry_sequence e = q ∧ rc_expired_deletions s = [d]
    end;
  pr_acknowledgement : match rc_acknowledgement s with
    | None => ∀ e, seen D e → is_acknowledgement_commit e = false
    | Some (t, encoded, q) => ∃ d e, d ∈ D ∧ entry_at active d = Some e
        ∧ is_acknowledgement_commit e = true ∧ entry_sequence e = q
        ∧ build_acknowledged_tombstone_record_from_witness e = Ok t
        ∧ serialize_reserved_record t MAX_ACKNOWLEDGED_TOMBSTONE_BYTES = Ok encoded
    end;
}.

Lemma progress_start : progress recovered_default [].
Proof.
  assert (∀ e, seen [] e → False) as Hno by (intros e (d & Hd & _); by apply not_elem_of_nil in Hd).
  split; cbn; try (intros x Hx; by apply not_elem_of_nil in Hx); try done; try lia.
  - split; [apply catalog_default_wf|]. unfold within_capacity. cbn. rewrite !msum_empty.
    unfold u64_max. lia.
  - intros e He. by apply Hno in He.
  - split; [done|]. intros e He. by apply Hno in He.
  - intros e He. by apply Hno in He.
Qed.

Lemma seen_cons D d e' e :
  entry_at active d = Some e → seen (d :: D) e' ↔ e' = e ∨ seen D e'.
Proof.
  intros He. unfold seen. setoid_rewrite elem_of_cons. split.
  - intros (d' & [->|Hd'] & He'); [left; congruence|right; eauto].
  - intros [->|(d' & Hd' & He')]; eauto.
Qed.
Lemma seen_weaken D d e : seen D e → seen (d :: D) e.
Proof. intros (d' & Hd' & He). exists d'. split; [by right|done]. Qed.

(** The contents read so far, and one row more, are part of the whole. *)
Lemma records_part s D d x :
  progress s D → m !! d = Some x → <[d := x]> (cat_records (rc_catalog s)) ⊆ m.
Proof.
  intros P Hx. apply map_subseteq_spec. intros d' y [[<- <-]|[_ Hy]]%lookup_insert_Some; [done|].
  rewrite (pr_records s D P) in Hy. by case_decide.
Qed.

(** Identities of a new file are new. *)
Lemma identity_fresh s D d e :
  progress s D → d ∉ D → entry_at active d = Some e →
  record_identity s e = Ok (mkRecovered (rc_catalog s)
     (if is_tombstone e then rc_maximum_sequence s
      else Z.max (rc_maximum_sequence s) (entry_sequence e))
     (if is_tombstone e then rc_sequences s else entry_sequence e :: rc_sequences s)
     (entry_invocation e :: rc_invocations s) (entry_task e :: rc_tasks s)
     (rc_expired_deletions s) (rc_expired_deletion_sequence s) (rc_acknowledgement s)).
Proof.
  intros P Hd He. unfold record_identity.
  assert (∀ e', seen D e' → (entry_invocation e' = entry_invocation e ∨ entry_task e' = entry_task e)
            → False) as Hid.
  { intros e' (d' & Hd' & He') Hor. apply Hd.
    by rewrite <-(st_identity _ _ _ _ St d' d e' e He' He Hor). }
  rewrite bool_decide_false.
  2:{ intros (e' & Hs & Heq)%(pr_invocations s D P). eauto. }
  rewrite bool_decide_false.
  2:{ intros (e' & Hs & Heq)%(pr_tasks s D P). eauto. }
  destruct (is_tombstone e) eqn:Ht; cbn [negb andb]; [done|].
  rewrite bool_decide_false; [done|]. intros (e' & (d' & Hd' & He') & Ht' & Heq)%(pr_sequences s D P).
  apply Hd. by rewrite <-(st_sequence _ _ _ _ St d' d e' e He' He Ht' Ht Heq).
Qed.

(** The common part of a step: one file more, with the catalog [c']. *)
Lemma progress_step s D d e c' deletions deletion acknowledgement :
  progress s D → entry_at active d = Some e → catalog_ok c' → cat_unavailable c' = false →
  (∀ d', cat_records c' !! d' = if decide (d' ∈ d :: D) then m !! d' else None) →
  match deletion with
  | None => deletions = [] ∧ ∀ e', seen (d :: D) e' → is_expired_deletion e' = false
  | Some q => ∃ d' e', d' ∈ d :: D ∧ entry_at active d' = Some e' ∧ is_expired_deletion e' = true
      ∧ entry_sequence e' = q ∧ deletions = [d']
  end →
  match acknowledgement with
  | None => ∀ e', seen (d :: D) e' → is_acknowledgement_commit e' = false
  | Some (t, encoded, q) => ∃ d' e', d' ∈ d :: D ∧ entry_at active d' = Some e'
      ∧ is_acknowledgement_commit e' = true ∧ entry_sequence e' = q
      ∧ build_acknowledged_tombstone_record_from_witness e' = Ok t
      ∧ serialize_reserved_record t MAX_ACKNOWLEDGED_TOMBSTONE_BYTES = Ok encoded
  end →
  progress (mkRecovered c'
     (if is_tombstone e then rc_maximum_sequence s
      else Z.max (rc_maximum_sequence s) (entry_sequence e))
     (if is_tombstone e then rc_sequences s else entry_sequence e :: rc_sequences s)
     (entry_invocation e :: rc_invocations s) (entry_task e :: rc_tasks s)
     deletions deletion acknowledgement) (d :: D).
Proof.
  intros P He Hc Ha Hr Hdel Hack. split; cbn; try done.
  - intros i [->|Hi]%elem_of_cons; [exists e; split; [by apply (seen_cons D d e e He); left|done]|].
    apply (pr_invocations s D P) in Hi as (e' & Hs & Heq). eauto using seen_weaken.
  - intros i [->|Hi]%elem_of_cons; [exists e; split; [by apply (seen_cons D d e e He); left|done]|].
    apply (pr_tasks s D P) in Hi as (e' & Hs & Heq). eauto using seen_weaken.
  - intros q Hq. assert (q = entry_sequence e ∧ is_tombstone e = false ∨ q ∈ rc_sequences s)
      as [[-> Ht]|Hq'].
    { destruct (is_tombstone e); [by right|]. apply elem_of_cons in Hq as [->|Hq]; [by left|by right]. }
    + exists e. split; [by apply (seen_cons D d e e He); left|done].
    + apply (pr_sequences s D P) in Hq' as (e' & Hs & Heq). eauto using seen_weaken.
  - intros e' [->|Hs]%(seen_cons D d e' e He) Ht.
    + rewrite Ht. lia.
    + pose proof (pr_maximum s D P e' Hs Ht). destruct (is_tombstone e); lia.
  - pose proof (pr_maximum_range s D P). destruct (is_tombstone e) eqn:Ht; [lia|].
    pose proof (st_bound _ _ _ _ St d e He Ht). lia.
Qed.

(** The rest of a witness when the new file is not one. *)
Lemma deletion_weaken s D d e :
  progress s D → entry_at active d = Some e → is_expired_deletion e = false →
  match rc_expired_deletion_sequence s with
  | None => rc_expired_deletions s = [] ∧ ∀ e', seen (d :: D) e' → is_expired_deletion e' = false
  | Some q => ∃ d' e', d' ∈ d :: D ∧ entry_at active d' = Some e' ∧ is_expired_deletion e' = true
      ∧ entry_sequence e' = q ∧ rc_expired_deletions s = [d']
  end.
Proof.
  intros P He Hno. pose proof (pr_deletion s D P) as H.
  destruct (rc_expired_deletion_sequence s).
  - destruct H as (d' & e' & Hd' & H). exists d', e'. split; [by right|done].
  - destruct H as [H1 H2]. split; [done|]. intros e' [->|Hs]%(seen_cons D d e' e He); eauto.
Qed.
Lemma acknowledgement_weaken s D d e :
  progress s D → entry_at active d = Some e → is_acknowledgement_commit e = false →
  match rc_acknowledgement s with
  | None => ∀ e', seen (d :: D) e' → is_acknowledgement_commit e' = false
  | Some (t, encoded, q) => ∃ d' e', d' ∈ d :: D ∧ entry_at active d' = Some e'
      ∧ is_acknowledgement_commit e' = true ∧ entry_sequence e' = q
      ∧ build_acknowledged_tombstone_record_from_witness e' = Ok t
      ∧ serialize_reserved_record t MAX_ACKNOWLEDGED_TOMBSTONE_BYTES = Ok encoded
  end.
Proof.
  intros P He Hno. pose proof (pr_acknowledgement s D P) as H.
  destruct (rc_acknowledgement s) as [[[t enc] q]|].
  - destruct H as (d' & e' & Hd' & H). exists d', e'. split; [by right|done].
  - intros e' [->|Hs]%(seen_cons D d e' e He); eauto.
Qed.

(** A row of the contents goes into the catalog. *)
Lemma recovering_insert s D d e x :
  progress s D → d ∉ D → entry_at active d = Some e → m !! d = Some (entry_without_result_body x) →
  entry_digest x = d → entry_invocation x = entry_invocation e → entry_task x = entry_task e →
  (is_tombstone x = false → is_tombstone e = false ∧ entry_sequence x = entry_sequence e) →
  ∃ c', insert_catalog_entry (rc_catalog s) x true = Ok c' ∧ catalog_ok c'
    ∧ cat_unavailable c' = false ∧ ∀ d', cat_records c' !! d' = if decide (d' ∈ d :: D) then m !! d' else None.
Proof.
  intros P Hd He Hx Hdig Hinv Htask Hlive. pose proof (pr_catalog s D P) as Hc.
  assert (entry_fits x) as Hfit.
  { destruct (rows_wf m (st_rows _ _ _ _ St) d _ Hx) as (_ & Hfit & _). exact Hfit. }
  assert (∀ d' y, cat_records (rc_catalog s) !! d' = Some y →
            ∃ e', d' ∈ D ∧ d' ≠ d ∧ entry_at active d' = Some e' ∧ settled_as e' (Some y)) as Hrec.
  { intros d' y Hy. rewrite (pr_records s D P) in Hy. case_decide; [|done].
    destruct (stored_found _ _ _ _ d' St (ex_intro _ y Hy)) as [e' He'].
    exists e'. split_and!; [done|congruence|done|]. rewrite <-Hy. by eapply stored_entry. }
  assert (∀ e' y, settled_as e' (Some y) → entry_invocation y = entry_invocation e'
            ∧ entry_task y = entry_task e'
            ∧ (is_tombstone y = false → is_tombstone e' = false
               ∧ entry_sequence y = entry_sequence e')) as Hsame.
  { intros e' y Hs. unfold settled_as in Hs. destruct (is_expired_deletion e'); [done|].
    destruct (is_acknowledgement_commit e').
    - destruct Hs as (t & enc & Ht & _ & _ & [= ->]).
      unfold build_acknowledged_tombstone_record_from_witness in Ht.
      rewrite strip_invocation, strip_task, strip_tombstone.
      destruct (row_lifecycle (ce_record e')); try done. injection Ht as <-. done.
    - injection Hs as ->. by rewrite strip_invocation, strip_task, strip_tombstone, strip_sequence. }
  assert (insertable (cat_records (rc_catalog s)) x) as Hins.
  { destruct (budget_part m (<[entry_digest x := entry_without_result_body x]>
                (cat_records (rc_catalog s))) (st_rows _ _ _ _ St)) as [Hb Hcap].
    { rewrite Hdig. by eapply records_part. }
    split; [|done..]. split.
    - rewrite Hdig, (pr_records s D P). by rewrite decide_False.
    - intros d' y Hy. destruct (Hrec d' y Hy) as (e' & _ & Hne & He' & Hs).
      destruct (Hsame e' y Hs) as (-> & _). rewrite Hinv. intros Heq.
      by apply Hne, (st_identity _ _ _ _ St d' d e' e); auto.
    - intros d' y Hy. destruct (Hrec d' y Hy) as (e' & _ & Hne & He' & Hs).
      destruct (Hsame e' y Hs) as (_ & -> & _). rewrite Htask. intros Heq.
      by apply Hne, (st_identity _ _ _ _ St d' d e' e); auto.
    - intros d' y Hy Hne' Ty Tx Heq. destruct (Hrec d' y Hy) as (e' & _ & Hne & He' & Hs).
      destruct (Hsame e' y Hs) as (_ & _ & H). destruct (H Ty) as [Te' Sy].
      destruct (Hlive Tx) as [Te Sx].
      by apply Hne, (st_sequence _ _ _ _ St d' d e' e He' He Te' Te); congruence. }
  pose proof (insertable_validates (rc_catalog s) x true (proj1 Hc) Hfit Hins) as Hv.
  assert (insert_catalog_entry (rc_catalog s) x true = Ok (commit_catalog_insert (rc_catalog s) x))
    as Hok by (unfold insert_catalog_entry; by rewrite Hv).
  destruct (insert_ok _ _ _ _ Hc Hfit Hok) as [Hc' Hr'].
  exists (commit_catalog_insert (rc_catalog s) x).
  split_and!; [done|done|exact (pr_available s D P)|].
  intros d'. rewrite Hr', Hdig. destruct (decide (d' = d)) as [->|Hne].
  - rewrite lookup_insert_eq, decide_True by (by left). done.
  - rewrite lookup_insert_ne, (pr_records s D P) by done.
    destruct (decide (d' ∈ D)) as [Hin|Hout].
    + by rewrite decide_True by (by right).
    + rewrite decide_False; [done|]. by intros [->|?]%elem_of_cons.
Qed.

Lemma records_skip s D d :
  progress s D → m !! d = None →
  ∀ d', cat_records (rc_catalog s) !! d' = if decide (d' ∈ d :: D) then m !! d' else None.
Proof.
  intros P Hd d'. rewrite (pr_records s D P). destruct (decide (d' ∈ D)) as [Hin|Hout].
  - by rewrite decide_True by (by right).
  - destruct (decide (d' ∈ d :: D)) as [[->|?]%elem_of_cons|]; done.
Qed.

Lemma recover_row_progress s D d bs :
  progress s D → d ∉ D → active !! d = Some bs →
  ∃ s', recover_row s d bs = Ok s' ∧ progress s' (d :: D).
Proof.
  intros P Hd Hbs. destruct (st_file _ _ _ _ St d bs Hbs) as (e & Hdec & Hset).
  assert (entry_at active d = Some e) as He by (apply entry_at_Some; eauto).
  pose proof (entry_at_digest _ _ _ He) as Hdig.
  unfold recover_row. rewrite Hdec, (pr_records s D P), decide_False by done. cbn [is_some].
  rewrite (identity_fresh s D d e P Hd He). cbn [rc_catalog rc_expired_deletion_sequence
    rc_acknowledgement]. unfold settled_as in Hset.
  assert (∀ e', seen D e' → is_witness e' = true → is_witness e = true → False) as Hone.
  { intros e' (d' & Hd' & He') W W'. apply Hd. by rewrite <-(one_witness _ _ _ _ d' d e' e St). }
  destruct (is_expired_deletion e) eqn:Hdel.
  - assert (is_witness e = true) as Hw by (unfold is_witness; by rewrite Hdel).
    assert (rc_expired_deletion_sequence s = None ∧ rc_expired_deletions s = []) as [Hnone Hnil].
    { pose proof (pr_deletion s D P) as H. destruct (rc_expired_deletion_sequence s); [|naive_solver].
      destruct H as (d' & e' & Hd' & He' & Hx & _). exfalso. apply (Hone e'); [by exists d'| |done].
      unfold is_witness. by rewrite Hx. }
    rewrite Hnone. cbn [is_some]. eexists. split; [reflexivity|]. unfold with_deletion. cbn.
    apply progress_step; [done|done|apply (pr_catalog s D P)|apply (pr_available s D P)|by apply records_skip| |].
    + exists d, e. rewrite Hnil. split_and!; try done. by left.
    + apply (acknowledgement_weaken s D d e P He).
      unfold is_expired_deletion, is_acknowledgement_commit in *.
      by destruct (row_lifecycle (ce_record e)).
  - destruct (is_acknowledgement_commit e) eqn:Hack.
    + assert (is_witness e = true) as Hw by (unfold is_witness; by rewrite Hdel, Hack).
      assert (rc_acknowledgement s = None) as Hnone.
      { pose proof (pr_acknowledgement s D P) as H.
        destruct (rc_acknowledgement s) as [[[t enc] q]|]; [|done].
        destruct H as (d' & e' & Hd' & He' & Hx & _). exfalso. apply (Hone e'); [by exists d'| |done].
        unfold is_witness. rewrite Hx. apply orb_true_r. }
      rewrite Hnone. cbn [is_some]. destruct Hset as (t & enc & Ht & Henc & Hv & Hm).
      rewrite Ht, Henc.
      assert (row_key_digest t = d ∧ row_key t = row_key (ce_record e)
              ∧ is_tombstone (mkEntry t (blen enc)) = true) as (Htd & Htk & Htomb).
      { unfold build_acknowledged_tombstone_record_from_witness in Ht.
        destruct (row_lifecycle (ce_record e)); try done. injection Ht as <-. done. }
      destruct (recovering_insert s D d e (mkEntry t (blen enc)) P Hd He Hm Htd) as (c' & Hi & Hc & Ha & Hr).
      { unfold entry_invocation. cbn. by rewrite Htk. }
      { unfold entry_task. cbn. by rewrite Htk. }
      { intros H. by rewrite Htomb in H. }
      rewrite Hi. eexists. split; [reflexivity|]. unfold with_acknowledgement. cbn.
      apply progress_step; [done..|by apply (deletion_weaken s D d e)|].
      exists d, e. split_and!; try done. by left.
    + destruct (recovering_insert s D d e e P Hd He Hset Hdig) as (c' & Hi & Hc & Ha & Hr); [done..|].
      rewrite Hi. eexists. split; [reflexivity|]. unfold with_catalog. cbn.
      apply progress_step; [done..|by apply (deletion_weaken s D d e)
        |by apply (acknowledgement_weaken s D d e)].
Qed.

Lemma recover_rows_progress s D files :
  progress s D → NoDup files.*1 → (∀ d bs, (d, bs) ∈ files → d ∉ D ∧ active !! d = Some bs) →
  ∃ s', recover_rows s files = Ok s' ∧ progress s' (rev files.*1 ++ D).
Proof.
  revert s D. induction files as [|[d bs] files IH]; intros s D P Hnd Hf; [by exists s|].
  cbn [fmap list_fmap fst] in Hnd. apply NoDup_cons in Hnd as [Hno Hnd].
  destruct (Hf d bs ltac:(by left)) as [Hd Hbs].
  destruct (recover_row_progress s D d bs P Hd Hbs) as (s1 & Hs1 & P1).
  destruct (IH s1 (d :: D) P1 Hnd) as (s2 & Hs2 & P2).
  { intros d' bs' Hin. destruct (Hf d' bs' ltac:(by right)) as [Hd' Hbs']. split; [|done].
    intros [->|?]%elem_of_cons; [|done]. apply Hno. apply list_elem_of_fmap. by exists (d, bs'). }
  exists s2. cbn [recover_rows]. rewrite Hs1. split; [done|].
  cbn [fmap list_fmap fst rev]. by rewrite <-app_assoc.
Qed.

(** ** The whole directory *)

Lemma insert_sorted_perm d l : insert_sorted d l ≡ₚ d :: l.
Proof.
  induction l as [|x l IH]; [done|]. cbn. destruct (digest_leb d x); [done|].
  rewrite IH. apply Permutation_swap.
Qed.
Lemma sort_digests_perm l : sort_digests l ≡ₚ l.
Proof. induction l as [|x l IH]; [done|]. cbn. by rewrite insert_sorted_perm, IH. Qed.

Lemma sorted_files_fst : (sorted_files active).*1 = sort_digests (map_to_list active).*1.
Proof.
  unfold sorted_files.
  assert (∀ l, (∀ d, d ∈ l → is_Some (active !! d)) →
    (l ≫= λ d, match active !! d with Some bytes => [(d, bytes)] | None => [] end).*1 = l) as H.
  { induction l as [|d l IH]; intros Hl; [done|]. cbn. rewrite fmap_app.
    destruct (Hl d ltac:(by left)) as [bs ->]. cbn. f_equal. apply IH. intros d' Hd'. apply Hl.
    by right. }
  apply H. intros d Hd. rewrite sort_digests_perm in Hd.
  apply list_elem_of_fmap in Hd as ([d' bs] & -> & Hin%elem_of_map_to_list). by exists bs.
Qed.
Lemma sorted_files_elem d bs : (d, bs) ∈ sorted_files active ↔ active !! d = Some bs.
Proof.
  unfold sorted_files. rewrite list_elem_of_bind. split.
  - intros (d' & Hin & Hd'). destruct (active !! d') eqn:E; [|by apply not_elem_of_nil in Hin].
    apply list_elem_of_singleton in Hin. naive_solver.
  - intros Hd. exists d. rewrite Hd. split; [by apply list_elem_of_singleton|].
    rewrite sort_digests_perm. apply list_elem_of_fmap. exists (d, bs). split; [done|].
    by apply elem_of_map_to_list.
Qed.

(** The recovery succeeds; what it found is all there is. *)
Record recovered (s : Recovered) : Prop := {
  re_catalog : catalog_ok (rc_catalog s);
  re_records : cat_records (rc_catalog s) = m;
  re_available : cat_unavailable (rc_catalog s) = false;
  re_maximum : ∀ d e, entry_at active d = Some e → is_tombstone e = false →
    entry_sequence e ≤ rc_maximum_sequence s;
  re_range : 0 ≤ rc_maximum_sequence s ≤ top;
  re_deletions : ∀ d, d ∈ rc_expired_deletions s ↔
    ∃ e, entry_at active d = Some e ∧ is_expired_deletion e = true;
  re_deletions_length : (length (rc_expired_deletions s) ≤ 1)%nat;
  re_acknowledgement : match rc_acknowledgement s with
    | None => ∀ d e, entry_at active d = Some e → is_acknowledgement_commit e = false
    | Some (t, encoded, q) => ∃ d e, entry_at active d = Some e
        ∧ is_acknowledgement_commit e = true
        ∧ build_acknowledged_tombstone_record_from_witness e = Ok t
        ∧ serialize_reserved_record t MAX_ACKNOWLEDGED_TOMBSTONE_BYTES = Ok encoded
    end;
  re_pending : check_pending s g = Ok tt;
}.

Lemma progress_recovered s D :
  progress s D → (∀ d, d ∈ D ↔ is_Some (active !! d)) → recovered s.
Proof.
  intros P HD.
  assert (∀ d e, entry_at active d = Some e → seen D e) as Hall.
  { intros d e He. exists d. split; [|done]. apply HD.
    apply entry_at_Some in He as (bs & Hbs & _). by exists bs. }
  assert (rc_maximum_sequence s ≤ top) as Hrange.
  { pose proof (pr_maximum_range s D P). pose proof (st_top _ _ _ _ St).
    pose proof (st_generation _ _ _ _ St). lia. }
  pose proof (pr_deletion s D P) as Hdel. pose proof (pr_acknowledgement s D P) as Hack.
  assert (∀ d e, entry_at active d = Some e → is_witness e = true →
            entry_sequence e = top ∧ rc_maximum_sequence s = top) as Htop.
  { intros d e He Hw. pose proof (st_witness _ _ _ _ St d e He Hw) as Hs. split; [done|].
    pose proof (pr_maximum s D P e (Hall d e He) (witness_live e Hw)). lia. }
  split.
  - apply (pr_catalog s D P).
  - apply map_eq. intros d. rewrite (pr_records s D P). case_decide as Hin; [done|].
    symmetry. apply (st_none _ _ _ _ St). apply eq_None_not_Some. by rewrite <-HD.
  - apply (pr_available s D P).
  - intros d e He. apply (pr_maximum s D P). eauto.
  - pose proof (pr_maximum_range s D P). lia.
  - intros d. destruct (rc_expired_deletion_sequence s) as [q|].
    + destruct Hdel as (d0 & e0 & Hd0 & He0 & Hx & _ & ->). rewrite list_elem_of_singleton. split.
      * intros ->. eauto.
      * intros (e & He & Hx'). symmetry.
        apply (one_witness _ _ _ _ d0 d e0 e St); try done; unfold is_witness; rewrite ?Hx, ?Hx'; done.
    + destruct Hdel as [-> Hno]. split; [by intros ?%not_elem_of_nil|].
      intros (e & He & Hx). by rewrite (Hno e (Hall d e He)) in Hx.
  - destruct (rc_expired_deletion_sequence s).
    + destruct Hdel as (? & ? & _ & _ & _ & _ & ->). done.
    + destruct Hdel as [-> _]. cbn. lia.
  - destruct (rc_acknowledgement s) as [[[t enc] q]|]; [naive_solver|]. eauto.
  - unfold check_pending, pending_sequence.
    assert (∀ q, q = top → rc_maximum_sequence s = top →
      negb ((q =? g) || bool_decide (u64_checked_add g 1 = Some q))
        || negb (q =? rc_maximum_sequence s) = false) as Hq.
    { intros q -> ->. rewrite Z.eqb_refl. pose proof (st_max _ _ _ _ St).
      destruct (st_top _ _ _ _ St) as [->| ->]; [by rewrite Z.eqb_refl|].
      rewrite bool_decide_true by (by apply u64_checked_add_ok). by rewrite orb_true_r. }
    destruct (rc_expired_deletion_sequence s) as [q|], (rc_acknowledgement s) as [[[t enc] q']|];
      cbn.
    + exfalso. destruct Hdel as (d1 & e1 & _ & He1 & Hx1 & _).
      destruct Hack as (d2 & e2 & _ & He2 & Hx2 & _).
      assert (d1 = d2) as ->.
      { apply (one_witness _ _ _ _ d1 d2 e1 e2 St He1 He2); unfold is_witness;
          rewrite ?Hx1, ?Hx2, ?orb_true_r; done. }
      assert (e1 = e2) as -> by congruence.
      unfold is_expired_deletion, is_acknowledgement_commit in *.
      by destruct (row_lifecycle (ce_record e2)).
    + destruct Hdel as (d1 & e1 & _ & He1 & Hx1 & Hs1 & _).
      destruct (Htop d1 e1 He1) as [? ?]; [unfold is_witness; by rewrite Hx1|].
      by rewrite Hq by congruence.
    + destruct Hack as (d1 & e1 & _ & He1 & Hx1 & Hs1 & _).
      destruct (Htop d1 e1 He1) as [? ?]; [unfold is_witness; by rewrite Hx1, orb_true_r|].
      by rewrite Hq by congruence.
    + done.
Qed.

Lemma recover_contents : ∃ s, recover_existing_catalog active = Ok s ∧ recovered s.
Proof.
  destruct (recover_rows_progress recovered_default [] (sorted_files active) progress_start)
    as (s & Hs & P).
  { rewrite sorted_files_fst, sort_digests_perm. apply NoDup_fst_map_to_list. }
  { intros d bs Hin. split; [apply not_elem_of_nil|by apply sorted_files_elem]. }
  exists s. split; [done|]. apply (progress_recovered s _ P). intros d.
  rewrite app_nil_r, list_elem_of_In, <-List.in_rev, <-list_elem_of_In. split.
  - intros ([d' bs] & -> & Hin%sorted_files_elem)%list_elem_of_fmap. by exists bs.
  - intros [bs Hbs%sorted_files_elem]. apply list_elem_of_fmap. by exists (d, bs).
Qed.
End Scan.
End RecoveryProps.
