(* ===== verification/ReceiptMachine.v ===== *)
(** * Receipts: the abstract machine

    What the ledger promises of its contents, as steps on a map of rows: a
    receipt is admitted, advances one version at a time along its lifecycle,
    and is retired once its retention is over.  [ReceiptSafety] shows that
    the operations of the store, under every failure of the environment, make
    such steps and nothing else.

    The machine covers reservations, direct terminals and their tombstones,
    and the rows of tasks: promised, handed off, staged, retained by the
    receipt, ended.  A task row whose hand-off was completed is removed. *)

From Stdlib Require Import ZArith Lia String.
From stdpp Require Import base gmap list option numbers countable strings relations.
From S2P Require Import Prelude Contract ResultSize Redaction ReceiptLedger ReceiptStates.
From S2P Require Import ReceiptRows ReceiptCatalog ReceiptCatalogFacts.

Local Open Scope Z_scope.

Section Machine.
Context {V : Type}.

Notation Entry := (CatalogEntry V).
Notation Row := (StoredActiveReceiptV1 V).
Notation Lifecycle := (StoredActiveLifecycleV1 V).
Implicit Types (m : gmap digest Entry) (d : digest) (e p : Entry).

(** Where a reservation or a cancellation starts. *)
Inductive lifecycle_starts : Lifecycle → Prop :=
| starts_reserved cutoff :
    lifecycle_starts (LReservedUnbound (accepted_epoch_ms cutoff) cutoff false)
| starts_cancelled at_ : lifecycle_starts (LCancelReserved at_ None true).

(** One version to the next. *)
Inductive lifecycle_advances : Lifecycle → Lifecycle → Prop :=
| adv_submit at_ expires cancel cutoff :
    lifecycle_advances (LCancelReserved at_ expires cancel)
      (LReservedUnbound (accepted_epoch_ms cutoff) cutoff true)
| adv_cancel_unbound at_ cutoff :
    lifecycle_advances (LReservedUnbound at_ cutoff false) (LReservedUnbound at_ cutoff true)
| adv_cancel_bound at_ cutoff workspace :
    lifecycle_advances (LReservedActorBound at_ cutoff workspace false)
      (LReservedActorBound at_ cutoff workspace true)
| adv_cancel_begun at_ cutoff workspace :
    lifecycle_advances (LReservedBegun at_ cutoff workspace false)
      (LReservedBegun at_ cutoff workspace true)
| adv_bind at_ cutoff workspace :
    lifecycle_advances (LReservedUnbound at_ cutoff false)
      (LReservedActorBound at_ cutoff workspace false)
| adv_begin at_ cutoff workspace :
    lifecycle_advances (LReservedActorBound at_ cutoff workspace false)
      (LReservedBegun at_ cutoff workspace false)
| adv_finish_unbound at_ cutoff cancel epoch terminal :
    lifecycle_advances (LReservedUnbound at_ cutoff cancel)
      (LDirectTerminalUnacked cutoff epoch terminal None)
| adv_finish_bound at_ cutoff workspace cancel epoch terminal :
    lifecycle_advances (LReservedActorBound at_ cutoff workspace cancel)
      (LDirectTerminalUnacked cutoff epoch terminal None)
| adv_finish_begun at_ cutoff workspace cancel epoch terminal :
    lifecycle_advances (LReservedBegun at_ cutoff workspace cancel)
      (LDirectTerminalUnacked cutoff epoch terminal None)
| adv_promise at_ cutoff cancel task :
    lifecycle_advances (LReservedUnbound at_ cutoff cancel) (LTaskPromisedUnbound cutoff task cancel)
| adv_bind_promise cutoff task workspace link cancel :
    lifecycle_advances (LTaskPromisedUnbound cutoff task cancel)
      (LTaskPromisedActorBound cutoff task workspace link cancel)
| adv_handoff_bound at_ cutoff workspace cancel task link :
    lifecycle_advances (LReservedActorBound at_ cutoff workspace cancel)
      (LTaskHandoffActorBound cutoff task workspace link NotBegun cancel StageNone)
| adv_handoff_begun at_ cutoff workspace cancel task link :
    lifecycle_advances (LReservedBegun at_ cutoff workspace cancel)
      (LTaskHandoffActorBound cutoff task workspace link AttemptBegun cancel StageNone)
| adv_handoff_promised cutoff promised workspace promised_link cancel task link :
    lifecycle_advances (LTaskPromisedActorBound cutoff promised workspace promised_link cancel)
      (LTaskHandoffActorBound cutoff task workspace link NotBegun cancel StageNone)
| adv_cancel_promise cutoff task :
    lifecycle_advances (LTaskPromisedUnbound cutoff task false) (LTaskPromisedUnbound cutoff task true)
| adv_cancel_promise_bound cutoff task workspace link :
    lifecycle_advances (LTaskPromisedActorBound cutoff task workspace link false)
      (LTaskPromisedActorBound cutoff task workspace link true)
| adv_cancel_handoff cutoff task workspace link phase stage :
    lifecycle_advances (LTaskHandoffActorBound cutoff task workspace link phase false stage)
      (LTaskHandoffActorBound cutoff task workspace link phase true stage)
| adv_stage cutoff task workspace link phase cancel epoch terminal :
    lifecycle_advances (LTaskHandoffActorBound cutoff task workspace link phase cancel StageNone)
      (LTaskHandoffActorBound cutoff task workspace link phase cancel
         (StageStaged epoch terminal None))
| adv_retain cutoff task workspace link cancel stage capacity :
    lifecycle_advances (LTaskHandoffActorBound cutoff task workspace link AttemptBegun cancel stage)
      (LTaskReceiptOwnedActorBound cutoff task workspace link capacity cancel)
| adv_end_promise cutoff task cancel ended epoch terminal :
    lifecycle_advances (LTaskPromisedUnbound cutoff task cancel)
      (LTaskTerminalReceiptBacked ended epoch terminal None cancel)
| adv_end_promise_bound cutoff task workspace link cancel ended epoch terminal :
    lifecycle_advances (LTaskPromisedActorBound cutoff task workspace link cancel)
      (LTaskTerminalReceiptBacked ended epoch terminal None cancel)
| adv_end_handoff cutoff task workspace link cancel ended epoch terminal :
    lifecycle_advances (LTaskHandoffActorBound cutoff task workspace link NotBegun cancel StageNone)
      (LTaskTerminalReceiptBacked ended epoch terminal None cancel)
| adv_end_staged cutoff task workspace link phase cancel ended epoch terminal body :
    lifecycle_advances
      (LTaskHandoffActorBound cutoff task workspace link phase cancel
         (StageStaged epoch terminal body))
      (LTaskTerminalReceiptBacked ended epoch terminal None cancel)
| adv_end_owned cutoff task workspace link capacity cancel ended epoch terminal :
    lifecycle_advances (LTaskReceiptOwnedActorBound cutoff task workspace link capacity cancel)
      (LTaskTerminalReceiptBacked ended epoch terminal None cancel)
| adv_acknowledge cutoff epoch terminal at_ body :
    lifecycle_advances (LDirectTerminalUnacked cutoff epoch terminal body)
      (LAcknowledgedTombstone terminal at_).

Record advances (p e : Entry) : Prop := {
  av_key : row_key (ce_record e) = row_key (ce_record p);
  av_digest : entry_digest e = entry_digest p;
  av_version : row_record_version (ce_record e) = row_record_version (ce_record p) + 1;
  av_sequence : is_tombstone e = true ∨ entry_sequence p < entry_sequence e;
  av_lifecycle : lifecycle_advances (row_lifecycle (ce_record p)) (row_lifecycle (ce_record e));
}.

Definition retention_over (e : Entry) (now : Z) : bool :=
  entry_is_expired_tombstone e now || entry_is_expired_direct_terminal e now.

(** A row whose task may be handed over to its own store. *)
Definition handed_over (l : Lifecycle) : bool :=
  match l with
  | LTaskPromisedActorBound _ _ _ _ _ | LTaskHandoffActorBound _ _ _ _ _ _ _ => true
  | _ => false
  end.

(** What happened to which receipt: a row it advanced to, a time it was
    retired at, or that its hand-off was completed. *)
Inductive event :=
| Admits (d : digest)
| Advanced (d : digest) (e : Entry)
| Retired (d : digest) (now : Z)
| Completed (d : digest).

Definition removes (d : digest) (ev : event) : Prop :=
  match ev with Retired d' _ | Completed d' => d' = d | _ => False end.

Inductive receipt_step : event → gmap digest Entry → gmap digest Entry → Prop :=
| step_admit m e :
    m !! entry_digest e = None →
    row_record_version (ce_record e) = version_initial →
    lifecycle_starts (row_lifecycle (ce_record e)) →
    (∀ d' e', m !! d' = Some e' →
       entry_invocation e' ≠ entry_invocation e ∧ entry_task e' ≠ entry_task e) →
    receipt_step (Admits (entry_digest e)) m (<[entry_digest e := e]> m)
| step_advance m d p e :
    m !! d = Some p → advances p e →
    receipt_step (Advanced d e) m (<[d := e]> m)
| step_retire m d p now :
    m !! d = Some p → retention_over p now = true →
    receipt_step (Retired d now) m (delete d m)
| step_complete m d p :
    m !! d = Some p → handed_over (row_lifecycle (ce_record p)) = true →
    receipt_step (Completed d) m (delete d m).

(** A sequence of steps. *)
Inductive receipt_trace : list event → gmap digest Entry → gmap digest Entry → Prop :=
| trace_nil m : receipt_trace [] m m
| trace_cons ev evs m1 m2 m3 :
    receipt_step ev m1 m2 → receipt_trace evs m2 m3 → receipt_trace (ev :: evs) m1 m3.

Lemma trace_app evs evs' m1 m2 m3 :
  receipt_trace evs m1 m2 → receipt_trace evs' m2 m3 → receipt_trace (evs ++ evs') m1 m3.
Proof. induction 1; intros; cbn; [done|]. econstructor; eauto. Qed.
Lemma trace_one ev m1 m2 : receipt_step ev m1 m2 → receipt_trace [ev] m1 m2.
Proof. intros. econstructor; [done|constructor]. Qed.

(** The times of an event lie in a window: acknowledgements from its start
    on, retirements before its end. *)
Definition within (T : Z * Z) (ev : event) : Prop :=
  match ev with
  | Admits _ => True
  | Advanced _ e =>
      match row_lifecycle (ce_record e) with
      | LAcknowledgedTombstone _ at_ => T.1 ≤ at_
      | _ => True
      end
  | Retired _ now => now < T.2
  | Completed _ => True
  end.

(** ** Traces of one receipt *)

(** A step of another receipt, or of this one. *)
Lemma step_row ev m m' d p :
  receipt_step ev m m' → m !! d = Some p → ¬ removes d ev →
  m' !! d = Some p ∨ ∃ e, ev = Advanced d e ∧ m' !! d = Some e ∧ advances p e.
Proof.
  intros Hs Hd Hnr.
  inversion Hs as [? e Hn _ _ _|? d' p' e Hp Ha|? d' p' now Hp _|? d' p' Hp _]; subst.
  - left. rewrite lookup_insert_ne; congruence.
  - destruct (decide (d' = d)) as [->|Hne].
    + right. exists e. rewrite lookup_insert_eq. naive_solver.
    + left. by rewrite lookup_insert_ne.
  - left. by rewrite lookup_delete_ne.
  - left. by rewrite lookup_delete_ne.
Qed.

(** The digest of the terminal a row holds, acknowledged or not. *)
Definition terminal_of (e : Entry) : option digest :=
  match row_lifecycle (ce_record e) with
  | LDirectTerminalUnacked _ _ terminal _ => Some terminal
  | LAcknowledgedTombstone terminal _ => Some terminal
  | LTaskTerminalReceiptBacked _ _ terminal _ _ => Some terminal
  | _ => None
  end.

(** As long as it is not retired, a receipt that has a terminal keeps that
    terminal, whatever else happens to the ledger. *)
Lemma trace_keeps_terminal evs m m' d p terminal :
  receipt_trace evs m m' → Forall (λ ev, ¬ removes d ev) evs →
  m !! d = Some p → terminal_of p = Some terminal →
  ∃ e, m' !! d = Some e ∧ terminal_of e = Some terminal.
Proof.
  intros Htr. revert p. induction Htr as [m|ev evs m1 m2 m3 Hs _ IH]; intros p Hnr Hp Ht; [eauto|].
  apply Forall_cons_1 in Hnr as [Hev Hevs].
  destruct (step_row ev m1 m2 d p Hs Hp Hev) as [Hp2|(e & _ & He & Ha)]; [by eapply IH|].
  apply (IH e Hevs He). pose proof (av_lifecycle p e Ha) as Hl. unfold terminal_of in *.
  destruct Hl; naive_solver.
Qed.

(** A terminal recorded at [epoch]: kept as a direct terminal, or as a
    tombstone acknowledged no earlier. *)
Definition keeps_terminal (epoch : Z) (terminal : digest) (e : Entry) : Prop :=
  match row_lifecycle (ce_record e) with
  | LDirectTerminalUnacked _ at_ t _ => at_ = epoch ∧ t = terminal
  | LAcknowledgedTombstone t at_ => epoch ≤ at_ ∧ t = terminal
  | _ => False
  end.
Lemma keeps_terminal_retained (T : Z * Z) epoch terminal e now :
  keeps_terminal epoch terminal e → T.2 ≤ epoch + ACKNOWLEDGED_TOMBSTONE_TTL_MS → now < T.2 →
  retention_over e now = false.
Proof.
  intros He HT Hnow.
  unfold keeps_terminal, retention_over, entry_is_expired_tombstone, entry_is_expired_direct_terminal,
    reached, is_some_and, u64_checked_add, DIRECT_TERMINAL_RETENTION_MS,
    ACKNOWLEDGED_TOMBSTONE_TTL_MS in *.
  destruct (row_lifecycle (ce_record e)); try done; destruct He as [He _];
    destruct (_ <=? u64_max); cbn; lia.
Qed.
(** Within the retention of a tombstone, whatever happens to the ledger, a
    receipt that has a terminal keeps it. *)
Lemma window_keeps_terminal (T : Z * Z) evs m m' d p epoch terminal :
  receipt_trace evs m m' → Forall (within T) evs → T.1 = epoch →
  T.2 ≤ epoch + ACKNOWLEDGED_TOMBSTONE_TTL_MS →
  m !! d = Some p → keeps_terminal epoch terminal p →
  ∃ e, m' !! d = Some e ∧ keeps_terminal epoch terminal e.
Proof.
  intros Htr Hw H1 H2. revert p. induction Htr as [m|ev evs m1 m2 m3 Hs _ IH]; intros p Hp Ht; [eauto|].
  apply Forall_cons_1 in Hw as [Hev Hevs].
  assert (¬ removes d ev) as Hnr.
  { intros Hrm. inversion Hs as [| |? ? q now Hq Hr|? ? q Hq Hr]; subst; cbn in Hrm; try done; subst;
      rewrite Hp in Hq; injection Hq as <-.
    - by rewrite (keeps_terminal_retained T T.1 terminal p now Ht H2 Hev) in Hr.
    - unfold keeps_terminal in Ht. by destruct (row_lifecycle (ce_record p)). }
  destruct (step_row ev m1 m2 d p Hs Hp Hnr) as [Hp2|(e & -> & He & Ha)]; [by eapply (IH Hevs p)|].
  apply (IH Hevs e He). pose proof (av_lifecycle p e Ha) as Hl. unfold keeps_terminal in *.
  cbn in Hev. destruct Hl; try done. destruct Ht as [_ ->]. split; [lia|done].
Qed.

(** A task that ended at [epoch], its terminal in the receipt. *)
Definition ended_with (epoch : Z) (terminal : digest) (e : Entry) : Prop :=
  match row_lifecycle (ce_record e) with
  | LTaskTerminalReceiptBacked _ at_ t _ _ => at_ = epoch ∧ t = terminal
  | _ => False
  end.
(** The machine has no step for the receipt of a task that has ended. *)
Lemma ended_stays evs m m' d p epoch terminal :
  receipt_trace evs m m' → m !! d = Some p → ended_with epoch terminal p → m' !! d = Some p.
Proof.
  intros Htr Hp He. induction Htr as [m|ev evs m1 m2 m3 Hs _ IH]; [done|]. apply IH.
  assert (¬ removes d ev) as Hnr.
  { intros Hrm. inversion Hs as [| |? ? q now Hq Hr|? ? q Hq Hr]; subst; cbn in Hrm; try done; subst;
      rewrite Hp in Hq; injection Hq as <-;
      unfold ended_with, retention_over, entry_is_expired_tombstone,
        entry_is_expired_direct_terminal, handed_over in *;
      by destruct (row_lifecycle (ce_record p)). }
  destruct (step_row ev m1 m2 d p Hs Hp Hnr) as [?|(e & _ & _ & Ha)]; [done|].
  pose proof (av_lifecycle p e Ha) as Hl. unfold ended_with in He.
  destruct (row_lifecycle (ce_record p)); try done. inversion Hl.
Qed.

(** The stage a receipt of the machine has reached, and the versions it may
    have there; a cancellation counts as one. *)
Definition versions_of (l : Lifecycle) (v : Z) : Prop :=
  match l with
  | LCancelReserved _ _ _ => v = 1
  | LReservedUnbound _ _ cancel => v = 1 + flag cancel
  | LReservedActorBound _ _ _ cancel => v = 2 + flag cancel
  | LReservedBegun _ _ _ cancel => v = 3 + flag cancel
  | LTaskPromisedUnbound _ _ cancel => v = 2 + flag cancel
  | LTaskPromisedActorBound _ _ _ _ cancel => v = 3 + flag cancel
  | LTaskHandoffActorBound _ _ _ _ NotBegun cancel StageNone => 3 + flag cancel ≤ v ≤ 4 + flag cancel
  | LTaskHandoffActorBound _ _ _ _ AttemptBegun cancel StageNone => v = 4 + flag cancel
  | LTaskHandoffActorBound _ _ _ _ _ cancel (StageStaged _ _ _) =>
      4 + flag cancel ≤ v ≤ 5 + flag cancel
  | LTaskReceiptOwnedActorBound _ _ _ _ _ cancel => 5 + flag cancel ≤ v ≤ 6 + flag cancel
  | LDirectTerminalUnacked _ _ _ _ => 2 ≤ v ≤ 5
  | LTaskTerminalReceiptBacked _ _ _ _ cancel => 3 + flag cancel ≤ v ≤ 7 + flag cancel
  | LAcknowledgedTombstone _ _ => 3 ≤ v ≤ 6
  | _ => False
  end.
Definition versions_ok (m : gmap digest Entry) : Prop :=
  ∀ d e, m !! d = Some e →
    versions_of (row_lifecycle (ce_record e)) (row_record_version (ce_record e)).

Lemma advances_versions p e :
  advances p e →
  versions_of (row_lifecycle (ce_record p)) (row_record_version (ce_record p)) →
  versions_of (row_lifecycle (ce_record e)) (row_record_version (ce_record e)).
Proof.
  intros [_ _ Hv _ Hl] Hp. rewrite Hv. revert Hp.
  destruct Hl; cbn; repeat match goal with
    | b : bool |- _ => destruct b
    | phase : AttemptPhase |- _ => destruct phase
    | stage : StoredHandoffTerminalStageV1 _ |- _ => destruct stage
    end; cbn; lia.
Qed.

Lemma step_versions ev m m' : receipt_step ev m m' → versions_ok m → versions_ok m'.
Proof.
  intros Hs H0.
  inversion Hs as [? e Hn Hv Hst _|? d' p' e Hp Ha|? d' p' now Hp _|? d' p' Hp _]; subst;
    intros d x Hx.
  - apply lookup_insert_Some in Hx as [[<- <-]|[_ Hx]]; [|eauto]. rewrite Hv. by destruct Hst.
  - apply lookup_insert_Some in Hx as [[<- <-]|[_ Hx]]; [|eauto].
    apply (advances_versions p' e Ha). eauto.
  - apply lookup_delete_Some in Hx as [_ Hx]. eauto.
  - apply lookup_delete_Some in Hx as [_ Hx]. eauto.
Qed.
(** The version of every receipt tells the stage it has reached, and never
    exceeds eight: versions cannot overflow. *)
Lemma trace_versions evs m m' : receipt_trace evs m m' → versions_ok m → versions_ok m'.
Proof. induction 1; eauto using step_versions. Qed.
Lemma versions_delete m d : versions_ok m → versions_ok (delete d m).
Proof. intros H d' e [_ He]%lookup_delete_Some. eauto. Qed.
Lemma versions_empty : versions_ok ∅.
Proof. by intros d e Hd. Qed.
End Machine.

Arguments event : clear implicits.
Arguments Admits {V}.
Arguments Advanced {V}.
Arguments Retired {V}.
Arguments Completed {V}.
