(* ===== verification/ReceiptHoare.v ===== *)
(** * Receipt store: reasoning about effects

    Triples over the store monad: what holds after a value, after an error,
    and of the disk when the process panics or stops.  Rules for the monad,
    for the environment's answers, the round trip of the generation file, and
    the triples of the write sequences that the operations share. *)

From Stdlib Require Import ZArith Lia String.
From stdpp Require Import base gmap list option numbers countable strings.
From S2P Require Import Prelude Contract ResultSize Redaction ReceiptLedger ReceiptStates ReceiptRows ReceiptCatalog.
From S2P Require Import ReceiptRecords ReceiptStore ReceiptOps ReceiptTerminals.

Local Open Scope Z_scope.

(** ** Decimal text *)

Definition digits_ok (ds : list Z) : Prop := Forall (λ b, 48 ≤ b ≤ 57) ds.

Lemma decimal_value_app a b :
  decimal_value (a ++ b) = foldl (λ n b, 10 * n + (b - 48)) (decimal_value a) b.
Proof. unfold decimal_value. apply foldl_app. Qed.

Lemma decimal_digits_spec fuel n acc :
  0 ≤ n < 10 ^ Z.of_nat fuel → (1 ≤ fuel)%nat → ∃ ds,
    decimal_digits fuel n acc = ds ++ acc ∧ digits_ok ds ∧ decimal_value ds = n
    ∧ (1 ≤ length ds ≤ fuel)%nat ∧ (∀ ds', ds = 48 :: ds' → ds' = []).
Proof.
  revert n acc. induction fuel as [|fuel IH]; intros n acc Hn Hf; [lia|].
  cbn [decimal_digits]. destruct (Z.ltb_spec n 10) as [Hlt|Hge].
  - exists [48 + n mod 10]. rewrite Z.mod_small by lia. split_and!; [done| | |cbn; lia..|].
    + apply Forall_singleton. lia.
    + cbn. lia.
    + by intros ds' [= _ <-].
  - destruct (Nat.eq_dec fuel 0%nat) as [->|Hf0]; [cbn in Hn; lia|].
    rewrite Nat2Z.inj_succ, Z.pow_succ_r in Hn by lia.
    destruct (IH (n / 10) ((48 + n mod 10) :: acc)) as (ds & Hds & Hok & Hval & Hlen & Hz).
    { split; [apply Z.div_pos; lia|]. apply Z.div_lt_upper_bound; lia. }
    { lia. }
    pose proof (Z.mod_pos_bound n 10). pose proof (Z.div_mod n 10).
    exists (ds ++ [48 + n mod 10]). split_and!.
    + rewrite Hds. by rewrite <-app_assoc.
    + apply Forall_app. split; [done|]. apply Forall_singleton. lia.
    + rewrite decimal_value_app, Hval. cbn. lia.
    + rewrite length_app. cbn. lia.
    + rewrite length_app. cbn. lia.
    + intros ds' Heq. destruct ds as [|x ds]; [cbn in Hlen; lia|]. injection Heq as -> Heq.
      assert (ds = []) as -> by (by apply Hz). cbn in Hval. lia.
Qed.

Lemma u64_to_string_spec n :
  0 ≤ n ≤ u64_max →
  digits_ok (u64_to_string n) ∧ decimal_value (u64_to_string n) = n
  ∧ (1 ≤ length (u64_to_string n) ≤ 20)%nat
  ∧ (∀ ds, u64_to_string n = 48 :: ds → ds = []).
Proof.
  intros Hn. assert (0 ≤ n < 10 ^ Z.of_nat 20) as Hb.
  { assert (10 ^ Z.of_nat 20 = 100000000000000000000) as -> by (vm_compute; reflexivity).
    unfold u64_max in Hn. lia. }
  unfold u64_to_string. remember 20%nat as fuel eqn:Hfuel.
  destruct (decimal_digits_spec fuel n []) as (ds & Hds & H); [done|lia|].
  rewrite Hds, app_nil_r. exact H.
Qed.

(** The generation file reads back as it was written. *)
Theorem generation_round_trip g :
  0 ≤ g ≤ u64_max → parse_generation (generation_bytes g) = Ok g.
Proof.
  intros Hg. destruct (u64_to_string_spec g Hg) as (Hok & Hval & Hlen & Hz).
  unfold parse_generation, generation_bytes. rewrite List.rev_app_distr. cbn [List.rev app].
  rewrite List.rev_involutive, Hval. unfold blen. rewrite length_app. cbn [length].
  destruct (Z.ltb_spec MAX_GENERATION_FILE_BYTES (Z.of_nat (length (u64_to_string g) + 1))) as [Hlt|_].
  { unfold MAX_GENERATION_FILE_BYTES in Hlt. lia. }
  assert (forallb is_ascii_digit (u64_to_string g) = true) as ->.
  { apply forallb_forall. intros x Hx. apply list_elem_of_In in Hx.
    unfold digits_ok in Hok. rewrite Forall_forall in Hok. specialize (Hok x Hx). unfold is_ascii_digit, in_range. lia. }
  destruct (u64_to_string g) as [|x ds] eqn:E; [cbn in Hlen; lia|]. cbn [orb negb].
  assert ((1 <? Z.of_nat (length (x :: ds))) && match x with 48 => true | _ => false end = false)
    as Hlead.
  { destruct (Z.eq_dec x 48) as [->|Hne].
    - rewrite (Hz ds eq_refl). done.
    - destruct (match x with 48 => true | _ => false end) eqn:Hm; [|apply andb_false_r].
      exfalso. apply Hne. destruct x as [|p|]; try done.
      repeat (destruct p as [p|p|]; try done). }
  change (match x :: ds with 48 :: _ => true | _ => false end)
    with (match x with 48 => true | _ => false end).
  rewrite Hlead. destruct (Z.ltb_spec u64_max g); [lia|done].
Qed.

(** ** Triples *)

Section Triples.
Context {C : ReceiptCodec} {R : RowCodec C}.

Notation Pred := (World → Prop).

(** From [P], [m] answers with [Q] or refuses with [E]; where it panics or
    stops, [S] holds. *)
Definition triple {A} (S P : Pred) (m : M A) (Q : A → Pred) (E : ReceiptLedgerError → Pred)
  : Prop :=
  ∀ w, P w →
    match m w with
    | (w', Done a) => Q a w'
    | (w', Refused e) => E e w'
    | (w', Panics) | (w', Stopped) => S w'
    end.

Section Rules.
Context (S : Pred).
Context {A B : Type}.
Implicit Types (P : Pred) (E : ReceiptLedgerError → Pred).

Lemma triple_ret P E (a : A) (Q : A → Pred) :
  (∀ w, P w → Q a w) → triple S P (mret a) Q E.
Proof. intros H w Hw. cbn. by apply H. Qed.
Lemma triple_bind P E (m : M A) (f : A → M B) (Q : A → Pred) (Q' : B → Pred) :
  triple S P m Q E → (∀ a, triple S (Q a) (f a) Q' E) → triple S P (m ≫= f) Q' E.
Proof.
  intros Hm Hf w Hw. specialize (Hm w Hw). unfold mbind, M_bind.
  destruct (m w) as [w' [a|e| |]]; [|done..]. by apply Hf.
Qed.
Lemma triple_conseq P P' E E' (m : M A) (Q Q' : A → Pred) :
  triple S P' m Q' E' → (∀ w, P w → P' w) → (∀ a w, Q' a w → Q a w) →
  (∀ e w, E' e w → E e w) → triple S P m Q E.
Proof.
  intros Hm HP HQ HE w Hw. specialize (Hm w (HP w Hw)).
  destruct (m w) as [w' [a|e| |]]; eauto.
Qed.
Lemma triple_refuse P E e (Q : A → Pred) : (∀ w, P w → E e w) → triple S P (refuse e) Q E.
Proof. intros H w Hw. cbn. by apply H. Qed.
Lemma triple_panic P E (Q : A → Pred) : (∀ w, P w → S w) → triple S P panic Q E.
Proof. intros H w Hw. cbn. by apply H. Qed.
Lemma triple_lift P E (r : result A ReceiptLedgerError) (Q : A → Pred) :
  (∀ a w, r = Ok a → P w → Q a w) → (∀ e w, r = Err e → P w → E e w) →
  triple S P (lift r) Q E.
Proof. intros HQ HE w Hw. destruct r; cbn; eauto. Qed.
Lemma triple_attempt P E E' (m : M A) (Q : A → Pred) :
  triple S P m Q E' →
  triple S P (attempt m) (λ r, match r with Ok a => Q a | Err e => E' e end) E.
Proof.
  intros Hm w Hw. specialize (Hm w Hw). unfold attempt.
  by destruct (m w) as [w' [a|e| |]].
Qed.
Lemma triple_gets P E (f : World → A) (Q : A → Pred) :
  (∀ w, P w → Q (f w) w) → triple S P (gets f) Q E.
Proof. intros H w Hw. cbn. by apply H. Qed.
Lemma triple_modify P E (f : World → World) (Q : Pred) :
  (∀ w, P w → Q (f w)) → triple S P (modify f) (λ _, Q) E.
Proof. intros H w Hw. cbn. by apply H. Qed.
(** A pure hypothesis of the precondition. *)
Lemma triple_pure (φ : Prop) P E (m : M A) (Q : A → Pred) :
  (φ → triple S P m Q E) → triple S (λ w, φ ∧ P w) m Q E.
Proof. intros H w [Hφ Hw]. by apply H. Qed.
Lemma triple_exists {X} (P : X → Pred) E (m : M A) (Q : A → Pred) :
  (∀ x, triple S (P x) m Q E) → triple S (λ w, ∃ x, P x w) m Q E.
Proof. intros H w [x Hw]. by apply (H x). Qed.
End Rules.

(** ** Quiet steps: they only take answers *)

Definition same_store (w w' : World) : Prop :=
  w_catalog w' = w_catalog w ∧ w_active w' = w_active w ∧ w_generation w' = w_generation w
  ∧ w_highwater w' = w_highwater w.
Definition stable (P : Pred) : Prop := ∀ w w', same_store w w' → P w → P w'.
Definition quiet {A} (m : M A) : Prop := ∀ w, same_store w (m w).1.

Lemma same_store_refl w : same_store w w.
Proof. done. Qed.
Lemma same_store_trans w1 w2 w3 : same_store w1 w2 → same_store w2 w3 → same_store w1 w3.
Proof. unfold same_store. naive_solver congruence. Qed.

Lemma quiet_ret {A} (a : A) : quiet (mret a).
Proof. intros w. done. Qed.
Lemma quiet_refuse {A} e : quiet (refuse (A:=A) e).
Proof. intros w. done. Qed.
Lemma quiet_lift {A} (r : result A ReceiptLedgerError) : quiet (lift r).
Proof. destruct r; [apply quiet_ret|apply quiet_refuse]. Qed.
Lemma quiet_gets {A} (f : World → A) : quiet (gets f).
Proof. intros w. done. Qed.
Lemma quiet_bind {A B} (m : M A) (f : A → M B) : quiet m → (∀ a, quiet (f a)) → quiet (m ≫= f).
Proof.
  intros Hm Hf w. specialize (Hm w). unfold mbind, M_bind.
  destruct (m w) as [w' [a|e| |]]; [|done..]. apply (same_store_trans _ _ _ Hm), Hf.
Qed.
Lemma quiet_attempt {A} (m : M A) : quiet m → quiet (attempt m).
Proof. intros Hm w. specialize (Hm w). unfold attempt. by destruct (m w) as [w' [a|e| |]]. Qed.
Lemma quiet_ask : quiet ask.
Proof. intros w. unfold ask. by destruct (w_answers w) as [|[] l]. Qed.
Lemma quiet_check_deadline : quiet check_deadline.
Proof.
  apply quiet_bind; [apply quiet_ask|].
  intros []; first [apply quiet_ret | apply quiet_refuse].
Qed.
Lemma quiet_io : quiet io.
Proof.
  apply quiet_bind; [apply quiet_ask|].
  intros []; first [apply quiet_ret | apply quiet_refuse].
Qed.
Lemma quiet_verify : quiet verify_named_authority.
Proof.
  apply quiet_bind; [apply quiet_ask|].
  intros []; first [apply quiet_ret | apply quiet_refuse].
Qed.
End Triples.

#[export] Hint Resolve quiet_ret quiet_refuse quiet_lift quiet_gets quiet_attempt quiet_ask
  quiet_check_deadline quiet_io quiet_verify : quiet.
#[export] Hint Extern 1 (quiet (_ ≫= _)) => apply quiet_bind; [|intros ?] : quiet.
#[export] Hint Extern 2 (quiet (match ?x with _ => _ end)) => destruct x : quiet.

Section QuietFacts.
Context {C : ReceiptCodec} {R : RowCodec C}.

Lemma quiet_succeeds {A} (m : M A) : quiet m → quiet (succeeds m).
Proof. intros. unfold succeeds. auto with quiet. Qed.
Lemma quiet_discard {A} e : quiet (discard_staged (A:=A) e).
Proof. unfold discard_staged. auto using quiet_succeeds with quiet. Qed.
Lemma quiet_stage : quiet stage_file.
Proof.
  unfold stage_file. repeat first [apply quiet_bind; [|intros ?] | apply quiet_succeeds
    | apply quiet_discard | progress auto with quiet
    | match goal with |- quiet (if ?b then _ else _) => destruct b end].
Qed.
Lemma quiet_generation : quiet generation_under_writer_lock.
Proof. unfold generation_under_writer_lock. auto 10 with quiet. Qed.
Lemma quiet_read_bytes d : quiet (read_active_record_bytes d).
Proof. unfold read_active_record_bytes. auto 10 with quiet. Qed.
Lemma quiet_read_record d : quiet (read_active_record d).
Proof. unfold read_active_record. auto 10 with quiet. Qed.

(** A quiet step keeps every predicate of the store. *)
Lemma triple_quiet {A} S (P : World → Prop) (m : M A) :
  quiet m → stable P → (∀ w, P w → S w) → triple S P m (λ _, P) (λ _, P).
Proof.
  intros Hq Hs HS w Hw. specialize (Hq w).
  destruct (m w) as [w' [a|e| |]]; cbn in Hq; eauto.
Qed.
End QuietFacts.

(** ** Tails of the operations *)

Section Tails.
Context {C : ReceiptCodec} {R : RowCodec C}.

Notation Row := (StoredActiveReceiptV1 json_value).
Notation Entry := (CatalogEntry json_value).
Notation Catalog := (ReceiptCatalog json_value).
Implicit Types (act : gmap digest (list Z)) (gb : list Z) (h : Z) (c : Catalog) (d : digest)
  (r : Row).

(** The store is exactly this; the answers to come are not fixed. *)
Definition is_store (act : gmap digest (list Z)) (gb : list Z) (h : Z) (c : Catalog) (w : World)
  : Prop := w_active w = act ∧ w_generation w = gb ∧ w_highwater w = h ∧ w_catalog w = c.

Lemma is_store_stable act gb h c : stable (is_store act gb h c).
Proof. intros w w' (H1 & H2 & H3 & H4) (E1 & E2 & E3 & E4). repeat split; congruence. Qed.

Lemma triple_weaken {A} S P (m : M A) Q E E' :
  triple S P m Q E' → (∀ e w, E' e w → E e w) → triple S P m Q E.
Proof. intros H HE. by eapply triple_conseq. Qed.

Section Durable.
(** What must hold of the disk at every point. *)
Context (K : gmap digest (list Z) → list Z → Prop).
Definition durable (w : World) : Prop := K (w_active w) (w_generation w).
(** An error after which the store refuses every operation. *)
Definition lost (w : World) : Prop := cat_unavailable (w_catalog w) = true ∧ durable w.

Lemma is_store_durable act gb h c w : K act gb → is_store act gb h c w → durable w.
Proof. intros HK (<- & <- & _). exact HK. Qed.

(** Quiet steps at a known store. *)
Lemma store_quiet {A} act gb h c (m : M A) :
  quiet m → K act gb →
  triple durable (is_store act gb h c) m (λ _, is_store act gb h c) (λ _, is_store act gb h c).
Proof.
  intros Hq HK. apply triple_quiet; [done|apply is_store_stable|].
  intros w. by apply is_store_durable.
Qed.
Lemma store_quiet_then {A B} act gb h c (m : M A) (f : A → M B) Q E :
  quiet m → K act gb → (∀ e w, is_store act gb h c w → E e w) →
  (∀ a, triple durable (is_store act gb h c) (f a) Q E) →
  triple durable (is_store act gb h c) (m ≫= f) Q E.
Proof.
  intros Hq HK HE Hf. eapply triple_bind; [|exact Hf].
  eapply triple_weaken; [apply (store_quiet act gb h c m Hq HK)|exact HE].
Qed.

(** A step whose failure is only noted. *)
Lemma store_succeeds_then {A B} act gb h c (m : M A) (f : bool → M B) Q E :
  quiet m → K act gb → (∀ b, triple durable (is_store act gb h c) (f b) Q E) →
  triple durable (is_store act gb h c) (succeeds m ≫= f) Q E.
Proof.
  intros Hq HK Hf. eapply triple_bind with (Q := λ _, is_store act gb h c); [|exact Hf].
  unfold succeeds. eapply triple_bind.
  { apply triple_attempt. by apply store_quiet. }
  intros [a|e]; by apply triple_ret.
Qed.
Lemma store_discard {A} act gb h c e Q E :
  K act gb → (∀ e w, is_store act gb h c w → E e w) →
  triple durable (is_store act gb h c) (discard_staged (A:=A) e) Q E.
Proof.
  intros HK HE. apply store_succeeds_then; [apply quiet_io|done|]. intros b.
  apply triple_refuse. intros w. apply HE.
Qed.

Lemma lost_latch act gb h c w :
  K act gb → is_store act gb h c w →
  lost (set_catalog (set_unavailable (w_catalog w)) w).
Proof. intros HK (<- & <- & _). split; [done|exact HK]. Qed.

#[local] Ltac latch_lost := eapply lost_latch; [|eassumption]; done.

Lemma triple_latched {A} P (m : M A) Q E E' :
  triple durable P m Q E →
  (∀ e w, E e w → E' e (set_catalog (set_unavailable (w_catalog w)) w)) →
  triple durable P (latched m) Q E'.
Proof.
  intros Hm HE. eapply triple_bind; [apply (triple_attempt durable P E' E m Q Hm)|].
  intros [a|e]; [by apply triple_ret|]. intros w Hw. by apply HE.
Qed.
Lemma triple_latch_unless_deadline {A} P (m : M A) Q E E' :
  triple durable P m Q E →
  (∀ w, E DeadlineExceeded w → E' DeadlineExceeded w) →
  (∀ e w, e ≠ DeadlineExceeded → E e w → E' e (set_catalog (set_unavailable (w_catalog w)) w)) →
  triple durable P (latch_unless_deadline m) Q E'.
Proof.
  intros Hm Hd HE. eapply triple_bind; [apply (triple_attempt durable P E' E m Q Hm)|].
  intros [a|e]; [by apply triple_ret|].
  destruct e; first [intros w Hw; by apply Hd | intros w Hw; by apply HE].
Qed.
Lemma triple_map_error {A} P (m : M A) Q E f E' :
  triple durable P m Q E → (∀ e w, E e w → E' (f e) w) → triple durable P (map_error f m) Q E'.
Proof.
  intros Hm HE. eapply triple_bind; [apply (triple_attempt durable P E' E m Q Hm)|].
  intros [a|e]; [by apply triple_ret|]. intros w Hw. by apply HE.
Qed.

(** ** Publishing a row *)

Lemma triple_rename replace d encoded act gb h c :
  K act gb → K (<[d := encoded]> act) gb →
  triple durable (is_store act gb h c) (rename_row replace d encoded)
    (λ _, is_store (<[d := encoded]> act) gb h c) (λ _, is_store act gb h c).
Proof.
  intros HK HK'. unfold rename_row.
  apply store_succeeds_then; [apply quiet_io|done|]. intros renamed.
  eapply triple_bind with (Q := λ a w, a = act ∧ is_store act gb h c w).
  { apply triple_gets. intros w Hw. split; [apply Hw|done]. }
  intros active. apply triple_pure. intros ->.
  destruct (negb renamed || _).
  - by apply store_discard.
  - apply triple_modify. intros w (Ha & Hg & Hh & Hc). by repeat split.
Qed.

Lemma triple_publish_row replace r encoded on_visible act gb h c c' :
  let d := row_key_digest r in
  K act gb → K (<[d := encoded]> act) gb →
  triple durable (is_store (<[d := encoded]> act) gb h c) on_visible
    (λ _, is_store (<[d := encoded]> act) gb h c') (λ _ _, False) →
  triple durable (is_store act gb h c) (publish_row replace r encoded on_visible)
    (λ _, is_store (<[d := encoded]> act) gb h c')
    (λ e w, is_store act gb h c w
            ∨ (is_store (<[d := encoded]> act) gb h c' w ∧ e = CommitUncertain d)).
Proof.
  intros d HK HK' Hv. subst d. unfold publish_row.
  do 3 (apply store_quiet_then;
    [first [apply quiet_check_deadline|apply quiet_verify|apply quiet_stage]|done|by left|];
    intros _).
  eapply triple_bind.
  { eapply triple_weaken; [by apply triple_rename|by left]. }
  intros []. eapply triple_bind.
  { eapply triple_weaken; [exact Hv|done]. }
  intros [].
  apply store_succeeds_then; [apply quiet_io|done|]. intros [].
  2:{ apply triple_refuse. intros w Hw. by right. }
  cbn [negb]. apply store_succeeds_then; [apply quiet_check_deadline|done|]. intros [].
  - by apply triple_ret.
  - apply triple_refuse. intros w Hw. by right.
Qed.

Lemma triple_commit_replace act gb h c e c' :
  commit_catalog_replace c e = Some c' →
  triple durable (is_store act gb h c) (commit_replace e) (λ _, is_store act gb h c') (λ _ _, False).
Proof.
  intros Hc w (H1 & H2 & H3 & H4). unfold commit_replace, catalog, gets, mbind, M_bind.
  rewrite H4, Hc. by repeat split.
Qed.
Lemma triple_commit_insert act gb h c e :
  triple durable (is_store act gb h c) (commit_insert e)
    (λ _, is_store act gb h (commit_catalog_insert c e)) (λ _ _, False).
Proof. intros w (H1 & H2 & H3 & <-). by repeat split. Qed.
Lemma triple_commit_remove act gb h c e :
  triple durable (is_store act gb h c) (commit_remove e)
    (λ _, is_store act gb h (commit_catalog_remove c e)) (λ _ _, False).
Proof. intros w (H1 & H2 & H3 & <-). by repeat split. Qed.

(** A row published by an operation: before the rename the store is as it
    was, available only after a deadline. *)
Lemma triple_row replace r encoded on_visible act gb h c c' :
  let d := row_key_digest r in
  K act gb → K (<[d := encoded]> act) gb →
  triple durable (is_store (<[d := encoded]> act) gb h c) on_visible
    (λ _, is_store (<[d := encoded]> act) gb h c') (λ _ _, False) →
  triple durable (is_store act gb h c)
    (latch_unless_deadline (publish_row replace r encoded on_visible))
    (λ _, is_store (<[d := encoded]> act) gb h c')
    (λ _ w, is_store act gb h c w ∨ lost w).
Proof.
  intros d HK HK' Hv. subst d. eapply triple_latch_unless_deadline;
    [exact (triple_publish_row replace r encoded on_visible act gb h c c' HK HK' Hv)| |].
  - intros w [Hw|[_ H]]; [by left|done].
  - intros e w _ [Hw|[Hw _]]; right; latch_lost.
Qed.

(** ** Publishing the generation *)

Lemma triple_publish_generation next (o : option digest) act gb h c :
  K act gb → K act (generation_bytes next) →
  triple durable (is_store act gb h c) (publish_generation next o)
    (λ _, is_store act (generation_bytes next) (Z.max h next) c)
    (λ _ w, is_store act gb h c w ∨ is_store act (generation_bytes next) h c w).
Proof.
  intros HK HK'. eapply triple_map_error; [|intros e w Hw; exact Hw].
  do 3 (apply store_quiet_then;
    [first [apply quiet_check_deadline|apply quiet_verify|apply quiet_stage]|done|by left|];
    intros _).
  apply store_succeeds_then; [apply quiet_io|done|]. intros [].
  2:{ apply store_discard; [done|by left]. }
  cbn [negb]. eapply triple_bind with (Q := λ _, is_store act (generation_bytes next) h c).
  { apply triple_modify. intros w (H1 & H2 & H3 & H4). by repeat split. }
  intros _. do 3 (apply store_quiet_then;
    [first [apply quiet_check_deadline|apply quiet_verify|apply quiet_io]|done|by right|];
    intros _).
  eapply triple_bind with (Q := λ x w, x = h ∧ is_store act (generation_bytes next) h c w).
  { apply triple_gets. intros w Hw. split; [apply Hw|done]. }
  intros x. apply triple_pure. intros ->. apply triple_modify.
  intros w (H1 & H2 & H3 & H4). by repeat split.
Qed.
Lemma triple_generation next (o : option digest) act gb h c :
  K act gb → K act (generation_bytes next) →
  triple durable (is_store act gb h c) (latched (publish_generation next o))
    (λ _, is_store act (generation_bytes next) (Z.max h next) c) (λ _, lost).
Proof.
  intros HK HK'. eapply triple_latched; [by apply triple_publish_generation|].
  intros e w [Hw|Hw]; latch_lost.
Qed.

(** ** Reading back and removing *)

Lemma triple_confirm_bytes d encoded act gb h c :
  K act gb →
  triple durable (is_store act gb h c) (confirm_bytes d encoded)
    (λ _, is_store act gb h c) (λ _, lost).
Proof.
  intros HK. unfold confirm_bytes. eapply triple_bind with (Q := λ _, is_store act gb h c).
  { eapply triple_conseq; [apply triple_attempt, store_quiet; [apply quiet_read_bytes|done]
      |done| |intros e w H; exact H].
    by intros [] w Hw. }
  intros [[bs|]|e]; [|intros w Hw; latch_lost..].
  case_bool_decide; [by apply triple_ret|]. intros w Hw. latch_lost.
Qed.
Lemma triple_confirm_authority d act gb h c :
  K act gb →
  triple durable (is_store act gb h c) (confirm_authority d)
    (λ _, is_store act gb h c) (λ _, lost).
Proof.
  intros HK. unfold confirm_authority. apply store_succeeds_then; [|done|].
  { auto with quiet. }
  intros []; [by apply triple_ret|]. intros w Hw. latch_lost.
Qed.

Lemma triple_remove_witness d encoded act gb h c :
  K act gb → K (delete d act) gb →
  triple durable (is_store act gb h c) (latched (remove_expired_deletion_witness d encoded))
    (λ _, is_store (delete d act) gb h c) (λ _, lost).
Proof.
  intros HK HK'.
  eapply triple_latched with
    (E := λ _ w, is_store act gb h c w ∨ is_store (delete d act) gb h c w).
  2:{ intros e w [Hw|Hw]; latch_lost. }
  unfold remove_expired_deletion_witness.
  eapply triple_map_error; [|intros e w Hw; exact Hw].
  do 3 (apply store_quiet_then;
    [first [apply quiet_check_deadline|apply quiet_verify|apply quiet_io]|done|by left|];
    intros _).
  eapply triple_bind with (Q := λ a w, a = act ∧ is_store act gb h c w).
  { apply triple_gets. intros w Hw. split; [apply Hw|done]. }
  intros active. apply triple_pure. intros ->.
  do 3 (apply store_quiet_then; [apply quiet_lift|done|by left|]; intros ?).
  do 3 (apply store_quiet_then;
    [first [apply quiet_check_deadline|apply quiet_verify|apply quiet_io]|done|by left|];
    intros _).
  eapply triple_bind with (Q := λ _, is_store (delete d act) gb h c).
  { apply triple_modify. intros w (H1 & H2 & H3 & H4). by repeat split. }
  intros _. do 2 (apply store_quiet_then;
    [first [apply quiet_check_deadline|apply quiet_verify|apply quiet_io]|done|by right|];
    intros _).
  eapply triple_weaken; [apply (store_quiet (delete d act) gb h c); [apply quiet_verify|done]
    |by right].
Qed.

(** ** Whole sequences *)

Lemma triple_replace_row r encoded e sequence act gb h c c' :
  let d := row_key_digest r in
  K act gb → K (<[d := encoded]> act) gb → K (<[d := encoded]> act) (generation_bytes sequence) →
  commit_catalog_replace c e = Some c' →
  triple durable (is_store act gb h c) (replace_row r encoded e sequence)
    (λ _, is_store (<[d := encoded]> act) (generation_bytes sequence) (Z.max h sequence) c')
    (λ _ w, is_store act gb h c w ∨ lost w).
Proof.
  intros d HK HK' HK'' Hc. subst d. unfold replace_row.
  eapply triple_bind; [apply triple_row; [done|done|by apply triple_commit_replace]|]. intros [].
  eapply triple_bind; [eapply triple_weaken; [by apply triple_generation|by right]|].
  intros []. eapply triple_weaken; [by apply triple_confirm_bytes|by right].
Qed.
Lemma triple_insert_row r encoded e sequence act gb h c :
  let d := row_key_digest r in
  K act gb → K (<[d := encoded]> act) gb → K (<[d := encoded]> act) (generation_bytes sequence) →
  triple durable (is_store act gb h c) (insert_row r encoded e sequence)
    (λ _, is_store (<[d := encoded]> act) (generation_bytes sequence) (Z.max h sequence)
            (commit_catalog_insert c e))
    (λ _ w, is_store act gb h c w ∨ lost w).
Proof.
  intros d HK HK' HK''. subst d. unfold insert_row.
  eapply triple_bind; [apply triple_row; [done|done|by apply triple_commit_insert]|]. intros [].
  eapply triple_bind; [eapply triple_weaken; [by apply triple_generation|by right]|].
  intros []. eapply triple_weaken; [by apply triple_confirm_bytes|by right].
Qed.
Lemma triple_delete_row witness encoded persisted sequence act gb h c :
  let d := row_key_digest witness in
  K act gb → K (<[d := encoded]> act) gb → K (<[d := encoded]> act) (generation_bytes sequence) →
  K (delete d (<[d := encoded]> act)) (generation_bytes sequence) →
  triple durable (is_store act gb h c) (delete_row witness encoded persisted sequence)
    (λ _, is_store (delete d (<[d := encoded]> act)) (generation_bytes sequence)
            (Z.max h sequence) (commit_catalog_remove c persisted))
    (λ _ w, is_store act gb h c w ∨ lost w).
Proof.
  intros d HK HK' HK'' HK3. subst d. unfold delete_row.
  eapply triple_bind; [apply triple_row; [done|done|by apply triple_commit_remove]|]. intros [].
  eapply triple_bind; [eapply triple_weaken; [by apply triple_generation|by right]|].
  intros [].
  eapply triple_bind; [eapply triple_weaken; [by apply triple_remove_witness|by right]|].
  intros [].
  eapply triple_weaken; [by apply triple_confirm_authority|by right].
Qed.
Lemma triple_acknowledge_row witness witness_encoded r encoded e sequence act gb h c c' :
  let d := row_key_digest r in
  let act1 := <[d := witness_encoded]> act in
  row_key_digest witness = d →
  K act gb → K act1 gb → K act1 (generation_bytes sequence) →
  K (<[d := encoded]> act1) (generation_bytes sequence) →
  commit_catalog_replace c e = Some c' →
  triple durable (is_store act gb h c)
    (acknowledge_row witness witness_encoded r encoded e sequence)
    (λ _, is_store (<[d := encoded]> act1) (generation_bytes sequence) (Z.max h sequence) c')
    (λ _ w, is_store act gb h c w ∨ lost w).
Proof.
  intros d act1 Hd HK HK1 HK1' HK2 Hc. subst act1 d. unfold acknowledge_row.
  rewrite <-Hd in HK1, HK1', HK2 |- *.
  eapply triple_bind; [apply triple_row; [done|done|by apply triple_ret]|]. intros [].
  eapply triple_bind; [eapply triple_weaken; [by apply triple_generation|by right]|]. intros [].
  rewrite Hd in HK1, HK1', HK2 |- *.
  eapply triple_bind.
  { eapply triple_weaken with (E' := λ _, lost); [|by right].
    eapply triple_latched with (E := λ _ w, ∃ act' c0, is_store act' (generation_bytes sequence)
      (Z.max h sequence) c0 w ∧ K act' (generation_bytes sequence)).
    2:{ intros error w (act' & c0 & Hw & HK'). latch_lost. }
    eapply triple_map_error.
    { apply (triple_publish_row true r encoded (commit_replace e)); [done|done|].
      by apply triple_commit_replace. }
    intros error w [Hw|[Hw _]]; eauto. }
  intros []. eapply triple_weaken; [by apply triple_confirm_bytes|by right].
Qed.
End Durable.
End Tails.
