(* ===== verification/ReceiptRuns.v ===== *)
(** * Receipt store: running an operation

    [ready g m] is the store between two operations: files, generation and
    catalog all stand for the rows [m].  [runs T g m c Q] says what becomes of
    the contents when [c] runs from there under any answers of the
    environment: they go through steps of the receipt machine; after a value
    the store is ready again; after an error it is ready, or refuses every
    operation until it is reopened; and at a panic or a stop the disk still
    stands for the contents reached. *)

From Stdlib Require Import ZArith Lia String.
From stdpp Require Import base gmap list option numbers countable strings.
From S2P Require Import Prelude Contract ResultSize Redaction ReceiptLedger ReceiptStates.
From S2P Require Import ReceiptRows ReceiptCatalog ReceiptCatalogFacts ReceiptCatalogProps.
From S2P Require Import ReceiptRecords ReceiptStore ReceiptOps ReceiptRecovery.
From S2P Require Import ReceiptDisk ReceiptMachine ReceiptHoare.

Local Open Scope Z_scope.

Section Runs.
Context {C : ReceiptCodec} {R : RowCodec C} {L : RowCodecLaws C R}.


Notation Row := (StoredActiveReceiptV1 json_value).
Notation Entry := (CatalogEntry json_value).
Notation Catalog := (ReceiptCatalog json_value).
Notation Rows := (gmap digest Entry).
Implicit Types (m : Rows) (g : Z) (d : digest) (r : Row) (e p : Entry) (w : World).

(** The disk stands for the rows [m]. *)
Definition stands_for (m : Rows) (active : gmap digest (list Z)) (generation : list Z) : Prop :=
  ∃ g top, stored g top active m ∧ generation = generation_bytes g.
Definition holds (m : Rows) (w : World) : Prop := stands_for m (w_active w) (w_generation w).

Record ready (g : Z) (m : Rows) (w : World) : Prop := {
  rd_stored : stored g g (w_active w) m;
  rd_no_witness : no_witness (w_active w);
  rd_generation : w_generation w = generation_bytes g;
  rd_highwater : w_highwater w = g;
  rd_catalog : catalog_ok (w_catalog w);
  rd_records : cat_records (w_catalog w) = m;
  rd_available : cat_unavailable (w_catalog w) = false;
}.

(** The store refuses every operation; its disk stands for [m]. *)
Definition closed (m : Rows) (w : World) : Prop :=
  cat_unavailable (w_catalog w) = true ∧ holds m w.

Definition ends {A : Type} (m' : Rows) (Q : A → Z → Rows → Prop) (end_ : World * outcome A) : Prop :=
  match end_ with
  | (w', Done a) => ∃ g', ready g' m' w' ∧ Q a g' m'
  | (w', Refused _) => (∃ g', ready g' m' w') ∨ closed m' w'
  | (w', Panics) | (w', Stopped) => holds m' w'
  end.
Definition runs {A : Type} (T : Z * Z) (g : Z) (m : Rows) (c : M A) (Q : A → Z → Rows → Prop) : Prop :=
  ∀ w, ready g m w → ∃ evs m', receipt_trace evs m m' ∧ Forall (within T) evs ∧ ends m' Q (c w).
(** ... without a step: what it answers satisfies [φ]. *)
Definition reads {A : Type} (T : Z * Z) (g : Z) (m : Rows) (c : M A) (φ : A → Prop) : Prop :=
  runs T g m c (λ a g' m', g' = g ∧ m' = m ∧ φ a).

Lemma ready_holds g m w : ready g m w → holds m w.
Proof. intros Rd. exists g, g. split; [apply Rd|apply Rd]. Qed.
Lemma ready_same g m w w' : same_store w w' → ready g m w → ready g m w'.
Proof. intros (E1 & E2 & E3 & E4) []. split; by rewrite ?E1, ?E2, ?E3, ?E4. Qed.
Lemma holds_closed m w : holds m w → closed m (set_catalog (set_unavailable (w_catalog w)) w).
Proof. intros H. split; [done|exact H]. Qed.
Lemma ready_range g m w : ready g m w → 0 ≤ g ≤ u64_max.
Proof.
  intros Rd. split; [apply (st_generation _ _ _ _ (rd_stored _ _ _ Rd))|].
  apply (st_max _ _ _ _ (rd_stored _ _ _ Rd)).
Qed.

(** ** Rules *)

Section Rules.
Context {T : Z * Z} {A B : Type}.
Implicit Types (Q : A → Z → Rows → Prop).

Lemma runs_ret g m (a : A) Q : Q a g m → runs T g m (mret a) Q.
Proof. intros HQ w Rd. exists [], m. split; [constructor|]. split; [constructor|]. cbn. eauto. Qed.
Lemma runs_refuse g m error Q : runs T g m (refuse error) Q.
Proof. intros w Rd. exists [], m. split; [constructor|]. split; [constructor|]. cbn. eauto. Qed.
Lemma runs_panic g m Q : runs T g m panic Q.
Proof. intros w Rd. exists [], m. split; [constructor|]. split; [constructor|]. cbn. by eapply ready_holds. Qed.
Lemma runs_lift g m (x : result A ReceiptLedgerError) Q :
  (∀ a, x = Ok a → Q a g m) → runs T g m (lift x) Q.
Proof. intros HQ. destruct x; [apply runs_ret; auto|apply runs_refuse]. Qed.
Lemma runs_latch_error g m error Q : runs T g m (latch_error error) Q.
Proof.
  intros w Rd. exists [], m. split; [constructor|]. split; [constructor|]. cbn. right.
  eapply holds_closed, ready_holds, Rd.
Qed.
Lemma runs_bind g m (c : M A) (f : A → M B) Q (Q' : B → Z → Rows → Prop) :
  runs T g m c Q → (∀ a g' m', Q a g' m' → runs T g' m' (f a) Q') → runs T g m (c ≫= f) Q'.
Proof.
  intros Hc Hf w Rd. destruct (Hc w Rd) as (evs & m' & Htr & HT & He). unfold mbind, M_bind.
  destruct (c w) as [w' [a|e| |]]; [|by exists evs, m'..].
  destruct He as (g' & Rd' & HQ). destruct (Hf a g' m' HQ w' Rd') as (evs' & m2 & Htr' & HT' & He').
  exists (evs ++ evs'), m2. split; [by eapply trace_app|]. split; [by apply Forall_app|done].
Qed.
Lemma runs_read g m (c : M A) (f : A → M B) (φ : A → Prop) (Q' : B → Z → Rows → Prop) :
  reads T g m c φ → (∀ a, φ a → runs T g m (f a) Q') → runs T g m (c ≫= f) Q'.
Proof. intros Hc Hf. eapply runs_bind; [exact Hc|]. intros a g' m' (-> & -> & Ha). auto. Qed.
Lemma runs_conseq g m (c : M A) Q Q' :
  runs T g m c Q → (∀ a g' m', Q a g' m' → Q' a g' m') → runs T g m c Q'.
Proof.
  intros Hc HQ w Rd. destruct (Hc w Rd) as (evs & m' & Htr & HT & He). exists evs, m'.
  split_and!; [done..|]. unfold ends in *. destruct (c w) as [w' [a|e| |]]; naive_solver.
Qed.
Lemma runs_latched g m (c : M A) Q : runs T g m c Q → runs T g m (latched c) Q.
Proof.
  intros Hc w Rd. destruct (Hc w Rd) as (evs & m' & Htr & HT & He). exists evs, m'.
  split_and!; [done..|]. unfold latched, attempt, mbind, M_bind, ends in *.
  destruct (c w) as [w' [a|e| |]]; try done. right. apply holds_closed.
  destruct He as [[g' Rd']|[_ H]]; [by eapply ready_holds|done].
Qed.
Lemma runs_quiet g m (c : M A) : quiet c → reads T g m c (λ _, True).
Proof.
  intros Hq w Rd. exists [], m. split; [constructor|]. split; [constructor|]. specialize (Hq w).
  pose proof (ready_same g m _ _ Hq Rd) as Rd'. unfold ends.
  destruct (c w) as [w' [a|e| |]]; cbn in *; eauto using ready_holds.
Qed.
Lemma runs_range g m (c : M A) Q : (0 ≤ g ≤ u64_max → runs T g m c Q) → runs T g m c Q.
Proof. intros H w Rd. by apply H; [eapply ready_range|]. Qed.
Lemma runs_step_ready g m (c : M A) (a : World → A) (φ : A → Prop) :
  (∀ w, ready g m w → c w = (w, Done (a w)) ∧ φ (a w)) → reads T g m c φ.
Proof.
  intros Hc w Rd. exists [], m. split; [constructor|]. split; [constructor|]. destruct (Hc w Rd) as [-> Hφ].
  cbn. eauto.
Qed.
End Rules.

(** ** Reading *)

Context {T : Z * Z}.

Definition catalog_of (m : Rows) (c : Catalog) : Prop :=
  catalog_ok c ∧ cat_records c = m ∧ cat_unavailable c = false.
Lemma reads_catalog g m : reads T g m catalog (catalog_of m).
Proof. eapply runs_step_ready. intros w Rd. split; [reflexivity|]. split_and!; apply Rd. Qed.
Lemma reads_available g m : reads T g m available (λ _, True).
Proof.
  eapply runs_read; [apply reads_catalog|]. intros c (_ & _ & ->). by apply runs_ret.
Qed.
Lemma reads_generation g m : reads T g m generation_under_writer_lock (λ n, n = g).
Proof.
  unfold generation_under_writer_lock.
  eapply runs_read; [apply runs_quiet, quiet_verify|]. intros _ _.
  eapply runs_read; [apply runs_quiet, quiet_io|]. intros _ _.
  eapply runs_read with (φ := λ bs, bs = generation_bytes g ∧ 0 ≤ g ≤ u64_max).
  { eapply runs_step_ready. intros w Rd. split; [reflexivity|].
    split; [apply Rd|by eapply ready_range]. }
  intros bs [-> Hg]. rewrite generation_round_trip by done.
  eapply runs_read with (φ := λ v, v = g); [by apply runs_lift; intros v [= ->]|]. intros v ->.
  eapply runs_read; [apply runs_quiet, quiet_verify|]. intros _ _.
  eapply runs_read with (φ := λ h, h = g).
  { eapply runs_step_ready. intros w Rd. split; [reflexivity|]. apply Rd. }
  intros h ->. apply runs_ret. split_and!; [done|done|lia].
Qed.

(** An entry that was read from a file. *)
Definition read_from (d : digest) (e : Entry) : Prop :=
  ∃ bs, decode_active_record bs d = Ok e ∧ is_witness e = false.
(** ... and stands in the contents, with a sequence of a past mutation. *)
Definition found (g : Z) (m : Rows) (d : digest) (e : Entry) : Prop :=
  m !! d = Some (entry_without_result_body e) ∧ read_from d e
  ∧ (is_tombstone e = false → entry_sequence e ≤ g).

Lemma reads_record g m d :
  reads T g m (read_active_record d)
    (λ o, match o with Some e => found g m d e | None => m !! d = None end).
Proof.
  unfold read_active_record. eapply runs_read; [apply runs_quiet, quiet_io|]. intros _ _.
  eapply runs_read with (φ := λ act, stored g g act m ∧ no_witness act).
  { eapply runs_step_ready. intros w Rd. split; [reflexivity|]. split; apply Rd. }
  intros act [St Hnw]. destruct (act !! d) as [bs|] eqn:Hd.
  - destruct (st_file _ _ _ _ St d bs Hd) as (e & He & _). rewrite He.
    eapply runs_read with (φ := λ x, x = e); [by apply runs_lift; intros x [= ->]|]. intros x ->.
    assert (entry_at act d = Some e) as Hat by (apply entry_at_Some; eauto).
    apply runs_ret. split_and!; [done|done|]. split_and!.
    + eapply stored_plain; [done|done|]. by apply (Hnw d).
    + exists bs. split; [done|]. by apply (Hnw d).
    + by apply (st_bound _ _ _ _ St d).
  - apply runs_ret. split_and!; [done|done|]. by apply (st_none _ _ _ _ St).
Qed.
End Runs.

#[export] Hint Resolve runs_refuse runs_panic runs_latch_error : runs.
#[export] Hint Extern 1 (reads _ _ _ _ _) => unfold reads : runs.
#[export] Hint Extern 1 (runs _ _ _ (lift (Err _)) _) => apply runs_refuse : runs.

(** A step that only takes answers. *)
Ltac run_quiet :=
  eapply runs_read; [first [apply runs_latched|idtac]; apply runs_quiet; auto 10 with quiet|];
  intros _ _.

Section Reading.
Context {C : ReceiptCodec} {R : RowCodec C} {L : RowCodecLaws C R}.
Context {T : Z * Z}.

Notation Entry := (CatalogEntry json_value).
Notation Rows := (gmap digest Entry).
Implicit Types (m : Rows) (g : Z) (d : digest) (e p : Entry).

Lemma reads_entry g m d :
  reads T g m (read_entry_under_writer_lock d)
    (λ o, match o with Some e => found g m d e | None => m !! d = None end).
Proof.
  unfold read_entry_under_writer_lock.
  eapply runs_read; [apply reads_available|]. intros _ _. do 3 run_quiet.
  eapply runs_read; [apply runs_latched, reads_generation|]. intros before ->. run_quiet.
  eapply runs_read; [apply runs_latched, reads_record|]. intros o Ho. run_quiet.
  eapply runs_read; [apply runs_latched, reads_generation|]. intros after ->.
  rewrite Z.eqb_refl. cbn [negb]. do 3 run_quiet.
  eapply runs_read; [apply reads_catalog|]. intros c (_ & <- & _).
  destruct (cat_records c !! d) as [x|] eqn:Hx, o as [e|]; auto with runs.
  - destruct (entry_eq x e); [by apply runs_ret|auto with runs].
  - by apply runs_ret.
Qed.
Lemma reads_fence {A : Type} g m (inspect : ReceiptCatalog json_value → Z → A) :
  reads T g m (inspect_under_fence inspect) (λ a, ∃ c, catalog_of m c ∧ a = inspect c g).
Proof.
  unfold inspect_under_fence.
  eapply runs_read; [apply reads_available|]. intros _ _. do 3 run_quiet.
  eapply runs_read; [apply runs_latched, reads_generation|]. intros before ->. run_quiet.
  eapply runs_read; [apply reads_catalog|]. intros c Hc. run_quiet.
  eapply runs_read; [apply runs_latched, reads_generation|]. intros after ->.
  rewrite Z.eqb_refl. cbn [negb]. do 3 run_quiet. apply runs_ret. eauto.
Qed.
Lemma runs_reject {A : Type} g m (error : ReceiptLedgerError) (Q : A → Z → Rows → Prop) :
  runs T g m (reject_before_mutation error) Q.
Proof. unfold reject_before_mutation. do 2 run_quiet. apply runs_refuse. Qed.
Lemma reads_sequence g m : reads T g m next_sequence (λ s, s = g + 1 ∧ g + 1 ≤ u64_max).
Proof.
  unfold next_sequence.
  eapply runs_read; [apply runs_latched, reads_generation|]. intros n ->. apply runs_lift.
  intros s Hs. checked_result. done.
Qed.
Lemma reads_admission_sequence g m :
  reads T g m admission_sequence (λ s, s = g + 1 ∧ g + 1 ≤ u64_max).
Proof.
  unfold admission_sequence.
  eapply runs_read; [apply runs_latched, reads_generation|]. intros n ->.
  destruct (u64_checked_add g 1) eqn:Hs; [|apply runs_reject]. checked_result. by apply runs_ret.
Qed.
Lemma reads_open_row g m key :
  reads T g m (open_row key) (λ rows,
    found g m (receipt_key_digest key) rows.2 ∧ entry_eq rows.2 rows.1 = true
    ∧ row_key (ce_record rows.1) = key).
Proof.
  unfold open_row. eapply runs_read; [apply reads_available|]. intros _ _. run_quiet.
  eapply runs_read; [apply reads_catalog|]. intros c (_ & <- & _).
  eapply runs_read with (φ := λ x, cat_records c !! receipt_key_digest key = Some x).
  { apply runs_lift. intros x Hx. by checked_result. }
  intros x Hx. case_bool_decide as Hk; cbn [negb]; [|auto with runs].
  eapply runs_read; [apply reads_entry|]. intros o Ho.
  eapply runs_read with (φ := λ e, o = Some e).
  { apply runs_lift. intros e He. by checked_result. }
  intros e ->. destruct (entry_eq e x) eqn:Heq; cbn [negb]; [|auto with runs].
  apply runs_ret. split_and!; [done..|]. cbn. done.
Qed.
End Reading.
#[export] Hint Resolve runs_reject : runs.
