(* ===== verification/ReceiptMutations.v ===== *)
(** * Receipt store: one mutation

    The write sequences as steps of the receipt machine: from a ready store,
    a replacement, an insertion, a removal and an acknowledgement either
    happen as a whole or not at all, whatever the environment answers. *)

From Stdlib Require Import ZArith Lia String.
From stdpp Require Import base gmap list option numbers countable strings.
From S2P Require Import Prelude Contract ResultSize Redaction ReceiptLedger ReceiptStates.
From S2P Require Import ReceiptRows ReceiptCatalog ReceiptCatalogFacts ReceiptCatalogProps.
From S2P Require Import ReceiptRecords ReceiptStore ReceiptOps.
From S2P Require Import ReceiptTerminals ReceiptRecovery ReceiptDisk ReceiptMachine ReceiptHoare.
From S2P Require Import ReceiptRuns.

Local Open Scope Z_scope.

Section Mutations.
Context {C : ReceiptCodec} {R : RowCodec C} {L : RowCodecLaws C R}.
Context {T : Z * Z}.

Notation Row := (StoredActiveReceiptV1 json_value).
Notation Entry := (CatalogEntry json_value).
Notation Catalog := (ReceiptCatalog json_value).
Notation Rows := (gmap digest Entry).
Implicit Types (m : Rows) (g : Z) (d : digest) (r : Row) (e p : Entry) (w : World).

(** The disk stands for the contents before or after a mutation. *)
Definition either (m m' : Rows) (act : gmap digest (list Z)) (gb : list Z) : Prop :=
  stands_for m act gb ∨ stands_for m' act gb.
Definition at_store (w : World) : World → Prop :=
  is_store (w_active w) (w_generation w) (w_highwater w) (w_catalog w).

Lemma ready_of_store g m act c w :
  stored g g act m → no_witness act → catalog_ok c → cat_records c = m →
  cat_unavailable c = false → is_store act (generation_bytes g) g c w → ready g m w.
Proof. intros ? ? ? ? ? (E1 & E2 & E3 & E4). split; by rewrite ?E1, ?E2, ?E3, ?E4. Qed.

Lemma runs_mutation {A : Type} g m m' (ev : event json_value) (cmd : M A) (Q : A → Z → Rows → Prop) :
  receipt_step ev m m' → within T ev →
  (∀ w, ready g m w →
     triple (durable (either m m')) (at_store w) cmd
       (λ a w', ∃ g', ready g' m' w' ∧ Q a g' m')
       (λ _ w', at_store w w' ∨ lost (either m m') w')) →
  runs T g m cmd Q.
Proof.
  intros Hs HT Hcmd w Rd. specialize (Hcmd w Rd w).
  assert (at_store w w) as Hw by by repeat split. specialize (Hcmd Hw).
  assert (∀ w', at_store w w' → ready g m w') as Hback.
  { intros w' (E1 & E2 & E3 & E4). by apply (ready_same g m w). }
  assert (receipt_trace [] m m ∧ Forall (within T) (@nil (event json_value))) as [H0 HT0]
    by (split; constructor).
  assert (receipt_trace [ev] m m' ∧ Forall (within T) [ev]) as [H1 HT1]
    by (split; [by apply trace_one|by apply Forall_singleton]).
  destruct (cmd w) as [w' [a|error| |]].
  - exists [ev], m'. done.
  - destruct Hcmd as [Hst|[Hun [H|H]]].
    + exists [], m. split_and!; [done..|]. left. eauto.
    + exists [], m. split_and!; [done..|]. by right.
    + exists [ev], m'. split_and!; [done..|]. by right.
  - destruct Hcmd as [H|H]; [by exists [], m|by exists [ev], m'].
  - destruct Hcmd as [H|H]; [by exists [], m|by exists [ev], m'].
Qed.

Lemma within_live d e : is_tombstone e = false → within T (Advanced d (entry_without_result_body e)).
Proof.
  rewrite <-strip_tombstone. unfold is_tombstone, within.
  by destruct (row_lifecycle (ce_record (entry_without_result_body e))).
Qed.

(** A row and its bytes. *)
Definition written (r : Row) (encoded : list Z) : Prop :=
  decode_active_record encoded (row_key_digest r) = Ok (mkEntry r (blen encoded)).

Lemma rows_of_catalog c : catalog_ok c → rows_ok (cat_records c).
Proof. intros Hc. by exists c. Qed.
Lemma stands_for_stored g top act m : stored g top act m → stands_for m act (generation_bytes g).
Proof. intros H. by exists g, top. Qed.

Lemma no_witness_insert act d bs e :
  no_witness act → decode_active_record bs d = Ok e → is_witness e = false →
  no_witness (<[d := bs]> act).
Proof.
  intros Hnw He Hw d' e' Hat. destruct (decide (d = d')) as [<-|Hne].
  - rewrite (entry_at_insert_eq act d bs e He) in Hat. congruence.
  - rewrite entry_at_insert_ne in Hat by done. by apply (Hnw d').
Qed.
(** Rows of other keys have other identities. *)
Lemma stored_other_identity g act m d p :
  stored g g act m → no_witness act → m !! d = Some p →
  ∀ d' e', d' ≠ d → entry_at act d' = Some e' →
    entry_invocation e' ≠ entry_invocation p ∧ entry_task e' ≠ entry_task p.
Proof.
  intros St Hnw Hd d' e' Hne He'.
  destruct (stored_found _ _ _ _ d St (ex_intro _ p Hd)) as [x Hx].
  pose proof (stored_plain _ _ _ _ d x St Hx (Hnw d x Hx)) as Hp. rewrite Hd in Hp.
  injection Hp as ->. rewrite strip_invocation, strip_task.
  split; intros Heq; apply Hne, (st_identity _ _ _ _ St d' d e' x He' Hx); auto.
Qed.

(** ** Replacement *)

Lemma runs_replace_row g m r encoded p :
  let e := mkEntry r (blen encoded) in
  replaceable m p e → written r encoded → is_witness e = false → is_tombstone e = false →
  row_mutation_sequence r = g + 1 → g + 1 ≤ u64_max →
  advances (entry_without_result_body p) (entry_without_result_body e) →
  runs T g m (replace_row r encoded e (g + 1))
    (λ _ g' m', g' = g + 1 ∧ m' = <[row_key_digest r := entry_without_result_body e]> m).
Proof.
  intros e Hrep Hw Hnw Hlive Hseq Hmax Hadv.
  pose proof (rep_held m p e Hrep) as Hheld. unfold held in Hheld.
  assert (entry_digest p = row_key_digest r) as Hdig by (by rewrite <-(rep_digest m p e Hrep)).
  rewrite Hdig in Hheld. set (m' := <[row_key_digest r := entry_without_result_body e]> m).
  apply (runs_mutation g m m' (Advanced (row_key_digest r) (entry_without_result_body e)));
    [by eapply step_advance|by apply within_live|].
  intros w Rd. destruct Rd as [St Hno Hg Hh Hc Hrec Hav].
  assert (entry_fits e) as Hfit by (by eapply decode_fits).
  destruct (commit_replace_ok (w_catalog w) p e Hc Hfit) as (c' & Hcom & Hc' & Hrec' & Hun').
  { by rewrite Hrec. }
  assert (cat_records c' = m') as Hm' by (by rewrite Hrec', Hrec).
  assert (stored g (g + 1) (<[row_key_digest r := encoded]> (w_active w)) m') as St'.
  { apply (stored_write g (w_active w) m (row_key_digest r) encoded e m'); try done.
    - intros d' e' Hne He'.
      destruct (stored_other_identity g (w_active w) m _ _ St Hno Hheld d' e' Hne He') as [H1 H2].
      rewrite strip_invocation, strip_task in *. unfold entry_invocation, entry_task in *.
      by rewrite (rep_key m p e Hrep).
    - unfold settled_as. unfold is_witness in Hnw. apply orb_false_iff in Hnw as [-> ->].
      unfold m'. by rewrite lookup_insert_eq.
    - intros d' Hne. unfold m'. by rewrite lookup_insert_ne.
    - rewrite <-Hm'. by apply rows_of_catalog. }
  pose proof (stored_publish _ _ _ _ St') as St2.
  eapply triple_conseq; [apply (triple_replace_row (either m m') r encoded e (g + 1)
     (w_active w) (w_generation w) (w_highwater w) (w_catalog w) c')| | |].
  - left. rewrite Hg. by eapply stands_for_stored.
  - right. rewrite Hg. by eapply stands_for_stored.
  - right. by eapply stands_for_stored.
  - done.
  - done.
  - intros a w' Hw'. exists (g + 1). split; [|done]. rewrite Hh, Z.max_r in Hw' by lia.
    eapply ready_of_store; [exact St2|by eapply no_witness_insert|exact Hc'|exact Hm'| |exact Hw'].
    by rewrite Hun'.
  - done.
Qed.

(** ** Insertion *)

Lemma runs_insert_row g m r encoded :
  let e := mkEntry r (blen encoded) in
  insertable m e → written r encoded → is_witness e = false → is_tombstone e = false →
  row_mutation_sequence r = g + 1 → g + 1 ≤ u64_max →
  row_record_version r = version_initial →
  lifecycle_starts (row_lifecycle (ce_record (entry_without_result_body e))) →
  runs T g m (insert_row r encoded e (g + 1))
    (λ _ g' m', g' = g + 1 ∧ m' = <[row_key_digest r := entry_without_result_body e]> m).
Proof.
  intros e Hins Hw Hnw Hlive Hseq Hmax Hver Hst.
  set (m' := <[row_key_digest r := entry_without_result_body e]> m).
  pose proof (ins_row m e Hins) as Hrow. pose proof (ins_digest m e Hrow) as Hnone.
  apply (runs_mutation g m m' (Admits (row_key_digest r))).
  { apply (step_admit m (entry_without_result_body e)); [done|done|done|]. intros d' e' He'.
    rewrite strip_invocation, strip_task. split; [by eapply ins_invocation|by eapply ins_task]. }
  { done. }
  intros w Rd. destruct Rd as [St Hno Hg Hh Hc Hrec Hav].
  assert (entry_fits e) as Hfit by (by eapply decode_fits).
  assert (catalog_ok (commit_catalog_insert (w_catalog w) e)) as Hc'.
  { apply commit_insert_ok; [done|done|]. by rewrite Hrec. }
  assert (cat_records (commit_catalog_insert (w_catalog w) e) = m') as Hm'.
  { unfold m'. by rewrite <-Hrec. }
  assert (stored g (g + 1) (<[row_key_digest r := encoded]> (w_active w)) m') as St'.
  { apply (stored_write g (w_active w) m (row_key_digest r) encoded e m'); try done.
    - intros d' e' Hne He'.
      pose proof (stored_plain _ _ _ _ d' e' St He' (Hno d' e' He')) as Hd'.
      pose proof (ins_invocation m e Hrow _ _ Hd') as H1.
      pose proof (ins_task m e Hrow _ _ Hd') as H2.
      by rewrite strip_invocation in H1; rewrite strip_task in H2.
    - unfold settled_as. unfold is_witness in Hnw. apply orb_false_iff in Hnw as [-> ->].
      unfold m'. by rewrite lookup_insert_eq.
    - intros d' Hne. unfold m'. by rewrite lookup_insert_ne.
    - rewrite <-Hm'. by apply rows_of_catalog. }
  pose proof (stored_publish _ _ _ _ St') as St2.
  eapply triple_conseq; [apply (triple_insert_row (either m m') r encoded e (g + 1)
     (w_active w) (w_generation w) (w_highwater w) (w_catalog w))| | |].
  - left. rewrite Hg. by eapply stands_for_stored.
  - right. rewrite Hg. by eapply stands_for_stored.
  - right. by eapply stands_for_stored.
  - done.
  - intros a w' Hw'. exists (g + 1). split; [|done]. rewrite Hh, Z.max_r in Hw' by lia.
    eapply ready_of_store; [exact St2|by eapply no_witness_insert|exact Hc'|exact Hm'|exact Hav
      |exact Hw'].
  - done.
Qed.

(** ** Removal *)

Lemma runs_delete_row g m witness encoded p ev :
  let e := mkEntry witness (blen encoded) in
  held m p → written witness encoded → is_expired_deletion e = true →
  row_key witness = row_key (ce_record p) → row_key_digest witness = entry_digest p →
  row_mutation_sequence witness = g + 1 → g + 1 ≤ u64_max →
  receipt_step ev m (delete (entry_digest p) m) → within T ev →
  runs T g m (delete_row witness encoded p (g + 1))
    (λ _ g' m', g' = g + 1 ∧ m' = delete (entry_digest p) m).
Proof.
  intros e Hheld Hw Hdel Hkey Hdig Hseq Hmax Hstep HT.
  set (m' := delete (entry_digest p) m).
  apply (runs_mutation g m m' ev); [done|done|].
  intros w Rd. destruct Rd as [St Hno Hg Hh Hc Hrec Hav].
  assert (catalog_ok (commit_catalog_remove (w_catalog w) p)) as Hc'.
  { apply commit_remove_ok; [done|]. by rewrite Hrec. }
  assert (cat_records (commit_catalog_remove (w_catalog w) p) = m') as Hm'.
  { unfold m'. by rewrite <-Hrec. }
  assert (is_witness e = true) as Hwit by (unfold is_witness; by rewrite Hdel).
  assert (stored g (g + 1) (<[row_key_digest witness := encoded]> (w_active w)) m') as St'.
  { apply (stored_write g (w_active w) m (row_key_digest witness) encoded e m'); try done.
    - by apply witness_live.
    - intros d' e' Hne He'. rewrite Hdig in Hne.
      destruct (stored_other_identity g (w_active w) m _ _ St Hno Hheld d' e' Hne He') as [H1 H2].
      rewrite strip_invocation, strip_task in *. unfold entry_invocation, entry_task in *.
      change (row_key (ce_record e)) with (row_key witness). by rewrite Hkey.
    - unfold settled_as. rewrite Hdel. unfold m'. rewrite Hdig. apply lookup_delete_eq.
    - intros d' Hne. unfold m'. rewrite lookup_delete_ne; [done|congruence].
    - rewrite <-Hm'. by apply rows_of_catalog. }
  pose proof (stored_publish _ _ _ _ St') as St2.
  assert (entry_at (<[row_key_digest witness := encoded]> (w_active w)) (row_key_digest witness)
          = Some e) as Hat by (by apply entry_at_insert_eq).
  pose proof (stored_remove _ _ _ _ _ _ St2 Hat Hdel) as St3.
  eapply triple_conseq; [apply (triple_delete_row (either m m') witness encoded p (g + 1)
     (w_active w) (w_generation w) (w_highwater w) (w_catalog w))| | |].
  - left. rewrite Hg. by eapply stands_for_stored.
  - right. rewrite Hg. by eapply stands_for_stored.
  - right. by eapply stands_for_stored.
  - right. by eapply stands_for_stored.
  - done.
  - intros a w' Hw'. exists (g + 1). split; [|done]. rewrite Hh, Z.max_r in Hw' by lia.
    eapply ready_of_store; [exact St3| |exact Hc'|exact Hm'|exact Hav|exact Hw'].
    intros d' e' [Hne He']%entry_at_delete. rewrite entry_at_insert_ne in He' by done.
    by apply (Hno d').
  - done.
Qed.

(** ** Acknowledgement *)

Lemma tombstone_of_witness e t :
  build_acknowledged_tombstone_record_from_witness e = Ok t →
  is_acknowledgement_commit e = true ∧ is_expired_deletion e = false
  ∧ row_is_tombstone t = true ∧ row_mutation_sequence t = 0
  ∧ row_key_digest t = row_key_digest (ce_record e) ∧ row_key t = row_key (ce_record e).
Proof.
  unfold build_acknowledged_tombstone_record_from_witness, is_acknowledgement_commit,
    is_expired_deletion. intros Ht. destruct (row_lifecycle (ce_record e)); try done.
  by injection Ht as <-.
Qed.

Lemma runs_acknowledge_row g m p witness witness_encoded r encoded :
  let e := mkEntry r (blen encoded) in
  let we := mkEntry witness (blen witness_encoded) in
  replaceable m p e → written witness witness_encoded →
  build_acknowledged_tombstone_record_from_witness we = Ok r →
  serialize_reserved_record r MAX_ACKNOWLEDGED_TOMBSTONE_BYTES = Ok encoded →
  row_valid r encoded → row_mutation_sequence witness = g + 1 → g + 1 ≤ u64_max →
  (∀ t at_, row_lifecycle r = LAcknowledgedTombstone t at_ → T.1 ≤ at_) →
  advances (entry_without_result_body p) (entry_without_result_body e) →
  runs T g m (acknowledge_row witness witness_encoded r encoded e (g + 1))
    (λ _ g' m', g' = g + 1 ∧ m' = <[row_key_digest r := entry_without_result_body e]> m).
Proof.
  intros e we Hrep Hw Hbuild Henc Hv Hseq Hmax Hat_ Hadv.
  destruct (tombstone_of_witness we r Hbuild) as (Hack & Hndel & Htomb & Hzero & Htd & Htk).
  assert (written r encoded) as Hwr by (eapply serialized_decodes; eauto using tombstone_reads_back).
  pose proof (rep_held m p e Hrep) as Hheld. unfold held in Hheld.
  assert (entry_digest p = row_key_digest r) as Hdig by (by rewrite <-(rep_digest m p e Hrep)).
  rewrite Hdig in Hheld. set (m' := <[row_key_digest r := entry_without_result_body e]> m).
  apply (runs_mutation g m m' (Advanced (row_key_digest r) (entry_without_result_body e)));
    [by eapply step_advance| |].
  { unfold within. cbn. unfold row_is_tombstone in Htomb. destruct (row_lifecycle r) eqn:El; try done.
    cbn. by eapply Hat_. }
  intros w Rd. destruct Rd as [St Hno Hg Hh Hc Hrec Hav].
  assert (entry_fits e) as Hfit by (by eapply decode_fits).
  destruct (commit_replace_ok (w_catalog w) p e Hc Hfit) as (c' & Hcom & Hc' & Hrec' & Hun').
  { by rewrite Hrec. }
  assert (cat_records c' = m') as Hm' by (by rewrite Hrec', Hrec).
  assert (stored g (g + 1) (<[row_key_digest r := witness_encoded]> (w_active w)) m') as St'.
  { apply (stored_write g (w_active w) m (row_key_digest r) witness_encoded we m'); try done.
    - by rewrite Htd.
    - apply witness_live. unfold is_witness. by rewrite Hack, orb_true_r.
    - intros d' e' Hne He'.
      destruct (stored_other_identity g (w_active w) m _ _ St Hno Hheld d' e' Hne He') as [H1 H2].
      rewrite strip_invocation, strip_task in *. unfold entry_invocation, entry_task in *.
      rewrite <-Htk. change (row_key r) with (row_key (ce_record e)).
      by rewrite (rep_key m p e Hrep).
    - unfold settled_as. rewrite Hndel, Hack. exists r, encoded. unfold m'.
      by rewrite lookup_insert_eq.
    - intros d' Hne. unfold m'. by rewrite lookup_insert_ne.
    - rewrite <-Hm'. by apply rows_of_catalog. }
  pose proof (stored_publish _ _ _ _ St') as St2.
  assert (entry_at (<[row_key_digest r := witness_encoded]> (w_active w)) (row_key_digest r)
          = Some we) as Hat by (apply entry_at_insert_eq; by rewrite Htd).
  pose proof (stored_compact _ _ _ _ _ _ _ _ St2 Hat Hack Hbuild Henc) as St3.
  eapply triple_conseq; [apply (triple_acknowledge_row (either m m') witness witness_encoded r
     encoded e (g + 1) (w_active w) (w_generation w) (w_highwater w) (w_catalog w) c')| | |].
  - done.
  - left. rewrite Hg. by eapply stands_for_stored.
  - right. rewrite Hg. by eapply stands_for_stored.
  - right. by eapply stands_for_stored.
  - right. by eapply stands_for_stored.
  - done.
  - done.
  - intros a w' Hw'. exists (g + 1). split; [|done]. rewrite Hh, Z.max_r in Hw' by lia.
    eapply ready_of_store; [exact St3| |exact Hc'|exact Hm'| |exact Hw'].
    + rewrite insert_insert_eq. eapply no_witness_insert; [done|exact Hwr|].
      unfold is_witness, is_expired_deletion, is_acknowledgement_commit. cbn.
      unfold row_is_tombstone in Htomb. by destruct (row_lifecycle r).
    + by rewrite Hun'.
  - done.
Qed.
End Mutations.
