(* ===== verification/ReceiptReopen.v ===== *)
(** * Receipt store: reopening

    Opening a ledger on a disk that stands for some rows: under any answers
    of the environment the disk goes on standing for the same rows, and a
    ledger that opens is ready with exactly them; where nothing fails, it
    opens. *)

From Stdlib Require Import ZArith Lia String.
From stdpp Require Import base gmap list option numbers countable strings.
From S2P Require Import Prelude Contract ResultSize Redaction ReceiptLedger ReceiptStates.
From S2P Require Import ReceiptRows ReceiptCatalog ReceiptCatalogFacts ReceiptCatalogProps.
From S2P Require Import ReceiptRecords ReceiptStore ReceiptOps.
From S2P Require Import ReceiptTerminals ReceiptRecovery ReceiptDisk ReceiptRecoveryProps.
From S2P Require Import ReceiptMachine ReceiptHoare ReceiptRuns ReceiptMutations.

Local Open Scope Z_scope.

Section Reopen.
Context {C : ReceiptCodec} {R : RowCodec C} {L : RowCodecLaws C R}.

Notation Row := (StoredActiveReceiptV1 json_value).
Notation Entry := (CatalogEntry json_value).
Notation Catalog := (ReceiptCatalog json_value).
Notation Rows := (gmap digest Entry).
Implicit Types (m : Rows) (g : Z) (d : digest) (r : Row) (e : Entry) (w : World) (c : Catalog)
  (act : gmap digest (list Z)).

(** ** Under any answers *)

Section Keeps.
Context (m : Rows).
Notation durable := (durable (stands_for m)).

(** The generation read from a known store. *)
Lemma triple_read_generation act g h c :
  0 ≤ g ≤ u64_max → stands_for m act (generation_bytes g) →
  triple durable (is_store act (generation_bytes g) h c) generation_under_writer_lock
    (λ n w, n = Z.max g h ∧ is_store act (generation_bytes g) h c w)
    (λ _, is_store act (generation_bytes g) h c).
Proof.
  intros Hg HK. unfold generation_under_writer_lock.
  do 2 (apply store_quiet_then; [first [apply quiet_verify|apply quiet_io]|done|done|]; intros _).
  eapply triple_bind with
    (Q := λ bs w, bs = generation_bytes g ∧ is_store act (generation_bytes g) h c w).
  { apply triple_gets. intros w Hw. split; [apply Hw|done]. }
  intros bs. apply triple_pure. intros ->. rewrite generation_round_trip by done.
  eapply triple_bind with (Q := λ n w, n = g ∧ is_store act (generation_bytes g) h c w).
  { by apply triple_ret. }
  intros n. apply triple_pure. intros ->.
  apply store_quiet_then; [apply quiet_verify|done|done|]. intros _.
  eapply triple_bind with (Q := λ n w, n = h ∧ is_store act (generation_bytes g) h c w).
  { apply triple_gets. intros w Hw. split; [apply Hw|done]. }
  intros n. apply triple_pure. intros ->. by apply triple_ret.
Qed.

(** Removing witnesses one after another. *)
Lemma triple_remove_witnesses ds act gb h c :
  (∀ k, stands_for m (foldl (λ act d, delete d act) act (take k ds)) gb) →
  triple durable (is_store act gb h c) (remove_witnesses ds)
    (λ _, is_store (foldl (λ act d, delete d act) act ds) gb h c) (λ _, durable).
Proof.
  revert act. induction ds as [|d ds IH]; intros act HK.
  - pose proof (HK 0%nat) as HK0. cbn in *.
    apply store_quiet_then; [apply quiet_verify|done|intros e w; by apply is_store_durable|].
    intros _. eapply triple_weaken; [apply store_quiet; [apply quiet_check_deadline|done]|].
    intros e w. by apply is_store_durable.
  - pose proof (HK 0%nat) as HK0. pose proof (HK 1%nat) as HK1. cbn in HK0, HK1 |- *.
    do 3 (apply store_quiet_then; [first [apply quiet_check_deadline|apply quiet_verify|apply quiet_io]
      |done|intros e w; by apply is_store_durable|]; intros _).
    eapply triple_bind with (Q := λ a w, a = act ∧ is_store act gb h c w).
    { apply triple_gets. intros w Hw. split; [apply Hw|done]. }
    intros a. apply triple_pure. intros ->.
    eapply triple_bind with (Q := λ _, is_store (delete d act) gb h c).
    { apply triple_modify. intros w (H1 & H2 & H3 & H4). by repeat split. }
    intros _. apply store_quiet_then;
      [apply quiet_check_deadline|done|intros e w; by apply is_store_durable|].
    intros _. apply IH. intros k. exact (HK (S k)).
Qed.

(** ** Finishing what was pending *)

(** The files with the pending acknowledgement finished. *)
Definition finish_acknowledgement (s : Recovered) (act : gmap digest (list Z))
  : gmap digest (list Z) :=
  match rc_acknowledgement s with
  | None => act
  | Some (t, encoded, _) => <[row_key_digest t := encoded]> act
  end.
(** Only deletion witnesses are pending, and they are [ds]. *)
Definition only_deletions (act : gmap digest (list Z)) (ds : list digest) : Prop :=
  (∀ d e, entry_at act d = Some e → is_witness e = true → is_expired_deletion e = true)
  ∧ ∀ d, d ∈ ds ↔ ∃ e, entry_at act d = Some e ∧ is_expired_deletion e = true.

Lemma acknowledgement_finished g top act s gn :
  stored g top act m → recovered g top act m s → stored gn gn act m →
  stored gn gn (finish_acknowledgement s act) m
  ∧ only_deletions (finish_acknowledgement s act) (rc_expired_deletions s).
Proof.
  intros St Re Stn. pose proof (re_acknowledgement _ _ _ _ _ Re) as Hack.
  pose proof (re_deletions _ _ _ _ _ Re) as Hdel. unfold finish_acknowledgement.
  destruct (rc_acknowledgement s) as [[[t enc] q]|].
  2:{ split; [done|]. split; [|done]. intros d e He Hw. unfold is_witness in Hw.
      rewrite (Hack d e He), orb_false_r in Hw. done. }
  destruct Hack as (d & e & He & Hx & Hb & Henc).
  destruct (tombstone_of_witness e t Hb) as (_ & Hndel & Htomb & Hzero & Htd & Htk).
  assert (row_key_digest t = d) as Hd.
  { rewrite Htd. exact (entry_at_digest _ _ _ He). }
  pose proof (stored_compact _ _ _ _ _ _ _ _ Stn He Hx Hb Henc) as St2. rewrite Hd.
  split; [done|].
  assert (∀ e', entry_at (<[d := enc]> act) d = Some e' → is_witness e' = false) as Hplain.
  { intros e' He'. pose proof (stored_entry _ _ _ _ _ _ Stn He) as Hset. unfold settled_as in Hset.
    rewrite Hndel, Hx in Hset. destruct Hset as (t' & enc' & Ht' & Henc' & Hv & _).
    rewrite Hb in Ht'. injection Ht' as <-. rewrite Henc in Henc'. injection Henc' as <-.
    assert (decode_active_record enc d = Ok (mkEntry t (blen enc))) as Hdec.
    { rewrite <-Hd. eapply serialized_decodes; eauto using tombstone_reads_back. }
    rewrite (entry_at_insert_eq act d enc _ Hdec) in He'. injection He' as <-.
    unfold is_witness, is_expired_deletion, is_acknowledgement_commit. cbn.
    unfold row_is_tombstone in Htomb. by destruct (row_lifecycle t). }
  split.
  - intros d' e' He' Hw. destruct (decide (d = d')) as [<-|Hne].
    { by rewrite (Hplain e' He') in Hw. }
    rewrite entry_at_insert_ne in He' by done. exfalso. apply Hne.
    apply (one_witness _ _ _ _ d d' e e' St He He'); [|done]. unfold is_witness.
    by rewrite Hx, orb_true_r.
  - intros d'. rewrite Hdel. destruct (decide (d = d')) as [<-|Hne].
    + split; [intros (e' & He' & Hx'); congruence|]. intros (e' & He' & Hx').
      apply Hplain in He'. unfold is_witness in He'. by rewrite Hx' in He'.
    + by setoid_rewrite entry_at_insert_ne.
Qed.

Lemma deletions_finished gn act ds :
  stored gn gn act m → only_deletions act ds → (length ds ≤ 1)%nat →
  (∀ k, stands_for m (foldl (λ act d, delete d act) act (take k ds)) (generation_bytes gn))
  ∧ stored gn gn (foldl (λ act d, delete d act) act ds) m
  ∧ no_witness (foldl (λ act d, delete d act) act ds).
Proof.
  intros St [Hw Hds] Hlen. destruct ds as [|d [|]]; [| |cbn in Hlen; lia].
  - split_and!; [intros k; rewrite take_nil; by eapply stands_for_stored|done|].
    intros d e He. destruct (is_witness e) eqn:Hx; [|done].
    assert (d ∈ @nil digest) as []%not_elem_of_nil. apply Hds. eauto.
  - destruct (proj1 (Hds d)) as (e & He & Hx); [by left|].
    pose proof (stored_remove _ _ _ _ _ _ St He Hx) as St'. split_and!; [|done|].
    + intros [|k]; cbn; rewrite ?take_nil; by eapply stands_for_stored.
    + intros d' e' [Hne He']%entry_at_delete. destruct (is_witness e') eqn:Hx'; [|done].
      exfalso. apply Hne. symmetry. apply list_elem_of_singleton, Hds. eauto.
Qed.

(** ** The whole of [reopen] *)

Lemma triple_reopen_rest g top act s c0 :
  stored g top act m → recovered g top act m s →
  triple durable (is_store act (generation_bytes g) g c0) (reopen_rest s g)
    (λ _ w, ∃ g', ready g' m w) (λ _, durable).
Proof.
  intros St Re. pose proof (re_range _ _ _ _ _ Re) as Hrange. pose proof (st_generation _ _ _ _ St).
  set (gn := Z.max g (rc_maximum_sequence s)).
  assert (stored gn gn act m) as Stn.
  { apply (stored_catch_up g top); [done|lia|]. apply (re_maximum _ _ _ _ _ Re). }
  destruct (acknowledgement_finished g top act s gn St Re Stn) as [St2 Hod].
  destruct (deletions_finished gn _ _ St2 Hod (re_deletions_length _ _ _ _ _ Re))
    as (Hk & St3 & Hnw).
  assert (∀ act gb h c w, stands_for m act gb → is_store act gb h c w → durable w) as Hdur.
  { intros act' gb h c w HK. by apply is_store_durable. }
  unfold reopen_rest.
  eapply triple_bind with (Q := λ _, is_store act (generation_bytes gn) gn c0).
  { destruct (Z.ltb_spec g (rc_maximum_sequence s)) as [Hlt|Hge].
    - assert (gn = rc_maximum_sequence s) as Hgn by lia.
      eapply triple_conseq; [apply (triple_publish_generation (stands_for m))|done| |].
      + by eapply stands_for_stored.
      + rewrite <-Hgn. by eapply stands_for_stored.
      + intros [] w Hw. rewrite <-Hgn in Hw. by replace (Z.max g gn) with gn in Hw by lia.
      + intros e w [Hw|Hw]; (eapply Hdur; [|exact Hw]); [by eapply stands_for_stored|].
        rewrite <-Hgn. by eapply stands_for_stored.
    - assert (gn = g) as -> by lia. by apply triple_ret. }
  intros _.
  eapply triple_bind with
    (Q := λ _, is_store (finish_acknowledgement s act) (generation_bytes gn) gn c0).
  { unfold finish_acknowledgement in *.
    destruct (rc_acknowledgement s) as [[[t enc] q]|]; [|by apply triple_ret].
    assert (stands_for m act (generation_bytes gn)) as HK1 by by eapply stands_for_stored.
    assert (stands_for m (<[row_key_digest t := enc]> act) (generation_bytes gn)) as HK2
      by by eapply stands_for_stored.
    eapply triple_bind with
      (Q := λ _, is_store (<[row_key_digest t := enc]> act) (generation_bytes gn) gn c0).
    { eapply triple_weaken.
      - apply (triple_publish_row (stands_for m) true t enc (mret tt)); [done|done|].
        by apply triple_ret.
      - intros e w [Hw|[Hw _]]; eauto. }
    intros _. eapply triple_bind with
      (Q := λ _, is_store (<[row_key_digest t := enc]> act) (generation_bytes gn) gn c0).
    { eapply triple_conseq; [apply triple_attempt, store_quiet; [apply quiet_read_bytes|exact HK2]
        |done|by intros [] w Hw|intros e w Hw; exact Hw]. }
    intros [[bs|]|e]; [case_bool_decide; [by apply triple_ret|]|..];
      apply triple_refuse; eauto. }
  intros _.
  eapply triple_bind; [by apply triple_remove_witnesses|]. intros [].
  apply store_quiet_then; [apply quiet_check_deadline|by eapply stands_for_stored| |].
  { intros e w. apply Hdur. by eapply stands_for_stored. }
  intros _. apply triple_modify. intros w (H1 & H2 & H3 & H4). exists gn.
  eapply ready_of_store; [exact St3|exact Hnw|apply (re_catalog _ _ _ _ _ Re)
    |apply (re_records _ _ _ _ _ Re)|apply (re_available _ _ _ _ _ Re)|].
  by repeat split.
Qed.

Lemma triple_reopen g top act h c0 :
  stored g top act m →
  triple durable (is_store act (generation_bytes g) h c0) reopen
    (λ _ w, ∃ g', ready g' m w) (λ _, durable).
Proof.
  intros St. destruct (recover_contents g top act m St) as (s & Hs & Re).
  pose proof (st_generation _ _ _ _ St). pose proof (st_top _ _ _ _ St). pose proof (st_max _ _ _ _ St).
  assert (stands_for m act (generation_bytes g)) as HK by by eapply stands_for_stored.
  assert (∀ h c w, is_store act (generation_bytes g) h c w → durable w) as Hdur.
  { intros h' c w. by apply is_store_durable. }
  unfold reopen.
  do 2 (apply store_quiet_then; [first [apply quiet_check_deadline|apply quiet_verify]|done
    |intros e w; apply Hdur|]; intros _).
  eapply triple_bind with (Q := λ a w, a = act ∧ is_store act (generation_bytes g) h c0 w).
  { apply triple_gets. intros w Hw. split; [apply Hw|done]. }
  intros a. apply triple_pure. intros ->.
  apply store_quiet_then; [apply quiet_io|done|intros e w; apply Hdur|]. intros _. rewrite Hs.
  eapply triple_bind with (Q := λ x w, x = s ∧ is_store act (generation_bytes g) h c0 w).
  { by apply triple_ret. }
  intros x. apply triple_pure. intros ->.
  do 2 (apply store_quiet_then; [first [apply quiet_check_deadline|apply quiet_io]|done
    |intros e w; apply Hdur|]; intros _).
  eapply triple_bind with (Q := λ b w, b = generation_bytes g
                                        ∧ is_store act (generation_bytes g) h c0 w).
  { apply triple_gets. intros w Hw. split; [apply Hw|done]. }
  intros b. apply triple_pure. intros ->. rewrite generation_round_trip by lia.
  eapply triple_bind with (Q := λ n w, n = g ∧ is_store act (generation_bytes g) h c0 w).
  { by apply triple_ret. }
  intros n. apply triple_pure. intros ->. rewrite (re_pending _ _ _ _ _ Re).
  apply store_quiet_then; [apply quiet_ret|done|intros e w; apply Hdur|]. intros _.
  eapply triple_bind with (Q := λ _, is_store act (generation_bytes g) g c0).
  { apply triple_modify. intros w (? & ? & ? & ?). by repeat split. }
  intros _. eapply triple_bind with
    (Q := λ _, is_store act (generation_bytes g) g catalog_default).
  { apply triple_modify. intros w (? & ? & ? & ?). by repeat split. }
  intros _. do 2 (apply store_quiet_then; [first [apply quiet_check_deadline|apply quiet_verify]
    |done|intros e w; apply Hdur|]; intros _).
  eapply triple_bind with
    (Q := λ n w, n = g ∧ is_store act (generation_bytes g) g catalog_default w).
  { eapply triple_latched.
    - eapply triple_conseq; [apply (triple_read_generation act g g catalog_default); [lia|done]
        |done| |intros e w Hw; exact Hw].
      intros n w [-> Hw]. split; [lia|done].
    - intros e w (E1 & E2 & _). unfold ReceiptHoare.durable. cbn [set_catalog w_active w_generation].
      by rewrite E1, E2. }
  intros n. apply triple_pure. intros ->. rewrite Z.eqb_refl. cbn [negb].
  by apply (triple_reopen_rest g top).
Qed.
End Keeps.

Lemma reopen_ends m w :
  holds m w →
  match reopen w with
  | (w', Done _) => ∃ g, ready g m w'
  | (w', _) => holds m w'
  end.
Proof.
  intros (g & top & St & Hg).
  pose proof (triple_reopen m g top (w_active w) (w_highwater w) (w_catalog w) St w) as H.
  destruct (reopen w) as [w' [a|e| |]]; apply H; by repeat split.
Qed.

(** ** Where nothing fails *)

(** [c] answers [a] from [w] and leaves [w']. *)
Definition does {A : Type} (c : M A) (w w' : World) (a : A) : Prop := c w = (w', Done a).
Definition calm (w : World) : Prop := w_answers w = [].

Lemma does_bind {A B : Type} (c : M A) (f : A → M B) w w1 w2 a b :
  does c w w1 a → does (f a) w1 w2 b → does (c ≫= f) w w2 b.
Proof. unfold does, mbind, M_bind. by intros -> H. Qed.
Lemma does_ask w : calm w → does ask w w Fine.
Proof. unfold does, ask. by intros ->. Qed.
Lemma does_check_deadline w : calm w → does check_deadline w w tt.
Proof. intros Hw. by eapply does_bind; [apply does_ask|]. Qed.
Lemma does_io w : calm w → does io w w tt.
Proof. intros Hw. by eapply does_bind; [apply does_ask|]. Qed.
Lemma does_verify w : calm w → does verify_named_authority w w tt.
Proof. intros Hw. by eapply does_bind; [apply does_ask|]. Qed.
Lemma does_attempt {A : Type} (c : M A) w w' a : does c w w' a → does (attempt c) w w' (Ok a).
Proof. unfold does, attempt. by intros ->. Qed.
Lemma does_succeeds {A : Type} (c : M A) w w' a : does c w w' a → does (succeeds c) w w' true.
Proof. intros H. by eapply does_bind; [apply does_attempt|]. Qed.
Lemma does_latched {A : Type} (c : M A) w w' a : does c w w' a → does (latched c) w w' a.
Proof. intros H. by eapply does_bind; [apply does_attempt|]. Qed.
Lemma does_map_error {A : Type} f (c : M A) w w' a : does c w w' a → does (map_error f c) w w' a.
Proof. intros H. by eapply does_bind; [apply does_attempt|]. Qed.

Ltac does_step :=
  first [ apply does_check_deadline; done | apply does_io; done | apply does_verify; done
        | eapply does_succeeds; does_step | apply does_attempt; does_step
        | apply does_latched; does_step | apply does_map_error; does_step | reflexivity ].
(** The next step of a sequence. *)
Ltac does_next := eapply does_bind; [does_step|]; cbv beta iota; cbn [negb].

Lemma does_stage w : calm w → does stage_file w w tt.
Proof. intros Hw. unfold stage_file. do 4 does_next. reflexivity. Qed.
Lemma does_publish_generation next o w :
  calm w →
  does (publish_generation next o) w
    (set_highwater (Z.max (w_highwater w) next) (set_generation (generation_bytes next) w)) tt.
Proof.
  intros Hw. apply does_map_error. do 2 does_next. eapply does_bind; [by apply does_stage|].
  cbv beta. do 2 does_next. assert (calm (set_generation (generation_bytes next) w)) by done.
  do 4 does_next. reflexivity.
Qed.
Lemma does_publish_row r encoded w :
  calm w →
  does (publish_replacement_record r encoded (mret tt)) w
    (set_active (<[row_key_digest r := encoded]> (w_active w)) w) tt.
Proof.
  intros Hw. unfold publish_replacement_record, publish_row. do 2 does_next.
  eapply does_bind; [by apply does_stage|]. cbv beta.
  assert (calm (set_active (<[row_key_digest r := encoded]> (w_active w)) w)) by done.
  eapply does_bind.
  { unfold rename_row. do 2 does_next. cbn [orb andb]. reflexivity. }
  cbv beta. do 3 does_next. reflexivity.
Qed.
Lemma does_read_bytes d bs w :
  calm w → w_active w !! d = Some bs → blen bs ≤ MAX_RECEIPT_ENTITLEMENT_BYTES →
  does (read_active_record_bytes d) w w (Some bs).
Proof.
  intros Hw Hd Hlen. unfold read_active_record_bytes. do 2 does_next. rewrite Hd.
  by rewrite (proj2 (Z.ltb_ge _ _) Hlen).
Qed.
Lemma does_remove_witnesses ds w :
  calm w → ∃ w', does (remove_witnesses ds) w w' tt ∧ calm w'.
Proof.
  revert w. induction ds as [|d ds IH]; intros w Hw; cbn.
  - exists w. split; [|done]. does_next. by apply does_check_deadline.
  - destruct (IH (set_active (delete d (w_active w)) w)) as (w' & Hw' & Hc); [done|].
    exists w'. split; [|done]. do 4 does_next.
    assert (calm (set_active (delete d (w_active w)) w)) by done.
    do 2 does_next. exact Hw'.
Qed.

Lemma reopen_rest_succeeds g top act m s w :
  stored g top act m → recovered g top act m s → w_active w = act → calm w →
  ∃ w', does (reopen_rest s g) w w' tt.
Proof.
  intros St Re Hact Hw. unfold reopen_rest.
  assert (∃ w1, does (if g <? rc_maximum_sequence s
      then publish_generation (rc_maximum_sequence s) None else mret tt) w w1 tt
      ∧ calm w1) as (w1 & H1 & Hc1).
  { destruct (g <? rc_maximum_sequence s).
    - eexists. split; [by apply does_publish_generation|done].
    - by exists w. }
  pose proof (re_acknowledgement _ _ _ _ _ Re) as Hack.
  destruct (rc_acknowledgement s) as [[[t enc] q]|].
  - destruct Hack as (d & e & _ & _ & _ & (_ & _ & Hmax & _)%serialize_Ok).
    set (w2 := set_active (<[row_key_digest t := enc]> (w_active w1)) w1).
    assert (calm w2) as Hc2 by done.
    destruct (does_remove_witnesses (rc_expired_deletions s) w2 Hc2) as (w3 & H3 & Hc3).
    eexists. eapply does_bind; [exact H1|]. cbv beta. eapply does_bind.
    { eapply does_bind; [by apply does_publish_row|]. cbv beta. fold w2.
      eapply does_bind; [apply does_attempt, (does_read_bytes _ enc); [done| |done]|].
      - cbn. apply lookup_insert_eq.
      - cbv beta iota. rewrite bool_decide_true by done. reflexivity. }
    cbv beta. eapply does_bind; [exact H3|]. cbv beta. does_next. reflexivity.
  - destruct (does_remove_witnesses (rc_expired_deletions s) w1 Hc1) as (w3 & H3 & Hc3).
    eexists. eapply does_bind; [exact H1|]. cbv beta. does_next.
    eapply does_bind; [exact H3|]. cbv beta. does_next. reflexivity.
Qed.

Lemma reopen_succeeds m w : holds m w → calm w → ∃ w', reopen w = (w', Done tt).
Proof.
  intros (g & top & St & Hg) Hw. destruct (recover_contents _ _ _ _ St) as (s & Hs & Re).
  pose proof (st_generation _ _ _ _ St). pose proof (st_top _ _ _ _ St). pose proof (st_max _ _ _ _ St).
  set (w1 := set_catalog catalog_default (set_highwater g w)).
  assert (calm w1) as Hc1 by done.
  destruct (reopen_rest_succeeds g top (w_active w) m s w1 St Re eq_refl Hc1) as (w2 & H2).
  exists w2. unfold reopen. change (does reopen w w2 tt). unfold reopen.
  do 4 does_next. rewrite Hs. do 4 does_next. rewrite Hg, generation_round_trip by lia.
  does_next. rewrite (re_pending _ _ _ _ _ Re). does_next.
  eapply does_bind; [reflexivity|]. eapply does_bind; [reflexivity|]. cbv beta. fold w1.
  do 2 does_next. eapply does_bind.
  { apply does_latched. unfold generation_under_writer_lock. do 3 does_next.
    change (w_generation w1) with (w_generation w). rewrite Hg, generation_round_trip by lia.
    do 3 does_next. reflexivity. }
  cbv beta. change (w_highwater w1) with g. rewrite Z.max_id, Z.eqb_refl. exact H2.
Qed.
End Reopen.
