(* ===== verification/ReceiptSafety.v ===== *)
(** * Receipt store: operations under failures

    Every operation on reservations, direct terminals and tombstones, run
    from a ready store under any answers of the environment, makes only
    steps of the receipt machine and leaves a disk that stands for the
    contents it reached. *)

From Stdlib Require Import ZArith Lia String.
From stdpp Require Import base gmap list option numbers countable strings.
From S2P Require Import Prelude Contract ResultSize Redaction ReceiptLedger ReceiptStates.
From S2P Require Import ReceiptRows ReceiptCatalog ReceiptCatalogFacts ReceiptCatalogProps.
From S2P Require Import ReceiptRecords ReceiptStore ReceiptOps.
From S2P Require Import ReceiptTerminals ReceiptRecovery ReceiptDisk ReceiptMachine ReceiptHoare.
From S2P Require Import ReceiptRuns ReceiptMutations.

Local Open Scope Z_scope.

Section Safety.
Context {C : ReceiptCodec} {R : RowCodec C} {L : RowCodecLaws C R}.
Context {T : Z * Z}.

Notation Row := (StoredActiveReceiptV1 json_value).
Notation Entry := (CatalogEntry json_value).
Notation Rows := (gmap digest Entry).
Notation State := (ReceiptState json_value).
Implicit Types (m : Rows) (g : Z) (d : digest) (r : Row) (e p : Entry).

(** ** Rows that follow a row *)

Lemma read_from_valid d e :
  read_from d e →
  row_key_digest (ce_record e) = d ∧ receipt_key_digest (row_key (ce_record e)) = d
  ∧ (is_tombstone e = false →
       row_mutation_sequence (ce_record e) ≠ 0 ∧ 0 < row_record_version (ce_record e))
  ∧ ∃ bs limit, validate_lifecycle (ce_record e) bs = Ok limit.
Proof.
  intros (bs & (Hv & Hd & _ & _ & Hp)%decode_Ok & _).
  apply validate_active_record_Ok in Hv as (_ & Hs & _ & Hk & limit & Hl & _).
  split_and!; [done|by rewrite Hk| |eauto]. intros Ht.
  split; [destruct Hs as [Hs|Hs]; [done|]; by change (is_tombstone e = true) in Hs; rewrite Ht in Hs|].
  unfold parse_row in Hp. destruct (row_from_slice bs) as [r|] eqn:Hrow.
  - injection Hp as ->. by eapply row_version_positive.
  - destruct (tombstone_from_slice bs) as [[[[k t] a] v]|]; [|done]. cbn in Hp.
    injection Hp as Hp. unfold is_tombstone in Ht. by rewrite <-Hp in Ht.
Qed.

(** A row of the same key is valid when its lifecycle is. *)
Lemma follows_valid d e r bs limit :
  read_from d e → row_schema_version r = RECEIPT_RECORD_SCHEMA_VERSION →
  row_mutation_sequence r ≠ 0 ∨ row_is_tombstone r = true →
  row_key r = row_key (ce_record e) → row_key_digest r = d →
  validate_lifecycle r bs = Ok limit → blen bs ≤ limit → row_valid r bs.
Proof.
  intros (_ & Hk & _)%read_from_valid Hs Hq Hkey Hd Hl Hle. apply validate_active_record_Ok.
  split_and!; [|done|done|by rewrite Hkey, Hd|by exists limit].
  unfold schema_supported. by rewrite Hs.
Qed.
Lemma checked_next_Some v v' : checked_next v = Some v' → v' = v + 1.
Proof.
  unfold checked_next. rewrite bind_Some. intros (x & Hx & Hv). apply u64_checked_add_Some in Hx.
  unfold version_new in Hv. destruct (x =? 0); [done|]. naive_solver lia.
Qed.
Lemma checked_next_max v v' : checked_next v = Some v' → v' ≤ u64_max.
Proof.
  unfold checked_next. rewrite bind_Some. intros (x & Hx & Hv). apply u64_checked_add_Some in Hx.
  unfold version_new in Hv. destruct (x =? 0); [done|]. naive_solver lia.
Qed.
Lemma next_row_Ok e sequence l r :
  next_row e sequence l = Ok r →
  ∃ v, checked_next (row_record_version (ce_record e)) = Some v
       ∧ r = successor_row e sequence v l.
Proof. unfold next_row. intros H. break H. checked_result. eauto. Qed.
Lemma serialize_within r maximum bs :
  serialize_reserved_record r maximum = Ok bs → blen bs ≤ maximum.
Proof. by intros (_ & H & _)%serialize_Ok. Qed.

(** ** Retention *)

(** What a builder of deletion witnesses promises of an expired row. *)
Definition deletes (g observed : Z) (d : digest) (e : Entry) (witness : Row) : Prop :=
  (∀ bs, blen bs ≤ MAX_CANCEL_RESERVED_RECORD_BYTES → row_valid witness bs)
  ∧ is_expired_deletion (mkEntry witness 0) = true
  ∧ row_key witness = row_key (ce_record e) ∧ row_key_digest witness = d
  ∧ row_mutation_sequence witness = g + 1
  ∧ retention_over (entry_without_result_body e) observed = true.

Lemma reached_true a ttl observed :
  reached a ttl observed = true ↔ a + ttl ≤ u64_max ∧ a + ttl ≤ observed.
Proof.
  unfold reached. rewrite is_some_and_true. setoid_rewrite u64_checked_add_Some.
  setoid_rewrite Z.leb_le. naive_solver lia.
Qed.

Lemma tombstone_deletes g d e receipt observed witness :
  read_from d e → 0 ≤ g → state e = Ok (SAcknowledgedTombstone receipt) →
  tombstone_expires_at receipt ≤ observed →
  build_expired_tombstone_deletion_record e observed (g + 1) = Ok witness →
  deletes g observed d e witness.
Proof.
  intros Hr Hg Hst Hexp Hb. pose proof Hr as (Hd & Hk & _)%read_from_valid.
  unfold build_expired_tombstone_deletion_record in Hb. unfold state in Hst.
  destruct (row_lifecycle (ce_record e)) as
    [| | | | | | | | | | | | | | | |terminal at_] eqn:El; try done. injection Hb as <-.
  unfold tombstone_new in Hst.
  destruct (u64_checked_add at_ ACKNOWLEDGED_TOMBSTONE_TTL_MS) as [x|] eqn:Hx; [|done].
  injection Hst as <-. unfold tombstone_expires_at in Hexp. cbn in Hexp.
  pose proof Hx as [-> Hmax]%u64_checked_add_Some. split_and!; try done.
  - intros bs Hbs. eapply (follows_valid d e); try done; [left; cbn; lia|].
    unfold validate_lifecycle. cbn [successor_row row_lifecycle row_record_version Z.eqb Pos.eqb
      fail_unless]. rewrite Hx. cbn [ok_or]. by rewrite (proj2 (Z.leb_le _ _) Hexp).
  - unfold retention_over, entry_is_expired_tombstone, entry_without_result_body,
      without_result_body, row_set_body. cbn [ce_record row_lifecycle]. rewrite El.
    cbn [set_result_body]. rewrite (proj2 (reached_true _ _ _)); done.
Qed.

Lemma direct_deletes g d e receipt observed expires witness :
  read_from d e → entry_sequence e ≤ g → 0 ≤ g →
  state e = Ok (SDirectTerminalUnacked receipt) →
  u64_checked_add (dt_terminal_epoch_ms receipt) DIRECT_TERMINAL_RETENTION_MS = Some expires →
  expires ≤ observed →
  build_expired_direct_deletion_record e observed (g + 1) = Ok witness →
  deletes g observed d e witness.
Proof.
  intros Hr Hseq Hg Hst Hx Hexp Hb. pose proof Hr as (Hd & Hk & Hq & bs0 & limit & Hl)%read_from_valid.
  unfold build_expired_direct_deletion_record in Hb. unfold state in Hst.
  destruct (row_lifecycle (ce_record e)) as
    [| | | | | | | | | | | | |cutoff epoch terminal body| | |] eqn:El; try done.
  destruct (restore_held_terminal body terminal); [|done]. injection Hst as <-. cbn in Hx.
  apply next_row_Ok in Hb as (v & Hv & ->).
  destruct Hq as [Hq _]; [unfold is_tombstone; by rewrite El|].
  pose proof Hx as [-> Hmax]%u64_checked_add_Some. unfold entry_sequence in Hseq.
  assert (row_record_version (ce_record e) ≠ version_initial) as Hver.
  { unfold validate_lifecycle in Hl. rewrite El in Hl. intros H. by rewrite H in Hl. }
  split_and!; try done.
  - intros bs Hbs. eapply (follows_valid d e); try done; [left; cbn; lia|].
    unfold validate_lifecycle, follows_version, follows_mutation.
    cbn [successor_row row_lifecycle row_record_version row_mutation_sequence].
    rewrite (proj2 (Z.eqb_neq _ _) Hver), bool_decide_true by done. cbn [negb andb fail_unless].
    rewrite (proj2 (Z.eqb_neq _ _) Hq), (proj2 (Z.ltb_lt _ _)) by lia. cbn [negb andb fail_unless].
    rewrite Hx. cbn [ok_or]. by rewrite (proj2 (Z.leb_le _ _) Hexp).
  - unfold retention_over, entry_is_expired_tombstone, entry_is_expired_direct_terminal,
      entry_without_result_body, without_result_body, row_set_body. cbn [ce_record row_lifecycle].
    rewrite El. cbn [set_result_body]. rewrite (proj2 (reached_true _ _ _)); done.
Qed.

Lemma runs_reclaim_row g m d expires_at build observed :
  observed < T.2 →
  (∀ e s expires witness,
     found g m d e → 0 ≤ g → state e = Ok s → expires_at s = Some (Ok expires) → expires ≤ observed →
     build e observed (g + 1) = Ok witness → deletes g observed d e witness) →
  runs T g m (reclaim_row d expires_at build observed)
    (λ _ g' m', g' = g + 1 ∧ m' = delete d m).
Proof.
  intros HT Hbuild. unfold reclaim_row. run_quiet.
  eapply runs_read; [apply reads_catalog|]. intros c0 (_ & Hc0 & _).
  eapply runs_read with (φ := λ x, m !! d = Some x).
  { apply runs_lift. intros x Hx. checked_result. by rewrite <-Hc0. }
  intros x Hx. eapply runs_read; [apply reads_entry|]. intros o Ho.
  eapply runs_read with (φ := λ e, o = Some e).
  { apply runs_lift. intros e He. by checked_result. }
  intros e ->. destruct (entry_eq e x); cbn [negb]; [|auto with runs].
  eapply runs_read with (φ := λ expires, ∃ s, state e = Ok s ∧ expires_at s = Some (Ok expires)).
  { destruct (state e) as [s|] eqn:Hs; [|auto with runs].
    destruct (expires_at s) as [[z|]|] eqn:Hz; [|auto with runs..].
    apply runs_ret. eauto. }
  intros expires (s & Hs & Hz). destruct (Z.ltb_spec observed expires) as [|Hexp];
    [auto with runs|].
  eapply runs_read; [apply reads_sequence|]. intros sequence (-> & Hmax).
  eapply runs_read with (φ := λ witness, build e observed (g + 1) = Ok witness).
  { by apply runs_lift. }
  intros witness Hw.
  eapply runs_read with (φ := λ bs, serialize_reserved_record witness
                                      MAX_CANCEL_RESERVED_RECORD_BYTES = Ok bs).
  { by apply runs_lift. }
  intros encoded Henc. eapply runs_read; [apply reads_catalog|]. intros c (Hc & Hrec & _).
  destruct (validate_catalog_remove c e) as [[]|] eqn:Hv; [|auto with runs].
  apply runs_range. intros Hg.
  destruct (Hbuild e s expires witness Ho (proj1 Hg) Hs Hz Hexp Hw)
    as (Hval & Hdel & Hkey & Hdig & Hseq & Hret).
  apply (validate_remove_Ok c e (proj1 Hc)) in Hv. rewrite Hrec in Hv.
  assert (entry_digest e = d) as Hed by (destruct Ho as (_ & Hr & _); exact (proj1 (read_from_valid d e Hr))).
  rewrite <-Hed. apply (runs_delete_row g m witness encoded e (Retired (entry_digest e) observed));
    try done.
  - eapply serialized_decodes; [exact Henc|apply Hval; by eapply serialize_within| |by eapply deletion_reads_back].
    intros Ht. exfalso. unfold is_expired_deletion in Hdel. unfold row_is_tombstone in Ht. cbn in Hdel.
    by destruct (row_lifecycle witness).
  - by rewrite Hed.
  - by eapply step_retire.
Qed.

Lemma runs_reclaim_tombstone g m d observed :
  observed < T.2 →
  runs T g m (reclaim_expired_tombstone_under_writer_lock d observed)
    (λ _ g' m', g' = g + 1 ∧ m' = delete d m).
Proof.
  intros HT. apply runs_reclaim_row; [done|]. intros e s expires witness (_ & Hr & _) Hg Hs Hz Hexp Hw.
  destruct s; try done. injection Hz as <-. by eapply tombstone_deletes.
Qed.
Lemma runs_reclaim_direct g m d observed :
  observed < T.2 →
  runs T g m (reclaim_expired_direct_terminal_under_writer_lock d observed)
    (λ _ g' m', g' = g + 1 ∧ m' = delete d m).
Proof.
  intros HT. apply runs_reclaim_row; [done|]. intros e s expires witness (_ & Hr & Hle) Hg Hs Hz Hexp Hw.
  destruct s as [| |receipt| | | | | | | | | ]; try done.
  injection Hz as Hz. apply ok_or_Ok in Hz.
  assert (is_tombstone e = false) as Ht.
  { unfold is_tombstone. unfold state in Hs. destruct (row_lifecycle (ce_record e)); try done.
    unfold tombstone_new in Hs. by destruct (u64_checked_add _ _). }
  by eapply (direct_deletes g d e receipt observed expires); auto.
Qed.

(** ** Answers *)

(** The row of [d] says [s]. *)
Definition says (m : Rows) (d : digest) (s : State) : Prop :=
  ∃ e, m !! d = Some (entry_without_result_body e) ∧ state e = Ok s.

Lemma catalog_says m c d e s :
  catalog_of m c → cat_records c !! d = Some e → state e = Ok s → says m d s.
Proof.
  intros ([W _] & <- & _) Hd Hs. exists e. split; [|done].
  destruct (wf_rows c W d e Hd) as (_ & _ & Hst). by rewrite Hst.
Qed.
Lemma found_says g m d e s : found g m d e → state e = Ok s → says m d s.
Proof. intros (Hm & _) Hs. by exists e. Qed.

(** ** Reservations *)

Definition reserved_lifecycle (phase : ReservedPhase) (reserved_at : Z)
    (cutoff : OriginalCutoffDescriptor) (cancel : bool) : StoredActiveLifecycleV1 json_value :=
  match phase with
  | Unbound => LReservedUnbound reserved_at cutoff cancel
  | ActorBound workspace => LReservedActorBound reserved_at cutoff workspace cancel
  | Begun workspace => LReservedBegun reserved_at cutoff workspace cancel
  end.
Lemma state_reserved e reserved :
  state e = Ok (SReserved reserved) →
  row_lifecycle (ce_record e)
  = reserved_lifecycle (rr_phase reserved) (rr_reserved_at reserved) (rr_original_cutoff reserved)
      (rr_cancel_requested reserved).
Proof.
  unfold state. intros Hs.
  destruct (row_lifecycle (ce_record e)) eqn:El;
    try discriminate; try (by injection Hs as <-); break Hs.
Qed.
Lemma reservation_state e reserved :
  reservation e = Reservation reserved → state e = Ok (SReserved reserved).
Proof.
  unfold reservation. intros H. destruct (state e) as [s|]; [|done].
  destruct s; try done. by injection H as ->.
Qed.
Lemma reads_reserved g m e :
  reads T g m (reserved_of e) (λ reserved, state e = Ok (SReserved reserved)).
Proof.
  unfold reserved_of. destruct (reservation e) eqn:Hr; auto with runs.
  apply runs_ret. split_and!; [done..|]. by apply reservation_state.
Qed.

Lemma reserved_plain phase reserved_at cutoff cancel :
  let l := reserved_lifecycle phase reserved_at cutoff cancel in
  set_result_body None l = l ∧ ∀ r n, row_lifecycle r = l →
    is_witness (mkEntry r n) = false ∧ row_is_tombstone r = false.
Proof.
  cbn. split; [by destruct phase|]. intros r n Hl.
  unfold is_witness, is_expired_deletion, is_acknowledgement_commit, row_is_tombstone. cbn.
  rewrite Hl. by destruct phase.
Qed.

(** A row with a reservation's lifecycle, after a valid one. *)
Lemma reserved_valid d e r phase reserved_at cutoff cancel bs :
  read_from d e → row_schema_version r = RECEIPT_RECORD_SCHEMA_VERSION →
  row_mutation_sequence r ≠ 0 → row_key r = row_key (ce_record e) → row_key_digest r = d →
  row_lifecycle r = reserved_lifecycle phase reserved_at cutoff cancel →
  reserved_at = accepted_epoch_ms cutoff →
  blen bs ≤ MAX_TASK_RECORD_ENVELOPE_BYTES → row_valid r bs.
Proof.
  intros Hr Hs Hq Hk Hd Hl -> Hbs.
  eapply (follows_valid d e); [done|done|by left|done|done| |exact Hbs].
  unfold validate_lifecycle. rewrite Hl. destruct phase; cbn; by rewrite Z.eqb_refl.
Qed.
Lemma reserved_epoch d e reserved :
  read_from d e → state e = Ok (SReserved reserved) →
  rr_reserved_at reserved = accepted_epoch_ms (rr_original_cutoff reserved).
Proof.
  intros (_ & _ & _ & bs & limit & Hl)%read_from_valid Hs%state_reserved.
  unfold validate_lifecycle in Hl. rewrite Hs in Hl.
  destruct (rr_phase reserved); cbn in Hl; break Hl; checked_result; lia.
Qed.

Lemma found_advances g m d p r n :
  found g m d p → is_tombstone p = false → row_key r = row_key (ce_record p) →
  row_key_digest r = d → row_record_version r = row_record_version (ce_record p) + 1 →
  row_mutation_sequence r = g + 1 →
  lifecycle_advances (set_result_body None (row_lifecycle (ce_record p)))
    (set_result_body None (row_lifecycle r)) →
  advances (entry_without_result_body p) (entry_without_result_body (mkEntry r n)).
Proof.
  intros (_ & Hr & Hle) Ht Hk Hd Hv Hs Hl.
  pose proof (read_from_valid d p Hr) as (Hpd & _). specialize (Hle Ht).
  unfold entry_sequence in Hle. split; cbn; try done; [congruence|right].
  unfold entry_sequence. cbn. lia.
Qed.

Lemma runs_replace_with g m d expected p r maximum :
  found g m d p → entry_eq p expected = true →
  (∀ bs, blen bs ≤ maximum → row_valid r bs) →
  is_witness (mkEntry r 0) = false → row_is_tombstone r = false → body_reads_back (row_lifecycle r) →
  row_key_digest r = d → row_mutation_sequence r = g + 1 → g + 1 ≤ u64_max →
  (∀ n, advances (entry_without_result_body p) (entry_without_result_body (mkEntry r n))) →
  runs T g m (replace_with expected r maximum)
    (λ _ g' m', g' = g + 1 ∧ ∃ n, m' = <[d := entry_without_result_body (mkEntry r n)]> m).
Proof.
  intros Hf Heq Hval Hnw Ht Hback Hd Hseq Hmax Hadv. unfold replace_with.
  eapply runs_read with (φ := λ bs, serialize_reserved_record r maximum = Ok bs).
  { by apply runs_lift. }
  intros encoded Henc. eapply runs_read; [apply reads_catalog|]. intros c (Hc & Hrec & _).
  eapply runs_read with (φ := λ u, validate_catalog_replace c expected (mkEntry r (blen encoded))
                                   = Ok u); [by apply runs_lift|].
  intros [] Hv. apply (validate_replace_Ok c _ _ (proj1 Hc)) in Hv. rewrite Hrec in Hv.
  rewrite Hseq. eapply runs_bind.
  { apply (runs_replace_row g m r encoded expected); try done.
    - eapply serialized_decodes; [exact Henc| |by rewrite Ht|done].
      apply Hval. by eapply serialize_within.
    - apply entry_eq_true in Heq. rewrite <-Heq. apply Hadv. }
  cbn. intros _ g' m' [-> ->]. apply runs_ret. rewrite Hd. eauto.
Qed.

(** The row an operation just wrote, from the catalog. *)
Lemma reads_committed g m d : reads T g m (committed_entry d)
  (λ e, ∃ c, catalog_of m c ∧ cat_records c !! d = Some e).
Proof.
  unfold committed_entry. eapply runs_read; [apply reads_catalog|]. intros c Hc. apply runs_lift.
  intros e He. checked_result. eauto.
Qed.
Lemma runs_committed_reserved g m d :
  runs T g m (e ← committed_entry d; reserved_of e) (λ reserved _ m', says m' d (SReserved reserved)).
Proof.
  eapply runs_read; [apply reads_committed|]. intros e (c & Hc & He).
  eapply runs_conseq; [apply reads_reserved|]. intros reserved g' m' (_ & -> & Hs).
  by eapply catalog_says.
Qed.

Lemma reads_version g m p expected :
  reads T g m (expect_version p expected) (λ _, row_record_version (ce_record p) = expected).
Proof.
  unfold expect_version. destruct (Z.eqb_spec (row_record_version (ce_record p)) expected);
    [by apply runs_ret|auto with runs].
Qed.
Lemma reads_next_version g m v : reads T g m (next_version v) (λ v', v' = v + 1).
Proof.
  unfold next_version. apply runs_lift. intros v' Hv. checked_result.
  by rewrite (checked_next_Some _ _ Hv).
Qed.

(** The successor of a reservation, in another phase or cancelled. *)
Lemma runs_replace_reserved g m d expected p reserved phase cancel :
  found g m d p → entry_eq p expected = true → state p = Ok (SReserved reserved) →
  lifecycle_advances (row_lifecycle (ce_record p))
    (reserved_lifecycle phase (rr_reserved_at reserved) (rr_original_cutoff reserved) cancel) →
  g + 1 ≤ u64_max →
  runs T g m
    (replace_with expected
       (successor_row p (g + 1) (row_record_version (ce_record p) + 1)
          (reserved_lifecycle phase (rr_reserved_at reserved) (rr_original_cutoff reserved) cancel))
       MAX_TASK_RECORD_ENVELOPE_BYTES)
    (λ _ _ _, True).
Proof.
  intros Hf Heq Hs Hadv Hmax. apply runs_range. intros Hg.
  pose proof Hf as (_ & Hr & _). pose proof (read_from_valid d p Hr) as (Hd & _).
  pose proof (state_reserved p reserved Hs) as Hl.
  destruct (reserved_plain phase (rr_reserved_at reserved) (rr_original_cutoff reserved) cancel)
    as [Hstrip Hplain]. cbv zeta in Hstrip, Hplain.
  eapply runs_conseq; [apply (runs_replace_with g m d expected p); try done|done].
  - intros bs Hbs. eapply (reserved_valid d p); try done; [cbn; lia|by eapply reserved_epoch].
  - by apply Hplain.
  - by eapply (Hplain _ 0).
  - by destruct phase.
  - intros n. eapply found_advances; try done.
    + by eapply (proj2 (reserved_plain _ _ _ _) (ce_record p) 0 Hl).
    + cbn [successor_row row_lifecycle]. rewrite Hstrip. by rewrite Hl, (proj1 (reserved_plain _ _ _ _)), <-Hl.
Qed.

Lemma runs_transition g m key expected_version transition :
  runs T g m (transition_reserved_phase key expected_version transition)
    (λ reserved _ m', says m' (receipt_key_digest key) (SReserved reserved)).
Proof.
  unfold transition_reserved_phase. run_quiet.
  eapply runs_read; [apply reads_open_row|]. intros [expected p] (Hf & Heq & Hkey). cbn [fst snd] in *.
  eapply runs_read; [apply reads_version|]. intros _ <-. eapply runs_read; [apply reads_reserved|]. intros reserved Hs.
  destruct (rr_cancel_requested reserved) eqn:Hcancel; [auto with runs|].
  pose proof (state_reserved p reserved Hs) as Hl. rewrite Hcancel in Hl.
  eapply runs_read with (φ := λ phase, ∃ workspace,
    (rr_phase reserved = Unbound ∧ phase = ActorBound workspace)
    ∨ (rr_phase reserved = ActorBound workspace ∧ phase = Begun workspace)).
  { destruct transition, (rr_phase reserved); auto with runs; apply runs_ret; naive_solver. }
  intros phase (workspace & Hphase).
  eapply runs_read; [apply reads_next_version|].
  intros v ->. eapply runs_read; [apply reads_sequence|]. intros sequence (-> & Hmax).
  eapply runs_read with (φ := λ x, x = successor_row p (g + 1) (row_record_version (ce_record p) + 1)
     (reserved_lifecycle phase (rr_reserved_at reserved) (rr_original_cutoff reserved) false)).
  { apply runs_lift. intros x Hx. unfold build_reserved_phase_record in Hx. rewrite Hcancel in Hx.
    destruct Hphase as [[_ ->]|[_ ->]]; by injection Hx as <-. }
  intros x ->. eapply runs_bind.
  { apply (runs_replace_reserved g m (receipt_key_digest key) expected p reserved phase false
             Hf Heq Hs); [|done].
    rewrite Hl. destruct Hphase as [[-> ->]|[-> ->]]; constructor. }
  intros _ g' m' _. apply runs_committed_reserved.
Qed.

Lemma runs_commit_cancel g m d p reserved :
  found g m d p → state p = Ok (SReserved reserved) → rr_cancel_requested reserved = false →
  runs T g m (commit_reserved_cancel_under_writer_lock p)
    (λ reserved _ m', says m' d (SReserved reserved)).
Proof.
  intros Hf Hs Hcancel. unfold commit_reserved_cancel_under_writer_lock.
  eapply runs_read; [apply reads_next_version|].
  intros v ->. eapply runs_read; [apply reads_sequence|]. intros sequence (-> & Hmax).
  eapply runs_read; [apply reads_reserved|]. intros reserved' Hs'.
  assert (reserved' = reserved) as -> by congruence.
  pose proof (state_reserved p reserved Hs) as Hl. rewrite Hcancel in Hl.
  destruct Hf as (Hm & Hr & Hle). pose proof (read_from_valid d p Hr) as (Hd & _).
  eapply runs_bind.
  { eapply (runs_replace_reserved g m d p p reserved (rr_phase reserved) true); try done.
    - by apply entry_eq_true.
    - rewrite Hl. destruct (rr_phase reserved); constructor. }
  intros _ g' m' _. rewrite Hd. apply runs_committed_reserved.
Qed.

(** ** Admission *)

Lemma reads_confirm_authority g m d : reads T g m (confirm_authority d) (λ _, True).
Proof.
  unfold confirm_authority. eapply runs_read.
  { apply runs_quiet. apply quiet_succeeds. auto with quiet. }
  intros [] _; [by apply runs_ret|auto with runs].
Qed.
Lemma runs_reclaim_identities g m ds observed :
  observed < T.2 → runs T g m (reclaim_identities ds observed) (λ _ _ _, True).
Proof.
  intros HT. revert g m. induction ds as [|d ds IH]; intros g m; cbn; [by apply runs_ret|].
  eapply runs_bind with (Q := λ _ _ _, True); [|intros _ g' m' _; apply IH].
  unfold reclaim_identity. eapply runs_read; [apply reads_catalog|]. intros c _.
  destruct (row_lifecycle ∘ ce_record <$> cat_records c !! d) as [[]|]; auto with runs.
  - eapply runs_conseq; [by apply runs_reclaim_direct|done].
  - eapply runs_conseq; [by apply runs_reclaim_tombstone|done].
Qed.
Lemma reads_identity_holder g m held_by observed error :
  reads T g m (identity_holder held_by observed error) (λ _, True).
Proof.
  unfold identity_holder. destruct held_by as [d|]; [|by apply runs_ret].
  eapply runs_read; [apply reads_catalog|]. intros c _.
  destruct (catalog_entry_is_expired_identity_reclaimable c d observed) as [[]|]; auto with runs.
  by apply runs_ret.
Qed.
Lemma runs_prepare_admission g m key observed :
  observed < T.2 → runs T g m (prepare_new_admission_under_writer_lock key observed) (λ _ _ _, True).
Proof.
  intros HT. unfold prepare_new_admission_under_writer_lock. eapply runs_read; [apply reads_catalog|].
  intros c _. eapply runs_read; [apply reads_identity_holder|]. intros ? _.
  eapply runs_read; [apply reads_identity_holder|]. intros ? _. by apply runs_reclaim_identities.
Qed.

(** A row of a new key. *)
Record starts (g : Z) (r : Row) (encoded : list Z) : Prop := {
  sr_written : written r encoded;
  sr_version : row_record_version r = version_initial;
  sr_lifecycle : lifecycle_starts (row_lifecycle r);
  sr_sequence : row_mutation_sequence r = g + 1;
}.
Lemma runs_admit_row g m r encoded :
  starts g r encoded → g + 1 ≤ u64_max →
  runs T g m (admit_row r encoded (g + 1))
    (λ e _ m', ∃ c, catalog_of m' c ∧ cat_records c !! row_key_digest r = Some e).
Proof.
  intros [Hw Hver Hst Hseq] Hmax. unfold admit_row.
  eapply runs_read; [apply reads_catalog|]. intros c (Hc & Hrec & _).
  destruct (validate_catalog_insert c (mkEntry r (blen encoded)) false) as [[]|] eqn:Hv;
    [|auto with runs].
  apply (validate_insert_Ok c _ false (proj1 Hc)) in Hv. rewrite Hrec in Hv.
  assert (set_result_body None (row_lifecycle r) = row_lifecycle r) as Hstrip by (by destruct Hst).
  eapply runs_bind.
  { apply (runs_insert_row g m r encoded); try done.
    - unfold is_witness, is_expired_deletion, is_acknowledgement_commit. cbn. by destruct Hst.
    - unfold is_tombstone. cbn. by destruct Hst.
    - cbn. by rewrite Hstrip. }
  intros _ g' m' _. eapply runs_read; [apply reads_confirm_authority|]. intros _ _.
  unfold committed_same. eapply runs_read; [apply reads_catalog|]. intros c' Hc'.
  destruct (cat_records c' !! row_key_digest r) as [e|] eqn:He; [|auto with runs].
  destruct (same_record (ce_record e) r); [|auto with runs]. apply runs_ret. eauto.
Qed.

Lemma key_valid r bs limit :
  schema_supported r = true → row_mutation_sequence r ≠ 0 →
  row_key_digest r = receipt_key_digest (row_key r) →
  validate_lifecycle r bs = Ok limit → blen bs ≤ limit → row_valid r bs.
Proof. intros Hs Hq Hd Hl Hle. apply validate_active_record_Ok. split_and!; eauto. Qed.

Lemma reserved_record_valid key cutoff sequence version cancel bs :
  sequence ≠ 0 → blen bs ≤ MAX_TASK_RECORD_ENVELOPE_BYTES →
  row_valid (build_reserved_record key (receipt_key_digest key) cutoff sequence version cancel) bs.
Proof.
  intros Hs Hbs. eapply key_valid; [done|done|done| |exact Hbs].
  unfold validate_lifecycle. cbn. by rewrite Z.eqb_refl.
Qed.

Lemma runs_admit_reservation g m key cutoff :
  accepted_epoch_ms cutoff < T.2 →
  runs T g m (admit_reservation key cutoff)
    (λ o _ m', ∃ reserved, o = RCreated reserved
       ∧ says m' (receipt_key_digest key) (SReserved reserved)).
Proof.
  intros HT. unfold admit_reservation. eapply runs_bind; [by apply runs_prepare_admission|].
  clear g m. intros _ g m _. apply runs_range. intros Hg.
  eapply runs_read; [apply reads_admission_sequence|]. intros sequence (-> & Hmax).
  destruct (serialize_reserved_record _ _) as [encoded|] eqn:Henc; [|auto with runs].
  eapply runs_read; [apply reads_catalog|]. intros c _.
  match goal with |- context [is_none ?o] => destruct (is_none o) end; [auto with runs|].
  eapply runs_bind.
  { apply runs_admit_row; [|done]. split; try done; [|constructor].
    eapply serialized_decodes; [exact Henc| |done|done].
    apply reserved_record_valid; [lia|by eapply serialize_within]. }
  intros e g' m' (c' & Hc' & He). eapply runs_read; [apply reads_reserved|]. intros reserved Hs.
  apply runs_ret. exists reserved. split; [done|]. by eapply catalog_says.
Qed.

Lemma runs_existing_state g m key :
  reads T g m (existing_state key) (λ o,
    match o with
    | None => True
    | Some (e, s) => found g m (receipt_key_digest key) e ∧ state e = Ok s
                     ∧ row_key (ce_record e) = key
    end).
Proof.
  unfold existing_state. eapply runs_read; [apply reads_catalog|]. intros c (_ & <- & _).
  destruct (cat_records c !! receipt_key_digest key) as [x|] eqn:Hx; [|by apply runs_ret].
  case_bool_decide as Hk; cbn [negb]; [|auto with runs].
  eapply runs_read; [apply reads_entry|]. intros o Ho.
  eapply runs_read with (φ := λ e, o = Some e).
  { apply runs_lift. intros e He. by checked_result. }
  intros e ->. destruct (state e) as [s|] eqn:Hs; [|auto with runs].
  apply runs_ret. split_and!; [done..|]. destruct Ho as (Hm & _). rewrite Hx in Hm.
  by injection Hm as ->.
Qed.
Lemma runs_reclaim_expired g m s d observed :
  observed < T.2 → runs T g m (reclaim_expired_state s d observed) (λ _ _ _, True).
Proof.
  intros HT. unfold reclaim_expired_state.
  destruct s; (eapply runs_conseq; [first [by apply runs_reclaim_direct|by apply runs_reclaim_tombstone]
    |done]).
Qed.
End Safety.
