(* ===== verification/ReceiptSafetyOps.v ===== *)
(** * Receipt store: reservations, terminals and lookups under failures

    The operations of [ReceiptLedgerStore] that clients call, each as a run
    of the receipt machine with what its answer says of the contents. *)

From Stdlib Require Import ZArith Lia String.
From stdpp Require Import base gmap list option numbers countable strings.
From S2P Require Import Prelude Contract ResultSize Redaction ReceiptLedger ReceiptStates.
From S2P Require Import ReceiptRows ReceiptCatalog ReceiptCatalogFacts ReceiptCatalogProps.
From S2P Require Import ReceiptRecords ReceiptStore ReceiptOps.
From S2P Require Import ReceiptTerminals ReceiptRecovery ReceiptDisk ReceiptRecoveryProps.
From S2P Require Import ReceiptMachine ReceiptHoare ReceiptRuns ReceiptMutations.
From S2P Require Import ReceiptSafety.

Local Open Scope Z_scope.

Section SafetyOps.
Context {C : ReceiptCodec} {R : RowCodec C} {L : RowCodecLaws C R}.
Context {T : Z * Z}.

Notation Row := (StoredActiveReceiptV1 json_value).
Notation Entry := (CatalogEntry json_value).
Notation Rows := (gmap digest Entry).
Notation State := (ReceiptState json_value).
Notation Terminal := (V5CanonicalTerminal json_value).
Implicit Types (m : Rows) (g : Z) (d : digest) (r : Row) (e p : Entry) (key : ReceiptKey).

(** A missing value latches. *)
Lemma reads_some {A : Type} g m (o : option A) error :
  reads T g m (match o with Some a => mret a | None => latch_error error end) (λ a, o = Some a).
Proof. destruct o; [by apply runs_ret|auto with runs]. Qed.

(** ** Reservation *)

Lemma runs_convert g m key cutoff p :
  found g m (receipt_key_digest key) p → row_key (ce_record p) = key →
  runs T g m (convert_cancel_reserved_to_submit p key cutoff)
    (λ o _ m', ∃ reserved, o = RCreated reserved
       ∧ says m' (receipt_key_digest key) (SReserved reserved)).
Proof.
  intros Hf Hkey. unfold convert_cancel_reserved_to_submit. apply runs_range. intros Hg.
  pose proof Hf as (_ & Hr & _). pose proof (read_from_valid _ p Hr) as (Hd & _). rewrite Hd.
  eapply runs_read with (φ := λ b, b = true ∧ ∃ a x c, row_lifecycle (ce_record p)
                                                     = LCancelReserved a x c).
  { destruct (row_lifecycle (ce_record p)) eqn:El; auto with runs. apply runs_ret. eauto 10. }
  intros b (-> & at_ & expires & cancel & Hl).
  eapply runs_read; [apply reads_some|]. intros v ->%checked_next_Some. eapply runs_read; [apply runs_latched, reads_generation|]. intros n ->.
  eapply runs_read; [apply reads_some|]. intros sequence [-> Hmax]%u64_checked_add_Some.
  destruct (serialize_reserved_record _ _) as [encoded|] eqn:Henc; [|auto with runs].
  eapply runs_read; [apply reads_catalog|]. intros c (Hc & Hrec & _).
  set (r := build_reserved_record _ _ _ _ _ _) in *.
  destruct (validate_catalog_replace c p (mkEntry r (blen encoded))) as [[]|error] eqn:Hv.
  2:{ destruct (requires_reopen error); auto with runs. }
  apply (validate_replace_Ok c _ _ (proj1 Hc)) in Hv. rewrite Hrec in Hv.
  eapply runs_bind.
  { apply (runs_replace_row g m r encoded p); try done.
    - eapply serialized_decodes; [exact Henc| |done|done].
      apply reserved_record_valid; [lia|by eapply serialize_within].
    - eapply found_advances; try done.
      + unfold is_tombstone. by rewrite Hl.
      + rewrite Hl. constructor. }
  intros _ g' m' _. eapply runs_read; [apply reads_confirm_authority|]. intros _ _.
  eapply runs_read with (φ := λ e, ∃ c, catalog_of m' c
                           ∧ cat_records c !! receipt_key_digest key = Some e).
  { unfold committed_same. eapply runs_read; [apply reads_catalog|]. intros c' Hc'.
    destruct (cat_records c' !! row_key_digest r) as [e|] eqn:He; [|auto with runs].
    destruct (same_record (ce_record e) r); [|auto with runs]. apply runs_ret. eauto. }
  intros e (c' & Hc' & He). destruct (reservation e) as [reserved|error|] eqn:Hres; auto with runs.
  apply runs_ret. exists reserved. split; [done|]. eapply catalog_says; [done..|].
  by apply reservation_state.
Qed.

Lemma runs_reserve g m key cutoff :
  accepted_epoch_ms cutoff < T.2 →
  runs T g m (reserve key cutoff)
    (λ o _ m', match o with
       | RCreated reserved => says m' (receipt_key_digest key) (SReserved reserved)
       | RExistingExact s => says m' (receipt_key_digest key) s
       end).
Proof.
  intros HT. unfold reserve. run_quiet. eapply runs_read; [apply reads_available|]. intros _ _. do 2 run_quiet.
  eapply runs_read; [apply runs_existing_state|]. intros [[p s]|] Ho.
  2:{ eapply runs_conseq; [by apply runs_admit_reservation|]. by intros o g' m' (reserved & -> & H). }
  destruct Ho as (Hf & Hs & Hk).
  assert (runs T g m
    (if expired_state s (accepted_epoch_ms cutoff)
     then _ ← reclaim_expired_state s (receipt_key_digest key) (accepted_epoch_ms cutoff);
          admit_reservation key cutoff
     else mret (RExistingExact s))
    (λ o _ m', match o with
       | RCreated reserved => says m' (receipt_key_digest key) (SReserved reserved)
       | RExistingExact s => says m' (receipt_key_digest key) s
       end)) as Hrest.
  { destruct (expired_state s (accepted_epoch_ms cutoff)).
    - eapply runs_bind; [by apply runs_reclaim_expired|]. intros _ g' m' _.
      eapply runs_conseq; [by apply runs_admit_reservation|].
      by intros o g2 m2 (reserved & -> & H).
    - apply runs_ret. by eapply found_says. }
  destruct s; try exact Hrest.
  eapply runs_conseq; [by apply runs_convert|]. by intros o g' m' (reserved & -> & H).
Qed.

(** ** Cancellation *)

Lemma cancel_record_valid key at_ sequence bs :
  sequence ≠ 0 → blen bs ≤ MAX_CANCEL_RESERVED_RECORD_BYTES →
  row_valid (build_cancel_reserved_record key (receipt_key_digest key) at_ sequence) bs.
Proof. intros Hs Hbs. by eapply key_valid. Qed.

Lemma reads_answer_or_latch {A : Type} g m d o (select : State → option A) :
  reads T g m (answer_or_latch o d select)
    (λ a, ∃ e s, o = Some e ∧ state e = Ok s ∧ select s = Some a).
Proof.
  unfold answer_or_latch. destruct o as [e|]; cbn; [|auto with runs].
  destruct (state e) as [s|] eqn:Hs; [|auto with runs].
  destruct (select s) as [a|] eqn:Ha; [|auto with runs]. apply runs_ret. eauto 10.
Qed.

Lemma runs_admit_cancellation g m key at_ :
  at_ < T.2 →
  runs T g m (admit_cancellation key at_)
    (λ o _ m', ∃ receipt, o = NewlyReserved receipt
       ∧ says m' (receipt_key_digest key) (SCancelReserved receipt)).
Proof.
  intros HT. unfold admit_cancellation. eapply runs_bind; [by apply runs_prepare_admission|].
  clear g m. intros _ g m _. apply runs_range. intros Hg.
  eapply runs_read; [apply reads_admission_sequence|]. intros sequence (-> & Hmax).
  destruct (serialize_reserved_record _ _) as [encoded|] eqn:Henc; [|auto with runs].
  eapply runs_bind.
  { apply runs_admit_row; [|done]. split; try done; [|constructor].
    eapply serialized_decodes; [exact Henc| |done|done].
    apply cancel_record_valid; [lia|by eapply serialize_within]. }
  intros e g' m' (c' & Hc' & He). eapply runs_conseq; [apply reads_answer_or_latch|].
  intros o g2 m2 (_ & -> & e' & s & [= <-] & Hs & Hsel). destruct s as [receipt| | | | | | | | | | |];
    try done. injection Hsel as <-. exists receipt. split; [done|]. by eapply catalog_says.
Qed.

Lemma runs_request_cancel g m key at_ :
  at_ < T.2 →
  runs T g m (request_cancel_or_reserve key at_)
    (λ o _ m', match o with
       | NewlyReserved receipt | CExistingExact receipt =>
           says m' (receipt_key_digest key) (SCancelReserved receipt)
       | ExistingWinner s => says m' (receipt_key_digest key) s
       end).
Proof.
  intros HT. unfold request_cancel_or_reserve. run_quiet.
  eapply runs_read; [apply reads_available|]. intros _ _. do 2 run_quiet.
  assert (∀ g m, runs T g m (admit_cancellation key at_)
    (λ o _ m', match o with
       | NewlyReserved receipt | CExistingExact receipt =>
           says m' (receipt_key_digest key) (SCancelReserved receipt)
       | ExistingWinner s => says m' (receipt_key_digest key) s
       end)) as Hadmit.
  { intros g0 m0. eapply runs_conseq; [by apply runs_admit_cancellation|].
    by intros o g' m' (receipt & -> & H). }
  eapply runs_read; [apply runs_existing_state|]. intros [[p s]|] Ho; [|apply Hadmit].
  destruct Ho as (Hf & Hs & Hk).
  assert (runs T g m
    (if expired_state s at_
     then _ ← reclaim_expired_state s (receipt_key_digest key) at_; admit_cancellation key at_
     else mret (ExistingWinner s))
    (λ o _ m', match o with
       | NewlyReserved receipt | CExistingExact receipt =>
           says m' (receipt_key_digest key) (SCancelReserved receipt)
       | ExistingWinner s => says m' (receipt_key_digest key) s
       end)) as Hrest.
  { destruct (expired_state s at_).
    - eapply runs_bind; [by apply runs_reclaim_expired|]. intros _ g' m' _. apply Hadmit.
    - apply runs_ret. by eapply found_says. }
  destruct s as [receipt|reserved| | | | | | | | | |]; try exact Hrest.
  destruct (rr_cancel_requested reserved) eqn:Hcancel; [apply runs_ret; by eapply found_says|].
  eapply runs_bind; [by eapply runs_commit_cancel|]. intros cancelled g' m' H. by apply runs_ret.
Qed.

(** ** Direct terminals *)

Lemma reads_classified g m key :
  reads T g m (classified_row key) (λ rows,
    found g m (receipt_key_digest key) rows.2 ∧ entry_eq rows.2 rows.1 = true
    ∧ row_key (ce_record rows.1) = key).
Proof.
  unfold classified_row. eapply runs_read; [apply reads_fence|]. intros o (c & (_ & Hc & _) & ->).
  eapply runs_read with (φ := λ x, row_key (ce_record x) = key).
  { destruct (classify key c) as [x|error] eqn:Hx.
    - apply runs_ret. split_and!; [done..|]. unfold classify in Hx.
      break Hx; checked_result; done.
    - destruct (requires_reopen error); auto with runs. }
  intros x Hx. eapply runs_read; [apply reads_entry|]. intros [e|] He; [|auto with runs].
  destruct (entry_eq e x) eqn:Heq; [|auto with runs]. by apply runs_ret.
Qed.
Lemma entry_eq_key p x : entry_eq p x = true → row_key (ce_record p) = row_key (ce_record x).
Proof. intros H. by apply entry_eq_view in H as (_ & Hk & _). Qed.

(** A canonical terminal: the only kind the codec makes. *)
Definition canonical (t : Terminal) : Prop := canonical_terminal (ct_outcome t) = Ok t.

Lemma state_direct_row key sequence version cutoff epoch terminal n :
  canonical terminal →
  state (mkEntry (key_row key sequence version
           (LDirectTerminalUnacked cutoff epoch (ct_digest terminal) (Some (ct_outcome terminal)))) n)
  = Ok (SDirectTerminalUnacked (mkDirect (mkHeader key (receipt_key_digest key) version sequence n)
          cutoff epoch terminal (MAX_RECEIPT_ENTITLEMENT_BYTES - n))).
Proof.
  intros Hc. destruct (restore_canonical _ _ Hc) as [_ Hr]. unfold state.
  cbn [ce_record key_row row_lifecycle restore_held_terminal]. by rewrite Hr.
Qed.

Lemma prepare_direct_encodes key version sequence cutoff terminal epoch prepared :
  prepare_direct_terminal key version sequence cutoff terminal epoch = Ok prepared →
  ∃ enc, encode_direct_record sequence version key (receipt_key_digest key) cutoff epoch terminal
         = Ok enc ∧ enc.2 = prepared.1.
Proof.
  unfold prepare_direct_terminal. intros H.
  destruct (encode_direct_record _ _ _ _ _ _ _) as [enc|]; [|done].
  destruct (prepare_direct_wire_frame _ _ _); [|done]. injection H as <-. eauto.
Qed.

Lemma runs_publish_direct g m key expected_version epoch terminal :
  canonical terminal → outcome_reads_back (ct_outcome terminal) → 0 ≤ epoch →
  runs T g m (publish_direct_terminal_publication key expected_version epoch terminal)
    (λ o _ m', says m' (receipt_key_digest key) (SDirectTerminalUnacked o.1)
               ∧ dt_terminal o.1 = terminal ∧ dt_terminal_epoch_ms o.1 = epoch).
Proof.
  intros Hcan Hback Hepoch. unfold publish_direct_terminal_publication. run_quiet.
  eapply runs_read; [apply reads_classified|]. intros [expected p] (Hf & Heq & Hkey).
  cbn [fst snd] in *. pose proof (entry_eq_key p expected Heq) as Hkp. rewrite Hkey in Hkp.
  destruct (state p) as [s|] eqn:Hs; [|auto with runs].
  destruct s as [|reserved|committed| | | | | | | | |]; auto with runs.
  2:{ destruct (_ && _) eqn:Hsame; [|auto with runs]. bool_prop.
      destruct (prepare_committed_direct_wire committed) as [wire|error];
        [|destruct (requires_reopen error); auto with runs].
      apply runs_ret. split_and!; [by eapply found_says|done|]. cbn. lia. }
  apply runs_range. intros Hg.
  eapply runs_read; [apply reads_version|]. intros _ <-.
  eapply runs_read; [apply reads_some|]. intros v Hnext.
  pose proof (checked_next_max _ _ Hnext) as Hvmax. apply checked_next_Some in Hnext as ->. eapply runs_read; [apply runs_latched, reads_generation|]. intros n ->.
  eapply runs_read; [apply reads_some|]. intros sequence [-> Hmax]%u64_checked_add_Some. run_quiet.
  eapply runs_read with (φ := λ prepared, prepare_direct_terminal key _ _ _ terminal epoch
                                          = Ok prepared).
  { destruct (prepare_direct_terminal _ _ _ _ _ _) as [prepared|error] eqn:Hp;
      [|destruct (requires_reopen error); auto with runs].
    apply runs_ret. split_and!; [done..|exact Hp]. }
  intros prepared (enc & Henc & <-)%prepare_direct_encodes.
  eapply runs_read; [apply reads_catalog|]. intros c (Hc & Hrec & _).
  set (r := key_row _ _ _ _). pose proof Hf as (_ & Hr & _).
  pose proof (read_from_valid _ p Hr) as (Hd & _ & Hq & _).
  pose proof (state_reserved p reserved Hs) as Hl.
  assert (is_tombstone p = false) as Ht by (unfold is_tombstone; rewrite Hl; by destruct (rr_phase reserved)).
  destruct (validate_catalog_replace c expected (mkEntry r (blen enc.2))) as [[]|error] eqn:Hv.
  2:{ destruct (requires_reopen error); auto with runs. }
  apply (validate_replace_Ok c _ _ (proj1 Hc)) in Hv. rewrite Hrec in Hv.
  eapply runs_bind.
  { apply (runs_replace_row g m r enc.2 expected); try done.
    - apply (direct_decodes (ct_outcome terminal) terminal); try done; [lia|].
      destruct (Hq Ht). unfold version_initial. lia.
    - apply entry_eq_true in Heq. rewrite <-Heq. eapply found_advances; try done.
      rewrite Hl. destruct (rr_phase reserved); constructor. }
  cbn. intros _ g' m' [_ ->]. eapply runs_read; [apply reads_confirm_authority|]. intros _ _.
  apply runs_ret. split; [|done]. exists (mkEntry r (blen enc.2)).
  split; [by rewrite lookup_insert_eq|]. by apply state_direct_row.
Qed.

(** ** Acknowledgement *)

Lemma state_direct e receipt :
  state e = Ok (SDirectTerminalUnacked receipt) →
  ∃ body, row_lifecycle (ce_record e)
    = LDirectTerminalUnacked (dt_original_cutoff receipt) (dt_terminal_epoch_ms receipt)
        (ct_digest (dt_terminal receipt)) body.
Proof.
  unfold state. intros Hs.
  destruct (row_lifecycle (ce_record e)) eqn:El; try discriminate; break Hs.
  eexists. f_equal. unfold restore_held_terminal in *. case_match; [|done].
  unfold restore_canonical_terminal in *. break E. by bool_prop.
Qed.

Lemma runs_write_acknowledgement g m key p receipt terminal at_ :
  found g m (receipt_key_digest key) p → row_key (ce_record p) = key →
  state p = Ok (SDirectTerminalUnacked receipt) → ct_digest (dt_terminal receipt) = terminal →
  at_ + ACKNOWLEDGED_TOMBSTONE_TTL_MS ≤ u64_max → T.1 ≤ at_ →
  runs T g m (write_acknowledgement key p terminal at_)
    (λ tombstone _ m', says m' (receipt_key_digest key) (SAcknowledgedTombstone tombstone)).
Proof.
  intros Hf Hkey Hs Hterm Httl HT. unfold write_acknowledgement. apply runs_range. intros Hg.
  pose proof Hf as (_ & Hr & Hle).
  pose proof (read_from_valid _ p Hr) as (Hd & Hkd & Hq & bs0 & limit & Hl0).
  destruct (state_direct p receipt Hs) as (body & Hl). rewrite Hterm in Hl.
  assert (is_tombstone p = false) as Ht by (unfold is_tombstone; by rewrite Hl).
  destruct (Hq Ht) as [Hseq0 Hpos]. specialize (Hle Ht). unfold entry_sequence in Hle.
  assert (row_record_version (ce_record p) ≠ version_initial) as Hver.
  { unfold validate_lifecycle in Hl0. rewrite Hl in Hl0. intros H. by rewrite H in Hl0. }
  unfold version_initial in Hver.
  eapply runs_read with (φ := λ v, checked_next (row_record_version (ce_record p)) = Some v).
  { unfold next_version. apply runs_lift. intros v Hv. by checked_result. }
  intros v Hnext. pose proof (checked_next_Some _ _ Hnext) as ->.
  set (r := key_row _ _ _ _).
  eapply runs_read with (φ := λ bs, serialize_reserved_record r MAX_ACKNOWLEDGED_TOMBSTONE_BYTES
                                    = Ok bs); [by apply runs_lift|].
  intros encoded Henc. eapply runs_read; [apply reads_catalog|]. intros c (Hc & Hrec & _).
  destruct (validate_catalog_replace c p (mkEntry r (blen encoded))) as [[]|] eqn:Hv;
    [|auto with runs].
  apply (validate_replace_Ok c _ _ (proj1 Hc)) in Hv. rewrite Hrec in Hv.
  eapply runs_read; [apply reads_sequence|]. intros sequence (-> & Hmax).
  set (witness := successor_row p (g + 1) (row_record_version (ce_record p) + 1)
    (LAcknowledgementCommit terminal at_ (row_record_version (ce_record p))
       (row_mutation_sequence (ce_record p)))).
  eapply runs_read with (φ := λ x, x = witness).
  { apply runs_lift. intros x Hx. unfold build_acknowledgement_commit_record in Hx.
    rewrite Hl in Hx. apply next_row_Ok in Hx as (v & Hv' & ->). rewrite Hnext in Hv'.
    by injection Hv' as <-. }
  intros x ->.
  eapply runs_read with (φ := λ bs, serialize_reserved_record witness
                                      MAX_CANCEL_RESERVED_RECORD_BYTES = Ok bs);
    [by apply runs_lift|].
  intros wencoded Hwenc.
  assert (row_valid witness wencoded) as Hwv.
  { eapply (follows_valid _ p _ _ MAX_CANCEL_RESERVED_RECORD_BYTES); try done;
      [left; cbn; lia| |by eapply serialize_within].
    unfold validate_lifecycle, follows_version, follows_mutation. cbn [witness successor_row
      row_lifecycle row_record_version row_mutation_sequence].
    rewrite bool_decide_true by done. cbn [fail_unless].
    rewrite (proj2 (Z.eqb_neq _ _) Hseq0), (proj2 (Z.ltb_lt _ _)) by lia. cbn [negb andb fail_unless].
    by rewrite (proj2 (u64_checked_add_Some _ _ _) (conj eq_refl Httl)). }
  assert (row_valid r encoded) as Hrv.
  { eapply (follows_valid _ p _ _ MAX_ACKNOWLEDGED_TOMBSTONE_BYTES); try done;
      [by right| |by eapply serialize_within].
    unfold validate_lifecycle. cbn [r key_row row_lifecycle row_record_version].
    rewrite (proj2 (Z.leb_le _ _)) by lia. cbn [fail_unless].
    by rewrite (proj2 (u64_checked_add_Some _ _ _) (conj eq_refl Httl)). }
  eapply runs_bind.
  { apply (runs_acknowledge_row g m p witness wencoded r encoded); try done.
    - by eapply serialized_decodes; eauto using tombstone_reads_back.
    - unfold build_acknowledged_tombstone_record_from_witness. cbn [ce_record witness successor_row
        row_lifecycle]. unfold r, key_row, successor_row. cbn. by rewrite Hkey, Hd.
    - by intros t a [= _ <-].
    - split; cbn; try done; [by left|]. rewrite Hl. constructor. }
  cbn. intros _ g' m' [_ ->]. eapply runs_read; [apply reads_confirm_authority|]. intros _ _.
  apply runs_lift. intros t Hnew. exists (mkEntry r (blen encoded)).
  split; [by rewrite lookup_insert_eq|]. unfold state. cbn [ce_record r key_row row_lifecycle
    row_key row_key_digest ce_encoded_bytes]. by rewrite Hnew.
Qed.

Lemma runs_acknowledge g m key terminal at_ :
  T.1 ≤ at_ < T.2 →
  runs T g m (acknowledge_direct key terminal at_)
    (λ tombstone _ m', says m' (receipt_key_digest key) (SAcknowledgedTombstone tombstone)).
Proof.
  intros HT. unfold acknowledge_direct. run_quiet.
  eapply runs_read with (φ := λ _, at_ + ACKNOWLEDGED_TOMBSTONE_TTL_MS ≤ u64_max).
  { apply runs_lift. intros x Hx. checked_result. done. }
  intros _ Httl. eapply runs_read; [apply reads_classified|]. intros [expected p] (Hf & Heq & Hkey).
  cbn [fst snd] in *. pose proof (entry_eq_key p expected Heq) as Hkp. rewrite Hkey in Hkp.
  destruct (state p) as [s|] eqn:Hs; [|auto with runs].
  destruct s as [| |receipt|tombstone| | | | | | | |]; auto with runs.
  - destruct (reached _ _ _).
    { eapply runs_bind; [apply runs_reclaim_direct, HT|]. intros. apply runs_refuse. }
    case_bool_decide as Hterm; cbn [negb]; [|auto with runs].
    eapply runs_write_acknowledgement; try done; apply HT.
  - case_bool_decide; cbn [negb]; [|auto with runs]. destruct (_ <=? _).
    { eapply runs_bind; [apply runs_reclaim_tombstone, HT|]. intros. apply runs_refuse. }
    apply runs_ret. by eapply found_says.
Qed.

(** ** Lookups *)

Lemma runs_recover_exact g m key observed :
  (∀ now, observed = Some now → now < T.2) →
  runs T g m (recover_exact key observed) (λ s _ m', says m' (receipt_key_digest key) s).
Proof.
  intros HT. unfold recover_exact. run_quiet. eapply runs_read; [apply reads_fence|]. intros o (c & _ & ->).
  match goal with |- runs T _ _ (match ?x with _ => _ end) _ => destruct x end; [auto with runs|].
  eapply runs_read; [apply reads_entry|]. intros [e|] He; [|run_quiet; auto with runs].
  case_bool_decide; cbn [negb]; [|auto with runs].
  destruct (state e) as [s|] eqn:Hs; [|auto with runs].
  destruct observed as [observed|].
  - destruct (expired_state s observed).
    + eapply runs_bind; [by apply runs_reclaim_expired, HT|]. intros. apply runs_refuse.
    + run_quiet. apply runs_ret. by eapply found_says.
  - run_quiet. apply runs_ret. by eapply found_says.
Qed.
Lemma runs_read_reserved g m d :
  runs T g m (read_reserved d)
    (λ o g' m', m' = m ∧ match o with
                | Some reserved => says m d (SReserved reserved)
                | None => m !! d = None
                end).
Proof.
  unfold read_reserved. eapply runs_read; [apply reads_entry|]. intros [e|] He; [|by apply runs_ret].
  eapply runs_read; [apply reads_reserved|]. intros reserved Hs. apply runs_ret.
  split; [done|]. by eapply found_says.
Qed.
Lemma runs_resolve_task g m task :
  runs T g m (resolve_task_exact task)
    (λ s _ m', m' = m ∧ ∃ d, says m d s ∧ is_task_state s = true).
Proof.
  unfold resolve_task_exact. run_quiet. eapply runs_read; [apply reads_fence|].
  intros o (c & _ & ->).
  eapply runs_read with (φ := λ _, True); [by apply runs_lift|]. intros d _.
  eapply runs_read; [apply reads_entry|]. intros o Ho.
  eapply runs_read with (φ := λ e, o = Some e).
  { apply runs_lift. intros e He. by checked_result. }
  intros e ->. case_bool_decide; cbn [negb]; [|auto with runs].
  destruct (state e) as [s|] eqn:Hs; [|auto with runs].
  destruct (is_task_state s) eqn:Ht; cbn [negb]; [|auto with runs].
  run_quiet. apply runs_ret. split; [done|]. exists d. split; [by eapply found_says|done].
Qed.

(** ** Retention *)

(** An expired tombstone or direct terminal is retired. *)
Lemma runs_reclaim_one g m d observed :
  observed < T.2 → (∀ e, m !! d = Some e → retention_over e observed = true) →
  runs T g m (reclaim_one d observed) (λ _ _ m', m' = delete d m).
Proof.
  intros HT Hover. unfold reclaim_one. eapply runs_read; [apply reads_catalog|]. intros c (_ & <- & _).
  destruct (cat_records c !! d) as [e|] eqn:Hd; cbn [fmap option_fmap option_map compose];
    [|auto with runs].
  specialize (Hover e eq_refl).
  unfold retention_over, entry_is_expired_tombstone, entry_is_expired_direct_terminal in Hover.
  unfold compose. destruct (row_lifecycle (ce_record e)); try discriminate Hover.
  - eapply runs_conseq; [by apply runs_reclaim_direct|]. by intros ? ? ? [_ ->].
  - eapply runs_conseq; [by apply runs_reclaim_tombstone|]. by intros ? ? ? [_ ->].
Qed.
Lemma runs_reclaim_all g m ds observed :
  observed < T.2 → (∀ d e, d ∈ ds → m !! d = Some e → retention_over e observed = true) →
  runs T g m (reclaim_all ds observed) (λ _ _ m', ∀ d, m' !! d = if decide (d ∈ ds) then None else m !! d).
Proof.
  intros HT. revert g m. induction ds as [|d ds IH]; intros g m Hover; cbn; [by apply runs_ret|].
  eapply runs_bind; [apply runs_reclaim_one; [done|intros e; apply Hover; by left]|].
  intros _ g' m' ->. eapply runs_conseq; [apply IH|].
  { intros d' e Hd' He. apply lookup_delete_Some in He as [_ He]. apply (Hover d'); [by right|done]. }
  intros [] g2 m2 Hm2 x. rewrite Hm2.
  destruct (decide (x = d)) as [->|Hne].
  - rewrite lookup_delete_eq. rewrite (decide_True (P := d ∈ d :: ds)) by (by left). by case_decide.
  - rewrite lookup_delete_ne by done. repeat case_decide; set_solver.
Qed.
Definition entry_expired (e : Entry) (observed : Z) : bool :=
  entry_is_expired_tombstone e observed || entry_is_expired_direct_terminal e observed
  || entry_is_expired_task_receipt_terminal e observed.
Lemma elem_of_expired (c : ReceiptCatalog json_value) observed d :
  d ∈ sort_digests (expired_digests c observed) ↔
  ∃ e, cat_records c !! d = Some e ∧ entry_expired e observed = true.
Proof.
  rewrite sort_digests_perm. unfold expired_digests. rewrite list_elem_of_bind. split.
  - intros ([d' e] & Hd & Hin). exists e. unfold entry_expired. cbn in Hd.
    destruct (_ || _ || _); [|by apply not_elem_of_nil in Hd].
    apply list_elem_of_singleton in Hd as ->. split; [|done]. by apply elem_of_map_to_list.
  - intros (e & He & Hx). exists (d, e). unfold entry_expired in Hx. cbn. rewrite Hx.
    split; [by apply list_elem_of_singleton|by apply elem_of_map_to_list].
Qed.
(** What [reclaim_expired_tombstones] leaves: the rows that had not expired. *)
Lemma runs_reclaim_expired_tombstones g m observed :
  observed < T.2 →
  (∀ d e, m !! d = Some e → entry_is_expired_task_receipt_terminal e observed = false) →
  runs T g m (reclaim_expired_tombstones observed)
    (λ _ _ m', m' = filter (λ x, entry_expired x.2 observed = false) m).
Proof.
  intros HT Hnt. unfold reclaim_expired_tombstones. run_quiet.
  eapply runs_read; [apply reads_available|]. intros _ _. 
  eapply runs_read; [apply runs_latched, runs_quiet; auto with quiet|]. intros _ _.
  eapply runs_read; [apply reads_catalog|]. intros c (_ & <- & _).
  eapply runs_bind; [apply runs_reclaim_all; [done|]|].
  { intros d e (e' & He' & Hx)%elem_of_expired He. rewrite He in He'. injection He' as <-.
    unfold entry_expired in Hx. by rewrite (Hnt d e He), orb_false_r in Hx. }
  intros [] g' m' Hm'. apply runs_ret.
  apply map_eq. intros d. rewrite Hm'. symmetry. case_decide as Hd.
  - apply elem_of_expired in Hd as (e & He & Hx). apply map_lookup_filter_None. right.
    intros x Hx'. naive_solver congruence.
  - destruct (cat_records c !! d) as [e|] eqn:He; [|by apply map_lookup_filter_None; left].
    apply map_lookup_filter_Some. split; [done|]. apply not_true_iff_false. intros Hx.
    apply Hd, elem_of_expired. eauto.
Qed.
End SafetyOps.
