(* ===== verification/ReceiptTaskSafety.v ===== *)
(** * Receipt store: task rows under failures

    The operations that promise, bind, hand off, stage and retain the task of
    a receipt, run from a ready store under any answers of the environment:
    each makes one step of the receipt machine, or none.  What the store does
    not check, and a caller must, is a hypothesis of each lemma. *)

From Stdlib Require Import ZArith Lia String.
From stdpp Require Import base gmap list option numbers countable strings.
From S2P Require Import Prelude Contract ResultSize Redaction ReceiptLedger ReceiptStates.
From S2P Require Import ReceiptRows ReceiptCatalog ReceiptCatalogFacts ReceiptCatalogProps.
From S2P Require Import ReceiptRecords ReceiptStore ReceiptOps.
From S2P Require Import ReceiptTerminals ReceiptRecovery ReceiptDisk ReceiptMachine ReceiptHoare.
From S2P Require Import ReceiptRuns ReceiptMutations ReceiptSafety ReceiptSafetyOps.

Local Open Scope Z_scope.

Section TaskSafety.
Context {C : ReceiptCodec} {R : RowCodec C} {L : RowCodecLaws C R}.
Context {T : Z * Z}.

Notation Row := (StoredActiveReceiptV1 json_value).
Notation Entry := (CatalogEntry json_value).
Notation Lifecycle := (StoredActiveLifecycleV1 json_value).
Notation Rows := (gmap digest Entry).
Notation State := (ReceiptState json_value).
Notation Terminal := (V5CanonicalTerminal json_value).
Implicit Types (m : Rows) (g : Z) (d : digest) (r : Row) (e p : Entry) (key : ReceiptKey) (l : Lifecycle).

(** ** The task of a row *)

(** When the request of a row was accepted. *)
Definition row_accepted (l : Lifecycle) : option Z :=
  match l with
  | LReservedUnbound _ cutoff _ | LReservedActorBound _ cutoff _ _ | LReservedBegun _ cutoff _ _
  | LTaskPromisedUnbound cutoff _ _ | LTaskPromisedActorBound cutoff _ _ _ _
  | LTaskHandoffActorBound cutoff _ _ _ _ _ _ | LTaskReceiptOwnedActorBound cutoff _ _ _ _ _ =>
      Some (accepted_epoch_ms cutoff)
  | _ => None
  end.
Definition row_task (l : Lifecycle) : option ReceiptTaskProjection :=
  match l with
  | LTaskPromisedUnbound _ task _ | LTaskPromisedActorBound _ task _ _ _
  | LTaskHandoffActorBound _ task _ _ _ _ _ | LTaskReceiptOwnedActorBound _ task _ _ _ _
  | LTaskTerminalReceiptBacked task _ _ _ _ => Some task
  | _ => None
  end.
(** The workspace and the digest of the link. *)
Definition row_link (l : Lifecycle) : option (digest * digest) :=
  match l with
  | LTaskPromisedActorBound _ _ workspace link _
  | LTaskHandoffActorBound _ _ workspace link _ _ _
  | LTaskReceiptOwnedActorBound _ _ workspace link _ _ => Some (workspace, link)
  | _ => None
  end.

(** What validation found of a row that was read. *)
Lemma read_task d p task :
  read_from d p → row_task (row_lifecycle (ce_record p)) = Some task →
  task_consistent (ce_record p) task = true
  ∧ ∀ accepted, row_accepted (row_lifecycle (ce_record p)) = Some accepted →
      accepted ≤ tp_created_at task.
Proof.
  intros (_ & _ & _ & bs & limit & Hl)%read_from_valid Ht. unfold validate_lifecycle in Hl.
  destruct (row_lifecycle (ce_record p)); try discriminate Ht; injection Ht as ->; break Hl;
    checked_result; bool_prop; (split; [done|]); intros accepted Ha; try discriminate Ha;
    injection Ha as <-; lia.
Qed.
Lemma read_link d p task workspace link :
  read_from d p → row_task (row_lifecycle (ce_record p)) = Some task →
  row_link (row_lifecycle (ce_record p)) = Some (workspace, link) →
  link_consistent (ce_record p) task workspace link = true.
Proof.
  intros (_ & _ & _ & bs & limit & Hl)%read_from_valid Ht Hk. unfold validate_lifecycle in Hl.
  destruct (row_lifecycle (ce_record p)); try discriminate Hk; injection Hk as -> ->;
    injection Ht as ->; break Hl; checked_result; bool_prop; done.
Qed.
Lemma task_consistent_key r r' task :
  row_key r = row_key r' → task_consistent r task = task_consistent r' task.
Proof. unfold task_consistent. by intros ->. Qed.
Lemma link_consistent_key r r' task workspace link :
  row_key_digest r = row_key_digest r' →
  link_consistent r task workspace link = link_consistent r' task workspace link.
Proof. unfold link_consistent. by intros ->. Qed.
Lemma projection_Ok t t' :
  projection_new t = Ok t' →
  t' = t ∧ tp_created_at t ≤ tp_updated_at t ∧ tp_ttl_ms t ≠ 0 ∧ tp_poll_interval_ms t ≠ 0
  ∧ tp_version t ≠ 0.
Proof.
  unfold projection_new. intros H. destruct (Z.ltb_spec (tp_updated_at t) (tp_created_at t)); [done|].
  destruct (_ || _ || _) eqn:E; [done|]. injection H as ->.
  apply orb_false_iff in E as [[E1 E2]%orb_false_iff E3].
  apply Z.eqb_neq in E1, E2, E3. by split_and!.
Qed.
Lemma task_consistent_true r task :
  tp_task_id task = rk_reserved_task_id (row_key r) →
  tp_invocation_id task = rk_invocation_id (row_key r) → tp_created_at task ≤ tp_updated_at task →
  tp_ttl_ms task ≠ 0 → tp_poll_interval_ms task ≠ 0 → tp_version task ≠ 0 →
  task_consistent r task = true.
Proof.
  intros H1 H2 H3 H4 H5 H6. unfold task_consistent.
  rewrite !bool_decide_true by done. rewrite (proj2 (Z.leb_le _ _) H3).
  by rewrite (proj2 (Z.eqb_neq _ _) H4), (proj2 (Z.eqb_neq _ _) H5), (proj2 (Z.eqb_neq _ _) H6).
Qed.
Lemma link_consistent_new r task workspace :
  link_consistent r task workspace
    (link_digest (link_new (row_key_digest r) (tp_task_id task) (tp_invocation_id task) workspace))
  = true.
Proof. unfold link_consistent. by rewrite bool_decide_true. Qed.

(** ** The next row of a receipt *)

(** A lifecycle that every file of at most [maximum] bytes may carry. *)
Definition acceptable (r : Row) (maximum : Z) : Prop :=
  ∀ bs, blen bs ≤ maximum → ∃ limit, validate_lifecycle r bs = Ok limit ∧ maximum ≤ limit.

Lemma runs_follow g m key expected p l maximum :
  let r := key_row key (g + 1) (row_record_version (ce_record p) + 1) l in
  found g m (receipt_key_digest key) p → entry_eq p expected = true → row_key (ce_record p) = key →
  is_tombstone p = false → is_witness (mkEntry r 0) = false → row_is_tombstone r = false →
  body_reads_back l → acceptable r maximum →
  lifecycle_advances (set_result_body None (row_lifecycle (ce_record p))) (set_result_body None l) →
  g + 1 ≤ u64_max →
  runs T g m (replace_with expected r maximum)
    (λ _ _ m', ∃ n, m' = <[receipt_key_digest key := entry_without_result_body (mkEntry r n)]> m).
Proof.
  intros r Hf Heq Hkey Ht Hw Hrt Hback Hval Hadv Hmax. apply runs_range. intros Hg.
  eapply runs_conseq.
  { apply (runs_replace_with g m (receipt_key_digest key) expected p r); try done.
    - intros bs Hbs. destruct (Hval bs Hbs) as (limit & Hl & Hle).
      eapply key_valid; [done|cbn; lia|done|exact Hl|lia].
    - intros n. by eapply found_advances. }
  intros bs g' m' [_ H]. exact H.
Qed.
Lemma found_row_version g m d p : found g m d p → is_tombstone p = false → 0 < row_record_version (ce_record p).
Proof. intros (_ & Hr & _) Ht. by apply (read_from_valid d p Hr). Qed.
Lemma found_versions g m d p :
  versions_ok m → found g m d p →
  versions_of (set_result_body None (row_lifecycle (ce_record p))) (row_record_version (ce_record p)).
Proof. intros Hv (Hm & _). exact (Hv d _ Hm). Qed.
Lemma runs_answer {A : Type} g m d (select : State → option A) :
  runs T g m (e ← committed_entry d; answer_state e select)
    (λ a _ m', ∃ s, says m' d s ∧ select s = Some a).
Proof.
  eapply runs_read; [apply reads_committed|]. intros e (c & Hc & He). unfold answer_state.
  eapply runs_read with (φ := λ s, state e = Ok s); [by apply runs_lift|]. intros s Hs.
  apply runs_lift. intros a Ha. checked_result. exists s. split; [|done]. by eapply catalog_says.
Qed.
Lemma entry_eq_row p x key :
  entry_eq p x = true → row_key (ce_record x) = key → row_key (ce_record p) = key.
Proof. intros H <-. by apply entry_eq_key. Qed.

(** ** Promise *)

Lemma new_task_Ok key created ttl poll task :
  new_task key created ttl poll = Ok task →
  tp_created_at task = created ∧ tp_version task = 1
  ∧ ∀ r, row_key r = key → task_consistent r task = true.
Proof.
  intros (-> & H1 & H2 & H3 & H4)%projection_Ok. split_and!; [done|done|]. intros r <-.
  by apply task_consistent_true.
Qed.
Lemma reserved_live p reserved :
  state p = Ok (SReserved reserved) → is_tombstone p = false.
Proof.
  intros Hs%state_reserved. unfold is_tombstone. rewrite Hs. by destruct (rr_phase reserved).
Qed.
Lemma reserved_accepted p reserved :
  state p = Ok (SReserved reserved) →
  row_accepted (row_lifecycle (ce_record p)) = Some (accepted_epoch_ms (rr_original_cutoff reserved)).
Proof. intros ->%state_reserved. by destruct (rr_phase reserved). Qed.
(** A condition on the row a request is about. *)
Definition row_is (m : Rows) (d : digest) (φ : Lifecycle → Prop) : Prop :=
  ∀ e, m !! d = Some e → φ (row_lifecycle (ce_record e)).
Lemma found_is g m d p (φ : Lifecycle → Prop) :
  row_is m d φ → found g m d p → φ (set_result_body None (row_lifecycle (ce_record p))).
Proof. intros H (Hm & _). exact (H _ Hm). Qed.
Lemma strip_accepted l : row_accepted (set_result_body None l) = row_accepted l.
Proof. by destruct l as [| | | | | | | | | | |cutoff t w k ph c st| | | | |]; try destruct st. Qed.
Lemma strip_row_task l : row_task (set_result_body None l) = row_task l.
Proof. by destruct l as [| | | | | | | | | | |cutoff t w k ph c st| | | | |]; try destruct st. Qed.
(** The task is created no earlier than the request was accepted. *)
Definition created_in_time (created : Z) (l : Lifecycle) : Prop :=
  ∀ accepted, row_accepted l = Some accepted → accepted ≤ created.

Lemma runs_promise g m key version created ttl poll :
  row_is m (receipt_key_digest key) (created_in_time created) →
  runs T g m (promise_task_unbound key version created ttl poll)
    (λ receipt _ m', says m' (receipt_key_digest key) (STaskPromisedUnbound receipt)).
Proof.
  intros Htime. unfold promise_task_unbound. run_quiet.
  eapply runs_read with (φ := λ task, new_task key created ttl poll = Ok task); [by apply runs_lift|].
  intros task (Hcreated & _ & Htask)%new_task_Ok.
  eapply runs_read; [apply reads_open_row|]. intros [expected p] (Hf & Heq & Hkey). cbn [fst snd] in *.
  pose proof (entry_eq_row p expected key Heq Hkey) as Hkp.
  eapply runs_read; [apply reads_version|]. intros _ <-.
  eapply runs_read; [apply reads_reserved|]. intros reserved Hs.
  pose proof (reserved_live p reserved Hs) as Ht. pose proof (found_row_version g m _ p Hf Ht) as Hpos.
  pose proof (found_is g m _ p _ Htime Hf) as Hin. unfold created_in_time in Hin.
  rewrite strip_accepted, (reserved_accepted p reserved Hs) in Hin. specialize (Hin _ eq_refl).
  pose proof (state_reserved p reserved Hs) as Hl.
  destruct (rr_phase reserved) eqn:Hphase; auto with runs.
  eapply runs_read; [apply reads_next_version|]. intros v ->.
  eapply runs_read; [apply reads_sequence|]. intros sequence (-> & Hmax).
  eapply runs_bind.
  { apply (runs_follow g m key expected p); try done.
    - intros bs Hbs. exists MAX_TASK_RECORD_ENVELOPE_BYTES. split; [|done]. unfold validate_lifecycle.
      cbn [key_row row_lifecycle row_record_version]. rewrite Htask by done.
      rewrite (proj2 (Z.eqb_neq _ _)) by (unfold version_initial; lia).
      rewrite (proj2 (Z.leb_le _ _)) by lia. done.
    - rewrite Hl. constructor. }
  intros _ g' m' _. eapply runs_conseq; [apply runs_answer|]. intros a g2 m2 (s & Hsays & Ha).
  destruct s; try discriminate Ha. by injection Ha as ->.
Qed.

(** ** Binding *)

Lemma state_promised p promised :
  state p = Ok (STaskPromisedUnbound promised) →
  ∃ cutoff, row_lifecycle (ce_record p)
    = LTaskPromisedUnbound cutoff (pu_task promised) (pu_cancel_requested promised)
    ∧ pu_record promised = record_header p.
Proof.
  unfold state. intros Hs. destruct (row_lifecycle (ce_record p)) eqn:El; try discriminate; break Hs.
  apply projection_Ok in E as [-> _]. unfold promised_unbound_new in *. break E0. eauto.
Qed.

Lemma runs_bind_promised g m key version workspace :
  versions_ok m →
  runs T g m (bind_promised_task_actor key version workspace)
    (λ receipt _ m', says m' (receipt_key_digest key) (STaskPromisedActorBound receipt)).
Proof.
  intros Hv. unfold bind_promised_task_actor. run_quiet.
  eapply runs_read; [apply reads_open_row|]. intros [expected p] (Hf & Heq & Hkey). cbn [fst snd] in *.
  pose proof (entry_eq_row p expected key Heq Hkey) as Hkp.
  eapply runs_read; [apply reads_version|]. intros _ <-.
  pose proof (found_versions g m _ p Hv Hf) as Hver.
  destruct (row_lifecycle (ce_record p)) as [| | | | | | | | |cutoff0 task0 cancel0| | | | | | |] eqn:El; auto with runs.
  eapply runs_read with (φ := λ s, state p = Ok s); [by apply runs_lift|]. intros s Hs.
  destruct s as [| | | |promised| | | | | | |]; auto with runs.
  destruct (state_promised p promised Hs) as (cutoff & Hl & _). rewrite El in Hl.
  injection Hl as -> -> ->.
  pose proof Hf as (_ & Hr & _).
  destruct (read_task _ p (pu_task promised) Hr) as [Htask Htime]; [by rewrite El|].
  specialize (Htime (accepted_epoch_ms cutoff)). rewrite El in Htime. specialize (Htime eq_refl).
  eapply runs_read; [apply reads_next_version|]. intros v ->.
  eapply runs_read; [apply reads_sequence|]. intros sequence (-> & Hmax).
  eapply runs_bind.
  { apply (runs_follow g m key expected p); try done.
    - unfold is_tombstone. by rewrite El.
    - intros bs Hbs. exists MAX_TASK_RECORD_ENVELOPE_BYTES. split; [|done]. unfold validate_lifecycle.
      cbn [key_row row_lifecycle row_record_version].
      rewrite (task_consistent_key _ (ce_record p)), Htask by done.
      rewrite (link_consistent_new (key_row key _ _ _)). cbn [set_result_body versions_of] in Hver.
      rewrite !(proj2 (Z.leb_le _ _)); [done|lia|].
      destruct (pu_cancel_requested promised); cbn in Hver; lia.
    - rewrite El. constructor. }
  intros _ g' m' _. eapply runs_conseq; [apply runs_answer|]. intros a g2 m2 (s & Hsays & Ha).
  destruct s; try discriminate Ha. by injection Ha as ->.
Qed.

(** ** Hand-off *)

(** A fresh task taken over by a hand-off, from the row [l]. *)
Definition handoff_from (l : Lifecycle) (from : OriginalCutoffDescriptor * digest * AttemptPhase * bool)
  : Prop :=
  match l, from with
  | LReservedActorBound _ cutoff workspace cancel, (cutoff', workspace', NotBegun, cancel')
  | LReservedBegun _ cutoff workspace cancel, (cutoff', workspace', AttemptBegun, cancel')
  | LTaskPromisedActorBound cutoff _ workspace _ cancel, (cutoff', workspace', NotBegun, cancel') =>
      cutoff' = cutoff ∧ workspace' = workspace ∧ cancel' = cancel
  | _, _ => False
  end.
Lemma handoff_from_row l cutoff workspace phase cancel v :
  handoff_from l (cutoff, workspace, phase, cancel) → versions_of l v →
  row_accepted l = Some (accepted_epoch_ms cutoff) ∧ minimum_version phase ≤ v + 1
  ∧ set_result_body None l = l
  ∧ ∀ task link, lifecycle_advances l
      (LTaskHandoffActorBound cutoff task workspace link phase cancel StageNone).
Proof.
  intros Hfrom Hv.
  destruct l, phase; try done; destruct Hfrom as (-> & -> & ->); cbn in Hv |- *;
    (split_and!; [done| |done|constructor]); destruct cancel_requested; cbn in *; lia.
Qed.

Lemma runs_begin_handoff g m key version created ttl poll :
  versions_ok m → row_is m (receipt_key_digest key) (created_in_time created) →
  runs T g m (begin_bound_task_handoff key version created ttl poll)
    (λ receipt _ m', says m' (receipt_key_digest key) (STaskHandoffActorBound receipt)).
Proof.
  intros Hv Htime. unfold begin_bound_task_handoff. run_quiet.
  eapply runs_read with (φ := λ task, new_task key created ttl poll = Ok task); [by apply runs_lift|].
  intros task (Hcreated & _ & Htask)%new_task_Ok.
  eapply runs_read; [apply reads_open_row|]. intros [expected p] (Hf & Heq & Hkey). cbn [fst snd] in *.
  pose proof (entry_eq_row p expected key Heq Hkey) as Hkp.
  eapply runs_read; [apply reads_version|]. intros _ <-.
  eapply runs_read with (φ := handoff_from (row_lifecycle (ce_record p))).
  { destruct (row_lifecycle (ce_record p)); auto with runs; by apply runs_ret. }
  intros [[[cutoff workspace] phase] cancel] Hfrom.
  assert (is_tombstone p = false) as Ht.
  { unfold is_tombstone. by destruct (row_lifecycle (ce_record p)). }
  assert (versions_of (row_lifecycle (ce_record p)) (row_record_version (ce_record p))) as Hver.
  { pose proof (found_versions g m _ p Hv Hf) as H. by destruct (row_lifecycle (ce_record p)). }
  destruct (handoff_from_row _ _ _ _ _ _ Hfrom Hver) as (Hacc & Hmin & Hstrip & Hadv).
  pose proof (found_is g m _ p _ Htime Hf _ (eq_trans (strip_accepted _) Hacc)) as Hin.
  eapply runs_read; [apply reads_next_version|]. intros v ->.
  eapply runs_read; [apply reads_sequence|]. intros sequence (-> & Hmax).
  eapply runs_bind.
  { apply (runs_follow g m key expected p); try done.
    - intros bs Hbs. exists MAX_TASK_RECORD_ENVELOPE_BYTES. split; [|done]. unfold validate_lifecycle.
      cbn [key_row row_lifecycle row_record_version]. rewrite Htask by done.
      rewrite (link_consistent_new (key_row key _ _ _)), !(proj2 (Z.leb_le _ _)); [done|lia|lia].
    - rewrite Hstrip. apply Hadv. }
  intros _ g' m' _. eapply runs_conseq; [apply runs_answer|]. intros a g2 m2 (s & Hsays & Ha).
  destruct s; try discriminate Ha. by injection Ha as ->.
Qed.

(** ** Retention by the receipt *)

Lemma runs_answer_catalog {A : Type} g m d (select : State → option A) :
  runs T g m (c ← catalog; answer_or_latch (cat_records c !! d) d select)
    (λ a _ m', ∃ s, says m' d s ∧ select s = Some a).
Proof.
  eapply runs_read; [apply reads_catalog|]. intros c Hc.
  eapply runs_conseq; [apply reads_answer_or_latch|].
  intros a g' m' (_ & -> & e & s & He & Hs & Ha). exists s. split; [|done]. by eapply catalog_says.
Qed.

(** The row that [read_entry_under_writer_lock] answers for [key]. *)
Lemma runs_entry_of {A : Type} g m key (f : Entry → M A) (Q : A → Z → Rows → Prop) :
  (∀ p, found g m (receipt_key_digest key) p → row_key (ce_record p) = key → runs T g m (f p) Q) →
  runs T g m (expected ← read_entry_under_writer_lock (receipt_key_digest key);
              expected ← lift (ok_or expected ReceiptNotFound);
              if negb (bool_decide (row_key (ce_record expected) = key))
              then latch_error ReceiptDigestCollision else f expected) Q.
Proof.
  intros Hf. eapply runs_read; [apply reads_entry|]. intros o Ho.
  eapply runs_read with (φ := λ e, o = Some e).
  { apply runs_lift. intros e He. by checked_result. }
  intros e ->. case_bool_decide; cbn [negb]; [|auto with runs]. by apply Hf.
Qed.

Lemma runs_retain g m key version capacity :
  versions_ok m → capacity_exhausted capacity = true →
  runs T g m (retain_begun_task_after_link_capacity key version capacity)
    (λ receipt _ m', says m' (receipt_key_digest key) (STaskReceiptOwnedActorBound receipt)).
Proof.
  intros Hv Hcap. unfold retain_begun_task_after_link_capacity. run_quiet.
  eapply runs_read; [apply reads_available|]. intros _ _. run_quiet.
  apply runs_entry_of. intros p Hf Hkp.
  eapply runs_read; [apply reads_version|]. intros _ <-.
  pose proof (found_versions g m _ p Hv Hf) as Hver. pose proof Hf as (_ & Hr & _).
  destruct (row_lifecycle (ce_record p))
    as [| | | | | | | | | | |cutoff task workspace link phase cancel stage| | | | |] eqn:El;
    auto with runs.
  destruct phase; auto with runs.
  destruct (read_task _ p task Hr) as [Htask Htime]; [by rewrite El|].
  specialize (Htime (accepted_epoch_ms cutoff)). rewrite El in Htime. specialize (Htime eq_refl).
  pose proof (read_link _ p task workspace link Hr) as Hlink. rewrite El in Hlink.
  specialize (Hlink eq_refl eq_refl).
  eapply runs_read; [apply reads_next_version|]. intros v ->.
  eapply runs_read; [apply reads_sequence|]. intros sequence (-> & Hmax).
  eapply runs_bind.
  { apply (runs_follow g m key p p); try done.
    - by apply entry_eq_true.
    - unfold is_tombstone. by rewrite El.
    - intros bs Hbs. exists MAX_TASK_RECORD_ENVELOPE_BYTES. split; [|done]. unfold validate_lifecycle.
      cbn [key_row row_lifecycle row_record_version].
      rewrite (task_consistent_key _ (ce_record p)), Htask by done.
      rewrite (link_consistent_key _ (ce_record p)), Hlink, Hcap; cycle 1.
      { symmetry. by apply (read_from_valid _ p Hr). }
      rewrite !(proj2 (Z.leb_le _ _)); [done|lia|].
      destruct stage, cancel; cbn in Hver; lia.
    - rewrite El. destruct stage; constructor. }
  intros _ g' m' _. eapply runs_conseq; [apply runs_answer_catalog|]. intros a g2 m2 (s & Hsays & Ha).
  destruct s; try discriminate Ha. by injection Ha as ->.
Qed.

(** ** Staged terminals *)

Lemma restored body expected t :
  restore_held_terminal body expected = Ok t →
  body = Some (ct_outcome t) ∧ expected = ct_digest t ∧ canonical t.
Proof.
  unfold restore_held_terminal, restore_canonical_terminal, canonical. intros H.
  destruct body as [outcome|]; [|done]. destruct (canonical_terminal outcome) as [t'|] eqn:Ht; [|done].
  cbn in H. destruct (bool_decide (ct_digest t' = expected)) eqn:Hd; [|done]. injection H as <-.
  bool_prop. destruct (restore_canonical _ _ Ht) as [Ho _]. by rewrite Ho.
Qed.
Lemma canonical_restores t :
  canonical t →
  restore_canonical_terminal (body_value (Some (ct_outcome t))) (ct_digest t) = Ok t.
Proof. intros Hcan. exact (proj2 (restore_canonical _ _ Hcan)). Qed.
(** What a stage of a row says. *)
Definition stage_of (stored : StoredHandoffTerminalStageV1 json_value)
    (stage : HandoffTerminalStage json_value) : Prop :=
  match stored, stage with
  | StageNone, NoTerminal => True
  | StageStaged epoch' terminal' body, Staged epoch terminal _ =>
      epoch' = epoch ∧ terminal' = ct_digest terminal ∧ body = Some (ct_outcome terminal)
      ∧ canonical terminal
  | _, _ => False
  end.
Lemma state_handoff p h :
  state p = Ok (STaskHandoffActorBound h) →
  ∃ cutoff workspace link stage, row_lifecycle (ce_record p)
    = LTaskHandoffActorBound cutoff (ho_task h) workspace link (ho_phase h) (ho_cancel_requested h)
        stage
    ∧ ho_record h = record_header p ∧ stage_of stage (ho_terminal_stage h)
    ∧ ho_link h = link_new (row_key_digest (ce_record p)) (tp_task_id (ho_task h))
                    (tp_invocation_id (ho_task h)) workspace
    ∧ link = link_digest (ho_link h).
Proof.
  unfold state. intros Hs. destruct (row_lifecycle (ce_record p)) eqn:El; try discriminate; break Hs.
  apply projection_Ok in E as [-> _]. unfold stored_link in E0. break E0. bool_prop.
  unfold handoff_new in E2. break E2. eexists _, _, _, _. split_and!; [reflexivity|done| |done|done].
  destruct terminal_stage as [|epoch expected body]; [by injection E1 as <-|]. break E1.
  match goal with E : restore_held_terminal _ _ = Ok _ |- _ =>
    apply restored in E as (-> & -> & ?) end. done.
Qed.

Lemma strip_with_body e t : entry_without_result_body (with_result_body e t) = entry_without_result_body e.
Proof.
  unfold entry_without_result_body, with_result_body, without_result_body, row_set_body. cbn.
  do 2 f_equal.
  by destruct (row_lifecycle (ce_record e)) as [| | | | | | | | | | |cutoff tk w k ph c st| | | | |]; try destruct st.
Qed.
Lemma catalog_says_body m c d e t s :
  catalog_of m c → cat_records c !! d = Some e → state (with_result_body e t) = Ok s → says m d s.
Proof.
  intros ([W _] & <- & _) Hd Hs. exists (with_result_body e t). split; [|done].
  destruct (wf_rows c W d e Hd) as (_ & _ & Hst). by rewrite strip_with_body, Hst.
Qed.
(** The terminal is no older than the task. *)
Definition updated_by (epoch : Z) (l : Lifecycle) : Prop :=
  ∀ task, row_task l = Some task → tp_updated_at task ≤ epoch.

(** A row that stays consistent with the task and the link of the row before. *)
Lemma same_task_valid d p key sequence version l task :
  read_from d p → row_key (ce_record p) = key → d = receipt_key_digest key →
  row_task (row_lifecycle (ce_record p)) = Some task →
  task_consistent (key_row key sequence version l) task = true
  ∧ (∀ accepted, row_accepted (row_lifecycle (ce_record p)) = Some accepted →
       (accepted <=? tp_created_at task) = true)
  ∧ ∀ workspace link, row_link (row_lifecycle (ce_record p)) = Some (workspace, link) →
      link_consistent (key_row key sequence version l) task workspace link = true.
Proof.
  intros Hr Hkp -> Ht. destruct (read_task _ p task Hr Ht) as [Htask Htime]. split_and!.
  - by rewrite (task_consistent_key _ (ce_record p)).
  - intros accepted Ha. by apply Z.leb_le, Htime.
  - intros workspace link Hl. rewrite (link_consistent_key _ (ce_record p)).
    + by eapply read_link.
    + symmetry. by apply (read_from_valid _ p Hr).
Qed.

Lemma runs_stage g m key version epoch terminal certificate :
  versions_ok m → canonical terminal → outcome_reads_back (ct_outcome terminal) →
  row_is m (receipt_key_digest key) (updated_by epoch) →
  runs T g m (stage_bound_task_handoff_terminal key version epoch terminal certificate)
    (λ receipt _ m', says m' (receipt_key_digest key) (STaskHandoffActorBound receipt)).
Proof.
  intros Hv Hcan Hback Htime. unfold stage_bound_task_handoff_terminal. run_quiet.
  eapply runs_read; [apply reads_open_row|]. intros [expected p] (Hf & Heq & Hkey). cbn [fst snd] in *.
  pose proof (entry_eq_row p expected key Heq Hkey) as Hkp. pose proof Hf as (_ & Hr & _).
  eapply runs_read with (φ := λ h, state p = Ok (STaskHandoffActorBound h)).
  { destruct (state p) as [s|]; [|auto with runs]. destruct s; auto with runs. by apply runs_ret. }
  intros h Hs. destruct (state_handoff p h Hs) as (cutoff & workspace & link & stage & El & Hrec & Hst & _).
  destruct (ho_terminal_stage h) as [|actual_epoch actual_terminal actual_certificate].
  2:{ destruct (_ && _ && _); [|auto with runs]. apply runs_ret. by eapply found_says. }
  destruct stage; [|done]. rewrite Hrec. cbn [record_header rh_record_version].
  destruct (Z.eqb_spec (row_record_version (ce_record p)) version) as [<-|]; cbn [negb]; [|auto with runs].
  destruct (matches_staged_terminal _ _ _ _ _ _); cbn [negb]; [|auto with runs].
  eapply runs_read; [apply reads_next_version|]. intros v ->.
  eapply runs_read; [apply reads_sequence|]. intros sequence (-> & Hmax).
  eapply runs_read with (φ := λ l, l = LTaskHandoffActorBound cutoff (ho_task h) workspace link
    (ho_phase h) (ho_cancel_requested h)
    (StageStaged epoch (ct_digest terminal) (Some (ct_outcome terminal)))).
  { apply runs_lift. intros l Hl. rewrite El in Hl. by injection Hl as <-. }
  intros l ->. set (l := LTaskHandoffActorBound _ _ _ _ _ _ _).
  destruct (same_task_valid _ p key (g + 1) (row_record_version (ce_record p) + 1) l (ho_task h)
              Hr Hkp eq_refl) as (Htask & Hacc & Hlink); [by rewrite El|]. rewrite El in Hacc, Hlink.
  pose proof (found_is g m _ p _ Htime Hf) as Hup. unfold updated_by in Hup.
  rewrite strip_row_task, El in Hup. specialize (Hup _ eq_refl).
  pose proof (found_versions g m _ p Hv Hf) as Hver. rewrite El in Hver.
  eapply runs_bind.
  { apply (runs_follow g m key expected p); try done.
    - unfold is_tombstone. by rewrite El.
    - intros bs Hbs. exists MAX_RECEIPT_ENTITLEMENT_BYTES. split; [|done]. unfold validate_lifecycle.
      cbn [key_row row_lifecycle row_record_version]. fold l. fold (key_row key (g + 1) (row_record_version (ce_record p) + 1) l).
      cbn [l]. rewrite Htask, (Hacc _ eq_refl), (Hlink _ _ eq_refl).
      rewrite (proj2 (Z.leb_le (minimum_version _) _)); cycle 1.
      { destruct (ho_phase h), (ho_cancel_requested h); cbn in Hver |- *; lia. }
      cbn [andb fail_unless]. rewrite (proj2 (Z.leb_le _ _) Hup). cbn [fail_unless].
      by rewrite canonical_restores.
    - rewrite El. constructor. }
  intros _ g' m' _. eapply runs_read; [apply reads_catalog|]. intros c Hc.
  eapply runs_conseq; [apply reads_answer_or_latch|]. intros a g2 m2 (_ & -> & e & s & He & Hs' & Ha).
  apply fmap_Some in He as (e' & He' & ->).
  assert (says m' (receipt_key_digest key) s) as Hsays by (by eapply catalog_says_body).
  destruct s as [| | | | | |h'| | | | |]; try discriminate Ha.
  destruct (ho_terminal_stage h'); [done|]. by injection Ha as <-.
Qed.
End TaskSafety.
