(* ===== verification/ReceiptTaskEnds.v ===== *)
(** * Receipt store: the end of a task under failures

    The operations that cancel, end and complete the task of a receipt, run
    from a ready store under any answers of the environment. *)

From Stdlib Require Import ZArith Lia String.
From stdpp Require Import base gmap list option numbers countable strings.
From S2P Require Import Prelude Contract ResultSize Redaction ReceiptLedger ReceiptStates.
From S2P Require Import ReceiptRows ReceiptCatalog ReceiptCatalogFacts ReceiptCatalogProps.
From S2P Require Import ReceiptRecords ReceiptStore ReceiptOps.
From S2P Require Import ReceiptTerminals ReceiptRecovery ReceiptDisk ReceiptMachine ReceiptHoare.
From S2P Require Import ReceiptRuns ReceiptMutations ReceiptSafety ReceiptSafetyOps.
From S2P Require Import ReceiptTaskSafety.

Local Open Scope Z_scope.

Section TaskEnds.
Context {C : ReceiptCodec} {R : RowCodec C} {L : RowCodecLaws C R}.
Context {T : Z * Z}.

Notation Row := (StoredActiveReceiptV1 json_value).
Notation Entry := (CatalogEntry json_value).
Notation Lifecycle := (StoredActiveLifecycleV1 json_value).
Notation Rows := (gmap digest Entry).
Notation State := (ReceiptState json_value).
Notation Terminal := (V5CanonicalTerminal json_value).
Implicit Types (m : Rows) (g : Z) (d : digest) (r : Row) (e p : Entry) (key : ReceiptKey) (l : Lifecycle).

(** ** Cancellation *)

Lemma state_promised_bound p b :
  state p = Ok (STaskPromisedActorBound b) →
  ∃ cutoff workspace, row_lifecycle (ce_record p)
    = LTaskPromisedActorBound cutoff (pa_task b) workspace (link_digest (pa_link b))
        (pa_cancel_requested b)
    ∧ pa_record b = record_header p.
Proof.
  unfold state. intros Hs. destruct (row_lifecycle (ce_record p)) eqn:El; try discriminate; break Hs.
  apply projection_Ok in E as [-> _]. unfold stored_link in E0. break E0. bool_prop. subst.
  unfold promised_actor_bound_new in E1. break E1. eauto.
Qed.
Lemma state_owned p b :
  state p = Ok (STaskReceiptOwnedActorBound b) →
  ∃ cutoff workspace link capacity, row_lifecycle (ce_record p)
    = LTaskReceiptOwnedActorBound cutoff (ro_task b) workspace link capacity (ro_cancel_requested b)
    ∧ ro_record b = record_header p.
Proof.
  unfold state. intros Hs. destruct (row_lifecycle (ce_record p)) eqn:El; try discriminate; break Hs.
  apply projection_Ok in E as [-> _]. unfold stored_link in E0. break E0. bool_prop. subst.
  unfold receipt_owned_new in E1. break E1; eauto 10.
Qed.
(** The row of a task whose cancellation or end is asked for. *)
Lemma state_cancellation p t :
  state p = Ok (tc_into_state t) →
  row_task (row_lifecycle (ce_record p)) = Some (tc_task t) ∧ tc_record t = record_header p
  ∧ is_tombstone p = false.
Proof.
  intros Hs. unfold is_tombstone. destruct t as [r|r|r|r]; cbn [tc_into_state] in Hs.
  - apply state_promised in Hs as (? & -> & ?). done.
  - apply state_promised_bound in Hs as (? & ? & -> & ?). done.
  - apply state_handoff in Hs as (? & ? & ? & ? & -> & ? & _). done.
  - apply state_owned in Hs as (? & ? & ? & ? & -> & ?). done.
Qed.
Lemma cancellation_state s t : task_cancellation_state s = Some t → s = tc_into_state t.
Proof. by destruct s; cbn; try discriminate; intros [= <-]. Qed.

(** The row with its cancellation set is as valid as the row was. *)
Lemma cancelled_task_valid d p key sequence l :
  read_from d p → row_key (ce_record p) = key → d = receipt_key_digest key →
  set_cancel_requested (row_lifecycle (ce_record p)) = Some l →
  acceptable (key_row key sequence (row_record_version (ce_record p) + 1) l)
    MAX_TASK_RECORD_ENVELOPE_BYTES.
Proof.
  intros Hr Hkp Hd Hl bs Hbs. pose proof (read_from_valid d p Hr) as (Hpd & _ & Hq & bs0 & limit & Hv).
  set (r := key_row _ _ _ _).
  assert (0 < row_record_version (ce_record p)) as Hpos.
  { apply Hq. unfold is_tombstone. by destruct (row_lifecycle (ce_record p)). }
  assert (∀ task, task_consistent r task = task_consistent (ce_record p) task) as Htask.
  { intros task. by apply task_consistent_key. }
  assert (∀ task w k, link_consistent r task w k = link_consistent (ce_record p) task w k) as Hlink.
  { intros task w k. apply link_consistent_key. cbn. congruence. }
  unfold validate_lifecycle in Hv |- *.
  destruct (row_lifecycle (ce_record p)) eqn:El; try discriminate Hl; injection Hl as <-;
    unfold r in *; cbn [key_row row_lifecycle row_record_version] in *; break Hv; checked_result; bool_prop;
    rewrite Htask, ?Hlink;
    repeat match goal with
      | H : ?b = true |- context [?b] => rewrite H
      | H : ?a ≤ ?b |- context [?a <=? _] => rewrite (proj2 (Z.leb_le a _)) by lia
      end.
  all: rewrite ?(proj2 (Z.eqb_neq _ version_initial)) by (unfold version_initial; lia).
  all: eexists; split; [reflexivity|done].
Qed.
Lemma cancelled_advances p t l :
  state p = Ok (tc_into_state t) → task_cancellation_state (tc_into_state t) = Some t →
  tc_cancel_requested t = false → set_cancel_requested (row_lifecycle (ce_record p)) = Some l →
  lifecycle_advances (set_result_body None (row_lifecycle (ce_record p))) (set_result_body None l)
  ∧ ∀ key sequence version, is_witness (mkEntry (key_row key sequence version l) 0) = false
      ∧ row_is_tombstone (key_row key sequence version l) = false.
Proof.
  intros Hs Ht Hc Hl. destruct t as [r|r|r|r]; cbn [tc_into_state tc_cancel_requested] in *; try done.
  - apply state_promised in Hs as (cutoff & El & _). rewrite El, Hc in *. injection Hl as <-.
    split; [constructor|done].
  - apply state_promised_bound in Hs as (cutoff & workspace & El & _). rewrite El, Hc in *.
    injection Hl as <-. split; [constructor|done].
  - apply state_handoff in Hs as (cutoff & workspace & link & stage & El & _). rewrite El, Hc in *.
    injection Hl as <-. split; [destruct stage; constructor|done].
Qed.

(** A cancellation writes a staged result again as it was read. *)
Lemma cancelled_reads_back d p l :
  read_from d p → set_cancel_requested (row_lifecycle (ce_record p)) = Some l → body_reads_back l.
Proof.
  intros (bs & (_ & _ & _ & _ & Hp)%decode_Ok & _) Hl. unfold parse_row in Hp.
  destruct (row_from_slice bs) as [r|] eqn:Hrow.
  2:{ destruct (tombstone_from_slice bs) as [[[[k t] a] v]|]; [|done]. cbn in Hp.
      injection Hp as Hp. by rewrite <-Hp in Hl. }
  injection Hp as ->. pose proof (staged_reads_back _ _ Hrow) as Hback.
  destruct (row_lifecycle (ce_record p)) as [| | | | | | | | | | |cutoff tk w k ph c st| | | | |];
    try discriminate Hl; injection Hl as <-; try done.
  destruct st as [|epoch terminal body]; [done|]. exact (Hback eq_refl).
Qed.

Lemma restored_entry m c d e encoded e' s :
  catalog_of m c → cat_records c !! d = Some e → with_body_from_bytes e encoded = Ok e' →
  state e' = Ok s → says m d s.
Proof.
  intros Hc He Hw Hs. unfold with_body_from_bytes in Hw.
  destruct (negb _); [injection Hw as <-; by eapply catalog_says|]. break Hw. bool_prop.
  destruct Hc as ([W _] & <- & _). eexists. split; [|exact Hs]. rewrite He. f_equal.
  destruct (wf_rows c W d e He) as (_ & _ & Hst). rewrite <-Hst. symmetry.
  by apply entry_eq_true.
Qed.

Lemma runs_cancel_task g m key expected_state :
  runs T g m (request_task_cancel key expected_state)
    (λ t _ m', says m' (receipt_key_digest key) (tc_into_state t) ∧ tc_cancel_requested t = true).
Proof.
  unfold request_task_cancel. run_quiet. destruct (negb _); [auto with runs|].
  eapply runs_read; [apply reads_open_row|]. intros [expected p] (Hf & Heq & Hkey). cbn [fst snd] in *.
  pose proof (entry_eq_row p expected key Heq Hkey) as Hkp. pose proof Hf as (_ & Hr & _).
  eapply runs_read with (φ := λ t, state p = Ok (tc_into_state t)
                                   ∧ task_cancellation_state (tc_into_state t) = Some t).
  { destruct (state p) as [s|]; [|auto with runs]. apply runs_lift. intros t Ht. checked_result.
    by rewrite <-(cancellation_state s t Ht). }
  intros t (Hs & Ht). destruct (_ || _) eqn:Hdone.
  { apply runs_ret. split; [by eapply found_says|]. apply orb_true_iff in Hdone as [Hd|Hd].
    - by bool_prop.
    - unfold is_exact_cancel_successor_of in Hd. by destruct (tc_cancel_requested t). }
  apply orb_false_iff in Hdone as [Hno _].
  destruct (bool_decide (t = expected_state)) eqn:Hsame; cbn [negb]; [|auto with runs].
  cbn [andb] in Hno. destruct (state_cancellation p t Hs) as (_ & Hrec & Hlive).
  rewrite Hrec. cbn [record_header rh_record_version].
  eapply runs_read; [apply reads_next_version|]. intros v ->.
  eapply runs_read; [apply reads_sequence|]. intros sequence (-> & Hmax).
  eapply runs_read with (φ := λ l, set_cancel_requested (row_lifecycle (ce_record p)) = Some l).
  { apply runs_lift. intros l Hl. by checked_result. }
  intros l Hl. destruct (cancelled_advances p t l Hs Ht Hno Hl) as [Hadv Hplain].
  eapply runs_bind.
  { apply (runs_follow g m key expected p); try done; [apply Hplain..|by eapply cancelled_reads_back|].
    by eapply cancelled_task_valid. }
  intros encoded g' m' _. eapply runs_read; [apply reads_committed|]. intros e (c & Hc & He).
  eapply runs_read with (φ := λ e', with_body_from_bytes e encoded = Ok e'); [by apply runs_lift|].
  intros e' He'. eapply runs_read with (φ := λ s, state e' = Ok s).
  { destruct (state e'); [by apply runs_ret|auto with runs]. }
  intros s Hs'. destruct (task_cancellation_state s) as [t'|] eqn:Ht'; [|auto with runs].
  apply cancellation_state in Ht' as ->.
  destruct (is_exact_cancel_successor_of t' expected_state) eqn:Hsucc; [|auto with runs].
  apply runs_ret. split; [by eapply restored_entry|].
  unfold is_exact_cancel_successor_of in Hsucc. by destruct (tc_cancel_requested t').
Qed.

(** ** Terminals of tasks *)

(** The end of a task follows from each of its rows, of a hand-off only as
    [terminal_allowed] lets it. *)
Lemma end_advances p t epoch terminal ended :
  state p = Ok (tc_into_state t) → terminal_allowed t epoch terminal = Ok tt →
  lifecycle_advances (set_result_body None (row_lifecycle (ce_record p)))
    (LTaskTerminalReceiptBacked ended epoch (ct_digest terminal) None (tc_cancel_requested t)).
Proof.
  intros Hs Ha. destruct t as [r|r|r|r]; cbn [tc_into_state tc_cancel_requested] in *.
  - apply state_promised in Hs as (? & -> & _). constructor.
  - apply state_promised_bound in Hs as (? & ? & -> & _). constructor.
  - apply state_handoff in Hs as (? & ? & ? & stage & -> & _ & Hst & _). unfold terminal_allowed in Ha.
    destruct stage, (ho_terminal_stage r); try done.
    + case_bool_decide; [done|]. destruct (ho_phase r); [constructor|done].
    + destruct Hst as (-> & -> & _). destruct (_ || _) eqn:E; [done|]. bool_prop.
      apply Z.eqb_eq in H. subst. constructor.
  - apply state_owned in Hs as (? & ? & ? & ? & -> & _). constructor.
Qed.

Lemma state_backed e receipt :
  state e = Ok (STaskTerminalReceiptBacked receipt) →
  ∃ task body cancel, row_lifecycle (ce_record e)
    = LTaskTerminalReceiptBacked task (rb_terminal_epoch_ms receipt)
        (ct_digest (rb_terminal receipt)) body cancel.
Proof.
  unfold state. intros Hs. destruct (row_lifecycle (ce_record e)) eqn:El; try discriminate; break Hs.
  apply restored in E as (-> & -> & _). unfold receipt_backed_new in *. break E1. eauto.
Qed.
(** The terminal a row answers with is the one just written. *)
Lemma backed_terminal e terminal receipt :
  canonical terminal → state (with_result_body e terminal) = Ok (STaskTerminalReceiptBacked receipt) →
  rb_terminal receipt = terminal.
Proof.
  intros Hcan. unfold state, with_result_body, row_set_body. cbn [ce_record row_lifecycle]. intros Hs.
  destruct (row_lifecycle (ce_record e)) as [| | | | | | | | | | |cutoff tk w k ph c st| | | | |];
    cbn [set_result_body] in Hs; try (destruct st; cbn [set_result_body] in Hs); try discriminate; break Hs.
  apply (restored (Some (ct_outcome terminal))) in E as (Hb & _ & Hc).
  assert (a = terminal) as ->.
  { unfold canonical in *. injection Hb as Hb. rewrite <-Hb in Hc. congruence. }
  unfold receipt_backed_new in *. by break E1.
Qed.

Lemma runs_write_task_terminal g m key expected_state p task epoch terminal :
  found g m (receipt_key_digest key) p → row_key (ce_record p) = key →
  state p = Ok (tc_into_state expected_state) →
  canonical terminal → outcome_reads_back (ct_outcome terminal) →
  terminal_allowed expected_state epoch terminal = Ok tt →
  (∀ r, row_key r = key → task_consistent r task = true) → tp_updated_at task = epoch →
  epoch + tp_ttl_ms task ≤ u64_max →
  runs T g m (write_task_terminal key expected_state p task epoch terminal)
    (λ receipt _ m', says m' (receipt_key_digest key) (STaskTerminalReceiptBacked receipt)
                     ∧ rb_terminal receipt = terminal ∧ rb_terminal_epoch_ms receipt = epoch).
Proof.
  intros Hf Hkp Hs Hcan Hback Hallow Htask Hup Httl. unfold write_task_terminal. apply runs_range. intros Hg.
  destruct (state_cancellation p expected_state Hs) as (_ & _ & Hlive).
  pose proof (found_row_version g m _ p Hf Hlive) as Hpos.
  eapply runs_read; [apply reads_next_version|]. intros v ->.
  eapply runs_read; [apply reads_sequence|]. intros sequence (-> & Hmax).
  set (r := key_row _ _ _ _).
  eapply runs_read with (φ := λ bs, serialize_reserved_record r MAX_RECEIPT_ENTITLEMENT_BYTES = Ok bs);
    [by apply runs_lift|].
  intros encoded Henc. eapply runs_read; [apply reads_catalog|]. intros c (Hc & Hrec & _).
  destruct (validate_catalog_replace c p (mkEntry r (blen encoded))) as [[]|error] eqn:Hv;
    [|destruct (requires_reopen error); auto with runs].
  apply (validate_replace_Ok c _ _ (proj1 Hc)) in Hv. rewrite Hrec in Hv.
  eapply runs_bind.
  { apply (runs_replace_row g m r encoded p); try done.
    - eapply serialized_decodes; [exact Henc| |done|exact Hback].
      eapply key_valid; [done|cbn; lia|done| |by eapply serialize_within].
      unfold validate_lifecycle, r. cbn [key_row row_lifecycle row_record_version].
      rewrite Htask by done. rewrite (proj2 (Z.eqb_neq _ _)) by (unfold version_initial; lia).
      rewrite (proj2 (Z.eqb_eq _ _) Hup). cbn [negb andb fail_unless].
      rewrite (proj2 (u64_checked_add_Some _ _ _) (conj eq_refl Httl)). cbn [ok_or].
      by rewrite canonical_restores.
    - eapply found_advances; try done. by apply end_advances. }
  cbn. intros _ g' m' [_ Hm']. eapply runs_read; [apply reads_committed|]. intros e (c' & Hc' & He).
  eapply runs_conseq; [apply reads_answer_or_latch|]. intros a g2 m2 (_ & -> & x & s & [= <-] & Hs' & Ha).
  assert (says m' (receipt_key_digest key) s) as Hsays by (by eapply catalog_says_body).
  destruct s as [| | | | | | | |backed| | |]; try discriminate Ha. injection Ha as <-.
  split_and!; [done|by eapply backed_terminal|].
  destruct Hc' as (_ & Hrec' & _). rewrite Hrec', Hm' in He.
  change (row_key_digest r) with (receipt_key_digest key) in He. rewrite lookup_insert_eq in He.
  injection He as <-. destruct (state_backed _ _ Hs') as (? & ? & ? & Hl). cbn in Hl. by injection Hl as _ ->.
Qed.

Lemma runs_end_task g m key expected_state epoch terminal :
  canonical terminal → outcome_reads_back (ct_outcome terminal) →
  epoch + tp_ttl_ms (tc_task expected_state) ≤ u64_max →
  runs T g m (publish_receipt_backed_task_terminal key expected_state epoch terminal)
    (λ receipt _ m', says m' (receipt_key_digest key) (STaskTerminalReceiptBacked receipt)
                     ∧ rb_terminal receipt = terminal ∧ rb_terminal_epoch_ms receipt = epoch).
Proof.
  intros Hcan Hback Httl. unfold publish_receipt_backed_task_terminal. run_quiet.
  destruct (negb _); [auto with runs|].
  eapply runs_read with (φ := λ u, terminal_allowed expected_state epoch terminal = Ok u);
    [by apply runs_lift|]. intros [] Hallow.
  eapply runs_read with (φ := λ v, True); [by apply runs_lift|]. intros task_version _.
  set (t0 := mkProjection _ _ _ _ _ _ _).
  eapply runs_read with (φ := λ t, projection_new t0 = Ok t); [by apply runs_lift|].
  intros task (-> & Hle & Hn1 & Hn2 & Hn3)%projection_Ok.
  eapply runs_read; [apply reads_available|]. intros _ _. run_quiet.
  apply runs_entry_of. intros p Hf Hkp. pose proof Hf as (_ & Hr & _).
  destruct (state p) as [s|] eqn:Hs; [|auto with runs].
  assert (runs T g m
    (if negb (bool_decide (s = tc_into_state expected_state))
     then refuse (ReceiptVersionMismatch (rh_record_version (tc_record expected_state))
                    (row_record_version (ce_record p)))
     else if negb (row_record_version (ce_record p) =? rh_record_version (tc_record expected_state))
     then refuse (ReceiptVersionMismatch (rh_record_version (tc_record expected_state))
                    (row_record_version (ce_record p)))
     else write_task_terminal key expected_state p t0 epoch terminal)
    (λ receipt _ m', says m' (receipt_key_digest key) (STaskTerminalReceiptBacked receipt)
                     ∧ rb_terminal receipt = terminal ∧ rb_terminal_epoch_ms receipt = epoch))
    as Hrest.
  { case_bool_decide as Hsame; cbn [negb]; [|auto with runs]. destruct (negb _); [auto with runs|].
    subst s. destruct (state_cancellation p expected_state Hs) as (Ht & _).
    destruct (read_task _ p _ Hr Ht) as [Htask _]. unfold task_consistent in Htask. bool_prop.
    apply runs_write_task_terminal; try done. intros r Hrk. apply task_consistent_true; try done;
      rewrite Hrk, <-Hkp; done. }
  destruct s as [| | | | | | | |backed| | |]; try exact Hrest.
  destruct (_ && _ && _ && _) eqn:Hsame; [|auto with runs]. bool_prop. apply runs_ret.
  split_and!; [by eapply found_says|done|]. by apply Z.eqb_eq.
Qed.

(** ** Completed hand-offs *)

(** The witness of a completed hand-off, after the row [p]. *)
Lemma handoff_witness_valid d p key sequence v w task workspace link :
  read_from d p → row_key (ce_record p) = key → d = receipt_key_digest key →
  row_task (row_lifecycle (ce_record p)) = Some task →
  row_link (row_lifecycle (ce_record p)) = Some (workspace, link) →
  checked_next (row_record_version (ce_record p)) = Some v →
  0 < sequence → row_mutation_sequence (ce_record p) < sequence →
  minimum_version (hw_phase w) ≤ row_record_version (ce_record p) →
  hw_prior_record_version w = row_record_version (ce_record p) →
  hw_prior_mutation_sequence w = row_mutation_sequence (ce_record p) →
  hw_prior_created_at w = tp_created_at task → hw_prior_task_version w = tp_version task →
  hw_workspace_identity_hash w = workspace → hw_task_link_digest w = link →
  (if hw_terminal_staged w then tp_version task < hw_task_record_version w
   else hw_task_record_version w = tp_version task) →
  hw_task_bound_lifecycle_link_version w ≠ 0 → hw_task_bound_mutation_sequence w ≠ 0 →
  tp_created_at task ≤ hw_bind_epoch_ms w →
  ∀ bs, blen bs ≤ MAX_COMPLETED_TASK_HANDOFF_WITNESS_BYTES →
    row_valid (successor_row p sequence v (LCompletedTaskHandoffDeletion w)) bs.
Proof.
  intros Hr Hkp Hd Ht Hl Hnext Hspos Hseq Hmin E1 E2 E3 E4 E5 E6 Hv N1 N2 Hbind bs Hbs.
  pose proof (read_from_valid d p Hr) as (Hpd & Hk & Hq & _).
  destruct (read_task d p task Hr Ht) as [Htask _].
  pose proof (read_link d p task workspace link Hr Ht Hl) as Hlink.
  destruct Hq as [Hq Hpos].
  { unfold is_tombstone. by destruct (row_lifecycle (ce_record p)). }
  eapply (follows_valid d p); try done; [left; cbn; lia|].
  unfold task_consistent, link_consistent in *. bool_prop.
  unfold validate_lifecycle, follows_version, follows_mutation.
  cbn [successor_row row_lifecycle row_record_version row_mutation_sequence row_key row_key_digest].
  rewrite E1, E2, E3, E4, E5, E6. rewrite (proj2 (Z.leb_le _ _) Hmin), (bool_decide_true _ Hnext).
  rewrite (proj2 (Z.eqb_neq _ _) Hq), (proj2 (Z.ltb_lt _ _) Hseq), (proj2 (Z.eqb_neq _ _) N1),
    (proj2 (Z.eqb_neq _ _) N2), (proj2 (Z.leb_le _ _) Hbind).
  match goal with H : (tp_version task =? 0) = false |- _ => rewrite H end.
  rewrite bool_decide_true by congruence.
  assert ((if hw_terminal_staged w then tp_version task <? hw_task_record_version w
           else hw_task_record_version w =? tp_version task) = true) as ->.
  { destruct (hw_terminal_staged w); [by apply Z.ltb_lt|by apply Z.eqb_eq]. }
  done.
Qed.

Lemma runs_retire_handoff g m key p build :
  found g m (receipt_key_digest key) p → row_key (ce_record p) = key →
  handed_over (row_lifecycle (ce_record p)) = true →
  (∀ witness, build (g + 1) = Ok witness → 0 ≤ g →
     ∃ v w, witness = successor_row p (g + 1) v (LCompletedTaskHandoffDeletion w)
       ∧ ∀ bs, blen bs ≤ MAX_COMPLETED_TASK_HANDOFF_WITNESS_BYTES → row_valid witness bs) →
  runs T g m (retire_handoff p build) (λ _ _ m', m' = delete (receipt_key_digest key) m).
Proof.
  intros Hf Hkp Hover Hbuild. unfold retire_handoff. apply runs_range. intros Hg.
  pose proof Hf as (Hm & Hr & _). pose proof (read_from_valid _ p Hr) as (Hd & _).
  eapply runs_read; [apply reads_sequence|]. intros sequence (-> & Hmax).
  destruct (build (g + 1)) as [witness|] eqn:Hb; [|auto with runs].
  destruct (serialize_reserved_record _ _) as [encoded|] eqn:Henc; [|auto with runs].
  eapply runs_read; [apply reads_catalog|]. intros c (Hc & Hrec & _).
  destruct (validate_catalog_remove c p) as [[]|] eqn:Hv; [|auto with runs].
  apply (validate_remove_Ok c p (proj1 Hc)) in Hv. rewrite Hrec in Hv.
  destruct (Hbuild witness eq_refl (proj1 Hg)) as (v & w & -> & Hval).
  rewrite <-Hd. eapply runs_conseq.
  { apply (runs_delete_row g m _ encoded p (Completed (entry_digest p))); try done.
    - eapply serialized_decodes; [exact Henc|apply Hval; by eapply serialize_within|done|done].
    - eapply step_complete; [exact Hv|].
      by destruct (row_lifecycle (ce_record p)) as [| | | | | | | | | | |cutoff tk x k ph ca st| | | | |] eqn:El;
        cbn in Hover |- *; rewrite ?El; try destruct st. }
  by intros _ g' m' [_ ->].
Qed.

(** What [TaskBoundReceipt::new] guarantees, and that a caller brings the
    version of the task that the row holds. *)
Definition bound_ok (bound : TaskBoundReceipt) (l : Lifecycle) : Prop :=
  lh_lifecycle_link_version (tb_record bound) ≠ 0 ∧ lh_mutation_sequence (tb_record bound) ≠ 0
  ∧ tp_version (tb_task bound) = tb_task_record_version bound
  ∧ tp_created_at (tb_task bound) ≤ tb_bind_epoch_ms bound
  ∧ ∀ task, row_task l = Some task → tp_version (tb_task bound) = tp_version task.

(** The phase of a row that may be handed over. *)
Definition row_phase (l : Lifecycle) : AttemptPhase :=
  match l with LTaskHandoffActorBound _ _ _ _ phase _ _ => phase | _ => NotBegun end.
Lemma read_minimum d p :
  read_from d p → handed_over (row_lifecycle (ce_record p)) = true →
  minimum_version (row_phase (row_lifecycle (ce_record p))) ≤ row_record_version (ce_record p).
Proof.
  intros (_ & _ & _ & bs & limit & Hl)%read_from_valid Ho. unfold validate_lifecycle in Hl.
  destruct (row_lifecycle (ce_record p)); try discriminate Ho; break Hl; checked_result; bool_prop;
    done.
Qed.
Lemma handed_over_parts l :
  handed_over l = true → ∃ task workspace link, row_task l = Some task
    ∧ row_link l = Some (workspace, link).
Proof. destruct l; try done; eauto. Qed.

Lemma completed_witness g m key p bound task phase cancel witness :
  found g m (receipt_key_digest key) p → row_key (ce_record p) = key → 0 ≤ g →
  row_task (row_lifecycle (ce_record p)) = Some task →
  bound_ok bound (row_lifecycle (ce_record p)) →
  confirmed_task_matches (tb_task bound) task phase cancel = true →
  build_completed_task_handoff_deletion_record p bound (g + 1) = Ok witness →
  ∃ v w, witness = successor_row p (g + 1) v (LCompletedTaskHandoffDeletion w)
    ∧ ∀ bs, blen bs ≤ MAX_COMPLETED_TASK_HANDOFF_WITNESS_BYTES → row_valid witness bs.
Proof.
  intros Hf Hkp Hg Ht (N1 & N2 & Hver & Hbind & Hsame) Hmatch Hb.
  assert (handed_over (row_lifecycle (ce_record p)) = true) as Hover.
  { unfold build_completed_task_handoff_deletion_record in Hb.
    by destruct (row_lifecycle (ce_record p)) as [| | | | | | | | | | |cutoff tk x k ph ca st| | | | |];
      try destruct st. }
  destruct (handed_over_parts _ Hover) as (task' & workspace & link & Ht' & Hl).
  rewrite Ht in Ht'. injection Ht' as <-. pose proof Hf as (_ & Hr & Hle).
  assert (row_mutation_sequence (ce_record p) < g + 1) as Hseq.
  { unfold entry_sequence in Hle. enough (is_tombstone p = false) by (specialize (Hle H); lia).
    unfold is_tombstone. by destruct (row_lifecycle (ce_record p)). }
  pose proof (read_minimum _ p Hr Hover) as Hmin.
  unfold confirmed_task_matches in Hmatch. bool_prop.
  match goal with H : (tp_created_at _ =? _) = true |- _ => apply Z.eqb_eq in H end.
  assert (∃ v w, checked_next (row_record_version (ce_record p)) = Some v
    ∧ witness = successor_row p (g + 1) v (LCompletedTaskHandoffDeletion w)
    ∧ w = handoff_witness p task workspace link (lh_lifecycle_link_version (tb_record bound))
            (lh_mutation_sequence (tb_record bound)) (tb_task_record_version bound)
            (tb_bind_epoch_ms bound) (row_phase (row_lifecycle (ce_record p))) false)
    as (v & w & Hnext & -> & ->).
  { unfold build_completed_task_handoff_deletion_record in Hb.
    destruct (row_lifecycle (ce_record p)) as [| | | | | | | | | |cutoff tk x k ca|cutoff tk x k ph ca st| | | | |];
      try discriminate Hover; try (destruct st; [|done]); injection Ht as ->; injection Hl as -> ->;
      apply next_row_Ok in Hb as (v & Hv & ->); eauto 10. }
  eexists v, _. split; [reflexivity|].
  eapply handoff_witness_valid; try done; cbn [handoff_witness hw_terminal_staged
    hw_task_record_version hw_bind_epoch_ms]; [lia| |lia].
  rewrite <-Hver. by apply Hsame.
Qed.

Lemma runs_complete_bound g m key version bound :
  row_is m (receipt_key_digest key) (bound_ok bound) →
  runs T g m (complete_bound_task_handoff key version bound)
    (λ b _ m', b = bound ∧ m' = delete (receipt_key_digest key) m).
Proof.
  intros Hok. unfold complete_bound_task_handoff. run_quiet.
  eapply runs_read; [apply reads_available|]. intros _ _. do 2 run_quiet.
  eapply runs_read; [apply reads_catalog|]. intros c (_ & Hrec & _).
  destruct (cat_records c !! receipt_key_digest key) as [x|]; [|auto with runs].
  case_bool_decide as Hkx; cbn [negb]; [|auto with runs].
  eapply runs_read; [apply reads_entry|]. intros o Ho.
  eapply runs_read with (φ := λ e, o = Some e).
  { apply runs_lift. intros e He. by checked_result. }
  intros p ->. destruct (entry_eq p x) eqn:Heq; cbn [negb]; [|auto with runs].
  pose proof (entry_eq_row p x key Heq Hkx) as Hkp.
  eapply runs_read; [apply reads_version|]. intros _ <-.
  eapply runs_read with (φ := λ from, row_task (row_lifecycle (ce_record p)) = Some from.1.1.2
                                      ∧ handed_over (row_lifecycle (ce_record p)) = true).
  { destruct (state p) as [s|] eqn:Hs; [|auto with runs].
    destruct s as [| | | | |b|h| | | | |]; auto with runs.
    - destruct (state_promised_bound p b Hs) as (? & ? & -> & _). by apply runs_ret.
    - destruct (state_handoff p h Hs) as (? & ? & ? & ? & -> & _).
      destruct (ho_terminal_stage h); [by apply runs_ret|auto with runs]. }
  intros [[[link task] phase] cancel] [Ht Hover]. cbn [fst snd] in Ht.
  destruct (_ || _) eqn:Hmis; [auto with runs|].
  apply orb_false_iff in Hmis as [[_ Hmatch%negb_false_iff]%orb_false_iff _].
  pose proof (found_is g m _ p _ Hok Ho) as (N1 & N2 & N3 & N4 & N5).
  eapply runs_bind.
  { apply (runs_retire_handoff g m key p); try done. intros witness Hb Hg.
    eapply (completed_witness g m key p bound task phase cancel); try done.
    split_and!; try done. intros t. rewrite <-strip_row_task. apply N5. }
  intros [] g' m' ->. by apply runs_ret.
Qed.

(** What [TaskTerminalBoundReceipt::new] guarantees, and that the ended task
    is a later version of the one the row holds. *)
Definition terminal_bound_ok (bound : TaskTerminalBoundReceipt) (l : Lifecycle) : Prop :=
  lh_lifecycle_link_version (ttb_record bound) ≠ 0 ∧ lh_mutation_sequence (ttb_record bound) ≠ 0
  ∧ ∀ task, row_task l = Some task → tp_version task < ttb_task_record_version bound.

Lemma read_staged d p cutoff task workspace link phase cancel epoch terminal body :
  read_from d p →
  row_lifecycle (ce_record p) = LTaskHandoffActorBound cutoff task workspace link phase cancel
    (StageStaged epoch terminal body) →
  tp_created_at task ≤ epoch.
Proof.
  intros Hr El. destruct (read_task d p task Hr) as [Htask _]; [by rewrite El|].
  apply read_from_valid in Hr as (_ & _ & _ & bs & limit & Hl). unfold validate_lifecycle in Hl.
  rewrite El in Hl. break Hl. checked_result. unfold task_consistent in Htask. bool_prop. lia.
Qed.

Lemma runs_complete_staged g m key version bound :
  row_is m (receipt_key_digest key) (terminal_bound_ok bound) →
  runs T g m (complete_staged_task_handoff key version bound)
    (λ b _ m', b = bound ∧ m' = delete (receipt_key_digest key) m).
Proof.
  intros Hok. unfold complete_staged_task_handoff. run_quiet.
  eapply runs_read; [apply reads_open_row|]. intros [expected p] (Hf & Heq & Hkey). cbn [fst snd] in *.
  pose proof (entry_eq_row p expected key Heq Hkey) as Hkp. pose proof Hf as (_ & Hr & Hle).
  eapply runs_read; [apply reads_version|]. intros _ <-.
  eapply runs_read with (φ := λ h, state p = Ok (STaskHandoffActorBound h)).
  { destruct (state p) as [s|]; [|auto with runs]. destruct s; auto with runs. by apply runs_ret. }
  intros h Hs. destruct (state_handoff p h Hs) as (cutoff & workspace & link & stage & El & _ & Hst & _).
  destruct (ho_terminal_stage h) as [|epoch terminal certificate]; [auto with runs|].
  destruct stage as [|epoch' terminal' body]; [done|]. destruct Hst as (-> & -> & _).
  destruct (_ || _) eqn:Hmis; [auto with runs|].
  apply orb_false_iff in Hmis as [[_ Hepoch%negb_false_iff]%orb_false_iff _]. apply Z.eqb_eq in Hepoch.
  pose proof (found_is g m _ p _ Hok Hf) as (N1 & N2 & N3). rewrite strip_row_task, El in N3.
  pose proof (read_staged _ p _ _ _ _ _ _ _ _ _ Hr El) as Hcreated.
  pose proof (read_minimum _ p Hr) as Hmin. rewrite El in Hmin. specialize (Hmin eq_refl).
  eapply runs_bind.
  { apply (runs_retire_handoff g m key p); try done; [by rewrite El|]. intros witness Hb Hg.
    unfold build_completed_staged_task_handoff_deletion_record in Hb. rewrite El in Hb.
    apply next_row_Ok in Hb as (v & Hnext & ->). eexists v, _. split; [reflexivity|].
    assert (entry_sequence p ≤ g) as Hseq by (apply Hle; unfold is_tombstone; by rewrite El).
    unfold entry_sequence in Hseq.
    eapply handoff_witness_valid; try done; rewrite ?El; try done;
      cbn [handoff_witness hw_terminal_staged hw_task_record_version hw_bind_epoch_ms]; [lia|lia|by apply N3|lia]. }
  intros [] g' m' ->. by apply runs_ret.
Qed.
End TaskEnds.
