(* ===== verification/ReceiptLife.v ===== *)
(** * Receipt store: the life of a ledger

    A ledger serves requests, fails, stops at any point and is opened again.
    Whatever happens in that order, its disk stands for rows that the receipt
    machine reached: no row is lost, altered or brought back by a failure. *)

From Stdlib Require Import ZArith Lia String.
From stdpp Require Import base gmap list option numbers countable strings relations.
From S2P Require Import Prelude Contract ResultSize Redaction ReceiptLedger ReceiptStates.
From S2P Require Import ReceiptRows ReceiptCatalog ReceiptCatalogFacts ReceiptCatalogProps.
From S2P Require Import ReceiptRecords ReceiptStore ReceiptOps.
From S2P Require Import ReceiptTerminals ReceiptRecovery ReceiptDisk ReceiptMachine ReceiptHoare.
From S2P Require Import ReceiptRuns ReceiptMutations ReceiptReopen ReceiptSafety.
From S2P Require Import ReceiptSafetyOps ReceiptTaskSafety.
From S2P Require Import ReceiptTaskEnds.

Local Open Scope Z_scope.

Section Life.
Context {C : ReceiptCodec} {R : RowCodec C} {L : RowCodecLaws C R}.
Context {T : Z * Z}.

Notation Entry := (CatalogEntry json_value).
Notation Rows := (gmap digest Entry).
Notation Terminal := (V5CanonicalTerminal json_value).
Implicit Types (m : Rows) (w : World) (g : Z).

(** ** Requests *)

Inductive request :=
| Reserve (key : ReceiptKey) (cutoff : OriginalCutoffDescriptor)
| RequestCancel (key : ReceiptKey) (cancel_reserved_at : Z)
| Bind (key : ReceiptKey) (expected_version : Z) (workspace : digest)
| Begin (key : ReceiptKey) (expected_version : Z)
| PublishDirect (key : ReceiptKey) (expected_version epoch : Z) (terminal : Terminal)
| Acknowledge (key : ReceiptKey) (terminal_digest : digest) (acknowledged_at : Z)
| RecoverExact (key : ReceiptKey) (observed_at : option Z)
| ReadReserved (d : digest)
| ResolveTask (task : TaskId)
| Reclaim (observed_at : Z)
| Promise (key : ReceiptKey) (expected_version created_at ttl_ms poll_interval_ms : Z)
| BindPromise (key : ReceiptKey) (expected_version : Z) (workspace : digest)
| BeginHandoff (key : ReceiptKey) (expected_version created_at ttl_ms poll_interval_ms : Z)
| Stage (key : ReceiptKey) (expected_version epoch : Z) (terminal : Terminal)
    (certificate : StagedTerminalTransferCertificate)
| Retain (key : ReceiptKey) (expected_version : Z) (capacity : ProvenTaskLinkCapacity)
| CancelTask (key : ReceiptKey) (expected : TaskCancellationReceipt json_value)
| EndTask (key : ReceiptKey) (expected : TaskCancellationReceipt json_value) (epoch : Z)
    (terminal : Terminal)
| CompleteBound (key : ReceiptKey) (expected_version : Z) (bound : TaskBoundReceipt)
| CompleteStaged (key : ReceiptKey) (expected_version : Z) (bound : TaskTerminalBoundReceipt).

(** What the types of a request guarantee: a terminal is made by the codec, a
    time is not negative, a bound receipt was built by its constructor. *)
Definition well_typed (q : request) : Prop :=
  match q with
  | PublishDirect _ _ epoch terminal => canonical terminal ∧ 0 ≤ epoch
  | Stage _ _ _ terminal _ | EndTask _ _ _ terminal => canonical terminal
  | CompleteBound _ _ bound =>
      lh_lifecycle_link_version (tb_record bound) ≠ 0 ∧ lh_mutation_sequence (tb_record bound) ≠ 0
      ∧ tp_version (tb_task bound) = tb_task_record_version bound
      ∧ tp_created_at (tb_task bound) ≤ tb_bind_epoch_ms bound
  | CompleteStaged _ _ bound =>
      lh_lifecycle_link_version (ttb_record bound) ≠ 0 ∧ lh_mutation_sequence (ttb_record bound) ≠ 0
  | _ => True
  end.

(** What the store does not check and leaves to its callers.  A result that
    is published reads back from its JSON ([null_result_closes_ledger]); a
    task is created no earlier than its request was accepted
    ([early_promise_closes_ledger]); a staged terminal is no older than its
    task; a retained task has an exhausted capacity; the expiry of a task's
    terminal is a [u64]; a completed hand-off names the version of the task
    that the row held, or a later one for a staged terminal
    ([cancelled_handoff_closes_ledger]); and no receipt of a task is reclaimed
    after its time ([task_receipt_deletion_stays]).  [ReceiptExamples] runs
    the store outside these duties. *)
Definition caller_keeps (m : Rows) (q : request) : Prop :=
  match q with
  | PublishDirect _ _ _ terminal => outcome_reads_back (ct_outcome terminal)
  | Promise key _ created _ _ | BeginHandoff key _ created _ _ =>
      row_is m (receipt_key_digest key) (created_in_time created)
  | Stage key _ epoch terminal _ =>
      outcome_reads_back (ct_outcome terminal)
      ∧ row_is m (receipt_key_digest key) (updated_by epoch)
  | Retain _ _ capacity => capacity_exhausted capacity = true
  | EndTask _ expected epoch terminal =>
      outcome_reads_back (ct_outcome terminal) ∧ epoch + tp_ttl_ms (tc_task expected) ≤ u64_max
  | CompleteBound key _ bound =>
      row_is m (receipt_key_digest key)
        (λ l, ∀ task, row_task l = Some task → tp_version (tb_task bound) = tp_version task)
  | CompleteStaged key _ bound =>
      row_is m (receipt_key_digest key)
        (λ l, ∀ task, row_task l = Some task → tp_version task < ttb_task_record_version bound)
  | Reclaim observed =>
      ∀ d e, m !! d = Some e → entry_is_expired_task_receipt_terminal e observed = false
  | _ => True
  end.
Definition permitted (m : Rows) (q : request) : Prop := well_typed q ∧ caller_keeps m q.

(** The times of a request lie in a window. *)
Definition in_window (T : Z * Z) (q : request) : Prop :=
  match q with
  | Reserve _ cutoff => accepted_epoch_ms cutoff < T.2
  | RequestCancel _ at_ => at_ < T.2
  | Acknowledge _ _ at_ => T.1 ≤ at_ < T.2
  | RecoverExact _ observed => ∀ now, observed = Some now → now < T.2
  | Reclaim observed => observed < T.2
  | _ => True
  end.

Definition forget {A : Type} (c : M A) : M unit := _ ← c; mret tt.
Definition perform (q : request) : M unit :=
  match q with
  | Reserve key cutoff => forget (reserve key cutoff)
  | RequestCancel key at_ => forget (request_cancel_or_reserve key at_)
  | Bind key version workspace => forget (bind_reserved_actor key version workspace)
  | Begin key version => forget (mark_reserved_begun key version)
  | PublishDirect key version epoch terminal =>
      forget (publish_direct_terminal_publication key version epoch terminal)
  | Acknowledge key terminal at_ => forget (acknowledge_direct key terminal at_)
  | RecoverExact key observed => forget (recover_exact key observed)
  | ReadReserved d => forget (read_reserved d)
  | ResolveTask task => forget (resolve_task_exact task)
  | Reclaim observed => forget (reclaim_expired_tombstones observed)
  | Promise key version created ttl poll =>
      forget (promise_task_unbound key version created ttl poll)
  | BindPromise key version workspace => forget (bind_promised_task_actor key version workspace)
  | BeginHandoff key version created ttl poll =>
      forget (begin_bound_task_handoff key version created ttl poll)
  | Stage key version epoch terminal certificate =>
      forget (stage_bound_task_handoff_terminal key version epoch terminal certificate)
  | Retain key version capacity =>
      forget (retain_begun_task_after_link_capacity key version capacity)
  | CancelTask key expected => forget (request_task_cancel key expected)
  | EndTask key expected epoch terminal =>
      forget (publish_receipt_backed_task_terminal key expected epoch terminal)
  | CompleteBound key version bound => forget (complete_bound_task_handoff key version bound)
  | CompleteStaged key version bound => forget (complete_staged_task_handoff key version bound)
  end.

(** ** Steps *)

Definition survives (o : outcome unit) : bool :=
  match o with Done _ | Refused _ => true | Panics | Stopped => false end.
Definition opened (o : outcome unit) : bool :=
  match o with Done _ => true | _ => false end.

(** What happens to a ledger: a request, or an opening, each under the answers
    of the environment to it.  A request on a ledger that no process has open
    is not served. *)
Inductive act :=
| Serve (q : request) (answers : list answer)
| Open (answers : list answer).

(** A world and whether a process has the ledger open. *)
Definition happens (a : act) (s : World * bool) : World * bool :=
  match a with
  | Serve q answers =>
      if s.2
      then let r := perform q (set_answers answers s.1) in (r.1, survives r.2)
      else s
  | Open answers => let r := reopen (set_answers answers s.1) in (r.1, opened r.2)
  end.
Definition live (acts : list act) (s : World * bool) : World * bool :=
  foldl (λ s a, happens a s) s acts.

(** Every request that is served, with the rows it finds, is one of [P]. *)
Fixpoint along (P : Rows → request → Prop) (acts : list act) (s : World * bool) : Prop :=
  match acts with
  | [] => True
  | a :: acts =>
      match a with
      | Serve q _ => s.2 = true → P (cat_records (w_catalog s.1)) q
      | Open _ => True
      end ∧ along P acts (happens a s)
  end.

Lemma along_impl (P Q : Rows → request → Prop) acts s :
  (∀ m q, P m q → Q m q) → along P acts s → along Q acts s.
Proof.
  intros HPQ. revert s. induction acts as [|[q answers|answers] acts IH]; intros s; cbn; naive_solver.
Qed.
Lemma along_and (P Q : Rows → request → Prop) acts s :
  along P acts s → along Q acts s → along (λ m q, P m q ∧ Q m q) acts s.
Proof.
  revert s. induction acts as [|[q answers|answers] acts IH]; intros s; cbn; naive_solver.
Qed.

(** Any sequence lies in some window. *)
Lemma window_widen (W W' : Z * Z) q :
  W'.1 ≤ W.1 → W.2 ≤ W'.2 → in_window W q → in_window W' q.
Proof.
  intros H1 H2. destruct q; cbn; try lia; intros Hq; [|done..].
  intros now Hnow. specialize (Hq now Hnow). lia.
Qed.
Lemma window_of q : ∃ W, in_window W q.
Proof.
  destruct q as [| | | | |? ? at_|? observed| | |observed| | | | | | | | |];
    try (by exists (0, 0)).
  - exists (0, accepted_epoch_ms cutoff + 1). cbn. lia.
  - exists (0, cancel_reserved_at + 1). cbn. lia.
  - exists (at_, at_ + 1). cbn. lia.
  - exists (0, from_option id 0 observed + 1). cbn. intros now ->. cbn. lia.
  - exists (0, observed + 1). cbn. lia.
Qed.
Lemma window_along acts s : ∃ W, along (λ _ q, in_window W q) acts s.
Proof.
  revert s. induction acts as [|[q answers|answers] acts IH]; intros s.
  - by exists (0, 0).
  - destruct (window_of q) as [W1 H1], (IH (happens (Serve q answers) s)) as [W2 H2].
    exists (Z.min W1.1 W2.1, Z.max W1.2 W2.2). cbn [along]. split.
    + intros _. eapply window_widen; [| |exact H1]; cbn; lia.
    + eapply along_impl; [|exact H2]. cbn beta. intros rows q' Hq. by apply (window_widen W2); [cbn; lia|cbn; lia|].
  - destruct (IH (happens (Open answers) s)) as [W HW]. exists W. by split.
Qed.

(** ** A closed store *)

(** On a store that refuses, nothing changes. *)
Definition shuts {A : Type} (c : M A) : Prop := ∀ w, cat_unavailable (w_catalog w) = true →
  same_store w (c w).1 ∧ ∀ a, (c w).2 ≠ Done a.

Lemma shuts_available : shuts available.
Proof. intros w Hw. unfold available, catalog, gets, mbind, M_bind. by rewrite Hw. Qed.
Lemma shuts_bind {A B : Type} (c : M A) (f : A → M B) : shuts c → shuts (c ≫= f).
Proof.
  intros Hc w Hw. specialize (Hc w Hw) as [Hs Hd]. unfold mbind, M_bind.
  destruct (c w) as [w' [a|e| |]]; [by destruct (Hd a)|done..].
Qed.
Lemma shuts_after {A B : Type} (c : M A) (f : A → M B) :
  quiet c → (∀ a, shuts (f a)) → shuts (c ≫= f).
Proof.
  intros Hc Hf w Hw. specialize (Hc w). unfold mbind, M_bind.
  destruct (c w) as [w' [a|e| |]]; cbn in *; [|done..].
  destruct Hc as (E1 & E2 & E3 & E4). destruct (Hf a w') as [Hs Hd]; [by rewrite E1|].
  split; [|done]. by eapply same_store_trans.
Qed.
Lemma shuts_entry d : shuts (read_entry_under_writer_lock d).
Proof. apply shuts_bind, shuts_available. Qed.
Lemma shuts_fence {A : Type} (f : ReceiptCatalog json_value → Z → A) :
  shuts (inspect_under_fence f).
Proof. apply shuts_bind, shuts_available. Qed.
Lemma shuts_refuse {A : Type} (error : ReceiptLedgerError) : shuts (refuse (A := A) error).
Proof. intros w _. by split. Qed.
Lemma shuts_open_row key : shuts (open_row key).
Proof. apply shuts_bind, shuts_available. Qed.

Ltac shut := first
  [ apply shuts_available | apply shuts_entry | apply shuts_fence | apply shuts_open_row
  | apply shuts_refuse
  | match goal with |- shuts (if ?b then _ else _) => destruct b; shut end
  | apply shuts_bind; shut
  | apply shuts_after; [auto with quiet|intros ?; shut] ].

Lemma shuts_perform q : shuts (perform q).
Proof. destruct q; apply shuts_bind; shut. Qed.

Lemma shuts_publish key version epoch terminal :
  shuts (publish_direct_terminal_publication key version epoch terminal).
Proof. shut. Qed.

Lemma shuts_end_task key expected epoch terminal :
  shuts (publish_receipt_backed_task_terminal key expected epoch terminal).
Proof. shut. Qed.

Lemma closed_keeps m w {A : Type} (c : M A) : shuts c → closed m w → closed m (c w).1.
Proof.
  intros Hc [Hun Hh]. destruct (Hc w Hun) as [(E1 & E2 & E3 & E4) _].
  split; [by rewrite E1|]. unfold holds. by rewrite E2, E3.
Qed.

(** ** The refinement *)

Lemma runs_forget {A : Type} g m (c : M A) (Q : A → Z → Rows → Prop) :
  runs T g m c Q → runs T g m (forget c) (λ _ _ _, True).
Proof. intros Hc. eapply runs_bind; [exact Hc|]. intros. by apply runs_ret. Qed.
Lemma runs_perform g m q :
  in_window T q → permitted m q → versions_ok m → runs T g m (perform q) (λ _ _ _, True).
Proof.
  intros Hin [Hty Hok] Hv. destruct q; cbn in Hin, Hty, Hok |- *; eapply runs_forget.
  - by apply runs_reserve.
  - by apply runs_request_cancel.
  - apply runs_transition.
  - apply runs_transition.
  - by apply runs_publish_direct; [apply Hty| |apply Hty].
  - by apply runs_acknowledge.
  - by apply runs_recover_exact.
  - apply runs_read_reserved.
  - apply runs_resolve_task.
  - by apply runs_reclaim_expired_tombstones.
  - by apply runs_promise.
  - by apply runs_bind_promised.
  - by apply runs_begin_handoff.
  - apply runs_stage; [done|done|apply Hok..].
  - by apply runs_retain.
  - apply runs_cancel_task.
  - apply runs_end_task; [done|apply Hok..].
  - apply runs_complete_bound. intros e He. unfold bound_ok. specialize (Hok e He). tauto.
  - apply runs_complete_staged. intros e He. unfold terminal_bound_ok. specialize (Hok e He). tauto.
Qed.

(** The disk stands for [m], and an open ledger is ready or refuses. *)
Definition serving (m : Rows) (s : World * bool) : Prop :=
  versions_ok m ∧ holds m s.1 ∧ (s.2 = true → (∃ g, ready g m s.1) ∨ closed m s.1).

Lemma serving_answers m w alive answers :
  serving m (w, alive) → serving m (set_answers answers w, alive).
Proof.
  intros (Hv & Hh & Hr). split_and!; [done|exact Hh|]. intros Ha. destruct (Hr Ha) as [[g Rd]|Hc].
  - left. exists g. by apply (ready_same g m w).
  - right. exact Hc.
Qed.

Lemma ends_serving m (end_ : World * outcome unit) :
  versions_ok m → ends m (λ _ _ _, True) end_ → serving m (end_.1, survives end_.2).
Proof.
  intros Hv He. destruct end_ as [w' [a|e| |]]; cbn in *; (split; [done|]).
  - destruct He as (g' & Rd' & _). split; [by eapply ready_holds|eauto].
  - destruct He as [[g' Rd']|Hc']; split; cbn; eauto using ready_holds. apply Hc'.
  - split; [done|by intros].
  - split; [done|by intros].
Qed.
Lemma reopen_serving m w alive :
  serving m (w, alive) → serving m ((reopen w).1, opened (reopen w).2).
Proof.
  intros (Hv & Hh & _). pose proof (reopen_ends m _ Hh) as He. split; [done|].
  destruct (reopen _) as [w' [a|e| |]]; cbn in *; [|by split..].
  destruct He as [g Rd]. split; [by eapply ready_holds|eauto].
Qed.
Lemma serving_ends m s a :
  serving m s →
  match a with
  | Serve q _ => s.2 = true →
      permitted (cat_records (w_catalog s.1)) q ∧ in_window T q
  | Open _ => True
  end →
  ∃ evs m', receipt_trace evs m m' ∧ Forall (within T) evs ∧ serving m' (happens a s).
Proof.
  intros Hs Ha. assert (∃ evs m', receipt_trace evs m m' ∧ Forall (within T) evs ∧ m' = m) as Hstay.
  { exists [], m. split; [constructor|]. by split; [constructor|]. }
  destruct s as [w alive], a as [q answers|answers]; cbn in Ha |- *.
  - destruct alive.
    2:{ destruct Hstay as (evs & m' & ? & ? & ->). by exists evs, m. }
    specialize (Ha eq_refl) as [Hok Hin].
    pose proof (serving_answers m w true answers Hs) as (Hv & Hh & Hr).
    destruct (Hr eq_refl) as [[g Rd]|Hc].
    + assert (permitted m q) as Hokm by (by rewrite <-(rd_records _ _ _ Rd)).
      destruct (runs_perform g m q Hin Hokm Hv _ Rd) as (evs & m' & Htr & HT & He). exists evs, m'.
      split_and!; [done..|]. apply ends_serving; [by eapply trace_versions|done].
    + destruct Hstay as (evs & m' & ? & ? & ->). exists evs, m.
      pose proof (closed_keeps m _ _ (shuts_perform q) Hc) as Hc'.
      split_and!; [done..|]. split_and!; [done|apply Hc'|]. intros _. by right.
  - destruct Hstay as (evs & m' & ? & ? & ->). exists evs, m. split_and!; [done..|].
    by eapply reopen_serving, serving_answers.
Qed.

Lemma serving_life m s acts :
  serving m s → along permitted acts s → along (λ _ q, in_window T q) acts s →
  ∃ evs m', receipt_trace evs m m' ∧ Forall (within T) evs ∧ serving m' (live acts s).
Proof.
  intros Hs Hp Hw. pose proof (along_and _ _ _ _ Hp Hw) as Ha. clear Hp Hw. revert m s Hs Ha.
  induction acts as [|a acts IH]; intros m s Hs Ha.
  - exists [], m. split; [constructor|]. by split; [constructor|].
  - destruct Ha as [Ha Hl].
    destruct (serving_ends m s a Hs Ha) as (evs & m2 & Htr & HT & Hs2).
    destruct (IH m2 _ Hs2 Hl) as (evs' & m3 & Htr' & HT' & Hs3). exists (evs ++ evs'), m3.
    split_and!; [by eapply trace_app|by apply Forall_app|done].
Qed.
End Life.
