(* ===== verification/ReceiptDurability.v ===== *)
(** * Receipt store: what survives

    The theorems on a store's life: the ledger refines the machine of rows,
    and a terminal that was answered is kept.  First, an executable codec that
    satisfies what the store relies on: a table of rows and tombstones with
    their bytes, and a reader of direct records.  It writes two results, one
    that reads back and one whose [data] is a JSON null, which does not.  The
    examples and the witnesses of the theorems run the store on it. *)

From Stdlib Require Import ZArith Lia String.
From stdpp Require Import base gmap list option numbers countable strings relations.
From S2P Require Import Prelude Contract ResultSize Redaction ReceiptLedger ReceiptStates ReceiptRows ReceiptCatalog.
From S2P Require Import ReceiptRecords ReceiptStore ReceiptOps ReceiptTerminals ReceiptRecovery ReceiptHoare ReceiptCatalogFacts ReceiptCatalogProps.
From S2P Require Import ReceiptDisk ReceiptMachine ReceiptRuns ReceiptMutations ReceiptReopen ReceiptSafety ReceiptSafetyOps ReceiptTaskEnds.
From S2P Require Import ReceiptLife.

Local Open Scope Z_scope.

(** ** Texts *)

Fixpoint strip_prefix (p bs : list Z) : option (list Z) :=
  match p, bs with
  | [], _ => Some bs
  | x :: p, y :: bs => if x =? y then strip_prefix p bs else None
  | _ :: _, [] => None
  end.
Lemma strip_prefix_of_app p x : strip_prefix p (p ++ x) = Some x.
Proof. induction p as [|a p IH]; [done|]. cbn. by rewrite Z.eqb_refl. Qed.

Fixpoint span_digits (bs : list Z) : list Z * list Z :=
  match bs with
  | b :: rest => if is_ascii_digit b then let (ds, tail) := span_digits rest in (b :: ds, tail)
                 else ([], bs)
  | [] => ([], [])
  end.
Definition stops_digits (bs : list Z) : bool :=
  match bs with b :: _ => negb (is_ascii_digit b) | [] => true end.
Lemma span_digits_app ds rest :
  digits_ok ds → stops_digits rest = true → span_digits (ds ++ rest) = (ds, rest).
Proof.
  intros Hds Hrest. induction ds as [|b ds IH]; cbn.
  - destruct rest as [|b rest]; [done|]. cbn in *. by apply negb_true_iff in Hrest as ->.
  - apply Forall_cons_1 in Hds as [Hb Hds].
    assert (is_ascii_digit b = true) as -> by (unfold is_ascii_digit, in_range; lia).
    by rewrite IH.
Qed.
Definition read_number (bs : list Z) : Z * list Z :=
  let (ds, rest) := span_digits bs in (decimal_value ds, rest).
Lemma read_number_app n rest :
  0 ≤ n ≤ u64_max → stops_digits rest = true → read_number (u64_to_string n ++ rest) = (n, rest).
Proof.
  intros Hn Hrest. destruct (u64_to_string_spec n Hn) as (Hds & Hval & _). unfold read_number.
  rewrite span_digits_app by done. by rewrite Hval.
Qed.

(** ** Keys and terminals *)

Definition sample_digest : digest := repeat 48 64.
Definition sample_key : ReceiptKey :=
  mkReceiptKey (mkInvocationId 1) (mkTaskId 2) sample_digest TRun sample_digest sample_digest.
Definition sample_cutoff : OriginalCutoffDescriptor := mkCutoff 100 50.

(** The only JSON value is [null]. *)
Definition plain_result : DomainResult unit := success EmptyString.
Definition null_result : DomainResult unit :=
  mkDomainResult true None EmptyString (Some tt) [] [] [] [] [] None None None None None.
Definition plain_json : list Z := json_lit "{'ok':true,'summary':''}".
Definition null_json : list Z := json_lit "{'ok':true,'summary':'','data':null}".

#[export] Instance SampleReceiptCodec : ReceiptCodec := {|
  json_value := unit;
  sha256_bytes := λ m, (foldr Z.add 0 m) mod 256 :: repeat 0 31;
  uuid_to_string := λ u, Z.of_N u :: repeat 45 35;
  result_to_vec := λ r,
    if bool_decide (r = plain_result) then Some plain_json
    else if bool_decide (r = null_result) then Some null_json else None;
  (** A [null] in an optional field is read as [None]. *)
  result_from_slice := λ bs,
    if bool_decide (bs = plain_json) || bool_decide (bs = null_json) then Some plain_result else None;
|}.
#[export] Instance SampleReceiptCodecLaws : ReceiptCodecLaws SampleReceiptCodec.
Proof.
  split.
  - done.
  - intros m. apply Forall_cons_2; [apply Z.mod_pos_bound; lia|].
    apply Forall_forall. intros x Hx. cbn in Hx. set_unfold. lia.
  - done.
  - intros u v H. injection H as H. lia.
Qed.

Notation Row := (StoredActiveReceiptV1 unit).

Definition d0 : digest := Eval vm_compute in receipt_key_digest sample_key.
Definition all_reasons : list V5SafeFailureReason :=
  [FInvocationFailed; FResultTooLarge; FInterrupted; FResumeUnsupported; FPersistenceFailed;
   FOutcomeUncertain; FTaskCapacity; FWorkspaceCapacity; FWorkspaceRegistryFailed;
   FWorkspaceChanged].
Definition sample_terminal (o : ReceiptTerminalOutcome unit) : V5CanonicalTerminal unit :=
  match canonical_terminal o with
  | Ok t => t
  | Err _ => mkTerminal o [] []
  end.
Definition sample_terminals : list (V5CanonicalTerminal unit) :=
  sample_terminal <$> RCancelled :: RCompleted plain_result :: (RFailed <$> all_reasons).
Definition null_terminal : V5CanonicalTerminal unit := sample_terminal (RCompleted null_result).

(** ** Rows *)

Definition cancelled : V5CanonicalTerminal unit := Eval vm_compute in sample_terminal RCancelled.
Definition sample_task (created : Z) : ReceiptTaskProjection :=
  mkProjection (mkTaskId 2) (mkInvocationId 1) created created 1000 10 1.

Definition sample_row (seq version : Z) (l : StoredActiveLifecycleV1 unit) : Row :=
  mkRow RECEIPT_RECORD_SCHEMA_VERSION seq version sample_key d0 l.

Definition row_reserved : Row := sample_row 1 1 (LReservedUnbound 100 sample_cutoff false).
Definition row_bound : Row := sample_row 2 2 (LReservedActorBound 100 sample_cutoff d0 false).
Definition row_begun : Row := sample_row 3 3 (LReservedBegun 100 sample_cutoff d0 false).
Definition row_acknowledged : Row :=
  sample_row 3 3 (LAcknowledgementCommit (ct_digest cancelled) 300 2 2).
Definition row_deletion : Row :=
  sample_row 3 3 (LExpiredDirectDeletion 4000000 2 2 200 (ct_digest cancelled)).
Definition row_promised (created : Z) : Row :=
  sample_row 2 2 (LTaskPromisedUnbound sample_cutoff (sample_task created) false).
Definition task_done : ReceiptTaskProjection :=
  mkProjection (mkTaskId 2) (mkInvocationId 1) 150 200 1000 10 2.
Definition row_task_terminal : Row :=
  sample_row 3 3 (LTaskTerminalReceiptBacked task_done 200 (ct_digest cancelled)
                    (Some RCancelled) false).
Definition row_task_deletion : Row :=
  sample_row 4 4 (LExpiredTaskReceiptDeletion 1200 3 3 200 1000 (ct_digest cancelled)).

Definition sample_link : TaskLinkReference := link_new d0 (mkTaskId 2) (mkInvocationId 1) d0.
Definition row_handoff (seq version : Z) (cancel : bool) : Row :=
  sample_row seq version
    (LTaskHandoffActorBound sample_cutoff (sample_task 150) d0 (link_digest sample_link) NotBegun
       cancel StageNone).
(** The witness of a hand-off completed at [version] of the task. *)
Definition row_completed (version : Z) : Row :=
  sample_row 5 5
    (LCompletedTaskHandoffDeletion
       (mkHandoffWitness 4 4 150 1 d0 (link_digest sample_link) 1 1 version 300 NotBegun false)).

Definition sample_rows : list (Row * list Z) :=
  [(row_reserved, [200]); (row_bound, [201]); (row_begun, [202]); (row_acknowledged, [203]);
   (row_deletion, [204]); (row_promised 150, [205]); (row_promised 50, [206]);
   (row_task_terminal, [207]); (row_task_deletion, [208]); (row_handoff 3 3 false, [209]);
   (row_handoff 4 4 true, [210]); (row_completed 2, [211])].
Definition sample_tombstone : ReceiptKey * digest * Z * option Z :=
  (sample_key, ct_digest cancelled, 300, None).

(** ** The codec *)

Definition sample_key_json : list Z := [75].
Definition sample_cutoff_json : list Z := [67].
Definition direct_tail (t : V5CanonicalTerminal unit) : list Z :=
  json_lit ",'terminalDigest':'" ++ ct_digest t
  ++ json_lit "','terminal':" ++ ct_payload t ++ json_lit "}}".
(** The outcome that is read where an outcome was written. *)
Definition read_outcome (o : ReceiptTerminalOutcome unit) : ReceiptTerminalOutcome unit :=
  match o with RCompleted _ => RCompleted plain_result | _ => o end.
Definition direct_from_slice (bs : list Z) : option Row :=
  bs ← strip_prefix (json_lit "{'schemaVersion':1,'mutationSequence':") bs;
  let (seq, bs) := read_number bs in
  bs ← strip_prefix (json_lit ",'recordVersion':") bs;
  let (version, bs) := read_number bs in
  bs ← strip_prefix (json_lit ",'key':") bs;
  bs ← strip_prefix sample_key_json bs;
  bs ← strip_prefix (json_lit ",'keyDigest':'") bs;
  bs ← strip_prefix d0 bs;
  bs ← strip_prefix (json_lit "','lifecycle':{'state':'direct_terminal_unacked','originalCutoff':") bs;
  bs ← strip_prefix sample_cutoff_json bs;
  bs ← strip_prefix (json_lit ",'terminalEpochMs':") bs;
  let (epoch, bs) := read_number bs in
  t ← List.find (λ t, bool_decide (direct_tail t = bs)) (sample_terminals ++ [null_terminal]);
  if 0 <? version
  then Some (sample_row seq version
               (LDirectTerminalUnacked sample_cutoff epoch (ct_digest t) (Some (read_outcome (ct_outcome t)))))
  else None.

Definition table_to_vec (r : Row) : option (list Z) :=
  snd <$> List.find (λ p, bool_decide (p.1 = r)) sample_rows.
Definition table_from_slice (bs : list Z) : option Row :=
  fst <$> List.find (λ p, bool_decide (p.2 = bs)) sample_rows.

#[export] Instance SampleRowCodec : RowCodec SampleReceiptCodec := {|
  row_to_vec := table_to_vec;
  row_from_slice := λ bs,
    match table_from_slice bs with Some r => Some r | None => direct_from_slice bs end;
  tombstone_to_vec := λ t, if bool_decide (t = sample_tombstone) then Some [220] else None;
  tombstone_from_slice := λ bs, if bool_decide (bs = [220]) then Some sample_tombstone else None;
  key_to_vec := λ k, if bool_decide (k = sample_key) then Some sample_key_json else None;
  cutoff_to_vec := λ c, if bool_decide (c = sample_cutoff) then Some sample_cutoff_json else None;
|}.

(** ** Its laws *)

Lemma sample_table_reads_back :
  forallb (λ p, bool_decide (table_from_slice p.2 = Some p.1)) sample_rows = true.
Proof. vm_compute. reflexivity. Qed.
Lemma sample_table_versions : forallb (λ p, 0 <? row_record_version p.1) sample_rows = true.
Proof. vm_compute. reflexivity. Qed.
Lemma sample_table_stages : forallb (λ p, negb (staged (row_lifecycle p.1))) sample_rows = true.
Proof. vm_compute. reflexivity. Qed.
Lemma table_to_vec_elem r bs : table_to_vec r = Some bs → In (r, bs) sample_rows.
Proof.
  unfold table_to_vec. intros ([r' bs'] & Hf & Hb)%fmap_Some. cbn in Hb. subst bs'.
  apply List.find_some in Hf as [Hin Heq]. apply bool_decide_eq_true in Heq. cbn in Heq. by subst.
Qed.
Lemma table_from_slice_elem r bs : table_from_slice bs = Some r → In (r, bs) sample_rows.
Proof.
  unfold table_from_slice. intros ([r' bs'] & Hf & Hb)%fmap_Some. cbn in Hb. subst r'.
  apply List.find_some in Hf as [Hin Heq]. apply bool_decide_eq_true in Heq. cbn in Heq. by subst.
Qed.

Lemma plain_reads_back x : result_reads_back x → x = plain_result.
Proof.
  intros (bs & _ & Hx). cbn in Hx. destruct (_ || _); [|done]. by injection Hx as <-.
Qed.
Lemma read_outcome_back (o : ReceiptTerminalOutcome unit) :
  outcome_reads_back o → read_outcome o = o.
Proof. destruct o as [x| |]; [|done..]. intros Hx. cbn. by rewrite (plain_reads_back x Hx). Qed.
Lemma canonical_sample t :
  canonical_terminal (ct_outcome t) = Ok t → outcome_reads_back (ct_outcome t) →
  In t sample_terminals.
Proof.
  intros Hc Hb. assert (t = sample_terminal (ct_outcome t)) as Ht
    by (unfold sample_terminal; by rewrite Hc).
  apply list_elem_of_In. unfold sample_terminals. apply list_elem_of_fmap.
  exists (ct_outcome t). split; [done|]. destruct (ct_outcome t) as [result|reason|].
  - rewrite (plain_reads_back result Hb). right. left.
  - right. right. apply list_elem_of_fmap. exists reason. split; [done|].
    apply list_elem_of_In. destruct reason; cbn; tauto.
  - by left.
Qed.
Lemma direct_tails_differ :
  forallb (λ t, bool_decide (List.find (λ u, bool_decide (direct_tail u = direct_tail t))
                               (sample_terminals ++ [null_terminal]) = Some t)) sample_terminals = true.
Proof. vm_compute. reflexivity. Qed.

Lemma direct_reads_back seq version epoch t :
  In t sample_terminals → read_outcome (ct_outcome t) = ct_outcome t → 0 ≤ seq ≤ u64_max → 0 < version ≤ u64_max → 0 ≤ epoch ≤ u64_max →
  direct_from_slice (direct_record_bytes seq version sample_key_json d0 sample_cutoff_json epoch t)
  = Some (sample_row seq version
            (LDirectTerminalUnacked sample_cutoff epoch (ct_digest t) (Some (ct_outcome t)))).
Proof.
  intros Ht Hout Hseq Hver Hep. unfold direct_from_slice, direct_record_bytes.
  change (json_lit ",'terminalDigest':'" ++ ct_digest t ++ json_lit "','terminal':" ++ ct_payload t
          ++ json_lit "}}") with (direct_tail t). set (tail := direct_tail t).
  assert (List.find (λ u, bool_decide (direct_tail u = tail))
            (sample_terminals ++ [null_terminal]) = Some t) as Hfind.
  { pose proof direct_tails_differ as H. rewrite forallb_forall in H. specialize (H t Ht).
    by apply bool_decide_eq_true in H. }
  assert (stops_digits tail = true) as Hstop by reflexivity. clearbody tail.
  repeat (rewrite strip_prefix_of_app; cbn [mbind option_bind]).
  rewrite read_number_app by (lia || reflexivity).
  repeat (rewrite strip_prefix_of_app; cbn [mbind option_bind]).
  rewrite read_number_app by (lia || reflexivity).
  do 7 (rewrite strip_prefix_of_app; cbn [mbind option_bind]).
  rewrite read_number_app by done. rewrite Hfind. cbn [mbind option_bind]. rewrite Hout.
  by rewrite (proj2 (Z.ltb_lt _ _)) by lia.
Qed.
Lemma table_lengths p : In p sample_rows → length p.2 = 1%nat.
Proof.
  intros H. assert (forallb (λ p : Row * list Z, (length p.2 =? 1)%nat) sample_rows = true) as Hall
    by (vm_compute; reflexivity).
  rewrite forallb_forall in Hall. specialize (Hall _ H). by apply Nat.eqb_eq in Hall.
Qed.
Lemma table_bytes_short bs r : table_from_slice bs = Some r → length bs = 1%nat.
Proof. intros H%table_from_slice_elem. exact (table_lengths _ H). Qed.
(** The rows that the reader of direct records makes. *)
Lemma direct_row_read bs r :
  direct_from_slice bs = Some r →
  ∃ seq version epoch terminal body, 0 < version
    ∧ r = sample_row seq version (LDirectTerminalUnacked sample_cutoff epoch terminal body).
Proof.
  intros H. unfold direct_from_slice in H.
  repeat match type of H with
    | (_ ≫= _) = Some _ => apply bind_Some in H as (? & _ & H)
    | (let (_, _) := read_number ?b in _) = Some _ => destruct (read_number b) as [? ?]
    end.
  destruct (0 <? _) eqn:Hv; [|done]. injection H as <-. apply Z.ltb_lt in Hv. by do 5 eexists.
Qed.
Lemma direct_bytes_long seq version kj d cj epoch t :
  length (direct_record_bytes seq version kj d cj epoch t) ≠ 1%nat.
Proof.
  unfold direct_record_bytes. rewrite length_app.
  assert (length (json_lit "{'schemaVersion':1,'mutationSequence':") = 38%nat) as ->
    by (vm_compute; reflexivity).
  lia.
Qed.
Lemma sample_key_digest : receipt_key_digest sample_key = d0.
Proof. vm_compute. reflexivity. Qed.

#[export] Instance SampleRowCodecLaws : RowCodecLaws SampleReceiptCodec SampleRowCodec.
Proof.
  split.
  - intros r bs _ _ H. cbn in *. apply table_to_vec_elem in H.
    pose proof sample_table_reads_back as Hall. rewrite forallb_forall in Hall.
    specialize (Hall _ H). apply bool_decide_eq_true in Hall. cbn in Hall. by rewrite Hall.
  - intros r bs H Hst. exfalso. cbn [row_from_slice SampleRowCodec] in H.
    destruct (table_from_slice bs) as [r'|] eqn:Ht.
    + injection H as ->. apply table_from_slice_elem in Ht.
      pose proof sample_table_stages as Hall. rewrite forallb_forall in Hall.
      specialize (Hall _ Ht). apply negb_true_iff in Hall. exact (eq_true_false_abs _ Hst Hall).
    + apply direct_row_read in H as (? & ? & ? & ? & ? & ? & ->). discriminate.
  - intros r H. cbn in H. apply table_to_vec_elem in H.
    pose proof (table_lengths _ H) as Hl. done.
  - intros t bs H. cbn in *. case_bool_decide; [|done]. injection H as <-. by subst.
  - intros t bs H. cbn in *. case_bool_decide; [|done]. injection H as <-. vm_compute. reflexivity.
  - intros seq version key cutoff epoch t enc Hc Hb Hseq Hver Hep He.
    unfold encode_direct_record in He.
    destruct (u64_checked_add epoch DIRECT_TERMINAL_RETENTION_MS); [|done].
    cbn [ok_or key_to_vec cutoff_to_vec SampleRowCodec] in He.
    destruct (bool_decide (key = sample_key)) eqn:Hk; [|done].
    destruct (bool_decide (cutoff = sample_cutoff)) eqn:Hcut; [|done].
    apply bool_decide_eq_true in Hk, Hcut. subst key cutoff. cbn [ok_or] in He.
    rewrite sample_key_digest in He |- *.
    destruct (MAX_RECEIPT_ENTITLEMENT_BYTES <? _); [done|]. injection He as <-. cbn [snd].
    cbn [row_from_slice SampleRowCodec].
    destruct (table_from_slice _) as [r|] eqn:Ht.
    { exfalso. by eapply direct_bytes_long, table_bytes_short. }
    apply direct_reads_back; [by apply canonical_sample|exact (read_outcome_back _ Hb)|done..].
  - intros r bs H. cbn [row_from_slice SampleRowCodec] in H. destruct (table_from_slice bs) as [r'|] eqn:Ht.
    + injection H as ->. apply table_from_slice_elem in Ht.
      pose proof sample_table_versions as Hall. rewrite forallb_forall in Hall.
      specialize (Hall _ Ht). by apply Z.ltb_lt in Hall.
    + apply direct_row_read in H as (? & ? & ? & ? & ? & Hv & ->). exact Hv.
  - vm_compute. reflexivity.
  - vm_compute. reflexivity.
Qed.

(** ** Durability *)

Section Durability.
Context {C : ReceiptCodec} {R : RowCodec C} {L : RowCodecLaws C R}.

Notation Entry := (CatalogEntry json_value).
Notation Rows := (gmap digest Entry).
Implicit Types (m : Rows) (w : World) (g : Z) (d : digest) (key : ReceiptKey).

Lemma new_ledger_ready : ready 0 ∅ new_ledger.
Proof.
  assert (catalog_ok (catalog_default (V := json_value))) as Hc.
  { split; [apply catalog_default_wf|]. unfold within_capacity. cbn. rewrite !msum_empty.
    unfold u64_max. lia. }
  assert (∀ d, entry_at ∅ d = None) as Hat by done.
  split; [|intros d e; by rewrite Hat|done..].
  split; try done; try (intros *; by rewrite !Hat); [by exists catalog_default|by left].
Qed.
Lemma new_ledger_serving : serving ∅ (new_ledger, true).
Proof.
  split_and!; [apply versions_empty|eapply ready_holds, new_ledger_ready|]. intros _. left. exists 0. apply new_ledger_ready.
Qed.

(** What an opening where nothing fails finds. *)
Lemma serving_opens m s :
  serving m s →
  ∃ w g, reopen (set_answers [] s.1) = (w, Done tt) ∧ ready g m w ∧ cat_records (w_catalog w) = m.
Proof.
  intros (_ & Hh & _). assert (holds m (set_answers [] s.1)) as Hh' by exact Hh.
  destruct (reopen_succeeds m _ Hh' eq_refl) as [w Hw]. pose proof (reopen_ends m _ Hh') as He.
  rewrite Hw in He. destruct He as [g Rd]. exists w, g. split_and!; [done..|by eapply rd_records].
Qed.
Lemma life_contents acts s :
  along permitted acts (new_ledger, true) → live acts (new_ledger, true) = s →
  ∃ evs m, receipt_trace evs ∅ m ∧ serving m s.
Proof.
  intros Hp <-. destruct (window_along acts (new_ledger, true)) as [T Hw].
  destruct (serving_life (T := T) ∅ _ acts new_ledger_serving Hp Hw) as (evs & m & Htr & _ & Hs). eauto.
Qed.
Lemma life_reopens acts :
  along permitted acts (new_ledger, true) →
  ∃ evs m w g, receipt_trace evs ∅ m
    ∧ reopen (set_answers [] (live acts (new_ledger, true)).1) = (w, Done tt) ∧ ready g m w.
Proof.
  intros Hp. destruct (life_contents acts _ Hp eq_refl) as (evs & m & Htr & Hs).
  destruct (serving_opens m _ Hs) as (w & g & Hw & Rd & _). by exists evs, m, w, g.
Qed.

(** C13. From a new ledger, after any sequence of permitted requests, each
    under any failures of the environment, of stops at any point and of
    openings, the disk stands for rows that the receipt machine reached from
    none: opening it where nothing fails succeeds and finds exactly those
    rows.  A request is permitted when its arguments are as their types
    guarantee ([well_typed]) and the caller keeps the duties that the store
    does not check ([caller_keeps]): published results read back from JSON, a
    task is created after its request was accepted, a staged terminal is no
    older than its task, a retained task has an exhausted capacity, a
    terminal's expiry is a [u64], a completed hand-off names the version of
    its task, and no expired receipt of a task is reclaimed.  [ReceiptExamples]
    shows ledgers that lose rows or do not open where a duty is broken. *)
Theorem ledger_refines_machine acts :
  along permitted acts (new_ledger, true) →
  ∃ evs m w g, receipt_trace evs ∅ m
    ∧ reopen (set_answers [] (live acts (new_ledger, true)).1) = (w, Done tt) ∧ ready g m w.
Proof. exact (life_reopens acts). Qed.

(** After any such life of a ledger, the version of every row an opening
    finds tells the stage its receipt has reached and is at most eight: record
    versions, [u64] counters, never come near their end. *)
Theorem ledger_versions_bounded acts w :
  along permitted acts (new_ledger, true) →
  reopen (set_answers [] (live acts (new_ledger, true)).1) = (w, Done tt) →
  versions_ok (cat_records (w_catalog w)).
Proof.
  intros Hl Hw. destruct (life_reopens acts Hl) as (evs & m & w' & g & Htr & Hw' & Rd).
  rewrite Hw in Hw'. injection Hw' as <-. rewrite (rd_records _ _ _ Rd).
  eapply trace_versions; [exact Htr|apply versions_empty].
Qed.

(** Opening a ledger never changes what its disk stands for, whatever fails
    or wherever it stops; a ledger that opens is ready with those rows. *)
Theorem reopen_keeps_contents m w :
  holds m w →
  match reopen w with
  | (w', Done _) => ∃ g, ready g m w'
  | (w', _) => holds m w'
  end.
Proof. exact (reopen_ends m w). Qed.

Lemma published_serving (T : Z * Z) m w key version epoch terminal w' receipt wire :
  serving m (w, true) → canonical terminal → outcome_reads_back (ct_outcome terminal) → 0 ≤ epoch →
  publish_direct_terminal_publication key version epoch terminal w = (w', Done (receipt, wire)) →
  ∃ m' e, serving m' (w', true) ∧ m' !! receipt_key_digest key = Some e
          ∧ keeps_terminal epoch (ct_digest terminal) e.
Proof.
  intros (Hv & _ & Hr) Hcan Hback Hep Hpub. destruct (Hr eq_refl) as [[g Rd]|Hc].
  2:{ destruct (shuts_publish key version epoch terminal w (proj1 Hc)) as [_ Hd].
      rewrite Hpub in Hd. by destruct (Hd (receipt, wire)). }
  destruct (runs_publish_direct (T := T) g m key version epoch terminal Hcan Hback Hep w Rd)
    as (evs & m' & Htr & _ & He).
  rewrite Hpub in He. destruct He as (g' & Rd' & (e & Hm' & Hs) & Hterm & Hepo).
  cbn [fst] in Hs, Hterm, Hepo. destruct (state_direct e receipt Hs) as (body & Hlife).
  exists m', (entry_without_result_body e). split; [|split; [done|]].
  - split_and!; [by eapply trace_versions|by eapply ready_holds|]. intros _. left. by exists g'.
  - unfold keeps_terminal. cbn. rewrite Hlife, Hterm, Hepo. done.
Qed.

(** C14. After any sequence of permitted requests, failures, stops and openings
    of a new ledger, let a direct terminal be published and answered.  After
    any further such sequence, whose times lie between the terminal's epoch
    and the retention of a tombstone, the ledger opens and its row still
    holds that terminal, acknowledged or not.  The duties of the callers
    before and after are those of [permitted]; the published result reads
    back from its JSON. *)
Theorem published_terminal_survives acts w key version epoch terminal w' receipt wire acts' :
  along permitted acts (new_ledger, true) → live acts (new_ledger, true) = (w, true) →
  canonical terminal → outcome_reads_back (ct_outcome terminal) → 0 ≤ epoch →
  publish_direct_terminal_publication key version epoch terminal w = (w', Done (receipt, wire)) →
  along permitted acts' (w', true) →
  along (λ _ q, in_window (epoch, epoch + ACKNOWLEDGED_TOMBSTONE_TTL_MS) q) acts' (w', true) →
  ∃ w2 e, reopen (set_answers [] (live acts' (w', true)).1) = (w2, Done tt)
    ∧ cat_records (w_catalog w2) !! receipt_key_digest key = Some e
    ∧ keeps_terminal epoch (ct_digest terminal) e.
Proof.
  intros Hbefore Hw Hcan Hback Hep Hpub Hp Hin. set (T := (epoch, _)) in Hin.
  destruct (life_contents acts _ Hbefore Hw) as (evs0 & m & _ & Hserv).
  destruct (published_serving T m w key version epoch terminal w' receipt wire Hserv Hcan Hback Hep Hpub)
    as (m0 & e & Hserv' & Hm0 & Hk).
  destruct (serving_life (T := T) m0 _ acts' Hserv' Hp Hin) as (evs & m' & Htr & Hwin & Hs).
  destruct (window_keeps_terminal T evs m0 m' (receipt_key_digest key) e epoch (ct_digest terminal)
    Htr Hwin) as (e' & He' & Hk'); [done|done|done|done|].
  destruct (serving_opens m' _ Hs) as (w2 & g & Hw2 & _ & Hrec). exists w2, e'. by rewrite Hrec.
Qed.

Lemma ended_serving (T : Z * Z) m w key expected epoch terminal w' receipt :
  serving m (w, true) → canonical terminal → outcome_reads_back (ct_outcome terminal) →
  epoch + tp_ttl_ms (tc_task expected) ≤ u64_max →
  publish_receipt_backed_task_terminal key expected epoch terminal w = (w', Done receipt) →
  ∃ m' e, serving m' (w', true) ∧ m' !! receipt_key_digest key = Some e
          ∧ ended_with epoch (ct_digest terminal) e.
Proof.
  intros (Hv & _ & Hr) Hcan Hback Httl Hpub. destruct (Hr eq_refl) as [[g Rd]|Hc].
  2:{ destruct (shuts_end_task key expected epoch terminal w (proj1 Hc)) as [_ Hd].
      rewrite Hpub in Hd. by destruct (Hd receipt). }
  destruct (runs_end_task (T := T) g m key expected epoch terminal Hcan Hback Httl w Rd)
    as (evs & m' & Htr & _ & He).
  rewrite Hpub in He. destruct He as (g' & Rd' & (e & Hm' & Hs) & Hterm & Hepo).
  destruct (state_backed e receipt Hs) as (task & body & cancel & Hlife).
  exists m', (entry_without_result_body e). split; [|split; [done|]].
  - split_and!; [by eapply trace_versions|by eapply ready_holds|]. intros _. left. by exists g'.
  - unfold ended_with. cbn. rewrite Hlife, Hterm, Hepo. done.
Qed.

(** C15. After any sequence of permitted requests, failures, stops and openings
    of a new ledger, let the terminal of a task be published on its receipt
    and answered.  After any further such sequence the ledger opens and its
    row still holds that terminal.  Among the duties of [permitted] is that
    no request reclaims a receipt of a task whose time to live is over, which
    is the only way the store gives the terminal up: as long as no reclamation
    comes after that time, the terminal stays, however long. *)
Theorem task_terminal_survives acts w key expected epoch terminal w' receipt acts' :
  along permitted acts (new_ledger, true) → live acts (new_ledger, true) = (w, true) →
  canonical terminal → outcome_reads_back (ct_outcome terminal) →
  epoch + tp_ttl_ms (tc_task expected) ≤ u64_max →
  publish_receipt_backed_task_terminal key expected epoch terminal w = (w', Done receipt) →
  along permitted acts' (w', true) →
  ∃ w2 e, reopen (set_answers [] (live acts' (w', true)).1) = (w2, Done tt)
    ∧ cat_records (w_catalog w2) !! receipt_key_digest key = Some e
    ∧ ended_with epoch (ct_digest terminal) e.
Proof.
  intros Hbefore Hw Hcan Hback Httl Hpub Hp.
  destruct (window_along acts' (w', true)) as [T Hin].
  destruct (life_contents acts _ Hbefore Hw) as (evs0 & m & _ & Hserv).
  destruct (ended_serving T m w key expected epoch terminal w' receipt Hserv Hcan Hback Httl Hpub)
    as (m0 & e & Hserv' & Hm0 & Hk).
  destruct (serving_life (T := T) m0 _ acts' Hserv' Hp Hin) as (evs & m' & Htr & _ & Hs).
  destruct (serving_opens m' _ Hs) as (w2 & g & Hw2 & _ & Hrec). exists w2, e. rewrite Hrec.
  split_and!; [done|by eapply ended_stays|done].
Qed.

(** A reservation that was answered is what the rows of the ledger say. *)
Theorem reserve_answers_what_is_stored g m w key cutoff w' o :
  ready g m w → reserve key cutoff w = (w', Done o) →
  ∃ g' m', ready g' m' w'
    ∧ says m' (receipt_key_digest key)
        (match o with RCreated reserved => SReserved reserved | RExistingExact s => s end).
Proof.
  intros Rd Hr. destruct (runs_reserve (T := (0, accepted_epoch_ms cutoff + 1)) g m key cutoff ltac:(cbn; lia) w Rd)
    as (evs & m' & _ & _ & He).
  rewrite Hr in He. destruct He as (g' & Rd' & Hs). exists g', m'. split; [done|].
  by destruct o.
Qed.
End Durability.
