(* ===== verification/ReceiptExamples.v ===== *)
(** * Receipt store: runs

    The store run on the sample codec: the life of a receipt, the theorems of
    the store at concrete ledgers, and five runs that go wrong outside the
    requests those theorems cover. *)

From Stdlib Require Import ZArith Lia String.
From stdpp Require Import base gmap list option numbers countable strings relations.
From S2P Require Import Prelude Contract ResultSize Redaction ReceiptLedger.
From S2P Require Import ReceiptStates ReceiptRows ReceiptCatalog ReceiptCatalogFacts.
From S2P Require Import ReceiptCatalogProps ReceiptRecords ReceiptStore.
From S2P Require Import ReceiptOps ReceiptTerminals ReceiptRecovery ReceiptDisk ReceiptMachine.
From S2P Require Import ReceiptHoare ReceiptRuns ReceiptMutations ReceiptReopen.
From S2P Require Import ReceiptSafety ReceiptSafetyOps ReceiptLife ReceiptDurability.
From S2P Require Import ReceiptTaskSafety.

Local Open Scope Z_scope.

(** What a run comes to. *)
Inductive verdict := Answered | Failed (e : ReceiptLedgerError) | Panicked | Halted.
Definition verdict_of {A : Type} (o : outcome A) : verdict :=
  match o with
  | Done _ => Answered
  | Refused e => Failed e
  | Panics => Panicked
  | Stopped => Halted
  end.

Lemma answered {A : Type} (r : World * outcome A) :
  verdict_of r.2 = Answered → ∃ a, r = (r.1, Done a).
Proof. destruct r as [w [a| | |]]; try done. by exists a. Qed.
Lemma halted {A : Type} (r : World * outcome A) : verdict_of r.2 = Halted → r = (r.1, Stopped).
Proof. by destruct r as [w [| | |]]. Qed.
Lemma forgotten {A : Type} (c : M A) w :
  (forget c w).1 = (c w).1 ∧ verdict_of (forget c w).2 = verdict_of (c w).2.
Proof. unfold forget, mbind, M_bind. by destruct (c w) as [? []]. Qed.

(** ** The life of a receipt *)

Definition reserving : M (ReserveOutcome unit) := reserve sample_key sample_cutoff.
Definition reserved_world : World := (reserving new_ledger).1.
Definition publishing : M (DirectTerminalUnackedReceipt unit * list Z) :=
  publish_direct_terminal_publication sample_key 1 200 cancelled.
Definition published_world : World := (publishing reserved_world).1.
Definition acknowledging : M AcknowledgedTombstoneReceipt :=
  acknowledge_direct sample_key (ct_digest cancelled) 300.
(** The process stops after [n] answers. *)
Definition stopping (n : nat) (w : World) : World := set_answers (repeat Fine n ++ [Stops]) w.
(** A reservation cut short, and the ledger opened again. *)
Definition cut_short : World := (reserving (stopping 20 new_ledger)).1.
Definition cut_short_reopened : World := (reopen (set_answers [] cut_short)).1.

Example receipt_life :
  verdict_of (reserving new_ledger).2 = Answered
  ∧ verdict_of (publishing reserved_world).2 = Answered
  ∧ verdict_of (acknowledging published_world).2 = Answered
  ∧ verdict_of (reopen (acknowledging published_world).1).2 = Answered
  ∧ verdict_of (reserving (stopping 20 new_ledger)).2 = Halted
  ∧ verdict_of (reopen (set_answers [] cut_short)).2 = Answered.
Proof. split_and!; vm_compute; reflexivity. Qed.

Lemma reserved_answers :
  ∃ o, reserve sample_key sample_cutoff new_ledger = (reserved_world, Done o).
Proof. apply (answered (reserving new_ledger)), receipt_life. Qed.
Definition survived (v : verdict) : bool :=
  match v with Answered | Failed _ => true | Panicked | Halted => false end.
Definition is_answered (v : verdict) : bool := match v with Answered => true | _ => false end.
Lemma serves {A : Type} (q : request) (c : M A) answers w :
  perform q = forget c →
  happens (Serve q answers) (w, true)
  = ((c (set_answers answers w)).1, survived (verdict_of (c (set_answers answers w)).2)).
Proof.
  intros Hq. cbn [happens fst snd]. rewrite Hq.
  destruct (forgotten c (set_answers answers w)) as [-> Hv]. f_equal. rewrite <-Hv.
  by destruct (forget c _).2.
Qed.
Lemma opens answers w :
  happens (Open answers) (w, true)
  = ((reopen (set_answers answers w)).1, is_answered (verdict_of (reopen (set_answers answers w)).2)).
Proof. cbn [happens fst snd]. f_equal. by destruct (reopen _).2. Qed.

(** A reservation; and one that stops after twenty answers. *)
Definition reserve_acts : list (act (C := SampleReceiptCodec)) := [Serve (Reserve sample_key sample_cutoff) []].
Definition cut_short_acts : list (act (C := SampleReceiptCodec)) :=
  [Serve (Reserve sample_key sample_cutoff) (repeat Fine 20 ++ [Stops])].
Lemma reserve_live : live reserve_acts (new_ledger, true) = (reserved_world, true).
Proof.
  unfold live, reserve_acts. cbn [foldl]. rewrite (serves _ reserving) by done.
  change (set_answers [] new_ledger) with new_ledger. by rewrite (proj1 receipt_life).
Qed.
Lemma cut_short_live : live cut_short_acts (new_ledger, true) = (cut_short, false).
Proof.
  unfold live, cut_short_acts. cbn [foldl]. rewrite (serves _ reserving) by done.
  change (set_answers (repeat Fine 20 ++ [Stops]) new_ledger) with (stopping 20 new_ledger).
  by destruct receipt_life as (_ & _ & _ & _ & -> & _).
Qed.
Lemma reserve_permitted : along permitted reserve_acts (new_ledger, true).
Proof. split; [intros _; by split|exact I]. Qed.
Lemma cut_short_permitted : along permitted cut_short_acts (new_ledger, true).
Proof. split; [intros _; by split|exact I]. Qed.
Lemma cut_short_opens : reopen (set_answers [] cut_short) = (cut_short_reopened, Done tt).
Proof. destruct (answered (reopen (set_answers [] cut_short))) as [[] H]; [apply receipt_life|exact H]. Qed.
Lemma sample_canonical : canonical cancelled.
Proof. vm_compute. reflexivity. Qed.

(** After the reservation that was cut short, an opening and the publication
    of its terminal, stopped in turn. *)
Definition longer_acts : list (act (C := SampleReceiptCodec)) :=
  cut_short_acts
  ++ [Open []; Serve (PublishDirect sample_key 1 200 cancelled) (repeat Fine 12 ++ [Stops])].
Lemma longer_permitted : along permitted longer_acts (new_ledger, true).
Proof.
  split; [intros _; by split|]. split; [exact I|]. split; [|exact I].
  intros _. split; [by split|exact I].
Qed.
Lemma ledger_refines_machine_witness :
  ∃ evs m w g, receipt_trace evs ∅ m
    ∧ reopen (set_answers [] (live longer_acts (new_ledger, true)).1) = (w, Done tt) ∧ ready g m w.
Proof. exact (ledger_refines_machine longer_acts longer_permitted). Defined.
Lemma ledger_versions_witness : versions_ok (cat_records (w_catalog cut_short_reopened)).
Proof.
  apply (ledger_versions_bounded cut_short_acts cut_short_reopened cut_short_permitted).
  rewrite cut_short_live. exact cut_short_opens.
Defined.
Lemma reopen_keeps_contents_witness :
  match reopen new_ledger with
  | (w', Done _) => ∃ g, ready g ∅ w'
  | (w', _) => holds ∅ w'
  end.
Proof. exact (reopen_keeps_contents ∅ new_ledger (ready_holds 0 ∅ new_ledger new_ledger_ready)). Defined.
Lemma reserve_answers_witness :
  ∃ g' m' o, ready g' m' reserved_world
    ∧ says m' (receipt_key_digest sample_key)
        (match o with RCreated reserved => SReserved reserved | RExistingExact s => s end).
Proof.
  destruct reserved_answers as [o Ho].
  destruct (reserve_answers_what_is_stored 0 ∅ new_ledger sample_key sample_cutoff reserved_world o
              new_ledger_ready Ho) as (g & m & Rd & Hs).
  exact (ex_intro _ g (ex_intro _ m (ex_intro _ o (conj Rd Hs)))).
Defined.
(** What follows the publication: an acknowledgement, and an opening. *)
Definition after_acts : list (act (C := SampleReceiptCodec)) :=
  [Serve (Acknowledge sample_key (ct_digest cancelled) 300) []; Open []].
Lemma published_terminal_survives_witness :
  ∃ w2 e, reopen (set_answers [] (live after_acts (published_world, true)).1) = (w2, Done tt)
    ∧ cat_records (w_catalog w2) !! receipt_key_digest sample_key = Some e
    ∧ keeps_terminal 200 (ct_digest cancelled) e.
Proof.
  destruct (answered (publishing reserved_world)) as [[receipt wire] Hp]; [apply receipt_life|].
  apply (published_terminal_survives reserve_acts reserved_world sample_key 1 200 cancelled
           published_world receipt wire after_acts).
  - exact reserve_permitted.
  - exact reserve_live.
  - exact sample_canonical.
  - exact I.
  - lia.
  - exact Hp.
  - split; [intros _; by split|]. split; exact I.
  - split; [intros _; unfold ACKNOWLEDGED_TOMBSTONE_TTL_MS; cbn; lia|]. split; exact I.
Defined.

(** A task promised and ended. *)
Definition promising (created : Z) : M TaskPromisedUnboundReceipt :=
  promise_task_unbound sample_key 1 created 1000 10.
Definition promised_world (created : Z) : World := (promising created reserved_world).1.
Definition promised_receipt : TaskCancellationReceipt unit :=
  TCPromisedUnbound
    (mkPromisedUnbound (mkHeader sample_key d0 2 2 1) (sample_task 150) false
       (MAX_RECEIPT_ENTITLEMENT_BYTES - 1)).
Definition ending : M (TaskTerminalReceiptBackedReceipt unit) :=
  publish_receipt_backed_task_terminal sample_key promised_receipt 200 cancelled.
Definition task_terminal_world : World := (ending (promised_world 150)).1.
Lemma task_life :
  verdict_of (promising 150 reserved_world).2 = Answered
  ∧ verdict_of (ending (promised_world 150)).2 = Answered.
Proof. split; vm_compute; reflexivity. Qed.
Lemma promise_in_time :
  permitted (cat_records (w_catalog reserved_world)) (Promise sample_key 1 150 1000 10).
Proof.
  assert (from_option (λ e, bool_decide (row_accepted (row_lifecycle (ce_record e)) = Some 100)) true
            (cat_records (w_catalog reserved_world) !! receipt_key_digest sample_key) = true) as H
    by (vm_compute; reflexivity).
  split; [done|]. intros e He accepted Ha. rewrite He in H. apply bool_decide_eq_true in H.
  rewrite H in Ha. injection Ha as <-. lia.
Qed.
Definition promise_acts : list (act (C := SampleReceiptCodec)) :=
  reserve_acts ++ [Serve (Promise sample_key 1 150 1000 10) []].
Lemma reserved_happens :
  happens (Serve (Reserve sample_key sample_cutoff) []) (new_ledger, true) = (reserved_world, true).
Proof. exact reserve_live. Qed.
Lemma promise_live : live promise_acts (new_ledger, true) = (promised_world 150, true).
Proof.
  unfold live, promise_acts. rewrite foldl_app. fold (live reserve_acts (new_ledger, true)).
  rewrite reserve_live. cbn [foldl]. rewrite (serves _ (promising 150)) by done.
  change (set_answers [] reserved_world) with reserved_world. by rewrite (proj1 task_life).
Qed.
Lemma promise_permitted : along permitted promise_acts (new_ledger, true).
Proof.
  split; [intros _; by split|]. rewrite reserved_happens. split; [intros _; exact promise_in_time|exact I].
Qed.

(** What follows the end of the task: an opening, and a reclamation within
    the time of the terminal. *)
Definition opened_world : World := (reopen (set_answers [] task_terminal_world)).1.
Definition later_acts : list (act (C := SampleReceiptCodec)) := [Open []; Serve (Reclaim 500) []].
Lemma nothing_expired :
  is_answered (verdict_of (reopen (set_answers [] task_terminal_world)).2)
  && forallb (λ p, negb (entry_is_expired_task_receipt_terminal p.2 500))
       (map_to_list (cat_records (w_catalog opened_world))) = true.
Proof. vm_compute. reflexivity. Qed.
Lemma later_permitted : along permitted later_acts (task_terminal_world, true).
Proof.
  split; [exact I|]. rewrite opens. fold opened_world.
  pose proof nothing_expired as [Ho He]%andb_true_iff. rewrite Ho. split; [intros _|exact I].
  split; [done|]. intros d e Hd. rewrite forallb_forall in He.
  apply elem_of_map_to_list, list_elem_of_In, He in Hd. by apply negb_true_iff in Hd.
Qed.
Lemma task_terminal_survives_witness :
  ∃ w2 e, reopen (set_answers [] (live later_acts (task_terminal_world, true)).1) = (w2, Done tt)
    ∧ cat_records (w_catalog w2) !! receipt_key_digest sample_key = Some e
    ∧ ended_with 200 (ct_digest cancelled) e.
Proof.
  destruct (answered (ending (promised_world 150))) as [receipt Hp]; [apply task_life|].
  apply (task_terminal_survives promise_acts (promised_world 150) sample_key promised_receipt 200
           cancelled task_terminal_world receipt later_acts).
  - exact promise_permitted.
  - exact promise_live.
  - exact sample_canonical.
  - exact I.
  - vm_compute. congruence.
  - exact Hp.
  - exact later_permitted.
Defined.

(** ** Rows, keys and machine at concrete inputs *)

Definition swapped_key : ReceiptKey :=
  mkReceiptKey (mkInvocationId 2) (mkTaskId 1) sample_digest TRun sample_digest sample_digest.
Lemma equal_digests_witness : sample_key = swapped_key ∨ sha256_collision.
Proof.
  apply (equal_digests_equal_keys sample_key swapped_key);
    [by vm_compute|by vm_compute|vm_compute; reflexivity].
Defined.
Lemma read_row_is_written_witness :
  ∃ limit, reserved_limit (row_lifecycle row_reserved) = Some limit
    ∧ serialize_reserved_record row_reserved limit = Ok [200].
Proof.
  apply (read_row_is_written (C := SampleReceiptCodec) [200] d0 (mkEntry row_reserved 1)). vm_compute. reflexivity.
Defined.
Lemma direct_row_witness :
  ∃ enc, decode_active_record enc (receipt_key_digest sample_key)
         = Ok (mkEntry (direct_row 2 2 sample_key sample_cutoff 200 cancelled) (blen enc)).
Proof.
  assert (∃ enc, encode_direct_record 2 2 sample_key (receipt_key_digest sample_key) sample_cutoff 200
            cancelled = Ok enc) as [enc He] by (eexists; vm_compute; reflexivity).
  exists enc.2. apply (direct_row_reads_back (C := SampleReceiptCodec) RCancelled cancelled 2 2 sample_key sample_cutoff 200 enc);
    [vm_compute; reflexivity|exact I|exact He|unfold u64_max; lia|unfold version_initial, u64_max; lia|lia].
Defined.

(** Rows of the catalog: [n] tells their identities and their sequence. *)
Definition counted (n version : Z) (l : StoredActiveLifecycleV1 unit) (bytes : Z) : CatalogEntry unit :=
  mkEntry
    (mkRow RECEIPT_RECORD_SCHEMA_VERSION (10 * n + version) version
       (mkReceiptKey (mkInvocationId (Z.to_N n)) (mkTaskId (Z.to_N n)) sample_digest TRun
          sample_digest sample_digest) [n] l) bytes.
Definition counted_reserved (n : Z) : CatalogEntry unit :=
  counted n 1 (LReservedUnbound 100 sample_cutoff false) 300.
Definition counted_begun (n : Z) : CatalogEntry unit :=
  counted n 2 (LReservedActorBound 100 sample_cutoff d0 false) 340.
Definition counted_done (n : Z) : CatalogEntry unit :=
  counted n 3 (LDirectTerminalUnacked sample_cutoff 200 (ct_digest cancelled) None) 500.
Definition counted_tombstone (n : Z) : CatalogEntry unit :=
  counted n 4 (LAcknowledgedTombstone (ct_digest cancelled) 300) 120.
(** Rows come, are replaced one by one and together, and go; an insertion of a
    row that is there is refused. *)
Definition catalog_ops : list catalog_op :=
  [OpInsert (counted_reserved 1) false; OpInsert (counted_reserved 1) false;
   OpInsertBatch [counted_reserved 2; counted_reserved 3];
   OpReplace (counted_reserved 1) (counted_begun 1);
   OpReplaceBatch [(counted_reserved 2, counted_done 2); (counted_begun 1, counted_done 1)];
   OpReplace (counted_done 2) (counted_tombstone 2);
   OpRemove (counted_reserved 3); OpLatch].
Definition fresh_in (c : ReceiptCatalog unit) (e : CatalogEntry unit) : bool :=
  forallb (λ p, bool_decide (p.1 = entry_digest e) || is_tombstone p.2 || is_tombstone e
                || negb (entry_sequence p.2 =? entry_sequence e)) (map_to_list (cat_records c)).
Lemma fresh_in_sequence c e : fresh_in c e = true → fresh_sequence (cat_records c) (entry_digest e) e.
Proof.
  unfold fresh_in. rewrite forallb_forall. intros H d' e' Hd Hne Ht' Ht Hs.
  apply elem_of_map_to_list, list_elem_of_In, H in Hd. cbn in Hd.
  rewrite bool_decide_false, Ht', Ht, Hs, Z.eqb_refl in Hd; done.
Qed.
(** [op_sound], computed. *)
Definition fits (e : CatalogEntry unit) : bool := bool_decide (entry_fits e).
Definition op_soundb (c : ReceiptCatalog unit) (op : catalog_op) : bool :=
  match op with
  | OpInsert e _ | OpReplace _ e => fits e
  | OpInsertBatch es =>
      forallb fits es && bool_decide (NoDup (entry_digest <$> es))
      && bool_decide (NoDup (entry_invocation <$> es)) && bool_decide (NoDup (entry_task <$> es))
      && forallb (fresh_in c) es
  | OpReplaceBatch rs => forallb (λ p, fits p.2 && fresh_in c p.2) rs
  | OpRemove _ | OpLatch => true
  end.
Fixpoint ops_soundb (ops : list catalog_op) (c : ReceiptCatalog unit) : bool :=
  match ops with
  | [] => true
  | op :: ops => op_soundb c op && from_option (ops_soundb ops) true (apply_op c op)
  end.
Lemma ops_soundb_sound ops c : ops_soundb ops c = true → ops_sound ops c.
Proof.
  revert c. induction ops as [|op ops IH]; intros c; [done|]. cbn. intros [Hop Hops]%andb_true_iff.
  split; [|intros c' Hc'; rewrite Hc' in Hops; by apply IH].
  unfold op_sound, op_soundb, fits in *.
  destruct op as [e recovering|es|e|e r|rs|]; [by bool_prop| |done|by bool_prop| |done].
  - apply andb_true_iff in Hop as [[[[Hf Hd]%andb_true_iff Hi]%andb_true_iff Ht]%andb_true_iff Hs].
    bool_prop. rewrite forallb_forall in Hf, Hs. split_and!; try done.
    + apply Forall_forall. intros e He%list_elem_of_In. exact (bool_decide_eq_true_1 _ (Hf e He)).
    + intros e He%list_elem_of_In. by apply fresh_in_sequence, Hs.
  - intros p Hp%list_elem_of_In. rewrite forallb_forall in Hop. apply Hop in Hp. bool_prop.
    split; [done|]. by apply fresh_in_sequence.
Qed.
Example catalog_run :
  (λ c, (length (map_to_list (cat_records c)), cat_live_records c, cat_tombstone_records c))
  <$> apply_ops catalog_ops catalog_default = Some (2%nat, 1, 1).
Proof. vm_compute. reflexivity. Qed.
Lemma catalog_counters_witness :
  ∃ c, apply_ops catalog_ops catalog_default = Some c ∧ catalog_ok c.
Proof.
  apply (catalog_counters_exact catalog_ops). apply ops_soundb_sound. vm_compute. reflexivity.
Defined.

(** ** Runs that go wrong *)

(** After a Task was promised for a receipt, a request for the next phase of
    its reservation at the row's current version, or a look at the
    reservation, reaches the [unreachable!] arm of
    [CatalogEntry::reservation]: the store panics with its writer lock held. *)
Theorem promised_task_panics :
  verdict_of (promising 150 reserved_world).2 = Answered
  ∧ verdict_of (bind_reserved_actor sample_key 2 d0 (promised_world 150)).2 = Panicked
  ∧ verdict_of (read_reserved d0 (promised_world 150)).2 = Panicked.
Proof. split_and!; vm_compute; reflexivity. Qed.

(** A promise dated before its request was accepted is written and
    answered; from then on the ledger cannot be opened: validation rejects
    the row that [promise_task_unbound] wrote. *)
Theorem early_promise_closes_ledger :
  verdict_of (promising 50 reserved_world).2 = Answered
  ∧ verdict_of (reopen (promised_world 50)).2 = Failed Corrupt.
Proof. split_and!; vm_compute; reflexivity. Qed.

(** A result whose [data] is a JSON null: it is published and answered, and
    read back without its [data].  Its digest is another one, and the ledger
    cannot be opened any more. *)
Theorem null_result_closes_ledger :
  let publishing_null := publish_direct_terminal_publication sample_key 1 200 null_terminal in
  verdict_of (publishing_null reserved_world).2 = Answered
  ∧ verdict_of (reopen (publishing_null reserved_world).1).2 = Failed Corrupt.
Proof. split_and!; vm_compute; reflexivity. Qed.

(** The removal of an expired Task receipt, stopped after its witness is in
    place. *)
Definition half_removed : World :=
  (reclaim_expired_tombstones 1200 (stopping 28 task_terminal_world)).1.
Definition reopened : World := (reopen (set_answers [] half_removed)).1.

(** The removal of an expired Task receipt is not finished by the next
    opening: the deletion witness is taken for a live row, which holds the
    identities of the receipt and has no state. *)
Theorem task_receipt_deletion_stays :
  verdict_of (reclaim_expired_tombstones 1200 (stopping 28 task_terminal_world)).2 = Halted
  ∧ verdict_of (reopen (set_answers [] half_removed)).2 = Answered
  ∧ (row_lifecycle ∘ ce_record <$> cat_records (w_catalog reopened) !! d0)
    = Some (row_lifecycle row_task_deletion)
  ∧ verdict_of (reserve sample_key sample_cutoff reopened).2 = Failed Corrupt.
Proof. split_and!; vm_compute; reflexivity. Qed.

(** A hand-off that is cancelled before its completion is confirmed. *)
Definition bound_world : World := (bind_reserved_actor sample_key 1 d0 reserved_world).1.
Definition handoff_world : World :=
  (begin_bound_task_handoff sample_key 2 150 1000 10 bound_world).1.
Definition handoff_receipt : TaskCancellationReceipt unit :=
  TCHandoffActorBound
    (mkHandoff (mkHeader sample_key d0 3 3 1) (sample_task 150) sample_link NotBegun false
       (MAX_RECEIPT_ENTITLEMENT_BYTES - 1) NoTerminal).
Definition cancelled_world : World := (request_task_cancel sample_key handoff_receipt handoff_world).1.
(** The task as its own store confirms it: its next version. *)
Definition confirmed_bound : result TaskBoundReceipt ReceiptLedgerError :=
  let? header := link_header_new sample_key sample_link 1 1 10 in
  task_bound_new header
    (mkProjection (mkTaskId 2) (mkInvocationId 1) 150 300 1000 10 2) 2 300 NotBegun.
Definition completing (w : World) : World * outcome TaskBoundReceipt :=
  match confirmed_bound with
  | Ok bound => complete_bound_task_handoff sample_key 4 bound w
  | Err e => (w, Refused e)
  end.
(** Its completion, stopped after its witness is in place. *)
Definition half_completed : World := (completing (stopping 30 cancelled_world)).1.

(** A cancelled hand-off is completed with the next version of its task, as
    [complete_bound_task_handoff] asks; validation takes only the version
    the row held.  When the completion stops between its witness and the
    removal, the ledger cannot be opened any more. *)
Theorem cancelled_handoff_closes_ledger :
  verdict_of (completing cancelled_world).2 = Answered
  ∧ verdict_of (completing (stopping 30 cancelled_world)).2 = Halted
  ∧ verdict_of (reopen (set_answers [] half_completed)).2 = Failed Corrupt.
Proof. split_and!; vm_compute; reflexivity. Qed.
