(* ===== verification/LineDiff.v ===== *)
(** * The line diff of edited XML text

    [crates/unica-xml-format/src/text.rs]: which lines of an edited text are
    lines of its source.  [kept_edited_lines] is Myers' linear-space
    algorithm: [mark_common_lines] strips the common prefix and suffix,
    splits at the middle snake that [middle_snake] finds and recurses.

    A slice is a list, [usize] is [nat] and [isize] is [Z]; a slice of
    references is at most [isize::MAX / 16] long, so that no sum of two
    lengths overflows.  [None] is a panic: an index or a range out of bounds,
    the [unreachable!] arm.  The loops take fuel; [LineDiffProps] shows that
    the fuel given suffices and that nothing panics. *)

From Stdlib Require Import ZArith Lia.
From stdpp Require Import base list option numbers.
From S2P Require Import Prelude.

Local Open Scope Z_scope.

Module Myers.

(** ** Checked accesses *)

(** [v[i as usize]] of an [isize]: a negative index wraps beyond the end. *)
Definition get {A : Type} (v : list A) (i : Z) : option A :=
  if i <? 0 then None else v !! Z.to_nat i.
(** [v[i] = x]. *)
Definition set {A : Type} (v : list A) (i : Z) (x : A) : option (list A) :=
  if (0 <=? i) && (i <? Z.of_nat (length v)) then Some (<[Z.to_nat i := x]> v) else None.
(** [&v[..i]] and [&v[i..]]. *)
Definition slice_to {A : Type} (v : list A) (i : nat) : option (list A) :=
  if (i <=? length v)%nat then Some (take i v) else None.
Definition slice_at {A : Type} (v : list A) (i : nat) : option (list A) :=
  if (i <=? length v)%nat then Some (drop i v) else None.
(** [z as usize], for a value that the caller slices with: what a negative
    value wraps to is beyond every slice. *)
Definition as_usize (z : Z) : option nat := if z <? 0 then None else Some (Z.to_nat z).
(** [a - b] of [usize]. *)
Definition usize_sub (a b : nat) : option nat := if (b <=? a)%nat then Some (a - b)%nat else None.

Section diff.
Context {A : Type} `{EqDecision A}.

(** [left.iter().zip(right).take_while(|(left, right)| left == right).count()] *)
Fixpoint common_prefix_len (ls rs : list A) : nat :=
  match ls, rs with
  | a :: ls, b :: rs => if decide (a = b) then S (common_prefix_len ls rs) else 0%nat
  | _, _ => 0%nat
  end.
(** The same of [left.iter().rev()] and [right.iter().rev()]. *)
Definition common_suffix_len (ls rs : list A) : nat :=
  common_prefix_len (reverse ls) (reverse rs).

(** ** [middle_snake] *)

Section snake.
Context (source edited : list A).

Definition n : Z := Z.of_nat (length source).
Definition m : Z := Z.of_nat (length edited).
Definition delta : Z := n - m.
(** [delta % 2 != 0]: the remainder has the sign of [delta]. *)
Definition odd : bool := negb (Z.rem delta 2 =? 0).
Definition max : nat := Z.to_nat ((n + m + 1) / 2).
Definition offset : Z := Z.of_nat max + 1.
Definition width : nat := (2 * max + 3)%nat.

(** The comparisons of the two [while] loops. *)
Definition same_forward (x y : Z) : option bool :=
  a ← get source x; b ← get edited y; Some (bool_decide (a = b)).
Definition same_backward (x y : Z) : option bool :=
  a ← get source (n - x - 1); b ← get edited (m - y - 1); Some (bool_decide (a = b)).

(** [while x < n && y < m && same { x += 1; y += 1; }]: at most [n - x]
    rounds, after which [x < n] is false. *)
Fixpoint slide (same : Z → Z → option bool) (fuel : nat) (x y : Z) : option (Z * Z) :=
  match fuel with
  | O => Some (x, y)
  | S fuel =>
      if (x <? n) && (y <? m) then
        b ← same x y;
        if b : bool then slide same fuel (x + 1) (y + 1) else Some (x, y)
      else Some (x, y)
  end.

(** The furthest [x] of diagonal [k] before its snake, from the furthest
    points of the neighbouring diagonals. *)
Definition start_x (v : list Z) (depth k : Z) : option Z :=
  let index := k + offset in
  if k =? - depth then get v (index + 1)
  else
    if negb (k =? depth) then
      a ← get v (index - 1); b ← get v (index + 1);
      if a <? b then get v (index + 1) else Some (a + 1)
    else
      a ← get v (index - 1); Some (a + 1).

(** A round of a [while k <= depth] loop ends the search or goes on. *)
Inductive Round : Type :=
| Found (x y u v : nat)
| GoOn (v : list Z).

Definition found (x y u v : Z) : option Round :=
  x ← as_usize x; y ← as_usize y; u ← as_usize u; v ← as_usize v; Some (Found x y u v).

Definition forward_round (forward backward : list Z) (depth k : Z) : option Round :=
  x0 ← start_x forward depth k;
  let y0 := x0 - k in
  '(x, y) ← slide same_forward (Z.to_nat (n - x0)) x0 y0;
  forward ← set forward (k + offset) x;
  let reverse_k := delta - k in
  if odd && (- depth <? reverse_k) && (reverse_k <? depth) then
    reverse_x ← get backward (reverse_k + offset);
    if n <=? x + reverse_x then found x0 y0 x y else Some (GoOn forward)
  else Some (GoOn forward).

Definition backward_round (forward backward : list Z) (depth k : Z) : option Round :=
  x0 ← start_x backward depth k;
  let y0 := x0 - k in
  '(x, y) ← slide same_backward (Z.to_nat (n - x0)) x0 y0;
  backward ← set backward (k + offset) x;
  let forward_k := delta - k in
  if negb odd && (- depth <=? forward_k) && (forward_k <=? depth) then
    forward_x ← get forward (forward_k + offset);
    if n <=? x + forward_x then found (n - x) (m - y) (n - x0) (m - y0)
    else Some (GoOn backward)
  else Some (GoOn backward).

(** [let mut k = -depth; while k <= depth { round; k += 2; }]. *)
Fixpoint scan (round : list Z → Z → Z → option Round) (fuel : nat) (v : list Z) (depth k : Z)
    : option Round :=
  match fuel with
  | O => None
  | S fuel =>
      if k <=? depth then
        r ← round v depth k;
        match r with
        | Found _ _ _ _ => Some r
        | GoOn v => scan round fuel v depth (k + 2)
        end
      else Some (GoOn v)
  end.

(** [for depth in 0..=max]: [rounds] depths are left. *)
Fixpoint search (rounds : nat) (forward backward : list Z) (depth : Z)
    : option (nat * nat * nat * nat) :=
  match rounds with
  | O => None
  | S rounds =>
      f ← scan (λ v, forward_round v backward) (Z.to_nat depth + 2) forward depth (- depth);
      match f with
      | Found x y u v => Some (x, y, u, v)
      | GoOn forward =>
          b ← scan (λ v, backward_round forward v) (Z.to_nat depth + 2) backward depth (- depth);
          match b with
          | Found x y u v => Some (x, y, u, v)
          | GoOn backward => search rounds forward backward (depth + 1)
          end
      end
  end.

Definition middle_snake : option (nat * nat * nat * nat) :=
  search (S max) (replicate width 0) (replicate width 0) 0.

End snake.

(** ** [mark_common_lines] *)

(** [for offset in 0..count { matched[edited_at + offset] = Some(source_at + offset) }]. *)
Fixpoint mark_run (matched : list (option nat)) (edited_at source_at count : nat)
    : option (list (option nat)) :=
  match count with
  | O => Some matched
  | S count =>
      matched ← set matched (Z.of_nat edited_at) (Some source_at);
      mark_run matched (S edited_at) (S source_at) count
  end.

(** [for offset in 1..=suffix { matched[edited_end - offset] = Some(source_end - offset) }]:
    from the end downwards. *)
Fixpoint mark_back (matched : list (option nat)) (edited_end source_end count : nat)
    : option (list (option nat)) :=
  match count with
  | O => Some matched
  | S count =>
      e ← usize_sub edited_end 1; s ← usize_sub source_end 1;
      matched ← set matched (Z.of_nat e) (Some s);
      mark_back matched e s count
  end.

Fixpoint mark_common_lines (fuel : nat) (source edited : list A) (source_base edited_base : nat)
    (matched : list (option nat)) : option (list (option nat)) :=
  match fuel with
  | O => None
  | S fuel =>
      let prefix := common_prefix_len source edited in
      matched ← mark_run matched edited_base source_base prefix;
      source ← slice_at source prefix;
      edited ← slice_at edited prefix;
      let source_base := (source_base + prefix)%nat in
      let edited_base := (edited_base + prefix)%nat in
      let suffix := common_suffix_len source edited in
      matched ← mark_back matched (edited_base + length edited) (source_base + length source) suffix;
      s_end ← usize_sub (length source) suffix;
      e_end ← usize_sub (length edited) suffix;
      source ← slice_to source s_end;
      edited ← slice_to edited e_end;
      if (length source =? 0)%nat || (length edited =? 0)%nat then Some matched
      else
        '(x, y, u, v) ← middle_snake source edited;
        count ← usize_sub v y;
        matched ← mark_run matched (edited_base + y) (source_base + x) count;
        s_left ← slice_to source x;
        e_left ← slice_to edited y;
        matched ← mark_common_lines fuel s_left e_left source_base edited_base matched;
        s_right ← slice_at source u;
        e_right ← slice_at edited v;
        mark_common_lines fuel s_right e_right (source_base + u) (edited_base + v) matched
  end.

Definition kept_edited_lines (source edited : list A) : option (list (option nat)) :=
  mark_common_lines (S (length source + length edited)) source edited 0 0
    (replicate (length edited) None).

End diff.

End Myers.
