(* ===== verification/EditGraph.v ===== *)
(** * Edit graphs

    The plane in which Myers' algorithm searches: a step right deletes a
    source line, a step down inserts an edited line, a diagonal step keeps a
    line that matches.  Steps right and down are free in the whole plane;
    diagonals exist only inside the rectangle of the two texts.

    [path] counts the edits of a path.  [furthest] is the furthest point that
    a number of edits reaches on a diagonal, with the recurrence that finds
    it; [overlap_ends] is the heart of the algorithm: when the furthest paths
    from both corners overlap, and no path is shorter, each continues the
    other.  Last, paths and edit scripts of two lists, and common
    subsequences, are the same thing. *)

From Stdlib Require Import ZArith Lia.
From stdpp Require Import base list option numbers.
From S2P Require Import Prelude.

Local Open Scope Z_scope.

(** ** Paths *)

Section graph.
Context (M : Z → Z → Prop).

(** [path x y d x' y']: from [(x, y)] to [(x', y')] with [d] edits. *)
Inductive path : Z → Z → Z → Z → Z → Prop :=
| path_here x y : path x y 0 x y
| path_right x y d x' y' : path (x + 1) y d x' y' → path x y (d + 1) x' y'
| path_down x y d x' y' : path x (y + 1) d x' y' → path x y (d + 1) x' y'
| path_keep x y d x' y' : M x y → path (x + 1) (y + 1) d x' y' → path x y d x' y'.

(** [t] diagonal steps from [(x, y)]. *)
Definition run (x y t : Z) : Prop := ∀ i, 0 ≤ i < t → M (x + i) (y + i).

Lemma path_bounds x y d x' y' :
  path x y d x' y' → 0 ≤ d ∧ x ≤ x' ∧ y ≤ y' ∧ d ≤ (x' - x) + (y' - y).
Proof. induction 1; lia. Qed.

Lemma path_diagonal x y d x' y' :
  path x y d x' y' → ∃ t, 0 ≤ t ≤ d ∧ (x' - y') - (x - y) = d - 2 * t.
Proof.
  induction 1 as [|x y d x' y' _ (t & Ht & E)|x y d x' y' _ (t & Ht & E)|x y d x' y' _ _ (t & Ht & E)].
  - exists 0. lia.
  - exists t. lia.
  - exists (t + 1). lia.
  - exists t. lia.
Qed.

Lemma path_trans x y d x1 y1 d' x2 y2 :
  path x y d x1 y1 → path x1 y1 d' x2 y2 → path x y (d + d') x2 y2.
Proof.
  induction 1; intros H2; [done|..].
  - replace (d + 1 + d') with (d + d' + 1) by lia. by apply path_right, IHpath.
  - replace (d + 1 + d') with (d + d' + 1) by lia. by apply path_down, IHpath.
  - apply path_keep; auto.
Qed.

Lemma path_rights t x y : 0 ≤ t → path x y t (x + t) y.
Proof.
  intros Ht. revert x. pattern t. apply natlike_ind; [| |done].
  - intros x. rewrite Z.add_0_r. constructor.
  - intros t' _ IH x. replace (x + Z.succ t') with (x + 1 + t') by lia.
    apply (path_right x y t'), IH.
Qed.
Lemma path_downs t x y : 0 ≤ t → path x y t x (y + t).
Proof.
  intros Ht. revert y. pattern t. apply natlike_ind; [| |done].
  - intros y. rewrite Z.add_0_r. constructor.
  - intros t' _ IH y. replace (y + Z.succ t') with (y + 1 + t') by lia.
    apply (path_down x y t'), IH.
Qed.
Lemma path_run t x y : 0 ≤ t → run x y t → path x y 0 (x + t) (y + t).
Proof.
  intros Ht. revert x y. pattern t. apply natlike_ind; [| |done].
  - intros x y _. rewrite !Z.add_0_r. constructor.
  - intros t' Ht' IH x y Hr. apply path_keep.
    + replace x with (x + 0) by lia. replace y with (y + 0) by lia. apply Hr. lia.
    + replace (x + Z.succ t') with (x + 1 + t') by lia.
      replace (y + Z.succ t') with (y + 1 + t') by lia. apply IH. intros i Hi.
      replace (x + 1 + i) with (x + (i + 1)) by lia.
      replace (y + 1 + i) with (y + (i + 1)) by lia. apply Hr. lia.
Qed.

(** A path passes every number of edits up to its own. *)
Lemma path_split a x y d x' y' :
  path x y d x' y' → 0 ≤ a ≤ d → ∃ x1 y1, path x y a x1 y1 ∧ path x1 y1 (d - a) x' y'.
Proof.
  intros H. revert a. induction H as [x y|x y d x' y' H IH|x y d x' y' H IH|x y d x' y' HM H IH];
    intros a Ha.
  - exists x, y. replace a with 0 by lia. split; constructor.
  - destruct (Z.eq_dec a 0) as [->|Hn].
    + exists x, y. split; [constructor|]. rewrite Z.sub_0_r. by constructor.
    + destruct (IH (a - 1)) as (x1 & y1 & H1 & H2); [pose proof (path_bounds _ _ _ _ _ H); lia|].
      exists x1, y1. split; [replace a with (a - 1 + 1) by lia; by apply path_right|].
      by replace (d + 1 - a) with (d - (a - 1)) by lia.
  - destruct (Z.eq_dec a 0) as [->|Hn].
    + exists x, y. split; [constructor|]. rewrite Z.sub_0_r. by constructor.
    + destruct (IH (a - 1)) as (x1 & y1 & H1 & H2); [pose proof (path_bounds _ _ _ _ _ H); lia|].
      exists x1, y1. split; [replace a with (a - 1 + 1) by lia; by apply path_down|].
      by replace (d + 1 - a) with (d - (a - 1)) by lia.
  - destruct (IH a Ha) as (x1 & y1 & H1 & H2). exists x1, y1. split; [|done]. by apply path_keep.
Qed.

(** ** Moving the start of a path along its diagonal *)

Lemma path_start_down x y d x' y' :
  path x y d x' y' → y < y' → ∃ d', d' ≤ d + 1 ∧ path x (y + 1) d' x' y'.
Proof.
  induction 1 as [x y|x y d x' y' H IH|x y d x' y' H IH|x y d x' y' HM H IH]; intros Hy; [lia|..].
  - destruct (IH Hy) as (d' & ? & ?). exists (d' + 1). split; [lia|]. by apply path_right.
  - exists d. split; [lia|done].
  - exists (d + 1). split; [lia|]. by apply path_right.
Qed.
Lemma path_start_right x y d x' y' :
  path x y d x' y' → x < x' → ∃ d', d' ≤ d + 1 ∧ path (x + 1) y d' x' y'.
Proof.
  induction 1 as [x y|x y d x' y' H IH|x y d x' y' H IH|x y d x' y' HM H IH]; intros Hx; [lia|..].
  - exists d. split; [lia|done].
  - destruct (IH Hx) as (d' & ? & ?). exists (d' + 1). split; [lia|]. by apply path_down.
  - exists (d + 1). split; [lia|]. by apply path_down.
Qed.

(** The next point of the diagonal is no further from the end. *)
Lemma path_start_next x y d x' y' :
  path x y d x' y' → x < x' → y < y' → ∃ d', d' ≤ d ∧ path (x + 1) (y + 1) d' x' y'.
Proof.
  inversion 1 as [|? ? d0 ? ? H1|? ? d0 ? ? H1|? ? d0 ? ? HM H1]; subst; intros Hx Hy; [lia|..].
  - destruct (path_start_down _ _ _ _ _ H1 Hy) as (d' & ? & ?). exists d'. split; [lia|done].
  - destruct (path_start_right _ _ _ _ _ H1 Hx) as (d' & ? & ?). exists d'. split; [lia|done].
  - by exists d.
Qed.
Lemma path_start_along t x y d x' y' :
  0 ≤ t → path x y d x' y' → x + t ≤ x' → y + t ≤ y' →
  ∃ d', d' ≤ d ∧ path (x + t) (y + t) d' x' y'.
Proof.
  intros Ht. revert x y d. pattern t. apply natlike_ind; [| |done].
  - intros x y d H _ _. exists d. by rewrite !Z.add_0_r.
  - intros t' Ht' IH x y d H Hx Hy.
    destruct (path_start_next _ _ _ _ _ H) as (d1 & Hd1 & H1); [lia..|].
    destruct (IH _ _ _ H1) as (d2 & Hd2 & H2); [lia..|]. exists d2. split; [lia|].
    by replace (x + Z.succ t') with (x + 1 + t') by lia; replace (y + Z.succ t') with (y + 1 + t') by lia.
Qed.

(** ** The last edit of a path *)

Lemma path_snoc_right x y d x' y' : path x y d x' y' → path x y (d + 1) (x' + 1) y'.
Proof. intros H. eapply path_trans; [exact H|]. apply (path_right _ _ 0). constructor. Qed.
Lemma path_snoc_down x y d x' y' : path x y d x' y' → path x y (d + 1) x' (y' + 1).
Proof. intros H. eapply path_trans; [exact H|]. apply (path_down _ _ 0). constructor. Qed.

(** A path ends in an edit and the diagonal after it, or has none. *)
Lemma path_last x y d x' y' :
  path x y d x' y' →
  ∃ t, 0 ≤ t ∧ run (x' - t) (y' - t) t
    ∧ (d = 0 ∧ x = x' - t ∧ y = y' - t
       ∨ path x y (d - 1) (x' - t - 1) (y' - t)
       ∨ path x y (d - 1) (x' - t) (y' - t - 1)).
Proof.
  induction 1 as [x y|x y d x' y' H IH|x y d x' y' H IH|x y d x' y' HM H IH].
  - exists 0. split; [lia|]. split; [intros i; lia|]. left. lia.
  - destruct IH as (t & Ht & Hr & Hc). exists t. do 2 (split; [done|]). right.
    destruct Hc as [(-> & Hx & Hy)|[Hc|Hc]].
    + left. replace (x' - t - 1) with x by lia. replace (y' - t) with y by lia. constructor.
    + left. replace (d + 1 - 1) with (d - 1 + 1) by lia. by apply path_right.
    + right. replace (d + 1 - 1) with (d - 1 + 1) by lia. by apply path_right.
  - destruct IH as (t & Ht & Hr & Hc). exists t. do 2 (split; [done|]). right.
    destruct Hc as [(-> & Hx & Hy)|[Hc|Hc]].
    + right. replace (y' - t - 1) with y by lia. replace (x' - t) with x by lia. constructor.
    + left. replace (d + 1 - 1) with (d - 1 + 1) by lia. by apply path_down.
    + right. replace (d + 1 - 1) with (d - 1 + 1) by lia. by apply path_down.
  - destruct IH as (t & Ht & Hr & Hc). destruct Hc as [(-> & Hx & Hy)|Hc].
    + exists (t + 1). split; [lia|]. split; [|left; lia]. intros i Hi.
      destruct (Z.eq_dec i 0) as [->|Hn].
      * by replace (x' - (t + 1) + 0) with x by lia; replace (y' - (t + 1) + 0) with y by lia.
      * replace (x' - (t + 1) + i) with (x' - t + (i - 1)) by lia.
        replace (y' - (t + 1) + i) with (y' - t + (i - 1)) by lia. apply Hr. lia.
    + exists t. do 2 (split; [done|]). right. by destruct Hc; [left|right]; apply path_keep.
Qed.

(** ** Furthest points *)

(** The furthest [x] of diagonal [k] that [d] edits reach from the origin. *)
Definition furthest (d k x : Z) : Prop :=
  path 0 0 d x (x - k) ∧ ∀ x', path 0 0 d x' (x' - k) → x' ≤ x.

(** What a slide along the diagonal gives: all the matches from [x0]. *)
Definition slid (k x0 x : Z) : Prop :=
  x0 ≤ x ∧ run x0 (x0 - k) (x - x0) ∧ ¬ M x (x - k).

Lemma run_stops k x0 x x1 t :
  slid k x0 x → x1 ≤ x0 → 0 ≤ t → run x1 (x1 - k) t → x1 + t ≤ x.
Proof.
  intros (Hle & _ & Hn) H1 Ht Hr. destruct (Z_le_gt_dec (x1 + t) x) as [|Hgt]; [done|].
  destruct Hn. replace x with (x1 + (x - x1)) by lia.
  replace (x1 + (x - x1) - k) with (x1 - k + (x - x1)) by lia. apply Hr. lia.
Qed.

Lemma furthest_0 x : slid 0 0 x → furthest 0 0 x.
Proof.
  intros Hs. pose proof Hs as (Hle & Hr & Hn). split.
  - pose proof (path_run x 0 0 Hle) as Hp. rewrite Z.sub_0_r in Hr.
    replace (x - 0) with (0 + x) by lia. apply Hp. by replace x with (x - 0) by lia.
  - intros x' Hp. destruct (path_last _ _ _ _ _ Hp) as (t & Ht & Hrt & [(_ & Hx & Hy)|[Hc|Hc]]).
    + replace x' with (0 + t) by lia. eapply (run_stops 0 0 x 0 t); [done|lia|done|].
      replace 0 with (x' - t) by lia. by replace (x' - t - (x' - t)) with (x' - 0 - t) by lia.
    + pose proof (path_bounds _ _ _ _ _ Hc). lia.
    + pose proof (path_bounds _ _ _ _ _ Hc). lia.
Qed.

(** The recurrence: [x0] is the further of the two points that one more edit
    reaches, and [x] the end of its diagonal. *)
Lemma furthest_step d k x0 x :
  0 < d → slid k x0 x →
  path 0 0 d x0 (x0 - k) →
  (∀ x1, path 0 0 (d - 1) x1 (x1 - (k - 1)) → x1 + 1 ≤ x0) →
  (∀ x1, path 0 0 (d - 1) x1 (x1 - (k + 1)) → x1 ≤ x0) →
  furthest d k x.
Proof.
  intros Hd Hs Hp Hr Hdn. split.
  - destruct Hs as (Hle & Hrun & _).
    replace d with (d + 0) by lia. eapply path_trans; [exact Hp|].
    pose proof (path_run (x - x0) x0 (x0 - k) ltac:(lia) Hrun) as H.
    by replace (x0 + (x - x0)) with x in H by lia;
      replace (x0 - k + (x - x0)) with (x - k) in H by lia.
  - intros x' Hp'. destruct (path_last _ _ _ _ _ Hp') as (t & Ht & Hrt & [(? & _)|[Hc|Hc]]); [lia| |].
    + replace x' with (x' - t + t) by lia. eapply (run_stops k x0 x); [done| |done|].
      * enough (x' - t - 1 + 1 ≤ x0) by lia. apply Hr.
        by replace (x' - t - 1 - (k - 1)) with (x' - k - t) by lia.
      * by replace (x' - t - k) with (x' - k - t) by lia.
    + replace x' with (x' - t + t) by lia. eapply (run_stops k x0 x); [done| |done|].
      * apply Hdn. by replace (x' - t - (k + 1)) with (x' - k - t - 1) by lia.
      * by replace (x' - t - k) with (x' - k - t) by lia.
Qed.

(** ** The rectangle *)

Context (n m : Z) (HM : ∀ x y, M x y → 0 ≤ x < n ∧ 0 ≤ y < m).

(** Beyond the rectangle every step is an edit. *)
Lemma path_clip x y d x' y' :
  path x y d x' y' →
  ∃ d', path (Z.min x n) (Z.min y m) d' (Z.min x' n) (Z.min y' m)
    ∧ d' + (Z.max 0 (x' - n) - Z.max 0 (x - n)) + (Z.max 0 (y' - m) - Z.max 0 (y - m)) ≤ d.
Proof.
  induction 1 as [x y|x y d x' y' H (d' & Hp & Hd)|x y d x' y' H (d' & Hp & Hd)|x y d x' y' HM' H (d' & Hp & Hd)].
  - exists 0. split; [constructor|lia].
  - destruct (Z_lt_le_dec x n).
    + exists (d' + 1). split; [|lia]. apply path_right. by replace (Z.min x n + 1) with (Z.min (x + 1) n) by lia.
    + exists d'. split; [|lia]. by replace (Z.min x n) with (Z.min (x + 1) n) by lia.
  - destruct (Z_lt_le_dec y m).
    + exists (d' + 1). split; [|lia]. apply path_down. by replace (Z.min y m + 1) with (Z.min (y + 1) m) by lia.
    + exists d'. split; [|lia]. by replace (Z.min y m) with (Z.min (y + 1) m) by lia.
  - pose proof (HM _ _ HM'). exists d'. split; [|lia]. apply path_keep.
    + by replace (Z.min x n) with x by lia; replace (Z.min y m) with y by lia.
    + by replace (Z.min x n + 1) with (Z.min (x + 1) n) by lia;
        replace (Z.min y m + 1) with (Z.min (y + 1) m) by lia.
Qed.

(** No path joins the corners with fewer than [c] edits. *)
Definition at_least (c : Z) : Prop := ∀ d, path 0 0 d n m → c ≤ d.

Section overlap.
Context (Hn : 0 ≤ n) (Hm : 0 ≤ m).
Context (a b x y u v : Z) (Hfw : path 0 0 a x y) (Hbw : path u v b n m).
Context (Hdiag : x - y = u - v) (Hover : u ≤ x) (Hshort : at_least (a + b)).

(** The furthest point from the origin lies in the rectangle. *)
Lemma overlap_inside : x ≤ n ∧ y ≤ m.
Proof.
  destruct (path_clip _ _ _ _ _ Hfw) as (d & Hp & Hd).
  pose proof (path_diagonal _ _ _ _ _ Hbw) as (t & Ht & E).
  replace (Z.min 0 n) with 0 in Hp by lia. replace (Z.min 0 m) with 0 in Hp by lia.
  assert (Hrest : path (Z.min x n) (Z.min y m) ((n - Z.min x n) + (m - Z.min y m)) n m).
  { eapply path_trans; [apply (path_rights (n - Z.min x n)); lia|]. rewrite Zplus_minus.
    pose proof (path_downs (m - Z.min y m) n (Z.min y m) ltac:(lia)) as H. by rewrite Zplus_minus in H. }
  pose proof (Hshort _ (path_trans _ _ _ _ _ _ _ _ Hp Hrest)). lia.
Qed.

(** The far path continues the near one. *)
Lemma overlap_ends : path x y b n m.
Proof.
  destruct overlap_inside as [Hx Hy].
  destruct (path_start_along (x - u) _ _ _ _ _ ltac:(lia) Hbw) as (b' & Hb' & Hp); [lia..|].
  replace (u + (x - u)) with x in Hp by lia. replace (v + (x - u)) with y in Hp by lia.
  pose proof (Hshort _ (path_trans _ _ _ _ _ _ _ _ Hfw Hp)).
  by replace b with b' by lia.
Qed.

End overlap.

End graph.

(** ** The plane seen from the other corner *)

Definition flip_matches (M : Z → Z → Prop) (n m x y : Z) : Prop := M (n - x - 1) (m - y - 1).

Lemma path_flip M n m x y d x' y' :
  path M x y d x' y' → path (flip_matches M n m) (n - x') (m - y') d (n - x) (m - y).
Proof.
  induction 1.
  - constructor.
  - replace (n - x) with (n - (x + 1) + 1) by lia. by apply path_snoc_right.
  - replace (m - y) with (m - (y + 1) + 1) by lia. by apply path_snoc_down.
  - replace d with (d + 0) by lia. eapply path_trans; [exact IHpath|].
    apply path_keep; [|replace (n - (x + 1) + 1) with (n - x) by lia;
      replace (m - (y + 1) + 1) with (m - y) by lia; constructor].
    unfold flip_matches. by replace (n - (n - (x + 1)) - 1) with x by lia;
      replace (m - (m - (y + 1)) - 1) with y by lia.
Qed.

Lemma path_unflip M n m x y d x' y' :
  path (flip_matches M n m) x y d x' y' → path M (n - x') (m - y') d (n - x) (m - y).
Proof.
  induction 1.
  - constructor.
  - replace (n - x) with (n - (x + 1) + 1) by lia. by apply path_snoc_right.
  - replace (m - y) with (m - (y + 1) + 1) by lia. by apply path_snoc_down.
  - replace d with (d + 0) by lia. eapply path_trans; [exact IHpath|].
    apply path_keep; [|replace (n - (x + 1) + 1) with (n - x) by lia;
      replace (m - (y + 1) + 1) with (m - y) by lia; constructor].
    unfold flip_matches in *. by replace (n - (x + 1)) with (n - x - 1) by lia;
      replace (m - (y + 1)) with (m - y - 1) by lia.
Qed.

Lemma at_least_flip M n m c : at_least M n m c ↔ at_least (flip_matches M n m) n m c.
Proof.
  split; intros H d Hp; apply H.
  - apply path_unflip in Hp. by rewrite !Z.sub_diag, !Z.sub_0_r in Hp.
  - apply (path_flip _ n m) in Hp. by rewrite !Z.sub_diag, !Z.sub_0_r in Hp.
Qed.

Arguments path_bounds {_ _ _ _ _ _} _.
Arguments path_diagonal {_ _ _ _ _ _} _.

(** ** Scripts of a path *)

Notation len l := (Z.of_nat (length l)).

Section script.
Context {A : Type}.

Inductive script : Z → list A → list A → Prop :=
| script_nil : script 0 [] []
| script_delete a d s e : script d s e → script (d + 1) (a :: s) e
| script_insert a d s e : script d s e → script (d + 1) s (a :: e)
| script_keep a d s e : script d s e → script d (a :: s) (a :: e).

Lemma script_bounds d s e : script d s e → 0 ≤ d ∧ d ≤ len s + len e.
Proof. induction 1; simpl; lia. Qed.

Lemma script_app d s e d' s' e' : script d s e → script d' s' e' → script (d + d') (s ++ s') (e ++ e').
Proof.
  induction 1; intros; simpl; [done|..].
  - replace (d + 1 + d') with (d + d' + 1) by lia. constructor; auto.
  - replace (d + 1 + d') with (d + d' + 1) by lia. constructor; auto.
  - constructor; auto.
Qed.

Lemma script_deletes s : script (len s) s [].
Proof.
  induction s as [|a s IH]; simpl; [constructor|].
  replace (Z.of_nat (S (length s))) with (len s + 1) by lia. by constructor.
Qed.
Lemma script_inserts e : script (len e) [] e.
Proof.
  induction e as [|a e IH]; simpl; [constructor|].
  replace (Z.of_nat (S (length e))) with (len e + 1) by lia. by constructor.
Qed.

Lemma script_reverse d s e : script d s e → script d (reverse s) (reverse e).
Proof.
  induction 1 as [|a d s e H IH|a d s e H IH|a d s e H IH]; rewrite ?reverse_cons.
  - constructor.
  - rewrite <- (app_nil_r (reverse e)). apply script_app; [done|]. apply (script_deletes [a]).
  - rewrite <- (app_nil_r (reverse s)). apply script_app; [done|]. apply (script_inserts [a]).
  - replace d with (d + 0) by lia. apply script_app; [done|]. do 2 constructor.
Qed.

(** ** Common subsequences *)

Lemma sublist_script l s e : l `sublist_of` s → l `sublist_of` e → script (len s + len e - 2 * len l) s e.
Proof.
  intros Hs. revert e. induction Hs as [|a l s Hs IH|a l s Hs IH]; intros e He.
  - replace (len [] + len e - 2 * len []) with (len e) by (simpl; lia). apply script_inserts.
  - apply sublist_cons_l in He as (e1 & e2 & -> & He). specialize (IH _ He).
    replace (len (a :: s) + len (e1 ++ a :: e2) - 2 * len (a :: l))
      with (len e1 + (len s + len e2 - 2 * len l)) by (rewrite length_app; simpl; lia).
    apply (script_app _ [] e1); [apply script_inserts|]. by constructor.
  - replace (len (a :: s) + len e - 2 * len l) with (len s + len e - 2 * len l + 1) by (simpl; lia).
    constructor. auto.
Qed.

(** ** The fewest edits *)

(** Keeping [c] lines is the best that any script does. *)
Definition best (s e : list A) (c : Z) : Prop := ∀ d, script d s e → len s + len e - 2 * c ≤ d.

Lemma script_skip_insert d s b e : script d s (b :: e) → ∃ d', d' ≤ d + 1 ∧ script d' s e.
Proof.
  remember (b :: e) as e' eqn:E. intros H. revert E.
  induction H as [|a d s e' H IH|a d s e' H IH|a d s e' H IH]; intros E; [done|..].
  - destruct (IH E) as (d' & ? & ?). exists (d' + 1). split; [lia|]. by constructor.
  - simplify_eq. exists d. split; [lia|done].
  - simplify_eq. exists (d + 1). split; [lia|]. by constructor.
Qed.
Lemma script_skip_delete d a s e : script d (a :: s) e → ∃ d', d' ≤ d + 1 ∧ script d' s e.
Proof.
  remember (a :: s) as s' eqn:E. intros H. revert E.
  induction H as [|b d s' e H IH|b d s' e H IH|b d s' e H IH]; intros E; [done|..].
  - simplify_eq. exists d. split; [lia|done].
  - destruct (IH E) as (d' & ? & ?). exists (d' + 1). split; [lia|]. by constructor.
  - simplify_eq. exists (d + 1). split; [lia|]. by constructor.
Qed.

Lemma script_next d a s b e : script d (a :: s) (b :: e) → ∃ d', d' ≤ d ∧ script d' s e.
Proof.
  inversion 1 as [|? d' ? ? H'|? d' ? ? H'|? ? ? ? H']; subst.
  - destruct (script_skip_insert _ _ _ _ H') as (d'' & ? & ?). exists d''. split; [lia|done].
  - destruct (script_skip_delete _ _ _ _ H') as (d'' & ? & ?). exists d''. split; [lia|done].
  - by exists d.
Qed.

Lemma best_prefix p s e c : best s e c → best (p ++ s) (p ++ e) (len p + c).
Proof.
  intros Hb. induction p as [|a p IH]; simpl; [by replace (0 + c) with c by lia|].
  intros d (d' & Hd & Hs)%script_next. specialize (IH d' Hs). simpl. lia.
Qed.
Lemma best_reverse s e c : best (reverse s) (reverse e) c ↔ best s e c.
Proof.
  split; intros Hb d Hs.
  - apply script_reverse in Hs. specialize (Hb _ Hs). by rewrite !length_reverse in Hb.
  - apply script_reverse in Hs. rewrite !reverse_involutive in Hs. rewrite !length_reverse. auto.
Qed.
Lemma best_suffix p s e c : best s e c → best (s ++ p) (e ++ p) (len p + c).
Proof.
  intros Hb%best_reverse. apply best_reverse. rewrite !reverse_app.
  rewrite <- (length_reverse p). by apply best_prefix.
Qed.

Lemma best_nil_l e : best [] e 0.
Proof.
  intros d Hs. remember [] as s eqn:E. induction Hs; simplify_eq; simpl; [lia|].
  specialize (IHHs eq_refl). simpl in IHHs. lia.
Qed.
Lemma best_nil_r s : best s [] 0.
Proof.
  intros d Hs. remember [] as e eqn:E. induction Hs; simplify_eq; simpl; [lia|].
  specialize (IHHs eq_refl). simpl in IHHs. lia.
Qed.

(** ** Scripts are paths *)

(** The two texts match at [(x, y)]. *)
Definition matches (s e : list A) (x y : Z) : Prop :=
  0 ≤ x ∧ 0 ≤ y ∧ ∃ a, s !! Z.to_nat x = Some a ∧ e !! Z.to_nat y = Some a.

Lemma matches_inside s e x y : matches s e x y → 0 ≤ x < len s ∧ 0 ≤ y < len e.
Proof. intros (Hx & Hy & a & H1%lookup_lt_Some & H2%lookup_lt_Some). lia. Qed.

(** The elements from [x] up to [x']. *)
Definition segment (x x' : Z) (s : list A) : list A := take (Z.to_nat (x' - x)) (drop (Z.to_nat x) s).

Lemma segment_empty x s : segment x x s = [].
Proof. unfold segment. by rewrite Z.sub_diag. Qed.
Lemma segment_cons x x' s a :
  0 ≤ x < x' → s !! Z.to_nat x = Some a → segment x x' s = a :: segment (x + 1) x' s.
Proof.
  intros Hx Ha. unfold segment. rewrite (drop_S _ _ _ Ha).
  replace (Z.to_nat (x' - x)) with (S (Z.to_nat (x' - (x + 1)))) by lia. simpl.
  by replace (S (Z.to_nat x)) with (Z.to_nat (x + 1)) by lia.
Qed.
Lemma segment_from_start x s : segment 0 x s = take (Z.to_nat x) s.
Proof. unfold segment. by rewrite Z.sub_0_r. Qed.
Lemma segment_to_end x s : segment x (len s) s = drop (Z.to_nat x) s.
Proof. unfold segment. apply take_ge. rewrite length_drop. lia. Qed.

Lemma path_script s e x y d x' y' :
  path (matches s e) x y d x' y' → 0 ≤ x → 0 ≤ y → x' ≤ len s → y' ≤ len e →
  script d (segment x x' s) (segment y y' e).
Proof.
  induction 1 as [x y|x y d x' y' H IH|x y d x' y' H IH|x y d x' y' HM H IH];
    intros Hx Hy Hs He; try pose proof (path_bounds H).
  - rewrite !segment_empty. constructor.
  - destruct (lookup_lt_is_Some_2 s (Z.to_nat x)) as [a Ha]; [lia|].
    rewrite (segment_cons x x' s a); [|lia|done]. constructor. apply IH; lia.
  - destruct (lookup_lt_is_Some_2 e (Z.to_nat y)) as [a Ha]; [lia|].
    rewrite (segment_cons y y' e a); [|lia|done]. constructor. apply IH; lia.
  - destruct HM as (_ & _ & a & Hsa & Hea).
    rewrite (segment_cons x x' s a), (segment_cons y y' e a) by (done || lia).
    constructor. apply IH; lia.
Qed.

Lemma script_path_at s e d s' e' (x y : nat) :
  script d s' e' → s' = drop x s → e' = drop y e → (x ≤ length s)%nat → (y ≤ length e)%nat →
  path (matches s e) (Z.of_nat x) (Z.of_nat y) d (len s) (len e).
Proof.
  assert (Hd : ∀ (l l' : list A) a (i : nat), a :: l' = drop i l →
    l !! i = Some a ∧ l' = drop (S i) l ∧ (S i ≤ length l)%nat).
  { intros l l' a i E. assert (Ha : l !! i = Some a) by (by rewrite <- (Nat.add_0_r i), <- lookup_drop, <- E).
    split; [done|]. pose proof (lookup_lt_Some _ _ _ Ha). rewrite (drop_S _ _ _ Ha) in E.
    by simplify_eq. }
  intros H. revert x y.
  induction H as [|a d s' e' H IH|a d s' e' H IH|a d s' e' H IH]; intros x y Es Ee Hx Hy.
  - apply (f_equal length) in Es, Ee. rewrite length_drop in Es, Ee. simpl in *.
    replace x with (length s) by lia. replace y with (length e) by lia. constructor.
  - apply Hd in Es as (_ & Es & Hx'). apply path_right.
    replace (Z.of_nat x + 1) with (Z.of_nat (S x)) by lia. by apply IH.
  - apply Hd in Ee as (_ & Ee & Hy'). apply path_down.
    replace (Z.of_nat y + 1) with (Z.of_nat (S y)) by lia. by apply IH.
  - apply Hd in Es as (Hsa & Es & Hx'). apply Hd in Ee as (Hea & Ee & Hy'). apply path_keep.
    + split; [lia|]. split; [lia|]. exists a. by rewrite !Nat2Z.id.
    + replace (Z.of_nat x + 1) with (Z.of_nat (S x)) by lia.
      replace (Z.of_nat y + 1) with (Z.of_nat (S y)) by lia. by apply IH.
Qed.

Lemma script_path s e d : script d s e → path (matches s e) 0 0 d (len s) (len e).
Proof. intros H. apply (script_path_at s e d s e 0 0); simpl; [done..|lia|lia]. Qed.

(** The fewest edits, seen in the graph. *)
Lemma at_least_script s e c :
  at_least (matches s e) (len s) (len e) c → ∀ d, script d s e → c ≤ d.
Proof. intros H d Hs. by apply H, script_path. Qed.

End script.
