(* ===== verification/LineDiffSnake.v ===== *)
(** * The middle snake: theorems

    [middle_snake] never panics, never reaches its [unreachable!] and returns
    a diagonal run of a shortest edit script: an optimal path comes before
    it and an optimal path follows it. *)

From Stdlib Require Import ZArith Lia.
From stdpp Require Import base list option numbers.
From S2P Require Import Prelude LineDiff EditGraph.
Import Myers.

Local Open Scope Z_scope.

(** ** Vectors *)

Lemma get_inside {A : Type} (v : list A) i : 0 ≤ i < Z.of_nat (length v) → ∃ x, get v i = Some x.
Proof.
  intros Hi. unfold get. replace (i <? 0) with false by (symmetry; apply Z.ltb_ge; lia).
  apply lookup_lt_is_Some_2. lia.
Qed.

Lemma set_inside {A : Type} (v : list A) i x :
  0 ≤ i < Z.of_nat (length v) →
  set v i x = Some (<[Z.to_nat i := x]> v).
Proof.
  intros Hi. unfold set.
  replace ((0 <=? i) && (i <? Z.of_nat (length v))) with true; [done|].
  symmetry. apply andb_true_iff. split; [apply Z.leb_le; lia|apply Z.ltb_lt; lia].
Qed.

Lemma get_insert {A : Type} (v : list A) i j x :
  0 ≤ i < Z.of_nat (length v) → 0 ≤ j →
  get (<[Z.to_nat i := x]> v) j = if decide (i = j) then Some x else get v j.
Proof.
  intros Hi Hj. unfold get. replace (j <? 0) with false by (symmetry; apply Z.ltb_ge; lia).
  case_decide as E; [subst; apply list_lookup_insert_eq; lia|].
  apply list_lookup_insert_ne. lia.
Qed.

(** ** What a returned snake promises *)

Section snake_spec.
Context (M : Z → Z → Prop) (n m : Z).

Definition snake_ok (x y u v : Z) : Prop :=
  (0 ≤ x ≤ u ∧ u ≤ n) ∧ (0 ≤ y ∧ v ≤ m) ∧ u - x = v - y ∧ run M x y (u - x)
  ∧ ∃ a b, path M 0 0 a x y ∧ path M u v b n m ∧ at_least M n m (a + b) ∧ a - 1 ≤ b ≤ a + 1.

Lemma furthest_unique d k x x' : furthest M d k x → furthest M d k x' → x = x'.
Proof. intros [H1 H2] [H3 H4]. pose proof (H2 _ H3). pose proof (H4 _ H1). lia. Qed.

Context (HM : ∀ x y, M x y → 0 ≤ x < n ∧ 0 ≤ y < m) (Hn : 0 ≤ n) (Hm : 0 ≤ m).

(** Furthest paths that overlap, when no path is shorter than both, are the
    two halves of a shortest path. *)
Lemma overlap_snake a b k x0 x rx :
  a - 1 ≤ b ≤ a + 1 → slid M k x0 x → path M 0 0 a x0 (x0 - k) →
  path (flip_matches M n m) 0 0 b rx (rx - (n - m - k)) → n ≤ x + rx → at_least M n m (a + b) →
  snake_ok x0 (x0 - k) x (x - k).
Proof.
  intros Hab (Hle & Hrun & _) Hp Hr Hover Hshort.
  pose proof (path_bounds Hp) as (_ & Hx0 & Hy0 & _).
  apply path_unflip in Hr. rewrite !Z.sub_0_r in Hr.
  replace (m - (rx - (n - m - k))) with (n - rx - k) in Hr by lia.
  assert (Hfw : path M 0 0 a x (x - k)).
  { replace a with (a + 0) by lia. eapply path_trans; [exact Hp|].
    pose proof (path_run M (x - x0) x0 (x0 - k) ltac:(lia) Hrun) as H.
    by replace (x0 + (x - x0)) with x in H by lia;
      replace (x0 - k + (x - x0)) with (x - k) in H by lia. }
  assert (x ≤ n ∧ x - k ≤ m) by (eapply (overlap_inside M n m); (done || lia)).
  assert (path M x (x - k) b n m) by (eapply (overlap_ends M n m); (done || lia)).
  repeat split; try lia; [done|]. by exists a, b.
Qed.

(** Furthest paths that meet nowhere leave no path of their lengths' sum. *)
Lemma not_met a b :
  0 ≤ a → 0 ≤ b →
  (∀ k x, path M 0 0 a x (x - k) → ∃ X, furthest M a k X) →
  (∀ k x, path (flip_matches M n m) 0 0 b x (x - k) → ∃ X, furthest (flip_matches M n m) b k X) →
  (∀ k X Y, furthest M a k X → furthest (flip_matches M n m) b (n - m - k) Y → X + Y < n) →
  ¬ path M 0 0 (a + b) n m.
Proof.
  intros Ha Hb Hfw Hbw Hno Hp.
  destruct (path_split _ a _ _ _ _ _ Hp ltac:(lia)) as (x & y & H1 & H2).
  apply (path_flip _ n m) in H2. rewrite !Z.sub_diag in H2. replace (a + b - a) with b in H2 by lia.
  replace y with (x - (x - y)) in H1 by lia.
  replace (m - y) with ((n - x) - (n - m - (x - y))) in H2 by lia.
  destruct (Hfw _ _ H1) as (X & HX). destruct (Hbw _ _ H2) as (Y & HY).
  pose proof (Hno _ _ _ HX HY). pose proof (proj2 HX _ H1). pose proof (proj2 HY _ H2). lia.
Qed.

End snake_spec.

Lemma snake_flip M n m x y u v :
  snake_ok (flip_matches M n m) n m x y u v → snake_ok M n m (n - u) (m - v) (n - x) (m - y).
Proof.
  intros (Hx & Hy & E & Hr & a & b & Ha & Hb & Hs & Hab). repeat split; try lia.
  - intros i Hi. specialize (Hr (u - x - 1 - i) ltac:(lia)). unfold flip_matches in Hr.
    by replace (n - (x + (u - x - 1 - i)) - 1) with (n - u + i) in Hr by lia;
      replace (m - (y + (u - x - 1 - i)) - 1) with (m - v + i) in Hr by lia.
  - apply path_unflip in Ha, Hb. rewrite !Z.sub_0_r in Ha. rewrite !Z.sub_diag in Hb.
    exists b, a. do 2 (split; [done|]). split; [|lia]. apply at_least_flip. by replace (b + a) with (a + b) by lia.
Qed.

Lemma path_flip_twice M n m x y d x' y' :
  path M x y d x' y' → path (flip_matches (flip_matches M n m) n m) x y d x' y'.
Proof.
  intros H%(path_flip _ n m)%(path_flip _ n m).
  assert (E : ∀ a b, a - (a - b) = b) by lia. by rewrite !E in H.
Qed.

Lemma flip_inside M n m :
  (∀ x y, M x y → 0 ≤ x < n ∧ 0 ≤ y < m) →
  ∀ x y, flip_matches M n m x y → 0 ≤ x < n ∧ 0 ≤ y < m.
Proof. intros H x y Hf. specialize (H _ _ Hf). lia. Qed.

(** ** The search *)

Section search.
Context {A : Type} `{EqDecision A} (source edited : list A).

Notation n := (Myers.n source).
Notation m := (Myers.m edited).
Notation offset := (Myers.offset source edited).
Notation width := (Myers.width source edited).
Notation max := (Z.of_nat (Myers.max source edited)).

(** The side of the search: from the origin, or from the far corner. *)
Section side.
Context (M : Z → Z → Prop) (HM : ∀ x y, M x y → 0 ≤ x < n ∧ 0 ≤ y < m).
Context (same : Z → Z → option bool).
Context (Hsame : ∀ x y, 0 ≤ x < n → 0 ≤ y < m → ∃ b : bool, same x y = Some b ∧ (b = true ↔ M x y)).

(** The loop [while x < n && y < m && same] ends where nothing matches. *)
Lemma slide_spec fuel k x :
  0 ≤ x → 0 ≤ x - k → n - x ≤ Z.of_nat fuel →
  ∃ x', slide source edited same fuel x (x - k) = Some (x', x' - k) ∧ slid M k x x'.
Proof.
  revert x. induction fuel as [|fuel IH]; intros x Hx Hy Hf; simpl.
  - exists x. split; [done|]. split; [lia|]. split; [intros i; lia|]. intros Hm%HM. lia.
  - assert (Hstop : ¬ M x (x - k) → ∃ x', Some (x, x - k) = Some (x', x' - k) ∧ slid M k x x').
    { intros Hn. exists x. split; [done|]. split; [lia|]. split; [intros i; lia|done]. }
    destruct (x <? n) eqn:E1; simpl; [|apply Z.ltb_ge in E1; apply Hstop; intros ?%HM; lia].
    destruct (x - k <? m) eqn:E2; [|apply Z.ltb_ge in E2; apply Hstop; intros ?%HM; lia].
    apply Z.ltb_lt in E1, E2. destruct (Hsame x (x - k)) as (b & -> & Hb); [lia..|]. simpl.
    destruct b; [|apply Hstop; intros Hm; by apply Hb in Hm].
    destruct (IH (x + 1)) as (x' & Hx' & Hle & Hr & Hn'); [lia..|].
    replace (x - k + 1) with (x + 1 - k) by lia. exists x'. split; [done|]. split; [lia|].
    split; [|done]. intros i Hi. destruct (Z.eq_dec i 0) as [->|Hi0].
    + rewrite !Z.add_0_r. by apply Hb.
    + specialize (Hr (i - 1) ltac:(lia)). by replace (x + 1 + (i - 1)) with (x + i) in Hr by lia;
        replace (x + 1 - k + (i - 1)) with (x - k + i) in Hr by lia.
Qed.

(** The vector holds the furthest point of diagonal [k]. *)
Definition vector_at (v : list Z) (d k : Z) : Prop :=
  ∃ x, get v (k + offset) = Some x ∧ furthest M d k x.
Definition on_grid (d k : Z) : Prop := ∃ t, 0 ≤ t ≤ d ∧ k = d - 2 * t.

(** All the diagonals of depth [d] are done; those below [k] are done while
    the others still hold depth [d - 1]. *)
Definition filled (d : Z) (v : list Z) : Prop :=
  length v = width ∧ ∀ k, on_grid d k → vector_at v d k.
Definition partly (d k : Z) (v : list Z) : Prop :=
  length v = width ∧ (d = 0 → k ≤ 0 → v = replicate width 0)
  ∧ (∀ j, on_grid d j → j < k → vector_at v d j)
  ∧ (∀ j, on_grid (d - 1) j → vector_at v (d - 1) j).

Lemma partly_start d v :
  filled (d - 1) v → (d = 0 → v = replicate width 0) → partly d (- d) v.
Proof.
  intros [Hl Hf] Hr. split; [done|]. split; [auto|]. split; [|done].
  intros j (t & Ht & ->). lia.
Qed.
Lemma partly_end d k v : d < k → partly d k v → filled d v.
Proof.
  intros Hk (Hl & _ & Hd & _). split; [done|]. intros j Hj. apply Hd; [done|].
  destruct Hj as (t & Ht & ->). lia.
Qed.

Lemma path_on_grid d k x : path M 0 0 d x (x - k) → on_grid d k.
Proof. intros Hp. destruct (path_diagonal Hp) as (t & Ht & E). exists t. lia. Qed.

Lemma filled_furthest d v k x : filled d v → path M 0 0 d x (x - k) → ∃ X, furthest M d k X.
Proof.
  intros [_ Hf] Hp%path_on_grid. destruct (Hf _ Hp) as (X & _ & HX). by exists X.
Qed.

Context (d k : Z) (Hd : 0 ≤ d ≤ max) (Hk : on_grid d k).

Lemma index_inside j : - d - 1 ≤ j ≤ d + 1 → 0 ≤ j + offset < Z.of_nat width.
Proof. unfold Myers.offset, Myers.width. lia. Qed.

(** One more edit than the neighbours: where the snake of [k] starts. *)
Lemma start_x_spec v :
  partly d k v →
  ∃ x, start_x source edited v d k = Some x ∧ path M 0 0 d x (x - k) ∧ (d = 0 → x = 0)
    ∧ (∀ x1, 0 < d → path M 0 0 (d - 1) x1 (x1 - (k - 1)) → x1 + 1 ≤ x)
    ∧ (∀ x1, 0 < d → path M 0 0 (d - 1) x1 (x1 - (k + 1)) → x1 ≤ x).
Proof.
  intros (Hl & Hz & _ & Hold). destruct Hk as (t & Ht & Ek). unfold start_x.
  assert (Hleft : t < d → ∃ a, get v (k + offset - 1) = Some a ∧ furthest M (d - 1) (k - 1) a).
  { intros Hlt. destruct (Hold (k - 1)) as (a & Ha & Hf); [exists t; lia|].
    exists a. by replace (k + offset - 1) with (k - 1 + offset) by lia. }
  assert (Hright : 0 < t → ∃ b, get v (k + offset + 1) = Some b ∧ furthest M (d - 1) (k + 1) b).
  { intros Hlt. destruct (Hold (k + 1)) as (b & Hb & Hf); [exists (t - 1); lia|].
    exists b. by replace (k + offset + 1) with (k + 1 + offset) by lia. }
  assert (Hnl : t = d → ∀ x, ¬ path M 0 0 (d - 1) x (x - (k - 1))).
  { intros -> x (t' & ? & ?)%path_on_grid. lia. }
  assert (Hnr : t = 0 → ∀ x, ¬ path M 0 0 (d - 1) x (x - (k + 1))).
  { intros -> x (t' & ? & ?)%path_on_grid. lia. }
  assert (Hdown : ∀ b, furthest M (d - 1) (k + 1) b → path M 0 0 d b (b - k)).
  { intros b [Hp _]. apply path_snoc_down in Hp. by replace (d - 1 + 1) with d in Hp by lia;
      replace (b - (k + 1) + 1) with (b - k) in Hp by lia. }
  assert (Hstep : ∀ a, furthest M (d - 1) (k - 1) a → path M 0 0 d (a + 1) (a + 1 - k)).
  { intros a [Hp _]. apply path_snoc_right in Hp. by replace (d - 1 + 1) with d in Hp by lia;
      replace (a - (k - 1)) with (a + 1 - k) in Hp by lia. }
  destruct (Z.eqb_spec k (- d)) as [E|E].
  - destruct (Z.eq_dec d 0) as [E0|E0].
    + exists 0. replace k with 0 by lia. rewrite (Hz E0) by lia. split.
      * unfold get. replace (0 + offset + 1 <? 0) with false
          by (symmetry; apply Z.ltb_ge; unfold Myers.offset; lia).
        apply lookup_replicate_2. unfold Myers.offset, Myers.width. lia.
      * rewrite E0. split; [constructor|]. split; [done|]. split; intros; lia.
    + destruct Hright as (b & -> & Hb); [lia|]. exists b. split; [done|]. split; [auto|].
      split; [lia|]. split; intros x1 _ Hp; [|by apply Hb].
      exfalso. eapply Hnl; [lia|done].
  - destruct (Z.eqb_spec k d) as [E'|E']; simpl; destruct Hleft as (a & -> & Ha); try lia; simpl.
    + exists (a + 1). split; [done|]. split; [auto|]. split; [lia|]. split; intros x1 _ Hp.
      * pose proof (proj2 Ha _ Hp). lia.
      * exfalso. eapply Hnr; [lia|done].
    + destruct Hright as (b & Eb & Hb); [lia|]. rewrite Eb. simpl.
      destruct (Z.ltb_spec a b).
      * exists b. split; [done|]. split; [auto|]. split; [lia|].
        split; intros x1 _ Hp; [pose proof (proj2 Ha _ Hp)|pose proof (proj2 Hb _ Hp)]; lia.
      * exists (a + 1). split; [done|]. split; [auto|]. split; [lia|].
        split; intros x1 _ Hp; [pose proof (proj2 Ha _ Hp)|pose proof (proj2 Hb _ Hp)]; lia.
Qed.

(** A round advances the vector: what both rounds do before they look for
    an overlap. *)
Lemma advance v :
  partly d k v →
  ∃ x0 x v', start_x source edited v d k = Some x0
    ∧ slide source edited same (Z.to_nat (n - x0)) x0 (x0 - k) = Some (x, x - k)
    ∧ set v (k + offset) x = Some v'
    ∧ slid M k x0 x ∧ path M 0 0 d x0 (x0 - k) ∧ furthest M d k x ∧ partly d (k + 2) v'.
Proof.
  intros Hv. destruct (start_x_spec _ Hv) as (x0 & E0 & Hp & Hx0 & Hr & Hdn).
  pose proof (path_bounds Hp) as (_ & Hge & Hge' & _).
  destruct (slide_spec (Z.to_nat (n - x0)) k x0) as (x & Es & Hs); [lia..|].
  destruct Hv as (Hl & Hz & Hnew & Hold). pose proof Hk as (t & Ht & Ek).
  pose proof (index_inside k ltac:(lia)) as Hi.
  assert (Hf : furthest M d k x).
  { destruct (Z.eq_dec d 0) as [Ed|Ed].
    - rewrite (Hx0 Ed) in Hs. rewrite Ed. replace k with 0 in * by lia. by apply furthest_0.
    - eapply furthest_step; [|done..|intros; by apply Hr; [lia|]|intros; by apply Hdn; [lia|]]. lia. }
  exists x0, x, (<[Z.to_nat (k + offset) := x]> v). rewrite set_inside by (rewrite Hl; lia).
  do 3 (split; [done|]). do 3 (split; [done|]). split; [by rewrite length_insert|].
  split; [intros; lia|]. split.
  - intros j Hj Hlt. pose proof Hj as (t' & Ht' & Ej). destruct (Z.eq_dec j k) as [->|Hne].
    + exists x. rewrite get_insert, decide_True by (done || rewrite ?Hl; lia). done.
    + destruct (Hnew j) as (X & HX & HfX); [done|lia|]. exists X.
      rewrite get_insert, decide_False by (rewrite ?Hl; pose proof (index_inside j ltac:(lia)); lia). done.
  - intros j Hj. pose proof Hj as (t' & Ht' & Ej). destruct (Hold j Hj) as (X & HX & HfX). exists X.
    rewrite get_insert, decide_False by (rewrite ?Hl; pose proof (index_inside j ltac:(lia)); lia). done.
Qed.

End side.

Notation M := (matches source edited).
Notation M' := (flip_matches M n m).

Lemma get_bool (v w : list A) i j :
  0 ≤ i < Z.of_nat (length v) → 0 ≤ j < Z.of_nat (length w) →
  ∃ b : bool, (a ← get v i; c ← get w j; Some (bool_decide (a = c))) = Some b
    ∧ (b = true ↔ ∃ a, v !! Z.to_nat i = Some a ∧ w !! Z.to_nat j = Some a).
Proof.
  intros Hi Hj. destruct (get_inside v i Hi) as (a & Ea). destruct (get_inside w j Hj) as (c & Ec).
  rewrite Ea, Ec. simpl. eexists. split; [done|]. rewrite bool_decide_eq_true.
  unfold get in Ea, Ec. replace (i <? 0) with false in Ea by (symmetry; apply Z.ltb_ge; lia).
  replace (j <? 0) with false in Ec by (symmetry; apply Z.ltb_ge; lia). rewrite Ea, Ec. naive_solver.
Qed.

Lemma same_forward_spec x y :
  0 ≤ x < n → 0 ≤ y < m → ∃ b : bool, same_forward source edited x y = Some b ∧ (b = true ↔ M x y).
Proof.
  intros Hx Hy. destruct (get_bool source edited x y Hx Hy) as (b & E & Hb). exists b. split; [done|].
  rewrite Hb. unfold matches. naive_solver lia.
Qed.
Lemma same_backward_spec x y :
  0 ≤ x < n → 0 ≤ y < m → ∃ b : bool, same_backward source edited x y = Some b ∧ (b = true ↔ M' x y).
Proof.
  unfold same_backward, flip_matches, matches. intros Hx Hy.
  destruct (get_bool source edited (n - x - 1) (m - y - 1)) as (b & E & Hb);
    [unfold Myers.n in *; lia|unfold Myers.m in *; lia|]. exists b. split; [done|].
  rewrite Hb. naive_solver lia.
Qed.

Lemma odd_spec : odd source edited = true ↔ ∃ j, n - m = 2 * j + 1.
Proof.
  unfold odd, delta. rewrite negb_true_iff, Z.eqb_neq. split.
  - intros Ho. exists ((n - m) / 2). Z.to_euclidean_division_equations. lia.
  - intros (j & E). rewrite E. Z.to_euclidean_division_equations. lia.
Qed.

Definition good (x y u v : nat) : Prop :=
  snake_ok M n m (Z.of_nat x) (Z.of_nat y) (Z.of_nat u) (Z.of_nat v).

Lemma found_good x y u v :
  snake_ok M n m x y u v → ∃ x' y' u' v', found x y u v = Some (Found x' y' u' v') ∧ good x' y' u' v'.
Proof.
  intros Hs. pose proof Hs as (Hx & Hy & E & _). unfold found, as_usize.
  assert (Hz : ∀ z, 0 ≤ z → (z <? 0) = false) by (intros; apply Z.ltb_ge; lia).
  rewrite !Hz by lia. simpl. eexists _, _, _, _. split; [done|].
  unfold good. by rewrite !Z2Nat.id by lia.
Qed.

(** The shortest paths that no smaller depth excludes, by parity. *)
Definition excluded (d : Z) : Prop :=
  (odd source edited = true → at_least M n m (2 * d - 1))
  ∧ (odd source edited = false → at_least M n m (2 * d)).

Lemma sides_inside :
  (∀ x y, M x y → 0 ≤ x < n ∧ 0 ≤ y < m) ∧ (∀ x y, M' x y → 0 ≤ x < n ∧ 0 ≤ y < m)
  ∧ 0 ≤ n ∧ 0 ≤ m.
Proof.
  assert (HM : ∀ x y, M x y → 0 ≤ x < n ∧ 0 ≤ y < m) by apply matches_inside.
  split; [done|]. split; [by apply flip_inside|]. unfold Myers.n, Myers.m. lia.
Qed.

Context (d : Z) (Hd : 0 ≤ d ≤ max) (Hex : excluded d).

(** What a round has shown of its diagonal when it goes on. *)
Definition forward_passed (k : Z) : Prop :=
  odd source edited = true →
  ∀ X Y, furthest M d k X → furthest M' (d - 1) (n - m - k) Y → X + Y < n.
Definition backward_passed (k : Z) : Prop :=
  odd source edited = false →
  ∀ X Y, furthest M' d k X → furthest M d (n - m - k) Y → X + Y < n.

Lemma forward_round_spec f b k :
  on_grid d k → partly M d k f → filled M' (d - 1) b →
  (∃ x y u v, forward_round source edited f b d k = Some (Found x y u v) ∧ good x y u v)
  ∨ (∃ f', forward_round source edited f b d k = Some (GoOn f') ∧ partly M d (k + 2) f' ∧ forward_passed k).
Proof.
  intros Hk Hf [Hlb Hb]. destruct sides_inside as (HM & HM' & Hn & Hm).
  destruct (advance M HM _ same_forward_spec d k Hd Hk f Hf)
    as (x0 & x & f' & E0 & Es & Ef & Hs & Hp & Hfur & Hf'). unfold forward_round.
  rewrite E0. simpl. rewrite Es. simpl. rewrite Ef. simpl. unfold delta.
  destruct (odd source edited && (- d <? n - m - k) && (n - m - k <? d)) eqn:Ec.
  - apply andb_true_iff in Ec as [[Eo E1]%andb_true_iff E2]. apply Z.ltb_lt in E1, E2.
    destruct (Hb (n - m - k)) as (rx & Er & Hrx).
    { destruct Hk as (t & Ht & ->). apply odd_spec in Eo as (j & Ej). exists (d - 1 - j - t). lia. }
    rewrite Er. simpl. destruct (n <=? x + rx) eqn:Eo'.
    + left. apply Z.leb_le in Eo'. apply found_good. apply (overlap_snake M n m HM Hn Hm d (d - 1) k x0 x rx); [lia|done|done|apply Hrx|done|].
      replace (d + (d - 1)) with (2 * d - 1) by lia. by apply Hex.
    + right. exists f'. do 2 (split; [done|]). apply Z.leb_gt in Eo'. intros _ X Y HX HY.
      rewrite (furthest_unique _ _ _ _ _ HX Hfur), (furthest_unique _ _ _ _ _ HY Hrx). lia.
  - right. exists f'. do 2 (split; [done|]). intros Eo X Y HX [HY _].
    apply path_on_grid in HY as (t & Ht & E). rewrite Eo in Ec. simpl in Ec.
    apply andb_false_iff in Ec as [Ec|Ec]; apply Z.ltb_ge in Ec; lia.
Qed.

Lemma backward_round_spec f b k :
  on_grid d k → partly M' d k b → filled M d f →
  (∃ x y u v, backward_round source edited f b d k = Some (Found x y u v) ∧ good x y u v)
  ∨ (∃ b', backward_round source edited f b d k = Some (GoOn b') ∧ partly M' d (k + 2) b' ∧ backward_passed k).
Proof.
  intros Hk Hb [Hlf Hf]. destruct sides_inside as (HM & HM' & Hn & Hm).
  destruct (advance M' HM' _ same_backward_spec d k Hd Hk b Hb)
    as (x0 & x & b' & E0 & Es & Eb & Hs & Hp & Hfur & Hb'). unfold backward_round.
  rewrite E0. simpl. rewrite Es. simpl. rewrite Eb. simpl. unfold delta.
  destruct (negb (odd source edited) && (- d <=? n - m - k) && (n - m - k <=? d)) eqn:Ec.
  - apply andb_true_iff in Ec as [[Eo E1]%andb_true_iff E2]. apply Z.leb_le in E1, E2.
    apply negb_true_iff in Eo. destruct (Hf (n - m - k)) as (fx & Er & Hfx).
    { destruct Hk as (t & Ht & ->).
      assert (Hev : ∃ j, n - m = 2 * j).
      { destruct (Z.Even_or_Odd (n - m)) as [[j Hj]|[j Hj]]; [by exists j|].
        exfalso. rewrite (proj2 odd_spec) in Eo; [done|]. by exists j. }
      destruct Hev as (j & Ej). exists (d - j - t). lia. }
    rewrite Er. simpl. destruct (n <=? x + fx) eqn:Eo'.
    + left. apply Z.leb_le in Eo'. apply found_good. apply snake_flip.
      apply (overlap_snake M' n m HM' Hn Hm d d k x0 x fx); [lia|done|done| | |].
      * by apply path_flip_twice, Hfx.
      * done.
      * replace (d + d) with (2 * d) by lia. apply (proj1 (at_least_flip M n m _)). by apply Hex.
    + right. exists b'. do 2 (split; [done|]). apply Z.leb_gt in Eo'. intros _ X Y HX HY.
      rewrite (furthest_unique _ _ _ _ _ HX Hfur), (furthest_unique _ _ _ _ _ HY Hfx). lia.
  - right. exists b'. do 2 (split; [done|]). intros Eo X Y HX [HY _].
    apply path_on_grid in HY as (t & Ht & E). rewrite Eo in Ec. simpl in Ec.
    apply andb_false_iff in Ec as [Ec|Ec]; apply Z.leb_gt in Ec; lia.
Qed.

(** A scan of all the diagonals finds a snake or passes each of them. *)
Lemma scan_spec round (side : Z → Z → Prop) (passed : Z → Prop) v0 :
  (∀ k v, on_grid d k → partly side d k v →
    (∃ x y u w, round v d k = Some (Found x y u w) ∧ good x y u w)
    ∨ (∃ v', round v d k = Some (GoOn v') ∧ partly side d (k + 2) v' ∧ passed k)) →
  partly side d (- d) v0 →
  (∃ x y u w, scan round (Z.to_nat d + 2) v0 d (- d) = Some (Found x y u w) ∧ good x y u w)
  ∨ (∃ v, scan round (Z.to_nat d + 2) v0 d (- d) = Some (GoOn v) ∧ filled side d v
       ∧ ∀ k, on_grid d k → passed k).
Proof.
  intros Hround.
  enough (Hgen : ∀ fuel k v, (∃ t, 0 ≤ t ≤ d + 1 ∧ k = 2 * t - d) → d + 2 - k < 2 * Z.of_nat fuel →
    partly side d k v → (∀ j, on_grid d j → j < k → passed j) →
    (∃ x y u w, scan round fuel v d k = Some (Found x y u w) ∧ good x y u w)
    ∨ (∃ v', scan round fuel v d k = Some (GoOn v') ∧ filled side d v' ∧ ∀ j, on_grid d j → passed j)).
  { intros Hp. apply Hgen; [exists 0; lia|lia|done|]. intros j (t & Ht & ->). lia. }
  induction fuel as [|fuel IH]; intros k v (t & Ht & Ek) Hfuel Hp Hdone; [lia|]. simpl.
  destruct (Z.leb_spec k d) as [Hle|Hgt].
  - destruct (Hround k v) as [(x & y & u & w & -> & Hg)|(v' & -> & Hp' & Hk)]; [exists (d - t); lia|done|..].
    + left. simpl. by eexists _, _, _, _.
    + simpl. apply IH; [exists (t + 1); lia|lia|done|]. intros j Hj Hlt.
      destruct (Z.eq_dec j k) as [->|Hne]; [done|]. apply Hdone; [done|].
      destruct Hj as (t' & Ht' & ->). lia.
  - right. exists v. split; [done|]. split; [by eapply partly_end|].
    intros j Hj. apply Hdone; [done|]. destruct Hj as (t' & Ht' & ->). lia.
Qed.

(** When both scans go on, the next depth's paths are excluded too. *)
Lemma excluded_next f b0 b :
  filled M d f → filled M' (d - 1) b0 → filled M' d b →
  (∀ k, on_grid d k → forward_passed k) → (∀ k, on_grid d k → backward_passed k) →
  excluded (d + 1).
Proof.
  intros Hf Hb0 Hb Hfp Hbp. destruct Hex as [Ho He]. split; intros Eo.
  - intros d' Hp. pose proof (Ho Eo _ Hp) as Hge.
    pose proof (path_diagonal Hp) as (t & Ht & E). pose proof (proj1 odd_spec Eo) as (j & Ej).
    enough (d' ≠ 2 * d - 1) by lia. intros ->. apply (not_met M n m d (d - 1)); [lia|lia|..].
    + intros k x. by apply filled_furthest with f.
    + intros k x. by apply filled_furthest with b0.
    + intros k X Y HX. apply Hfp; [|done|done]. by eapply path_on_grid, HX.
    + by replace (d + (d - 1)) with (2 * d - 1) by lia.
  - intros d' Hp. pose proof (He Eo _ Hp) as Hge.
    pose proof (path_diagonal Hp) as (t & Ht & E).
    assert (Hne : n - m ≠ 2 * (d - t) + 1).
    { intros Ej. rewrite (proj2 odd_spec) in Eo; [done|]. by exists (d - t). }
    assert (Hno : ∀ j, n - m ≠ 2 * j + 1).
    { intros j Ej. rewrite (proj2 odd_spec) in Eo; [done|]. by exists j. }
    enough (d' ≠ 2 * d) by (specialize (Hno (d - t)); lia). intros ->.
    apply (not_met M n m d d); [lia|lia|..].
    + intros k x. by apply filled_furthest with f.
    + intros k x. by apply filled_furthest with b.
    + intros k X Y HX HY. pose proof (path_on_grid _ _ _ _ (proj1 HY)) as Hg.
      rewrite Z.add_comm. eapply (Hbp _ Hg Eo); [done|].
      by replace (n - m - (n - m - k)) with k by lia.
    + by replace (d + d) with (2 * d) by lia.
Qed.

End search.

Section middle_snake.
Context {A : Type} `{EqDecision A} (source edited : list A).

Notation n := (Myers.n source).
Notation m := (Myers.m edited).
Notation M := (matches source edited).
Notation M' := (flip_matches M n m).

Lemma excluded_0 : excluded source edited 0.
Proof.
  split; intros Eo d Hp; pose proof (path_bounds Hp); lia.
Qed.

(** The shortest path is no longer than both texts, so the last depth
    excludes everything. *)
Lemma not_all_excluded : ¬ excluded source edited (Z.of_nat (max source edited) + 1).
Proof.
  intros [Ho He].
  assert (Hp : path M 0 0 (n + m) n m).
  { apply script_path. rewrite <- (app_nil_r source) at 2. rewrite <- (app_nil_l edited) at 2.
    apply script_app; [apply script_deletes|apply script_inserts]. }
  unfold max in *. assert (0 ≤ n ∧ 0 ≤ m) by (unfold n, m; lia).
  assert (Hmax : n + m ≤ 2 * Z.of_nat (Z.to_nat ((n + m + 1) / 2))).
  { rewrite Z2Nat.id; Z.to_euclidean_division_equations; lia. }
  destruct (odd source edited); [specialize (Ho eq_refl _ Hp)|specialize (He eq_refl _ Hp)]; lia.
Qed.

Lemma search_spec rounds f b d :
  Z.of_nat rounds + d = Z.of_nat (max source edited) + 1 → 0 ≤ d →
  filled source edited M (d - 1) f → filled source edited M' (d - 1) b →
  (d = 0 → f = replicate (width source edited) 0 ∧ b = replicate (width source edited) 0) →
  excluded source edited d →
  ∃ x y u v, search source edited rounds f b d = Some (x, y, u, v) ∧ good source edited x y u v.
Proof.
  revert f b d. induction rounds as [|rounds IH]; intros f b d Er Hd Hf Hb Hz Hex.
  - destruct not_all_excluded. by replace (Z.of_nat (max source edited) + 1) with d by lia.
  - simpl. assert (Hd' : 0 ≤ d ≤ Z.of_nat (max source edited)) by lia.
    destruct (scan_spec source edited d Hd' (λ v, forward_round source edited v b) M
      (forward_passed source edited d) f) as [(x & y & u & v & -> & Hg)|(f' & -> & Hf' & Hfp)].
    + intros k v Hk Hv. by apply forward_round_spec.
    + apply partly_start; [done|naive_solver].
    + by eexists _, _, _, _.
    + simpl. destruct (scan_spec source edited d Hd' (λ v, backward_round source edited f' v) M'
        (backward_passed source edited d) b) as [(x & y & u & v & -> & Hg)|(b' & -> & Hb' & Hbp)].
      * intros k v Hk Hv. by apply backward_round_spec.
      * apply partly_start; [done|naive_solver].
      * by eexists _, _, _, _.
      * simpl. apply IH; [lia|lia| | |lia|].
        -- by replace (d + 1 - 1) with d by lia.
        -- by replace (d + 1 - 1) with d by lia.
        -- by apply (excluded_next source edited d Hd' Hex f' b b').
Qed.

(** The search ends within its depths, at a run of a shortest script. *)
Lemma middle_snake_spec :
  ∃ x y u v, middle_snake source edited = Some (x, y, u, v) ∧ good source edited x y u v.
Proof.
  apply search_spec; [lia|lia|..].
  - split; [apply length_replicate|]. intros k (t & Ht & _). lia.
  - split; [apply length_replicate|]. intros k (t & Ht & _). lia.
  - done.
  - apply excluded_0.
Qed.

End middle_snake.
