(* ===== verification/LineDiffProps.v ===== *)
(** * The line diff: theorems

    [kept_edited_lines] is total and keeps a longest common subsequence:
    every kept line is the source line it names, in order, and no common
    subsequence is longer. *)

From Stdlib Require Import ZArith Lia.
From stdpp Require Import base option numbers list_basics list.
From S2P Require Import Prelude LineDiff EditGraph LineDiffSnake.
Import Myers.

Local Open Scope Z_scope.

Section marks.
Context {A : Type}.

(** [keeps i s e r]: [r] says of each line of [e] which line of [s] it is,
    counted from [i], in increasing order. *)
Inductive keeps : nat → list A → list A → list (option nat) → Prop :=
| keeps_nil i : keeps i [] [] []
| keeps_skip i a s e r : keeps (S i) s e r → keeps i (a :: s) e r
| keeps_new i s a e r : keeps i s e r → keeps i s (a :: e) (None :: r)
| keeps_line i a s e r : keeps (S i) s e r → keeps i (a :: s) (a :: e) (Some i :: r).

Definition kept_count (r : list (option nat)) : nat := length (omap id r).

Lemma kept_count_app r1 r2 : kept_count (r1 ++ r2) = (kept_count r1 + kept_count r2)%nat.
Proof. unfold kept_count. by rewrite omap_app, length_app. Qed.
Lemma kept_count_run i k : kept_count (Some <$> seq i k) = k.
Proof. unfold kept_count. revert i. induction k as [|k IH]; intros i; simpl; [done|]. by rewrite IH. Qed.
Lemma kept_count_none k : kept_count (replicate k None) = 0%nat.
Proof. unfold kept_count. by induction k. Qed.

Lemma keeps_app i s1 e1 r1 s2 e2 r2 :
  keeps i s1 e1 r1 → keeps (i + length s1) s2 e2 r2 → keeps i (s1 ++ s2) (e1 ++ e2) (r1 ++ r2).
Proof.
  induction 1; intros H2; simpl in *.
  - by rewrite Nat.add_0_r in H2.
  - apply keeps_skip, IHkeeps. by rewrite <- plus_n_Sm in H2.
  - apply keeps_new. auto.
  - apply keeps_line, IHkeeps. by rewrite <- plus_n_Sm in H2.
Qed.
Lemma keeps_run i s : keeps i s s (Some <$> seq i (length s)).
Proof. revert i. induction s as [|a s IH]; intros i; [constructor|by apply keeps_line]. Qed.
Lemma keeps_skips i s : keeps i s [] [].
Proof. revert i. induction s as [|a s IH]; intros i; [constructor|by apply keeps_skip]. Qed.
Lemma keeps_news i e : keeps i [] e (replicate (length e) None).
Proof. induction e as [|a e IH]; [constructor|by apply keeps_new]. Qed.

Lemma keeps_length i s e r : keeps i s e r → length r = length e.
Proof. induction 1; simpl; auto. Qed.

(** Every mark names its line. *)
Lemma keeps_lookup i s e r j k :
  keeps i s e r → r !! j = Some (Some k) → (i ≤ k)%nat ∧ ∃ a, s !! (k - i)%nat = Some a ∧ e !! j = Some a.
Proof.
  intros H. revert j. induction H as [i|i a s e r H IH|i s a e r H IH|i a s e r H IH]; intros j Hj.
  - done.
  - destruct (IH j Hj) as (Hle & b & Hb & He). split; [lia|]. exists b. split; [|done].
    by replace (k - i)%nat with (S (k - S i)) by lia.
  - destruct j as [|j]; [done|]. by apply IH.
  - destruct j as [|j]; simpl in *.
    + simplify_eq. split; [lia|]. exists a. by rewrite Nat.sub_diag.
    + destruct (IH j Hj) as (Hle & b & Hb & He). split; [lia|]. exists b. split; [|done].
      by replace (k - i)%nat with (S (k - S i)) by lia.
Qed.

Lemma keeps_from i s e r j k : keeps i s e r → r !! j = Some (Some k) → (i ≤ k)%nat.
Proof. intros H Hj. by destruct (keeps_lookup _ _ _ _ _ _ H Hj). Qed.

(** Later marks name later lines. *)
Lemma keeps_increasing i s e r j j' k k' :
  keeps i s e r → (j < j')%nat → r !! j = Some (Some k) → r !! j' = Some (Some k') → (k < k')%nat.
Proof.
  intros H. revert j j'. induction H as [i|i a s e r H IH|i s a e r H IH|i a s e r H IH]; intros j j' Hlt Hj Hj'.
  - done.
  - by apply (IH j j').
  - destruct j as [|j]; [done|]. destruct j' as [|j']; [done|]. apply (IH j j'); (done || lia).
  - destruct j' as [|j']; [lia|]. destruct j as [|j]; simpl in *.
    + simplify_eq. by pose proof (keeps_from _ _ _ _ _ _ H Hj').
    + apply (IH j j'); (done || lia).
Qed.

(** ** Writing marks *)

Lemma set_middle (l1 l2 : list (option nat)) o x :
  set (l1 ++ o :: l2) (Z.of_nat (length l1)) x = Some (l1 ++ x :: l2).
Proof.
  rewrite set_inside by (rewrite length_app; simpl; lia). rewrite Nat2Z.id.
  by rewrite insert_app_r_alt, Nat.sub_diag by lia.
Qed.

Lemma mark_run_spec l1 old l3 src :
  mark_run (l1 ++ old ++ l3) (length l1) src (length old)
  = Some (l1 ++ (Some <$> seq src (length old)) ++ l3).
Proof.
  revert l1 src. induction old as [|o old IH]; intros l1 src; simpl; [done|].
  rewrite set_middle. simpl. specialize (IH (l1 ++ [Some src]) (S src)).
  rewrite length_app in IH. simpl in IH. rewrite Nat.add_1_r, <- !(assoc_L (++)) in IH. exact IH.
Qed.

Lemma usize_sub_spec a b : (b ≤ a)%nat → usize_sub a b = Some (a - b)%nat.
Proof. intros H. unfold usize_sub. by replace (b <=? a)%nat with true by (symmetry; by apply Nat.leb_le). Qed.
Lemma slice_to_spec (l : list A) i : (i ≤ length l)%nat → slice_to l i = Some (take i l).
Proof. intros H. unfold slice_to. by replace (i <=? length l)%nat with true by (symmetry; by apply Nat.leb_le). Qed.
Lemma slice_at_spec (l : list A) i : (i ≤ length l)%nat → slice_at l i = Some (drop i l).
Proof. intros H. unfold slice_at. by replace (i <=? length l)%nat with true by (symmetry; by apply Nat.leb_le). Qed.

Lemma mark_back_spec l1 old l3 src :
  mark_back (l1 ++ old ++ l3) (length l1 + length old) (src + length old) (length old)
  = Some (l1 ++ (Some <$> seq src (length old)) ++ l3).
Proof.
  revert l3. induction old as [|o old IH] using rev_ind; intros l3; [done|].
  rewrite !length_app. change (length [o]) with 1%nat.
  replace (length old + 1)%nat with (S (length old)) by lia. cbn [mark_back].
  rewrite !usize_sub_spec by lia. cbn [mbind option_bind].
  replace (length l1 + S (length old) - 1)%nat with (length (l1 ++ old)) by (rewrite length_app; lia).
  replace (src + S (length old) - 1)%nat with (src + length old)%nat by lia.
  rewrite <- (assoc_L (++)), (assoc_L (++) l1). cbn [app]. rewrite set_middle. cbn [mbind option_bind].
  rewrite <- (assoc_L (++)), length_app, IH, seq_S, fmap_app, <- (assoc_L (++)). done.
Qed.

End marks.

Section diff.
Context {A : Type} `{EqDecision A}.
Implicit Types s e : list A.

(** ** Common prefixes and suffixes *)

Lemma common_prefix_split s e :
  ∃ p s' e', s = p ++ s' ∧ e = p ++ e' ∧ common_prefix_len s e = length p
    ∧ (∀ a, hd_error s' = Some a → hd_error e' ≠ Some a).
Proof.
  revert e. induction s as [|a s IH]; intros e; [by exists [], [], e|].
  destruct e as [|b e]; [by exists [], (a :: s), []|]. simpl. case_decide as E.
  - subst. destruct (IH e) as (p & s' & e' & -> & -> & -> & Hd). by exists (b :: p), s', e'.
  - exists [], (a :: s), (b :: e). do 3 (split; [done|]). simpl. congruence.
Qed.

Lemma common_suffix_split s e :
  ∃ p s' e', s = s' ++ p ∧ e = e' ++ p ∧ common_suffix_len s e = length p
    ∧ (∀ a, last s' = Some a → last e' ≠ Some a).
Proof.
  unfold common_suffix_len.
  destruct (common_prefix_split (reverse s) (reverse e)) as (p & s' & e' & Es & Ee & -> & Hd).
  exists (reverse p), (reverse s'), (reverse e'). rewrite length_reverse.
  apply (f_equal reverse) in Es, Ee. rewrite reverse_involutive, reverse_app in Es, Ee.
  do 3 (split; [done|]). intros a. rewrite !last_reverse. apply Hd.
Qed.

(** ** What the snake splits *)

Lemma script_equal s e : script 0 s e → s = e.
Proof.
  intros H. remember 0 as d eqn:E. induction H as [|a d s e H IH|a d s e H IH|a d s e H IH].
  - done.
  - pose proof (script_bounds _ _ _ H). lia.
  - pose proof (script_bounds _ _ _ H). lia.
  - f_equal. auto.
Qed.

(** Texts that differ at both ends need two edits. *)
Lemma script_two d s e :
  s ≠ [] → e ≠ [] → (∀ a, hd_error s = Some a → hd_error e ≠ Some a) → (∀ a, last s = Some a → last e ≠ Some a) →
  script d s e → 2 ≤ d.
Proof.
  intros Hs He Hh Hl H. pose proof (script_bounds _ _ _ H) as [Hd _].
  assert (Hcons : ∀ a (l : list A), l ≠ [] → last (a :: l) = last l) by (by intros ? [|]).
  assert (Hlast : ∀ l : list A, l ≠ [] → ∃ a, last l = Some a).
  { intros l Hn. destruct (last l) eqn:E; [eauto|]. by apply last_None in E. }
  inversion H as [|a d' s' e' H'|a d' s' e' H'|a d' s' e' H']; subst; [done|..];
    try (pose proof (script_bounds _ _ _ H') as [? _]; enough (d' ≠ 0) by lia; intros ->;
      apply script_equal in H'; subst).
  - destruct (Hlast _ He) as (b & Eb). eapply Hl; [|exact Eb]. by rewrite Hcons.
  - destruct (Hlast _ Hs) as (b & Eb). eapply Hl; [exact Eb|]. by rewrite Hcons.
  - by destruct (Hh a).
Qed.

Lemma good_split s e (x y u v : nat) :
  good s e x y u v → s ≠ [] → e ≠ [] →
  (∀ a, hd_error s = Some a → hd_error e ≠ Some a) → (∀ a, last s = Some a → last e ≠ Some a) →
  ∃ mid, s = take x s ++ mid ++ drop u s ∧ e = take y e ++ mid ++ drop v e
    ∧ (x + length mid = u)%nat ∧ (y + length mid = v)%nat ∧ (u ≤ length s)%nat ∧ (v ≤ length e)%nat
    ∧ (x + y < length s + length e)%nat ∧ (length s - u + (length e - v) < length s + length e)%nat
    ∧ ∀ c c', best (take x s) (take y e) c → best (drop u s) (drop v e) c' →
        best s e (c + Z.of_nat (length mid) + c').
Proof.
  intros (Hx & Hy & E & Hr & a & b & Ha & Hb & Hshort & Hab) Hs He Hh Hl.
  unfold n, m in *. pose proof (path_run _ (Z.of_nat u - Z.of_nat x) _ _ ltac:(lia) Hr) as Hm.
  replace (Z.of_nat x + (Z.of_nat u - Z.of_nat x)) with (Z.of_nat u) in Hm by lia.
  replace (Z.of_nat y + (Z.of_nat u - Z.of_nat x)) with (Z.of_nat v) in Hm by lia.
  apply path_script in Ha, Hb, Hm; try lia.
  rewrite segment_from_start, segment_from_start, !Nat2Z.id in Ha.
  rewrite segment_to_end, segment_to_end, !Nat2Z.id in Hb.
  assert (Hseg : ∀ (l : list A) (i j : nat), (i ≤ j ≤ length l)%nat →
    l = take i l ++ segment (Z.of_nat i) (Z.of_nat j) l ++ drop j l).
  { intros l i j Hij. unfold segment. rewrite Nat2Z.id. replace (Z.to_nat (Z.of_nat j - Z.of_nat i)) with (j - i)%nat by lia.
    rewrite <- (take_drop i l) at 1. f_equal. rewrite <- (take_drop (j - i) (drop i l)) at 1. f_equal.
    rewrite drop_drop. f_equal. lia. }
  pose proof (Hseg s x u ltac:(lia)) as Es. pose proof (Hseg e y v ltac:(lia)) as Ee.
  apply script_equal in Hm. rewrite <- Hm in Ee.
  set (mid := segment (Z.of_nat x) (Z.of_nat u) s) in *.
  assert (Hmid : length mid = (u - x)%nat).
  { unfold mid, segment. rewrite length_take, length_drop. lia. }
  assert (Hab2 : 2 ≤ a + b).
  { apply (script_two (a + b) s e); [done..|]. rewrite Es, Ee. apply script_app; [done|].
    rewrite <- (Z.add_0_l b). apply script_app; [|done]. clear. induction mid as [|z mid IH]; [constructor|by apply script_keep]. }
  pose proof (script_bounds _ _ _ Ha) as Hba. pose proof (script_bounds _ _ _ Hb) as Hbb.
  rewrite !length_take in Hba. rewrite !length_drop in Hbb.
  exists mid. do 2 (split; [done|]). do 6 (split; [lia|]).
  intros c c' Hc Hc' d Hd. specialize (Hc a Ha). specialize (Hc' b Hb).
  pose proof (at_least_script s e (a + b) Hshort d Hd).
  rewrite !length_take in Hc. rewrite !length_drop in Hc'. lia.
Qed.

(** ** [mark_common_lines] *)

(** What a call owes: it writes the marks of its own lines, which keep as
    many lines as any script does. *)
Definition marks (fuel : nat) (s e : list A) : Prop :=
  ∀ (l1 l3 : list (option nat)) sb, ∃ r,
    mark_common_lines fuel s e sb (length l1) (l1 ++ replicate (length e) None ++ l3) = Some (l1 ++ r ++ l3)
    ∧ keeps sb s e r ∧ best s e (Z.of_nat (kept_count r)).

(** The part of the body after the prefix and the suffix. *)
Definition mark_middle (fuel : nat) (s e : list A) (sb eb : nat) (matched : list (option nat))
    : option (list (option nat)) :=
  if (length s =? 0)%nat || (length e =? 0)%nat then Some matched
  else
    '(x, y, u, v) ← middle_snake s e;
    count ← usize_sub v y;
    matched ← mark_run matched (eb + y) (sb + x) count;
    s_left ← slice_to s x;
    e_left ← slice_to e y;
    matched ← mark_common_lines fuel s_left e_left sb eb matched;
    s_right ← slice_at s u;
    e_right ← slice_at e v;
    mark_common_lines fuel s_right e_right (sb + u) (eb + v) matched.

Lemma mark_middle_spec fuel s e l1 l3 sb :
  (∀ s' e', (length s' + length e' < length s + length e)%nat → marks fuel s' e') →
  (∀ a, hd_error s = Some a → hd_error e ≠ Some a) → (∀ a, last s = Some a → last e ≠ Some a) →
  ∃ r, mark_middle fuel s e sb (length l1) (l1 ++ replicate (length e) None ++ l3) = Some (l1 ++ r ++ l3)
    ∧ keeps sb s e r ∧ best s e (Z.of_nat (kept_count r)).
Proof.
  intros IH Hh Hl. unfold mark_middle. destruct s as [|a s]; [|destruct e as [|b e]].
  - exists (replicate (length e) None). split; [done|]. rewrite kept_count_none.
    split; [apply keeps_news|apply best_nil_l].
  - exists []. split; [done|]. split; [apply keeps_skips|apply best_nil_r].
  - change ((length (a :: s) =? 0)%nat || (length (b :: e) =? 0)%nat) with false. cbn iota.
    destruct (middle_snake_spec (a :: s) (b :: e)) as (x & y & u & v & -> & Hg).
    destruct (good_split _ _ _ _ _ _ Hg ltac:(done) ltac:(done) Hh Hl)
      as (mid & Es & Ee & Hu & Hv & Hus & Hve & Hleft & Hright & Hbest).
    clear Hg Hh Hl. set (s0 := a :: s) in *. set (e0 := b :: e) in *. clearbody s0 e0.
    cbn [mbind option_bind]. rewrite usize_sub_spec by lia. cbn [mbind option_bind].
    replace (v - y)%nat with (length mid) by lia.
    assert (Hle : length e0 = (y + (length mid + (length e0 - v)))%nat) by lia.
    rewrite Hle, !replicate_add.
    destruct (IH (take x s0) (take y e0) ltac:(rewrite !length_take; lia) l1
      ((Some <$> seq (sb + x) (length mid)) ++ replicate (length e0 - v) None ++ l3) sb) as (r1 & E1 & K1 & B1).
    rewrite length_take, Nat.min_l in E1 by lia.
    pose proof (mark_run_spec (l1 ++ replicate y None) (replicate (length mid) None)
      (replicate (length e0 - v) None ++ l3) (sb + x)) as Er.
    rewrite length_app, !length_replicate, <- !(assoc_L (++)) in Er.
    rewrite <- !(assoc_L (++)), Er. cbn [mbind option_bind].
    rewrite !slice_to_spec by lia. cbn [mbind option_bind]. rewrite E1. cbn [mbind option_bind].
    rewrite !slice_at_spec by lia. cbn [mbind option_bind].
    destruct (IH (drop u s0) (drop v e0) ltac:(rewrite !length_drop; lia)
      (l1 ++ r1 ++ (Some <$> seq (sb + x) (length mid))) l3 (sb + u)%nat) as (r2 & E2 & K2 & B2).
    pose proof (keeps_length _ _ _ _ K1) as Hr1. rewrite length_take, Nat.min_l in Hr1 by lia.
    rewrite !length_app, length_fmap, length_seq, Hr1, Hv, length_drop, <- !(assoc_L (++)) in E2.
    rewrite E2. exists (r1 ++ (Some <$> seq (sb + x) (length mid)) ++ r2).
    split; [by rewrite <- !(assoc_L (++))|]. split.
    + rewrite Es, Ee. apply keeps_app; [done|]. rewrite length_take, Nat.min_l by lia.
      apply keeps_app; [apply keeps_run|]. by replace (sb + x + length mid)%nat with (sb + u)%nat by lia.
    + rewrite !kept_count_app, kept_count_run, !Nat2Z.inj_add, Z.add_assoc. by apply Hbest.
Qed.

Lemma mark_common_lines_spec fuel s e : (length s + length e < fuel)%nat → marks fuel s e.
Proof.
  revert s e. induction fuel as [|fuel IH]; intros s e Hf l1 l3 sb; [lia|].
  destruct (common_prefix_split s e) as (p & s1 & e1 & -> & -> & Ep & Hh).
  destruct (common_suffix_split s1 e1) as (q & s2 & e2 & -> & -> & Eq & Hl).
  assert (Hh2 : ∀ a, hd_error s2 = Some a → hd_error e2 ≠ Some a).
  { intros a Ha Hb. destruct s2; [done|]. destruct e2; [done|]. by apply (Hh a). }
  destruct (mark_middle_spec fuel s2 e2 (l1 ++ (Some <$> seq sb (length p)))
    ((Some <$> seq (sb + length p + length s2) (length q)) ++ l3) (sb + length p))
    as (r & Er & Kr & Br); [|done..|].
  { intros s' e' Hlt. apply IH. rewrite !length_app in Hf. lia. }
  cbn [mark_common_lines]. rewrite Ep.
  pose proof (mark_run_spec l1 (replicate (length p) None)
    (replicate (length e2) None ++ replicate (length q) None ++ l3) sb) as E1.
  rewrite !length_app, !replicate_add, <- !(assoc_L (++)).
  rewrite length_replicate in E1. rewrite E1. cbn [mbind option_bind].
  rewrite !slice_at_spec by (rewrite length_app; lia). cbn [mbind option_bind].
  rewrite !drop_app_length, Eq, !length_app.
  pose proof (mark_back_spec (l1 ++ (Some <$> seq sb (length p)) ++ replicate (length e2) None)
    (replicate (length q) None) l3 (sb + length p + length s2)) as E2.
  rewrite !length_app, length_fmap, length_seq, !length_replicate, <- !(assoc_L (++)) in E2.
  replace (length l1 + length p + (length e2 + length q))%nat
    with (length l1 + (length p + length e2) + length q)%nat by lia.
  replace (sb + length p + (length s2 + length q))%nat
    with (sb + length p + length s2 + length q)%nat by lia.
  rewrite E2. cbn [mbind option_bind]. rewrite !usize_sub_spec by lia. cbn [mbind option_bind].
  replace (length s2 + length q - length q)%nat with (length s2) by lia.
  replace (length e2 + length q - length q)%nat with (length e2) by lia.
  rewrite !slice_to_spec by (rewrite length_app; lia). cbn [mbind option_bind].
  rewrite !take_app_length. rewrite length_app, length_fmap, length_seq, <- !(assoc_L (++)) in Er.
  exists ((Some <$> seq sb (length p)) ++ r ++ (Some <$> seq (sb + length p + length s2) (length q))).
  split; [rewrite <- !(assoc_L (++)); exact Er|]. split.
  - apply keeps_app; [apply keeps_run|]. apply keeps_app; [done|apply keeps_run].
  - rewrite !kept_count_app, !kept_count_run, !Nat2Z.inj_add. apply best_prefix.
    rewrite Z.add_comm. by apply best_suffix.
Qed.

(** ** [kept_edited_lines] *)

Lemma kept_edited_lines_spec s e :
  ∃ r, kept_edited_lines s e = Some r ∧ keeps 0 s e r ∧ best s e (Z.of_nat (kept_count r)).
Proof.
  destruct (mark_common_lines_spec (S (length s + length e)) s e ltac:(lia) [] [] 0%nat) as (r & E & K & B).
  exists r. split; [|done]. unfold kept_edited_lines. by rewrite !app_nil_r in E.
Qed.

(** C25. [kept_edited_lines] never panics, and what it keeps is a longest common
    subsequence: every edited line has its mark, a mark names an equal line
    of the source, marks increase, and no common subsequence of the two texts
    is longer than the lines kept. *)
Theorem kept_lines_longest s e :
  ∃ r, kept_edited_lines s e = Some r
    ∧ length r = length e
    ∧ (∀ j k, r !! j = Some (Some k) → ∃ a, s !! k = Some a ∧ e !! j = Some a)
    ∧ (∀ j j' k k', (j < j')%nat → r !! j = Some (Some k) → r !! j' = Some (Some k') → (k < k')%nat)
    ∧ (∀ l, l `sublist_of` s → l `sublist_of` e → (length l ≤ length (omap id r))%nat).
Proof.
  destruct (kept_edited_lines_spec s e) as (r & E & K & B). exists r. split; [done|].
  split; [by eapply keeps_length|]. split; [|split].
  - intros j k Hj. destruct (keeps_lookup _ _ _ _ _ _ K Hj) as (_ & a & Hs & He).
    rewrite Nat.sub_0_r in Hs. by exists a.
  - intros j j' k k'. by eapply keeps_increasing.
  - intros l Hs He. pose proof (B _ (sublist_script _ _ _ Hs He)). unfold kept_count in *. lia.
Qed.

End diff.
