(* ===== verification/XmlText.v ===== *)
(** * XML source text

    [crates/unica-xml-format/src/text.rs]: source snapshots and their line
    endings, escaping, the serialization of edited text in the style of its
    source, and the search for elements and attributes in raw markup.

    A [&str] is the list of its UTF-8 bytes: the code finds and replaces
    ASCII text only, which is the same in bytes and in characters, and its
    offsets are byte offsets.  [usize] is [nat]; [None] is a panic. *)

From Stdlib Require Import ZArith Lia Ascii String.
From stdpp Require Import base option numbers list_basics list.
From S2P Require Import Prelude Redaction.
From S2P Require Import AddressKinds.
From S2P Require Import LineDiff.
Import Myers.

Local Open Scope Z_scope.

(** ** [str] and slices *)

Notation str8 := (list Z) (only parsing).

(** [str::from_utf8] succeeds: the well-formed sequences of UTF-8. *)
Definition is_continuation (b : Z) : bool := in_range 128 191 b.
Fixpoint valid_utf8 (bs : list Z) : bool :=
  match bs with
  | [] => true
  | a :: bs1 =>
      if in_range 0 127 a then valid_utf8 bs1
      else match bs1 with
      | [] => false
      | b :: bs2 =>
          if in_range 194 223 a then is_continuation b && valid_utf8 bs2
          else match bs2 with
          | [] => false
          | c :: bs3 =>
              if (a =? 224) && in_range 160 191 b
                 || (in_range 225 236 a || in_range 238 239 a) && is_continuation b
                 || (a =? 237) && in_range 128 159 b
              then is_continuation c && valid_utf8 bs3
              else match bs3 with
              | [] => false
              | d :: bs4 =>
                  ((a =? 240) && in_range 144 191 b
                   || in_range 241 243 a && is_continuation b
                   || (a =? 244) && in_range 128 143 b)
                  && is_continuation c && is_continuation d && valid_utf8 bs4
              end
          end
      end
  end.

(** [s.is_char_boundary(i)]. *)
Definition char_boundary (s : str8) (i : nat) : bool :=
  match s !! i with
  | Some b => (i =? 0)%nat || negb (is_continuation b)
  | None => (i =? length s)%nat
  end.
(** [s.get(from..)] and [&s[from..to]]. *)
Definition get_from (s : str8) (from : nat) : option str8 :=
  if char_boundary s from then Some (drop from s) else None.
Definition str_range (s : str8) (from to : nat) : option str8 :=
  if (from <=? to)%nat && char_boundary s from && char_boundary s to
  then Some (take (to - from) (drop from s)) else None.

(** [s.ends_with(p)], [s.strip_suffix(p)], [s.find(p)], [s.rfind(p)]. *)
Definition ends_with (s p : str8) : bool := starts_with (reverse s) (reverse p).
Definition strip_suffix (s p : str8) : option str8 :=
  if ends_with s p then Some (take (length s - length p) s) else None.
Fixpoint find (s p : str8) : option nat :=
  if starts_with s p then Some 0%nat
  else match s with [] => None | _ :: s => S <$> find s p end.
Fixpoint rfind (s p : str8) : option nat :=
  match s with
  | [] => if starts_with [] p then Some 0%nat else None
  | _ :: s' => match rfind s' p with
               | Some i => Some (S i)
               | None => if starts_with s p then Some 0%nat else None
               end
  end.

(** [s.replace(pat, by)] for a nonempty [pat]: [skip] bytes belong to an
    occurrence that was replaced. *)
Fixpoint replace_from (skip : nat) (pat by_ s : str8) : str8 :=
  match s with
  | [] => []
  | c :: s' =>
      match skip with
      | S skip => replace_from skip pat by_ s'
      | O => if starts_with s pat then by_ ++ replace_from (length pat - 1) pat by_ s'
             else c :: replace_from 0 pat by_ s'
      end
  end.
Definition replace (s pat by_ : str8) : str8 := replace_from 0 pat by_ s.

(** [u8] literals of the source. *)
Definition CR : Z := 13.
Definition LF : Z := 10.
Definition cr_lf : str8 := [CR; LF].

(** ** Snapshots *)

Definition UTF8_BOM : list Z := [239; 187; 191].

Inductive Utf8Bom := Present | Absent.
Inductive LineEnding := Lf | CrLf | Cr.
Inductive LineEndingProfile :=
| NoEndings
| Uniform (e : LineEnding)
| Mixed (lf crlf cr : nat).
Inductive SnapshotError := InvalidUtf8.

#[export] Instance LineEnding_eq_dec : EqDecision LineEnding.
Proof. solve_decision. Defined.

Definition as_str (e : LineEnding) : str8 :=
  match e with Lf => [LF] | CrLf => cr_lf | Cr => [CR] end.

(** The loop of [classify_line_endings]: the rest of the bytes and the three
    counters. *)
Fixpoint count_endings (bs : list Z) (lf crlf cr : nat) : nat * nat * nat :=
  match bs with
  | [] => (lf, crlf, cr)
  | b :: bs1 =>
      if b =? CR then
        match bs1 with
        | c :: bs2 => if c =? LF then count_endings bs2 lf (S crlf) cr
                      else count_endings bs1 lf crlf (S cr)
        | [] => count_endings bs1 lf crlf (S cr)
        end
      else if b =? LF then count_endings bs1 (S lf) crlf cr
      else count_endings bs1 lf crlf cr
  end.

Definition classify_line_endings (t : str8) : LineEndingProfile * option LineEnding :=
  let '(lf, crlf, cr) := count_endings t 0 0 0 in
  let profile :=
    match lf, crlf, cr with
    | O, O, O => NoEndings
    | S _, O, O => Uniform Lf
    | O, S _, O => Uniform CrLf
    | O, O, S _ => Uniform Cr
    | _, _, _ => Mixed lf crlf cr
    end in
  let terminal :=
    if ends_with t cr_lf then Some CrLf
    else if ends_with t [LF] then Some Lf
    else if ends_with t [CR] then Some Cr
    else None in
  (profile, terminal).

Record SourceTextSnapshot := mkSnapshot {
  sn_raw : list Z;
  sn_decoded_text : str8;
  sn_content_start : nat;
  sn_bom : Utf8Bom;
  sn_line_endings : LineEndingProfile;
  sn_terminal_line_ending : option LineEnding }.

Definition from_bytes (raw : list Z) : result SourceTextSnapshot SnapshotError :=
  let '(bom, content_start) :=
    if starts_with raw UTF8_BOM then (Present, length UTF8_BOM) else (Absent, 0%nat) in
  let? decoded_text := if valid_utf8 raw then Ok raw else Err InvalidUtf8 in
  let? t := ok_or (get_from decoded_text content_start) InvalidUtf8 in
  let '(line_endings, terminal) := classify_line_endings t in
  Ok (mkSnapshot raw decoded_text content_start bom line_endings terminal).

(** [&self.decoded_text[self.content_start..]]. *)
Definition snapshot_text (s : SourceTextSnapshot) : option str8 :=
  get_from (sn_decoded_text s) (sn_content_start s).

(** ** Line-ending policies *)

Inductive EolPolicy := PPreserve | PLf | PCrLf | PRepository.
Inductive EolPolicyError :=
| AmbiguousPreservePolicy | MissingPreserveContext | RepositoryPolicyUnresolved.

Definition resolve_line_ending (policy : EolPolicy) (s : SourceTextSnapshot)
    (local : option LineEnding) : result LineEnding EolPolicyError :=
  match policy with
  | PLf => Ok Lf
  | PCrLf => Ok CrLf
  | PRepository => Err RepositoryPolicyUnresolved
  | PPreserve =>
      match local, sn_line_endings s with
      | Some e, _ => Ok e
      | None, Uniform e => Ok e
      | None, Mixed _ _ _ => Err AmbiguousPreservePolicy
      | None, NoEndings => Err MissingPreserveContext
      end
  end.

Definition resolve_observed_line_ending (s : SourceTextSnapshot) (local : option LineEnding)
    : result LineEnding EolPolicyError :=
  let policy := match sn_line_endings s with NoEndings => PLf | _ => PPreserve end in
  resolve_line_ending policy s local.

(** [reject_event_lone_cr]; the message is not modelled. *)
Definition reject_event_lone_cr (s : SourceTextSnapshot) : result unit unit :=
  match sn_line_endings s with
  | Uniform Cr => Err tt
  | Mixed _ _ (S _) => Err tt
  | _ => Ok tt
  end.

(** ** Escaping *)

Definition escape_xml (value : str8) : str8 :=
  replace (replace (replace (replace value (lit "&") (lit "&amp;")) (lit "<") (lit "&lt;"))
    (lit ">") (lit "&gt;")) [34] (lit "&quot;").
Definition escape_xml_text (value : str8) : str8 :=
  replace (replace (replace value (lit "&") (lit "&amp;")) (lit "<") (lit "&lt;"))
    (lit ">") (lit "&gt;").
Definition unescape_xml (value : str8) : str8 :=
  replace (replace (replace (replace value (lit "&quot;") [34]) (lit "&gt;") (lit ">"))
    (lit "&lt;") (lit "<")) (lit "&amp;") (lit "&").

(** ** Byte order marks *)

(** [while bytes[offset..].starts_with(UTF8_BOM) { offset += 3 }]: how many
    marks the bytes start with; each takes three bytes of the fuel. *)
Fixpoint bom_offset (fuel : nat) (bytes : list Z) (offset : nat) : nat :=
  match fuel with
  | O => offset
  | S fuel => if starts_with (drop offset bytes) UTF8_BOM
              then bom_offset fuel bytes (offset + length UTF8_BOM) else offset
  end.
Definition split_utf8_bom_prefix (bytes : list Z) : list Z * list Z :=
  let offset := bom_offset (length bytes) bytes 0 in (take offset bytes, drop offset bytes).

(** [content.trim_start_matches('\u{feff}')]: the character is the mark. *)
Definition trim_bom (content : str8) : str8 := (split_utf8_bom_prefix content).2.
Definition utf8_bom_bytes (content : str8) : list Z := UTF8_BOM ++ trim_bom content.

(** ** Final newlines *)

Definition preserve_source_final_newline (output source_text : str8) : str8 :=
  let source_final_newline :=
    if ends_with source_text cr_lf then Some cr_lf
    else if ends_with source_text [LF] then Some [LF]
    else if ends_with source_text [CR] then Some [CR]
    else None in
  match source_final_newline with
  | Some line_ending =>
      if negb (ends_with output [LF]) && negb (ends_with output [CR]) then output ++ line_ending
      else output
  | None =>
      if ends_with output cr_lf then take (length output - 2) output
      else if ends_with output [LF] || ends_with output [CR] then take (length output - 1) output
      else output
  end.

Definition ensure_trailing_lf (t : str8) : str8 := if ends_with t [LF] then t else t ++ [LF].
Definition lxml_parser_normalized_text (t : str8) : str8 := replace (replace t cr_lf [LF]) [CR] [LF].

Definition lxml_tree_serialized_text (t : str8) : str8 :=
  let output := replace t (lit " />") (lit "/>") in
  let output := replace output cr_lf [LF] in
  let output := replace output [CR] (lit "&#13;") in
  if ends_with output [LF] then output else output ++ [LF].

(** ** Edited text in the style of its source *)

Definition line_body (line : str8) : str8 :=
  default line (or_option (strip_suffix line cr_lf) (strip_suffix line [LF])).

Definition serialize_inserted_line (line : str8) (crlf : bool) : str8 :=
  let '(body, terminator) :=
    match strip_suffix line cr_lf with
    | Some body => (body, cr_lf)
    | None => match strip_suffix line [LF] with
              | Some body => (body, [LF])
              | None => (line, [])
              end
    end in
  let body := replace (replace body (lit " />") (lit "/>")) [CR] (lit "&#13;") in
  let terminator :=
    match terminator with [] => [] | _ => if crlf then cr_lf else [LF] end in
  body ++ terminator.

(** The bytes since [start], and the rest of the text. *)
Fixpoint split_lines_from (line text : str8) : list str8 :=
  match text with
  | [] => match line with [] => [] | _ => [line] end
  | b :: text =>
      if b =? LF then (line ++ [b]) :: split_lines_from [] text
      else split_lines_from (line ++ [b]) text
  end.
Definition split_lines_keeping_terminators (t : str8) : list str8 := split_lines_from [] t.

(** [for (line, kept) in edited_lines.iter().zip(kept)]. *)
Fixpoint push_lines (source_lines edited_lines : list str8) (kept : list (option nat)) (crlf : bool)
    (output : str8) : option str8 :=
  match edited_lines, kept with
  | line :: edited_lines, k :: kept =>
      out ← match k with
            | Some source_index => source_lines !! source_index
            | None => Some (serialize_inserted_line line crlf)
            end;
      push_lines source_lines edited_lines kept crlf (output ++ out)
  | _, _ => Some output
  end.

Definition lxml_tree_serialized_text_like_source (t source_text : str8) : option str8 :=
  let crlf := contains source_text cr_lf in
  let source_lines := split_lines_keeping_terminators source_text in
  let edited_lines := split_lines_keeping_terminators t in
  kept ← kept_edited_lines (line_body <$> source_lines) (line_body <$> edited_lines);
  output ← push_lines source_lines edited_lines kept crlf [];
  Some (if negb (ends_with output [LF]) then output ++ (if crlf then cr_lf else [LF]) else output).

Definition lxml_tree_serialized_text_like_source_preserving_final_newline (t source_text : str8)
    : option str8 :=
  output ← lxml_tree_serialized_text_like_source t source_text;
  Some (preserve_source_final_newline output source_text).

(** ** Inserted line endings *)

Definition source_line_ending (t : str8) : str8 :=
  match find t [LF] with
  | Some index =>
      if (0 <? index)%nat && bool_decide (t !! (index - 1)%nat = Some CR) then cr_lf else [LF]
  | None => if existsb (Z.eqb CR) t then [CR] else [LF]
  end.

Fixpoint replace_bare_lf (previous_was_cr : bool) (t line_ending : str8) : str8 :=
  match t with
  | [] => []
  | c :: t =>
      (if (c =? LF) && negb previous_was_cr then line_ending else [c])
      ++ replace_bare_lf (c =? CR) t line_ending
  end.

(** [while n > 0 && !ok(n) { n -= 1 }]. *)
Fixpoint back_to (ok : nat → bool) (n : nat) : nat :=
  match n with O => O | S n' => if ok n then n else back_to ok n' end.

Definition string_diff_bounds (before after : str8) : nat * nat * nat :=
  let prefix := back_to (λ i, char_boundary before i && char_boundary after i)
                  (common_prefix_len before after) in
  let max_suffix := (Nat.min (length before) (length after) - prefix)%nat in
  let suffix := Nat.min (common_suffix_len (drop prefix before) (drop prefix after)) max_suffix in
  let suffix := back_to (λ i, char_boundary before (length before - i)
                              && char_boundary after (length after - i)) suffix in
  (prefix, (length before - suffix)%nat, (length after - suffix)%nat).

Definition preserve_inserted_line_endings (source updated : str8) : option str8 :=
  let line_ending := source_line_ending source in
  if bool_decide (line_ending = [LF]) then Some updated
  else
    let '(prefix, _, updated_end) := string_diff_bounds source updated in
    changed ← str_range updated prefix updated_end;
    head ← str_range updated 0 prefix;
    tail ← str_range updated updated_end (length updated);
    Some (head ++ replace_bare_lf false changed line_ending ++ tail).
