(* ===== verification/XmlTextProps.v ===== *)
(** * XML source text: theorems

    Text that was not edited is written back byte for byte, whatever line
    endings its editor used; edited text keeps as many source lines as
    possible; escaping is undone by unescaping; a snapshot counts its line
    endings exactly; converting inserted line endings touches the inserted
    text only. *)

From Stdlib Require Import ZArith Lia Ascii String.
From stdpp Require Import base option numbers list_basics list.
From S2P Require Import Prelude Redaction.
From S2P Require Import LineDiff EditGraph LineDiffSnake LineDiffProps.
From S2P Require Import XmlText.
Import Myers.

Local Open Scope Z_scope.

(** ** Prefixes and suffixes *)

Lemma starts_with_spec t p : starts_with t p = true ↔ ∃ u, t = p ++ u.
Proof.
  revert t. induction p as [|a p IH]; intros t; simpl; [split; [by exists t|done]|].
  destruct t as [|b t]; [split; [done|by intros (u & Hu)]|].
  rewrite andb_true_iff, Z.eqb_eq, IH. split.
  - intros (-> & u & ->). by exists u.
  - intros (u & [= -> ->]). split; [done|]. by exists u.
Qed.

Lemma ends_with_spec t p : ends_with t p = true ↔ ∃ u, t = u ++ p.
Proof.
  unfold ends_with. rewrite starts_with_spec. split; intros (u & E).
  - exists (reverse u). apply (f_equal reverse) in E. by rewrite reverse_app, !reverse_involutive in E.
  - exists (reverse u). by rewrite E, reverse_app.
Qed.
Lemma ends_with_app t p : ends_with (t ++ p) p = true.
Proof. apply ends_with_spec. by exists t. Qed.
Lemma ends_with_last t a b : ends_with (t ++ [a]) [b] = (b =? a).
Proof. unfold ends_with. rewrite reverse_app. simpl. by rewrite andb_true_r. Qed.
Lemma ends_with_crlf t a : ends_with (t ++ [a]) cr_lf = (LF =? a) && ends_with t [CR].
Proof. unfold ends_with. rewrite reverse_app. simpl. done. Qed.

Lemma strip_suffix_app t p : strip_suffix (t ++ p) p = Some t.
Proof.
  unfold strip_suffix. rewrite ends_with_app, length_app.
  replace (length t + length p - length p)%nat with (length t) by lia. by rewrite take_app_length.
Qed.

Lemma contains_spec t p : contains t p = true ↔ ∃ a b, t = a ++ p ++ b.
Proof.
  induction t as [|c t IH]; simpl; rewrite orb_true_iff, starts_with_spec.
  - split.
    + intros [(u & E)|]; [|done]. by exists [], u.
    + intros (a & b & E). left. destruct a; [|done]. by exists b.
  - rewrite IH. split.
    + intros [(u & E)|(a & b & ->)]; [by exists [], u|by exists (c :: a), b].
    + intros ([|a a'] & b & E); [left; by exists b|]. injection E as -> ->. right. by exists a', b.
Qed.

(** ** Lines *)

Lemma line_body_crlf l : line_body (l ++ cr_lf) = l.
Proof. unfold line_body. by rewrite strip_suffix_app. Qed.
Lemma line_body_lf l : ends_with l [CR] = false → line_body (l ++ [LF]) = l.
Proof.
  intros Hl. unfold line_body, strip_suffix at 1. rewrite ends_with_crlf, Hl. cbn [andb Z.eqb].
  rewrite andb_false_r. by rewrite strip_suffix_app.
Qed.

Lemma split_lines_concat cur t : concat (split_lines_from cur t) = cur ++ t.
Proof.
  revert cur. induction t as [|b t IH]; intros cur; simpl.
  - destruct cur; simpl; by rewrite ?app_nil_r.
  - case_match; simpl; rewrite IH, <- (assoc_L (++)); done.
Qed.

(** Replacing CRLF by LF changes no line body. *)
Lemma lf_normalized_bodies cur t :
  contains (cur ++ t) [CR; CR; LF] = false →
  line_body <$> split_lines_from cur (replace t cr_lf [LF]) = line_body <$> split_lines_from cur t.
Proof.
  unfold replace. remember (length t) as k eqn:Ek. assert (Hk : (length t ≤ k)%nat) by lia. clear Ek.
  revert cur t Hk. induction k as [|k IH]; intros cur t Hk Hc; [by destruct t; [|simpl in *; lia]|].
  destruct t as [|a t]; [done|]. cbn [length] in Hk. cbn [replace_from].
  destruct (starts_with (a :: t) cr_lf) eqn:Es.
  - apply starts_with_spec in Es as (u & [= -> ->]).
    cbn [length Nat.sub replace_from app]. cbn [split_lines_from].
    change (LF =? LF) with true. change (CR =? LF) with false. cbn iota.
    rewrite !fmap_cons. f_equal.
    + rewrite <- (assoc_L (++)). change ([CR] ++ [LF]) with cr_lf. rewrite line_body_crlf, line_body_lf; [done|].
      apply not_true_iff_false. intros (v & ->)%ends_with_spec. apply not_true_iff_false in Hc. apply Hc.
      apply contains_spec. exists v, u. by rewrite <- (assoc_L (++)).
    + apply IH; [simpl in *; lia|]. apply not_true_iff_false. intros (x & y & E)%contains_spec.
      apply not_true_iff_false in Hc. apply Hc, contains_spec. exists (cur ++ cr_lf ++ x), y.
      simpl in E. rewrite E, <- !(assoc_L (++)). done.
  - cbn [split_lines_from]. destruct (a =? LF).
    + rewrite !fmap_cons. f_equal. apply IH; [lia|]. apply not_true_iff_false.
      intros (x & y & E)%contains_spec. apply not_true_iff_false in Hc. apply Hc, contains_spec.
      exists (cur ++ [a] ++ x), y. simpl in E. rewrite E, <- !(assoc_L (++)). done.
    + apply IH; [lia|]. by rewrite <- (assoc_L (++)).
Qed.

(** ** The kept lines of equal texts *)

Lemma keeps_full {A : Type} i (s e : list A) r :
  keeps i s e r → (kept_count r ≤ length s)%nat ∧ (kept_count r ≤ length e)%nat
    ∧ (kept_count r = length s → kept_count r = length e → r = Some <$> seq i (length s)).
Proof.
  induction 1 as [i|i a s e r H (IH1 & IH2 & IH3)|i s a e r H (IH1 & IH2 & IH3)|i a s e r H (IH1 & IH2 & IH3)];
    cbn [length].
  - done.
  - do 2 (split; [lia|]). intros; exfalso; lia.
  - change (kept_count (None :: r)) with (kept_count r).
    do 2 (split; [lia|]). intros; exfalso; lia.
  - change (kept_count (Some i :: r)) with (S (kept_count r)).
    do 2 (split; [lia|]). intros [= H1] [= H2]. simpl. f_equal. auto.
Qed.

Lemma script_refl {A : Type} (s : list A) : script 0 s s.
Proof. induction s; [constructor|by apply script_keep]. Qed.

Lemma kept_edited_lines_equal `{EqDecision A} (s : list A) :
  kept_edited_lines s s = Some (Some <$> seq 0 (length s)).
Proof.
  destruct (kept_edited_lines_spec s s) as (r & -> & K & B). f_equal.
  specialize (B 0 (script_refl s)). destruct (keeps_full _ _ _ _ K) as (H1 & _ & H). apply H; lia.
Qed.

Lemma push_lines_all sl el crlf out i :
  length el = length sl → ∀ all, drop i all = sl → push_lines all el (Some <$> seq i (length sl)) crlf out = Some (out ++ concat sl).
Proof.
  revert el out i. induction sl as [|l sl IH]; intros el out i Hl all Ha; destruct el as [|x el]; simpl in *; try done.
  - by rewrite app_nil_r.
  - assert (Hi : all !! i = Some l) by (by rewrite <- (Nat.add_0_r i), <- lookup_drop, Ha).
    rewrite Hi. simpl. rewrite (IH el); [by rewrite <- (assoc_L (++))|lia|].
    rewrite (drop_S _ _ _ Hi) in Ha. by simplify_eq.
Qed.

(** Text with the line bodies of its source is written as the source. *)
Lemma same_bodies_written t source :
  line_body <$> split_lines_keeping_terminators t
    = line_body <$> split_lines_keeping_terminators source →
  lxml_tree_serialized_text_like_source t source
  = Some (if negb (ends_with source [LF])
          then source ++ (if contains source cr_lf then cr_lf else [LF]) else source).
Proof.
  intros E. unfold lxml_tree_serialized_text_like_source. rewrite E, kept_edited_lines_equal. simpl.
  rewrite length_fmap, (push_lines_all _ _ _ _ 0).
  - simpl. unfold split_lines_keeping_terminators. by rewrite split_lines_concat.
  - apply (f_equal length) in E. by rewrite !length_fmap in E.
  - done.
Qed.

(** C26. Text that was not edited is written back byte for byte: the text itself,
    or its copy with LF for CRLF that XML parsers hand out, comes back as the
    source with its own line endings and its own end, unless the source ends
    in a lone carriage return (or, for the copy, holds [\r\r\n]). *)
Theorem unedited_text_restored t source :
  (t = source ∨ t = replace source cr_lf [LF] ∧ contains source [CR; CR; LF] = false) →
  ends_with source [CR] = false →
  lxml_tree_serialized_text_like_source_preserving_final_newline t source = Some source.
Proof.
  intros Ht Hcr. unfold lxml_tree_serialized_text_like_source_preserving_final_newline.
  rewrite same_bodies_written
    by (destruct Ht as [->|[-> Hc]]; [done|by apply lf_normalized_bodies]).
  simpl. f_equal. unfold preserve_source_final_newline.
  destruct (ends_with source [LF]) eqn:El; simpl.
  - rewrite El. simpl. by destruct (ends_with source cr_lf).
  - assert (Hn : ends_with source cr_lf = false).
    { apply not_true_iff_false. intros (u & ->)%ends_with_spec. apply not_true_iff_false in El. apply El.
      apply ends_with_spec. by exists (u ++ [CR]); rewrite <- (assoc_L (++)). }
    rewrite Hn, Hcr. destruct (contains source cr_lf).
    + rewrite ends_with_app, length_app, Nat.add_sub. by rewrite take_app_length.
    + rewrite ends_with_crlf, Hcr, ends_with_app, andb_false_r. simpl.
      by rewrite length_app, Nat.add_sub, take_app_length.
Qed.

(** The exception is real: a source that ends in a lone carriage return gains
    a line feed, unedited. *)
Lemma lone_cr_gains_lf :
  lxml_tree_serialized_text_like_source_preserving_final_newline [97; CR] [97; CR] = Some [97; CR; LF].
Proof. reflexivity. Qed.

(** ** Edited text *)

Lemma push_lines_pieces sl el kept crlf out :
  length kept = length el → (∀ j k, kept !! j = Some (Some k) → is_Some (sl !! k)) →
  ∃ pieces, push_lines sl el kept crlf out = Some (out ++ concat pieces)
    ∧ length pieces = length el
    ∧ ∀ j l, el !! j = Some l →
        (∃ k src, kept !! j = Some (Some k) ∧ sl !! k = Some src ∧ pieces !! j = Some src)
        ∨ (kept !! j = Some None ∧ pieces !! j = Some (serialize_inserted_line l crlf)).
Proof.
  revert kept out. induction el as [|l el IH]; intros kept out Hl Hin; destruct kept as [|k kept]; try done.
  - exists []. simpl. by rewrite app_nil_r.
  - assert (Hpiece : ∃ p, (match k with Some i => sl !! i | None => Some (serialize_inserted_line l crlf) end)
        = Some p ∧ ((∃ i, k = Some i ∧ sl !! i = Some p) ∨ (k = None ∧ p = serialize_inserted_line l crlf))).
    { destruct k as [i|]; [|eexists; split; [done|by right]].
      destruct (Hin 0%nat i eq_refl) as (src & Hsrc). exists src. split; [done|]. left. by exists i. }
    destruct Hpiece as (p & Ep & Hp). destruct (IH kept (out ++ p)) as (ps & E & Hps & Hj).
    + by injection Hl.
    + intros j i. apply (Hin (S j)).
    + exists (p :: ps). simpl. rewrite Ep. simpl. rewrite E, <- (assoc_L (++)).
      split; [done|]. split; [by rewrite Hps|].
      intros [|j] l' El; simpl in *; [|by apply Hj]. simplify_eq. destruct Hp as [(i & -> & Hi)|(-> & ->)].
      * left. by exists i, p.
      * by right.
Qed.

(** Edited text keeps every line it can: the output is one piece for each
    edited line and a final newline.  A piece is a source line, copied byte
    for byte, whose body is the edited line's, or the edited line serialized
    in the style of the source; the copied lines are taken in order, and no
    common subsequence of the bodies is longer. *)
Theorem edited_text_keeps_lines t source :
  let crlf := contains source cr_lf in
  let source_lines := split_lines_keeping_terminators source in
  let edited_lines := split_lines_keeping_terminators t in
  ∃ (kept : list (option nat)) (pieces : list str8),
    lxml_tree_serialized_text_like_source t source
      = Some (if negb (ends_with (concat pieces) [LF])
              then concat pieces ++ (if crlf then cr_lf else [LF]) else concat pieces)
    ∧ length pieces = length edited_lines
    ∧ (∀ j line, edited_lines !! j = Some line →
        (∃ k src, kept !! j = Some (Some k) ∧ source_lines !! k = Some src
          ∧ line_body src = line_body line ∧ pieces !! j = Some src)
        ∨ (kept !! j = Some None ∧ pieces !! j = Some (serialize_inserted_line line crlf)))
    ∧ (∀ j j' k k', (j < j')%nat → kept !! j = Some (Some k) → kept !! j' = Some (Some k') → (k < k')%nat)
    ∧ (∀ l, l `sublist_of` (line_body <$> source_lines) → l `sublist_of` (line_body <$> edited_lines) →
         (length l ≤ length (omap id kept))%nat).
Proof.
  intros crlf sl el. unfold lxml_tree_serialized_text_like_source. fold sl el crlf.
  destruct (kept_edited_lines_spec (line_body <$> sl) (line_body <$> el)) as (kept & Ek & K & B).
  assert (Hin : ∀ j k, kept !! j = Some (Some k) →
    ∃ src, sl !! k = Some src ∧ (line_body <$> el) !! j = Some (line_body src)).
  { intros j k Hj. destruct (keeps_lookup _ _ _ _ _ _ K Hj) as (_ & a & Hs & He).
    rewrite Nat.sub_0_r, list_lookup_fmap in Hs. apply fmap_Some in Hs as (src & Hs & ->). by exists src. }
  destruct (push_lines_pieces sl el kept crlf []) as (pieces & Ep & Hl & Hj).
  - pose proof (keeps_length _ _ _ _ K) as H. by rewrite length_fmap in H.
  - intros j k Hk. destruct (Hin j k Hk) as (src & Hs & _). by exists src.
  - exists kept, pieces. rewrite Ek. cbn [mbind option_bind]. rewrite Ep. cbn [mbind option_bind app].
    split; [done|]. split; [done|]. split; [|split].
    + intros j line Hline. destruct (Hj j line Hline) as [(k & src & Hk & Hs & Hp)|Hp]; [|by right].
      left. exists k, src. do 2 (split; [done|]). split; [|done].
      destruct (Hin j k Hk) as (src' & Hs' & He). rewrite list_lookup_fmap, Hline in He.
      simplify_eq. simpl in He. congruence.
    + intros j j' k k'. by eapply keeps_increasing.
    + intros l Hs He. pose proof (B _ (sublist_script _ _ _ Hs He)). unfold kept_count in *. lia.
Qed.

(** ** Escaping *)

Lemma replace_byte t c by_ : replace t [c] by_ = t ≫= λ b, if decide (b = c) then by_ else [b].
Proof.
  unfold replace. induction t as [|b t IH]; [done|]. cbn [replace_from starts_with].
  rewrite andb_true_r. change (length [c] - 1)%nat with 0%nat. rewrite IH. simpl.
  rewrite Z.eqb_sym. destruct (Z.eqb_spec b c); case_decide; done || congruence.
Qed.

(** The code of a byte: itself, or an entity. *)
Definition is_code (w : str8) : Prop :=
  (∀ b, b ∈ w → b ≠ 38) ∨ ∃ x, w = 38 :: x ∧ ∀ b, b ∈ x → b ≠ 38.

Lemma replace_skip pat by_ k s : replace_from (length k) pat by_ (k ++ s) = replace_from 0 pat by_ s.
Proof. by induction k. Qed.

Lemma replace_no_mark pat by_ w s :
  (∀ b, b ∈ w → b ≠ 38) → replace_from 0 (38 :: pat) by_ (w ++ s) = w ++ replace_from 0 (38 :: pat) by_ s.
Proof.
  induction w as [|b w IH]; intros Hw; [done|]. cbn [app replace_from starts_with].
  replace (38 =? b) with false by (symmetry; apply Z.eqb_neq; intros <-; by apply (Hw 38); constructor). simpl.
  rewrite IH; [done|]. intros c Hc. apply Hw. by constructor.
Qed.

(** Replacing an entity in a coded text changes the codes that are it. *)
Lemma replace_code pat by_ (f g : Z → str8) v :
  (∀ b, is_code (f b)
     ∧ (f b = 38 :: pat ∧ g b = by_
        ∨ (∀ s, starts_with (f b ++ s) (38 :: pat) = false) ∧ g b = f b)) →
  replace (v ≫= f) (38 :: pat) by_ = v ≫= g.
Proof.
  intros H. unfold replace. induction v as [|b v IH]; [done|].
  change ((b :: v) ≫= f) with (f b ++ (v ≫= f)). change ((b :: v) ≫= g) with (g b ++ (v ≫= g)).
  destruct (H b) as [Hc [(Ef & ->)|(Hno & ->)]].
  - rewrite Ef. cbn [app replace_from].
    replace (starts_with (38 :: pat ++ (v ≫= f)) (38 :: pat)) with true
      by (symmetry; apply starts_with_spec; by exists (v ≫= f)).
    cbn [length]. replace (S (length pat) - 1)%nat with (length pat) by lia. by rewrite replace_skip, IH.
  - destruct Hc as [Hw|(x & Ef & Hx)]; [by rewrite replace_no_mark, IH|].
    specialize (Hno (v ≫= f)). rewrite Ef in *. cbn [app] in *. cbn [replace_from]. rewrite Hno.
    by rewrite replace_no_mark, IH.
Qed.

(** The entities of the escaped bytes; those of [dq], [gt] and [lt] may be
    undone already. *)
Definition entity (dq gt lt amp : bool) (b : Z) : str8 :=
  if decide (b = 38) then if amp then lit "&amp;" else [b]
  else if decide (b = 60) then if lt then lit "&lt;" else [b]
  else if decide (b = 62) then if gt then lit "&gt;" else [b]
  else if decide (b = 34) then if dq then lit "&quot;" else [b]
  else [b].

Lemma elem_of_literal (P : Z → Prop) w : Forall P w → ∀ b, b ∈ w → P b.
Proof. by rewrite Forall_forall. Qed.

Lemma entity_code dq gt lt b : is_code (entity dq gt lt true b).
Proof.
  unfold entity. repeat case_decide; repeat case_match; subst;
    first [ right; eexists; split; [reflexivity|]; apply elem_of_literal; repeat constructor; discriminate
          | left; apply elem_of_literal; repeat constructor; done ].
Qed.

Ltac entity_step :=
  intros b; split; [apply entity_code|]; unfold entity; repeat case_decide; subst;
  first [ left; split; [reflexivity|done] | right; split; [intros; reflexivity|done]
        | right; split; [|done]; intros s; cbn [app starts_with]; apply andb_false_iff; left;
          apply Z.eqb_neq; congruence ].

Lemma escape_code v : escape_xml v = v ≫= entity true true true true.
Proof.
  unfold escape_xml. change (lit "&") with [38]. change (lit "<") with [60]. change (lit ">") with [62].
  rewrite !replace_byte. induction v as [|b v IH]; [done|].
  rewrite !bind_cons, !bind_app, IH. f_equal. unfold entity.
  destruct (decide (b = 38)); [by subst|]. destruct (decide (b = 60)); [by subst|].
  destruct (decide (b = 62)); [by subst|]. destruct (decide (b = 34)); [by subst|].
  cbn. rewrite !app_nil_r. repeat (rewrite decide_False by done; cbn). done.
Qed.

(** Escaping is safe and undone by unescaping: the escaped value holds no
    markup byte, and unescaping gives the value back. *)
Theorem unescape_escape v :
  unescape_xml (escape_xml v) = v ∧ ∀ b, b ∈ escape_xml v → b ≠ 60 ∧ b ≠ 62 ∧ b ≠ 34.
Proof.
  rewrite escape_code. split.
  - unfold unescape_xml. change (lit "&quot;") with (38 :: lit "quot;"). change (lit "&gt;") with (38 :: lit "gt;").
    change (lit "&lt;") with (38 :: lit "lt;"). change (lit "&amp;") with (38 :: lit "amp;").
    rewrite (replace_code _ _ _ (entity false true true true)) by entity_step.
    rewrite (replace_code _ _ _ (entity false false true true)) by entity_step.
    rewrite (replace_code _ _ _ (entity false false false true)) by entity_step.
    rewrite (replace_code _ _ _ (entity false false false false)) by entity_step.
    induction v as [|b v IH]; [done|]. rewrite bind_cons, IH. unfold entity. by repeat case_decide.
  - intros b (a & Hb & _)%list_elem_of_bind. revert b Hb. apply elem_of_literal.
    unfold entity. repeat case_decide; repeat constructor; (done || subst; done).
Qed.

(** ** Snapshots *)

(** The occurrences of [p] in [t]. *)
Fixpoint occurrences (t p : str8) : nat :=
  ((if starts_with t p then 1 else 0) + match t with [] => 0 | _ :: t => occurrences t p end)%nat.

Lemma count_endings_spec bs lf crlf cr :
  ∃ l p c, count_endings bs lf crlf cr = ((lf + l)%nat, (crlf + p)%nat, (cr + c)%nat)
    ∧ p = occurrences bs cr_lf ∧ (l + p)%nat = occurrences bs [LF] ∧ (c + p)%nat = occurrences bs [CR].
Proof.
  remember (length bs) as k eqn:Ek. assert (Hk : (length bs ≤ k)%nat) by lia. clear Ek.
  revert bs Hk lf crlf cr. induction k as [|k IH]; intros bs Hk lf crlf cr;
    (destruct bs as [|b bs]; [exists 0%nat, 0%nat, 0%nat; by rewrite !Nat.add_0_r|]); cbn [length] in Hk; [lia|].
  cbn [count_endings occurrences]. destruct (Z.eqb_spec b CR) as [->|Hcr].
  - destruct bs as [|c bs].
    + exists 0%nat, 0%nat, 1%nat. simpl. by rewrite !Nat.add_0_r, Nat.add_1_r.
    + destruct (Z.eqb_spec c LF) as [->|Hlf].
      * cbn [length] in Hk. destruct (IH bs ltac:(lia) lf (S crlf) cr) as (l & p & r & -> & Hp & Hl & Hr).
        exists l, (S p), r. split; [f_equal; f_equal; lia|]. cbn [occurrences starts_with cr_lf].
        change (starts_with (CR :: LF :: bs) cr_lf) with true. cbn. lia.
      * destruct (IH (c :: bs) ltac:(lia) lf crlf (S cr)) as (l & p & r & -> & Hp & Hl & Hr).
        exists l, p, (S r). split; [f_equal; lia|]. rewrite <- Hp, <- Hl, <- Hr.
        assert (E : starts_with (CR :: c :: bs) cr_lf = false).
        { change (((LF =? c) && true) = false). rewrite andb_true_r. apply Z.eqb_neq. congruence. }
        rewrite E. cbn. lia.
  - assert (E : starts_with (b :: bs) cr_lf = false).
    { cbn [starts_with cr_lf]. apply andb_false_iff. left. apply Z.eqb_neq. congruence. }
    assert (E' : starts_with (b :: bs) [CR] = false).
    { cbn [starts_with]. rewrite andb_true_r. by apply Z.eqb_neq, not_eq_sym. }
    rewrite E, E'. destruct (Z.eqb_spec b LF) as [->|Hlf].
    + destruct (IH bs ltac:(lia) (S lf) crlf cr) as (l & p & r & -> & Hp & Hl & Hr).
      exists (S l), p, r. split; [f_equal; f_equal; lia|].
      change (starts_with (LF :: bs) [LF]) with true. cbn iota. lia.
    + destruct (IH bs ltac:(lia) lf crlf cr) as (l & p & r & -> & Hp & Hl & Hr).
      exists l, p, r. split; [done|].
      assert (E2 : starts_with (b :: bs) [LF] = false).
      { cbn [starts_with]. rewrite andb_true_r. by apply Z.eqb_neq, not_eq_sym. }
      rewrite E2. cbn iota. lia.
Qed.

Lemma continuation_cases b lo hi :
  is_continuation b = true → hi < 128 ∨ 191 < lo → in_range lo hi b = false.
Proof.
  unfold is_continuation, in_range. intros Hb Hlh. apply andb_true_iff in Hb as [H1 H2].
  apply Z.leb_le in H1, H2. apply andb_false_iff. destruct Hlh; [right|left]; apply Z.leb_gt; lia.
Qed.

(** Well-formed text does not start inside a character. *)
Lemma valid_first b t : valid_utf8 (b :: t) = true → is_continuation b = false.
Proof.
  intros Hv. destruct (is_continuation b) eqn:Eb; [|done]. exfalso. revert Hv.
  assert (H2 : ∀ z, 191 < z → (b =? z) = false).
  { intros z Hz. apply Z.eqb_neq. intros ->. revert Eb. unfold is_continuation, in_range.
    rewrite andb_true_iff, Z.leb_le, Z.leb_le. lia. }
  cbn [valid_utf8]. rewrite !(continuation_cases b) by (done || lia). rewrite !H2 by lia.
  by destruct t as [|? [|? [|? ?]]].
Qed.

(** The text after a byte order mark starts at a character. *)
Lemma bom_boundary t : valid_utf8 (UTF8_BOM ++ t) = true → get_from (UTF8_BOM ++ t) 3 = Some t.
Proof.
  intros Hv. unfold get_from, char_boundary.
  change ((UTF8_BOM ++ t) !! 3%nat) with (t !! 0%nat). change (drop 3 (UTF8_BOM ++ t)) with t.
  destruct t as [|b t]; [done|]. cbn [lookup list_lookup].
  change (valid_utf8 (UTF8_BOM ++ b :: t)) with (valid_utf8 (b :: t)) in Hv.
  by rewrite (valid_first _ _ Hv).
Qed.

(** A snapshot of UTF-8 text is faithful: the bytes and the text after one
    byte order mark are as they came, and the profile counts the line endings
    exactly, CRLF as one ending and neither of its bytes alone. *)
Theorem snapshot_exact raw :
  if valid_utf8 raw then
    ∃ s t lf crlf cr, from_bytes raw = Ok s ∧ sn_raw s = raw ∧ snapshot_text s = Some t
      ∧ raw = (match sn_bom s with Present => UTF8_BOM | Absent => [] end) ++ t
      ∧ (sn_bom s = Absent → starts_with raw UTF8_BOM = false)
      ∧ occurrences t cr_lf = crlf ∧ occurrences t [LF] = (lf + crlf)%nat ∧ occurrences t [CR] = (cr + crlf)%nat
      ∧ sn_line_endings s
        = match lf, crlf, cr with
          | O, O, O => NoEndings
          | S _, O, O => Uniform Lf
          | O, S _, O => Uniform CrLf
          | O, O, S _ => Uniform Cr
          | _, _, _ => Mixed lf crlf cr
          end
      ∧ (∀ e, sn_terminal_line_ending s = Some e → ends_with t (as_str e) = true)
      ∧ (sn_terminal_line_ending s = None → ends_with t [LF] = false ∧ ends_with t [CR] = false)
  else from_bytes raw = Err InvalidUtf8.
Proof.
  unfold from_bytes. destruct (valid_utf8 raw) eqn:Hv; [|by destruct (starts_with raw UTF8_BOM)].
  assert (Hgen : ∃ bom start t, (if starts_with raw UTF8_BOM then (Present, length UTF8_BOM) else (Absent, 0%nat))
      = (bom, start) ∧ get_from raw start = Some t
      ∧ raw = (match bom with Present => UTF8_BOM | Absent => [] end) ++ t
      ∧ (bom = Absent → starts_with raw UTF8_BOM = false)).
  { destruct (starts_with raw UTF8_BOM) eqn:Eb.
    - apply starts_with_spec in Eb as (t & ->). exists Present, 3%nat, t. split; [done|].
      split; [by apply bom_boundary|done].
    - exists Absent, 0%nat, raw. split; [done|]. split; [|done].
      unfold get_from, char_boundary. by destruct raw. }
  destruct Hgen as (bom & start & t & -> & Eg & Er & Hb). cbn beta iota.
  rewrite Eg. cbn [ok_or]. unfold classify_line_endings.
  destruct (count_endings_spec t 0 0 0) as (lf & crlf & cr & Ec & Hp & Hl & Hc). rewrite Ec. cbn [Nat.add].
  eexists _, t, lf, crlf, cr. split; [reflexivity|]. cbn [sn_raw sn_bom sn_line_endings sn_terminal_line_ending].
  split; [done|]. split; [exact Eg|]. do 5 (split; [done|]). split; [done|]. split.
  - intros e. repeat case_match; intros; simplify_eq; done.
  - destruct (ends_with t cr_lf); [done|]. destruct (ends_with t [LF]); [done|].
    by destruct (ends_with t [CR]).
Qed.

(** ** Inserted line endings *)

Lemma back_to_le ok k : (back_to ok k ≤ k)%nat.
Proof. induction k as [|k IH]; simpl; [done|]. destruct (ok (S k)); lia. Qed.
Lemma back_to_ok ok k : ok 0%nat = true → ok (back_to ok k) = true.
Proof. intros H0. induction k as [|k IH]; simpl; [done|]. by destruct (ok (S k)) eqn:E. Qed.
Lemma back_to_here ok k : ok k = true → back_to ok k = k.
Proof. destruct k; simpl; [done|]. by intros ->. Qed.

Lemma char_boundary_0 s : char_boundary s 0 = true.
Proof. unfold char_boundary. by destruct s. Qed.
Lemma char_boundary_end s : char_boundary s (length s) = true.
Proof.
  unfold char_boundary. rewrite (proj2 (lookup_ge_None s _)) by done. by apply Nat.eqb_eq.
Qed.

Lemma common_prefix_take (s e : list Z) k :
  (k ≤ common_prefix_len s e)%nat → take k s = take k e ∧ (k ≤ length s)%nat ∧ (k ≤ length e)%nat.
Proof.
  destruct (common_prefix_split s e) as (p & s' & e' & -> & -> & -> & _). intros Hk.
  rewrite !length_app, !take_app_le by lia. split; [done|lia].
Qed.
Lemma common_suffix_drop (s e : list Z) k :
  (k ≤ common_suffix_len s e)%nat →
  drop (length s - k) s = drop (length e - k) e ∧ (k ≤ length s)%nat ∧ (k ≤ length e)%nat.
Proof.
  destruct (common_suffix_split s e) as (p & s' & e' & -> & -> & -> & _). intros Hk.
  rewrite !length_app. split; [|lia].
  rewrite !drop_app_ge by lia. f_equal. lia.
Qed.

Lemma back_to_max ok k i : (i ≤ k)%nat → ok i = true → (i ≤ back_to ok k)%nat.
Proof.
  induction k as [|k IH]; simpl; [lia|]. intros Hi Hok. destruct (ok (S k)) eqn:E; [lia|].
  apply IH; [|done]. destruct (decide (i = S k)) as [->|]; [congruence|lia].
Qed.

Lemma common_prefix_max (h x y : list Z) : (length h ≤ common_prefix_len (h ++ x) (h ++ y))%nat.
Proof. induction h as [|c h IH]; simpl; [lia|]. rewrite decide_True by done. simpl in *. lia. Qed.
Lemma common_suffix_max (t x y : list Z) : (length t ≤ common_suffix_len (x ++ t) (y ++ t))%nat.
Proof.
  unfold common_suffix_len. rewrite !reverse_app, <- (length_reverse t). apply common_prefix_max.
Qed.

(** A head, and a tail behind it, that two texts share, cut between characters
    of both. *)
Definition cut_head (before after head : str8) : Prop :=
  ∃ x y, before = head ++ x ∧ after = head ++ y
    ∧ char_boundary before (length head) = true ∧ char_boundary after (length head) = true.
Definition cut_tail (before after head tail : str8) : Prop :=
  ∃ x y, before = (head ++ x) ++ tail ∧ after = (head ++ y) ++ tail
    ∧ char_boundary before (length (head ++ x)) = true ∧ char_boundary after (length (head ++ y)) = true.

(** [string_diff_bounds] cuts off as much as it can. *)
Lemma string_diff_bounds_max before after prefix before_end after_end :
  string_diff_bounds before after = (prefix, before_end, after_end) →
  (∀ head, cut_head before after head → (length head ≤ prefix)%nat)
  ∧ (∀ head tail, length head = prefix → cut_tail before after head tail → (length tail ≤ length after - after_end)%nat).
Proof.
  unfold string_diff_bounds. set (p := back_to _ _). intros [= <- <- <-]. split.
  - intros head (x & y & -> & -> & Hb & Ha). apply back_to_max; [apply common_prefix_max|]. by rewrite Hb, Ha.
  - intros head tail Hp (x & y & -> & -> & Hb & Ha).
    set (q := back_to _ (Nat.min _ _)). assert (Hq : (q ≤ length ((head ++ y) ++ tail))%nat).
    { unfold q. etransitivity; [apply back_to_le|]. lia. }
    enough (length tail ≤ q)%nat by lia.
    apply back_to_max.
    + rewrite <- Hp, <- !(assoc_L (++)), !drop_app_length. apply Nat.min_glb; [apply common_suffix_max|].
      rewrite !length_app. lia.
    + rewrite !(length_app _ tail), !Nat.add_sub. by rewrite Hb, Ha.
Qed.

(** The three parts that [string_diff_bounds] cuts. *)
Lemma string_diff_bounds_spec before after :
  ∃ head old new tail,
    string_diff_bounds before after = (length head, (length head + length old)%nat, (length head + length new)%nat)
    ∧ before = head ++ old ++ tail ∧ after = head ++ new ++ tail
    ∧ cut_head before after head ∧ cut_tail before after head tail.
Proof.
  unfold string_diff_bounds. set (ok1 := λ i, char_boundary before i && char_boundary after i).
  set (ok2 := λ i, char_boundary before (length before - i) && char_boundary after (length after - i)).
  set (p := back_to ok1 (common_prefix_len before after)).
  set (q := back_to ok2 _).
  assert (Hp : ok1 p = true) by (apply back_to_ok; unfold ok1; by rewrite !char_boundary_0).
  assert (Hq : ok2 q = true).
  { apply back_to_ok. unfold ok2. rewrite !Nat.sub_0_r. by rewrite !char_boundary_end. }
  unfold ok1 in Hp. unfold ok2 in Hq. apply andb_true_iff in Hp as [Hp1 Hp2]. apply andb_true_iff in Hq as [Hq1 Hq2].
  destruct (common_prefix_take before after p (back_to_le _ _)) as (Et & Hpb & Hpa).
  assert (Hqle : (q ≤ common_suffix_len (drop p before) (drop p after))%nat
    ∧ (q ≤ Nat.min (length before) (length after) - p)%nat).
  { pose proof (back_to_le ok2 (Nat.min (common_suffix_len (drop p before) (drop p after))
      (Nat.min (length before) (length after) - p))). fold q in H. lia. }
  destruct (common_suffix_drop _ _ q (proj1 Hqle)) as (Ed & _ & _).
  rewrite !length_drop, !drop_drop in Ed.
  replace (p + (length before - p - q))%nat with (length before - q)%nat in Ed by lia.
  replace (p + (length after - p - q))%nat with (length after - q)%nat in Ed by lia.
  set (mid := λ l : list Z, take (length l - q - p) (drop p l)).
  assert (Hcut : ∀ l : list Z, (p + q ≤ length l)%nat →
    l = take p l ++ mid l ++ drop (length l - q) l ∧ length (take p l ++ mid l) = (length l - q)%nat).
  { intros l Hl. unfold mid. split; [|rewrite length_app, !length_take, length_drop; lia].
    rewrite <- (take_drop p l) at 1. f_equal.
    rewrite <- (take_drop (length l - q - p) (drop p l)) at 1. f_equal. rewrite drop_drop. f_equal. lia. }
  destruct (Hcut before) as [Eb Lb]; [lia|]. destruct (Hcut after) as [Ea La]; [lia|].
  rewrite <- Et, <- Ed in Ea. rewrite <- Et in La. clearbody mid q.
  exists (take p before), (mid before), (mid after), (drop (length before - q) before).
  rewrite <- !length_app, Lb, La.
  assert (Hlen : length (take p before) = p) by (rewrite length_take; lia).
  split; [by rewrite Hlen|]. do 2 (split; [done|]). split.
  - eexists _, _. split; [exact Eb|]. split; [exact Ea|]. by rewrite Hlen.
  - exists (mid before), (mid after). rewrite <- !(assoc_L (++)). split; [exact Eb|]. split; [exact Ea|].
    by rewrite Lb, La.
Qed.

(** No line feed is bare: each follows a carriage return. *)
Fixpoint no_bare_lf (previous_was_cr : bool) (t : str8) : bool :=
  match t with
  | [] => true
  | c :: t => negb ((c =? LF) && negb previous_was_cr) && no_bare_lf (c =? CR) t
  end.

Lemma no_bare_lf_after_cr t : no_bare_lf false t = true → no_bare_lf true t = true.
Proof. destruct t as [|c t]; simpl; [done|]. rewrite andb_false_r. by intros [_ ?]%andb_true_iff. Qed.

Lemma replace_bare_lf_spec prev t le :
  le = cr_lf ∨ le = [CR] → no_bare_lf prev (replace_bare_lf prev t le) = true.
Proof.
  intros Hle. revert prev. induction t as [|c t IH]; intros prev; simpl; [done|].
  destruct ((c =? LF) && negb prev) eqn:E.
  - apply andb_true_iff in E as [->%Z.eqb_eq _]. specialize (IH false). destruct Hle as [-> | ->]; [done|].
    cbn. by apply no_bare_lf_after_cr.
  - simpl. rewrite E. simpl. apply IH.
Qed.

(** The update cut at the bounds. *)
Lemma inserted_cut (source updated head old new tail : str8) :
  string_diff_bounds source updated = (length head, (length head + length old)%nat, (length head + length new)%nat) →
  updated = head ++ new ++ tail → cut_head source updated head → cut_tail source updated head tail →
  preserve_inserted_line_endings source updated
  = Some (if bool_decide (source_line_ending source = [LF]) then updated
          else head ++ replace_bare_lf false new (source_line_ending source) ++ tail).
Proof.
  intros Eb Eu (x & y & _ & _ & _ & Hh) (x' & y' & _ & Ey & _ & Ht).
  assert (y' = new) as ->.
  { rewrite Ey in Eu. rewrite <- (assoc_L (++)) in Eu. apply app_inv_head in Eu. by apply app_inv_tail in Eu. }
  unfold preserve_inserted_line_endings. case_bool_decide; [done|]. rewrite Eb. rewrite length_app in Ht.
  unfold str_range. rewrite Hh, Ht, char_boundary_0, char_boundary_end.
  replace (length head <=? length head + length new)%nat with true by (symmetry; apply Nat.leb_le; lia).
  replace (length head + length new <=? length updated)%nat with true
    by (symmetry; apply Nat.leb_le; rewrite Eu, !length_app; lia).
  cbn [andb Nat.leb mbind option_bind]. rewrite Eu, drop_app_length.
  replace (length head + length new - length head)%nat with (length new) by lia.
  rewrite take_app_length, Nat.sub_0_r, drop_0, take_app_length.
  rewrite <- drop_drop, !drop_app_length, take_ge by (rewrite !length_app; lia). reflexivity.
Qed.


(** A two-line CRLF document, edited as its LF copy, comes back. *)
Lemma unedited_text_restored_witness :
  let source := lit "<A>" ++ cr_lf ++ lit "</A>" in
  lxml_tree_serialized_text_like_source_preserving_final_newline (replace source cr_lf [LF]) source = Some source.
Proof. apply unedited_text_restored; [right; split; reflexivity|reflexivity]. Defined.
