(* ===== verification/XmlMarkup.v ===== *)
(** * Raw markup

    [crates/unica-xml-format/src/text.rs], the second half: elements, tags
    and attributes found in the bytes of a document, and the namespace
    declaration that is written into a tag.

    A slice whose ends are not given by the caller lies between ASCII bytes
    and is taken as it is; the others are checked.  The outer [None] is a
    panic, or fuel that ran out: [XmlMarkupProps] shows that it does not. *)

From Stdlib Require Import ZArith Lia Ascii String.
From stdpp Require Import base option numbers list_basics list.
From S2P Require Import Prelude Redaction.
From S2P Require Import LineDiff XmlText.

Local Open Scope Z_scope.

(** ** Attributes *)

Definition cfe_borrow_is_xml_space (b : Z) : bool :=
  (b =? 32) || (b =? 9) || (b =? 13) || (b =? 10).

(** [while index < bytes.len() && p(bytes[index]) { index += 1 }]. *)
Fixpoint run_length (p : Z → bool) (bs : list Z) : nat :=
  match bs with [] => 0 | b :: bs => if p b then S (run_length p bs) else 0 end.
Definition skip_while (p : Z → bool) (bs : list Z) (index : nat) : nat :=
  (index + run_length p (drop index bs))%nat.

Definition GT : Z := 62.
Definition LT : Z := 60.
Definition SLASH : Z := 47.
Definition EQ : Z := 61.
Definition is_quote (b : Z) : bool := (b =? 39) || (b =? 34).
Definition tag_name_byte (b : Z) : bool := negb (cfe_borrow_is_xml_space b) && negb (b =? GT).
Definition attribute_name_byte (b : Z) : bool :=
  negb (cfe_borrow_is_xml_space b) && negb ((b =? EQ) || (b =? GT) || (b =? SLASH)).

Inductive AttributeSyntaxError := SyntaxError.

(** What a round of [while index < bytes.len()] does: return, or go on. *)
Inductive AttributeRound :=
| Return (r : result (option (nat * nat)) AttributeSyntaxError)
| Continue (index : nat).

Definition attribute_round (bs : list Z) (attribute_name : str8) (index : nat) : AttributeRound :=
  let index := skip_while cfe_borrow_is_xml_space bs index in
  match bs !! index with
  | None => Return (Ok None)
  | Some b =>
      if (b =? GT) || (b =? SLASH) then Return (Ok None)
      else
        let name_start := index in
        let index := skip_while attribute_name_byte bs index in
        let is_target := bool_decide (take (index - name_start) (drop name_start bs) = attribute_name) in
        let index := skip_while cfe_borrow_is_xml_space bs index in
        if bool_decide (bs !! index ≠ Some EQ) then
          if is_target then Return (Err SyntaxError) else Continue index
        else
          let index := skip_while cfe_borrow_is_xml_space bs (S index) in
          match bs !! index with
          | Some quote =>
              if is_quote quote then
                let value_start := S index in
                let index := skip_while (λ b, negb (b =? quote)) bs value_start in
                if (length bs <=? index)%nat then
                  Return (if is_target then Err SyntaxError else Ok None)
                else if is_target then Return (Ok (Some (value_start, index)))
                else Continue (S index)
              else if is_target then Return (Err SyntaxError)
              else Continue (skip_while tag_name_byte bs index)
          | None =>
              if is_target then Return (Err SyntaxError)
              else Continue (skip_while tag_name_byte bs index)
          end
  end.

Fixpoint attribute_loop (fuel : nat) (bs : list Z) (attribute_name : str8) (index : nat)
    : option (result (option (nat * nat)) AttributeSyntaxError) :=
  match fuel with
  | O => None
  | S fuel =>
      if (index <? length bs)%nat then
        match attribute_round bs attribute_name index with
        | Return r => Some r
        | Continue index => attribute_loop fuel bs attribute_name index
        end
      else Some (Ok None)
  end.

Definition cfe_borrow_xml_attribute_value_range (open_tag attribute_name : str8)
    : option (result (option (nat * nat)) AttributeSyntaxError) :=
  let index := if bool_decide (open_tag !! 0%nat = Some LT) then 1%nat else 0%nat in
  let index := skip_while tag_name_byte open_tag index in
  attribute_loop (S (length open_tag)) open_tag attribute_name index.

(** ** Namespace declarations *)

(** [s.replace_range(from..to, by)] and [s.insert_str(at, by)]. *)
Definition replace_range (s : str8) (from to : nat) (by_ : str8) : str8 :=
  take from s ++ by_ ++ drop to s.
Definition insert_str (s : str8) (at_ : nat) (by_ : str8) : str8 := take at_ s ++ by_ ++ drop at_ s.

Definition xmlns (prefix : str8) : str8 := lit "xmlns:" ++ prefix.

Definition cfe_borrow_ensure_namespace_declaration (open_tag prefix namespace : str8) : option str8 :=
  range ← cfe_borrow_xml_attribute_value_range open_tag (xmlns prefix);
  match range with
  | Ok (Some (value_start, value_end)) =>
      Some (if bool_decide (take (value_end - value_start) (drop value_start open_tag) ≠ namespace)
            then replace_range open_tag value_start value_end namespace else open_tag)
  | Err _ => Some open_tag
  | Ok None =>
      let insert_at :=
        default (length open_tag) (or_option (rfind open_tag (lit "/>")) (rfind open_tag (lit ">"))) in
      Some (insert_str open_tag insert_at
              (lit " xmlns:" ++ prefix ++ [EQ; 34] ++ namespace ++ [34]))
  end.

(** ** Elements *)

(** One of the two spellings; [None] of the inner option is [continue]. *)
Definition element_bounds (xml_text tag : str8) (start : nat)
    : option (option (nat * nat * nat * nat * str8 * str8)) :=
  rest ← get_from xml_text start;
  Some (
    open_rel ← find rest ([LT] ++ tag);
    let open_start := (start + open_rel)%nat in
    open_end_rel ← find (drop open_start xml_text) [GT];
    let content_start := (open_start + open_end_rel + 1)%nat in
    let close_tag := lit "</" ++ tag ++ [GT] in
    close_rel ← find (drop content_start xml_text) close_tag;
    let close_start := (content_start + close_rel)%nat in
    let close_end := (close_start + length close_tag)%nat in
    let open_tag := take (content_start - open_start) (drop open_start xml_text) in
    Some (open_start, content_start, close_start, close_end, open_tag, close_tag)).

Definition find_element_bounds (xml_text local_name : str8) (start : nat)
    : option (option (nat * nat * nat * nat * str8 * str8)) :=
  first ← element_bounds xml_text local_name start;
  match first with
  | Some _ => Some first
  | None => element_bounds xml_text (lit "md:" ++ local_name) start
  end.

(** [rsplit_once(':')]. *)
Definition cfe_borrow_tag_local_name (raw_name : str8) : str8 :=
  match rfind raw_name (lit ":") with
  | Some i => drop (S i) raw_name
  | None => raw_name
  end.

(** The character at the front of well-formed bytes, and its length. *)
Definition next_char (bs : list Z) : option (Z * nat) :=
  match bs with
  | [] => None
  | a :: bs =>
      if a <? 128 then Some (a, 1%nat)
      else match bs with
      | [] => None
      | b :: bs =>
          if a <? 224 then Some ((a - 192) * 64 + (b - 128), 2%nat)
          else match bs with
          | [] => None
          | c :: bs =>
              if a <? 240 then Some ((a - 224) * 4096 + (b - 128) * 64 + (c - 128), 3%nat)
              else match bs with
              | [] => None
              | d :: _ => Some ((a - 240) * 262144 + (b - 128) * 4096 + (c - 128) * 64 + (d - 128), 4%nat)
              end
          end
      end
  end.

(** The loop over [text[after..].char_indices()]: where the name ends.  The
    fuel counts characters, of which there are no more than bytes. *)
Fixpoint name_length (fuel : nat) (bs : list Z) : nat :=
  match fuel with
  | O => 0
  | S fuel =>
      match next_char bs with
      | None => 0
      | Some (ch, len) =>
          if is_whitespace ch || (ch =? GT) || (ch =? SLASH) then 0
          else (len + name_length fuel (drop len bs))%nat
      end
  end.

Record CfeBorrowTag := mkTag { bt_local_name : str8; bt_end : nat; bt_self_closing : bool }.

(** [open_tag] ends with [>], so that [trim_end] leaves it as it is. *)
Definition cfe_borrow_start_tag_at (t : str8) (open : nat) : option CfeBorrowTag :=
  rest ← get_from t open;
  if negb (starts_with rest [LT]) || starts_with rest (lit "</") || starts_with rest (lit "<?")
     || starts_with rest (lit "<!") then None
  else
    let after := drop (S open) t in
    let name_end := name_length (length after) after in
    if (name_end =? 0)%nat then None
    else
      let raw_name := take name_end after in
      gt_rel ← find (drop open t) [GT];
      let gt := (gt_rel + open)%nat in
      let open_tag := take (S gt - open) (drop open t) in
      Some (mkTag (cfe_borrow_tag_local_name raw_name) (S gt) (ends_with open_tag (lit "/>"))).

(** [while let Some(rel_open) = text[cursor..].find('<')]: every round moves
    the cursor. *)
Fixpoint find_start_tag_from (fuel : nat) (t local_name : str8) (cursor : nat) : option (option nat) :=
  match fuel with
  | O => None
  | S fuel =>
      rest ← get_from t cursor;
      match find rest [LT] with
      | None => Some None
      | Some rel_open =>
          let open := (cursor + rel_open)%nat in
          match cfe_borrow_start_tag_at t open with
          | Some tag =>
              if bool_decide (bt_local_name tag = local_name) then Some (Some open)
              else find_start_tag_from fuel t local_name (bt_end tag)
          | None => find_start_tag_from fuel t local_name (S open)
          end
      end
  end.
Definition cfe_borrow_find_start_tag (t local_name : str8) (offset : nat) : option (option nat) :=
  find_start_tag_from (S (length t)) t local_name offset.

(** ** Lines around an offset *)

Definition form_edit_line_indent (line : str8) : str8 := take (run_length (λ b, b =? 9) line) line.
Definition form_edit_line_indent_at (xml_text : str8) (pos : nat) : option str8 :=
  before ← str_range xml_text 0 pos;
  let line_start := match rfind before [LF] with Some i => S i | None => 0%nat end in
  Some (form_edit_line_indent (drop line_start before)).

Definition event_line_start (t : str8) (offset : nat) : option nat :=
  before ← str_range t 0 offset;
  Some match rfind before [LF] with Some newline => S newline | None => 0%nat end.

(** The ending whose line feed is at [newline]. *)
Definition ending_at (bytes : list Z) (newline : nat) : LineEnding :=
  if (0 <? newline)%nat && bool_decide (bytes !! (newline - 1)%nat = Some CR) then CrLf else Lf.

(** [event_local_line_ending]; the message is not modelled. *)
Definition event_local_line_ending (t : str8) (offset : nat) : option (result (option LineEnding) unit) :=
  if (offset <=? length t)%nat then
    let previous := ending_at t <$> rfind (take offset t) [LF] in
    let next := (λ relative, ending_at t (offset + relative)%nat) <$> find (drop offset t) [LF] in
    Some match previous, next with
         | Some left_, Some right_ => if bool_decide (left_ ≠ right_) then Err tt else Ok (Some left_)
         | Some value, None | None, Some value => Ok (Some value)
         | None, None => Ok None
         end
  else None.
