(* ===== verification/XmlMarkupProps.v ===== *)
(** * Raw markup: theorems

    The attribute search ends on any bytes and returns the inside of a quoted
    value; on a well-formed tag it is the lookup of an attribute by its name,
    and declaring a namespace sets that attribute and nothing else. *)

From Stdlib Require Import ZArith Lia Ascii String.
From stdpp Require Import base option numbers list_basics list.
From S2P Require Import Prelude Redaction.
From S2P Require Import LineDiff XmlText.
From S2P Require Import XmlTextProps XmlMarkup.

Local Open Scope Z_scope.

(** ** Skipping *)

Lemma run_length_le p bs : (run_length p bs ≤ length bs)%nat.
Proof. induction bs as [|b bs IH]; simpl; [done|]. destruct (p b); lia. Qed.
Lemma run_length_all p bs i b :
  bs !! i = Some b → (i < run_length p bs)%nat → p b = true.
Proof.
  revert i. induction bs as [|c bs IH]; intros i Hi Hlt; simpl in *; [lia|].
  destruct (p c) eqn:E; [|lia]. destruct i; simpl in *; [by simplify_eq|]. apply (IH i); [done|lia].
Qed.
Lemma run_length_stop p bs b : bs !! run_length p bs = Some b → p b = false.
Proof.
  induction bs as [|c bs IH]; simpl; [done|]. destruct (p c) eqn:E; simpl; [done|]. by intros [= <-].
Qed.

Lemma skip_while_le p bs i : (i ≤ skip_while p bs i)%nat.
Proof. unfold skip_while. lia. Qed.
Lemma skip_while_bound p bs i : (i ≤ length bs → skip_while p bs i ≤ length bs)%nat.
Proof. unfold skip_while. pose proof (run_length_le p (drop i bs)). rewrite length_drop in *. lia. Qed.
Lemma skip_while_stop p bs i b : bs !! skip_while p bs i = Some b → p b = false.
Proof. unfold skip_while. rewrite <- lookup_drop. apply run_length_stop. Qed.
Lemma skip_while_all p bs i j b :
  (i ≤ j < skip_while p bs i)%nat → bs !! j = Some b → p b = true.
Proof.
  unfold skip_while. intros Hj Hb. apply (run_length_all p (drop i bs) (j - i)); [|lia].
  rewrite lookup_drop. by replace (i + (j - i))%nat with j by lia.
Qed.
Lemma skip_while_moves p bs i b : bs !! i = Some b → p b = true → (i < skip_while p bs i)%nat.
Proof. intros Hb Hp. unfold skip_while. rewrite (drop_S _ _ _ Hb). simpl. rewrite Hp. lia. Qed.

(** Over a known run. *)
Lemma skip_while_run p pre w rest :
  Forall (λ b, p b = true) w → (∀ b, hd_error rest = Some b → p b = false) →
  skip_while p (pre ++ w ++ rest) (length pre) = (length pre + length w)%nat.
Proof.
  intros Hw Hr. unfold skip_while. rewrite drop_app_length. f_equal.
  induction Hw as [|b w Hb _ IH]; simpl; [|by rewrite Hb, IH].
  destruct rest as [|b rest]; simpl; [done|]. by rewrite (Hr b).
Qed.

(** ** The search ends *)

(** The inside of a quoted value. *)
Definition quoted (bs : list Z) (from to : nat) : Prop :=
  (0 < from ≤ to)%nat ∧ ∃ q, is_quote q = true ∧ bs !! (from - 1)%nat = Some q ∧ bs !! to = Some q
    ∧ ∀ j, (from ≤ j < to)%nat → bs !! j ≠ Some q.

Lemma attribute_round_spec bs name index :
  (index < length bs)%nat →
  match attribute_round bs name index with
  | Continue index' => (index < index' ≤ length bs)%nat
  | Return (Ok (Some (from, to))) => quoted bs from to
  | Return _ => True
  end.
Proof.
  intros Hi. unfold attribute_round. set (i1 := skip_while cfe_borrow_is_xml_space bs index).
  assert (H1 : (index ≤ i1 ≤ length bs)%nat)
    by (split; [apply skip_while_le|apply skip_while_bound; lia]).
  destruct (bs !! i1) as [b|] eqn:Eb; [|done].
  pose proof (skip_while_stop _ _ _ _ Eb) as Hsp.
  destruct ((b =? GT) || (b =? SLASH)) eqn:Ec; [done|].
  set (i2 := skip_while attribute_name_byte bs i1).
  set (i3 := skip_while cfe_borrow_is_xml_space bs i2).
  set (target := bool_decide (take (i2 - i1) (drop i1 bs) = name)).
  assert (H2 : (i1 ≤ i2 ≤ length bs)%nat)
    by (split; [apply skip_while_le|apply skip_while_bound; lia]).
  assert (H3 : (i2 ≤ i3 ≤ length bs)%nat)
    by (split; [apply skip_while_le|apply skip_while_bound; lia]).
  pose proof (lookup_lt_Some _ _ _ Eb) as Hlt1.
  destruct (bool_decide (bs !! i3 ≠ Some EQ)) eqn:Eeq.
  - destruct target; [done|]. apply bool_decide_eq_true in Eeq.
    assert (Hm : attribute_name_byte b = true → (i1 < i2)%nat) by (by apply (skip_while_moves _ _ _ _ Eb)).
    unfold attribute_name_byte in Hm. rewrite Hsp in Hm. apply orb_false_iff in Ec as [Eg Es].
    rewrite Eg, Es, !orb_false_r in Hm. simpl in Hm.
    destruct (Z.eqb_spec b EQ) as [->|Hne]; [|specialize (Hm eq_refl); lia].
    enough (i1 < i3)%nat by lia. destruct (decide (i1 = i3)) as [E|E]; [|lia]. congruence.
  - apply bool_decide_eq_false, dec_stable in Eeq. pose proof (lookup_lt_Some _ _ _ Eeq) as Hlt3.
    set (i4 := skip_while cfe_borrow_is_xml_space bs (S i3)).
    assert (H4 : (S i3 ≤ i4 ≤ length bs)%nat)
      by (split; [apply skip_while_le|apply skip_while_bound; lia]).
    destruct (bs !! i4) as [q|] eqn:Eq.
    + pose proof (lookup_lt_Some _ _ _ Eq) as Hlt4. destruct (is_quote q) eqn:Hq.
      * set (i5 := skip_while (λ b, negb (b =? q)) bs (S i4)).
        assert (H5 : (S i4 ≤ i5 ≤ length bs)%nat)
          by (split; [apply skip_while_le|apply skip_while_bound; lia]).
        destruct (Nat.leb_spec (length bs) i5); [by destruct target|]. destruct target; [|lia].
        split; [lia|]. exists q. split; [done|]. replace (S i4 - 1)%nat with i4 by lia. split; [done|].
        destruct (lookup_lt_is_Some_2 bs i5) as [c Hc]; [lia|].
        pose proof (skip_while_stop _ _ _ _ Hc) as Hs. apply negb_false_iff, Z.eqb_eq in Hs as ->.
        split; [done|]. intros j Hj E. pose proof (skip_while_all _ _ _ _ _ Hj E) as Hn.
        simpl in Hn. by rewrite Z.eqb_refl in Hn.
      * destruct target; [done|]. pose proof (skip_while_le tag_name_byte bs i4).
        pose proof (skip_while_bound tag_name_byte bs i4). lia.
    + destruct target; [done|]. pose proof (skip_while_le tag_name_byte bs i4).
      pose proof (skip_while_bound tag_name_byte bs i4). lia.
Qed.

Lemma attribute_loop_spec fuel bs name index :
  (length bs - index < fuel)%nat →
  ∃ r, attribute_loop fuel bs name index = Some r
    ∧ ∀ from to, r = Ok (Some (from, to)) → quoted bs from to.
Proof.
  revert index. induction fuel as [|fuel IH]; intros index Hf; [lia|]. simpl.
  destruct (Nat.ltb_spec index (length bs)) as [Hlt|Hge]; [|by exists (Ok None)].
  pose proof (attribute_round_spec bs name index Hlt) as Hr.
  destruct (attribute_round bs name index) as [r|index']; [|apply IH; lia].
  exists r. split; [done|]. by intros from to ->.
Qed.

(** The attribute search returns on any bytes, however malformed: its loop
    moves on in every round, and a range it finds is the inside of a quoted
    value, between two equal quotes and without that quote. *)
Theorem attribute_search_ends open_tag name :
  ∃ r, cfe_borrow_xml_attribute_value_range open_tag name = Some r
    ∧ ∀ from to, r = Ok (Some (from, to)) → quoted open_tag from to.
Proof. apply attribute_loop_spec. lia. Qed.

(** ** Well-formed tags *)

(** An attribute as it is spelled: the space before it, the spaces around its
    equals sign and its quote belong to it. *)
Record Attribute := mkAttribute {
  at_space : str8; at_name : str8; at_before : str8; at_after : str8; at_quote : Z; at_value : str8 }.
Record OpenTag := mkOpenTag {
  ot_name : str8; ot_attributes : list Attribute; ot_space : str8; ot_empty : bool }.

Definition render_attribute (a : Attribute) : str8 :=
  at_space a ++ at_name a ++ at_before a ++ [EQ] ++ at_after a ++ [at_quote a] ++ at_value a ++ [at_quote a].
Definition render_body (t : OpenTag) : str8 :=
  [LT] ++ ot_name t ++ concat (render_attribute <$> ot_attributes t) ++ ot_space t.
Definition render (t : OpenTag) : str8 := render_body t ++ (if ot_empty t then lit "/>" else lit ">").

Definition all_spaces (s : str8) : Prop := Forall (λ b, cfe_borrow_is_xml_space b = true) s.
Definition name_ok (s : str8) : Prop := s ≠ [] ∧ Forall (λ b, attribute_name_byte b = true) s.
Definition attribute_ok (a : Attribute) : Prop :=
  at_space a ≠ [] ∧ all_spaces (at_space a) ∧ name_ok (at_name a) ∧ all_spaces (at_before a)
  ∧ all_spaces (at_after a) ∧ is_quote (at_quote a) = true ∧ at_quote a ∉ at_value a.
Definition tag_ok (t : OpenTag) : Prop :=
  Forall (λ b, tag_name_byte b = true) (ot_name t) ∧ Forall attribute_ok (ot_attributes t)
  ∧ all_spaces (ot_space t).

(** Names, spaces and quotes do not mix. *)
Lemma name_byte_not_space b : attribute_name_byte b = true → cfe_borrow_is_xml_space b = false.
Proof. unfold attribute_name_byte. by destruct (cfe_borrow_is_xml_space b). Qed.
Lemma space_not_name_byte b : cfe_borrow_is_xml_space b = true → attribute_name_byte b = false.
Proof. unfold attribute_name_byte. by intros ->. Qed.
Lemma quote_not_space b : is_quote b = true → cfe_borrow_is_xml_space b = false.
Proof. unfold is_quote. intros H. apply orb_true_iff in H as [H|H]; apply Z.eqb_eq in H as ->; done. Qed.
Lemma name_byte_not_close b : attribute_name_byte b = true → (b =? GT) || (b =? SLASH) = false.
Proof.
  unfold attribute_name_byte.
  by destruct (cfe_borrow_is_xml_space b), (b =? GT), (b =? SLASH), (b =? EQ).
Qed.

(** The byte after spaces or names. *)
Lemma hd_spaces w b rest c :
  all_spaces w → cfe_borrow_is_xml_space b = true ∨ attribute_name_byte b = false →
  hd_error (w ++ b :: rest) = Some c → attribute_name_byte c = false.
Proof.
  intros Hw Hb. destruct Hw as [|d w Hd _]; simpl; intros [= <-].
  - destruct Hb as [Hb|Hb]; [by apply space_not_name_byte|done].
  - by apply space_not_name_byte.
Qed.

Lemma lookup_after (pre : list Z) b rest : (pre ++ b :: rest) !! length pre = Some b.
Proof. by rewrite list_lookup_middle. Qed.

(** The search runs over [w] after [pre]; or steps over one byte. *)
Ltac over pre w next :=
  rewrite (skip_while_run _ pre w), <- length_app, ?(assoc_L (++) pre w); [set (next := pre ++ w)|..].
Ltac past pre b next :=
  set (next := pre ++ [b]);
  repeat match goal with
  | |- context [pre ++ b :: ?r] =>
      replace (pre ++ b :: r) with (next ++ r) by (unfold next; by rewrite <- (assoc_L (++)))
  end;
  replace (S (length pre)) with (length next) by (unfold next; rewrite length_app; simpl; lia).

(** A round over an attribute: it is the one looked for, or the search goes
    on after it. *)
Lemma attribute_round_render pre a rest target :
  attribute_ok a →
  attribute_round (pre ++ render_attribute a ++ rest) target (length pre)
  = let from := (length pre + length (at_space a ++ at_name a ++ at_before a ++ [EQ] ++ at_after a) + 1)%nat in
    if decide (at_name a = target) then Return (Ok (Some (from, (from + length (at_value a))%nat)))
    else Continue (length pre + length (render_attribute a)).
Proof.
  intros (Hs & Hsp & (Hn & Hname) & Hb & Ha & Hq & Hv). destruct a as [sp nm wb wa q v]. simpl in *.
  unfold attribute_round, render_attribute. cbn [at_space at_name at_before at_after at_quote at_value].
  destruct nm as [|n0 nm]; [done|]. apply Forall_cons in Hname as [Hn0 Hname].
  rewrite <- !(assoc_L (++)). cbn [app].
  over pre sp p1; [|done|simpl; intros ? [= <-]; by apply name_byte_not_space].
  rewrite lookup_after, name_byte_not_close by done. change (n0 :: nm ++ ?x) with ((n0 :: nm) ++ x).
  over p1 (n0 :: nm) p2; [|by constructor|intros c; apply hd_spaces; [done|by right]].
  replace (take (length p2 - length p1) (drop (length p1) _)) with (n0 :: nm)
    by (unfold p2; rewrite length_app, <- (assoc_L (++)), drop_app_length, Nat.add_sub'; by rewrite take_app_length).
  over p2 wb p3; [|done|by intros ? [= <-]].
  rewrite lookup_after, bool_decide_eq_false_2 by (intros H; by apply H). past p3 EQ p4.
  over p4 wa p5; [|done|simpl; intros ? [= <-]; by apply quote_not_space].
  rewrite lookup_after, Hq. past p5 q p6.
  over p6 v p7; [|apply Forall_forall; intros b Hin; apply negb_true_iff, Z.eqb_neq; by intros ->
    |simpl; intros ? [= <-]; by rewrite Z.eqb_refl].
  replace (length (p7 ++ q :: rest) <=? length p7)%nat with false
    by (symmetry; apply Nat.leb_gt; rewrite length_app; simpl; lia).
  assert (Hlen : length p6 = (length pre + length (sp ++ (n0 :: nm) ++ wb ++ [EQ] ++ wa) + 1)%nat).
  { unfold p6, p5, p4, p3, p2, p1. rewrite !length_app. simpl. lia. }
  assert (Hlen7 : length p7 = (length p6 + length v)%nat) by (unfold p7; by rewrite length_app).
  cbn zeta. destruct (decide (n0 :: nm = target)) as [E|E].
  - rewrite bool_decide_eq_true_2 by done. by rewrite Hlen7, Hlen.
  - rewrite bool_decide_eq_false_2 by done. f_equal. rewrite Hlen7, Hlen.
    do 3 (rewrite !length_app; simpl). lia.
Qed.

(** ** The search over a tag *)

Definition render_attributes (l : list Attribute) : str8 := concat (render_attribute <$> l).

Lemma render_attributes_app l1 l2 : render_attributes (l1 ++ l2) = render_attributes l1 ++ render_attributes l2.
Proof. unfold render_attributes. by rewrite fmap_app, concat_app. Qed.
Lemma render_attributes_cons a l : render_attributes (a :: l) = render_attribute a ++ render_attributes l.
Proof. done. Qed.

Lemma render_attribute_length a : (0 < length (render_attribute a))%nat.
Proof. unfold render_attribute. rewrite !length_app. simpl. lia. Qed.
Lemma attributes_length l : (length l ≤ length (render_attributes l))%nat.
Proof.
  induction l as [|a l IH]; [done|]. rewrite render_attributes_cons, length_app. simpl.
  pose proof (render_attribute_length a). lia.
Qed.

(** Attributes of other names are passed. *)
Lemma attribute_loop_pass l pre rest target fuel :
  Forall attribute_ok l → Forall (λ a, at_name a ≠ target) l →
  attribute_loop (length l + fuel) (pre ++ render_attributes l ++ rest) target (length pre)
  = attribute_loop fuel ((pre ++ render_attributes l) ++ rest) target (length (pre ++ render_attributes l)).
Proof.
  revert pre. induction l as [|a l IH]; intros pre Hok Hne.
  - unfold render_attributes. simpl. by rewrite !app_nil_r.
  - apply Forall_cons in Hok as [Ha Hok]. apply Forall_cons in Hne as [Hna Hne].
    rewrite render_attributes_cons, <- (assoc_L (++)). cbn [length Nat.add attribute_loop].
    replace (length pre <? length (pre ++ render_attribute a ++ render_attributes l ++ rest))%nat with true.
    2: { symmetry. apply Nat.ltb_lt. rewrite !length_app. pose proof (render_attribute_length a). lia. }
    rewrite attribute_round_render by done. rewrite decide_False by done. cbn zeta iota.
    rewrite <- length_app, (assoc_L (++) pre), IH by done. by rewrite !(assoc_L (++)).
Qed.

Definition closing (empty : bool) : str8 := if empty then lit "/>" else lit ">".

Lemma attribute_loop_end pre space empty target fuel :
  all_spaces space → attribute_loop (S fuel) (pre ++ space ++ closing empty) target (length pre) = Some (Ok None).
Proof.
  intros Hs. cbn [attribute_loop].
  replace (length pre <? length (pre ++ space ++ closing empty))%nat with true
    by (symmetry; apply Nat.ltb_lt; rewrite !length_app; destruct empty; simpl; lia).
  unfold attribute_round.
  over pre space p; [|done|by destruct empty; intros ? [= <-]].
  destruct empty; [change (closing true) with [SLASH; GT]|change (closing false) with [GT]];
    by rewrite lookup_after.
Qed.

(** The search starts after the name of the tag. *)
Lemma search_starts t target :
  tag_ok t →
  let head := [LT] ++ ot_name t in
  cfe_borrow_xml_attribute_value_range (render t) target
  = attribute_loop (S (length (render t))) (head ++ render_attributes (ot_attributes t) ++ ot_space t ++ closing (ot_empty t))
      target (length head)
  ∨ ot_attributes t = [] ∧ cfe_borrow_xml_attribute_value_range (render t) target = Some (Ok None).
Proof.
  intros (Hn & Ha & Hs) head. unfold cfe_borrow_xml_attribute_value_range.
  assert (Er : render t = [LT] ++ ot_name t ++ render_attributes (ot_attributes t) ++ ot_space t ++ closing (ot_empty t)).
  { unfold render, render_body, render_attributes, closing. by rewrite <- !(assoc_L (++)). }
  rewrite Er. change (([LT] ++ ?x) !! 0%nat) with (Some LT). rewrite bool_decide_eq_true_2 by done.
  change 1%nat with (length [LT]).
  destruct (ot_attributes t) as [|a l] eqn:El.
  - right. split; [done|]. change (render_attributes [] ++ ?x) with x.
    destruct (ot_space t) as [|b s] eqn:Es.
    + (* the name runs up to the [>] *)
      set (slash := if ot_empty t then [SLASH] else [] : str8).
      replace ([LT] ++ ot_name t ++ [] ++ closing (ot_empty t))
        with ([LT] ++ (ot_name t ++ slash) ++ [GT]) by (unfold slash; destruct (ot_empty t); by rewrite <- !(assoc_L (++))).
      over [LT] (ot_name t ++ slash) p;
        [|apply Forall_app; split; [done|unfold slash; destruct (ot_empty t); by repeat constructor]|by intros ? [= <-]].
      apply (attribute_loop_end p [] false). constructor.
    + apply Forall_cons in Hs as [Hb Hs]. over [LT] (ot_name t) p;
        [|done|intros ? [= <-]; unfold tag_name_byte; by rewrite Hb].
      apply (attribute_loop_end p (b :: s)). by constructor.
  - left. over [LT] (ot_name t) p; [done|done|].
    apply Forall_cons in Ha as [(Hne & Hsp & _) _]. rewrite render_attributes_cons. unfold render_attribute.
    destruct (at_space a) as [|b s]; [done|]. apply Forall_cons in Hsp as [Hb _].
    intros ? [= <-]. unfold tag_name_byte. by rewrite Hb.
Qed.

(** An absent name is not found. *)
Lemma range_absent t target :
  tag_ok t → Forall (λ a, at_name a ≠ target) (ot_attributes t) →
  cfe_borrow_xml_attribute_value_range (render t) target = Some (Ok None).
Proof.
  intros Ht Hne. destruct (search_starts t target Ht) as [->|[_ ->]]; [|done]. destruct Ht as (_ & Ha & Hs).
  set (head := [LT] ++ ot_name t). set (l := ot_attributes t) in *.
  assert (Hf : (length l + 1 ≤ S (length (render t)))%nat).
  { pose proof (attributes_length l). unfold render, render_body. fold l. fold (render_attributes l).
    rewrite !length_app. lia. }
  replace (S (length (render t))) with (length l + S (length (render t) - length l))%nat by lia.
  rewrite attribute_loop_pass by done. by apply attribute_loop_end.
Qed.

(** The first attribute of a name is found, at its value. *)
Lemma range_present t l1 a l2 :
  tag_ok t → ot_attributes t = l1 ++ a :: l2 → Forall (λ b, at_name b ≠ at_name a) l1 →
  ∃ before after,
    render t = before ++ at_value a ++ after
    ∧ cfe_borrow_xml_attribute_value_range (render t) (at_name a)
      = Some (Ok (Some (length before, (length before + length (at_value a))%nat)))
    ∧ ∀ v, render (mkOpenTag (ot_name t)
               (l1 ++ mkAttribute (at_space a) (at_name a) (at_before a) (at_after a) (at_quote a) v :: l2)
               (ot_space t) (ot_empty t)) = before ++ v ++ after.
Proof.
  intros Ht El Hne. set (head := [LT] ++ ot_name t).
  set (tail := render_attributes l2 ++ ot_space t ++ closing (ot_empty t)).
  set (before := head ++ render_attributes l1 ++ at_space a ++ at_name a ++ at_before a ++ [EQ] ++ at_after a ++ [at_quote a]).
  assert (Hr : ∀ v, render (mkOpenTag (ot_name t)
               (l1 ++ mkAttribute (at_space a) (at_name a) (at_before a) (at_after a) (at_quote a) v :: l2)
               (ot_space t) (ot_empty t)) = before ++ v ++ [at_quote a] ++ tail).
  { intros v. unfold render, render_body, before, head, tail. cbn [ot_name ot_attributes ot_space ot_empty].
    fold (render_attributes (l1 ++ mkAttribute (at_space a) (at_name a) (at_before a) (at_after a) (at_quote a) v :: l2)).
    rewrite render_attributes_app, render_attributes_cons. unfold render_attribute at 1. cbn [at_space at_name at_before at_after at_quote at_value].
    by rewrite <- !(assoc_L (++)). }
  assert (Ea : a = mkAttribute (at_space a) (at_name a) (at_before a) (at_after a) (at_quote a) (at_value a)) by by destruct a.
  assert (Et : t = mkOpenTag (ot_name t) (l1 ++ a :: l2) (ot_space t) (ot_empty t)) by (destruct t; simpl in *; by subst).
  exists before, ([at_quote a] ++ tail). split; [rewrite Et at 1; rewrite Ea at 1; apply Hr|]. split; [|done].
  destruct (search_starts t (at_name a) Ht) as [->|[E _]]; [|rewrite El in E; by destruct l1].
  destruct Ht as (_ & Hok & Hs). rewrite El in *. apply Forall_app in Hok as [Hok1 Hok2].
  apply Forall_cons in Hok2 as [Hoka _].
  assert (Hf : (length l1 + 1 ≤ S (length (render t)))%nat).
  { pose proof (attributes_length l1). unfold render, render_body. fold (render_attributes (ot_attributes t)).
    rewrite El, render_attributes_app, !length_app. lia. }
  replace (S (length (render t))) with (length l1 + S (length (render t) - length l1))%nat by lia.
  rewrite render_attributes_app, render_attributes_cons, <- !(assoc_L (++)). fold tail.
  rewrite (assoc_L (++) [LT]). fold head.
  rewrite attribute_loop_pass by done. cbn [attribute_loop].
  set (p := head ++ render_attributes l1).
  replace (length p <? length (p ++ render_attribute a ++ tail))%nat with true.
  2: { symmetry. apply Nat.ltb_lt. rewrite !length_app. pose proof (render_attribute_length a). lia. }
  rewrite attribute_round_render, decide_True by done. cbn zeta iota.
  assert (Hb : length before = (length p + length (at_space a ++ at_name a ++ at_before a ++ [EQ] ++ at_after a) + 1)%nat).
  { unfold before, p. rewrite !length_app. simpl. lia. }
  by rewrite Hb.
Qed.

(** ** Declaring a namespace *)

(** Where the tag closes: [rfind] sees its last bytes. *)
Lemma rfind_none s p : p ≠ [] → contains s p = false → rfind s p = None.
Proof.
  intros Hp. induction s as [|c s IH]; cbn [contains rfind]; [by destruct p|].
  intros [E H]%orb_false_iff. by rewrite IH, E.
Qed.
Lemma rfind_end body p : p ≠ [] → rfind p p = Some 0%nat → rfind (body ++ p) p = Some (length body).
Proof. intros Hp Hb. induction body as [|c s IH]; simpl; [done|]. by rewrite IH. Qed.

Lemma contains_slash_gt body :
  contains (body ++ [GT]) (lit "/>") = true → contains body (lit "/>") = true ∨ ends_with body [SLASH] = true.
Proof.
  rewrite !contains_spec, ends_with_spec. intros (a & b & E). change (lit "/>") with ([SLASH] ++ [GT]) in *.
  destruct b as [|c b _] using rev_ind.
  - right. exists a. rewrite app_nil_r, (assoc_L (++)) in E. by apply app_inj_tail in E as [-> _].
  - left. exists a, b. rewrite (assoc_L (++)), (assoc_L (++)) in E. apply app_inj_tail in E as [-> _].
    by rewrite <- !(assoc_L (++)).
Qed.

(** The attribute of the name gets the value, keeping its spelling; without
    one, a new attribute follows the others. *)
Fixpoint set_attribute (name value space : str8) (l : list Attribute) : list Attribute :=
  match l with
  | [] => [mkAttribute (space ++ [32]) name [] [] 34 value]
  | a :: l => if decide (at_name a = name)
              then mkAttribute (at_space a) (at_name a) (at_before a) (at_after a) (at_quote a) value :: l
              else a :: set_attribute name value space l
  end.
Definition has_attribute (name : str8) (l : list Attribute) : bool :=
  existsb (λ a, bool_decide (at_name a = name)) l.
Definition declare (t : OpenTag) (name value : str8) : OpenTag :=
  mkOpenTag (ot_name t) (set_attribute name value (ot_space t) (ot_attributes t))
    (if has_attribute name (ot_attributes t) then ot_space t else []) (ot_empty t).

Lemma has_attribute_split name l :
  if has_attribute name l then
    ∃ l1 a l2, l = l1 ++ a :: l2 ∧ at_name a = name ∧ Forall (λ b, at_name b ≠ name) l1
      ∧ ∀ v s, set_attribute name v s l
               = l1 ++ mkAttribute (at_space a) (at_name a) (at_before a) (at_after a) (at_quote a) v :: l2
  else Forall (λ b, at_name b ≠ name) l
    ∧ ∀ v s, set_attribute name v s l = l ++ [mkAttribute (s ++ [32]) name [] [] 34 v].
Proof.
  induction l as [|a l IH]; simpl; [done|]. destruct (decide (at_name a = name)) as [E|E].
  - rewrite bool_decide_eq_true_2 by done. simpl. by exists [], a, l.
  - rewrite bool_decide_eq_false_2 by done. simpl. destruct (has_attribute name l).
    + destruct IH as (l1 & b & l2 & -> & Hb & Hne & Hset). exists (a :: l1), b, l2.
      split; [done|]. split; [done|]. split; [by constructor|]. intros v s. by rewrite Hset.
    + destruct IH as [Hne Hset]. split; [by constructor|]. intros v s. by rewrite Hset.
Qed.

Lemma set_attribute_ok name value space l :
  name_ok name → 34 ∉ value → 39 ∉ value → all_spaces space → Forall attribute_ok l →
  Forall attribute_ok (set_attribute name value space l).
Proof.
  intros Hn H34 H39 Hs. induction 1 as [|a l Ha Hl IH]; simpl.
  - constructor; [|constructor]. unfold attribute_ok, all_spaces. simpl.
    split; [by destruct space|]. split; [apply Forall_app; split; [done|by repeat constructor]|].
    do 3 (split; [done || constructor|]). done.
  - case_decide; constructor; try done.
    destruct Ha as (H1 & H2 & H3 & H4 & H5 & H6 & H7). unfold attribute_ok. simpl.
    do 6 (split; [done|]).
    unfold is_quote in H6. apply orb_true_iff in H6 as [H6|H6]; apply Z.eqb_eq in H6 as ->; done.
Qed.

Lemma xmlns_ok prefix : Forall (λ b, attribute_name_byte b = true) prefix → name_ok (xmlns prefix).
Proof. intros Hp. split; [done|]. unfold xmlns. apply Forall_app. split; [by repeat constructor|done]. Qed.

Lemma declare_ok t name value :
  tag_ok t → name_ok name → 34 ∉ value → 39 ∉ value → tag_ok (declare t name value).
Proof.
  intros (H1 & H2 & H3) Hn H34 H39. split; [done|]. split; [by apply set_attribute_ok|].
  simpl. destruct (has_attribute name (ot_attributes t)); [done|constructor].
Qed.

(** What [ensure_namespace_declaration] writes into a well-formed tag. *)
Lemma ensure_declares t prefix namespace :
  tag_ok t →
  ot_empty t = true ∨ contains (render_body t) (lit "/>") = false ∧ ends_with (render_body t) [SLASH] = false
  ∨ has_attribute (xmlns prefix) (ot_attributes t) = true →
  cfe_borrow_ensure_namespace_declaration (render t) prefix namespace
  = Some (render (declare t (xmlns prefix) namespace)).
Proof.
  intros Ht Hclose. unfold cfe_borrow_ensure_namespace_declaration, declare.
  pose proof (has_attribute_split (xmlns prefix) (ot_attributes t)) as Hsp.
  destruct (has_attribute (xmlns prefix) (ot_attributes t)).
  - destruct Hsp as (l1 & a & l2 & El & En & Hne & Hset). rewrite Hset. rewrite <- En in *.
    destruct (range_present t l1 a l2 Ht El Hne) as (before & after & Er & -> & Hv). rewrite Hv.
    cbn [mbind option_bind]. f_equal. rewrite Er. unfold replace_range.
    replace (length before + length (at_value a) - length before)%nat with (length (at_value a)) by lia.
    rewrite drop_app_length, take_app_length.
    destruct (bool_decide (at_value a ≠ namespace)) eqn:Ed.
    + by rewrite <- drop_drop, take_app_length, !drop_app_length.
    + apply bool_decide_eq_false, dec_stable in Ed. by rewrite Ed.
  - destruct Hsp as [Hne Hset]. rewrite range_absent by done. cbn [mbind option_bind]. f_equal.
    set (body := render_body t) in *.
    assert (Hat : default (length (render t)) (or_option (rfind (render t) (lit "/>")) (rfind (render t) (lit ">")))
      = length body).
    { unfold render. fold body. destruct (ot_empty t); [by rewrite rfind_end|].
      destruct Hclose as [?|[[Hc Hs]|?]]; [done| |done].
      rewrite rfind_none; [by rewrite rfind_end|done|]. apply not_true_iff_false.
      intros [H|H]%contains_slash_gt; congruence. }
    rewrite Hat, Hset. unfold insert_str, render at 1 2. fold body. rewrite take_app_length, drop_app_length.
    unfold render, body, render_body. cbn [ot_name ot_attributes ot_space ot_empty].
    rewrite fmap_app, concat_app. cbn [fmap list_fmap concat]. unfold render_attribute at 3.
    cbn [at_space at_name at_before at_after at_quote at_value]. unfold xmlns.
    rewrite !app_nil_r, <- !(assoc_L (++)). reflexivity.
Qed.

(** Declaring a namespace sets one attribute: in a well-formed tag whose
    values and spelling hold no slash before a closing bracket, the
    declaration of the prefix gets the namespace, or is added after the other
    attributes; everything else keeps its bytes.  The tag stays well formed,
    the declaration is found, and declaring it again changes nothing. *)
Theorem namespace_declared t prefix namespace :
  tag_ok t → Forall (λ b, attribute_name_byte b = true) prefix → 34 ∉ namespace → 39 ∉ namespace →
  ot_empty t = true ∨ contains (render_body t) (lit "/>") = false ∧ ends_with (render_body t) [SLASH] = false →
  let t' := declare t (xmlns prefix) namespace in
  cfe_borrow_ensure_namespace_declaration (render t) prefix namespace = Some (render t') ∧ tag_ok t'
  ∧ (∃ before after, render t' = before ++ namespace ++ after
      ∧ cfe_borrow_xml_attribute_value_range (render t') (xmlns prefix)
        = Some (Ok (Some (length before, (length before + length namespace)%nat))))
  ∧ cfe_borrow_ensure_namespace_declaration (render t') prefix namespace = Some (render t').
Proof.
  intros Ht Hp H34 H39 Hclose t'. pose proof (xmlns_ok prefix Hp) as Hname.
  assert (Ht' : tag_ok t') by by apply declare_ok.
  assert (Hfound : ∃ l1 a l2, ot_attributes t' = l1 ++ a :: l2 ∧ at_name a = xmlns prefix
    ∧ Forall (λ b, at_name b ≠ at_name a) l1 ∧ at_value a = namespace).
  { unfold t', declare. cbn [ot_attributes].
    pose proof (has_attribute_split (xmlns prefix) (ot_attributes t)) as Hsp.
    destruct (has_attribute (xmlns prefix) (ot_attributes t)).
    - destruct Hsp as (l1 & a & l2 & El & En & Hne & ->). eexists l1, _, l2. split; [done|]. by rewrite <- En in Hne.
    - destruct Hsp as [Hne ->]. by eexists _, _, []. }
  split; [apply ensure_declares; [done|tauto]|]. split; [done|].
  destruct Hfound as (l1 & a & l2 & El & En & Hne & Ev).
  destruct (range_present t' l1 a l2 Ht' El Hne) as (before & after & Er & Hrange & _).
  rewrite En, Ev in *. split; [by exists before, after|].
  unfold cfe_borrow_ensure_namespace_declaration. rewrite Hrange. cbn [mbind option_bind].
  rewrite bool_decide_eq_false_2; [done|]. intros Hn. apply Hn. rewrite Er.
  by rewrite drop_app_length, Nat.add_sub', take_app_length.
Qed.

(** The precondition on slashes is needed: in a tag that closes with [>], the
    declaration goes into an attribute value that holds a slash and a closing
    bracket. *)
Lemma declaration_splits_value :
  cfe_borrow_ensure_namespace_declaration (lit "<a b='/>'>") (lit "p") (lit "n")
  = Some (lit "<a b=' xmlns:p=" ++ [34] ++ lit "n" ++ [34] ++ lit "/>'>").
Proof. reflexivity. Qed.

(** ** Tags *)

Lemma find_spec s p i : find s p = Some i → starts_with (drop i s) p = true ∧ (i ≤ length s)%nat.
Proof.
  revert i. induction s as [|c s IH]; intros i; simpl.
  - destruct (starts_with [] p) eqn:E; [|done]. by intros [= <-].
  - destruct (starts_with (c :: s) p) eqn:E; [intros [= <-]; split; [done|lia]|].
    destruct (find s p) as [j|]; [|done]. intros [= <-]. destruct (IH j eq_refl). split; [done|lia].
Qed.
Lemma find_byte s b i : find s [b] = Some i → s !! i = Some b.
Proof.
  intros [H _]%find_spec. apply starts_with_spec in H as (u & E).
  rewrite <- (Nat.add_0_r i), <- lookup_drop, E. done.
Qed.

(** What the decoder of UTF-8 reads at the front. *)
Lemma valid_front a t :
  valid_utf8 (a :: t) = true →
  ∃ w t', t = w ++ t' ∧ valid_utf8 t' = true ∧ Forall (λ b, in_range 0 127 b = false) w
    ∧ (in_range 0 127 a = true → w = []) ∧ (length t' ≤ length t)%nat.
Proof.
  assert (Hc : ∀ b lo hi, 127 < lo → in_range lo hi b = true → in_range 0 127 b = false).
  { unfold in_range. intros b lo hi Hlo H. apply andb_true_iff in H as [H%Z.leb_le _].
    apply andb_false_iff. right. apply Z.leb_gt. lia. }
  cbn [valid_utf8]. destruct (in_range 0 127 a) eqn:Ea; [intros H; by exists [], t|].
  destruct t as [|b t]; [done|]. destruct (in_range 194 223 a).
  { intros [Hb Hv]%andb_true_iff. exists [b], t. split; [done|]. split; [done|].
    split; [repeat constructor; by apply (Hc b 128 191)|]. split; [done|simpl; lia]. }
  destruct t as [|c t]; [done|].
  destruct (_ || _ || _) eqn:E3.
  - intros [Hcc Hv]%andb_true_iff. exists [b; c], t. split; [done|]. split; [done|].
    split; [|split; [done|simpl; lia]]. repeat constructor; [|by apply (Hc c 128 191)].
    apply orb_true_iff in E3 as [E3|E3]; [apply orb_true_iff in E3 as [E3|E3]|];
      apply andb_true_iff in E3 as [_ E3]; eapply Hc; [|exact E3| |exact E3| |exact E3]; lia.
  - destruct t as [|d t]; [done|]. intros H. apply andb_true_iff in H as [H Hv].
    apply andb_true_iff in H as [H Hd]. apply andb_true_iff in H as [Hb Hcc].
    exists [b; c; d], t. split; [done|]. split; [done|]. split; [|split; [done|simpl; lia]].
    repeat constructor; [|by apply (Hc c 128 191)|by apply (Hc d 128 191)].
    apply orb_true_iff in Hb as [Hb|Hb]; [apply orb_true_iff in Hb as [Hb|Hb]|];
      apply andb_true_iff in Hb as [_ Hb]; eapply Hc; [|exact Hb| |exact Hb| |exact Hb]; lia.
Qed.

(** After an ASCII byte a character starts. *)
Lemma boundary_after_ascii t i a :
  valid_utf8 t = true → t !! i = Some a → in_range 0 127 a = true → char_boundary t (S i) = true.
Proof.
  remember (length t) as k eqn:Ek. assert (Hk : (length t ≤ k)%nat) by lia. clear Ek.
  revert t Hk i. induction k as [|k IH]; intros t Hk i Hv Hi Ha; (destruct t as [|b t]; [done|]); [simpl in Hk; lia|].
  cbn [length] in Hk. destruct (valid_front b t Hv) as (w & t' & -> & Hv' & Hw & Hnil & Hlen).
  destruct i as [|i]; simpl in Hi.
  - simplify_eq. rewrite (Hnil Ha) in *. simpl in *. unfold char_boundary. simpl.
    destruct t' as [|c t']; [done|]. simpl. by rewrite (valid_first _ _ Hv').
  - rewrite lookup_app in Hi. destruct (w !! i) as [c|] eqn:Ew.
    + simplify_eq. rewrite (proj1 (Forall_lookup _ _) Hw _ _ Ew) in Ha. done.
    + assert (Hb : char_boundary t' (S (i - length w)) = true) by (apply (IH t' ltac:(lia)); done).
      apply lookup_ge_None in Ew. unfold char_boundary in Hb |- *.
      rewrite lookup_cons_ne_0 by done. cbn [Nat.pred]. rewrite lookup_app_r by lia.
      replace (S i - length w)%nat with (S (i - length w)) by lia.
      destruct (t' !! S (i - length w)); [done|]. apply Nat.eqb_eq in Hb. apply Nat.eqb_eq.
      cbn [length]. rewrite length_app. lia.
Qed.

Lemma start_tag_end t open tag :
  cfe_borrow_start_tag_at t open = Some tag →
  ∃ gt, bt_end tag = S gt ∧ (open ≤ gt)%nat ∧ t !! gt = Some GT.
Proof.
  unfold cfe_borrow_start_tag_at. destruct (get_from t open) as [rest|]; [|done]. cbn [mbind option_bind].
  destruct (_ || _ || _ || _); [done|]. destruct (_ =? 0)%nat; [done|].
  destruct (find (drop open t) [GT]) as [g|] eqn:Eg; [|done]. intros [= <-]. exists (g + open)%nat.
  split; [done|]. split; [lia|]. apply find_byte in Eg. rewrite lookup_drop in Eg.
  by rewrite (Nat.add_comm g).
Qed.

Lemma find_start_tag_from_spec fuel t name cursor :
  valid_utf8 t = true → char_boundary t cursor = true → (length t - cursor < fuel)%nat →
  ∃ r, find_start_tag_from fuel t name cursor = Some r
    ∧ ∀ i, r = Some i → (cursor ≤ i)%nat ∧ ∃ tag, cfe_borrow_start_tag_at t i = Some tag ∧ bt_local_name tag = name.
Proof.
  intros Hv. revert cursor. induction fuel as [|fuel IH]; intros cursor Hb Hf; [lia|].
  cbn [find_start_tag_from]. unfold get_from. rewrite Hb. cbn [mbind option_bind].
  destruct (find (drop cursor t) [LT]) as [rel|] eqn:Er; [|by exists None].
  apply find_byte in Er. rewrite lookup_drop in Er. set (open := (cursor + rel)%nat) in *.
  pose proof (lookup_lt_Some _ _ _ Er) as Hlt.
  assert (Hgo : ∀ c, (open < c)%nat → char_boundary t c = true →
    ∃ r, find_start_tag_from fuel t name c = Some r
      ∧ ∀ i, r = Some i → (cursor ≤ i)%nat ∧ ∃ tag, cfe_borrow_start_tag_at t i = Some tag ∧ bt_local_name tag = name).
  { intros c Hc Hbc. destruct (IH c Hbc) as (r & -> & Hr); [lia|]. exists r. split; [done|].
    intros i Hi. destruct (Hr i Hi). split; [lia|done]. }
  destruct (cfe_borrow_start_tag_at t open) as [tag|] eqn:Et.
  - case_bool_decide as En.
    + exists (Some open). split; [done|]. intros i [= <-]. split; [lia|]. by exists tag.
    + destruct (start_tag_end _ _ _ Et) as (gt & -> & Hle & Hgt). apply Hgo; [lia|].
      by apply (boundary_after_ascii t gt GT).
  - apply Hgo; [lia|]. by apply (boundary_after_ascii t open LT).
Qed.

(** The search for a start tag returns on all well-formed text: its cursor
    moves on and stays between characters, and what it finds is a tag of that
    local name, not before the offset. *)
Theorem start_tag_search_ends t name offset :
  valid_utf8 t = true → char_boundary t offset = true →
  ∃ r, cfe_borrow_find_start_tag t name offset = Some r
    ∧ ∀ i, r = Some i →
        (offset ≤ i)%nat ∧ ∃ tag, cfe_borrow_start_tag_at t i = Some tag ∧ bt_local_name tag = name.
Proof. intros Hv Hb. apply find_start_tag_from_spec; [done|done|lia]. Qed.

(** A namespace declared in [<a b='c'/>]. *)
Definition sample_tag : OpenTag :=
  mkOpenTag (lit "a") [mkAttribute (lit " ") (lit "b") [] [] 39 (lit "c")] [] true.

Lemma namespace_declared_witness :
  cfe_borrow_ensure_namespace_declaration (render sample_tag) (lit "p") (lit "n")
  = Some (render (declare sample_tag (xmlns (lit "p")) (lit "n"))).
Proof.
  apply (namespace_declared sample_tag (lit "p") (lit "n")).
  - split; [by repeat constructor|]. split; [|constructor]. constructor; [|constructor].
    split; [done|]. split; [by repeat constructor|]. split; [split; [done|by repeat constructor]|].
    split; [constructor|]. split; [constructor|]. split; [reflexivity|]. apply (bool_decide_unpack _). reflexivity.
  - by repeat constructor.
  - apply (bool_decide_unpack _). reflexivity.
  - apply (bool_decide_unpack _). reflexivity.
  - by left.
Defined.
