(* ===== verification/TextOrder.v ===== *)
(** * Ordered texts and ordered maps

    [str]'s order and a [BTreeMap] keyed by text as the list of its entries in
    that order.  UTF-8 keeps the order of code points, so that texts as code
    points compare as their bytes do. *)

From Stdlib Require Import ZArith Lia Sorted.
From stdpp Require Import base option numbers list_basics list.
From S2P Require Import Prelude Redaction.

Local Open Scope Z_scope.

(** [Ord] of byte strings. *)
Fixpoint bytes_compare (a b : text) : comparison :=
  match a, b with
  | [], [] => Eq
  | [], _ => Lt
  | _, [] => Gt
  | x :: a, y :: b => match Z.compare x y with Eq => bytes_compare a b | c => c end
  end.

Lemma bytes_compare_antisym a b : bytes_compare b a = CompOpp (bytes_compare a b).
Proof.
  revert b. induction a as [|x a IH]; intros [|y b]; simpl; try done.
  rewrite (Z.compare_antisym x y). destruct (x ?= y)%Z; simpl; [apply IH|done|done].
Qed.
Lemma bytes_compare_eq a b : bytes_compare a b = Eq ↔ a = b.
Proof.
  revert b. induction a as [|x a IH]; intros [|y b]; simpl; try done.
  destruct (Z.compare_spec x y) as [->|Hlt|Hlt].
  - rewrite IH. split; [by intros ->|by intros [= ->]].
  - split; [done|]. intros [= -> _]. lia.
  - split; [done|]. intros [= -> _]. lia.
Qed.
Lemma bytes_compare_refl a : bytes_compare a a = Eq.
Proof. by apply bytes_compare_eq. Qed.
Lemma bytes_lt_trans a b c : bytes_compare a b = Lt → bytes_compare b c = Lt → bytes_compare a c = Lt.
Proof.
  revert b c. induction a as [|x a IH]; intros [|y b] [|z c]; simpl; try done.
  destruct (Z.compare_spec x y) as [->|Hxy|Hxy]; [| |done].
  - destruct (Z.compare_spec y z) as [->|Hyz|Hyz]; [apply IH|done|done].
  - intros _. destruct (Z.compare_spec y z) as [->|Hyz|Hyz]; [| |done];
      (destruct (Z.compare_spec x z); [lia|done|lia]).
Qed.

(** ** Maps *)

Definition BTreeMap (A : Type) : Type := list (text * A).

Fixpoint bt_get {A} (k : text) (m : BTreeMap A) : option A :=
  match m with
  | [] => None
  | (k', v) :: m => if bool_decide (k = k') then Some v else bt_get k m
  end.
(** [map.entry(k).or_insert(v)]. *)
Fixpoint bt_or_insert {A} (k : text) (v : A) (m : BTreeMap A) : BTreeMap A :=
  match m with
  | [] => [(k, v)]
  | (k', v') :: m' =>
      match bytes_compare k k' with
      | Eq => m
      | Lt => (k, v) :: m
      | Gt => (k', v') :: bt_or_insert k v m'
      end
  end.
(** [map.insert(k, v)]. *)
Fixpoint bt_insert {A} (k : text) (v : A) (m : BTreeMap A) : BTreeMap A :=
  match m with
  | [] => [(k, v)]
  | (k', v') :: m' =>
      match bytes_compare k k' with
      | Eq => (k, v) :: m'
      | Lt => (k, v) :: m
      | Gt => (k', v') :: bt_insert k v m'
      end
  end.

(** The entries are in strict order. *)
Definition bt_ok {A} (m : BTreeMap A) : Prop := StronglySorted (λ x y, bytes_compare x.1 y.1 = Lt) m.

Lemma bt_get_elem {A} k (v : A) m : bt_get k m = Some v → (k, v) ∈ m.
Proof.
  induction m as [|[k' v'] m IH]; simpl; [done|]. case_bool_decide as E.
  - intros [= ->]. subst. by constructor.
  - intros H. constructor. by apply IH.
Qed.
Lemma bt_elem_get {A} k (v : A) m : bt_ok m → (k, v) ∈ m → bt_get k m = Some v.
Proof.
  induction 1 as [|[k' v'] m Hs IH Hall]; intros Hin; [by apply elem_of_nil in Hin|]. simpl.
  apply elem_of_cons in Hin as [[= <- <-]|Hin]; [by rewrite bool_decide_eq_true_2|].
  rewrite bool_decide_eq_false_2; [by apply IH|]. intros <-.
  rewrite List.Forall_forall in Hall. apply list_elem_of_In in Hin. apply Hall in Hin.
  simpl in Hin. by rewrite bytes_compare_refl in Hin.
Qed.

Lemma bt_get_or_insert {A} k k' (v : A) m :
  bt_ok m → bt_get k (bt_or_insert k' v m)
  = if bool_decide (k = k') then Some (default v (bt_get k m)) else bt_get k m.
Proof.
  induction 1 as [|[k0 v0] m Hs IH Hall]; simpl; [by case_bool_decide|].
  destruct (bytes_compare k' k0) eqn:E; simpl.
  - apply bytes_compare_eq in E as ->. by case_bool_decide.
  - case_bool_decide as E1; [subst k'|done].
    assert (Hn : bt_get k m = None).
    { destruct (bt_get k m) as [w|] eqn:Ew; [|done]. apply bt_get_elem, list_elem_of_In in Ew.
      rewrite List.Forall_forall in Hall. apply Hall in Ew. simpl in Ew.
      assert (bytes_compare k k = Lt) as H by (by eapply bytes_lt_trans).
      by rewrite bytes_compare_refl in H. }
    rewrite bool_decide_eq_false_2; [by rewrite Hn|]. intros ->. by rewrite bytes_compare_refl in E.
  - rewrite IH. assert (k' ≠ k0) as Hne by (intros ->; by rewrite bytes_compare_refl in E).
    repeat case_bool_decide; congruence.
Qed.

Lemma bt_or_insert_elem {A} (k : text) (v : A) (m : BTreeMap A) x :
  x ∈ bt_or_insert k v m → x = (k, v) ∨ x ∈ m.
Proof.
  induction m as [|[k' v'] m IH]; simpl; [intros H; left; by apply list_elem_of_singleton in H|].
  destruct (bytes_compare k k'); [by right|by intros [->|H]%elem_of_cons; [left|right]|].
  intros [->|H]%elem_of_cons; [right; by constructor|]. destruct (IH H); [by left|right; by constructor].
Qed.
Lemma bt_or_insert_ok {A} k (v : A) m : bt_ok m → bt_ok (bt_or_insert k v m).
Proof.
  induction 1 as [|[k' v'] m Hs IH Hall]; simpl; [by constructor; constructor|].
  destruct (bytes_compare k k') eqn:E; [by constructor| |].
  - constructor; [by constructor|]. constructor; [done|]. eapply List.Forall_impl; [|exact Hall].
    intros [k2 v2] H. simpl in *. by eapply bytes_lt_trans.
  - constructor; [done|]. apply List.Forall_forall. intros x Hx%list_elem_of_In.
    apply bt_or_insert_elem in Hx as [->|Hx]; simpl; [by rewrite bytes_compare_antisym, E|].
    apply list_elem_of_In in Hx. rewrite List.Forall_forall in Hall. by apply Hall.
Qed.
