(* ===== verification/NavCursor.v ===== *)
(** * Navigation cursors

    [crates/unica-navigation/src/source_navigation.rs]: the token that
    continues a paged answer.  It carries an offset and a checksum keyed by
    the process secret and the question, so that only a token issued for the
    same question by the same process is accepted.  SHA-256 and the secret
    are parameters; text is its bytes and a [u64] is a [Z]. *)

From Stdlib Require Import ZArith Lia Ascii String.
From stdpp Require Import base option numbers list_basics list.
From S2P Require Import Prelude Redaction ResultSize.
From S2P Require Import ReceiptLedger ReceiptRecords.

Local Open Scope Z_scope.

(** ** Numbers in text *)

(** [format!("{z:0nx}")] of a number of at most [n] digits. *)
Fixpoint hex_digits (n : nat) (z : Z) : text :=
  match n with O => [] | S n => hex_digits n (z / 16) ++ [hex_digit (z mod 16)] end.

(** [char::to_digit(16)]. *)
Definition digit_value (c : Z) : option Z :=
  if in_range 48 57 c then Some (c - 48)
  else if in_range 97 102 c then Some (c - 87)
  else if in_range 65 70 c then Some (c - 55)
  else None.

(** The digits of [u64::from_str_radix(s, 16)], with the overflow check of
    each round. *)
Fixpoint radix_digits (acc : Z) (s : text) : option Z :=
  match s with
  | [] => Some acc
  | c :: s =>
      d ← digit_value c;
      let shifted := acc * 16 in
      if u64_max <? shifted then None
      else if u64_max <? shifted + d then None else radix_digits (shifted + d) s
  end.
(** A single leading plus is allowed; a sign alone and no digit are not. *)
Definition from_str_radix_16 (s : text) : option Z :=
  match s with
  | [] => None
  | c :: rest =>
      if (c =? 43) || (c =? 45) then
        match rest with
        | [] => None
        | _ => if c =? 43 then radix_digits 0 rest else None
        end
      else radix_digits 0 s
  end.

(** [s.split('-')]. *)
Fixpoint split_dash (piece s : text) : list text :=
  match s with
  | [] => [piece]
  | c :: s => if c =? 45 then piece :: split_dash [] s else split_dash (piece ++ [c]) s
  end.

(** ** Cursors *)

Definition CURSOR_MASK : Z := 0xa93f4761c2d85be7.

Inductive CursorError := CursorInvalid | CursorForeign | CursorOutside.

Section cursor.
Context (sha256 : list Z → list Z) (cursor_secret : text).

Definition cursor_preimage (offset : Z) (cursor_key : text) : list Z :=
  [cursor_secret; lit "unica-source-navigation-v1"; u64_to_string offset; cursor_key]
    ≫= λ component, component ++ [0].
(** [u64::from_be_bytes]. *)
Definition be_value (bs : list Z) : Z := foldl (λ z b, z * 256 + b) 0 bs.
Definition cursor_checksum (offset : Z) (cursor_key : text) : Z :=
  be_value (take 8 (sha256 (cursor_preimage offset cursor_key))).

Definition encode_cursor (offset : Z) (cursor_key : text) : text :=
  let obscured := Z.lxor offset CURSOR_MASK in
  lit "nav1-" ++ hex_digits 16 obscured ++ lit "-" ++ hex_digits 16 (cursor_checksum offset cursor_key).

Definition decode_cursor (cursor cursor_key : text) : result Z CursorError :=
  let parts := split_dash [] cursor in
  let valid_prefix := bool_decide (parts !! 0%nat = Some (lit "nav1")) in
  let obscured := parts !! 1%nat ≫= from_str_radix_16 in
  let checksum := parts !! 2%nat ≫= from_str_radix_16 in
  match obscured, checksum with
  | Some obscured, Some checksum =>
      if negb valid_prefix || is_some (parts !! 3%nat) then Err CursorInvalid
      else
        let offset := Z.lxor obscured CURSOR_MASK in
        if negb (checksum =? cursor_checksum offset cursor_key) then Err CursorForeign else Ok offset
  | _, _ => Err CursorInvalid
  end.

Definition authenticate_cursor (cursor : option text) (cursor_key : text) : result Z CursorError :=
  match cursor with Some cursor => decode_cursor cursor cursor_key | None => Ok 0 end.

Definition page_bounds_from_offset (offset : Z) (cursor_key : text) (limit total : Z)
    : result (Z * Z * option text) CursorError :=
  if total <? offset then Err CursorOutside
  else
    let end_ := Z.min (Z.min (offset + limit) u64_max) total in
    Ok (offset, end_, if end_ <? total then Some (encode_cursor end_ cursor_key) else None).

End cursor.

(** ** Round trip *)

Lemma digit_value_hex d : 0 ≤ d < 16 → digit_value (hex_digit d) = Some d.
Proof.
  intros Hd. assert (d = 0 ∨ d = 1 ∨ d = 2 ∨ d = 3 ∨ d = 4 ∨ d = 5 ∨ d = 6 ∨ d = 7 ∨ d = 8 ∨ d = 9
    ∨ d = 10 ∨ d = 11 ∨ d = 12 ∨ d = 13 ∨ d = 14 ∨ d = 15) as E by lia.
  by repeat (destruct E as [->|E]; [done|]); subst.
Qed.
Lemma hex_digit_plain d : 0 ≤ d < 16 → hex_digit d ≠ 43 ∧ hex_digit d ≠ 45.
Proof. unfold hex_digit. intros Hd. destruct (Z.ltb_spec d 10); lia. Qed.

Lemma radix_digits_app acc s t :
  radix_digits acc (s ++ t) = radix_digits acc s ≫= λ a, radix_digits a t.
Proof.
  revert acc. induction s as [|c s IH]; intros acc; simpl; [done|].
  destruct (digit_value c) as [d|]; simpl; [|done]. repeat case_match; simpl; auto.
Qed.

Lemma radix_digits_hex n z :
  0 ≤ z < 16 ^ Z.of_nat n → z ≤ u64_max → radix_digits 0 (hex_digits n z) = Some z.
Proof.
  revert z. induction n as [|n IH]; intros z Hz Hm; simpl.
  - f_equal. simpl in Hz. lia.
  - rewrite Nat2Z.inj_succ, Z.pow_succ_r in Hz by lia.
    rewrite radix_digits_app, IH by (Z.to_euclidean_division_equations; lia). simpl.
    pose proof (Z.mod_pos_bound z 16 ltac:(lia)) as Hd. rewrite digit_value_hex by done. simpl.
    pose proof (Z.div_mod z 16 ltac:(lia)) as E.
    rewrite (proj2 (Z.ltb_ge u64_max (z / 16 * 16))), (proj2 (Z.ltb_ge u64_max (z / 16 * 16 + z mod 16))) by lia.
    f_equal. lia.
Qed.

Lemma hex_digits_plain n z c : c ∈ hex_digits n z → c ≠ 43 ∧ c ≠ 45.
Proof.
  revert z. induction n as [|n IH]; intros z; simpl; [by intros ?%elem_of_nil|].
  rewrite elem_of_app, list_elem_of_singleton. intros [H| ->]; [by eapply IH|].
  apply hex_digit_plain, Z.mod_pos_bound. lia.
Qed.

Lemma from_str_radix_hex n z :
  0 ≤ z < 16 ^ Z.of_nat (S n) → z ≤ u64_max → from_str_radix_16 (hex_digits (S n) z) = Some z.
Proof.
  intros Hz Hm. pose proof (radix_digits_hex (S n) z Hz Hm) as Hr. unfold from_str_radix_16.
  pose proof (hex_digits_plain (S n) z) as Hp. destruct (hex_digits (S n) z) as [|c s] eqn:E.
  - exfalso. apply (f_equal length) in E. simpl in E. rewrite length_app in E. simpl in E. lia.
  - destruct (Hp c) as [H1 H2]; [by constructor|]. apply Z.eqb_neq in H1, H2. rewrite H1, H2. done.
Qed.

Lemma split_dash_app piece w s :
  (∀ c, c ∈ w → c ≠ 45) → split_dash piece (w ++ 45 :: s) = (piece ++ w) :: split_dash [] s.
Proof.
  revert piece. induction w as [|c w IH]; intros piece Hw; simpl; [by rewrite app_nil_r|].
  rewrite (proj2 (Z.eqb_neq c 45)) by (apply Hw; by constructor).
  rewrite IH, <- (assoc_L (++)); [done|]. intros d Hd. apply Hw. by constructor.
Qed.
Lemma split_dash_last piece w : (∀ c, c ∈ w → c ≠ 45) → split_dash piece w = [piece ++ w].
Proof.
  revert piece. induction w as [|c w IH]; intros piece Hw; simpl; [by rewrite app_nil_r|].
  rewrite (proj2 (Z.eqb_neq c 45)) by (apply Hw; by constructor).
  rewrite IH, <- (assoc_L (++)); [done|]. intros d Hd. apply Hw. by constructor.
Qed.

Lemma be_value_bound bs z k :
  Forall (λ b, 0 ≤ b < 256) bs → 0 ≤ z < 256 ^ k → 0 ≤ k →
  0 ≤ foldl (λ z b, z * 256 + b) z bs < 256 ^ (k + Z.of_nat (length bs)).
Proof.
  intros Hb. revert z k. induction Hb as [|b bs Hb _ IH]; intros z k Hz Hk; simpl.
  - by rewrite Z.add_0_r.
  - replace (k + Z.of_nat (S (length bs))) with (k + 1 + Z.of_nat (length bs)) by lia.
    apply IH; [|lia]. rewrite Z.pow_add_r by lia. lia.
Qed.

Lemma u64_lxor a b : is_u64 a → is_u64 b → is_u64 (Z.lxor a b).
Proof.
  unfold is_u64, u64_max. intros Ha Hb. split; [apply Z.lxor_nonneg; lia|].
  assert (Hl : Z.lxor a b < 2 ^ 64); [|lia].
  destruct (Z.eq_dec (Z.lxor a b) 0) as [->|Hn]; [lia|].
  apply Z.log2_lt_pow2; [pose proof (proj2 (Z.lxor_nonneg a b) ltac:(lia)); lia|].
  eapply Z.le_lt_trans; [apply Z.log2_lxor; lia|].
  apply Z.max_lub_lt; (eapply Z.le_lt_trans; [apply (Z.log2_le_mono _ (2 ^ 64 - 1)); lia|done]).
Qed.

(** A cursor that was issued is accepted for its question, with its offset. *)
Lemma cursor_accepted sha256 secret offset key :
  (∀ m, length (sha256 m) = 32%nat ∧ Forall (λ b, 0 ≤ b < 256) (sha256 m)) → is_u64 offset →
  decode_cursor sha256 secret (encode_cursor sha256 secret offset key) key = Ok offset.
Proof.
  intros Hsha Ho. unfold decode_cursor, encode_cursor.
  change (lit "nav1-" ++ ?x) with (lit "nav1" ++ 45 :: x).
  change (lit "-" ++ ?x) with (45 :: x).
  rewrite split_dash_app by (intros c Hc; repeat (apply elem_of_cons in Hc as [->|Hc]; [done|]); by apply elem_of_nil in Hc).
  rewrite split_dash_app by (intros c Hc; by eapply hex_digits_plain).
  rewrite split_dash_last by (intros c Hc; by eapply hex_digits_plain).
  cbn [app lookup list_lookup mbind option_bind is_some negb orb].
  pose proof (u64_lxor offset CURSOR_MASK Ho ltac:(done)) as Hx.
  assert (Hc : is_u64 (cursor_checksum sha256 secret offset key)).
  { destruct (Hsha (cursor_preimage secret offset key)) as [Hl Hb]. unfold cursor_checksum, be_value.
    pose proof (be_value_bound (take 8 (sha256 (cursor_preimage secret offset key))) 0 0
      ltac:(by apply Forall_take) ltac:(lia) ltac:(lia)) as H.
    rewrite length_take, Hl in H. unfold is_u64, u64_max. simpl in H. lia. }
  unfold is_u64, u64_max in Hx, Hc.
  rewrite !from_str_radix_hex by (unfold u64_max; simpl; lia).
  rewrite bool_decide_eq_true_2 by done. cbn [negb orb].
  rewrite Z.lxor_assoc, Z.lxor_nilpotent, Z.lxor_0_r, Z.eqb_refl. done.
Qed.
