(* ===== verification/SavedPlan.v ===== *)
(** * Pages of a saved plan

    [crates/unica-navigation/src/plan_diff.rs]: a prepared plan holds the
    bytes of every source before and after it.  [PlanDiffLayout::new] finds
    the windows that differ, widened to whole lines; [page] serves them in
    chunks, a bounded page at a time, each continued by a cursor.

    The checkpoint is a function of the number of its call; [serde_json]'s
    length of a chunk and base64 are parameters, as are SHA-256 and the
    secret of the cursors. *)

From Stdlib Require Import ZArith Lia Ascii String.
From stdpp Require Import base option numbers list_basics list.
From S2P Require Import Prelude Redaction.
From S2P Require Import NavCursor XmlText TextOrder.

Local Open Scope Z_scope.

Definition CHUNK_BYTES : nat := 2048.
Definition PAGE_BYTES : Z := 64 * 1024.

Record SourceImage := mkImage {
  im_path_encoding : text; im_path : text; im_before : option (list Z); im_after : option (list Z) }.
Record Window := mkWindow { w_image : nat; w_after : bool; w_start : nat; w_end : nat; w_utf8 : bool }.
Record PlanDiffLayout := mkLayout { windows : list Window; positions : Z }.

(** ** Results

    Every function may stop at a checkpoint; [Panicked] is a slice out of
    bounds or a failed [expect]. *)
Inductive Fault := Stopped | AddressSpace | Cursor (e : CursorError) | PathTooLong | Panicked.
Definition M (A : Type) : Type := nat → result (A * nat) Fault.
Definition ret {A : Type} (a : A) : M A := λ k, Ok (a, k).
Definition fail {A : Type} (f : Fault) : M A := λ _, Err f.
Definition bind {A B : Type} (m : M A) (f : A → M B) : M B :=
  λ k, match m k with Ok (a, k) => f a k | Err e => Err e end.

Declare Scope plan_scope.
Notation "'do' x ':=' m 'in' f" := (bind m (λ x, f))
  (at level 200, x name, m at level 100, f at level 200) : plan_scope.
Notation "m ';;' f" := (bind m (λ _, f)) (at level 100, f at level 200, right associativity) : plan_scope.
Local Open Scope plan_scope.

Definition lift {A : Type} (o : option A) : M A :=
  match o with Some a => ret a | None => fail Panicked end.
Definition lift_cursor {A : Type} (r : result A CursorError) : M A :=
  match r with Ok a => ret a | Err e => fail (Cursor e) end.

Section plan.
(** Whether the checkpoint lets its [k]-th call pass. *)
Context (checkpoint : nat → bool).

Definition check : M unit := λ k, if checkpoint k then Ok (tt, S k) else Err Stopped.
(** [if n % 65536 == 0 { checkpoint()? }]. *)
Definition check_at (n : nat) : M unit := if Z.of_nat n mod 65536 =? 0 then check else ret tt.

(** ** Windows *)

(** [sort_by_key(|&index| (path_encoding, &path))]: stable, by bytes. *)
Definition key_le (a b : SourceImage) : bool :=
  match bytes_compare (im_path_encoding a) (im_path_encoding b) with
  | Lt => true
  | Eq => match bytes_compare (im_path a) (im_path b) with Gt => false | _ => true end
  | Gt => false
  end.
Fixpoint insert_image (x : nat * SourceImage) (l : list (nat * SourceImage)) : list (nat * SourceImage) :=
  match l with
  | [] => [x]
  | y :: l' => if key_le x.2 y.2 then x :: l else y :: insert_image x l'
  end.
Definition sort_images (images : list SourceImage) : list (nat * SourceImage) :=
  foldr insert_image [] (imap pair images).

(** [while prefix < common && before[prefix] == after[prefix]]: [fuel] is
    what is left of [common]. *)
Fixpoint prefix_loop (before after : list Z) (fuel prefix : nat) : M nat :=
  match fuel with
  | O => ret prefix
  | S fuel =>
      do b := lift (before !! prefix) in
      do a := lift (after !! prefix) in
      if b =? a then check_at prefix;; prefix_loop before after fuel (S prefix) else ret prefix
  end.
(** The same for the suffix: [fuel] is what is left of [common - prefix]. *)
Fixpoint suffix_loop (before after : list Z) (fuel suffix : nat) : M nat :=
  match fuel with
  | O => ret suffix
  | S fuel =>
      do b := lift (before !! (length before - suffix - 1)%nat) in
      do a := lift (after !! (length after - suffix - 1)%nat) in
      if b =? a then check_at suffix;; suffix_loop before after fuel (S suffix) else ret suffix
  end.

(** [while !text.is_char_boundary(end) { end += 1 }]. *)
Fixpoint boundary_from (bytes : list Z) (fuel end_ : nat) : nat :=
  match fuel with
  | O => end_
  | S fuel => if char_boundary bytes end_ then end_ else boundary_from bytes fuel (S end_)
  end.

(** [while start > 0 && bytes[start - 1] != b'\n' { start -= 1; .. }]. *)
Fixpoint line_back (bytes : list Z) (start : nat) : M nat :=
  match start with
  | O => ret 0%nat
  | S start' =>
      do b := lift (bytes !! start') in
      if b =? LF then ret start
      else check_at start';; line_back bytes start'
  end.
(** [for preceding in 0..=3]: [rounds] are left. *)
Fixpoint lines_back (bytes : list Z) (rounds preceding start : nat) : M nat :=
  match rounds with
  | O => ret start
  | S rounds =>
      check;;
      let start := if (0 <? preceding)%nat && (0 <? start)%nat then (start - 1)%nat else start in
      do start := line_back bytes start in
      lines_back bytes rounds (S preceding) start
  end.
(** [while end < bytes.len() && lines < 3 { .. }]: [fuel] is what is left of
    the bytes. *)
Fixpoint lines_on (bytes : list Z) (fuel lines end_ : nat) : M nat :=
  match fuel with
  | O => ret end_
  | S fuel =>
      if (lines <? 3)%nat then
        do b := lift (bytes !! end_) in
        check_at (S end_);;
        lines_on bytes fuel (if b =? LF then S lines else lines) (S end_)
      else ret end_
  end.

(** The window of one side: [common] bytes are equal at the front and
    [suffix] at the back. *)
Definition side_window (image : nat) (is_after : bool) (bytes : list Z) (prefix suffix : nat) : M Window :=
  check;;
  let start := prefix in
  let end_ := (length bytes - suffix)%nat in
  if valid_utf8 bytes then
    let start := back_to (char_boundary bytes) start in
    let end_ := boundary_from bytes (length bytes - end_) end_ in
    do start := lines_back bytes 4 0 start in
    do end_ := lines_on bytes (length bytes - end_) 0 end_ in
    ret (mkWindow image is_after start end_ true)
  else ret (mkWindow image is_after start end_ false).

Definition span (w : Window) : nat := Nat.max (w_end w - w_start w) 1.

Definition add_positions (p : Z) (w : Window) : M Z :=
  let p := p + Z.of_nat (span w) in if p <=? u64_max then ret p else fail AddressSpace.

Fixpoint new_loop (order : list (nat * SourceImage)) (ws : list Window) (p : Z) : M PlanDiffLayout :=
  match order with
  | [] => ret (mkLayout ws p)
  | (image, source) :: order =>
      check;;
      let before := default [] (im_before source) in
      let after := default [] (im_after source) in
      let common := Nat.min (length before) (length after) in
      do prefix := prefix_loop before after common 0 in
      if eqb (is_some (im_before source)) (is_some (im_after source))
         && (prefix =? length before)%nat && (prefix =? length after)%nat
      then new_loop order ws p
      else
        do suffix := suffix_loop before after (common - prefix) 0 in
        do b := side_window image false before prefix suffix in
        do p := add_positions p b in
        do a := side_window image true after prefix suffix in
        do p := add_positions p a in
        new_loop order (ws ++ [b; a]) p
  end.

Definition layout_new (images : list SourceImage) : M PlanDiffLayout :=
  new_loop (sort_images images) [] 0.

(** ** Pages *)

Inductive Content := Utf8 (t : list Z) | Base64 (t : list Z).
Record Chunk := mkChunk {
  ck_path_encoding : text; ck_path : text; ck_after : bool; ck_present : bool; ck_total : nat;
  ck_range_start : nat; ck_range_end : nat; ck_start : nat; ck_end : nat; ck_content : Content }.
Inductive StoppedBy := Complete | Limit | Bytes.
Record Page := mkPage { pg_chunks : list Chunk; pg_cursor : option text; pg_stopped_by : StoppedBy }.

(** The characters at the front of [bs] that are well formed: the length of
    the first, and of all of them ([Utf8Error::valid_up_to]). *)
Definition front_len (bs : list Z) : option nat :=
  match bs with
  | [] => None
  | a :: bs1 =>
      if in_range 0 127 a then Some 1%nat
      else match bs1 with
      | [] => None
      | b :: bs2 =>
          if in_range 194 223 a then if is_continuation b then Some 2%nat else None
          else match bs2 with
          | [] => None
          | c :: bs3 =>
              if (a =? 224) && in_range 160 191 b
                 || (in_range 225 236 a || in_range 238 239 a) && is_continuation b
                 || (a =? 237) && in_range 128 159 b
              then if is_continuation c then Some 3%nat else None
              else match bs3 with
              | [] => None
              | d :: _ =>
                  if ((a =? 240) && in_range 144 191 b
                      || in_range 241 243 a && is_continuation b
                      || (a =? 244) && in_range 128 143 b)
                     && is_continuation c && is_continuation d then Some 4%nat else None
              end
          end
      end
  end.
Fixpoint valid_prefix (fuel : nat) (bs : list Z) : nat :=
  match fuel with
  | O => 0
  | S fuel => match front_len bs with
              | Some len => (len + valid_prefix fuel (drop len bs))%nat
              | None => 0
              end
  end.
Definition valid_up_to (bs : list Z) : nat := valid_prefix (length bs) bs.

(** [&image[start..end]]. *)
Definition image_range (image : list Z) (start end_ : nat) : option (list Z) :=
  if (start <=? end_)%nat && (end_ <=? length image)%nat then Some (take (end_ - start) (drop start image))
  else None.

Context (json_len : Chunk → Z) (base64_encode : list Z → list Z).

Definition chunk_content (utf8 : bool) (image : list Z) (start end_ : nat) : M (nat * Content) :=
  if utf8 then
    do t := lift (image_range image start end_) in
    let end_ := if valid_utf8 t then end_ else (start + valid_up_to t)%nat in
    do t := lift (image_range image start end_) in
    if valid_utf8 t then ret (end_, Utf8 t) else fail Panicked
  else
    do t := lift (image_range image start end_) in
    ret (end_, Base64 (base64_encode t)).

Definition side_bytes (source : SourceImage) (w : Window) : option (list Z) :=
  if w_after w then im_after source else im_before source.

(** The variables that the loops change. *)
Record Progress := mkProgress { pr_consumed : Z; pr_size : Z; pr_chunks : list Chunk }.

(** [loop { .. }] over one window; [fuel] bounds its chunks. *)
Fixpoint chunk_loop (fuel : nat) (source : SourceImage) (w : Window) (limit : nat) (start : nat) (pr : Progress)
    : M (Progress * option StoppedBy) :=
  match fuel with
  | O => fail Panicked
  | S fuel =>
      check;;
      let bytes := side_bytes source w in
      let image := default [] bytes in
      let end_ := Nat.min (start + CHUNK_BYTES) (w_end w) in
      do cut := chunk_content (w_utf8 w) image start end_ in
      let '(end_, content) := cut in
      let chunk := mkChunk (im_path_encoding source) (im_path source) (w_after w) (is_some bytes)
                     (length image) (w_start w) (w_end w) start end_ content in
      let encoded := json_len chunk in
      if PAGE_BYTES <? encoded then fail PathTooLong
      else if (length (pr_chunks pr) =? limit)%nat then ret (pr, Some Limit)
      else if negb (length (pr_chunks pr) =? 0)%nat && (PAGE_BYTES <? pr_size pr + encoded)
      then ret (pr, Some Bytes)
      else
        let pr := mkProgress (pr_consumed pr + Z.max (Z.of_nat end_ - Z.of_nat start) 1) (pr_size pr + encoded)
                    (pr_chunks pr ++ [chunk]) in
        if (end_ =? w_end w)%nat then ret (pr, None)
        else chunk_loop fuel source w limit end_ pr
  end.

(** ['windows: for window in &self.windows]. *)
Fixpoint window_loop (images : list SourceImage) (ws : list Window) (limit : nat) (offset position : Z)
    (pr : Progress) : M (Progress * StoppedBy) :=
  match ws with
  | [] => ret (pr, Complete)
  | w :: ws =>
      check;;
      let span := Z.of_nat (span w) in
      if position + span <=? offset then window_loop images ws limit offset (position + span) pr
      else
        do source := lift (images !! w_image w) in
        let start := (w_start w + Z.to_nat (Z.max 0 (offset - position)))%nat in
        do served := chunk_loop (S (w_end w - w_start w)) source w limit start pr in
        let '(pr, stopped) := served in
        match stopped with
        | Some by_ => ret (pr, by_)
        | None => window_loop images ws limit offset (position + span) pr
        end
  end.

Context (sha256 : list Z → list Z) (secret : text).

Definition page (l : PlanDiffLayout) (images : list SourceImage) (key : text) (limit : nat)
    (cursor : option text) : M Page :=
  do offset := lift_cursor (authenticate_cursor sha256 secret cursor key) in
  if positions l <? offset then fail (Cursor CursorOutside)
  else
    do served := window_loop images (windows l) limit offset 0 (mkProgress 0 0 []) in
    let '(pr, stopped_by) := served in
    do bounds := lift_cursor (page_bounds_from_offset sha256 secret offset key (pr_consumed pr) (positions l)) in
    ret (mkPage (pr_chunks pr) bounds.2 stopped_by).

End plan.
