(* ===== verification/Utf8Facts.v ===== *)
(** * UTF-8: facts

    Well-formed text is a sequence of characters; it can be cut at its
    character boundaries, and a cut elsewhere leaves fewer than four bytes of
    a character behind. *)

From Stdlib Require Import ZArith Lia.
From stdpp Require Import base option numbers list_basics list.
From S2P Require Import Prelude Redaction.
From S2P Require Import XmlText XmlTextProps SavedPlan.

Local Open Scope Z_scope.

(** [w] is one character. *)
Definition one_char (w : list Z) : Prop :=
  (∀ t, front_len (w ++ t) = Some (length w))
  ∧ (∀ i, (0 < i < length w)%nat → ∃ b, w !! i = Some b ∧ is_continuation b = true)
  ∧ (∀ n, (0 < n < length w)%nat → front_len (take n w) = None)
  ∧ (0 < length w ≤ 4)%nat ∧ (∀ b, w !! 0%nat = Some b → is_continuation b = false).

Lemma in_range_true lo hi b : in_range lo hi b = true ↔ lo ≤ b ≤ hi.
Proof. unfold in_range. by rewrite andb_true_iff, !Z.leb_le. Qed.
Lemma in_range_false lo hi b : in_range lo hi b = false ↔ b < lo ∨ hi < b.
Proof. unfold in_range. rewrite andb_false_iff, !Z.leb_gt. lia. Qed.
Lemma continuation_range b : is_continuation b = true ↔ 128 ≤ b ≤ 191.
Proof. apply in_range_true. Qed.

(** The second byte of a longer character. *)
Lemma second_of_three a b :
  (a =? 224) && in_range 160 191 b || (in_range 225 236 a || in_range 238 239 a) && is_continuation b
    || (a =? 237) && in_range 128 159 b = true → is_continuation b = true ∧ 224 ≤ a ≤ 239.
Proof.
  rewrite !orb_true_iff, !andb_true_iff, orb_true_iff, !in_range_true, !Z.eqb_eq, continuation_range. lia.
Qed.
Lemma second_of_four a b :
  (a =? 240) && in_range 144 191 b || in_range 241 243 a && is_continuation b
    || (a =? 244) && in_range 128 143 b = true → is_continuation b = true ∧ 240 ≤ a ≤ 244.
Proof.
  rewrite !orb_true_iff, !andb_true_iff, !in_range_true, !Z.eqb_eq, continuation_range. lia.
Qed.

Ltac lead_byte :=
  match goal with |- is_continuation ?a = false => apply in_range_false; lia end.

Lemma one_char_1 a : in_range 0 127 a = true → one_char [a].
Proof.
  intros Ha. split; [by intros t; simpl; rewrite Ha|]. split; [intros i Hi; simpl in Hi; lia|].
  split; [intros i Hi; simpl in Hi; lia|]. split; [simpl; lia|]. intros b [= <-].
  apply in_range_true in Ha. lead_byte.
Qed.
Lemma one_char_2 a b :
  in_range 0 127 a = false → in_range 194 223 a = true → is_continuation b = true → one_char [a; b].
Proof.
  intros H1 H2 Hb. split; [by intros t; simpl; rewrite H1, H2, Hb|].
  split; [intros [|[|i]] Hi; simpl in Hi; try lia; by exists b|].
  split; [intros [|[|n]] Hi; simpl in Hi; try lia; simpl; by rewrite H1|].
  split; [simpl; lia|]. intros c [= <-]. apply in_range_true in H2. lead_byte.
Qed.
Lemma one_char_3 a b c :
  in_range 0 127 a = false → in_range 194 223 a = false →
  (a =? 224) && in_range 160 191 b || (in_range 225 236 a || in_range 238 239 a) && is_continuation b
    || (a =? 237) && in_range 128 159 b = true →
  is_continuation c = true → one_char [a; b; c].
Proof.
  intros H1 H2 H3 Hc. pose proof (second_of_three _ _ H3) as [Hb Ha].
  split; [by intros t; simpl; rewrite H1, H2, H3, Hc|].
  split; [intros [|[|[|i]]] Hi; simpl in Hi; try lia; [by exists b|by exists c]|].
  split; [intros [|[|[|n]]] Hi; simpl in Hi; try lia; simpl; rewrite H1, ?H2; done|].
  split; [simpl; lia|]. intros d [= <-]. lead_byte.
Qed.
Lemma one_char_4 a b c d :
  in_range 0 127 a = false → in_range 194 223 a = false →
  (a =? 224) && in_range 160 191 b || (in_range 225 236 a || in_range 238 239 a) && is_continuation b
    || (a =? 237) && in_range 128 159 b = false →
  (a =? 240) && in_range 144 191 b || in_range 241 243 a && is_continuation b
    || (a =? 244) && in_range 128 143 b = true →
  is_continuation c = true → is_continuation d = true → one_char [a; b; c; d].
Proof.
  intros H1 H2 H3 H4 Hc Hd. pose proof (second_of_four _ _ H4) as [Hb Ha].
  split; [by intros t; simpl; rewrite H1, H2, H3, H4, Hc, Hd|].
  split; [intros [|[|[|[|i]]]] Hi; simpl in Hi; try lia; [by exists b|by exists c|by exists d]|].
  split; [intros [|[|[|[|n]]]] Hi; simpl in Hi; try lia; simpl; rewrite H1, ?H2, ?H3; done|].
  split; [simpl; lia|]. intros e [= <-]. lead_byte.
Qed.

(** Well-formed text, character by character. *)
Lemma valid_cons a t :
  valid_utf8 (a :: t) = true → ∃ w t', a :: t = w ++ t' ∧ one_char w ∧ valid_utf8 t' = true.
Proof.
  cbn [valid_utf8]. destruct (in_range 0 127 a) eqn:H1.
  { intros Hv. exists [a], t. split; [done|]. split; [by apply one_char_1|done]. }
  destruct t as [|b t]; [done|]. destruct (in_range 194 223 a) eqn:H2.
  { intros H. apply andb_true_iff in H as [Hb Hv]. exists [a; b], t.
    split; [done|]. split; [by apply one_char_2|done]. }
  destruct t as [|c t]; [done|]. destruct (_ || _ || (_ =? 237) && _) eqn:H3.
  { intros H. apply andb_true_iff in H as [Hc Hv]. exists [a; b; c], t.
    split; [done|]. split; [by apply one_char_3|done]. }
  destruct t as [|d t]; [done|]. intros H. apply andb_true_iff in H as [H Hv].
  apply andb_true_iff in H as [H Hd]. apply andb_true_iff in H as [H4 Hc].
  exists [a; b; c; d], t. split; [done|]. split; [by apply one_char_4|done].
Qed.

Lemma valid_ind (P : list Z → Prop) :
  P [] → (∀ w t, one_char w → valid_utf8 t = true → P t → P (w ++ t)) → ∀ t, valid_utf8 t = true → P t.
Proof.
  intros H0 Hs t. remember (length t) as k eqn:Ek. assert (Hk : (length t ≤ k)%nat) by lia. clear Ek.
  revert t Hk. induction k as [|k IH]; intros t Hk Hv; (destruct t as [|a t]; [done|]); [simpl in Hk; lia|].
  destruct (valid_cons a t Hv) as (w & t' & E & Hw & Hv'). rewrite E in *. apply Hs; [done|done|].
  apply IH; [|done]. rewrite length_app in Hk. destruct Hw as (_ & _ & _ & Hl & _). lia.
Qed.

Lemma valid_front_len a t :
  valid_utf8 (a :: t)
  = match front_len (a :: t) with Some k => valid_utf8 (drop k (a :: t)) | None => false end.
Proof.
  cbn [valid_utf8 front_len]. destruct (in_range 0 127 a); [done|].
  destruct t as [|b t]; [done|]. destruct (in_range 194 223 a); [by destruct (is_continuation b); cbn|].
  destruct t as [|c t]; [done|]. destruct (_ || _ || (_ =? 237) && _); [by destruct (is_continuation c); cbn|].
  destruct t as [|d t]; [done|]. by destruct (_ && is_continuation d); cbn.
Qed.

Lemma valid_char_app w t : one_char w → valid_utf8 (w ++ t) = valid_utf8 t.
Proof.
  intros (Hf & _ & _ & Hl & _). specialize (Hf t). destruct w as [|a w]; [simpl in Hl; lia|].
  cbn [app] in *. rewrite valid_front_len, Hf. f_equal. change (a :: w ++ t) with ((a :: w) ++ t).
  apply drop_app_length.
Qed.

Lemma valid_app a b : valid_utf8 a = true → valid_utf8 b = true → valid_utf8 (a ++ b) = true.
Proof.
  intros Ha Hb. revert a Ha. apply valid_ind; [done|]. intros w t Hw _ IH.
  rewrite <- (assoc_L (++)). by rewrite valid_char_app.
Qed.

(** ** Boundaries *)

Lemma boundary_inside w t i : one_char w → (0 < i < length w)%nat → char_boundary (w ++ t) i = false.
Proof.
  intros (_ & Hc & _) Hi. destruct (Hc i Hi) as (b & Hb & Hcb). unfold char_boundary.
  rewrite (lookup_app_l_Some _ _ _ _ Hb), Hcb. destruct i; [lia|done].
Qed.
Lemma boundary_app w t i :
  one_char w → valid_utf8 t = true → (length w ≤ i)%nat →
  char_boundary (w ++ t) i = char_boundary t (i - length w)%nat.
Proof.
  intros (_ & _ & _ & Hl & _) Hv Hi. unfold char_boundary. rewrite lookup_app_r by done.
  destruct (t !! (i - length w)%nat) as [b|] eqn:Eb.
  - destruct (Nat.eq_dec (i - length w)%nat 0%nat) as [E|E].
    + rewrite E in *. destruct t as [|c t]; [done|]. injection Eb as ->.
      rewrite (valid_first _ _ Hv). simpl. by rewrite orb_true_r.
    + rewrite (proj2 (Nat.eqb_neq i 0%nat) ltac:(lia)).
      by rewrite (proj2 (Nat.eqb_neq (i - length w)%nat 0%nat) E).
  - rewrite length_app.
    destruct (Nat.eqb_spec i (length w + length t)%nat), (Nat.eqb_spec (i - length w)%nat (length t)); lia || done.
Qed.

Lemma boundary_cut t i :
  valid_utf8 t = true → (i ≤ length t)%nat → char_boundary t i = true →
  valid_utf8 (take i t) = true ∧ valid_utf8 (drop i t) = true.
Proof.
  intros Hv. revert t Hv i. apply (valid_ind (λ t, ∀ i, (i ≤ length t)%nat → char_boundary t i = true →
    valid_utf8 (take i t) = true ∧ valid_utf8 (drop i t) = true)); [by intros []|].
  intros w t Hw Hv IH i Hi Hb. destruct (Nat.eq_dec i 0%nat) as [->|Hn]; [split; [done|by rewrite drop_0, valid_char_app]|].
  destruct (Nat.lt_ge_cases i (length w)) as [Hlt|Hge].
  - rewrite boundary_inside in Hb by (done || lia). done.
  - rewrite boundary_app in Hb by done. rewrite length_app in Hi.
    destruct (IH (i - length w)%nat ltac:(lia) Hb) as [H1 H2].
    rewrite take_app_ge, drop_app_ge by done. by rewrite valid_char_app.
Qed.

Lemma boundary_slice t s e :
  valid_utf8 t = true → (s ≤ e ≤ length t)%nat → char_boundary t s = true → char_boundary t e = true →
  valid_utf8 (take (e - s) (drop s t)) = true.
Proof.
  intros Hv Hse Hs He. destruct (boundary_cut t e Hv ltac:(lia) He) as [H1 _].
  assert (Hb : char_boundary (take e t) s = true).
  { unfold char_boundary in *. destruct (Nat.eq_dec s e) as [->|Hne].
    - rewrite (proj2 (lookup_ge_None _ _)) by (rewrite length_take; lia). apply Nat.eqb_eq.
      rewrite length_take. lia.
    - rewrite lookup_take, decide_True by lia. destruct (t !! s) eqn:E; [done|].
      apply lookup_ge_None in E. lia. }
  destruct (boundary_cut (take e t) s H1 ltac:(rewrite length_take; lia) Hb) as [_ H2].
  rewrite take_drop_commute. by replace (s + (e - s))%nat with e by lia.
Qed.

(** ** Cutting anywhere *)

Lemma valid_prefix_spec t n :
  valid_utf8 t = true → (n ≤ length t)%nat →
  let k := valid_up_to (take n t) in
  (k ≤ n < k + 4)%nat ∧ valid_utf8 (take k t) = true ∧ valid_utf8 (drop k t) = true ∧ (valid_utf8 (take n t) = true → k = n).
Proof.
  intros Hv Hn. unfold valid_up_to. rewrite length_take, Nat.min_l by done. cbn zeta.
  enough (Hgen : ∀ fuel, (n ≤ fuel)%nat → let k := valid_prefix fuel (take n t) in
    (k ≤ n < k + 4)%nat ∧ valid_utf8 (take k t) = true ∧ valid_utf8 (drop k t) = true
    ∧ (valid_utf8 (take n t) = true → k = n)) by (by apply Hgen).
  revert t Hv n Hn. apply (valid_ind (λ t, ∀ n, (n ≤ length t)%nat → ∀ fuel, (n ≤ fuel)%nat →
    let k := valid_prefix fuel (take n t) in
    (k ≤ n < k + 4)%nat ∧ valid_utf8 (take k t) = true ∧ valid_utf8 (drop k t) = true
    ∧ (valid_utf8 (take n t) = true → k = n))).
  - intros n Hn fuel _. simpl in Hn. replace n with 0%nat by lia. destruct fuel; simpl; repeat split; lia || done.
  - intros w t Hw Hv IH n Hn fuel Hf. rewrite length_app in Hn. pose proof Hw as (Hfl & _ & Hcut & Hl & _).
    destruct fuel as [|fuel]; [replace n with 0%nat by lia; simpl; rewrite drop_0, valid_char_app by done; repeat split; lia || done|].
    cbn [valid_prefix]. destruct (Nat.lt_ge_cases n (length w)) as [Hlt|Hge].
    + assert (Ef : front_len (take n (w ++ t)) = None).
      { rewrite take_app_le by lia. destruct n; [by destruct w|]. apply Hcut. lia. }
      rewrite Ef. cbn zeta. split; [lia|]. split; [done|]. split; [by rewrite drop_0, valid_char_app|].
      intros Hvn. destruct (take n (w ++ t)) as [|a u] eqn:Et.
      * apply (f_equal length) in Et. rewrite length_take, length_app in Et. simpl in Et. lia.
      * rewrite valid_front_len, Ef in Hvn. done.
    + rewrite take_app_ge, Hfl, drop_app_length by lia. cbn zeta.
      destruct (IH (n - length w)%nat ltac:(lia) fuel ltac:(lia)) as (H1 & H2 & H3 & H4).
      split; [lia|]. rewrite take_app_add, drop_app_add, !valid_char_app by done.
      split; [done|]. split; [done|]. intros Hvn. rewrite H4 by done. lia.
Qed.
