(* ===== verification/SavedPlanLayout.v ===== *)
(** * Windows of a saved plan: facts

    What [layout_new] returns: for every image, in the order of the paths,
    nothing when the image does not change and otherwise a window of each
    side.  Outside its window a side equals the other, so the side can be
    rebuilt from the other and the window; a window of text keeps whole
    lines. *)

From Stdlib Require Import ZArith Lia Sorted Permutation.
From stdpp Require Import base option numbers list_basics list.
From S2P Require Import Prelude Redaction TextOrder.
From S2P Require Import XmlText XmlTextProps SavedPlan Utf8Facts.

Local Open Scope nat_scope.

(** ** Results

    [yields m P F]: from every count of checkpoints, [m] returns what [P]
    holds of or fails with a fault of [F]. *)
Definition yields {A} (m : M A) (P : A → Prop) (F : Fault → Prop) : Prop :=
  ∀ k, match m k with Ok (a, _) => P a | Err f => F f end.

Lemma yields_ret {A} (a : A) (P : A → Prop) F : P a → yields (ret a) P F.
Proof. by intros Ha k. Qed.
Lemma yields_fail {A} f (P : A → Prop) (F : Fault → Prop) : F f → yields (fail f) P F.
Proof. by intros Hf k. Qed.
Lemma yields_bind {A B} (m : M A) (f : A → M B) P Q F :
  yields m P F → (∀ a, P a → yields (f a) Q F) → yields (bind m f) Q F.
Proof.
  intros Hm Hf k. unfold bind. specialize (Hm k). destruct (m k) as [[a k']|e]; [|done]. by apply Hf.
Qed.
Lemma yields_lift {A} (o : option A) a (P : A → Prop) F : o = Some a → P a → yields (lift o) P F.
Proof. intros -> Ha. by apply yields_ret. Qed.
Lemma yields_weaken {A} (m : M A) (P Q : A → Prop) (F G : Fault → Prop) :
  yields m P F → (∀ a, P a → Q a) → (∀ f, F f → G f) → yields m Q G.
Proof. intros Hm HP HF k. specialize (Hm k). destruct (m k) as [[a k']|e]; auto. Qed.

(** ** Slices *)

Definition slice (bytes : list Z) (start end_ : nat) : list Z := take (end_ - start) (drop start bytes).

Lemma slice_app bytes a b c : a ≤ b ≤ c → slice bytes a b ++ slice bytes b c = slice bytes a c.
Proof.
  intros H. unfold slice. replace (c - a) with ((b - a) + (c - b)) by lia.
  rewrite <- (take_drop (b - a) (drop a bytes)) at 2. rewrite drop_drop.
  replace (a + (b - a)) with b by lia. destruct (Nat.le_gt_cases (b - a) (length (drop a bytes))) as [Hl|Hl].
  - rewrite take_app_ge by (rewrite length_take; lia). f_equal. rewrite length_take, Nat.min_l by done.
    f_equal. lia.
  - rewrite length_drop in Hl. rewrite (drop_ge bytes b) by lia.
    rewrite take_nil, !app_nil_r, take_take. f_equal. lia.
Qed.
Lemma slice_one bytes a b : bytes !! a = Some b → slice bytes a (S a) = [b].
Proof.
  intros H. unfold slice. replace (S a - a) with 1 by lia. by rewrite (drop_S _ _ _ H).
Qed.
Lemma slice_empty bytes a : slice bytes a a = [].
Proof. unfold slice. by rewrite Nat.sub_diag. Qed.

(** The line feeds of a slice. *)
Definition lines_in (bytes : list Z) (start end_ : nat) : nat :=
  length (filter (λ b, b = LF) (slice bytes start end_)).

Lemma lines_in_app bytes a b c : a ≤ b ≤ c → lines_in bytes a c = lines_in bytes a b + lines_in bytes b c.
Proof. intros H. unfold lines_in. by rewrite <- (slice_app bytes a b c H), filter_app, length_app. Qed.
Lemma lines_in_empty bytes a : lines_in bytes a a = 0.
Proof. unfold lines_in. by rewrite slice_empty. Qed.
Lemma lines_in_one bytes a b :
  bytes !! a = Some b → lines_in bytes a (S a) = if Z.eqb b LF then 1 else 0.
Proof.
  intros H. unfold lines_in. rewrite (slice_one _ _ _ H), filter_cons, filter_nil.
  destruct (Z.eqb_spec b LF); [rewrite decide_True by done|rewrite decide_False by done]; done.
Qed.

(** [i] begins a line of the bytes. *)
Definition line_start (bytes : list Z) (i : nat) : Prop := i = 0 ∨ bytes !! (i - 1) = Some LF ∧ 0 < i.

Lemma one_char_lf w : one_char w → w !! 0 = Some LF → length w = 1.
Proof.
  intros (Hf & _ & _ & Hl & _) H0. destruct w as [|a w]; [done|]. injection H0 as ->.
  specialize (Hf []). rewrite app_nil_r in Hf. by injection Hf as ->.
Qed.
Lemma lf_boundary t i : valid_utf8 t = true → t !! i = Some LF → char_boundary t (S i) = true.
Proof.
  intros Hv. revert t Hv i.
  apply (valid_ind (λ t, ∀ i, t !! i = Some LF → char_boundary t (S i) = true)); [by intros []|].
  intros w t Hw Hv IH i Hi. pose proof Hw as (_ & Hc & _ & Hl & _).
  destruct (Nat.lt_ge_cases i (length w)) as [Hlt|Hge].
  - rewrite lookup_app_l in Hi by done. destruct i as [|i].
    + pose proof (one_char_lf w Hw Hi) as H1. rewrite boundary_app by (done || lia).
      rewrite H1. apply char_boundary_0.
    + destruct (Hc (S i)) as (b & Hb & Hcb); [lia|]. simplify_eq.
  - rewrite lookup_app_r in Hi by done. rewrite boundary_app by (done || lia).
    replace (S i - length w) with (S (i - length w)) by lia. by apply IH.
Qed.
Lemma line_start_boundary t i :
  valid_utf8 t = true → line_start t i → char_boundary t i = true.
Proof.
  intros Hv [->|[Hl Hi]]; [apply char_boundary_0|].
  replace i with (S (i - 1)) by lia. by apply lf_boundary.
Qed.

(** ** Sorting *)

Lemma key_le_total a b : key_le a b = false → key_le b a = true.
Proof.
  unfold key_le. rewrite (bytes_compare_antisym (im_path_encoding a)), (bytes_compare_antisym (im_path a)).
  destruct (bytes_compare (im_path_encoding a) _), (bytes_compare (im_path a) _); simpl; done.
Qed.

Definition image_le (x y : nat * SourceImage) : Prop := key_le x.2 y.2 = true.

Lemma insert_image_perm x l : Permutation (insert_image x l) (x :: l).
Proof.
  induction l as [|y l IH]; simpl; [done|]. destruct (key_le x.2 y.2); [done|].
  rewrite IH. apply perm_swap.
Qed.
Lemma insert_image_sorted x l : Sorted image_le l → Sorted image_le (insert_image x l).
Proof.
  induction 1 as [|y l Hs IH Hd]; simpl; [by repeat constructor|].
  destruct (key_le x.2 y.2) eqn:E; [by constructor; [constructor|constructor]|].
  constructor; [done|]. apply key_le_total in E. destruct l as [|z l]; simpl; [by constructor|].
  destruct (key_le x.2 z.2); constructor; [done|by inversion Hd].
Qed.
Lemma sort_images_perm images : Permutation (sort_images images) (imap pair images).
Proof.
  unfold sort_images. induction (imap pair images) as [|x l IH]; simpl; [done|].
  by rewrite insert_image_perm, IH.
Qed.
Lemma sort_images_sorted images : Sorted image_le (sort_images images).
Proof.
  unfold sort_images. induction (imap pair images) as [|x l IH]; simpl; [constructor|].
  by apply insert_image_sorted.
Qed.
Lemma sort_images_lookup images i s : (i, s) ∈ sort_images images → images !! i = Some s.
Proof.
  rewrite sort_images_perm. intros H. apply list_elem_of_lookup_1 in H as [j Hj].
  rewrite list_lookup_imap in Hj. destruct (images !! j) eqn:E; [|done]. by injection Hj as <- <-.
Qed.

(** ** What a window keeps *)

(** The character boundary nearest to [i], downwards and upwards. *)
Definition last_boundary (bytes : list Z) (i s : nat) : Prop :=
  s ≤ i ∧ char_boundary bytes s = true ∧ ∀ j, s < j ≤ i → char_boundary bytes j = false.
Definition first_boundary (bytes : list Z) (i e : nat) : Prop :=
  i ≤ e ∧ char_boundary bytes e = true ∧ ∀ j, i ≤ j < e → char_boundary bytes j = false.

(** The context of a text window around the changed characters, from [s] to
    [e]: the lines of both, and three whole lines on either side, or all that
    there are. *)
Definition whole_lines (bytes : list Z) (w : Window) (s e : nat) : Prop :=
  line_start bytes (w_start w) ∧ lines_in bytes (w_start w) s ≤ 3
  ∧ (w_start w = 0 ∨ lines_in bytes (w_start w) s = 3)
  ∧ lines_in bytes e (w_end w) ≤ 3
  ∧ (w_end w = length bytes ∨ lines_in bytes e (w_end w) = 3 ∧ line_start bytes (w_end w)).

(** The window of one side, of which the other shares [prefix] bytes at the
    front and [suffix] at the back. *)
Definition side_ok (image : nat) (is_after : bool) (bytes : list Z) (prefix suffix : nat) (w : Window) : Prop :=
  w_image w = image ∧ w_after w = is_after ∧ w_utf8 w = valid_utf8 bytes
  ∧ w_start w ≤ prefix ∧ length bytes - suffix ≤ w_end w ≤ length bytes
  ∧ if w_utf8 w
    then ∃ s e, last_boundary bytes prefix s ∧ first_boundary bytes (length bytes - suffix) e
           ∧ w_start w ≤ s ∧ e ≤ w_end w ∧ whole_lines bytes w s e
    else w_start w = prefix ∧ w_end w = length bytes - suffix.

(** What two sides share: the longest front, and the longest back beside it. *)
Definition shared (before after : list Z) (prefix suffix : nat) : Prop :=
  let common := Nat.min (length before) (length after) in
  prefix + suffix ≤ common
  ∧ take prefix before = take prefix after ∧ (prefix = common ∨ before !! prefix ≠ after !! prefix)
  ∧ drop (length before - suffix) before = drop (length after - suffix) after
  ∧ (prefix + suffix = common ∨ before !! (length before - suffix - 1) ≠ after !! (length after - suffix - 1)).

(** [side] is [other] outside its window. *)
Definition rebuilds (other side : list Z) (w : Window) : Prop :=
  side = take (w_start w) other ++ slice side (w_start w) (w_end w)
         ++ drop (length other - (length side - w_end w)) other.

Definition group_ok (image : nat) (source : SourceImage) (group : list Window) : Prop :=
  let before := default [] (im_before source) in
  let after := default [] (im_after source) in
  (group = [] ∧ im_before source = im_after source)
  ∨ (∃ b a prefix suffix, group = [b; a] ∧ im_before source ≠ im_after source
       ∧ shared before after prefix suffix
       ∧ side_ok image false before prefix suffix b ∧ side_ok image true after prefix suffix a
       ∧ rebuilds after before b ∧ rebuilds before after a).

Definition total (ws : list Window) : Z := foldr (λ w z, (Z.of_nat (span w) + z)%Z) 0%Z ws.
(** More positions than the windows of the images can have. *)
Definition room (images : list SourceImage) : Z :=
  foldr (λ s z, (Z.of_nat (Nat.max (length (default [] (im_before s))) 1)
                 + Z.of_nat (Nat.max (length (default [] (im_after s))) 1) + z)%Z) 0%Z images.

Lemma total_app ws vs : total (ws ++ vs) = (total ws + total vs)%Z.
Proof. induction ws as [|w ws IH]; simpl; [done|]. rewrite IH. lia. Qed.
Lemma windows_total_nonneg ws : (0 ≤ total ws)%Z.
Proof. induction ws as [|w ws IH]; simpl; lia. Qed.
Lemma room_nonneg images : (0 ≤ room images)%Z.
Proof. induction images as [|s images IH]; simpl; lia. Qed.
Lemma room_perm xs ys : Permutation xs ys → room xs = room ys.
Proof. induction 1; simpl; lia. Qed.
Lemma room_sorted images : room (sort_images images).*2 = room images.
Proof.
  apply room_perm. rewrite sort_images_perm, fmap_imap.
  assert (E : imap (λ n y, (n, y).2) images = images); [|by rewrite <- E at 2].
  apply list_eq. intros i. rewrite list_lookup_imap. by destruct (images !! i).
Qed.

Lemma rebuilds_from other side p q w :
  take p other = take p side → drop (length other - q) other = drop (length side - q) side →
  p + q ≤ length other → p + q ≤ length side →
  w_start w ≤ p → length side - q ≤ w_end w ≤ length side → rebuilds other side w.
Proof.
  intros Ht Hd Ho Hs H1 H2. unfold rebuilds. set (r := length side - w_end w).
  assert (E1 : take (w_start w) other = take (w_start w) side).
  { replace (w_start w) with (w_start w `min` p) by lia. by rewrite <- !take_take, Ht. }
  assert (E2 : drop (length other - r) other = drop (w_end w) side).
  { replace (length other - r) with (length other - q + (q - r)) by lia.
    replace (w_end w) with (length side - q + (q - r)) by lia. rewrite <- !drop_drop. by rewrite Hd. }
  rewrite E1, E2.
  rewrite <- (take_drop (w_start w) side) at 1. f_equal. unfold slice.
  rewrite <- (take_drop (w_end w - w_start w) (drop (w_start w) side)) at 1. f_equal.
  rewrite drop_drop. f_equal. lia.
Qed.

Lemma changed_sources (s : SourceImage) pre :
  eqb (is_some (im_before s)) (is_some (im_after s))
    && (pre =? length (default [] (im_before s))) && (pre =? length (default [] (im_after s))) = false →
  (pre = Nat.min (length (default [] (im_before s))) (length (default [] (im_after s)))
   ∨ default [] (im_before s) !! pre ≠ default [] (im_after s) !! pre) →
  im_before s ≠ im_after s.
Proof.
  intros H Hm E. rewrite E in H, Hm. rewrite eqb_reflx, Nat.min_id in *.
  destruct Hm as [->|Hm]; [|done]. by rewrite Nat.eqb_refl in H.
Qed.

(** ** The loops *)
Section layout.
Context (checkpoint : nat → bool) (F : Fault → Prop).
Context (Hstop : (∃ k, checkpoint k = false) → F Stopped).

Lemma yields_check {A} (m : M A) P : yields m P F → yields (bind (check checkpoint) (λ _, m)) P F.
Proof.
  intros Hm. apply (yields_bind _ _ (λ _, True)); [|done]. intros k. unfold check.
  destruct (checkpoint k) eqn:E; [done|]. apply Hstop. by exists k.
Qed.
Lemma yields_check_at {A} n (m : M A) P :
  yields m P F → yields (bind (check_at checkpoint n) (λ _, m)) P F.
Proof. intros Hm. unfold check_at. destruct (_ =? _)%Z; [by apply yields_check|]. intros k. apply Hm. Qed.

Lemma prefix_loop_yields before after fuel n :
  n + fuel ≤ length before → n + fuel ≤ length after → take n before = take n after →
  yields (prefix_loop checkpoint before after fuel n)
    (λ p, n ≤ p ≤ n + fuel ∧ take p before = take p after
          ∧ (p = n + fuel ∨ before !! p ≠ after !! p)) F.
Proof.
  revert n. induction fuel as [|fuel IH]; intros n Hb Ha Ht; simpl; [apply yields_ret; split; [lia|]; split; [done|left; lia]|].
  destruct (lookup_lt_is_Some_2 before n) as [b Eb]; [lia|].
  destruct (lookup_lt_is_Some_2 after n) as [a Ea]; [lia|].
  eapply yields_bind; [by apply (yields_lift _ b (λ c, c = b))|]. intros ? ->.
  eapply yields_bind; [by apply (yields_lift _ a (λ c, c = a))|]. intros ? ->.
  destruct (Z.eqb_spec b a) as [->|Hne];
    [|apply yields_ret; split; [lia|]; split; [done|right; rewrite Eb, Ea; congruence]].
  apply yields_check_at. eapply yields_weaken; [apply (IH (S n)); try lia| |done].
  - by rewrite (take_S_r _ _ _ Eb), (take_S_r _ _ _ Ea), Ht.
  - intros p (? & ? & Hm). split; [lia|]. split; [done|]. destruct Hm; [left; lia|by right].
Qed.

Lemma suffix_loop_yields before after fuel n :
  n + fuel ≤ length before → n + fuel ≤ length after →
  drop (length before - n) before = drop (length after - n) after →
  yields (suffix_loop checkpoint before after fuel n)
    (λ q, n ≤ q ≤ n + fuel ∧ drop (length before - q) before = drop (length after - q) after
          ∧ (q = n + fuel ∨ before !! (length before - q - 1) ≠ after !! (length after - q - 1))) F.
Proof.
  revert n. induction fuel as [|fuel IH]; intros n Hb Ha Ht; simpl; [apply yields_ret; split; [lia|]; split; [done|left; lia]|].
  destruct (lookup_lt_is_Some_2 before (length before - n - 1)) as [b Eb]; [lia|].
  destruct (lookup_lt_is_Some_2 after (length after - n - 1)) as [a Ea]; [lia|].
  eapply yields_bind; [by apply (yields_lift _ b (λ c, c = b))|]. intros ? ->.
  eapply yields_bind; [by apply (yields_lift _ a (λ c, c = a))|]. intros ? ->.
  destruct (Z.eqb_spec b a) as [->|Hne];
    [|apply yields_ret; split; [lia|]; split; [done|right; rewrite Eb, Ea; congruence]].
  apply yields_check_at. eapply yields_weaken; [apply (IH (S n)); try lia| |done].
  - replace (length before - S n) with (length before - n - 1) by lia.
    replace (length after - S n) with (length after - n - 1) by lia.
    rewrite (drop_S _ _ _ Eb), (drop_S _ _ _ Ea). f_equal.
    replace (S (length before - n - 1)) with (length before - n) by lia.
    by replace (S (length after - n - 1)) with (length after - n) by lia.
  - intros q (? & ? & Hm). split; [lia|]. split; [done|]. destruct Hm; [left; lia|by right].
Qed.

Lemma boundary_from_spec bytes fuel e :
  e + fuel = length bytes →
  let e' := boundary_from bytes fuel e in
  e' ≤ length bytes ∧ first_boundary bytes e e'.
Proof.
  unfold first_boundary. revert e. induction fuel as [|fuel IH]; intros e He; simpl.
  - replace e with (length bytes) by lia. split; [lia|]. split; [lia|]. split; [apply char_boundary_end|lia].
  - destruct (char_boundary bytes e) eqn:E; [split; [lia|]; split; [lia|]; split; [done|lia]|].
    destruct (IH (S e) ltac:(lia)) as (H1 & H2 & H3 & H4). split; [lia|]. split; [lia|]. split; [done|].
    intros j Hj. destruct (decide (j = e)) as [->|]; [done|]. apply H4. lia.
Qed.
Lemma back_to_last bytes i : last_boundary bytes i (back_to (char_boundary bytes) i).
Proof.
  split; [apply back_to_le|]. split; [apply back_to_ok, char_boundary_0|]. intros j [Hj Hji].
  apply not_true_iff_false. intros Hb. pose proof (back_to_max _ i j Hji Hb). lia.
Qed.

Lemma line_back_yields bytes s :
  s ≤ length bytes →
  yields (line_back checkpoint bytes s) (λ t, t ≤ s ∧ line_start bytes t ∧ lines_in bytes t s = 0) F.
Proof.
  induction s as [|s IH]; intros Hs; simpl; [apply yields_ret; split; [done|]; split; [by left|by rewrite lines_in_empty]|].
  destruct (lookup_lt_is_Some_2 bytes s) as [b Eb]; [lia|].
  eapply yields_bind; [by apply (yields_lift _ b (λ c, c = b))|]. intros ? ->.
  destruct (Z.eqb_spec b LF) as [->|Hne].
  - apply yields_ret. split; [done|]. split; [|by rewrite lines_in_empty].
    right. rewrite Nat.sub_succ, Nat.sub_0_r. split; [done|lia].
  - apply yields_check_at. eapply yields_weaken; [apply IH; lia| |done]. intros t (Ht & Hl & Hc).
    split; [lia|]. split; [done|]. rewrite (lines_in_app _ _ s) by lia.
    rewrite Hc, (lines_in_one _ _ _ Eb). by rewrite (proj2 (Z.eqb_neq _ _) Hne).
Qed.

Lemma lines_back_yields bytes rounds preceding s :
  s ≤ length bytes → 0 < preceding → line_start bytes s →
  yields (lines_back checkpoint bytes rounds preceding s)
    (λ t, t ≤ s ∧ line_start bytes t ∧ lines_in bytes t s ≤ rounds ∧ (t = 0 ∨ lines_in bytes t s = rounds)) F.
Proof.
  revert preceding s. induction rounds as [|rounds IH]; intros preceding s Hs Hp Hl; simpl.
  { apply yields_ret. rewrite lines_in_empty. split; [done|]. split; [done|]. by split; [|right]. }
  apply yields_check. rewrite (proj2 (Nat.ltb_lt 0 preceding) Hp), andb_true_l.
  destruct (Nat.ltb_spec 0 s) as [H0|H0].
  - destruct Hl as [->|[Hlf _]]; [lia|].
    eapply yields_bind; [apply line_back_yields; lia|]. intros u (Hu & Hlu & Hcu).
    assert (E : lines_in bytes u s = 1).
    { rewrite (lines_in_app _ _ (s - 1)), Hcu by lia. replace s with (S (s - 1)) at 2 by lia.
      by rewrite (lines_in_one _ _ _ Hlf). }
    eapply yields_weaken; [apply (IH (S preceding)); [lia|lia|done]| |done].
    intros t (Ht & Hlt & Hct & Hcase). rewrite (lines_in_app _ t u s), E by lia.
    split; [lia|]. split; [done|]. split; [lia|]. destruct Hcase; [by left|right; lia].
  - assert (s = 0) as -> by lia.
    eapply yields_bind; [apply line_back_yields; lia|]. intros u (Hu & Hlu & Hcu).
    eapply yields_weaken; [apply (IH (S preceding)); [lia|lia|done]| |done].
    intros t (Ht & Hlt & Hct & Hcase). assert (t = 0 ∧ u = 0) as [-> ->] by lia.
    split; [done|]. split; [done|]. rewrite lines_in_empty. split; [lia|]. by left.
Qed.

(** Back to the beginning of the line and at most three lines more. *)
Lemma context_before bytes s :
  s ≤ length bytes →
  yields (lines_back checkpoint bytes 4 0 s)
    (λ t, t ≤ s ∧ line_start bytes t ∧ lines_in bytes t s ≤ 3 ∧ (t = 0 ∨ lines_in bytes t s = 3)) F.
Proof.
  intros Hs. remember 3 as three eqn:E3. replace 4 with (S three) by lia. cbn [lines_back].
  apply yields_check. change (0 <? 0) with false. rewrite andb_false_l.
  eapply yields_bind; [by apply line_back_yields|]. intros u (Hu & Hlu & Hcu).
  eapply yields_weaken; [apply (lines_back_yields bytes three 1); [lia|lia|done]| |done].
  intros t (Ht & Hlt & Hct & Hcase). rewrite (lines_in_app _ t u s) by lia.
  split; [lia|]. split; [done|]. split; [lia|]. destruct Hcase; [by left|right; lia].
Qed.

Lemma lines_on_yields bytes fuel n e :
  e + fuel = length bytes → n ≤ 3 →
  yields (lines_on checkpoint bytes fuel n e)
    (λ t, e ≤ t ≤ length bytes ∧ n + lines_in bytes e t ≤ 3
          ∧ (t = length bytes ∨ n + lines_in bytes e t = 3 ∧ (t = e ∨ line_start bytes t))) F.
Proof.
  revert n e. induction fuel as [|fuel IH]; intros n e He Hn; simpl.
  { apply yields_ret. rewrite lines_in_empty. split; [lia|]. split; [lia|]. left. lia. }
  destruct (Nat.ltb_spec n 3) as [H3|H3].
  2:{ apply yields_ret. rewrite lines_in_empty. split; [lia|]. split; [lia|]. right. by split; [lia|left]. }
  destruct (lookup_lt_is_Some_2 bytes e) as [b Eb]; [lia|].
  eapply yields_bind; [by apply (yields_lift _ b (λ c, c = b))|]. intros ? ->.
  apply yields_check_at. eapply yields_weaken; [apply IH; [lia|destruct (Z.eqb b LF); lia]| |done].
  cbn beta. intros t (Ht & Hc & Hcase). rewrite (lines_in_app _ e (S e) t), (lines_in_one _ _ _ Eb) by lia.
  split; [lia|]. destruct (Z.eqb_spec b LF) as [->|Hb].
  - split; [lia|]. destruct Hcase as [Hcase|[Hcase Hs]]; [by left|right]. split; [lia|].
    right. destruct Hs as [->|Hs]; [|done]. right. rewrite Nat.sub_succ, Nat.sub_0_r. split; [done|lia].
  - split; [lia|]. destruct Hcase as [Hcase|[Hcase Hs]]; [by left|right]. split; [lia|].
    right. destruct Hs as [->|Hs]; [rewrite lines_in_empty in Hcase; lia|done].
Qed.

Lemma side_window_yields image is_after bytes prefix suffix :
  prefix + suffix ≤ length bytes →
  yields (side_window checkpoint image is_after bytes prefix suffix)
    (side_ok image is_after bytes prefix suffix) F.
Proof.
  intros H. unfold side_window. apply yields_check. destruct (valid_utf8 bytes) eqn:Hv.
  2:{ apply yields_ret. unfold side_ok. cbn. rewrite Hv. repeat (split; [done || lia|]). done. }
  pose proof (back_to_last bytes prefix) as Hs. set (s := back_to (char_boundary bytes) prefix) in *.
  destruct (boundary_from_spec bytes (length bytes - (length bytes - suffix)) (length bytes - suffix) ltac:(lia)) as [Hel He].
  set (e := boundary_from bytes _ _) in *. pose proof Hs as (Hsp & _). pose proof He as (Hep & _). clearbody s e.
  eapply yields_bind; [apply context_before; lia|]. cbn beta. intros t (Ht & Hlt & Hct & Hcase).
  eapply yields_bind; [apply (lines_on_yields bytes (length bytes - e) 0 e); lia|]. cbn beta.
  intros u (Hu & Hcu & Hcase'). apply yields_ret. unfold side_ok. cbn. rewrite Hv.
  repeat (split; [done || lia|]). exists s, e. split; [done|]. split; [done|]. split; [lia|]. split; [lia|].
  unfold whole_lines. cbn. repeat (split; [done || lia|]).
  destruct Hcase' as [->|[Hcase' [->|Hl]]]; [by left| |by right].
  rewrite lines_in_empty in Hcase'. lia.
Qed.

Lemma side_ok_span image is_after bytes prefix suffix w :
  side_ok image is_after bytes prefix suffix w → span w ≤ Nat.max (length bytes) 1.
Proof. intros (_ & _ & _ & _ & H & _). unfold span. lia. Qed.

Lemma add_positions_yields p w :
  (p ≤ u64_max)%Z → ((u64_max < p + Z.of_nat (span w))%Z → F AddressSpace) →
  yields (add_positions p w) (λ p', p' = (p + Z.of_nat (span w))%Z ∧ (p' ≤ u64_max)%Z) F.
Proof.
  intros Hp HF. unfold add_positions. destruct (Z.leb_spec (p + Z.of_nat (span w)) u64_max).
  - by apply yields_ret.
  - by apply yields_fail, HF.
Qed.

Lemma new_loop_yields order ws p :
  (p ≤ u64_max)%Z → ((u64_max < p + room order.*2)%Z → F AddressSpace) →
  yields (new_loop checkpoint order ws p)
    (λ l, ∃ groups, windows l = ws ++ concat groups
      ∧ Forall2 (λ x g, group_ok x.1 x.2 g) order groups
      ∧ positions l = (p + total (concat groups))%Z ∧ (positions l ≤ u64_max)%Z) F.
Proof.
  revert ws p. induction order as [|[i s] order IH]; intros ws p Hp HF; cbn [new_loop].
  { apply yields_ret. exists []. rewrite app_nil_r. cbn. split; [done|]. split; [constructor|]. lia. }
  cbn [fmap list_fmap room foldr snd] in HF. fold (room order.*2) in HF.
  apply yields_check. set (before := default [] (im_before s)) in *. set (after := default [] (im_after s)) in *.
  eapply yields_bind; [apply prefix_loop_yields; [lia|lia|done]|]. cbn beta. intros pre (Hpre & Ht & Hmp).
  destruct (eqb _ _ && _ && _) eqn:Esame.
  - eapply yields_weaken; [apply (IH ws p Hp)| |done].
    { intros H. apply HF. lia. }
    intros l (gs & Ew & Hg & Epos). exists ([] :: gs). split; [done|]. split; [|done].
    constructor; [left; split; [done|]|done].
    apply andb_true_iff in Esame as [Esame Ea%Nat.eqb_eq]. apply andb_true_iff in Esame as [Eo%eqb_prop Eb%Nat.eqb_eq].
    rewrite !take_ge in Ht by lia. subst before after.
    cbn [snd]. destruct (im_before s), (im_after s); [exact (f_equal Some Ht)|done|done|done].
  - eapply yields_bind.
    { apply (suffix_loop_yields before after (Nat.min (length before) (length after) - pre) 0); [lia|lia|].
      by rewrite !Nat.sub_0_r, !drop_all. }
    cbn beta. intros suf (Hsuf & Hd & Hms).
    eapply yields_bind; [apply side_window_yields; lia|]. intros b Hb.
    pose proof (side_ok_span _ _ _ _ _ _ Hb) as Hbs.
    eapply yields_bind.
    { apply add_positions_yields; [done|]. intros H. apply HF. pose proof (room_nonneg order.*2). lia. }
    cbn beta. intros ? [-> Hp1].
    eapply yields_bind; [apply side_window_yields; lia|]. intros a Ha.
    pose proof (side_ok_span _ _ _ _ _ _ Ha) as Has.
    eapply yields_bind.
    { apply add_positions_yields; [done|]. intros H. apply HF. pose proof (room_nonneg order.*2). lia. }
    cbn beta. intros ? [-> Hp2].
    eapply yields_weaken; [apply IH; [done|]| |done].
    { intros H. apply HF. lia. }
    intros l (gs & Ew & Hg & Epos & Hmax). exists ([b; a] :: gs). split; [by rewrite Ew, <- (assoc_L (++))|].
    split; [|split; [|done]].
    2:{ change (total (concat ([b; a] :: gs))) with (Z.of_nat (span b) + (Z.of_nat (span a) + total (concat gs)))%Z. lia. }
    constructor; [|done]. right. exists b, a, pre, suf. cbn [fst snd].
    fold before after. pose proof Hb as (_ & _ & _ & Hb1 & Hb2 & _). pose proof Ha as (_ & _ & _ & Ha1 & Ha2 & _).
    split; [done|]. split; [by eapply changed_sources|].
    split; [|split; [done|split; [done|]]].
    + split; [lia|]. split; [done|]. split; [destruct Hmp; [left; lia|by right]|].
      split; [done|]. destruct Hms; [left; lia|by right].
    + split; eapply rebuilds_from; eauto; lia.
Qed.
End layout.

(** What [layout_new] promises. *)
Definition layout_of (images : list SourceImage) (l : PlanDiffLayout) : Prop :=
  ∃ groups, windows l = concat groups
    ∧ Forall2 (λ x g, group_ok x.1 x.2 g) (sort_images images) groups
    ∧ positions l = total (windows l) ∧ (positions l ≤ u64_max)%Z.

Lemma layout_new_yields checkpoint images F :
  ((∃ k, checkpoint k = false) → F Stopped) → ((u64_max < room images)%Z → F AddressSpace) →
  yields (layout_new checkpoint images) (layout_of images) F.
Proof.
  intros H1 H2. eapply yields_weaken; [apply new_loop_yields; [done|done|]| |done].
  - by rewrite room_sorted.
  - intros l (gs & Ew & Hg & Ep & Hm). exists gs. rewrite Ew, app_nil_l. by rewrite Ep in *.
Qed.
