(* ===== verification/SavedPlanPages.v ===== *)
(** * Windows and pages of a saved plan: nothing is lost

    The windows cover what changed.  Reading the pages of a plan by their cursors ends, keeps every page
    within its limits, and yields for every window chunks that follow each
    other from its first byte to its last. *)

From Stdlib Require Import ZArith Lia Sorted Permutation Ascii String.
From stdpp Require Import base option numbers list_basics list.
From S2P Require Import Prelude Redaction NavCursor XmlText XmlTextProps SavedPlan Utf8Facts SavedPlanLayout.

Local Open Scope Z_scope.
Local Open Scope plan_scope.

Lemma chunk_bytes_wide : (4 ≤ CHUNK_BYTES)%nat.
Proof. by apply Nat.leb_le. Qed.

(** The bytes of the side a window is of. *)
Definition image_of (images : list SourceImage) (w : Window) : list Z :=
  default [] (images !! w_image w ≫= λ s, side_bytes s w).

Definition window_ok (images : list SourceImage) (w : Window) : Prop :=
  is_Some (images !! w_image w)
  ∧ (w_start w ≤ w_end w ≤ length (image_of images w))%nat
  ∧ (w_utf8 w = true → valid_utf8 (image_of images w) = true
       ∧ char_boundary (image_of images w) (w_start w) = true
       ∧ char_boundary (image_of images w) (w_end w) = true).

Lemma side_window_ok images i s (is_after : bool) prefix suffix w :
  images !! i = Some s →
  let bytes := default [] (if is_after then im_after s else im_before s) in
  (prefix + suffix ≤ length bytes)%nat → side_ok i is_after bytes prefix suffix w → window_ok images w.
Proof.
  intros Hi bytes Hle (Ei & Ea & Eu & Hs & He & Hw).
  assert (Eb : image_of images w = bytes).
  { unfold image_of, side_bytes. rewrite Ei, Hi, Ea. done. }
  unfold window_ok. rewrite Eb, Ei, Hi. split; [by exists s|]. split; [lia|]. intros Hu. rewrite Hu in Hw, Eu.
  destruct Hw as (s' & e' & _ & _ & _ & _ & Hl & _ & _ & _ & Hend).
  split; [done|]. split; [by apply line_start_boundary|].
  destruct Hend as [->|[_ Hend]]; [apply char_boundary_end|by apply line_start_boundary].
Qed.

Lemma layout_windows_ok images l : layout_of images l → Forall (window_ok images) (windows l).
Proof.
  intros (gs & -> & Hg & _). assert (Hin : ∀ x, x ∈ sort_images images → images !! x.1 = Some x.2).
  { intros [i s] H. by apply sort_images_lookup. }
  induction Hg as [|[i s] g order gs Hx Hg IH]; [constructor|]. simpl. apply Forall_app.
  split; [|apply IH; intros x Hx'; apply Hin; by constructor].
  specialize (Hin (i, s) ltac:(by constructor)). cbn [fst snd] in Hin, Hx.
  destruct Hx as [[-> _]|(b & a & p & q & -> & _ & (Hle & _) & Hsb & Hsa & _)]; [constructor|].
  constructor; [eapply (side_window_ok images i s false); [done| |done]; cbn; lia|].
  constructor; [eapply (side_window_ok images i s true); [done| |done]; cbn; lia|constructor].
Qed.

(** ** What the pages hold *)
Section pages.
Context (checkpoint : nat → bool) (json_len : Chunk → Z) (base64_encode : list Z → list Z).
Context (images : list SourceImage).

Definition chunk_ok (source : SourceImage) (w : Window) (c : Chunk) : Prop :=
  let bytes := side_bytes source w in
  let image := default [] bytes in
  let content := slice image (ck_start c) (ck_end c) in
  ck_path_encoding c = im_path_encoding source ∧ ck_path c = im_path source
  ∧ ck_after c = w_after w ∧ ck_present c = is_some bytes ∧ ck_total c = length image
  ∧ ck_range_start c = w_start w ∧ ck_range_end c = w_end w
  ∧ (w_start w ≤ ck_start c ≤ ck_end c)%nat ∧ (ck_end c ≤ w_end w)%nat
  ∧ (ck_end c ≤ ck_start c + CHUNK_BYTES)%nat
  ∧ (if w_utf8 w then ck_content c = Utf8 content ∧ valid_utf8 content = true
     else ck_content c = Base64 (base64_encode content)).

(** Chunks that follow each other from [start] to the end of the window. *)
Inductive tiles_window (source : SourceImage) (w : Window) : nat → list Chunk → Prop :=
  | tiles_end c : chunk_ok source w c → ck_end c = w_end w → tiles_window source w (ck_start c) [c]
  | tiles_next c cs :
      chunk_ok source w c → (ck_start c < ck_end c < w_end w)%nat →
      tiles_window source w (ck_end c) cs → tiles_window source w (ck_start c) (c :: cs).

(** The chunks of windows, each from its own start. *)
Definition tiles_from (rest : list (Window * nat)) (chunks : list Chunk) : Prop :=
  ∃ pieces, chunks = concat pieces
    ∧ Forall2 (λ x piece, ∃ source, images !! w_image x.1 = Some source
                                     ∧ tiles_window source x.1 x.2 piece) rest pieces.
Definition whole (ws : list Window) : list (Window * nat) := map (λ w, (w, w_start w)) ws.
Definition tiles (ws : list Window) (chunks : list Chunk) : Prop := tiles_from (whole ws) chunks.

(** What is left of the windows after [offset] positions. *)
Fixpoint remaining (ws : list Window) (offset : Z) : list (Window * nat) :=
  match ws with
  | [] => []
  | w :: ws =>
      if Z.of_nat (span w) <=? offset then remaining ws (offset - Z.of_nat (span w))
      else (w, (w_start w + Z.to_nat offset)%nat) :: whole ws
  end.

Lemma span_pos w : (0 < span w)%nat.
Proof. unfold span. lia. Qed.
Lemma remaining_in w ws o :
  0 ≤ o < Z.of_nat (span w) → remaining (w :: ws) o = (w, (w_start w + Z.to_nat o)%nat) :: whole ws.
Proof. intros H. simpl. by rewrite (proj2 (Z.leb_gt _ _)) by lia. Qed.
Lemma remaining_after w ws o :
  0 ≤ o → remaining (w :: ws) (Z.of_nat (span w) + o) = remaining ws o.
Proof. intros H. simpl. rewrite (proj2 (Z.leb_le _ _)) by lia. f_equal. lia. Qed.
Lemma remaining_0 ws : remaining ws 0 = whole ws.
Proof.
  destruct ws as [|w ws]; [done|]. rewrite remaining_in by (pose proof (span_pos w); lia).
  by rewrite Nat.add_0_r.
Qed.
Lemma remaining_total ws : remaining ws (total ws) = [].
Proof.
  induction ws as [|w ws IH]; [done|]. cbn [total foldr]. fold (total ws).
  by rewrite remaining_after by apply windows_total_nonneg.
Qed.

Lemma tiles_from_app x rest cs cs' :
  (∃ source, images !! w_image x.1 = Some source ∧ tiles_window source x.1 x.2 cs) →
  tiles_from rest cs' → tiles_from (x :: rest) (cs ++ cs').
Proof.
  intros Hx (pieces & -> & Hp). exists (cs :: pieces). split; [done|]. by constructor.
Qed.

(** A place from which the window can be served. *)
Definition fine (w : Window) (start : nat) : Prop :=
  (w_start w ≤ start)%nat
  ∧ ((start < w_end w)%nat ∨ start = w_end w ∧ w_start w = w_end w)
  ∧ (w_utf8 w = true → char_boundary (image_of images w) start = true).
Definition aligned (ws : list Window) (offset : Z) : Prop :=
  match remaining ws offset with (w, start) :: _ => fine w start | [] => True end.

Lemma fine_start w : window_ok images w → fine w (w_start w).
Proof. intros (_ & Hle & Hu). split; [lia|]. split; [lia|]. intros H. by apply Hu in H as (_ & ? & _). Qed.
Lemma aligned_0 ws : Forall (window_ok images) ws → aligned ws 0.
Proof. unfold aligned. rewrite remaining_0. intros [|w ws' Hw _]; [done|]. by apply fine_start. Qed.
Lemma fine_offset w start :
  fine w start → 0 ≤ Z.of_nat (start - w_start w) < Z.of_nat (span w).
Proof. unfold span. intros (H1 & H2 & _). lia. Qed.

(** ** Serving *)
Context (F : Fault → Prop).
Context (Hstop : (∃ k, checkpoint k = false) → F Stopped).
Context (Hlong : (∃ source w c, chunk_ok source w c ∧ PAGE_BYTES < json_len c) → F PathTooLong).

Lemma image_range_yields image s e :
  (s ≤ e ≤ length image)%nat → yields (lift (image_range image s e)) (λ t, t = slice image s e) F.
Proof.
  intros H. apply (yields_lift _ (slice image s e)); [|done].
  unfold image_range. by rewrite !(proj2 (Nat.leb_le _ _)) by lia.
Qed.

Lemma valid_boundary bytes e :
  (e ≤ length bytes)%nat → valid_utf8 (drop e bytes) = true → char_boundary bytes e = true.
Proof.
  intros He Hv. unfold char_boundary. destruct (bytes !! e) as [b|] eqn:E.
  - rewrite (drop_S _ _ _ E) in Hv. by rewrite (valid_first _ _ Hv), orb_true_r.
  - apply lookup_ge_None in E. apply Nat.eqb_eq. lia.
Qed.

Lemma chunk_content_yields w start :
  window_ok images w → fine w start →
  let image := image_of images w in
  yields (chunk_content base64_encode (w_utf8 w) image start (Nat.min (start + CHUNK_BYTES) (w_end w)))
    (λ '(e, content), (start ≤ e ≤ w_end w)%nat ∧ (e ≤ start + CHUNK_BYTES)%nat
       ∧ ((start < w_end w)%nat → (start < e)%nat)
       ∧ (w_utf8 w = true → char_boundary image e = true)
       ∧ if w_utf8 w then content = Utf8 (slice image start e) ∧ valid_utf8 (slice image start e) = true
         else content = Base64 (base64_encode (slice image start e))) F.
Proof.
  intros (_ & Hle & Hu) (Hs & Hin & Hb) image. pose proof chunk_bytes_wide as Hwide.
  set (e := Nat.min (start + CHUNK_BYTES) (w_end w)). unfold chunk_content.
  assert (Hse : (start ≤ e ≤ w_end w)%nat) by lia. fold image in Hle, Hu, Hb.
  destruct (w_utf8 w).
  2:{ eapply yields_bind; [apply image_range_yields; lia|].
      intros ? ->. apply yields_ret. repeat (split; [lia || done|]). done. }
  destruct (Hu eq_refl) as (Hv & _ & Hbe). specialize (Hb eq_refl).
  destruct (boundary_cut image start Hv ltac:(lia) Hb) as [_ Hvd].
  destruct (valid_prefix_spec (drop start image) (e - start) Hvd ltac:(rewrite length_drop; lia)) as (Hk & Hvt & Hvr & Hall).
  fold (slice image start e) in Hk, Hvt, Hvr, Hall. set (k := valid_up_to (slice image start e)) in *.
  assert (Hfull : (e < start + CHUNK_BYTES)%nat → k = (e - start)%nat).
  { intros Hlt. apply Hall. assert (e = w_end w) as -> by lia. by apply boundary_slice; [|lia|..]. }
  eapply yields_bind; [apply image_range_yields; lia|].
  intros ? ->. set (e' := if valid_utf8 (slice image start e) then e else (start + valid_up_to (slice image start e))%nat).
  assert (Ek : e' = (start + k)%nat).
  { unfold e'. destruct (valid_utf8 (slice image start e)) eqn:E; [|done]. rewrite (Hall eq_refl). lia. }
  rewrite Ek. clear e' Ek.
  assert (Esl : slice image start (start + k) = take k (drop start image)) by (unfold slice; f_equal; lia).
  eapply yields_bind; [apply image_range_yields; lia|].
  intros ? ->. rewrite Esl, Hvt. apply yields_ret. split; [lia|]. split; [lia|]. split; [lia|].
  split; [|by rewrite Esl]. intros _. apply valid_boundary; [lia|]. by rewrite <- drop_drop.
Qed.

(** The bytes of the chunks of a page and their number. *)
Definition page_size (cs : list Chunk) : Z := foldr (λ c z, json_len c + z) 0 cs.
Definition within (limit : nat) (cs : list Chunk) : Prop :=
  page_size cs ≤ PAGE_BYTES ∧ (length cs ≤ limit)%nat.
Definition progress_ok (limit : nat) (pr : Progress) : Prop :=
  pr_size pr = page_size (pr_chunks pr) ∧ within limit (pr_chunks pr).

Lemma page_size_app cs ds : page_size (cs ++ ds) = page_size cs + page_size ds.
Proof. induction cs as [|c cs IH]; simpl; [done|]. rewrite IH. lia. Qed.

Lemma chunk_loop_yields fuel source w limit start pr :
  (w_end w - start < fuel)%nat → images !! w_image w = Some source → window_ok images w → fine w start →
  (1 ≤ limit)%nat → progress_ok limit pr →
  yields (chunk_loop checkpoint json_len base64_encode fuel source w limit start pr)
    (λ '(pr', stopped), progress_ok limit pr' ∧ ∃ cs, pr_chunks pr' = pr_chunks pr ++ cs
       ∧ match stopped with
         | None => pr_consumed pr' = pr_consumed pr + Z.of_nat (span w) - Z.of_nat (start - w_start w)
                   ∧ tiles_window source w start cs
         | Some by_ => by_ ≠ Complete ∧ pr_chunks pr' ≠ [] ∧ ∃ e, fine w e ∧ (start ≤ e)%nat
             ∧ pr_consumed pr' = pr_consumed pr + Z.of_nat (e - start) ∧ (cs ≠ [] → (start < e)%nat)
             ∧ ∀ cs', tiles_window source w e cs' → tiles_window source w start (cs ++ cs')
         end) F.
Proof.
  intros Hfuel Hsrc Hw. revert start pr Hfuel. induction fuel as [|fuel IH]; intros start pr Hfuel Hfine Hlim Hpr; [lia|].
  cbn [chunk_loop]. apply yields_check; [done|].
  assert (Eimg : default [] (side_bytes source w) = image_of images w) by (unfold image_of; by rewrite Hsrc).
  eapply yields_bind; [rewrite Eimg; by apply chunk_content_yields|].
  intros [e content] (He & Hcb & Hgo & Hbe & Hcontent).
  set (c := mkChunk _ _ _ _ _ _ _ start e content).
  assert (Hc : chunk_ok source w c).
  { unfold chunk_ok. cbn. rewrite Eimg. pose proof (proj1 Hfine). split_and!; done || lia. }
  destruct (Z.ltb_spec PAGE_BYTES (json_len c)) as [Hbig|Hfits]; [by apply yields_fail, Hlong; exists source, w, c|].
  assert (Hnow : ∀ by_, by_ ≠ Complete → pr_chunks pr ≠ [] →
    ∃ cs, pr_chunks pr = pr_chunks pr ++ cs ∧ by_ ≠ Complete ∧ pr_chunks pr ≠ [] ∧ ∃ e, fine w e ∧ (start ≤ e)%nat
      ∧ pr_consumed pr = pr_consumed pr + Z.of_nat (e - start) ∧ (cs ≠ [] → (start < e)%nat)
      ∧ ∀ cs', tiles_window source w e cs' → tiles_window source w start (cs ++ cs')).
  { intros by_ Hby Hne. exists []. rewrite app_nil_r. split; [done|]. split; [done|]. split; [done|].
    exists start. split; [done|]. split; [done|]. split; [lia|]. by split. }
  destruct (Nat.eqb_spec (length (pr_chunks pr)) limit) as [El|Hl].
  { apply yields_ret. split; [done|]. apply Hnow; [done|]. intros E. rewrite E in El. simpl in El. lia. }
  destruct (negb _ && _) eqn:Eb.
  { apply yields_ret. split; [done|]. apply Hnow; [done|]. intros E. by rewrite E in Eb. }
  assert (Hpr' : progress_ok limit (mkProgress (pr_consumed pr + Z.max (Z.of_nat e - Z.of_nat start) 1)
                                      (pr_size pr + json_len c) (pr_chunks pr ++ [c]))).
  { destruct Hpr as (Es & Hp & Hn). unfold progress_ok, within. cbn [pr_size pr_chunks].
    rewrite page_size_app, length_app, Es. cbn [page_size foldr length]. split; [lia|]. split; [|lia].
    rewrite Es in Eb. destruct (pr_chunks pr) as [|c0 cs0]; [cbn; lia|]. cbn [length Nat.eqb negb andb] in Eb.
    apply Z.ltb_ge in Eb. lia. }
  assert (Eimp : (start < w_end w)%nat → Z.max (Z.of_nat e - Z.of_nat start) 1 = Z.of_nat (e - start)) by lia.
  destruct (Nat.eqb_spec e (w_end w)) as [Ee|Hne].
  - apply yields_ret. split; [done|]. exists [c]. split; [done|]. cbn [pr_consumed].
    split; [|by apply (tiles_end source w c)]. destruct Hfine as (H1 & H2 & _). unfold span. lia.
  - assert (Hse : (start < e)%nat) by lia.
    assert (Hfe : fine w e).
    { destruct Hfine as (H1 & _ & _). split; [lia|]. split; [lia|done]. }
    eapply yields_weaken; [apply IH; [lia|done|done|done]| |done]. cbn [pr_consumed pr_chunks].
    intros [pr' stopped] (Hok & cs & Ecs & Hst). split; [done|]. exists (c :: cs).
    split; [by rewrite Ecs, <- (assoc_L (++))|]. rewrite Eimp in Hst by lia. destruct stopped as [by_|].
    + destruct Hst as (Hby & Hnil & e2 & Hf2 & He2 & Econs & _ & Ht). split; [done|]. split; [done|].
      exists e2. split; [done|]. split; [lia|]. split; [lia|]. split; [lia|]. intros cs' Hcs'.
      apply (tiles_next source w c); [done|cbn; lia|by apply Ht].
    + destruct Hst as [Econs Ht]. destruct Hfine as (H1 & _ & _). split; [lia|].
      apply (tiles_next source w c); [done|cbn; lia|done].
Qed.

Lemma window_loop_yields ws limit offset position pr :
  Forall (window_ok images) ws → (1 ≤ limit)%nat → progress_ok limit pr →
  let o := Z.max 0 (offset - position) in
  o ≤ total ws → aligned ws o →
  yields (window_loop checkpoint json_len base64_encode images ws limit offset position pr)
    (λ '(pr', by_), progress_ok limit pr' ∧ ∃ cs c, pr_chunks pr' = pr_chunks pr ++ cs
       ∧ pr_consumed pr' = pr_consumed pr + c ∧ 0 ≤ c ∧ o + c ≤ total ws ∧ aligned ws (o + c)
       ∧ (cs ≠ [] → 0 < c) ∧ (by_ = Complete → o + c = total ws) ∧ (by_ ≠ Complete → pr_chunks pr' ≠ [])
       ∧ ∀ cs', tiles_from (remaining ws (o + c)) cs' → tiles_from (remaining ws o) (cs ++ cs')) F.
Proof.
  intros Hws Hlim. revert position pr. induction Hws as [|w ws Hw Hws IH]; intros position pr Hpr o Ho Hal.
  { cbn [window_loop]. apply yields_ret. split; [done|]. exists [], 0. rewrite app_nil_r, !Z.add_0_r.
    cbn [total foldr] in *. repeat (split; [done || lia|]). done. }
  cbn [window_loop]. apply yields_check; [done|]. cbn [total foldr] in Ho. fold (total ws) in Ho.
  pose proof (span_pos w) as Hsp. destruct (Z.leb_spec (position + Z.of_nat (span w)) offset) as [Hskip|Hserve].
  - set (o1 := Z.max 0 (offset - (position + Z.of_nat (span w)))).
    assert (Eo : o = Z.of_nat (span w) + o1) by lia. unfold aligned in Hal. rewrite Eo, remaining_after in Hal by lia.
    eapply yields_weaken; [apply IH; [done|fold o1; lia|done]| |done]. fold o1.
    intros [pr' by_] (Hok & cs & c & Ecs & Ec & Hc & Hle & Hal' & Hpos & Hcomp & Hstp & Ht). split; [done|].
    exists cs, c. rewrite Eo, <- Z.add_assoc. unfold aligned. rewrite !remaining_after by lia.
    cbn [total foldr]. fold (total ws). split_and!; try done; lia || (intros Hb; specialize (Hcomp Hb); lia).
  - assert (Hin : 0 ≤ o < Z.of_nat (span w)) by lia.
    destruct Hw as [[source Hsrc] Hrest] eqn:EHw; clear EHw. assert (Hwok : window_ok images w) by done.
    eapply yields_bind; [by apply (yields_lift _ source (λ s, s = source))|]. intros ? ->. fold o.
    set (start := (w_start w + Z.to_nat o)%nat).
    unfold aligned in Hal. rewrite remaining_in in Hal by done. fold start in Hal.
    eapply yields_bind; [apply chunk_loop_yields; [unfold start; lia|done..]|].
    intros [pr1 stopped] (Hok1 & cs1 & Ecs1 & Hst). destruct stopped as [by_|].
    + destruct Hst as (Hby & Hnil & e & Hfe & Hse & Econs & Hmove & Ht). apply yields_ret. split; [done|].
      exists cs1, (Z.of_nat (e - start)). pose proof (fine_offset w e Hfe) as Hoff.
      assert (Eoe : o + Z.of_nat (e - start) = Z.of_nat (e - w_start w)) by (unfold start in *; lia).
      assert (Er : remaining (w :: ws) (o + Z.of_nat (e - start)) = (w, e) :: whole ws).
      { rewrite Eoe, remaining_in by done. destruct Hfe as (H1 & _). repeat f_equal. lia. }
      pose proof (windows_total_nonneg ws) as Htn. unfold aligned. rewrite Er. cbn [total foldr]. fold (total ws).
      rewrite (remaining_in w ws o) by done. fold start.
      split_and!; try done; try lia; [intros H; apply Hmove in H; lia|].
      intros cs' (pieces & -> & Hp). inversion Hp as [|? piece ? pieces' (s' & Es' & Hx) Hps]; subst. cbn [concat].
      rewrite (assoc_L (++)). apply tiles_from_app; [|by exists pieces'].
      exists s'. split; [done|]. cbn [fst snd] in *. assert (s' = source) as -> by congruence. by apply Ht.
    + destruct Hst as [Econs Ht].
      assert (Eo1 : Z.max 0 (offset - (position + Z.of_nat (span w))) = 0) by lia.
      eapply yields_weaken; [apply IH; [done|rewrite Eo1; apply windows_total_nonneg|rewrite Eo1; by apply aligned_0]| |done].
      rewrite Eo1. intros [pr' by_] (Hok & cs & c & Ecs & Ec & Hc & Hle & Hal' & Hpos & Hcomp & Hstp & Htail).
      split; [done|]. exists (cs1 ++ cs), (Z.of_nat (span w) - o + c).
      rewrite Z.add_0_l in *. replace (o + (Z.of_nat (span w) - o + c)) with (Z.of_nat (span w) + c) by lia.
      unfold aligned. rewrite remaining_after by done. rewrite (remaining_in w ws o) by done. fold start.
      cbn [total foldr]. fold (total ws). rewrite Ecs, Ecs1, <- !(assoc_L (++)).
      split_and!; try done; try lia.
      * intros Hb. specialize (Hcomp Hb). lia.
      * intros Hb E. apply (Hstp Hb). by rewrite Ecs, Ecs1, <- (assoc_L (++)).
      * intros cs' Hcs'. rewrite <- (assoc_L (++)). apply tiles_from_app; [by exists source|].
        specialize (Htail _ Hcs'). by rewrite remaining_0 in Htail.
Qed.

(** ** Following the cursors *)
Context (sha256 : list Z → list Z) (secret key : text) (limit : nat).
Context (Hsha : ∀ m, length (sha256 m) = 32%nat ∧ Forall (λ b, 0 ≤ b < 256) (sha256 m)).
Context (Hlim : (1 ≤ limit)%nat).

(** The pages from a cursor on. *)
Fixpoint follow (fuel : nat) (l : PlanDiffLayout) (cursor : option text) : M (list Page) :=
  match fuel with
  | O => fail Panicked
  | S fuel =>
      do p := page checkpoint json_len base64_encode sha256 secret l images key limit cursor in
      match pg_cursor p with
      | None => ret [p]
      | Some next => do rest := follow fuel l (Some next) in ret (p :: rest)
      end
  end.

Definition chunks_of (pages : list Page) : list Chunk := concat (map pg_chunks pages).

Lemma follow_from fuel l offset cursor :
  layout_of images l → authenticate_cursor sha256 secret cursor key = Ok offset →
  0 ≤ offset ≤ positions l → aligned (windows l) offset → positions l - offset < Z.of_nat fuel →
  yields (follow fuel l cursor)
    (λ pages, Forall (λ p, within limit (pg_chunks p)) pages
       ∧ tiles_from (remaining (windows l) offset) (chunks_of pages)) F.
Proof.
  intros Hl. pose proof (layout_windows_ok images l Hl) as Hws. destruct Hl as (_ & _ & _ & Epos & Hmax).
  revert offset cursor. induction fuel as [|fuel IH]; intros offset cursor Hcur Hoff Hal Hfuel; [lia|].
  cbn [follow]. unfold page. rewrite Hcur. cbn [lift_cursor].
  assert (Hwl := window_loop_yields (windows l) limit offset 0 (mkProgress 0 0 []) Hws Hlim).
  rewrite Z.sub_0_r, Z.max_r in Hwl by lia. rewrite <- Epos in Hwl.
  assert (H0 : progress_ok limit (mkProgress 0 0 [])) by (split; [done|split; [done|cbn; lia]]).
  specialize (Hwl H0 (proj2 Hoff) Hal).
  eapply (yields_bind _ _ (λ p, within limit (pg_chunks p) ∧ ∃ c, 0 ≤ c ∧ offset + c ≤ positions l
    ∧ aligned (windows l) (offset + c)
    ∧ (∀ cs', tiles_from (remaining (windows l) (offset + c)) cs' → tiles_from (remaining (windows l) offset) (pg_chunks p ++ cs'))
    ∧ match pg_cursor p with
      | None => offset + c = positions l
      | Some next => next = encode_cursor sha256 secret (offset + c) key ∧ 0 < c
      end)).
  { apply (yields_bind _ _ (λ o, o = offset)); [by apply yields_ret|]. intros ? ->.
    rewrite (proj2 (Z.ltb_ge _ _)) by lia. eapply yields_bind; [exact Hwl|].
    intros [pr by_] (Hok & cs & c & Ecs & Ec & Hc & Hle & Hal' & Hmove & Hcomp & Hstp & Ht).
    cbn [pr_chunks pr_consumed] in Ecs, Ec. rewrite app_nil_l, Z.add_0_l in *. subst c.
    apply (yields_bind _ _ (λ b, b = (offset, offset + pr_consumed pr,
      if offset + pr_consumed pr <? positions l
      then Some (encode_cursor sha256 secret (offset + pr_consumed pr) key) else None))).
    { unfold page_bounds_from_offset. rewrite (proj2 (Z.ltb_ge _ _)) by lia.
      rewrite !Z.min_l by lia. by apply yields_ret. }
    intros ? ->. apply yields_ret. cbn [pg_chunks pg_cursor snd]. destruct Hok as [_ Hin]. split; [done|].
    exists (pr_consumed pr). rewrite Ecs. split_and!; try done.
    destruct (Z.ltb_spec (offset + pr_consumed pr) (positions l)) as [Hlt|Hge]; [|lia]. split; [done|].
    apply Hmove. rewrite <- Ecs. apply Hstp. intros Hb. specialize (Hcomp Hb). lia. }
  intros p (Hin & c & Hc & Hle & Hal' & Ht & Hnext). destruct (pg_cursor p) as [next|].
  - destruct Hnext as [-> Hpos]. eapply yields_bind.
    { apply (IH (offset + c)); [cbn [authenticate_cursor]; apply cursor_accepted; [done|unfold is_u64; lia]|lia|done|lia]. }
    intros rest [Hr Htr]. apply yields_ret. split; [by constructor|]. by apply Ht.
  - apply yields_ret. split; [by constructor; [|constructor]|]. unfold chunks_of. cbn [map concat]. apply Ht.
    rewrite Hnext, Epos, remaining_total. exists []. split; [done|constructor].
Qed.
End pages.

(** ** Pages of a plan: theorems *)

(** The bytes a chunk carries. *)
Definition carried (base64_decode : list Z → list Z) (c : Chunk) : list Z :=
  match ck_content c with Utf8 t => t | Base64 t => base64_decode t end.

Lemma tiles_window_bytes base64_encode base64_decode source w start cs :
  (∀ bs, base64_decode (base64_encode bs) = bs) → tiles_window base64_encode source w start cs →
  (start ≤ w_end w)%nat
  ∧ concat (map (carried base64_decode) cs) = slice (default [] (side_bytes source w)) start (w_end w).
Proof.
  intros Hdec.
  assert (Hc : ∀ c, chunk_ok base64_encode source w c →
    (ck_start c ≤ ck_end c)%nat
    ∧ carried base64_decode c = slice (default [] (side_bytes source w)) (ck_start c) (ck_end c)).
  { intros c (_ & _ & _ & _ & _ & _ & _ & H & _ & _ & Hcont). split; [lia|]. unfold carried.
    destruct (w_utf8 w); [by destruct Hcont as [-> _]|by rewrite Hcont]. }
  induction 1 as [c Hok He|c cs Hok He _ IH]; destruct (Hc c Hok) as [Hle Hb]; cbn [map concat]; rewrite Hb.
  - rewrite app_nil_r, He. split; [lia|done].
  - destruct IH as [_ ->]. split; [lia|]. apply slice_app. lia.
Qed.

(** The only ways to fail: a checkpoint stops the work, the positions do not
    fit a word, a chunk alone exceeds a page because of its path. *)
Definition layout_fault (checkpoint : nat → bool) (images : list SourceImage) (f : Fault) : Prop :=
  f = Stopped ∧ (∃ k, checkpoint k = false) ∨ f = AddressSpace ∧ u64_max < room images.
Definition page_fault (checkpoint : nat → bool) (json_len : Chunk → Z) (base64_encode : list Z → list Z) (f : Fault) : Prop :=
  f = Stopped ∧ (∃ k, checkpoint k = false)
  ∨ f = PathTooLong ∧ ∃ source w c, chunk_ok base64_encode source w c ∧ PAGE_BYTES < json_len c.

(** C28. The windows of a saved plan cover every change: for each source, in
    the order of the paths, there is no window exactly when the source does
    not change, and otherwise one of each side.  The sides share their longest
    common front and then their longest common back; outside its window a side
    equals the other side, so each side is rebuilt from the other and its
    window.  A window of bytes is just what is not shared.  A window of text
    begins at a line, ends after a line or at the end, and keeps, counted from
    the character boundaries nearest to what is not shared, three whole lines
    of context on either side or all there are, and no more.  The positions
    are the sum of the windows and fit a word.  The construction fails only
    when a checkpoint stops it or the sizes exceed a word. *)
Theorem windows_cover_changes checkpoint images :
  yields (layout_new checkpoint images)
    (λ l, layout_of images l
      ∧ Permutation (sort_images images) (imap pair images) ∧ Sorted image_le (sort_images images))
    (layout_fault checkpoint images).
Proof.
  eapply yields_weaken; [apply (layout_new_yields _ _ (layout_fault checkpoint images)); [by left|by right]| |done].
  intros l Hl. split; [done|]. split; [apply sort_images_perm|apply sort_images_sorted].
Qed.

(** C29. Paging a saved plan ends and loses nothing: following the cursors
    from the first page takes at most as many pages as there are positions;
    every page holds at most [limit] chunks and 64 KiB; the chunks of all
    pages are, window after window, consecutive pieces from the first byte of
    the window to the last, text cut only between characters, and put
    together they are the bytes of the window.  Paging fails only when a
    checkpoint stops it or one chunk alone exceeds a page. *)
Theorem pages_lossless checkpoint json_len base64_encode base64_decode sha256 secret images key limit l fuel :
  (∀ bs, base64_decode (base64_encode bs) = bs) →
  (∀ m, length (sha256 m) = 32%nat ∧ Forall (λ b, 0 ≤ b < 256) (sha256 m)) →
  (1 ≤ limit)%nat → layout_of images l → positions l < Z.of_nat fuel →
  yields (follow checkpoint json_len base64_encode images sha256 secret key limit fuel l None)
    (λ pages, Forall (λ p, within json_len limit (pg_chunks p)) pages
      ∧ ∃ pieces, chunks_of pages = concat pieces
        ∧ Forall2 (λ w piece, ∃ source, images !! w_image w = Some source
              ∧ tiles_window base64_encode source w (w_start w) piece
              ∧ concat (map (carried base64_decode) piece)
                = slice (default [] (side_bytes source w)) (w_start w) (w_end w)) (windows l) pieces)
    (page_fault checkpoint json_len base64_encode).
Proof.
  intros Hdec Hsha Hlim Hl Hfuel. pose proof Hl as (_ & _ & _ & Epos & _).
  pose proof (windows_total_nonneg (windows l)) as H0.
  assert (Hf := follow_from checkpoint json_len base64_encode images
    (page_fault checkpoint json_len base64_encode) ltac:(by left) ltac:(by right)
    sha256 secret key limit Hsha Hlim fuel l 0 None Hl eq_refl ltac:(lia)
    (aligned_0 images (windows l) (layout_windows_ok images l Hl)) ltac:(lia)).
  rewrite remaining_0 in Hf. eapply yields_weaken; [exact Hf| |done].
  intros pages [Hin (pieces & E & Hp)]. split; [done|]. exists pieces. split; [done|].
  unfold whole in Hp. apply Forall2_fmap_l in Hp. eapply Forall2_impl; [exact Hp|].
  intros w piece (source & Hs & Ht). cbn [compose fst snd] in Hs, Ht. exists source.
  split; [done|]. split; [done|]. by eapply tiles_window_bytes.
Qed.

(** One module changes in its first line; every chunk is a page. *)
Definition sample_images : list SourceImage :=
  [mkImage (lit "utf8") (lit "Module.bsl") (Some (lit "old" ++ [10])) (Some (lit "new" ++ [10]));
   mkImage (lit "utf8") (lit "Gone.bsl") (Some (lit "x" ++ [255])) None].
Definition sample_len (c : Chunk) : Z := 100 + Z.of_nat (length (carried id c)).
Definition sample_hash (_ : list Z) : list Z := replicate 32 7.
Definition sample_layout : PlanDiffLayout :=
  mkLayout [mkWindow 1 false 0 2 false; mkWindow 1 true 0 0 true;
            mkWindow 0 false 0 4 true; mkWindow 0 true 0 4 true] 11.

Lemma sample_layout_new : layout_new (λ _, true) sample_images 0%nat = Ok (sample_layout, 19%nat).
Proof. vm_compute. reflexivity. Qed.
Lemma sample_layout_of : layout_of sample_images sample_layout.
Proof.
  pose proof (layout_new_yields (λ _, true) sample_images (λ _, True) ltac:(done) ltac:(done) 0%nat) as H.
  by rewrite sample_layout_new in H.
Qed.

Lemma pages_lossless_witness :
  ∃ pages, follow (λ _, true) sample_len id sample_images sample_hash (lit "secret") (lit "plan") 1 12
             sample_layout None 0%nat = Ok (pages, 20%nat)
    ∧ length pages = 4%nat ∧ Forall (λ p, within sample_len 1 (pg_chunks p)) pages.
Proof.
  pose proof (pages_lossless (λ _, true) sample_len id id sample_hash (lit "secret") sample_images (lit "plan") 1
    sample_layout 12 ltac:(done) ltac:(intros m; split; [done|by repeat (constructor; [lia|])])
    ltac:(lia) sample_layout_of ltac:(vm_compute; reflexivity) 0%nat) as H.
  destruct (follow _ _ _ _ _ _ _ _ _ _ _ _) as [[pages k]|e] eqn:E.
  - vm_compute in E. injection E as <- <-. eexists. split; [reflexivity|]. split; [reflexivity|]. exact (proj1 H).
  - exfalso. vm_compute in E. discriminate.
Defined.
