(* ===== verification/Paths.v ===== *)
(** * Paths of the host

    What the source uses of [std::path] on Unix: components, [Path == Path],
    [file_name] and [push].  A path is its text. *)

From Stdlib Require Import ZArith Lia Ascii String.
From stdpp Require Import base countable option numbers list_basics list.
From S2P Require Import Prelude Redaction AddressKinds ModuleRoutes Address AddressFacts RedactionProps.

Local Open Scope Z_scope.

Inductive Component := RootDir | CurDir | ParentDir | Normal (name : text).
#[export] Instance Component_eq_dec : EqDecision Component.
Proof. solve_decision. Defined.

(** [str::split] at a character. *)
Fixpoint split_char (c : Z) (t : text) : list text :=
  match t with
  | [] => [[]]
  | x :: t =>
      if x =? c then [] :: split_char c t
      else match split_char c t with p :: ps => (x :: p) :: ps | [] => [[x]] end
  end.

Definition component (piece : text) : option Component :=
  if bool_decide (piece = []) || bool_decide (piece = lit ".") then None
  else if bool_decide (piece = lit "..") then Some ParentDir else Some (Normal piece).
(** [Path::components]: repeated separators and inner dots do not count. *)
Definition components (p : text) : list Component :=
  let pieces := split_char 47 p in
  (if starts_with p (lit "/") then [RootDir]
   else if bool_decide (List.hd_error pieces = Some (lit ".")) then [CurDir] else [])
  ++ omap component pieces.
(** [Path == Path]. *)
Definition path_eq (p q : text) : bool := bool_decide (components p = components q).
(** [Path::file_name]. *)
Definition file_name (p : text) : option text :=
  match last (components p) with Some (Normal name) => Some name | _ => None end.

(** [PathBuf::push] and [Path::join]. *)
Definition push (p segment : text) : text :=
  if starts_with segment (lit "/") then segment
  else p ++ (match last p with Some c => if c =? 47 then [] else lit "/" | None => [] end) ++ segment.

Example path_components :
  components (lit "/work//ut/./") = [RootDir; Normal (lit "work"); Normal (lit "ut")]
  ∧ file_name (lit "/work/ut/.") = Some (lit "ut") ∧ file_name (lit "/") = None
  ∧ path_eq (lit "./a") (lit "a") = false
  ∧ push (push [] (lit "a")) (lit "b") = lit "a/b" ∧ push (lit "a") (lit "/b") = lit "/b".
Proof. vm_compute. repeat split; reflexivity. Qed.

(** ** Splitting *)

Lemma split_char_plain c t : c ∉ t → split_char c t = [t].
Proof.
  induction t as [|x t IH]; intros Hn; simpl; [done|]. rewrite not_elem_of_cons in Hn. destruct Hn as [H1 H2].
  rewrite (proj2 (Z.eqb_neq x c)) by congruence. by rewrite IH.
Qed.
Lemma split_char_app c t s : c ∉ t → split_char c (t ++ c :: s) = t :: split_char c s.
Proof.
  induction t as [|x t IH]; intros Hn; simpl; [by rewrite Z.eqb_refl|].
  rewrite not_elem_of_cons in Hn. destruct Hn as [H1 H2].
  rewrite (proj2 (Z.eqb_neq x c)) by congruence. by rewrite IH.
Qed.
Lemma split_char_join c l :
  l ≠ [] → Forall (λ p, c ∉ p) l → split_char c (join [c] l) = l.
Proof.
  intros Hne Hl. induction Hl as [|p l Hp Hl IH]; [done|]. destruct l as [|q l].
  - by apply split_char_plain.
  - rewrite join_cons by done. change ([c] ++ join [c] (q :: l)) with (c :: join [c] (q :: l)). rewrite split_char_app by done. by rewrite IH.
Qed.

(** ** Paths of plain names *)

(** A name that is one component of a path, and nothing else. *)
Definition plain_name (t : text) : Prop := t ≠ [] ∧ 47 ∉ t ∧ t ≠ lit "." ∧ t ≠ lit "..".
#[export] Instance plain_name_dec t : Decision (plain_name t).
Proof. unfold plain_name. apply _. Defined.

Lemma plain_component t : plain_name t → component t = Some (Normal t).
Proof.
  intros (H1 & _ & H2 & H3). unfold component. by rewrite !bool_decide_eq_false_2.
Qed.

Lemma plain_no_slash t : plain_name t → starts_with t (lit "/") = false.
Proof.
  intros (H1 & H2 & _). destruct t as [|c t]; [done|]. apply not_elem_of_cons in H2 as [H2 _].
  apply not_true_iff_false. rewrite starts_with_true. intros [post E]. by injection E as ->.
Qed.

Lemma plain_last t : plain_name t → ∃ c, last t = Some c ∧ c ≠ 47.
Proof.
  intros (H1 & H2 & _). destruct (last t) as [c|] eqn:E.
  - exists c. split; [done|]. intros ->. apply last_Some in E as [l' ->]. apply H2. rewrite elem_of_app, list_elem_of_singleton. by right.
  - by apply last_None in E.
Qed.

Lemma push_plain p t :
  plain_name t → (∃ c, last p = Some c ∧ c ≠ 47) → push p t = p ++ 47 :: t.
Proof.
  intros Ht (c & Hc & Hn). unfold push. rewrite plain_no_slash, Hc by done.
  by rewrite (proj2 (Z.eqb_neq _ _)).
Qed.

(** Pushing plain names one after another joins them. *)
Lemma push_all_plain l : Forall plain_name l → foldl push [] l = join [47] l.
Proof.
  intros Hl. destruct Hl as [|t l Ht Hl]; [done|]. simpl.
  assert (Et : push [] t = t) by (unfold push; by rewrite plain_no_slash). rewrite Et.
  enough (Hgen : ∀ p, (∃ c, last p = Some c ∧ c ≠ 47) → foldl push p l = join [47] (p :: l))
    by (rewrite Hgen by (by apply plain_last); by destruct l).
  clear t Ht Et. induction Hl as [|s l Hs Hl IH]; intros p Hp; [done|]. cbn [foldl].
  rewrite push_plain by done. rewrite IH.
  - rewrite (join_cons _ p) by done. destruct l as [|r l]; [done|].
    rewrite !join_cons by done. by rewrite <- (assoc_L (++)).
  - destruct (plain_last s Hs) as (c & Hc & Hn). exists c. split; [|done].
    apply last_Some in Hc as [l' ->].
    change (last (p ++ 47 :: l' ++ [c]) = Some c). rewrite app_comm_cons, (assoc_L (++)). apply last_snoc.
Qed.

(** The components of such a path are the names. *)
Lemma components_plain l : l ≠ [] → Forall plain_name l → components (join [47] l) = Normal <$> l.
Proof.
  intros Hne Hl. unfold components.
  rewrite split_char_join; [|done|eapply Forall_impl; [exact Hl|by intros t (_ & ? & _)]].
  destruct Hl as [|t l Ht Hl]; [done|].
  assert (starts_with (join [47] (t :: l)) (lit "/") = false) as ->.
  { apply not_true_iff_false. rewrite starts_with_true. intros [post E].
    pose proof (plain_no_slash t Ht) as H. apply not_true_iff_false in H. apply H, starts_with_true.
    destruct t as [|c t]; [by destruct Ht|]. destruct l as [|s l]; simpl in E; injection E as ->; by exists t. }
  simpl. rewrite bool_decide_eq_false_2 by (destruct Ht as (_ & _ & ? & _); congruence).
  cbn [app]. rewrite plain_component by done. f_equal.
  clear Hne t Ht. induction Hl as [|t l Ht Hl IH]; [done|]. simpl. rewrite plain_component by done. by rewrite IH.
Qed.

(** An XML name without a dot is one. *)
Lemma ncname_plain_name t :
  xml_ncname_is_valid t = true → has_char 46 t = false → plain_name t.
Proof.
  intros Hn Hd. split_and!.
  - by apply ncname_nonempty.
  - apply has_char_false. by apply ncname_lacks.
  - intros ->. discriminate.
  - intros ->. discriminate.
Qed.

Lemma push_nil t : plain_name t → push [] t = t.
Proof. intros Ht. unfold push. by rewrite plain_no_slash. Qed.

(** A relative path pushed at once. *)
Lemma push_two p a b :
  plain_name a → plain_name b → (∃ c, last p = Some c ∧ c ≠ 47) → push p (a ++ 47 :: b) = push (push p a) b.
Proof.
  intros Ha Hb Hp. rewrite (push_plain p a), (push_plain _ b) by (done || (destruct (plain_last a Ha) as (c & Hc & ?);
    exists c; split; [|done]; apply last_Some in Hc as [l ->]; rewrite app_comm_cons, (assoc_L (++)); apply last_snoc)).
  destruct Hp as (c & Hc & Hn). unfold push.
  assert (starts_with (a ++ 47 :: b) (lit "/") = false) as ->.
  { apply not_true_iff_false. rewrite starts_with_true. intros [post E].
    pose proof (plain_no_slash a Ha) as H. apply not_true_iff_false in H. apply H, starts_with_true.
    destruct a as [|x a]; [by destruct Ha|]. simpl in E. injection E as ->. by exists a. }
  rewrite Hc, (proj2 (Z.eqb_neq _ _)) by done. change (lit "/") with [47]. by rewrite <- !(assoc_L (++)).
Qed.
