(* ===== verification/SourceLayout.v ===== *)
(** * Where a source set keeps its metadata

    [crates/unica-source-designer/src/layout.rs]: the registry of metadata
    kinds, and the files of descriptors and attached resources of a metadata
    address, in a configuration and in an external source set.  An error is a
    constructor for each message of the source. *)

From Stdlib Require Import ZArith Lia Ascii String.
From stdpp Require Import base countable option numbers list_basics list.
From S2P Require Import Prelude Redaction AddressKinds ModuleRoutes Address AddressFacts SourceTarget AddressProps Paths.

Local Open Scope Z_scope.

(** [SourceSetKind] of [crates/unica-source-contract/src/lib.rs]. *)
Inductive SourceSetKind := Configuration | Extension | ExternalProcessor | ExternalReport.
#[export] Instance SourceSetKind_eq_dec : EqDecision SourceSetKind.
Proof. solve_decision. Defined.

Definition is_external (k : SourceSetKind) : bool :=
  match k with ExternalProcessor | ExternalReport => true | Configuration | Extension => false end.

Inductive LayoutError :=
  | NoOwnerIdentity
  | UnknownOwnerKind (kind : text)
  | UnsupportedNestedKind (kind : text)
  | UnsupportedDepth
  | ExternalNoOwner
  | ExternalOfConfiguration
  | ExternalOwnerFamily (kind : text)
  | ExternalNestedOwnerRequired
  | UnsupportedModuleLayout
  | NotRelative
  | InvalidAddress (e : TargetFault)
  | LogicalLayoutUnavailable (owner_kind : NodeKind) (role : ModuleRole)
  | WebSocketUnspecified
  | DescriptorsUnavailable
  | ExternalNestedModule
  | ExternalModule
  | FormOwnerChain.

(** ** The registry of metadata kinds *)

Record MetadataLayout := mkLayout {
  ml_tag : text; ml_directory : text; ml_display_name_ru : text;
  ml_config_dump_prefix : option text; ml_config_dump_module_suffix : option text }.

Definition METADATA_KINDS : list MetadataLayout :=
  [mkLayout (str "Language") (str "Languages") (str "Языки") None None;
   mkLayout (str "Subsystem") (str "Subsystems") (str "Подсистемы") None None;
   mkLayout (str "StyleItem") (str "StyleItems") (str "Элементы стиля") None None;
   mkLayout (str "Style") (str "Styles") (str "Стили") None None;
   mkLayout (str "CommonPicture") (str "CommonPictures") (str "Общие картинки") None None;
   mkLayout (str "SessionParameter") (str "SessionParameters") (str "Параметры сеанса") None None;
   mkLayout (str "Role") (str "Roles") (str "Роли") None None;
   mkLayout (str "CommonTemplate") (str "CommonTemplates") (str "Общие макеты") None None;
   mkLayout (str "FilterCriterion") (str "FilterCriteria") (str "Критерии отбора") None None;
   mkLayout (str "CommonModule") (str "CommonModules") (str "Общие модули") None None;
   mkLayout (str "Bot") (str "Bots") (str "Боты") (Some (str "Bot")) (Some (str ".Module"));
   mkLayout (str "CommonAttribute") (str "CommonAttributes") (str "Общие реквизиты") None None;
   mkLayout (str "ExchangePlan") (str "ExchangePlans") (str "Планы обмена") None None;
   mkLayout (str "XDTOPackage") (str "XDTOPackages") (str "XDTO-пакеты") None None;
   mkLayout (str "WebService") (str "WebServices") (str "Веб-сервисы") None None;
   mkLayout (str "HTTPService") (str "HTTPServices") (str "HTTP-сервисы") None None;
   mkLayout (str "WSReference") (str "WSReferences") (str "WS-ссылки") None None;
   mkLayout (str "EventSubscription") (str "EventSubscriptions") (str "Подписки на события") None None;
   mkLayout (str "ScheduledJob") (str "ScheduledJobs") (str "Регламентные задания") None None;
   mkLayout (str "SettingsStorage") (str "SettingsStorages") (str "Хранилища настроек") None None;
   mkLayout (str "FunctionalOption") (str "FunctionalOptions") (str "Функциональные опции") None None;
   mkLayout (str "FunctionalOptionsParameter") (str "FunctionalOptionsParameters") (str "Параметры ФО") None None;
   mkLayout (str "DefinedType") (str "DefinedTypes") (str "Определяемые типы") None None;
   mkLayout (str "CommonCommand") (str "CommonCommands") (str "Общие команды") None None;
   mkLayout (str "CommandGroup") (str "CommandGroups") (str "Группы команд") None None;
   mkLayout (str "Constant") (str "Constants") (str "Константы") None None;
   mkLayout (str "CommonForm") (str "CommonForms") (str "Общие формы") None None;
   mkLayout (str "Catalog") (str "Catalogs") (str "Справочники") None None;
   mkLayout (str "Document") (str "Documents") (str "Документы") None None;
   mkLayout (str "DocumentNumerator") (str "DocumentNumerators") (str "Нумераторы") None None;
   mkLayout (str "Sequence") (str "Sequences") (str "Последовательности") None None;
   mkLayout (str "DocumentJournal") (str "DocumentJournals") (str "Журналы документов") None None;
   mkLayout (str "Enum") (str "Enums") (str "Перечисления") None None;
   mkLayout (str "Report") (str "Reports") (str "Отчёты") None None;
   mkLayout (str "DataProcessor") (str "DataProcessors") (str "Обработки") None None;
   mkLayout (str "InformationRegister") (str "InformationRegisters") (str "Регистры сведений") None None;
   mkLayout (str "AccumulationRegister") (str "AccumulationRegisters") (str "Регистры накопления") None None;
   mkLayout (str "ChartOfCharacteristicTypes") (str "ChartsOfCharacteristicTypes") (str "ПВХ") None None;
   mkLayout (str "ChartOfAccounts") (str "ChartsOfAccounts") (str "Планы счетов") None None;
   mkLayout (str "AccountingRegister") (str "AccountingRegisters") (str "Регистры бухгалтерии") None None;
   mkLayout (str "ChartOfCalculationTypes") (str "ChartsOfCalculationTypes") (str "ПВР") None None;
   mkLayout (str "CalculationRegister") (str "CalculationRegisters") (str "Регистры расчёта") None None;
   mkLayout (str "BusinessProcess") (str "BusinessProcesses") (str "Бизнес-процессы") None None;
   mkLayout (str "Task") (str "Tasks") (str "Задачи") None None;
   mkLayout (str "IntegrationService") (str "IntegrationServices") (str "Сервисы интеграции") None None].
Definition METADATA_KIND_TAGS : list text := ml_tag <$> METADATA_KINDS.

Definition metadata_kind (tag : text) : option MetadataLayout :=
  List.find (λ k, text_is (ml_tag k) tag) METADATA_KINDS.
Definition metadata_kind_by_directory (directory : text) : option MetadataLayout :=
  List.find (λ k, eq_ignore_ascii_case (ml_directory k) directory) METADATA_KINDS.
(** [Iterator::position]. *)
Fixpoint position {A} (p : A → bool) (l : list A) : option nat :=
  match l with [] => None | x :: l => if p x then Some 0%nat else S <$> position p l end.
Definition metadata_kind_index (tag : text) : option nat :=
  position (λ k, text_is (ml_tag k) tag) METADATA_KINDS.

Definition WITH_CHILD_OBJECTS : list text :=
  [str "Subsystem"; str "FilterCriterion"; str "ExchangePlan"; str "WebService"; str "HTTPService";
   str "SettingsStorage"; str "Catalog"; str "Document"; str "Sequence"; str "DocumentJournal";
   str "Enum"; str "Report"; str "DataProcessor"; str "InformationRegister";
   str "AccumulationRegister"; str "ChartOfCharacteristicTypes"; str "ChartOfAccounts";
   str "AccountingRegister"; str "ChartOfCalculationTypes"; str "CalculationRegister";
   str "BusinessProcess"; str "Task"; str "IntegrationService"].
Definition WITHOUT_CHILD_OBJECTS : list text :=
  [str "Language"; str "StyleItem"; str "Style"; str "CommonPicture"; str "SessionParameter";
   str "Role"; str "CommonTemplate"; str "CommonModule"; str "Bot"; str "CommonAttribute";
   str "XDTOPackage"; str "WSReference"; str "EventSubscription"; str "ScheduledJob";
   str "FunctionalOption"; str "FunctionalOptionsParameter"; str "DefinedType";
   str "CommonCommand"; str "CommandGroup"; str "Constant"; str "CommonForm";
   str "DocumentNumerator"].
Definition metadata_kind_requires_child_objects_8_3_27 (tag : text) : option bool :=
  if text_in tag WITH_CHILD_OBJECTS then Some true
  else if text_in tag WITHOUT_CHILD_OBJECTS then Some false else None.

Definition template_add_object_type_folders : list text :=
  [str "Reports"; str "DataProcessors"; str "Documents"; str "Catalogs";
   str "InformationRegisters"; str "AccumulationRegisters"; str "ChartsOfCharacteristicTypes";
   str "ChartsOfAccounts"; str "ChartsOfCalculationTypes"; str "BusinessProcesses"; str "Tasks";
   str "ExchangePlans"].

(** ** Descriptors and attached resources *)

(** The directory of a nested kind: the [match] that four functions repeat. *)
Definition nested_directory (nested_kind : text) : result text LayoutError :=
  if text_is nested_kind (str "Form") then Ok (str "Forms")
  else if text_is nested_kind (str "Template") then Ok (str "Templates")
  else if text_is nested_kind (str "Command") then Ok (str "Commands")
  else Err (UnsupportedNestedKind nested_kind).

Definition dot_xml (name : text) : text := name ++ str ".xml".

(** [PathBuf::from(a).join(b)...]. *)
Definition path_of (segments : list text) : text :=
  match segments with [] => [] | a :: rest => foldl push a rest end.

(** [external_owner_parts]: kind, name and the rest. *)
Definition external_owner_parts (target : text) (kind : SourceSetKind)
    : result (text * text * list text) LayoutError :=
  match pieces target with
  | k :: name :: rest =>
      let? expected :=
        match kind with
        | ExternalProcessor => Ok (str "ExternalDataProcessor")
        | ExternalReport => Ok (str "ExternalReport")
        | Configuration | Extension => Err ExternalOfConfiguration
        end in
      if negb (text_is k expected) then Err (ExternalOwnerFamily k) else Ok (k, name, rest)
  | _ => Err ExternalNoOwner
  end.

Definition external_metadata_descriptor_relative (target : text) (kind : SourceSetKind)
    : result text LayoutError :=
  let? parts := external_owner_parts target kind in
  let '(_, owner_name, rest) := parts in
  match rest with
  | [] => Ok (dot_xml owner_name)
  | [nested_kind; nested_name] =>
      let? directory := nested_directory nested_kind in
      Ok (path_of [owner_name; directory; dot_xml nested_name])
  | _ => Err UnsupportedDepth
  end.

Definition external_attached_resource_relative (target resource : text) (kind : SourceSetKind)
    : result text LayoutError :=
  let? parts := external_owner_parts target kind in
  let '(_, owner_name, rest) := parts in
  match rest with
  | [nested_kind; nested_name] =>
      let? directory := nested_directory nested_kind in
      Ok (path_of [owner_name; directory; nested_name; str "Ext"; resource])
  | _ => Err ExternalNestedOwnerRequired
  end.

Definition metadata_descriptor_relative (target : text) (kind : SourceSetKind) : result text LayoutError :=
  if is_external kind then external_metadata_descriptor_relative target kind
  else
    match pieces target with
    | owner_kind :: owner_name :: rest =>
        match metadata_kind owner_kind with
        | None => Err (UnknownOwnerKind owner_kind)
        | Some owner =>
            match rest with
            | [] => Ok (path_of [ml_directory owner; dot_xml owner_name])
            | [nested_kind; nested_name] =>
                let? directory := nested_directory nested_kind in
                Ok (path_of [ml_directory owner; owner_name; directory; dot_xml nested_name])
            | _ => Err UnsupportedDepth
            end
        end
    | _ => Err NoOwnerIdentity
    end.

(** The resources of an owner without a nested part. *)
Definition OWN_RESOURCES : list (text * text) :=
  [(str "CommonForm", str "Form.xml"); (str "CommonTemplate", str "Template.xml");
   (str "Role", str "Rights.xml"); (str "Subsystem", str "CommandInterface.xml");
   (str "XDTOPackage", str "Package.bin"); (str "WSReference", str "WSDefinition.xml");
   (str "ScheduledJob", str "Schedule.xml")].

Definition attached_resource_relative (target resource : text) (kind : SourceSetKind)
    : result text LayoutError :=
  if is_external kind then external_attached_resource_relative target resource kind
  else
    match pieces target with
    | owner_kind :: owner_name :: rest =>
        match metadata_kind owner_kind with
        | None => Err (UnknownOwnerKind owner_kind)
        | Some owner =>
            match rest with
            | [] =>
                if existsb (λ r, text_is owner_kind r.1 && text_is resource r.2) OWN_RESOURCES
                then Ok (path_of [ml_directory owner; owner_name; str "Ext"; resource])
                else Err UnsupportedDepth
            | [nested_kind; nested_name] =>
                let? directory := nested_directory nested_kind in
                Ok (path_of [ml_directory owner; owner_name; directory; nested_name; str "Ext"; resource])
            | _ => Err UnsupportedDepth
            end
        end
    | _ => Err NoOwnerIdentity
    end.

Example descriptor_files :
  metadata_descriptor_relative (str "Catalog.Валюты.Form.Список") Configuration
    = Ok (str "Catalogs/Валюты/Forms/Список.xml")
  ∧ metadata_descriptor_relative (str "ExternalReport.Отчет") ExternalReport = Ok (str "Отчет.xml")
  ∧ attached_resource_relative (str "Role.Админ") (str "Rights.xml") Extension
    = Ok (str "Roles/Админ/Ext/Rights.xml")
  ∧ metadata_kind_index (str "Bot") = Some 10%nat.
Proof. vm_compute. repeat split; reflexivity. Qed.

(** ** Facts *)

(** Every registered kind is classified, and nothing else is. *)
Example child_objects_classified :
  forallb (λ t, is_some (metadata_kind_requires_child_objects_8_3_27 t)) METADATA_KIND_TAGS = true
  ∧ forallb (λ t, is_some (metadata_kind t)) (WITH_CHILD_OBJECTS ++ WITHOUT_CHILD_OBJECTS) = true
  ∧ forallb (λ d, is_some (metadata_kind_by_directory d)) template_add_object_type_folders = true.
Proof. vm_compute. repeat split; reflexivity. Qed.

(** A directory of the registry is a plain name and leads back to its kind. *)
Lemma metadata_kind_in tag k : metadata_kind tag = Some k → In k METADATA_KINDS ∧ ml_tag k = tag.
Proof. intros [H1 H2]%find_some. split; [done|]. by apply text_is_true. Qed.

Lemma registry_facts k :
  In k METADATA_KINDS →
  plain_name (ml_directory k) ∧ metadata_kind (ml_tag k) = Some k
  ∧ metadata_kind_by_directory (ml_directory k) = Some k.
Proof.
  assert (H : Forall (λ k, plain_name (ml_directory k) ∧ metadata_kind (ml_tag k) = Some k
    ∧ metadata_kind_by_directory (ml_directory k) = Some k) METADATA_KINDS).
  { repeat (apply Forall_cons_2; [split_and!; [apply (bool_decide_unpack _); vm_compute; reflexivity
      |vm_compute; reflexivity|vm_compute; reflexivity]|]). apply Forall_nil_2. }
  rewrite List.Forall_forall in H. apply H.
Qed.

(** [path_of] joins plain names, the last of which may be two. *)
Lemma path_of_plain l : Forall plain_name l → path_of l = join [47] l.
Proof.
  intros Hl. destruct Hl as [|a l Ha Hl]; [done|]. cbn [path_of].
  rewrite <- (push_nil a) at 1 by done. change (foldl push (push [] a) l) with (foldl push [] (a :: l)).
  apply push_all_plain. by constructor.
Qed.
Lemma path_of_two l a b :
  l ≠ [] → Forall plain_name l → plain_name a → plain_name b →
  path_of (l ++ [a ++ 47 :: b]) = join [47] (l ++ [a; b]).
Proof.
  intros Hne Hl Ha Hb. rewrite <- path_of_plain by (apply Forall_app; split; [done|by repeat apply Forall_cons_2]).
  destruct l as [|x l]; [done|]. cbn [path_of app]. rewrite !foldl_app. cbn [foldl].
  apply push_two; [done|done|]. change (foldl push x l) with (path_of (x :: l)). rewrite path_of_plain by done.
  destruct (exists_last (l := x :: l)) as (l' & y & E); [done|]. rewrite E in *.
  apply Forall_app in Hl as [Hl' Hy]. apply Forall_cons_1 in Hy as [Hy _].
  destruct (plain_last y Hy) as (c & Hc & Hn). exists c. split; [|done].
  apply last_Some in Hc as [z ->]. destruct l' as [|w l']; [apply last_snoc|].
  rewrite join_snoc by done. rewrite !(assoc_L (++)). apply last_snoc.
Qed.
