(* ===== verification/ModuleLayout.v ===== *)
(** * Where a source set keeps its modules

    [crates/unica-source-designer/src/module_layout.rs]: one table of module
    layouts, read in both directions, between the file of a module and its
    metadata address; the layout of external source sets; and the passage
    between metadata and logical addresses.  [None] is a panic: an [expect] or
    a slice out of range. *)

From Stdlib Require Import ZArith Lia Ascii String.
From stdpp Require Import base countable option numbers list_basics list.
From S2P Require Import Prelude Redaction AddressKinds ModuleRoutes Address AddressFacts SourceTarget Paths.
From S2P Require Import SourceLayout.

Local Open Scope Z_scope.

(** ** Roles *)

Inductive PlatformXmlModuleRole :=
  | PModule | PObjectModule | PManagerModule | PRecordSetModule | PValueManagerModule | PFormModule
  | PCommandModule | PManagedApplicationModule | POrdinaryApplicationModule | PSessionModule
  | PExternalConnectionModule.
#[export] Instance PlatformXmlModuleRole_eq_dec : EqDecision PlatformXmlModuleRole.
Proof. solve_decision. Defined.

(** [PlatformXmlModuleRole::as_str]. *)
Definition platform_role_as_str (r : PlatformXmlModuleRole) : text :=
  match r with
  | PModule => str "Module"
  | PObjectModule => str "ObjectModule"
  | PManagerModule => str "ManagerModule"
  | PRecordSetModule => str "RecordSetModule"
  | PValueManagerModule => str "ValueManagerModule"
  | PFormModule => str "FormModule"
  | PCommandModule => str "CommandModule"
  | PManagedApplicationModule => str "ManagedApplicationModule"
  | POrdinaryApplicationModule => str "OrdinaryApplicationModule"
  | PSessionModule => str "SessionModule"
  | PExternalConnectionModule => str "ExternalConnectionModule"
  end.

Inductive ModuleRoleClass := RootClass | DirectClass.

(** [ModuleRoleClass::parse]. *)
Definition role_class_parse (class : ModuleRoleClass) (raw : text) : option PlatformXmlModuleRole :=
  role ← match_str
    [(str "ObjectModule", PObjectModule); (str "ManagerModule", PManagerModule);
     (str "RecordSetModule", PRecordSetModule); (str "ValueManagerModule", PValueManagerModule);
     (str "ManagedApplicationModule", PManagedApplicationModule);
     (str "OrdinaryApplicationModule", POrdinaryApplicationModule);
     (str "SessionModule", PSessionModule);
     (str "ExternalConnectionModule", PExternalConnectionModule)] raw;
  match class, role with
  | RootClass, (PManagedApplicationModule | POrdinaryApplicationModule | PSessionModule
                | PExternalConnectionModule)
  | DirectClass, (PObjectModule | PManagerModule | PRecordSetModule | PValueManagerModule) => Some role
  | _, _ => None
  end.

(** ** The table *)

Inductive PlatformXmlModuleLayoutFamily :=
  | RootApplication | OwnerModule | CommonForm | CommonCommand | DirectMetadata | NestedForm | NestedCommand.

Definition OWNER_MODULE_KINDS : list text :=
  [str "CommonModule"; str "Bot"; str "HTTPService"; str "WebService"; str "IntegrationService"].

Inductive ModuleLayoutToken :=
  | TkLiteral (expected : text)
  | TkMetadataKind
  | TkMetadataDirectory
  | TkOwnerName
  | TkChildName
  | TkRole (class : ModuleRoleClass)
  | TkRoleFile (class : ModuleRoleClass).

Inductive ModuleLayoutCapability := AnyModule | OwnerModuleOnly | DirectModule | NestedFormOrCommand.

Inductive ModuleDescriptorRule :=
  | RootRule
  | CommonRule (kind directory : text)
  | OwnerRule
  | NestedRule (child_directory : text).

Record PlatformXmlModuleLayoutDescriptor := mkModuleLayout {
  md_family : PlatformXmlModuleLayoutFamily;
  md_physical : list ModuleLayoutToken;
  md_logical : list ModuleLayoutToken;
  md_capability : ModuleLayoutCapability;
  md_fixed_role : option PlatformXmlModuleRole;
  md_descriptor_rule : ModuleDescriptorRule }.

Definition PLATFORM_XML_MODULE_LAYOUT_FAMILIES : list PlatformXmlModuleLayoutDescriptor :=
  [mkModuleLayout RootApplication
     [TkLiteral (str "Ext"); TkRoleFile RootClass]
     [TkRole RootClass]
     AnyModule None RootRule;
   mkModuleLayout OwnerModule
     [TkMetadataDirectory; TkOwnerName; TkLiteral (str "Ext"); TkLiteral (str "Module.bsl")]
     [TkMetadataKind; TkOwnerName; TkLiteral (str "Module")]
     OwnerModuleOnly (Some PModule) OwnerRule;
   mkModuleLayout CommonForm
     [TkLiteral (str "CommonForms"); TkOwnerName; TkLiteral (str "Ext"); TkLiteral (str "Form");
      TkLiteral (str "Module.bsl")]
     [TkLiteral (str "CommonForm"); TkOwnerName; TkLiteral (str "FormModule")]
     AnyModule (Some PFormModule) (CommonRule (str "CommonForm") (str "CommonForms"));
   mkModuleLayout CommonCommand
     [TkLiteral (str "CommonCommands"); TkOwnerName; TkLiteral (str "Ext"); TkLiteral (str "CommandModule.bsl")]
     [TkLiteral (str "CommonCommand"); TkOwnerName; TkLiteral (str "CommandModule")]
     AnyModule (Some PCommandModule) (CommonRule (str "CommonCommand") (str "CommonCommands"));
   mkModuleLayout DirectMetadata
     [TkMetadataDirectory; TkOwnerName; TkLiteral (str "Ext"); TkRoleFile DirectClass]
     [TkMetadataKind; TkOwnerName; TkRole DirectClass]
     DirectModule None OwnerRule;
   mkModuleLayout NestedForm
     [TkMetadataDirectory; TkOwnerName; TkLiteral (str "Forms"); TkChildName; TkLiteral (str "Ext");
      TkLiteral (str "Form"); TkLiteral (str "Module.bsl")]
     [TkMetadataKind; TkOwnerName; TkLiteral (str "Form"); TkChildName; TkLiteral (str "FormModule")]
     NestedFormOrCommand (Some PFormModule) (NestedRule (str "Forms"));
   mkModuleLayout NestedCommand
     [TkMetadataDirectory; TkOwnerName; TkLiteral (str "Commands"); TkChildName; TkLiteral (str "Ext");
      TkLiteral (str "CommandModule.bsl")]
     [TkMetadataKind; TkOwnerName; TkLiteral (str "Command"); TkChildName; TkLiteral (str "CommandModule")]
     NestedFormOrCommand (Some PCommandModule) (NestedRule (str "Commands"))].

(** ** Matching and printing a layout *)

Record ModuleLayoutCaptures := mkCaptures {
  cap_kind : option MetadataLayout;
  cap_owner_name : option text;
  cap_child_name : option text;
  cap_role : option PlatformXmlModuleRole }.
Definition no_captures : ModuleLayoutCaptures := mkCaptures None None None None.
Definition set_kind (c : ModuleLayoutCaptures) (k : MetadataLayout) : ModuleLayoutCaptures :=
  mkCaptures (Some k) (cap_owner_name c) (cap_child_name c) (cap_role c).
Definition set_role (c : ModuleLayoutCaptures) (r : PlatformXmlModuleRole) : ModuleLayoutCaptures :=
  mkCaptures (cap_kind c) (cap_owner_name c) (cap_child_name c) (Some r).

(** [str::strip_suffix]. *)
Definition strip_suffix (t s : text) : option text :=
  if starts_with (reverse t) (reverse s) then Some (take (length t - length s) t) else None.

(** The loop of [capture] over the tokens and the values. *)
Fixpoint capture_tokens (template : list ModuleLayoutToken) (parts : list text) (c : ModuleLayoutCaptures)
    : option ModuleLayoutCaptures :=
  match template, parts with
  | token :: template, value :: parts =>
      c ← match token with
          | TkLiteral expected => if text_is expected value then Some c else None
          | TkMetadataKind => set_kind c <$> metadata_kind value
          | TkMetadataDirectory => set_kind c <$> metadata_kind_by_directory value
          | TkOwnerName => Some (mkCaptures (cap_kind c) (Some value) (cap_child_name c) (cap_role c))
          | TkChildName => Some (mkCaptures (cap_kind c) (cap_owner_name c) (Some value) (cap_role c))
          | TkRole class => set_role c <$> role_class_parse class value
          | TkRoleFile class => raw ← strip_suffix value (str ".bsl"); set_role c <$> role_class_parse class raw
          end;
      capture_tokens template parts c
  | _, _ => Some c
  end.

(** [NodeKind::parse(kind.tag).ok()]. *)
Definition kind_of_tag (k : MetadataLayout) : option NodeKind :=
  match node_kind_parse (ml_tag k) with Ok k => Some k | Err _ => None end.

Definition accepts (d : PlatformXmlModuleLayoutDescriptor) (c : ModuleLayoutCaptures) : bool :=
  match md_capability d with
  | AnyModule => true
  | OwnerModuleOnly => is_some_and (λ k, text_in (ml_tag k) OWNER_MODULE_KINDS) (cap_kind c)
  | DirectModule =>
      match cap_kind c, cap_role c with
      | Some kind, Some role =>
          match kind_of_tag kind, from_v12_terminal (platform_role_as_str role) with
          | Some owner, Some role => has_direct_module_route owner role
          | _, _ => false
          end
      | _, _ => false
      end
  | NestedFormOrCommand => is_some_and (λ k, is_some_and has_nested_module_route (kind_of_tag k)) (cap_kind c)
  end.

Definition capture (d : PlatformXmlModuleLayoutDescriptor) (template : list ModuleLayoutToken) (parts : list text)
    : option ModuleLayoutCaptures :=
  if negb (length template =? length parts)%nat then None
  else
    c ← capture_tokens template parts no_captures;
    if accepts d c then Some c else None.

Definition render_token (c : ModuleLayoutCaptures) (token : ModuleLayoutToken) : option text :=
  match token with
  | TkLiteral value => Some value
  | TkMetadataKind => ml_tag <$> cap_kind c
  | TkMetadataDirectory => ml_directory <$> cap_kind c
  | TkOwnerName => cap_owner_name c
  | TkChildName => cap_child_name c
  | TkRole _ => platform_role_as_str <$> cap_role c
  | TkRoleFile _ => (λ r, platform_role_as_str r ++ str ".bsl") <$> cap_role c
  end.
Definition render (template : list ModuleLayoutToken) (c : ModuleLayoutCaptures) : option (list text) :=
  mapM (render_token c) template.

(** [path_from_address]: the path, if the family has the address. *)
Definition path_from_address (d : PlatformXmlModuleLayoutDescriptor) (parts : list text) : option (option text) :=
  match capture d (md_logical d) parts with
  | None => Some None
  | Some c => (λ segments, Some (foldl push [] segments)) <$> render (md_physical d) c
  end.

Record PlatformXmlModuleIdentity := mkIdentity {
  id_owner : text; id_address : text; id_role : PlatformXmlModuleRole; id_descriptors : list text }.

Definition metadata_descriptor (directory name : text) : text := push directory (dot_xml name).

Definition address_parse (raw : text) : result text LayoutError :=
  match metadata_address_parse PLATFORM_XML_8_3_27_FORMAT_2_20 raw with
  | Ok a => Ok a
  | Err e => Err (InvalidAddress e)
  end.

Definition module_identity (address owner : text) (role : PlatformXmlModuleRole) (descriptors : list text)
    : result PlatformXmlModuleIdentity LayoutError :=
  let? address := address_parse address in
  Ok (mkIdentity owner address role descriptors).

Definition unsupported {A} (o : option A) : result A LayoutError := ok_or o UnsupportedModuleLayout.

(** The owner and the descriptors that the rule of the family gives. *)
Definition owner_and_descriptors (rule : ModuleDescriptorRule) (c : ModuleLayoutCaptures)
    : result (text * list text) LayoutError :=
  match rule with
  | RootRule => Ok (str "Configuration", [str "Configuration.xml"])
  | CommonRule kind directory =>
      let? name := unsupported (cap_owner_name c) in
      Ok (kind ++ str "." ++ name, [metadata_descriptor directory name])
  | OwnerRule =>
      let? kind := unsupported (cap_kind c) in
      let? name := unsupported (cap_owner_name c) in
      Ok (ml_tag kind ++ str "." ++ name, [metadata_descriptor (ml_directory kind) name])
  | NestedRule child_directory =>
      let? kind := unsupported (cap_kind c) in
      let? name := unsupported (cap_owner_name c) in
      let? child_name := unsupported (cap_child_name c) in
      Ok (ml_tag kind ++ str "." ++ name,
          [metadata_descriptor (ml_directory kind) name;
           path_of [ml_directory kind; name; child_directory; dot_xml child_name]])
  end.

Definition identity (d : PlatformXmlModuleLayoutDescriptor) (c : ModuleLayoutCaptures)
    : option (result PlatformXmlModuleIdentity LayoutError) :=
  (λ segments,
    let? role := unsupported (match md_fixed_role d with Some r => Some r | None => cap_role c end) in
    let? od := owner_and_descriptors (md_descriptor_rule d) c in
    module_identity (join (str ".") segments) od.1 role od.2) <$> render (md_logical d) c.

Definition identity_from_parts (d : PlatformXmlModuleLayoutDescriptor) (parts : list text)
    : option (option (result PlatformXmlModuleIdentity LayoutError)) :=
  match capture d (md_physical d) parts with
  | None => Some None
  | Some c => Some <$> identity d c
  end.

(** ** The two directions *)

(** The first family that answers. *)
Fixpoint first_family {A} (answer : PlatformXmlModuleLayoutDescriptor → option (option A))
    (families : list PlatformXmlModuleLayoutDescriptor) : option (option (PlatformXmlModuleLayoutFamily * A)) :=
  match families with
  | [] => Some None
  | d :: families =>
      found ← answer d;
      match found with
      | Some a => Some (Some (md_family d, a))
      | None => first_family answer families
      end
  end.

Fixpoint normal_names (l : list Component) : result (list text) LayoutError :=
  match l with
  | [] => Ok []
  | Normal value :: l => let? rest := normal_names l in Ok (value :: rest)
  | _ :: _ => Err NotRelative
  end.
Definition relative_module_path_components (relative : text) : result (list text) LayoutError :=
  normal_names (components relative).

Definition module_layout_for_relative (relative : text)
    : option (result (PlatformXmlModuleLayoutFamily * PlatformXmlModuleIdentity) LayoutError) :=
  match relative_module_path_components relative with
  | Err e => Some (Err e)
  | Ok parts =>
      found ← first_family (λ d, identity_from_parts d parts) PLATFORM_XML_MODULE_LAYOUT_FAMILIES;
      Some match found with
           | Some (family, identity) => let? id := identity in Ok (family, id)
           | None => Err UnsupportedModuleLayout
           end
  end.
Definition platform_xml_module_identity (relative : text)
    : option (result PlatformXmlModuleIdentity LayoutError) :=
  found ← module_layout_for_relative relative; Some (let? fi := found in Ok fi.2).

Definition platform_xml_module_relative (target : text) : option (result text LayoutError) :=
  found ← first_family (λ d, path_from_address d (pieces target)) PLATFORM_XML_MODULE_LAYOUT_FAMILIES;
  Some (let? fp := unsupported found in Ok fp.2).

(** ** External source sets *)

Definition external_module_relative (target : text) (kind : SourceSetKind) : result text LayoutError :=
  let? parts := external_owner_parts target kind in
  let '(_, owner_name, rest) := parts in
  match rest with
  | [terminal] =>
      if text_is terminal (str "ObjectModule")
      then Ok (path_of [owner_name; str "Ext"; str "ObjectModule.bsl"]) else Err ExternalModule
  | [nested_kind; nested_name; terminal] =>
      let? df :=
        if text_is nested_kind (str "Form") && text_is terminal (str "FormModule")
        then Ok (str "Forms", str "Form/Module.bsl")
        else if text_is nested_kind (str "Command") && text_is terminal (str "CommandModule")
        then Ok (str "Commands", str "CommandModule.bsl")
        else Err ExternalNestedModule in
      Ok (path_of [owner_name; df.1; nested_name; str "Ext"; df.2])
  | _ => Err ExternalModule
  end.

Definition module_relative (target : text) (kind : SourceSetKind) : option (result text LayoutError) :=
  if is_external kind then Some (external_module_relative target kind)
  else platform_xml_module_relative target.

(** [external_module_metadata_address]. *)
Definition external_module_metadata_address (relative : text) (kind : SourceSetKind) : option text :=
  kind ← match kind with
         | ExternalProcessor => Some (str "ExternalDataProcessor")
         | ExternalReport => Some (str "ExternalReport")
         | Configuration | Extension => None
         end;
  parts ← match normal_names (components relative) with Ok parts => Some parts | Err _ => None end;
  match parts with
  | [owner; ext; file] =>
      if text_is ext (str "Ext") && text_is file (str "ObjectModule.bsl")
      then Some (join (str ".") [kind; owner; str "ObjectModule"]) else None
  | [owner; forms; form; ext; dir; file] =>
      if text_is forms (str "Forms") && text_is ext (str "Ext") && text_is dir (str "Form")
         && text_is file (str "Module.bsl")
      then Some (join (str ".") [kind; owner; str "Form"; form; str "FormModule"]) else None
  | [owner; commands; command; ext; file] =>
      if text_is commands (str "Commands") && text_is ext (str "Ext") && text_is file (str "CommandModule.bsl")
      then Some (join (str ".") [kind; owner; str "Command"; command; str "CommandModule"]) else None
  | _ => None
  end.

Example layouts_both_ways :
  platform_xml_module_relative (str "Catalog.Items.Form.List.FormModule")
    = Some (Ok (str "Catalogs/Items/Forms/List/Ext/Form/Module.bsl"))
  ∧ platform_xml_module_identity (str "CATALOGS/Items/Forms/List/Ext/Form/Module.bsl")
    = Some (Ok (mkIdentity (str "Catalog.Items") (str "Catalog.Items.Form.List.FormModule") PFormModule
                  [str "Catalogs/Items.xml"; str "Catalogs/Items/Forms/List.xml"]))
  ∧ platform_xml_module_identity (str "Catalogs/Items/Ext/Module.bsl") = Some (Err UnsupportedModuleLayout)
  ∧ external_module_metadata_address (str "Отчет/Ext/ObjectModule.bsl") ExternalReport
    = Some (str "ExternalReport.Отчет.ObjectModule").
Proof. vm_compute. repeat split; reflexivity. Qed.

(** ** Modules between logical and metadata addresses *)

(** [PlatformProfile::module_capability]; a capability is its route. *)
Definition module_capability (address : QualifiedAddress) : option ModuleRoute := module_route address.

(** [PlatformProfile::module_children]: the modules of a [Module] branch. *)
Definition module_children (branch : QualifiedAddress) : list (QualifiedAddress * ModuleRoute) :=
  match last_opt (segments branch) with
  | Some module =>
      if kind_is KModule module && negb (named module) then
        omap (λ role,
          match parse (display branch ++ str "." ++ role_as_str role) with
          | Ok at_ => (λ capability, (at_, capability)) <$> module_capability at_
          | Err _ => None
          end) all_roles
      else []
  | None => []
  end.

(** ** The metadata address of a module *)

Section source_address.
Variables (owner_kind : NodeKind) (role : ModuleRole).

(** [unsupported_logical_module_layout]. *)
Definition layout_unavailable : LayoutError := LogicalLayoutUnavailable owner_kind role.

Definition required_segment_name (segment : option AddressSegment) : result text LayoutError :=
  ok_or (segment ≫= s_name) layout_unavailable.
Definition required_segment (segment : option AddressSegment) : result AddressSegment LayoutError :=
  ok_or segment layout_unavailable.

Definition root_terminal : result text LayoutError :=
  match role with
  | RManagedApplication => Ok (str "ManagedApplicationModule")
  | ROrdinaryApplication => Ok (str "OrdinaryApplicationModule")
  | RSession => Ok (str "SessionModule")
  | RExternalConnection => Ok (str "ExternalConnectionModule")
  | _ => Err layout_unavailable
  end.
Definition direct_terminal : result text LayoutError :=
  match role with
  | RObject => Ok (str "ObjectModule")
  | RManager => Ok (str "ManagerModule")
  | RRecordSet => Ok (str "RecordSetModule")
  | RValueManager => Ok (str "ValueManagerModule")
  | _ => Err layout_unavailable
  end.

(** The [match] of [module_source_address], as the parts it prints with dots. *)
Definition source_parts (segs : list AddressSegment) (route_kind : ModuleRouteKind)
    : result (list text) LayoutError :=
  match route_kind with
  | RtRoot => let? terminal := root_terminal in Ok [terminal]
  | RtCommon =>
      let? name := required_segment_name (segs !! 0%nat) in
      Ok [str "CommonModule"; name; str "Module"]
  | RtDirect =>
      let? owner := required_segment (segs !! 0%nat) in
      let? rendered_role := direct_terminal in
      let? name := required_segment_name (Some owner) in
      Ok [as_str (s_kind owner); name; rendered_role]
  | RtCommonForm =>
      let? name := required_segment_name (segs !! 0%nat) in
      Ok [str "CommonForm"; name; str "FormModule"]
  | RtCommonCommand =>
      let? name := required_segment_name (segs !! 0%nat) in
      Ok [str "CommonCommand"; name; str "CommandModule"]
  | RtNestedForm | RtNestedCommand =>
      let? owner := required_segment (segs !! 0%nat) in
      let? child := required_segment (segs !! 1%nat) in
      let terminal :=
        match route_kind with RtNestedForm => str "FormModule" | _ => str "CommandModule" end in
      let? name := required_segment_name (Some owner) in
      let? child_name := required_segment_name (Some child) in
      Ok [as_str (s_kind owner); name; as_str (s_kind child); child_name; terminal]
  | RtService | RtBot =>
      let? owner := required_segment (segs !! 0%nat) in
      let? name := required_segment_name (Some owner) in
      Ok [as_str (s_kind owner); name; str "Module"]
  | RtWebSocketClient => Err WebSocketUnspecified
  end.
End source_address.

Definition module_source_address (module_at : QualifiedAddress) (owner_kind : NodeKind) (role : ModuleRole)
    (route_kind : ModuleRouteKind) : result text LayoutError :=
  let? parts := source_parts owner_kind role (segments module_at) route_kind in
  address_parse (join (str ".") parts).

(** ** And back *)

(** The inner [role] of [logical_module_from_metadata]. *)
Definition terminal_role (terminal : text) : option text :=
  r ← strip_suffix terminal (str "Module"); if bool_decide (r = []) then None else Some r.

Definition logical_parts (parts : list text) : option (list text) :=
  match parts with
  | [root] => (λ r, [str "Module"; r]) <$> terminal_role root
  | [kind; name; terminal] =>
      if text_is terminal (str "Module") then
        if text_is kind (str "CommonModule") then Some [str "CommonModule"; name]
        else Some [kind; name; str "Module"; kind]
      else (λ r, [kind; name; str "Module"; r]) <$> terminal_role terminal
  | [kind; name; child_kind; child; terminal] =>
      (λ r, [kind; name; child_kind; child; str "Module"; r]) <$> terminal_role terminal
  | _ => None
  end.
Definition logical_module_from_metadata (metadata : text) : option text :=
  join (str ".") <$> logical_parts (pieces metadata).

(** ** What a module or a form needs *)

Definition form_module_target (form : text) : result text LayoutError :=
  address_parse (form ++ str ".FormModule").

Definition form_descriptor_requirements (form : text) (kind : SourceSetKind) : result (list text) LayoutError :=
  match pieces form with
  | [owner_kind; owner_name; token; form_name] =>
      if text_is token (str "Form") then
        let? owner := address_parse (join (str ".") [owner_kind; owner_name]) in
        let? nested := address_parse (join (str ".") [owner_kind; owner_name; str "Form"; form_name]) in
        let? first := metadata_descriptor_relative owner kind in
        let? second := metadata_descriptor_relative nested kind in
        Ok [first; second]
      else Err FormOwnerChain
  | [token; _] =>
      if text_is token (str "CommonForm")
      then let? path := metadata_descriptor_relative form kind in Ok [path]
      else Err FormOwnerChain
  | _ => Err FormOwnerChain
  end.

(** [&parts[..n]]. *)
Definition slice_to {A} (l : list A) (n : nat) : option (list A) :=
  if (n <=? length l)%nat then Some (take n l) else None.

Definition is_nested_route (k : ModuleRouteKind) : bool :=
  match k with RtNestedForm | RtNestedCommand => true | _ => false end.

Definition module_descriptor_requirements (target : text) (route_kind : ModuleRouteKind) (kind : SourceSetKind)
    : option (result (list text) LayoutError) :=
  let parts := pieces target in
  match route_kind with
  | RtRoot => Some (Ok [str "Configuration.xml"])
  | RtWebSocketClient => Some (Err DescriptorsUnavailable)
  | _ =>
      raw ← slice_to parts (if is_nested_route route_kind then 4 else 2)%nat;
      match (let? d := address_parse (join (str ".") raw) in metadata_descriptor_relative d kind) with
      | Err e => Some (Err e)
      | Ok nested =>
          if is_nested_route route_kind && negb (is_external kind) then
            owner ← slice_to parts 2;
            Some (let? owner := address_parse (join (str ".") owner) in
                  let? first := metadata_descriptor_relative owner kind in
                  Ok [first; nested])
          else Some (Ok [nested])
      end
  end.

Example nested_module_requirements :
  module_descriptor_requirements (str "Catalog.A.Form.B.FormModule") RtNestedForm Configuration
    = Some (Ok [str "Catalogs/A.xml"; str "Catalogs/A/Forms/B.xml"])
  ∧ module_descriptor_requirements (str "SessionModule") RtDirect Configuration = None
  ∧ logical_module_from_metadata (str "HTTPService.Api.Module") = Some (str "HTTPService.Api.Module.HTTPService")
  ∧ logical_module_from_metadata (str "Catalog.A.ObjectModule") = Some (str "Catalog.A.Module.Object").
Proof. vm_compute. repeat split; reflexivity. Qed.
