(* ===== verification/ModuleFiles.v ===== *)
(** * Module files: facts

    A routed module has a metadata address, a file inside its source set, and
    the file leads back to the address.  The table of layouts is checked kind
    by kind; names are arbitrary. *)

From Stdlib Require Import ZArith Lia Ascii String.
From stdpp Require Import base countable option numbers list_basics list.
From S2P Require Import Prelude Redaction RedactionProps AddressKinds ModuleRoutes Address AddressFacts AddressProps SourceTarget.
From S2P Require Import Paths SourceLayout ModuleLayout.

Local Open Scope Z_scope.

(** ** Names *)

(** A name of a module's address: an XML name without a dot. *)
Definition app_name (n : text) : Prop := xml_ncname_is_valid n = true ∧ has_char 46 n = false.

Lemma app_name_word n : app_name n → word n.
Proof. intros [H1 H2]. split; [by apply ncname_nonempty|done]. Qed.
Lemma app_name_plain n : app_name n → plain_name n.
Proof. intros [H1 H2]. by apply ncname_plain_name. Qed.
Lemma escape_app_name n : app_name n → escape_name n = n.
Proof. intros [_ H]. unfold escape_name. by rewrite H. Qed.

Lemma route_name k owners n :
  route_kind k = true → name_refused k owners n = false → app_name n.
Proof.
  intros Hk. unfold name_refused, name_is_free_text. intros [H1 H2]%orb_false_iff.
  assert (name_may_contain_dot k owners = false) as Hd by by destruct k.
  rewrite Hd, andb_false_r in *. cbn [negb] in *. rewrite andb_true_r in *. split; [by bool_prop|done].
Qed.

Lemma route_names owners segs :
  wf_from owners segs → Forall (λ s, route_kind (s_kind s) = true) segs →
  Forall (λ s, ∀ n, s_name s = Some n → app_name n) segs.
Proof.
  induction 1 as [owners|owners op Hop|owners n Hn|owners k n rest Ht Hp Hn Hr Hrest IH|owners k Ht Hp
    |owners k rest Ht Hrest IH|owners k op Ht Hp Hop Hq]; intros HF;
    repeat match goal with H : Forall _ (_ :: _) |- _ => apply Forall_cons_1 in H as [? ?] end;
    cbn [s_kind] in *; try done.
  - constructor; [|by apply IH]. intros m [= <-]. by eapply route_name.
  - by constructor.
  - constructor; [done|by apply IH].
Qed.

(** A route ends in a common module or in a [Module] node. *)
Lemma routed_last segs r s :
  module_route_for_segments segs = Some r → last_opt segs = Some s → kind_is KBody s = false.
Proof.
  unfold kind_is. destruct segs as [|x [|y [|z [|w segs]]]]; cbn [module_route_for_segments last_opt]; try done.
  - intros H [= <-]. apply bool_decide_eq_false_2. intros E. unfold kind_is in H. rewrite E in H.
    rewrite (bool_decide_eq_false_2 (KBody = KCommonModule)), andb_false_r in H by done. done.
  - intros H [= <-]. apply bool_decide_eq_false_2. intros E. unfold kind_is in H. rewrite E in H.
    rewrite (bool_decide_eq_false_2 (KBody = KModule)), andb_false_r in H by done. done.
  - intros H [= <-]. apply bool_decide_eq_false_2. intros E. unfold kind_is in H. rewrite E in H.
    rewrite (bool_decide_eq_false_2 (KBody = KModule)), andb_false_r in H by done. done.
Qed.

(** A routed address has no line selector, and names that are plain. *)
Lemma routed_address raw a r :
  parse raw = Ok a → module_route a = Some r →
  line_range a = None ∧ Forall (λ s, ∀ n, s_name s = Some n → app_name n) (segments a)
  ∧ Forall (λ s, route_kind (s_kind s) = true) (segments a).
Proof.
  intros Hp Hr. pose proof (module_route_kinds _ _ Hr) as Hk.
  apply parse_cases in Hp as [Hp|(b & s & Hb & He & _ & _ & ->)].
  - split_and!; [by apply plain_wf_no_range| |done]. eapply route_names; [apply Hp|done].
  - exfalso. unfold module_route, ends_in_body in *. cbn [segments] in Hr.
    destruct (last_opt (segments b)) as [l|] eqn:El; [|done]. cbn in He.
    by rewrite (routed_last _ _ _ Hr El) in He.
Qed.

(** ** Searching the table *)

Definition first_capture (template : PlatformXmlModuleLayoutDescriptor → list ModuleLayoutToken) (parts : list text)
    : list PlatformXmlModuleLayoutDescriptor → option (PlatformXmlModuleLayoutDescriptor * ModuleLayoutCaptures) :=
  fix search families :=
    match families with
    | [] => None
    | d :: families =>
        match capture d (template d) parts with Some c => Some (d, c) | None => search families end
    end.

Lemma first_family_capture {A} template (answer : _ → option (option A)) parts families d c a :
  (∀ e, capture e (template e) parts = None → answer e = Some None) →
  first_capture template parts families = Some (d, c) → answer d = Some (Some a) →
  first_family answer families = Some (Some (md_family d, a)).
Proof.
  intros Hnone Hd Ha. induction families as [|e families IH]; [done|]. cbn [first_capture first_family] in *.
  destruct (capture e (template e) parts) as [c'|] eqn:E.
  - injection Hd as -> ->. by rewrite Ha.
  - rewrite Hnone by done. cbn [mbind option_bind]. by apply IH.
Qed.
Lemma first_capture_capture template parts families d c :
  first_capture template parts families = Some (d, c) → capture d (template d) parts = Some c.
Proof.
  induction families as [|e families IH]; [done|]. cbn [first_capture].
  destruct (capture e (template e) parts) as [c'|] eqn:E; [by intros [= <- <-]|done].
Qed.

(** What the table must say of an address in parts and of a file in names:
    the same family, the same captures. *)
Record table_pair (logical physical : list text) (owner : text) (descriptors : list text) : Prop := {
  tp_family : ∃ d c role,
    first_capture md_logical logical PLATFORM_XML_MODULE_LAYOUT_FAMILIES = Some (d, c)
    ∧ first_capture md_physical physical PLATFORM_XML_MODULE_LAYOUT_FAMILIES = Some (d, c)
    ∧ render (md_physical d) c = Some physical ∧ render (md_logical d) c = Some logical
    ∧ (match md_fixed_role d with Some r => Some r | None => cap_role c end) = Some role
    ∧ owner_and_descriptors (md_descriptor_rule d) c = Ok (owner, descriptors);
  tp_parts : profile_parts logical = Ok logical;
  tp_words : Forall word logical;
  tp_names : Forall plain_name physical;
  tp_some : logical ≠ [] ∧ physical ≠ [] }.

Lemma address_parse_canonical l :
  l ≠ [] → Forall word l → profile_parts l = Ok l → address_parse (join (str ".") l) = Ok (join [46] l).
Proof.
  intros Hne Hw Hp. change (str ".") with [46]. unfold address_parse, metadata_address_parse.
  change (profile_new PLATFORM_XML_8_3_27_FORMAT_2_20) with (Ok (E := TargetFault) PLATFORM_XML_8_3_27_FORMAT_2_20).
  cbn beta iota. unfold profile_parse. rewrite pieces_join_words by done.
  by rewrite words_nonempty, Hp.
Qed.

(** The table read in both directions. *)
Lemma table_pair_files logical physical owner descriptors :
  table_pair logical physical owner descriptors →
  let target := join [46] logical in let path := join [47] physical in
  address_parse (join (str ".") logical) = Ok target ∧ pieces target = logical
  ∧ platform_xml_module_relative target = Some (Ok path)
  ∧ components path = Normal <$> physical
  ∧ ∃ role, platform_xml_module_identity path = Some (Ok (mkIdentity owner target role descriptors)).
Proof.
  intros [(d & c & role & H1 & H2 & H3 & H4 & H5 & H6) Hp Hw Hn [Hl Hf]] target path. unfold target, path.
  assert (Ha : address_parse (join (str ".") logical) = Ok (join [46] logical)) by by apply address_parse_canonical.
  split_and!; [done|by apply pieces_join_words| |by apply components_plain|exists role].
  - unfold platform_xml_module_relative. rewrite pieces_join_words by done.
    rewrite (first_family_capture md_logical _ logical _ d c (join [47] physical)); [done| |done|];
      unfold path_from_address; [by intros e ->|].
    rewrite (first_capture_capture _ _ _ _ _ H1), H3. cbn [fmap option_fmap option_map].
    by rewrite push_all_plain.
  - unfold platform_xml_module_identity, module_layout_for_relative, relative_module_path_components.
    rewrite components_plain by done.
    assert (normal_names (Normal <$> physical) = Ok physical) as ->
      by (clear; induction physical as [|x l IH]; [done|]; cbn; by rewrite IH).
    rewrite (first_family_capture md_physical _ physical _ d c
      (Ok (mkIdentity owner (join [46] logical) role descriptors))); [done| |done|];
      unfold identity_from_parts; [by intros e ->|].
    rewrite (first_capture_capture _ _ _ _ _ H2). unfold identity. rewrite H4.
    cbn [fmap option_fmap option_map]. rewrite H5, H6. cbn [unsupported ok_or fst snd].
    unfold module_identity. by rewrite Ha.
Qed.

(** ** The kinds of the table *)

(** The owners of external source sets, which have a layout of their own. *)
Definition external_owner (k : NodeKind) : bool :=
  match k with KExternalDataProcessor | KExternalReport => true | _ => false end.

Lemma computed_word t : negb (text_is t []) && negb (has_char 46 t) = true → word t.
Proof. intros H. bool_prop. split; [by apply text_is_false|done]. Qed.

(** Words and plain names: constants are computed, names are given. *)
Ltac names_in :=
  repeat first [apply Forall_nil_2 | apply Forall_cons_2];
  try (first [assumption | apply app_name_word; assumption | apply app_name_plain; assumption
             | apply computed_word; vm_compute; reflexivity
             | apply (bool_decide_unpack _); vm_compute; reflexivity]).
Ltac find_pair :=
  constructor; [do 3 eexists; split_and!; vm_compute; reflexivity | vm_compute; reflexivity
               | names_in | names_in | done].

Lemma root_pair role t :
  root_terminal KConfiguration role = Ok t →
  table_pair [t] [str "Ext"; t ++ str ".bsl"] (str "Configuration") [str "Configuration.xml"]
  ∧ logical_parts [t] = Some [str "Module"; role_as_str role].
Proof.
  destruct role; try discriminate; intros E; cbn [root_terminal] in E;
    match type of E with Ok ?x = Ok _ => assert (t = x) as -> by congruence end; clear E;
    (split; [find_pair|vm_compute; reflexivity]).
Qed.

Definition owner_physical (lay : MetadataLayout) (n t : text) : list text :=
  [ml_directory lay; n; str "Ext"; t ++ str ".bsl"].
Definition own_descriptor (lay : MetadataLayout) (n : text) : text := path_of [ml_directory lay; dot_xml n].

(** Modules of an owner: its own, of a form or a command of its kind. *)
Inductive owner_module : NodeKind → ModuleRole → ModuleRouteKind → text → list text → Prop :=
  | om_common : owner_module KCommonModule RCommon RtCommon (str "Module") [str "Module.bsl"]
  | om_direct k r t :
      has_direct_module_route k r = true → direct_terminal k r = Ok t →
      owner_module k r RtDirect t [t ++ str ".bsl"]
  | om_form : owner_module KCommonForm RForm RtCommonForm (str "FormModule") [str "Form"; str "Module.bsl"]
  | om_command : owner_module KCommonCommand RCommand RtCommonCommand (str "CommandModule") [str "CommandModule.bsl"]
  | om_http : owner_module KHttpService RHttpService RtService (str "Module") [str "Module.bsl"]
  | om_web : owner_module KWebService RWebService RtService (str "Module") [str "Module.bsl"]
  | om_integration : owner_module KIntegrationService RIntegrationService RtService (str "Module") [str "Module.bsl"]
  | om_bot : owner_module KBot RBot RtBot (str "Module") [str "Module.bsl"].

Lemma owner_pair k r rk t file n :
  owner_module k r rk t file → external_owner k = false → app_name n →
  ∃ lay, metadata_kind (as_str k) = Some lay ∧ profile_parts [as_str k; n] = Ok [as_str k; n] ∧ word (as_str k)
  ∧ table_pair [as_str k; n; t] ([ml_directory lay; n; str "Ext"] ++ file) (as_str k ++ str "." ++ n) [own_descriptor lay n]
  ∧ logical_parts [as_str k; n; t]
    = Some (if bool_decide (r = RCommon) then [as_str k; n] else [as_str k; n; str "Module"; role_as_str r]).
Proof.
  intros Hm He Hn. destruct Hm as [|k r t Hk Ht| | | | | |].
  2: { destruct r; try discriminate; injection Ht as <-; destruct k; try discriminate;
       (eexists; split_and!; [vm_compute; reflexivity|vm_compute; reflexivity|names_in|find_pair|vm_compute; reflexivity]). }
  all: eexists; split_and!; [vm_compute; reflexivity|vm_compute; reflexivity|names_in|find_pair|vm_compute; reflexivity].
Qed.

Inductive child_module : NodeKind → ModuleRole → ModuleRouteKind → text → text → list text → Prop :=
  | cm_form : child_module KForm RForm RtNestedForm (str "FormModule") (str "Forms") [str "Form"; str "Module.bsl"]
  | cm_command :
      child_module KCommand RCommand RtNestedCommand (str "CommandModule") (str "Commands") [str "CommandModule.bsl"].

Lemma child_pair k c r rk t dir file n m :
  has_nested_module_route k = true → child_module c r rk t dir file → external_owner k = false →
  app_name n → app_name m →
  ∃ lay, metadata_kind (as_str k) = Some lay ∧ profile_parts [as_str k; n] = Ok [as_str k; n] ∧ word (as_str k)
  ∧ profile_parts [as_str k; n; as_str c; m] = Ok [as_str k; n; as_str c; m] ∧ word (as_str c)
  ∧ nested_directory (as_str c) = Ok dir
  ∧ table_pair [as_str k; n; as_str c; m; t] ([ml_directory lay; n; dir; m; str "Ext"] ++ file) (as_str k ++ str "." ++ n)
      [own_descriptor lay n; path_of [ml_directory lay; n; dir; dot_xml m]]
  ∧ logical_parts [as_str k; n; as_str c; m; t] = Some [as_str k; n; as_str c; m; str "Module"; role_as_str r].
Proof.
  intros Hk Hm He Hn Hm'. destruct Hm; destruct k; try discriminate;
    (eexists; split_and!; [vm_compute; reflexivity|vm_compute; reflexivity|names_in|vm_compute; reflexivity|names_in
     |vm_compute; reflexivity|find_pair|vm_compute; reflexivity]).
Qed.

(** ** Routed modules *)

(** The parts of a routed module and the names of its file. *)
Inductive routed : list AddressSegment → ModuleRoute → list text → list text → list text → Prop :=
  | routed_root role t :
      root_terminal KConfiguration role = Ok t →
      routed [mkSegment KModule (Some (role_as_str role))] (mkRoute KConfiguration role RtRoot)
        [t] [str "Ext"; t ++ str ".bsl"] [str "Configuration.xml"]
  | routed_common lay n file :
      app_name n → owner_module KCommonModule RCommon RtCommon (str "Module") file →
      metadata_kind (as_str KCommonModule) = Some lay →
      routed [mkSegment KCommonModule (Some n)] (mkRoute KCommonModule RCommon RtCommon)
        [as_str KCommonModule; n; str "Module"] ([ml_directory lay; n; str "Ext"] ++ file) [own_descriptor lay n]
  | routed_owner k r rk t lay n file :
      app_name n → owner_module k r rk t file → r ≠ RCommon → metadata_kind (as_str k) = Some lay →
      routed [mkSegment k (Some n); mkSegment KModule (Some (role_as_str r))] (mkRoute k r rk)
        [as_str k; n; t] ([ml_directory lay; n; str "Ext"] ++ file) [own_descriptor lay n]
  | routed_child k c r rk t dir lay n m file :
      app_name n → app_name m → has_nested_module_route k = true → child_module c r rk t dir file →
      metadata_kind (as_str k) = Some lay → nested_directory (as_str c) = Ok dir →
      routed [mkSegment k (Some n); mkSegment c (Some m); mkSegment KModule (Some (role_as_str r))] (mkRoute k r rk)
        [as_str k; n; as_str c; m; t] ([ml_directory lay; n; dir; m; str "Ext"] ++ file)
        [own_descriptor lay n; path_of [ml_directory lay; n; dir; dot_xml m]].

Lemma semantic_role raw r : from_semantic_name raw = Some r → raw = role_as_str r ∧ r ≠ RCommon.
Proof.
  unfold from_semantic_name. cbn [match_str].
  repeat (destruct (text_is raw _) eqn:E; [apply text_is_true in E as ->; clear;
    intros E; match type of E with Some ?x = _ => assert (r = x) as -> by congruence end; by split|clear E]).
  done.
Qed.

Lemma direct_module k raw route :
  direct_or_named_module k raw = Some route → mr_route_kind route ≠ RtWebSocketClient →
  ∃ r t file, raw = role_as_str r ∧ r ≠ RCommon ∧ route = mkRoute k r (mr_route_kind route)
    ∧ owner_module k r (mr_route_kind route) t file.
Proof.
  unfold direct_or_named_module. destruct (from_semantic_name raw) as [r|] eqn:Er; [|done].
  apply semantic_role in Er as [-> Hc]. destruct (has_direct_module_route k r) eqn:Ed.
  - intros [= <-] _. cbn [mr_route_kind].
    assert (∃ t, direct_terminal k r = Ok t) as [t Ht] by (destruct r; try discriminate; eexists; reflexivity).
    exists r, t. eexists. split_and!; [done..|]. by apply om_direct.
  - intros H Hw. exists r. destruct k, r; try discriminate; injection H as <-; cbn [mr_route_kind] in *;
      try done; do 2 eexists; (split_and!; [reflexivity|exact Hc|reflexivity|constructor]).
Qed.

Lemma nested_module_inv k c raw route :
  nested_module k c raw = Some route →
  ∃ r t dir file, raw = role_as_str r ∧ route = mkRoute k r (mr_route_kind route)
    ∧ has_nested_module_route k = true ∧ child_module c r (mr_route_kind route) t dir file.
Proof.
  unfold nested_module. destruct (has_nested_module_route k) eqn:Hk; [|done]. cbn [negb].
  destruct (from_semantic_name raw) as [r|] eqn:Er; [|done]. apply semantic_role in Er as [-> _].
  intros H. exists r. destruct c, r; try discriminate; injection H as <-; cbn [mr_route_kind];
    do 3 eexists; (split_and!; [reflexivity|reflexivity|done|constructor]).
Qed.

Lemma route_routed segs route :
  module_route_for_segments segs = Some route → Forall (λ s, ∀ n, s_name s = Some n → app_name n) segs →
  mr_route_kind route ≠ RtWebSocketClient → external_owner (mr_owner_kind route) = false →
  ∃ logical physical descriptors, routed segs route logical physical descriptors.
Proof.
  intros Hr Hn Hw He. destruct segs as [|[k o] [|[c p] [|[z q] [|w segs]]]]; cbn [module_route_for_segments] in Hr; try done;
    unfold named, kind_is in Hr; cbn [s_kind s_name] in Hr.
  - apply Forall_cons_1 in Hn as [Hn _]. cbn [s_name] in Hn.
    destruct (is_some o && bool_decide (k = KCommonModule)) eqn:E.
    + injection Hr as <-. bool_prop. subst k. destruct o as [n|]; [|done]. do 3 eexists.
      eapply routed_common; [by apply Hn|constructor|vm_compute; reflexivity].
    + clear E. case_bool_decide as Ek; [|done]. subst k. destruct o as [n|]; [|done]. cbn [mbind option_bind] in Hr.
      destruct (from_semantic_name n) as [r|] eqn:Er; [|done]. apply semantic_role in Er as [-> _].
      assert (∃ t, root_terminal KConfiguration r = Ok t ∧ route = mkRoute KConfiguration r RtRoot) as (t & Ht & ->)
        by (destruct r; try discriminate; injection Hr as <-; eexists; (split; [reflexivity|done])).
      do 3 eexists. by apply routed_root.
  - apply Forall_cons_1 in Hn as [Hn _]. cbn [s_name] in Hn. destruct (_ && _) eqn:E; [|done]. bool_prop. subst c.
    destruct o as [n|]; [|done]. destruct p as [raw|]; [|done]. cbn [mbind option_bind] in Hr.
    destruct (direct_module _ _ _ Hr Hw) as (r & t & file & -> & Hc & Eroute & Hm). rewrite Eroute in He |- *.
    destruct (owner_pair _ _ _ _ _ _ Hm He (Hn n eq_refl)) as (lay & Hlay & _).
    do 3 eexists. eapply routed_owner; [by apply Hn|done..].
  - apply Forall_cons_1 in Hn as [Hn Hn2]. apply Forall_cons_1 in Hn2 as [Hn2 _]. cbn [s_name] in Hn, Hn2.
    destruct (_ && _) eqn:E; [|done]. bool_prop. subst z.
    destruct o as [n|]; [|done]. destruct p as [m|]; [|done]. destruct q as [raw|]; [|done]. cbn [mbind option_bind] in Hr.
    destruct (nested_module_inv _ _ _ _ Hr) as (r & t & dir & file & -> & Eroute & Hk & Hm). rewrite Eroute in He |- *.
    destruct (child_pair _ _ _ _ _ _ _ _ _ Hk Hm He (Hn n eq_refl) (Hn2 m eq_refl)) as (lay & Hlay & _ & _ & _ & _ & Hd & _).
    do 3 eexists. eapply routed_child; [by apply Hn|by apply Hn2|done..].
Qed.

Lemma render_named k n : k ≠ KCan → app_name n → render_segment (mkSegment k (Some n)) = [as_str k; n].
Proof.
  intros Hk Hn. unfold render_segment, kind_is. cbn [s_kind s_name].
  rewrite bool_decide_eq_false_2 by done. by rewrite escape_app_name.
Qed.
Lemma role_app_name r : app_name (role_as_str r).
Proof. destruct r; by vm_compute. Qed.

(** What [routed] gives: the source address, the table, and the way back. *)
Lemma routed_source segs route logical physical descriptors :
  routed segs route logical physical descriptors → external_owner (mr_owner_kind route) = false →
  source_parts (mr_owner_kind route) (mr_role route) segs (mr_route_kind route) = Ok logical
  ∧ (∃ owner, table_pair logical physical owner descriptors)
  ∧ logical_parts logical = Some (segs ≫= render_segment).
Proof.
  intros Hr He. destruct Hr as [role t Ht|lay n file Hn Hm Hl|k r rk t lay n file Hn Hm Hc Hl
    |k c r rk t dir lay n m file Hn Hm Hk Hc Hl Hd]; cbn [mr_owner_kind mr_role mr_route_kind] in *.
  - destruct (root_pair role t Ht) as [H1 H2]. split_and!; [cbn [source_parts]; by rewrite Ht|by eexists|].
    rewrite H2. destruct role; try discriminate; vm_compute; reflexivity.
  - destruct (owner_pair _ _ _ _ _ n Hm He Hn) as (lay' & Hl' & _ & _ & Hp & Hb). rewrite Hl in Hl'. injection Hl' as <-.
    split_and!; [done|by eexists|]. rewrite Hb. rewrite bool_decide_eq_true_2 by done.
    by rewrite bind_cons, render_named.
  - destruct (owner_pair _ _ _ _ _ n Hm He Hn) as (lay' & Hl' & _ & _ & Hp & Hb). rewrite Hl in Hl'. injection Hl' as <-.
    split_and!; [|by eexists|].
    + destruct Hm; cbn [source_parts required_segment required_segment_name lookup list_lookup ok_or s_name s_kind mbind option_bind];
        try done. by rewrite H0.
    + rewrite Hb, bool_decide_eq_false_2, !bind_cons by done.
      rewrite !render_named; [done|done|apply role_app_name| |done].
      by destruct Hm; try (intros ->; destruct r).
  - destruct (child_pair _ _ _ _ _ _ _ _ _ Hk Hc He Hn Hm) as (lay' & Hl' & _ & _ & _ & _ & _ & Hp & Hb).
    rewrite Hl in Hl'. injection Hl' as <-. split_and!; [by destruct Hc|by eexists|].
    rewrite Hb, !bind_cons. rewrite !render_named; try done; [apply role_app_name|by destruct Hc|by intros ->].
Qed.
