(* ===== verification/ModuleProps.v ===== *)
(** * Module files: theorems

    Every module that has a route has a metadata address and, but for web
    socket clients, a file inside its source set; the file leads back to the
    module, and the descriptors it needs are those of its identity.  Last, the
    body of a module, by which an editor's document names it. *)

From Stdlib Require Import ZArith Lia Ascii String.
From stdpp Require Import base countable option numbers list_basics list.
From S2P Require Import Prelude Redaction RedactionProps AddressKinds ModuleRoutes Address AddressFacts AddressProps.
From S2P Require Import SourceTarget Paths SourceLayout ModuleLayout ModuleFiles.

Local Open Scope Z_scope.

(** ** Descriptors *)

Lemma address_descriptor parts k lay :
  profile_parts parts = Ok parts → parts ≠ [] → Forall word parts → is_external k = false →
  List.hd_error parts ≫= metadata_kind = Some lay →
  (let? d := address_parse (join (str ".") parts) in metadata_descriptor_relative d k)
  = match parts with
    | [_; n] => Ok (own_descriptor lay n)
    | [_; n; c; m] => let? dir := nested_directory c in Ok (path_of [ml_directory lay; n; dir; dot_xml m])
    | [_] => Err NoOwnerIdentity
    | _ => Err UnsupportedDepth
    end.
Proof.
  intros Hp Hne Hw Hk Hl. rewrite address_parse_canonical by done. cbn beta iota.
  unfold metadata_descriptor_relative. rewrite Hk, pieces_join_words by done.
  clear Hp Hw. destruct parts as [|p [|n [|c [|m [|x parts]]]]]; [done|..];
    cbn [List.hd_error mbind option_bind] in Hl; rewrite ?Hl; reflexivity.
Qed.

Lemma routed_requirements segs route logical physical descriptors k :
  routed segs route logical physical descriptors → external_owner (mr_owner_kind route) = false →
  pieces (join [46] logical) = logical → is_external k = false →
  module_descriptor_requirements (join [46] logical) (mr_route_kind route) k = Some (Ok descriptors).
Proof.
  intros Hr He Hp Hk. unfold module_descriptor_requirements. rewrite Hp.
  destruct Hr as [role t Ht|lay n file Hn Hm Hl|o r rk t lay n file Hn Hm Hc Hl|o c r rk t dir lay n m file Hn Hm Ho Hc Hl Hd];
    cbn [mr_owner_kind mr_role mr_route_kind] in *; [done|..].
  - destruct (owner_pair _ _ _ _ _ n Hm He Hn) as (lay' & _ & Hpp & Hw & _ & _).
    cbn [is_nested_route slice_to length Nat.leb take mbind option_bind andb].
    rewrite (address_descriptor _ k lay); [done|done|done| |done|done]. names_in.
  - destruct (owner_pair _ _ _ _ _ n Hm He Hn) as (lay' & _ & Hpp & Hw & _ & _).
    assert (Hd : (let? d := address_parse (join (str ".") [as_str o; n]) in metadata_descriptor_relative d k)
      = Ok (own_descriptor lay n)).
    { rewrite (address_descriptor _ k lay); [done|done|done| |done|done]. names_in. }
    destruct Hm; cbn [is_nested_route slice_to length Nat.leb take mbind option_bind andb]; by rewrite Hd.
  - destruct (child_pair _ _ _ _ _ _ _ _ _ Ho Hc He Hn Hm) as (lay' & _ & Hp2 & Hw & Hp4 & Hwc & _ & _ & _).
    apply app_name_word in Hn, Hm.
    assert (Hd4 : (let? d := address_parse (join (str ".") [as_str o; n; as_str c; m]) in metadata_descriptor_relative d k)
      = Ok (path_of [ml_directory lay; n; dir; dot_xml m])).
    { rewrite (address_descriptor _ k lay); [by rewrite Hd|done|done| |done|done]. names_in. }
    assert (Hd2 : (let? d := address_parse (join (str ".") [as_str o; n]) in metadata_descriptor_relative d k)
      = Ok (own_descriptor lay n)).
    { rewrite (address_descriptor _ k lay); [done|done|done| |done|done]. names_in. }
    destruct Hc; cbn [is_nested_route slice_to length Nat.leb take mbind option_bind andb];
      rewrite Hd4, Hk; cbn [negb]; cbn [slice_to length Nat.leb take mbind option_bind];
      destruct (address_parse (join (str ".") [as_str o; n])); try done; by rewrite Hd2.
Qed.

(** ** Configurations and extensions *)

Definition has_source (k : SourceSetKind) (r : ModuleRoute) : Prop :=
  mr_route_kind r ≠ RtWebSocketClient ∧ external_owner (mr_owner_kind r) = false ∧ is_external k = false.

Lemma routed_module_file raw a r k :
  parse raw = Ok a → module_route a = Some r → has_source k r →
  ∃ target names role owner descriptors,
    module_source_address a (mr_owner_kind r) (mr_role r) (mr_route_kind r) = Ok target
    ∧ module_relative target k = Some (Ok (join [47] names))
    ∧ Forall plain_name names ∧ names ≠ []
    ∧ platform_xml_module_identity (join [47] names) = Some (Ok (mkIdentity owner target role descriptors))
    ∧ module_descriptor_requirements target (mr_route_kind r) k = Some (Ok descriptors)
    ∧ logical_module_from_metadata target = Some (logical_path a).
Proof.
  intros Ha Hr (Hw & He & Hk). destruct (routed_address raw a r Ha Hr) as (Hlr & Hn & _).
  destruct (route_routed _ _ Hr Hn Hw He) as (logical & physical & descriptors & Hd).
  destruct (routed_source _ _ _ _ _ Hd He) as (Hs & (owner & Ht) & Hb).
  destruct (table_pair_files _ _ _ _ Ht) as (H1 & H2 & H3 & H4 & role & H5).
  exists (join [46] logical), physical, role, owner, descriptors. split_and!; [| |apply Ht|apply Ht|done| |].
  - unfold module_source_address. by rewrite Hs.
  - unfold module_relative. by rewrite Hk.
  - by eapply routed_requirements.
  - unfold logical_module_from_metadata. rewrite H2, Hb. unfold logical_path, render_segments.
    rewrite Hlr, app_nil_r. done.
Qed.

(** C23. The file of a module.  A module address that has a route, of a
    configuration or an extension and other than a web socket client's, has
    a metadata address and a file; the file is a path of plain names, without
    a root or a parent component, so it stays inside its source set; the path
    is identified as a module of just that metadata address; and the metadata
    address is read back as the logical address.  No table entry panics. *)
Theorem module_file_roundtrip raw a r k :
  parse raw = Ok a → module_route a = Some r → has_source k r →
  ∃ target path names id,
    module_source_address a (mr_owner_kind r) (mr_role r) (mr_route_kind r) = Ok target
    ∧ module_relative target k = Some (Ok path)
    ∧ components path = Normal <$> names
    ∧ platform_xml_module_identity path = Some (Ok id) ∧ id_address id = target
    ∧ logical_module_from_metadata target = Some (logical_path a).
Proof.
  intros Ha Hr Hk. destruct (routed_module_file raw a r k Ha Hr Hk) as
    (target & names & role & owner & descriptors & H1 & H2 & H3 & H4 & H5 & _ & H7).
  do 4 eexists. split_and!; [done|done|by apply components_plain|done|done|done].
Qed.
Lemma module_file_roundtrip_witness :
  ∃ a r, parse (str "main:Catalog.Валюты.Form.Список.Module.Form") = Ok a ∧ module_route a = Some r
  ∧ ∃ target path names id,
    module_source_address a (mr_owner_kind r) (mr_role r) (mr_route_kind r) = Ok target
    ∧ module_relative target Configuration = Some (Ok path)
    ∧ components path = Normal <$> names
    ∧ platform_xml_module_identity path = Some (Ok id) ∧ id_address id = target
    ∧ logical_module_from_metadata target = Some (logical_path a).
Proof.
  eexists _, _. split; [vm_compute; reflexivity|]. split; [vm_compute; reflexivity|].
  apply (module_file_roundtrip (str "main:Catalog.Валюты.Form.Список.Module.Form"));
    [vm_compute; reflexivity|vm_compute; reflexivity|]. by split_and!.
Defined.

(** C24. Two computations of the descriptors a module needs agree: the one of
    a module's identity, from its file through the table of layouts, and the
    one of an event's module, from the parts of its metadata address and its
    route. *)
Theorem module_descriptors_agree raw a r k target path id :
  parse raw = Ok a → module_route a = Some r → has_source k r →
  module_source_address a (mr_owner_kind r) (mr_role r) (mr_route_kind r) = Ok target →
  module_relative target k = Some (Ok path) → platform_xml_module_identity path = Some (Ok id) →
  module_descriptor_requirements target (mr_route_kind r) k = Some (Ok (id_descriptors id)).
Proof.
  intros Ha Hr Hk Ht Hp Hi. destruct (routed_module_file raw a r k Ha Hr Hk) as
    (target' & names & role & owner & descriptors & H1 & H2 & _ & _ & H5 & H6 & _).
  rewrite Ht in H1. injection H1 as <-. rewrite Hp in H2. injection H2 as ->.
  rewrite Hi in H5. injection H5 as ->. done.
Qed.
Definition sample_module : QualifiedAddress :=
  mkQualifiedAddress (str "main") [mkSegment KCatalog (Some (str "Валюты")); mkSegment KModule (Some (str "Object"))] None.
Definition sample_identity : PlatformXmlModuleIdentity :=
  mkIdentity (str "Catalog.Валюты") (str "Catalog.Валюты.ObjectModule") PObjectModule [str "Catalogs/Валюты.xml"].
Lemma module_descriptors_agree_witness :
  module_descriptor_requirements (str "Catalog.Валюты.ObjectModule") RtDirect Extension
  = Some (Ok (id_descriptors sample_identity)).
Proof.
  apply (module_descriptors_agree (str "main:Справочник.Валюты.Module.Object") sample_module
    (mkRoute KCatalog RObject RtDirect) Extension (str "Catalog.Валюты.ObjectModule")
    (str "Catalogs/Валюты/Ext/ObjectModule.bsl") sample_identity);
    [vm_compute; reflexivity|vm_compute; reflexivity|by split_and!|vm_compute; reflexivity
    |vm_compute; reflexivity|vm_compute; reflexivity].
Defined.

(** ** External source sets *)

Definition external_kind (k : SourceSetKind) : option NodeKind :=
  match k with
  | ExternalProcessor => Some KExternalDataProcessor
  | ExternalReport => Some KExternalReport
  | Configuration | Extension => None
  end.

(** The modules of an external object and their files. *)
Inductive external_module : list AddressSegment → ModuleRoute → list text → list text → Prop :=
  | em_object k n :
      external_owner k = true → app_name n →
      external_module [mkSegment k (Some n); mkSegment KModule (Some (str "Object"))] (mkRoute k RObject RtDirect)
        [as_str k; n; str "ObjectModule"] [n; str "Ext"; str "ObjectModule.bsl"]
  | em_form k n m :
      external_owner k = true → app_name n → app_name m →
      external_module [mkSegment k (Some n); mkSegment KForm (Some m); mkSegment KModule (Some (str "Form"))]
        (mkRoute k RForm RtNestedForm)
        [as_str k; n; str "Form"; m; str "FormModule"] [n; str "Forms"; m; str "Ext"; str "Form"; str "Module.bsl"]
  | em_command k n m :
      external_owner k = true → app_name n → app_name m →
      external_module [mkSegment k (Some n); mkSegment KCommand (Some m); mkSegment KModule (Some (str "Command"))]
        (mkRoute k RCommand RtNestedCommand)
        [as_str k; n; str "Command"; m; str "CommandModule"] [n; str "Commands"; m; str "Ext"; str "CommandModule.bsl"].

Lemma external_routed segs route :
  module_route_for_segments segs = Some route → Forall (λ s, ∀ n, s_name s = Some n → app_name n) segs →
  external_owner (mr_owner_kind route) = true → ∃ logical physical, external_module segs route logical physical.
Proof.
  intros Hr Hn He. destruct segs as [|[k o] [|[c p] [|[z q] [|w segs]]]]; cbn [module_route_for_segments] in Hr; try done;
    unfold named, kind_is in Hr; cbn [s_kind s_name] in Hr.
  - destruct (_ && _); [by injection Hr as <-|]. case_bool_decide; [|done].
    destruct (o ≫= _) as [r|]; [|done]. destruct r; try discriminate; by injection Hr as <-.
  - apply Forall_cons_1 in Hn as [Hn _]. cbn [s_name] in Hn. destruct (_ && _) eqn:E; [|done]. bool_prop. subst c.
    destruct o as [n|]; [|done]. destruct p as [raw|]; [|done]. cbn [mbind option_bind] in Hr.
    assert (Hw : mr_route_kind route ≠ RtWebSocketClient).
    { intros Hw. unfold direct_or_named_module in Hr. destruct (from_semantic_name raw) as [r|]; [|done].
      destruct (has_direct_module_route k r); [by injection Hr as <-|].
      destruct k, r; try discriminate; injection Hr as <-; discriminate. }
    destruct (direct_module _ _ _ Hr Hw) as (r & t & file & -> & _ & Eroute & Hm). rewrite Eroute in He |- *.
    cbn [mr_owner_kind] in He. destruct Hm as [|k r t Hd _| | | | | |]; try discriminate.
    destruct k; try discriminate; destruct r; try discriminate; (do 2 eexists; apply em_object; [done|by apply Hn]).
  - apply Forall_cons_1 in Hn as [Hn Hn2]. apply Forall_cons_1 in Hn2 as [Hn2 _]. cbn [s_name] in Hn, Hn2.
    destruct (_ && _) eqn:E; [|done]. bool_prop. subst z.
    destruct o as [n|]; [|done]. destruct p as [m|]; [|done]. destruct q as [raw|]; [|done]. cbn [mbind option_bind] in Hr.
    destruct (nested_module_inv _ _ _ _ Hr) as (r & t & dir & file & -> & Eroute & Hk & Hm). rewrite Eroute in He |- *.
    cbn [mr_owner_kind] in He. destruct Hm; do 2 eexists; [apply em_form|apply em_command]; auto.
Qed.

Lemma external_kind_owner k o : external_kind k = Some o → external_owner o = true ∧ is_external k = true.
Proof. by destruct k; intros [= <-]. Qed.

Lemma external_pair segs route logical physical k :
  external_module segs route logical physical → external_kind k = Some (mr_owner_kind route) →
  source_parts (mr_owner_kind route) (mr_role route) segs (mr_route_kind route) = Ok logical
  ∧ profile_parts logical = Ok logical ∧ Forall word logical ∧ Forall plain_name physical ∧ logical ≠ [] ∧ physical ≠ []
  ∧ external_module_relative (join [46] logical) k = Ok (join [47] physical)
  ∧ external_module_metadata_address (join [47] physical) k = Some (join [46] logical).
Proof.
  intros Hm Hk. destruct Hm as [o n Ho Hn|o n m Ho Hn Hm|o n m Ho Hn Hm]; cbn [mr_owner_kind mr_role mr_route_kind] in *;
    pose proof (app_name_plain n Hn) as Hpn; pose proof (app_name_word n Hn) as Hwn;
    try (pose proof (app_name_plain m Hm) as Hpm; pose proof (app_name_word m Hm) as Hwm);
    destruct k; try discriminate; injection Hk as <-;
    (split_and!; [reflexivity|vm_compute; reflexivity|names_in|names_in|done|done
     |unfold external_module_relative, external_owner_parts; rewrite pieces_join_words by (done || names_in)
     |unfold external_module_metadata_address; rewrite components_plain by (done || names_in); reflexivity]).
  1,2: rewrite <- path_of_plain by names_in; reflexivity.
  3,4: rewrite <- path_of_plain by names_in; reflexivity.
  all: change [n; str "Forms"; m; str "Ext"; str "Form"; str "Module.bsl"]
         with ([n; str "Forms"; m; str "Ext"] ++ [str "Form"; str "Module.bsl"]);
    rewrite <- path_of_two by (done || names_in); reflexivity.
Qed.

(** The files of external processors and reports.  A routed module of
    the object that an external source set holds has a metadata address and
    a file of plain names, and the file is identified as a module of just that
    metadata address. *)
Theorem external_module_roundtrip raw a r k :
  parse raw = Ok a → module_route a = Some r → external_kind k = Some (mr_owner_kind r) →
  ∃ target path names,
    module_source_address a (mr_owner_kind r) (mr_role r) (mr_route_kind r) = Ok target
    ∧ module_relative target k = Some (Ok path) ∧ components path = Normal <$> names
    ∧ external_module_metadata_address path k = Some target.
Proof.
  intros Ha Hr Hk. destruct (routed_address raw a r Ha Hr) as (_ & Hn & _).
  destruct (external_kind_owner _ _ Hk) as [He Hx].
  destruct (external_routed _ _ Hr Hn He) as (logical & physical & Hm).
  destruct (external_pair _ _ _ _ k Hm Hk) as (Hs & Hp & Hw & Hf & Hne & Hfe & H1 & H2).
  exists (join [46] logical), (join [47] physical), physical. split_and!; [| |by apply components_plain|done].
  - unfold module_source_address. rewrite Hs. by apply address_parse_canonical.
  - unfold module_relative. by rewrite Hx, H1.
Qed.
Lemma external_module_roundtrip_witness :
  ∃ target path names,
    module_source_address (mkQualifiedAddress (str "erf")
        [mkSegment KExternalReport (Some (str "Отчет")); mkSegment KForm (Some (str "Ф")); mkSegment KModule (Some (str "Form"))] None)
      KExternalReport RForm RtNestedForm = Ok target
    ∧ module_relative target ExternalReport = Some (Ok path) ∧ components path = Normal <$> names
    ∧ external_module_metadata_address path ExternalReport = Some target.
Proof.
  apply (external_module_roundtrip (str "erf:ExternalReport.Отчет.Form.Ф.Module.Form") _
    (mkRoute KExternalReport RForm RtNestedForm)); vm_compute; reflexivity.
Defined.

(** ** No panic *)

Definition captured (c : ModuleLayoutCaptures) (token : ModuleLayoutToken) : bool := is_some (render_token c token).

(** Reading the first token captures what printing the second needs. *)
Definition captures_for (read token : ModuleLayoutToken) : bool :=
  match read, token with
  | (TkMetadataKind | TkMetadataDirectory), (TkMetadataKind | TkMetadataDirectory)
  | TkOwnerName, TkOwnerName | TkChildName, TkChildName
  | (TkRole _ | TkRoleFile _), (TkRole _ | TkRoleFile _) => true
  | _, _ => false
  end.

Lemma capture_tokens_sets template parts c c' token :
  length template = length parts → capture_tokens template parts c = Some c' →
  captured c token = true ∨ existsb (λ t, captures_for t token) template = true →
  captured c' token = true.
Proof.
  revert parts c. induction template as [|t template IH]; intros [|value parts] c Hlen; try discriminate.
  - cbn. intros [= <-] [H|H]; done.
  - cbn [capture_tokens existsb]. intros H Hc. injection Hlen as Hlen.
    destruct t;
    match type of H with (?x ≫= _) = _ => destruct x as [c1|] eqn:E; [|done] end; cbn [mbind option_bind] in H;
    apply (IH parts c1 Hlen H);
    (destruct Hc as [Hc|Hc]; [left|apply orb_true_iff in Hc as [Hc|Hc]; [left|by right]]);
    unfold captured in *; try (destruct (text_is expected value); [injection E as <-; done|done]);
    try (destruct (metadata_kind value); [injection E as <-|done]);
    try (destruct (metadata_kind_by_directory value); [injection E as <-|done]);
    try (injection E as <-);
    try (destruct (role_class_parse class value); [injection E as <-|done]);
    try (destruct (strip_suffix value (str ".bsl")) as [raw|]; [|done]; cbn [mbind option_bind] in E;
         destruct (role_class_parse class raw); [injection E as <-|done]);
    by destruct token.
Qed.

(** Each template of a family captures all the other prints. *)
Definition covers (template printed : list ModuleLayoutToken) : bool :=
  forallb (λ token, match token with TkLiteral _ => true | _ => existsb (λ t, captures_for t token) template end) printed.

Lemma capture_renders d template printed parts c :
  covers template printed = true → capture d template parts = Some c → is_Some (render printed c).
Proof.
  intros Hcov. unfold capture. destruct (Nat.eqb_spec (length template) (length parts)) as [Hlen|]; [|done].
  cbn [negb]. destruct (capture_tokens template parts no_captures) as [c'|] eqn:E; [|done]. cbn [mbind option_bind].
  destruct (accepts d c'); [|done]. intros [= <-]. unfold render. apply mapM_is_Some, List.Forall_forall.
  intros token Hin. unfold covers in Hcov. rewrite forallb_forall in Hcov. apply Hcov in Hin.
  enough (captured c' token = true) as H by (unfold captured in H; by apply is_some_true in H).
  destruct token; [done|..]; by eapply capture_tokens_sets; [exact Hlen|exact E|right].
Qed.

Lemma families_cover d :
  In d PLATFORM_XML_MODULE_LAYOUT_FAMILIES →
  covers (md_logical d) (md_physical d) = true ∧ covers (md_physical d) (md_logical d) = true.
Proof.
  assert (H : forallb (λ d, covers (md_logical d) (md_physical d) && covers (md_physical d) (md_logical d))
    PLATFORM_XML_MODULE_LAYOUT_FAMILIES = true) by (vm_compute; reflexivity).
  rewrite forallb_forall in H. intros Hd%H. by apply andb_true_iff in Hd.
Qed.

Lemma first_family_total {A} (answer : _ → option (option A)) families :
  (∀ d, In d families → is_Some (answer d)) → is_Some (first_family answer families).
Proof.
  induction families as [|d families IH]; intros H; [by eexists|]. cbn [first_family].
  destruct (H d ltac:(by left)) as [[a|] ->]; cbn [mbind option_bind]; [by eexists|]. apply IH. intros e He. apply H. by right.
Qed.

(** Neither direction of the table panics, whatever the input. *)
Lemma module_relative_total target k : is_Some (module_relative target k).
Proof.
  unfold module_relative. destruct (is_external k); [by eexists|]. unfold platform_xml_module_relative.
  destruct (first_family_total (λ d, path_from_address d (pieces target)) PLATFORM_XML_MODULE_LAYOUT_FAMILIES)
    as [found ->]; [|by eexists].
  intros d Hd. unfold path_from_address. destruct (capture d (md_logical d) _) as [c|] eqn:E; [|by eexists].
  destruct (capture_renders _ _ (md_physical d) _ _ (proj1 (families_cover d Hd)) E) as [l ->]. by eexists.
Qed.
Lemma module_identity_total relative : is_Some (platform_xml_module_identity relative).
Proof.
  unfold platform_xml_module_identity, module_layout_for_relative.
  destruct (relative_module_path_components relative) as [parts|]; [|by eexists].
  destruct (first_family_total (λ d, identity_from_parts d parts) PLATFORM_XML_MODULE_LAYOUT_FAMILIES)
    as [found ->]; [|by eexists].
  intros d Hd. unfold identity_from_parts. destruct (capture d (md_physical d) _) as [c|] eqn:E; [|by eexists].
  unfold identity.
  destruct (capture_renders _ _ (md_logical d) _ _ (proj2 (families_cover d Hd)) E) as [l ->]. by eexists.
Qed.

(** ** The module of a file *)

(** The logical path that a file of a source set leads back to. *)
Definition module_of_file (k : SourceSetKind) (path : text) : option text :=
  target ← (if is_external k then external_module_metadata_address path k
            else match platform_xml_module_identity path with Some (Ok id) => Some (id_address id) | _ => None end);
  logical_module_from_metadata target.

Lemma external_logical segs route logical physical k :
  external_module segs route logical physical → external_kind k = Some (mr_owner_kind route) →
  Forall word logical → logical_module_from_metadata (join [46] logical) = Some (render_segments segs).
Proof.
  intros Hm Hk Hw. unfold logical_module_from_metadata.
  rewrite pieces_join_words; [|by destruct Hm|done]. unfold render_segments. change (str ".") with [46].
  destruct Hm as [o n Ho Hn|o n m Ho Hn Hm|o n m Ho Hn Hm]; cbn [mr_owner_kind] in Hk;
    rewrite !bind_cons, !render_named;
    try apply (role_app_name RObject); try apply (role_app_name RForm); try apply (role_app_name RCommand);
    try done; try (by intros ->); destruct k; try discriminate; by injection Hk as <-.
Qed.

(** An external object has no file in a configuration. *)
Lemma external_owner_no_file segs route logical physical k :
  external_module segs route logical physical → is_external k = false → Forall word logical →
  module_relative (join [46] logical) k = Some (Err UnsupportedModuleLayout).
Proof.
  intros Hm Hk Hw. unfold module_relative. rewrite Hk. unfold platform_xml_module_relative.
  rewrite pieces_join_words; [|by destruct Hm|done].
  destruct Hm as [o n Ho _|o n m Ho _ _|o n m Ho _ _]; destruct o; try discriminate; vm_compute; reflexivity.
Qed.

Lemma expected_owner o k :
  external_kind k = Some o → ∀ p, text_is (as_str p) (as_str o) = bool_decide (p = o).
Proof. destruct k; intros [= <-] p; destruct p; vm_compute; reflexivity. Qed.

Lemma external_relative_owner target k o rest :
  external_kind k = Some o → pieces target = rest → is_ok (external_module_relative target k) = true →
  ∃ n rest', rest = as_str o :: n :: rest'.
Proof.
  intros Hk Hp. unfold external_module_relative, external_owner_parts. rewrite Hp.
  destruct rest as [|p [|n rest]]; try done.
  destruct k; try discriminate; injection Hk as <-; cbn beta iota;
    match goal with |- context [text_is p ?e] => destruct (text_is p e) eqn:E end; try done;
    apply text_is_true in E as ->; intros _; by exists n, rest.
Qed.

Lemma module_file_facts raw a r k target path :
  parse raw = Ok a → module_route a = Some r →
  module_source_address a (mr_owner_kind r) (mr_role r) (mr_route_kind r) = Ok target →
  module_relative target k = Some (Ok path) →
  ∃ names, path = join [47] names ∧ names ≠ [] ∧ Forall plain_name names
    ∧ module_of_file k path = Some (logical_path a).
Proof.
  intros Ha Hr Ht Hp.
  assert (Hw : mr_route_kind r ≠ RtWebSocketClient).
  { intros E. unfold module_source_address in Ht. rewrite E in Ht. done. }
  destruct (routed_address raw a r Ha Hr) as (Hlr & Hn & _).
  assert (Hlog : logical_path a = render_segments (segments a)) by (unfold logical_path; by rewrite Hlr, app_nil_r).
  destruct (external_owner (mr_owner_kind r)) eqn:He.
  - destruct (external_routed _ _ Hr Hn He) as (logical & physical & Hm).
    assert (Hs : source_parts (mr_owner_kind r) (mr_role r) (segments a) (mr_route_kind r) = Ok logical
      ∧ profile_parts logical = Ok logical ∧ Forall word logical ∧ logical ≠ []).
    { destruct (mr_owner_kind r) eqn:Eo; try discriminate;
        [destruct (external_pair _ _ _ _ ExternalProcessor Hm) as (? & ? & ? & _ & ? & _)
        |destruct (external_pair _ _ _ _ ExternalReport Hm) as (? & ? & ? & _ & ? & _)];
        by rewrite ?Eo in *. }
    destruct Hs as (Hs & Hpp & Hword & Hne).
    unfold module_source_address in Ht. rewrite Hs, address_parse_canonical in Ht by done. injection Ht as <-.
    destruct (is_external k) eqn:Hk; [|by rewrite (external_owner_no_file _ _ _ _ _ Hm Hk Hword) in Hp].
    unfold module_relative in Hp. rewrite Hk in Hp. injection Hp as Hp.
    assert (∃ o, external_kind k = Some o) as [o Ho] by (destruct k; try discriminate; by eexists).
    assert (o = mr_owner_kind r) as ->.
    { destruct (external_relative_owner (join [46] logical) k o logical Ho) as (n & rest & El); [by apply pieces_join_words|by rewrite Hp|].
      destruct Hm as [p n' Hp' _|p n' m Hp' _ _|p n' m Hp' _ _]; cbn [mr_owner_kind] in *; injection El as E _;
        pose proof (expected_owner _ _ Ho p) as Hx; rewrite E in Hx;
        rewrite (proj2 (text_is_true _ _) eq_refl) in Hx; symmetry in Hx; by bool_prop. }
    destruct (external_pair _ _ _ _ k Hm Ho) as (_ & _ & _ & Hf & _ & Hfe & H1 & H2).
    rewrite H1 in Hp. injection Hp as <-. exists physical. split_and!; [done..|].
    unfold module_of_file. rewrite Hk, H2. cbn [mbind option_bind]. rewrite Hlog. by eapply external_logical.
  - destruct (is_external k) eqn:Hk.
    + exfalso. destruct (route_routed _ _ Hr Hn Hw He) as (logical & physical & descriptors & Hd).
      destruct (routed_source _ _ _ _ _ Hd He) as (Hs & (owner & Htp) & _).
      destruct (table_pair_files _ _ _ _ Htp) as (Hap & Hpl & _ & _ & _).
      unfold module_source_address in Ht. rewrite Hs, Hap in Ht. injection Ht as <-.
      unfold module_relative in Hp. rewrite Hk in Hp. injection Hp as Hp.
      assert (∃ o, external_kind k = Some o) as [o Ho] by (destruct k; try discriminate; by eexists).
      destruct (external_relative_owner (join [46] logical) k o logical Ho Hpl) as (n & rest & El); [by rewrite Hp|].
      apply external_kind_owner in Ho as Hox. destruct Hox as [Hox _].
      assert (Hown : ∀ p, as_str p = as_str o → external_owner p = true).
      { intros p E%text_is_true. rewrite (expected_owner _ _ Ho) in E. bool_prop. by subst. }
      destruct Hd as [role t _|lay n' file _ _ _|p r' rk t lay n' file _ _ _ _|p c r' rk t dir lay n' m file _ _ _ _ _ _];
        cbn [mr_owner_kind] in *; [done|..].
      * specialize (Hown KCommonModule). by rewrite Hown in He by (by injection El).
      * specialize (Hown p). by rewrite Hown in He by (by injection El).
      * specialize (Hown p). by rewrite Hown in He by (by injection El).
    + destruct (routed_module_file raw a r k Ha Hr) as (t & names & role & owner & descriptors & H1 & H2 & H3 & H4 & H5 & _ & H7);
        [done|]. rewrite Ht in H1. injection H1 as <-. rewrite Hp in H2. injection H2 as ->.
      exists names. split_and!; [done..|]. unfold module_of_file. rewrite Hk, H5. done.
Qed.

(** ** The body of a module *)

Definition body_part : text * text := (lit "Body", lit "Body").
Definition body_segment : AddressSegment := mkSegment KBody None.

Lemma split_from_body t raw cur l :
  split_from raw cur t = Ok l → split_from raw cur (t ++ lit ".Body") = Ok (l ++ [body_part]).
Proof.
  revert raw cur l. induction t as [|c|c d t IH1 IH2] using list_ind2; intros raw cur l.
  - intros [= <-]. vm_compute. reflexivity.
  - cbn [app]. destruct (Z.eqb_spec c 92) as [->|Hb]; [done|].
    destruct (Z.eqb_spec c 46) as [->|Hd]; [intros [= <-]; vm_compute; reflexivity|].
    rewrite !split_from_plain by done. intros [= <-]. vm_compute. reflexivity.
  - cbn [app] in *. destruct (Z.eqb_spec c 92) as [->|Hb].
    + intros [-> Hl]%split_from_escape. cbn [split_from Z.eqb Pos.eqb]. by apply IH1.
    + destruct (Z.eqb_spec c 46) as [->|Hd].
      * rewrite !split_from_dot. destruct (split_from [] [] (d :: t)) as [rest|] eqn:E; [|done].
        rewrite (IH2 _ _ _ E). by intros [= <-].
      * rewrite (split_from_plain raw cur c (d :: t)), (split_from_plain raw cur c (d :: t ++ _)) by done. by apply IH2.
Qed.

(** A node that lacks a name, or is not of a module's address. *)
Definition routable (s : AddressSegment) : bool := named s && route_kind (s_kind s).

(** One step of the loop over the parts. *)
Lemma parse_parts_cons raw token rest segs :
  parse_parts ((raw, token) :: rest) segs
  = let? kind := node_kind_parse token in
    if bool_decide (kind = KCan) then
      if negb (text_is (join [46] (fst <$> rest)) []) && negb (xml_ncname_is_valid (join [46] (fst <$> rest)))
      then Err InvalidName
      else Ok (segs ++ [mkSegment kind
        (if text_is (join [46] (fst <$> rest)) [] then None else Some (join [46] (fst <$> rest)))])
    else if bool_decide (kind = KProps) then
      match rest with [(_, property)] => Ok (segs ++ [mkSegment kind (Some property)]) | _ => Err InvalidName end
    else if takes_name kind && negb (asks_dictionary rest) then
      match rest with
      | [] => Ok (segs ++ [mkSegment kind None])
      | (_, name) :: rest =>
          if name_refused kind segs name then Err InvalidName
          else parse_parts rest (segs ++ [mkSegment kind (Some name)])
      end
    else
      match rest with
      | (_, written) :: _ =>
          if is_err (node_kind_parse written) then Err ConfigurationRootOnly
          else parse_parts rest (segs ++ [mkSegment kind None])
      | [] => Ok (segs ++ [mkSegment kind None])
      end.
Proof. reflexivity. Qed.

Lemma parse_parts_extends parts owners r :
  parse_parts parts owners = Ok r → ∃ segs, r = owners ++ segs.
Proof.
  revert owners r. induction parts as [|[r1 u1]|[r1 u1] [r2 u2] rest IH1 IH2] using list_ind2; intros owners r.
  - intros [= <-]. exists []. by rewrite app_nil_r.
  - rewrite parse_parts_cons. destruct (node_kind_parse u1) as [k|]; [|done]. 
    destruct (bool_decide (k = KCan)); [destruct (_ && _); [done|]; intros [= <-]; by eexists|].
    destruct (bool_decide (k = KProps)); [done|]. intros Hp.
    assert (r = owners ++ [mkSegment k None]) as -> by (repeat case_match; congruence). by eexists.
  - rewrite parse_parts_cons. destruct (node_kind_parse u1) as [k|]; [|done].
    destruct (bool_decide (k = KCan)); [destruct (_ && _); [done|]; intros [= <-]; by eexists|].
    destruct (bool_decide (k = KProps)); [destruct rest; [|done]; intros [= <-]; by eexists|].
    destruct (takes_name k && negb _).
    + destruct (name_refused k owners u2); [done|]. intros [segs ->]%IH1.
      eexists. by rewrite <- (assoc_L (++)).
    + destruct (is_err _); [done|]. intros [segs ->]%IH2. eexists. by rewrite <- (assoc_L (++)).
Qed.

Lemma asks_dictionary_body rest :
  asks_dictionary rest = false → asks_dictionary (rest ++ [body_part]) = false.
Proof.
  destruct rest as [|[r1 u1] [|[r2 u2] rest]]; try done. intros _. cbn.
  rewrite andb_false_iff. right. vm_compute. reflexivity.
Qed.

Lemma parse_parts_body parts owners r :
  parse_parts parts owners = Ok r → forallb routable r = true →
  parse_parts (parts ++ [body_part]) owners = Ok (r ++ [body_segment]).
Proof.
  assert (Hlast : ∀ owners, parse_parts [body_part] owners = Ok (owners ++ [body_segment])) by (intros; reflexivity).
  revert owners r. induction parts as [|[r1 u1]|[r1 u1] [r2 u2] rest IH1 IH2] using list_ind2; intros owners r Hp Hr.
  - injection Hp as <-. apply Hlast.
  - exfalso. rewrite parse_parts_cons in Hp. destruct (node_kind_parse u1) as [k|]; [|done].
    destruct (bool_decide (k = KCan)) eqn:E1.
    { bool_prop. subst k. case_match; [done|]. injection Hp as <-. rewrite forallb_app in Hr.
      by rewrite andb_false_r in Hr || (apply andb_true_iff in Hr as [_ Hr]; vm_compute in Hr). }
    destruct (bool_decide (k = KProps)); [done|].
    assert (r = owners ++ [mkSegment k None]) as -> by (repeat case_match; congruence).
    rewrite forallb_app in Hr. apply andb_true_iff in Hr as [_ Hr]. discriminate.
  - cbn [app]. rewrite parse_parts_cons in Hp |- *. destruct (node_kind_parse u1) as [k|]; [|done].
    destruct (bool_decide (k = KCan)) eqn:E1.
    { exfalso. bool_prop. subst k. case_match; [done|]. injection Hp as <-. rewrite forallb_app in Hr.
      apply andb_true_iff in Hr as [_ Hr]. cbn in Hr. case_match; discriminate. }
    destruct (bool_decide (k = KProps)) eqn:E2.
    { exfalso. bool_prop. subst k. destruct rest; [|done]. injection Hp as <-. rewrite forallb_app in Hr.
      apply andb_true_iff in Hr as [_ Hr]. cbn in Hr. discriminate. }
    destruct (takes_name k && negb (asks_dictionary ((r2, u2) :: rest))) eqn:E3.
    + apply andb_true_iff in E3 as [Ht Ha%negb_true_iff].
      pose proof (asks_dictionary_body _ Ha) as Hb. cbn [app] in Hb. rewrite Ht, Hb. cbn [andb negb].
      destruct (name_refused k owners u2); [done|]. by apply IH1.
    + exfalso. destruct (is_err _); [done|]. apply parse_parts_extends in Hp as [segs ->].
      rewrite !forallb_app in Hr. apply andb_true_iff in Hr as [Hr _]. apply andb_true_iff in Hr as [_ Hr]. discriminate.
Qed.

Lemma routed_routable segs r : module_route_for_segments segs = Some r → forallb routable segs = true.
Proof.
  intros Hr. pose proof (module_route_kinds _ _ Hr) as Hk. apply forallb_forall. intros s Hs. unfold routable.
  rewrite (proj1 (List.Forall_forall _ _) Hk s Hs), andb_true_r.
  destruct segs as [|a [|b [|c [|d segs]]]]; cbn [module_route_for_segments] in Hr; try done.
  - destruct Hs as [<-|[]]. destruct (named a && _) eqn:E; [by apply andb_true_iff in E as [? _]|].
    destruct (kind_is KModule a); [|done]. unfold named. by destruct (s_name a).
  - destruct (_ && _) eqn:E; [|done]. bool_prop. by destruct Hs as [<-|[<-|[]]].
  - destruct (_ && _) eqn:E; [|done]. bool_prop. by destruct Hs as [<-|[<-|[<-|[]]]].
Qed.

Lemma split_once_app c t a b s : split_once c t = Some (a, b) → split_once c (t ++ s) = Some (a, b ++ s).
Proof. rewrite !split_once_Some. intros [-> H]. split; [|done]. by rewrite <- (assoc_L (++)). Qed.

Lemma routable_no_kind segs k : route_kind k = false → forallb routable segs = true → existsb (kind_is k) segs = false.
Proof.
  intros Hk Hs. apply not_true_iff_false. intros (s & Hin & Hs2)%existsb_exists.
  rewrite forallb_forall in Hs. apply Hs in Hin. unfold routable, kind_is in *. bool_prop. congruence.
Qed.

(** No terminal question and no metadata node: the checks after the loop
    pass with the body added. *)
Lemma finish_body set_name segs :
  segs ≠ [] → forallb routable segs = true →
  finish_address set_name (segs ++ [body_segment])
  = Ok (mkQualifiedAddress set_name (segs ++ [body_segment]) None).
Proof.
  intros Hne Hs. unfold finish_address.
  assert (insert_root (segs ++ [body_segment]) = segs ++ [body_segment]) as -> by (by destruct segs as [|s [|]]).
  rewrite existsb_app, (routable_no_kind _ KConfiguration) by done. cbn [existsb orb].
  rewrite andb_false_r. cbn [negb].
  assert (operation_query (mkQualifiedAddress set_name (segs ++ [body_segment]) None) = None) as ->.
  { unfold operation_query, split_last. cbn [segments source_set]. by rewrite last_opt_snoc. }
  cbn [segments]. rewrite existsb_app, (routable_no_kind _ KMetadata) by done. done.
Qed.

Lemma parse_plain_body raw a r :
  parse_plain raw = Ok a → module_route a = Some r →
  parse_plain (raw ++ lit ".Body") = Ok (mkQualifiedAddress (source_set a) (segments a ++ [body_segment]) None).
Proof.
  intros Hp Hr. pose proof (routed_routable _ _ Hr) as Hs. revert Hp. unfold parse_plain.
  destruct (split_once 58 raw) as [[set_name path]|] eqn:Es; [|done]. rewrite (split_once_app _ _ _ _ _ Es).
  destruct (text_is set_name [] || negb (xml_ncname_is_valid set_name)); [done|].
  destruct (text_is path []) eqn:Ep; [done|]. apply text_is_false in Ep.
  rewrite (proj2 (text_is_false (path ++ lit ".Body") [])) by (by destruct path).
  unfold split_segments. destruct (split_from [] [] path) as [parts|] eqn:Eparts; [|done].
  rewrite (split_from_body _ _ _ _ Eparts). rewrite existsb_app.
  destruct (existsb _ parts) eqn:Ee; [done|].
  destruct (parse_parts parts []) as [segs|] eqn:Esegs; [|done]. intros Hf.
  apply finish_address_inv in Hf as [-> _]. cbn [segments source_set] in *.
  assert (insert_root segs = segs) as Ei.
  { destruct segs as [|s [|]]; try done. cbn [insert_root] in *. destruct (kind_is KCan s); [|done].
    exfalso. cbn in Hs. done. }
  rewrite Ei in *. rewrite (parse_parts_body _ _ _ Esegs Hs). cbn [existsb].
  assert (text_is body_part.2 [] = false) as -> by (vm_compute; reflexivity).
  cbn [orb]. apply finish_body; [|done]. intros ->. cbn in Hr. done.
Qed.

Lemma parse_body raw a r :
  parse raw = Ok a → module_route a = Some r →
  parse (raw ++ lit ".Body") = Ok (mkQualifiedAddress (source_set a) (segments a ++ [body_segment]) None).
Proof.
  intros Hp Hr. destruct (routed_address _ _ _ Hp Hr) as (Hl & _ & _). rewrite parse_equation in Hp |- *.
  destruct (split_once 35 raw) as [[owner sel]|] eqn:Eh.
  - rewrite (split_once_app _ _ _ _ _ Eh). unfold select_lines in *.
    destruct (parse_plain owner) as [b|]; [|by eapply parse_plain_body].
    destruct (ends_in_body b); [|by eapply parse_plain_body].
    exfalso. destruct (is_some (line_range b)); [done|]. destruct (is_none _); [done|].
    destruct (line_range_parse sel); [|done]. by injection Hp as <-.
  - pose proof (parse_plain_body _ _ _ Hp Hr) as Hb.
    destruct (split_once 35 (raw ++ lit ".Body")) as [[owner sel]|] eqn:Eh2; [|done]. exfalso.
    apply split_once_None in Eh. assert (has_char 35 (raw ++ lit ".Body") = false) as E%split_once_None
      by (rewrite has_char_app, Eh; vm_compute; reflexivity). congruence.
Qed.

Lemma strip_suffix_Some t s u : strip_suffix t s = Some u → t = u ++ s.
Proof.
  unfold strip_suffix. destruct (starts_with (reverse t) (reverse s)) eqn:E; [|done]. intros [= <-].
  apply starts_with_true in E as [post E]. apply (f_equal reverse) in E.
  rewrite reverse_involutive, reverse_app, reverse_involutive in E. rewrite E, length_app.
  replace (length (reverse post) + length s - length s)%nat with (length (reverse post)) by lia.
  by rewrite take_app_length.
Qed.

(** A canonical document address is the display of its module, with the body. *)
Lemma canonical_body raw a module at_ r :
  parse raw = Ok a → display a = raw → strip_suffix raw (lit ".Body") = Some module →
  parse module = Ok at_ → module_route at_ = Some r → raw = display at_ ++ lit ".Body".
Proof.
  intros Ha Ed Hs%strip_suffix_Some Hm Hr. pose proof (parse_body _ _ _ Hm Hr) as Hb. rewrite <- Hs in Hb.
  assert (a = mkQualifiedAddress (source_set at_) (segments at_ ++ [body_segment]) None) as -> by congruence.
  rewrite <- Ed. destruct (routed_address _ _ _ Hm Hr) as (Hl & _ & _). unfold display, logical_path.
  cbn [source_set segments line_range]. rewrite Hl, !app_nil_r. unfold render_segments. rewrite bind_app.
  assert ([body_segment] ≫= render_segment = [lit "Body"]) as -> by (vm_compute; reflexivity).
  rewrite join_snoc; [by rewrite <- !(assoc_L (++))|].
  destruct (segments at_) as [|s segs] eqn:E; [by unfold module_route in Hr; rewrite E in Hr|].
  by rewrite bind_cons.
Qed.

(** A dot in the name of a directory is taken for one between the parts of an
    address: such a file has an address, which names no file. *)
Example dotted_name_misread :
  (λ r, match r with Ok id => Some (id_address id) | Err _ => None end)
    <$> platform_xml_module_identity (str "Catalogs/A.Form.B/Ext/ObjectModule.bsl")
  = Some (Some (str "Catalog.A.Form.B.ObjectModule"))
  ∧ platform_xml_module_relative (str "Catalog.A.Form.B.ObjectModule") = Some (Err UnsupportedModuleLayout).
Proof. vm_compute. split; reflexivity. Qed.
