(* ===== verification/DocumentOverlay.v ===== *)
(** * Open buffers of a workspace

    [crates/unica-workspace/src/documents.rs]: the buffers that editor
    sessions keep in a workspace actor, beside the files.  A key is compared
    as the source does, its path by components; the map keeps the path that
    was put first.  A poisoned lock is a flag. *)

From Stdlib Require Import ZArith Lia Ascii String.
From stdpp Require Import base countable option numbers list_basics list sorting gmap fin_map_dom.
From S2P Require Import Prelude Redaction AddressKinds ModuleRoutes Address Paths TextOrder.

Local Open Scope Z_scope.

Record DocumentText := mkDocumentText { dt_version : Z; dt_text : text }.
#[export] Instance DocumentText_eq_dec : EqDecision DocumentText.
Proof. solve_decision. Defined.

#[export] Instance Component_countable : Countable Component.
Proof.
  refine (inj_countable'
    (λ c, match c with RootDir => inl 0%nat | CurDir => inl 1%nat | ParentDir => inl 2%nat | Normal t => inr t end)
    (λ s, match s with inl 0%nat => RootDir | inl 1%nat => CurDir | inl _ => ParentDir | inr t => Normal t end) _).
  by intros [].
Defined.

(** [DocumentKey]: session, source set and the components of the path. *)
Record DocumentKey := mkDocumentKey { dk_session : text; dk_source_set : text; dk_relative : list Component }.
#[export] Instance DocumentKey_eq_dec : EqDecision DocumentKey.
Proof. solve_decision. Defined.
#[export] Instance DocumentKey_countable : Countable DocumentKey.
Proof.
  refine (inj_countable' (λ k, (dk_session k, dk_source_set k, dk_relative k))
    (λ p, mkDocumentKey p.1.1 p.1.2 p.2) _). by intros [].
Defined.

Inductive DocumentOverlayError :=
  | OverlayUnavailable
  | OverlayStaleVersion (current offered : Z)
  | OverlayNotOpen.

Record DocumentOverlay := mkOverlay {
  ov_poisoned : bool;
  ov_buffers : gmap DocumentKey (text * DocumentText) }.

(** [DocumentOverlay::default]. *)
Definition overlay_default : DocumentOverlay := mkOverlay false ∅.

(** [DocumentOverlay::key]. *)
Definition key (session source_set relative : text) : DocumentKey :=
  mkDocumentKey session source_set (components relative).

Definition with_buffers (ov : DocumentOverlay) (m : gmap DocumentKey (text * DocumentText)) : DocumentOverlay :=
  mkOverlay (ov_poisoned ov) m.

Definition put (ov : DocumentOverlay) (session source_set relative : text) (document : DocumentText)
    : DocumentOverlay * result unit DocumentOverlayError :=
  if ov_poisoned ov then (ov, Err OverlayUnavailable)
  else
    let k := key session source_set relative in
    match ov_buffers ov !! k with
    | Some (path, current) =>
        if dt_version document <=? dt_version current
        then (ov, Err (OverlayStaleVersion (dt_version current) (dt_version document)))
        else (with_buffers ov (<[k := (path, document)]> (ov_buffers ov)), Ok tt)
    | None => (with_buffers ov (<[k := (relative, document)]> (ov_buffers ov)), Ok tt)
    end.

Definition get (ov : DocumentOverlay) (session source_set relative : text)
    : result (option DocumentText) DocumentOverlayError :=
  if ov_poisoned ov then Err OverlayUnavailable
  else Ok (snd <$> ov_buffers ov !! key session source_set relative).

Definition remove (ov : DocumentOverlay) (session source_set relative : text)
    : DocumentOverlay * result DocumentText DocumentOverlayError :=
  if ov_poisoned ov then (ov, Err OverlayUnavailable)
  else
    let k := key session source_set relative in
    match ov_buffers ov !! k with
    | Some (_, document) => (with_buffers ov (delete k (ov_buffers ov)), Ok document)
    | None => (ov, Err OverlayNotOpen)
    end.

(** The number of buffers dropped. *)
Definition close_session (ov : DocumentOverlay) (session : text)
    : DocumentOverlay * result nat DocumentOverlayError :=
  if ov_poisoned ov then (ov, Err OverlayUnavailable)
  else
    let kept := filter (λ kb, dk_session kb.1 ≠ session) (ov_buffers ov) in
    (with_buffers ov kept, Ok (size (ov_buffers ov) - size kept)%nat).

(** [SessionDocuments]: what a read of a session overlays on the disk. *)
Definition SessionDocuments : Type := gmap (list Component) DocumentText.
Definition session_documents (ov : DocumentOverlay) (session source_set : text)
    : result SessionDocuments DocumentOverlayError :=
  if ov_poisoned ov then Err OverlayUnavailable
  else Ok (list_to_map ((λ kb, (dk_relative kb.1, kb.2.2))
             <$> filter (λ kb, dk_session kb.1 = session ∧ dk_source_set kb.1 = source_set)
                   (map_to_list (ov_buffers ov)))).
Definition session_document (docs : SessionDocuments) (relative : text) : option DocumentText :=
  docs !! components relative.

(** [Path::cmp]: by components, a name after the other components. *)
Definition component_compare (a b : Component) : comparison :=
  match a, b with
  | Normal s, Normal t => bytes_compare s t
  | _, _ =>
      let rank c := match c with RootDir => 0%nat | CurDir => 1%nat | ParentDir => 2%nat | Normal _ => 3%nat end in
      Nat.compare (rank a) (rank b)
  end.
Fixpoint path_compare (a b : list Component) : comparison :=
  match a, b with
  | [], [] => Eq
  | [], _ :: _ => Lt
  | _ :: _, [] => Gt
  | x :: a, y :: b => match component_compare x y with Eq => path_compare a b | c => c end
  end.
Definition open_le (a b : text * text) : Prop :=
  match bytes_compare a.1 b.1 with
  | Eq => path_compare (components a.2) (components b.2) ≠ Gt
  | c => c ≠ Gt
  end.
#[export] Instance open_le_dec : RelDecision open_le.
Proof.
  intros a b. unfold open_le. destruct (bytes_compare _ _); [destruct (path_compare _ _)|..]; solve_decision.
Defined.

(** The open files of every session in a source set, in order. *)
Definition open_in (ov : DocumentOverlay) (source_set : text) : result (list (text * text)) DocumentOverlayError :=
  if ov_poisoned ov then Err OverlayUnavailable
  else Ok (merge_sort open_le ((λ kb, (dk_session kb.1, kb.2.1))
             <$> filter (λ kb, dk_source_set kb.1 = source_set) (map_to_list (ov_buffers ov)))).

(** [DocumentOverlay::is_empty]: a poisoned registry is not. *)
Definition overlay_is_empty (ov : DocumentOverlay) : bool :=
  if ov_poisoned ov then false else bool_decide (ov_buffers ov = ∅).

Example overlay_sessions :
  let module := lit "CommonModules/A/Ext/Module.bsl" in
  let ov := fst (put overlay_default (lit "b") (lit "main") module (mkDocumentText 1 (lit "x"))) in
  let ov := fst (put ov (lit "a") (lit "main") module (mkDocumentText 1 (lit "y"))) in
  snd (put ov (lit "a") (lit "main") module (mkDocumentText 1 [])) = Err (OverlayStaleVersion 1 1)
  ∧ open_in ov (lit "main") = Ok [(lit "a", module); (lit "b", module)]
  ∧ snd (close_session ov (lit "a")) = Ok 1%nat
  ∧ get (fst (close_session ov (lit "a"))) (lit "b") (lit "main") module = Ok (Some (mkDocumentText 1 (lit "x"))).
Proof. vm_compute. repeat split; reflexivity. Qed.

(** ** What the operations do to one key *)

(** The buffer of a key. *)
Definition buffer (ov : DocumentOverlay) (k : DocumentKey) : option DocumentText := snd <$> ov_buffers ov !! k.

Definition may_put (ov : DocumentOverlay) (k : DocumentKey) (document : DocumentText) : Prop :=
  ov_poisoned ov = false ∧ ∀ current, buffer ov k = Some current → dt_version current < dt_version document.

Lemma put_spec ov session source_set relative document :
  let k := key session source_set relative in
  let '(ov', r) := put ov session source_set relative document in
  ov_poisoned ov' = ov_poisoned ov
  ∧ (r = Ok tt ∧ may_put ov k document ∧ (∀ j, buffer ov' j = if bool_decide (j = k) then Some document else buffer ov j)
     ∨ is_err r = true ∧ ov' = ov ∧ ¬ may_put ov k document).
Proof.
  cbn zeta. unfold put, may_put, buffer. destruct (ov_poisoned ov) eqn:Ep.
  { split; [done|]. right. split_and!; [done..|]. by intros [? _]. }
  set (k := key session source_set relative). destruct (ov_buffers ov !! k) as [[path current]|] eqn:Ek.
  - destruct (Z.leb_spec (dt_version document) (dt_version current)) as [Hle|Hlt].
    + split; [done|]. right. split_and!; [done..|]. intros [_ H]. specialize (H current eq_refl). lia.
    + split; [done|]. left. split_and!; [done..|by intros c [= <-]|]. intros j. cbn. case_bool_decide as Ej.
      * subst j. by rewrite lookup_insert_eq.
      * by rewrite lookup_insert_ne by done.
  - split; [done|]. left. split_and!; [done..|]. intros j. cbn. case_bool_decide as Ej.
    + subst j. by rewrite lookup_insert_eq.
    + by rewrite lookup_insert_ne by done.
Qed.

Lemma remove_spec ov session source_set relative :
  let k := key session source_set relative in
  let '(ov', r) := remove ov session source_set relative in
  ov_poisoned ov' = ov_poisoned ov
  ∧ ((∃ document, r = Ok document ∧ ov_poisoned ov = false ∧ buffer ov k = Some document)
       ∧ (∀ j, buffer ov' j = if bool_decide (j = k) then None else buffer ov j)
     ∨ is_err r = true ∧ ov' = ov ∧ (ov_poisoned ov = false → buffer ov k = None)).
Proof.
  cbn zeta. unfold remove, buffer. destruct (ov_poisoned ov) eqn:Ep; [by split; [|right]|].
  set (k := key session source_set relative). destruct (ov_buffers ov !! k) as [[path current]|] eqn:Ek.
  - split; [done|]. left. split; [by eexists|]. intros j. cbn. case_bool_decide as Ej.
    + subst j. by rewrite lookup_delete_eq.
    + by rewrite lookup_delete_ne by done.
  - split; [done|]. right. split_and!; [done..|]. intros _. reflexivity.
Qed.

Lemma close_session_spec ov session :
  let '(ov', r) := close_session ov session in
  ov_poisoned ov' = ov_poisoned ov
  ∧ ∀ j, buffer ov' j
         = if negb (ov_poisoned ov) && bool_decide (dk_session j = session) then None else buffer ov j.
Proof.
  unfold close_session, buffer. destruct (ov_poisoned ov) eqn:Ep; [done|]. split; [done|]. intros j. cbn.
  case_bool_decide as Ej.
  - rewrite map_lookup_filter_None_2; [done|]. right. intros [p d] _ H. by cbn in H.
  - destruct (ov_buffers ov !! j) as [[p d]|] eqn:Eb.
    + by rewrite (map_lookup_filter_Some_2 _ _ _ _ Eb).
    + by rewrite map_lookup_filter_None_2 by (by left).
Qed.

(** What a read of the session sees is what the session put. *)
Lemma session_documents_spec ov session source_set docs relative :
  session_documents ov session source_set = Ok docs →
  session_document docs relative = buffer ov (key session source_set relative).
Proof.
  unfold session_documents, session_document, buffer. destruct (ov_poisoned ov); [done|]. intros [= <-].
  set (l := filter _ _).
  assert (Hnd : NoDup ((λ kb : DocumentKey * (text * DocumentText), (dk_relative kb.1, kb.2.2)) <$> l).*1).
  { rewrite <- list_fmap_compose.
    assert (Hl : NoDup l) by (apply NoDup_filter, NoDup_map_to_list).
    assert (Hin : ∀ x, x ∈ l → dk_session x.1 = session ∧ dk_source_set x.1 = source_set
      ∧ ov_buffers ov !! x.1 = Some x.2).
    { intros [k b] [[Hs Hset] Hx%elem_of_map_to_list]%list_elem_of_filter. done. }
    clearbody l. induction Hl as [|x l Hx Hl IH]; [constructor|]. rewrite fmap_cons. apply NoDup_cons. split.
    - intros (y & Ey & Hy)%list_elem_of_fmap. cbn in Ey. apply Hx.
      destruct (Hin x) as (Sx & Tx & Bx); [by constructor|]. destruct (Hin y) as (Sy & Ty & By); [by constructor|].
      destruct x as [[s1 t1 r1] bx], y as [[s2 t2 r2] b2]. cbn in *. subst. by rewrite Bx in By; injection By as ->.
    - apply IH. intros y Hy. apply Hin. by constructor. }
  destruct (list_to_map _ !! components relative) as [d|] eqn:Ed.
  - apply elem_of_list_to_map in Ed; [|done]. apply list_elem_of_fmap in Ed as ([k [p b]] & E & Hk).
    apply list_elem_of_filter in Hk as [[Hs Hset] Hk%elem_of_map_to_list]. cbn [fst snd] in *.
    assert (key session source_set relative = k) as ->
      by (destruct k; cbn [dk_session dk_source_set dk_relative] in *; unfold key; congruence).
    rewrite Hk. cbn [fmap option_fmap option_map snd]. congruence.
  - apply not_elem_of_list_to_map in Ed. destruct (ov_buffers ov !! _) as [[p d]|] eqn:Eb; [|done].
    exfalso. apply Ed. rewrite <- list_fmap_compose. apply list_elem_of_fmap.
    exists (key session source_set relative, (p, d)). split; [done|].
    apply list_elem_of_filter. split; [done|]. by apply elem_of_map_to_list.
Qed.
