(* ===== verification/EditorText.v ===== *)
(** * The text of an open editor document

    [crates/unica-lsp/src/document.rs]: one buffer, its version and its line
    index; a change set of LSP content changes, whole or by range, is applied
    atomically.  [None] is a panic.  The reference edits the text between the
    characters that the positions name, without an index. *)

From Stdlib Require Import ZArith Lia.
From stdpp Require Import base option numbers list_basics list.
From S2P Require Import Prelude Redaction RedactionProps Position.

Local Open Scope Z_scope.

(** One LSP content change: the whole text, or a range and its replacement. *)
Inductive ContentChange :=
  | Full (whole : text)
  | Range (start end_ : Utf16Position) (replacement : text).

Inductive DocumentChangeError :=
  | StaleVersion (current offered : Z)
  | RangeError (e : PositionError)
  | ReversedRange.

Record OpenDocument := mkDocument { d_version : Z; d_text : text; d_lines : list nat }.

(** [OpenDocument::new]. *)
Definition document_new (version : Z) (t : text) : OpenDocument := mkDocument version t (line_index_new t).

(** [text.replace_range(from..to, replacement)]; off a boundary it panics. *)
Definition replace_range (t : text) (from to : nat) (replacement : text) : option text :=
  pre ← str_slice t 0 from;
  _ ← str_slice t from to;
  Some (pre ++ replacement ++ slice_from t to).

(** The loop of [OpenDocument::change]. *)
Fixpoint apply_changes (t : text) (lines : list nat) (changes : list ContentChange)
    : option (result (text * list nat) DocumentChangeError) :=
  match changes with
  | [] => Some (Ok (t, lines))
  | Full whole :: changes => apply_changes whole (line_index_new whole) changes
  | Range start end_ replacement :: changes =>
      from ← offset lines t start;
      match from with
      | Err e => Some (Err (RangeError e))
      | Ok from =>
          to ← offset lines t end_;
          match to with
          | Err e => Some (Err (RangeError e))
          | Ok to =>
              if (to <? from)%nat then Some (Err ReversedRange)
              else
                t ← replace_range t from to replacement;
                apply_changes t (line_index_new t) changes
          end
      end
  end.

(** [OpenDocument::change]: the document after it, and its answer. *)
Definition document_change (d : OpenDocument) (version : Z) (changes : list ContentChange)
    : option (OpenDocument * result unit DocumentChangeError) :=
  if version <=? d_version d then Some (d, Err (StaleVersion (d_version d) version))
  else
    done ← apply_changes (d_text d) (d_lines d) changes;
    match done with
    | Err e => Some (d, Err e)
    | Ok (t, lines) => Some (mkDocument version t lines, Ok tt)
    end.

(** The emoji takes two units; the second change reads the text of the first. *)
Example emoji_edit :
  document_change (document_new 1 [40; 128512; 32; 97; 98; 10]) 2
    [Range (mkUtf16Position 0 4) (mkUtf16Position 0 6) [99]; Range (mkUtf16Position 1 0) (mkUtf16Position 1 0) [100]]
  = Some (document_new 2 [40; 128512; 32; 99; 10; 100], Ok tt).
Proof. vm_compute. reflexivity. Qed.

(** ** The reference *)

(** The text before an LSP position: the lines before it, and the characters
    of its line that its UTF-16 units cover. *)
Definition text_before (t : text) (p : Utf16Position) : result text PositionError :=
  match Position.lines t !! Z.to_nat (line p) with
  | None => Err LineOutOfRange
  | Some (content, _) =>
      match column content (Z.to_nat (character p)) with
      | None => Err InsideSurrogatePair
      | Some q => Ok (before t (Z.to_nat (line p)) ++ q)
      end
  end.

(** One change of the reference: what is between the positions is replaced. *)
Definition edit (t : text) (c : ContentChange) : result text DocumentChangeError :=
  match c with
  | Full whole => Ok whole
  | Range start end_ replacement =>
      match text_before t start, text_before t end_ with
      | Err e, _ => Err (RangeError e)
      | Ok _, Err e => Err (RangeError e)
      | Ok a, Ok b =>
          if (length b <? length a)%nat then Err ReversedRange
          else Ok (a ++ replacement ++ drop (length b) t)
      end
  end.
Fixpoint edits (t : text) (changes : list ContentChange) : result text DocumentChangeError :=
  match changes with
  | [] => Ok t
  | c :: changes => let? t := edit t c in edits t changes
  end.

(** What every [String] and [u32] is. *)
Definition is_text (t : text) : Prop := Forall is_char t.
Definition position_ok (p : Utf16Position) : Prop := 0 ≤ line p ∧ 0 ≤ character p.
Definition change_ok (c : ContentChange) : Prop :=
  match c with Full t => is_text t | Range _ _ t => is_text t end.

(** ** The buffer against the reference *)

(** The text before a position is at the front of the text. *)
Lemma text_before_prefix t p a : text_before t p = Ok a → ∃ post, t = a ++ post.
Proof.
  unfold text_before. destruct (Position.lines t !! _) as [[content stop]|] eqn:Hk; [|done].
  destruct (column content _) as [q|] eqn:Hq; [|done]. intros [= <-].
  destruct (line_place t _ _ Hk) as (post & Et & _). destruct (column_prefix _ _ _ Hq) as (r & Er & _).
  exists (r ++ stop ++ post). rewrite Et at 1. unfold line_text. cbn [fst snd]. rewrite Er.
  by rewrite <- !(assoc_L (++)).
Qed.

Lemma offset_text_before t p :
  is_text t →
  offset (line_index_new t) t p
  = Some match text_before t p with Ok a => Ok (byte_len a) | Err e => Err e end.
Proof.
  intros Ht. rewrite offset_spec by done. unfold text_before.
  destruct (Position.lines t !! _) as [[content stop]|]; [|done]. by destruct (column content _).
Qed.

Lemma byte_len_le_length (x y a b : text) :
  x ++ y = a ++ b → (length a < length x)%nat ↔ (byte_len a < byte_len x)%nat.
Proof.
  intros E. destruct (app_eq_inv _ _ _ _ E) as [(k & -> & ->)|(k & -> & ->)];
    rewrite length_app, byte_len_app; [|lia].
  destruct k as [|c k]; [cbn; lia|]. rewrite byte_len_cons. pose proof (utf8_len_pos c). simpl. lia.
Qed.

Lemma str_slice_prefix a post : str_slice (a ++ post) 0 (byte_len a) = Some a.
Proof. apply (str_slice_app [] a post). Qed.

Lemma replace_range_spec t a b postA postB replacement :
  t = a ++ postA → t = b ++ postB → (byte_len a ≤ byte_len b)%nat →
  replace_range t (byte_len a) (byte_len b) replacement = Some (a ++ replacement ++ drop (length b) t).
Proof.
  intros Ea Eb Hle. unfold replace_range. rewrite Ea at 1. rewrite str_slice_prefix. cbn [mbind option_bind].
  rewrite Ea in Eb. destruct (cut_order a postA b postB Eb Hle) as (m & -> & ->).
  rewrite Ea, str_slice_app. cbn [mbind option_bind]. f_equal. f_equal. f_equal.
  rewrite (assoc_L (++)), slice_from_boundary. symmetry. apply drop_app_length.
Qed.

Lemma edit_text t c t' : is_text t → change_ok c → edit t c = Ok t' → is_text t'.
Proof.
  intros Ht Hc. destruct c as [whole|start end_ replacement]; cbn [edit]; [by intros [= <-]|].
  destruct (text_before t start) as [a|e] eqn:Ea; [|done].
  destruct (text_before t end_) as [b|e] eqn:Eb; [|done].
  destruct (_ <? _)%nat; [done|]. intros [= <-]. destruct (text_before_prefix _ _ _ Ea) as [post Et].
  unfold is_text in *. pose proof (Forall_drop _ (length b) _ Ht) as Hd.
  rewrite Et in Ht. apply Forall_app in Ht as [Ha _]. by rewrite !Forall_app.
Qed.

Lemma apply_changes_spec t changes :
  is_text t → Forall change_ok changes →
  apply_changes t (line_index_new t) changes
  = Some match edits t changes with Ok t' => Ok (t', line_index_new t') | Err e => Err e end.
Proof.
  intros Ht Hc. revert t Ht. induction Hc as [|c changes Hc _ IH]; intros t Ht; [done|].
  cbn [edits]. destruct (edit t c) as [t'|e] eqn:Ee.
  - pose proof (edit_text t c t' Ht Hc Ee) as Ht'.
    destruct c as [whole|start end_ replacement]; cbn [apply_changes edit] in *.
    { injection Ee as <-. by apply IH. }
    rewrite !offset_text_before by done. cbn [mbind option_bind].
    destruct (text_before t start) as [a|e] eqn:Ea; [|done].
    destruct (text_before t end_) as [b|e] eqn:Eb; [|done]. cbn [mbind option_bind].
    destruct (text_before_prefix _ _ _ Ea) as [postA EA]. destruct (text_before_prefix _ _ _ Eb) as [postB EB].
    destruct (Nat.ltb_spec (length b) (length a)) as [|Hle]; [done|]. injection Ee as <-.
    assert (Hb : ¬ (byte_len b < byte_len a)%nat).
    { rewrite <- (byte_len_le_length a postA b postB) by congruence. lia. }
    rewrite (proj2 (Nat.ltb_ge _ _)) by lia.
    rewrite (replace_range_spec t a b postA postB) by (done || lia). cbn [mbind option_bind]. by apply IH.
  - destruct c as [whole|start end_ replacement]; cbn [apply_changes edit] in *; [done|].
    rewrite !offset_text_before by done. cbn [mbind option_bind].
    destruct (text_before t start) as [a|e1] eqn:Ea; [|by injection Ee as <-].
    destruct (text_before t end_) as [b|e1] eqn:Eb; cbn [mbind option_bind]; [|by injection Ee as <-].
    destruct (text_before_prefix _ _ _ Ea) as [postA EA]. destruct (text_before_prefix _ _ _ Eb) as [postB EB].
    destruct (Nat.ltb_spec (length b) (length a)) as [Hlt|]; [|done]. injection Ee as <-.
    rewrite (proj2 (Nat.ltb_lt _ _)); [done|].
    by apply (byte_len_le_length a postA b postB); [congruence|].
Qed.

(** A buffer whose index is that of its text. *)
Definition document_ok (d : OpenDocument) : Prop :=
  is_text (d_text d) ∧ d_lines d = line_index_new (d_text d).

Lemma document_new_ok version t : is_text t → document_ok (document_new version t).
Proof. done. Qed.

Lemma edits_text t changes t' : is_text t → Forall change_ok changes → edits t changes = Ok t' → is_text t'.
Proof.
  intros Ht Hc. revert t Ht. induction Hc as [|c changes Hc _ IH]; intros t Ht; cbn [edits]; [by intros [= <-]|].
  destruct (edit t c) as [t1|e] eqn:E; [|done]. apply IH. by eapply edit_text.
Qed.

(** The buffer makes the edits of the reference, or none. *)
Lemma document_change_edits d version changes :
  document_ok d → Forall change_ok changes →
  document_change d version changes
  = Some (if version <=? d_version d then (d, Err (StaleVersion (d_version d) version))
          else match edits (d_text d) changes with
               | Ok t => (document_new version t, Ok tt)
               | Err e => (d, Err e)
               end).
Proof.
  intros [Ht Hl] Hc. unfold document_change. destruct (version <=? d_version d); [done|].
  rewrite Hl, apply_changes_spec by done. cbn [mbind option_bind].
  by destruct (edits (d_text d) changes).
Qed.

(** C21. A change set is applied atomically.  On a buffer whose index is that of
    its text, [change] never panics and ends with such a buffer: either it
    takes a newer version and the text that the edits, made one after another
    between the characters their positions name, give; or it leaves the
    buffer, for a version that does not move forward or with the error of the
    first edit that has no meaning. *)
Theorem document_change_atomic d version changes :
  document_ok d → Forall change_ok changes →
  ∃ d' r, document_change d version changes = Some (d', r) ∧ document_ok d' ∧
    match r with
    | Ok _ => d_version d < version ∧ d_version d' = version ∧ edits (d_text d) changes = Ok (d_text d')
    | Err e =>
        d' = d ∧ (version ≤ d_version d ∧ e = StaleVersion (d_version d) version
                  ∨ d_version d < version ∧ edits (d_text d) changes = Err e)
    end.
Proof.
  intros Hd Hc. rewrite document_change_edits by done.
  destruct (Z.leb_spec version (d_version d)); [do 2 eexists; (split; [done|]); split_and!; [done..|by left]|].
  destruct (edits (d_text d) changes) as [t|e] eqn:Ee; do 2 eexists; (split; [done|]).
  - split; [|done]. apply document_new_ok. by eapply edits_text; [apply Hd|..].
  - split_and!; [done..|by right].
Qed.

Lemma document_change_atomic_witness :
  let d := document_new 1 [40; 128512; 32; 97; 98; 10] in
  ∃ d', document_change d 2 [Range (mkUtf16Position 0 4) (mkUtf16Position 0 6) [99]] = Some (d', Ok tt)
    ∧ edits (d_text d) [Range (mkUtf16Position 0 4) (mkUtf16Position 0 6) [99]] = Ok (d_text d').
Proof.
  intros d.
  destruct (document_change_atomic d 2 [Range (mkUtf16Position 0 4) (mkUtf16Position 0 6) [99]]) as (d' & r & E & _ & Hr).
  - apply document_new_ok. repeat constructor; vm_compute; done.
  - repeat constructor; vm_compute; done.
  - exists d'. vm_compute in E. injection E as <- <-. split; [vm_compute; reflexivity|apply Hr].
Defined.
