(* ===== verification/EditorUri.v ===== *)
(** * Document addresses of an editor

    [crates/unica-lsp/src/uri.rs]: [unica://<space>/<source set>/<address>].
    A space names a workspace folder of the connection; an address is a
    logical address in its canonical spelling.  Text is its code points and a
    path its text.  Percent encoding, the Unicode lower case and SHA-256 are
    parameters, with what is used of them as laws.  Last, the round trip of a
    document's address. *)

From Stdlib Require Import ZArith Lia Ascii String.
From stdpp Require Import base countable option numbers list_basics list.
From S2P Require Import ReceiptLedger.
From S2P Require Import Prelude Redaction AddressKinds ModuleRoutes Address Position AddressFacts NavCursor.
From S2P Require Import Paths TextOrder RedactionProps AddressProps.

Local Open Scope Z_scope.

(** ** Spaces *)

Class UriLibs := {
  percent_encode : (Z → bool) → text → text;
  percent_decode : text → option text;
  to_lowercase : text → text;
  sha256 : list Z → list Z }.

(** The set encodes the percent sign: what it gives decodes to what it was
    given, and consists of percent signs, upper-case hexadecimal digits and
    ASCII characters outside the set.  Lower case is idempotent, beside
    characters that have no other case. *)
Class UriLaws `{UriLibs} := {
  percent_roundtrip : ∀ set t, set 37 = true → percent_decode (percent_encode set t) = Some t;
  percent_plain : ∀ set t c, c ∈ percent_encode set t →
    c = 37 ∨ 48 ≤ c ≤ 57 ∨ 65 ≤ c ≤ 70 ∨ 0 ≤ c < 128 ∧ set c = false;
  lowercase_stable : ∀ t s, Forall (λ c, 0 ≤ c < 128 ∧ ¬ 65 ≤ c ≤ 90) s →
    to_lowercase (to_lowercase t ++ s) = to_lowercase t ++ s;
  lowercase_nonempty : ∀ t, to_lowercase t = [] → t = [] }.

Section uri.
Context `{UriLibs}.

Record WorkspaceFolder := mkFolder { f_name : text; f_root : text }.
(** [SpaceRegistry]: the root of each space. *)
Definition SpaceRegistry : Type := BTreeMap text.
Record DocumentUri := mkUri { space : text; address : text }.
Inductive UriError := Malformed | ForeignSpace (space : text) | AddressError (e : AddressErrorCode).

Definition SCHEME : text := lit "unica".

(** [AsciiSet]: the C0 controls and DEL, and what [COMPONENT] adds. *)
Definition is_control (c : Z) : bool := (c <? 32) || (c =? 127).
Definition COMPONENT (c : Z) : bool :=
  is_control c || bool_decide (c ∈ lit " !#$%&'()*+,/:;<=>?@[\]^`{|}") || (c =? 34).

(** [str::trim]. *)
Fixpoint trim_start (t : text) : text :=
  match t with [] => [] | c :: t' => if is_whitespace c then trim_start t' else t end.
Definition str_trim (t : text) : text := reverse (trim_start (reverse (trim_start t))).

Definition space_name (folder : WorkspaceFolder) : text :=
  let name := str_trim (f_name folder) in
  if bool_decide (name = []) then
    to_lowercase (default (lit "workspace")
      (file_name (f_root folder) ≫= λ name, if bool_decide (name = []) then None else Some name))
  else to_lowercase name.

(** The first four bytes of the digest, as [{byte:02x}]. *)
Definition short_path_hash (root : text) : text :=
  take 4 (sha256 (as_bytes root)) ≫= hex_digits 2.

(** [*uses.entry(space_name(folder)).or_default() += 1] over the folders. *)
Definition uses (folders : list WorkspaceFolder) (name : text) : nat :=
  length (filter (λ f, space_name f = name) folders).

Definition folder_space (folders : list WorkspaceFolder) (folder : WorkspaceFolder) : text :=
  let name := space_name folder in
  if (1 <? uses folders name)%nat then name ++ lit "-" ++ short_path_hash (f_root folder) else name.

Definition from_folders (folders : list WorkspaceFolder) : SpaceRegistry :=
  fold_left (λ spaces folder, bt_or_insert (folder_space folders folder) (f_root folder) spaces) folders [].

Definition root (reg : SpaceRegistry) (sp : text) : option text := bt_get sp reg.
Definition contains_key (reg : SpaceRegistry) (sp : text) : bool := is_some (bt_get sp reg).

(** [find(|(_, known)| known == root)]. *)
Definition space_of_root (reg : SpaceRegistry) (r : text) : option text :=
  fst <$> List.find (λ entry, path_eq entry.2 r) reg.

(** ** Printing and reading *)

Definition format (reg : SpaceRegistry) (d : DocumentUri) : result text UriError :=
  if negb (contains_key reg (space d)) then Err (ForeignSpace (space d))
  else
    match parse (address d) with
    | Err e => Err (AddressError e)
    | Ok a =>
        match split_once 58 (display a) with
        | None => Err Malformed
        | Some (set, logical) =>
            Ok (SCHEME ++ lit "://" ++ percent_encode COMPONENT (space d) ++ lit "/"
                ++ percent_encode COMPONENT set ++ lit "/" ++ percent_encode COMPONENT logical)
        end
    end.

Definition parse_uri (reg : SpaceRegistry) (uri : text) : result DocumentUri UriError :=
  match strip_prefix uri SCHEME ≫= λ rest, strip_prefix rest (lit "://") with
  | None => Err Malformed
  | Some rest =>
      if has_char 63 rest || has_char 35 rest then Err Malformed
      else
        match split_char 47 rest with
        | [sp; set; logical] =>
            match percent_decode sp with
            | None => Err Malformed
            | Some sp =>
                match percent_decode set with
                | None => Err Malformed
                | Some set =>
                    match percent_decode logical with
                    | None => Err Malformed
                    | Some logical =>
                        if bool_decide (sp = []) || bool_decide (set = []) || bool_decide (logical = [])
                        then Err Malformed
                        else
                          let sp := to_lowercase sp in
                          if negb (contains_key reg sp) then Err (ForeignSpace sp)
                          else match parse (set ++ lit ":" ++ logical) with
                               | Err e => Err (AddressError e)
                               | Ok a => Ok (mkUri sp (display a))
                               end
                    end
                end
            end
        | _ => Err Malformed
        end
  end.
End uri.

#[export] Instance DocumentUri_eq_dec : EqDecision DocumentUri.
Proof. solve_decision. Defined.
#[export] Instance DocumentUri_countable : Countable DocumentUri.
Proof.
  refine (inj_countable' (λ d, (space d, address d)) (λ p, mkUri p.1 p.2) _). by intros [].
Defined.

(** ** Document addresses: theorems *)

(** ** Splitting *)

(** The printed address splits at its first colon, with text on both sides. *)
Lemma display_split raw a :
  parse raw = Ok a → split_once 58 (display a) = Some (source_set a, logical_path a)
    ∧ source_set a ≠ [] ∧ logical_path a ≠ [].
Proof.
  intros Hp. assert (H : xml_ncname_is_valid (source_set a) = true ∧ segments a ≠ []).
  { by apply parse_cases in Hp as [[]|(b & r & [] & _ & _ & _ & ->)]. }
  destruct H as [Hn Hs]. split_and!.
  - unfold display. apply split_once_Some. split; [done|]. by apply ncname_no; [lia|].
  - intros E. by rewrite E in Hn.
  - unfold logical_path. pose proof (render_nonempty (segments a) Hs) as Hr.
    by destruct (render_segments (segments a)).
Qed.

Section uri.
Context `{UriLaws}.

(** ** The spaces of the folders *)

Definition plain_ascii (c : Z) : Prop := 0 ≤ c < 128 ∧ ¬ 65 ≤ c ≤ 90.
Lemma hex_digits_plain_ascii n z : Forall plain_ascii (hex_digits n z).
Proof.
  revert z. induction n as [|n IH]; intros z; simpl; [constructor|].
  apply Forall_app. split; [done|]. constructor; [|constructor].
  pose proof (Z.mod_pos_bound z 16 ltac:(lia)). unfold plain_ascii, hex_digit.
  destruct (Z.ltb_spec (z mod 16) 10); lia.
Qed.

Definition space_ok (sp : text) : Prop := sp ≠ [] ∧ to_lowercase sp = sp.

Lemma space_name_lower folder : ∃ t, space_name folder = to_lowercase t ∧ t ≠ [].
Proof.
  unfold space_name. case_bool_decide as E; [|by eexists]. eexists. split; [reflexivity|].
  destruct (file_name _) as [n|]; simpl; [|done]. by case_bool_decide.
Qed.
Lemma folder_space_ok folders folder : space_ok (folder_space folders folder).
Proof.
  destruct (space_name_lower folder) as (t & Et & Hne). unfold folder_space. rewrite Et.
  assert (Hnil : to_lowercase t ≠ []) by (intros E%lowercase_nonempty; done).
  destruct (1 <? _)%nat.
  - split; [by destruct (to_lowercase t)|]. apply lowercase_stable.
    apply Forall_app. split; [change (lit "-") with [45]; constructor; [unfold plain_ascii; lia|constructor]|].
    unfold short_path_hash. apply Forall_bind. apply List.Forall_forall. intros b _. apply hex_digits_plain_ascii.
  - split; [done|]. pose proof (lowercase_stable t []) as E. rewrite app_nil_r in E. by apply E.
Qed.

Lemma from_folders_ok folders :
  bt_ok (from_folders folders)
  ∧ ∀ sp r, bt_get sp (from_folders folders) = Some r →
      space_ok sp ∧ ∃ f, f ∈ folders ∧ sp = folder_space folders f ∧ r = f_root f.
Proof.
  unfold from_folders.
  enough (Hgen : ∀ done rest reg, folders = done ++ rest → bt_ok reg →
    (∀ sp r, bt_get sp reg = Some r → space_ok sp ∧ ∃ f, f ∈ folders ∧ sp = folder_space folders f ∧ r = f_root f) →
    let reg' := fold_left (λ spaces folder, bt_or_insert (folder_space folders folder) (f_root folder) spaces) rest reg in
    bt_ok reg' ∧ ∀ sp r, bt_get sp reg' = Some r →
      space_ok sp ∧ ∃ f, f ∈ folders ∧ sp = folder_space folders f ∧ r = f_root f)
    by (apply (Hgen [] folders []); [done|constructor|done]).
  intros seen rest. revert seen. induction rest as [|f rest IH]; intros seen reg E Hok Hget; [done|].
  cbn [fold_left]. apply (IH (seen ++ [f])); [by rewrite <- (assoc_L (++))|by apply bt_or_insert_ok|].
  intros sp r. rewrite bt_get_or_insert by done. case_bool_decide as Es; [|apply Hget].
  intros [= <-]. destruct (bt_get sp reg) as [r0|] eqn:Er; simpl; [by apply Hget|].
  subst sp. split; [apply folder_space_ok|]. exists f. split; [|done]. rewrite E, elem_of_app. right. by constructor.
Qed.

(** Every folder's space is known. *)
Lemma known_space folders f :
  f ∈ folders → is_Some (root (from_folders folders) (folder_space folders f)).
Proof.
  unfold root, from_folders. intros Hin.
  enough (Hgen : ∀ rest reg, bt_ok reg → f ∈ rest ∨ is_Some (bt_get (folder_space folders f) reg) →
    is_Some (bt_get (folder_space folders f)
      (fold_left (λ spaces folder, bt_or_insert (folder_space folders folder) (f_root folder) spaces) rest reg)))
    by (apply Hgen; [constructor|by left]).
  intros rest. induction rest as [|g rest IH]; intros reg Hok Hcase; cbn [fold_left].
  { destruct Hcase as [Hf|Hf]; [by apply elem_of_nil in Hf|done]. }
  apply IH; [by apply bt_or_insert_ok|]. rewrite bt_get_or_insert by done.
  destruct Hcase as [[->|Hf]%elem_of_cons|Hf]; [right|by left|right].
  - rewrite bool_decide_eq_true_2 by done. by destruct (bt_get _ reg).
  - case_bool_decide; [by destruct (bt_get _ reg)|done].
Qed.

(** A folder whose space is no other folder's has it. *)
Lemma own_space folders f :
  f ∈ folders →
  (∀ g, g ∈ folders → folder_space folders g = folder_space folders f → f_root g = f_root f) →
  root (from_folders folders) (folder_space folders f) = Some (f_root f).
Proof.
  intros Hin Hown. destruct (known_space folders f Hin) as [r Hr]. rewrite Hr.
  destruct (from_folders_ok folders) as [_ Hget]. destruct (Hget _ _ Hr) as (_ & g & Hg & Es & ->).
  f_equal. by apply Hown.
Qed.

(** ** Printing and reading *)

Lemma encoded_free (c : Z) t :
  COMPONENT c = true → c ≠ 37 → ¬ 48 ≤ c ≤ 57 → ¬ 65 ≤ c ≤ 70 → c ∉ percent_encode COMPONENT t.
Proof. intros Hc H1 H2 H3 Hin. apply percent_plain in Hin. intuition congruence. Qed.
Lemma encoded_no_slash t : 47 ∉ percent_encode COMPONENT t.
Proof. apply encoded_free; [reflexivity|lia..]. Qed.

Lemma format_read reg d uri :
  (∀ sp r, bt_get sp reg = Some r → space_ok sp) → format reg d = Ok uri →
  ∃ a, parse (address d) = Ok a ∧ parse_uri reg uri = Ok (mkUri (space d) (display a)).
Proof.
  intros Hreg. unfold format. destruct (negb _) eqn:Ek; [done|]. apply negb_false_iff in Ek.
  destruct (parse (address d)) as [a|e] eqn:Ea; [|done].
  destruct (display_split _ _ Ea) as (Es & Hset & Hlog). rewrite Es. intros Huri.
  exists a. split; [done|]. unfold contains_key in Ek. apply is_some_true in Ek as [r Hr].
  destruct (Hreg _ _ Hr) as [Hne Hlow]. unfold parse_uri.
  set (sp := percent_encode COMPONENT (space d)) in *. set (st := percent_encode COMPONENT (source_set a)) in *.
  set (lg := percent_encode COMPONENT (logical_path a)) in *.
  assert (uri = SCHEME ++ lit "://" ++ sp ++ lit "/" ++ st ++ lit "/" ++ lg) as -> by congruence.
  rewrite strip_prefix_app. cbn [mbind option_bind]. rewrite strip_prefix_app.
  assert (Hfree : ∀ c, COMPONENT c = true → c ≠ 37 → ¬ 48 ≤ c ≤ 57 → ¬ 65 ≤ c ≤ 70 → c ≠ 47 →
    has_char c (sp ++ lit "/" ++ st ++ lit "/" ++ lg) = false).
  { intros c Hc H1 H2 H3 H4. apply has_char_false. rewrite !elem_of_app. change (lit "/") with [47].
    rewrite !list_elem_of_singleton. pose proof (λ t, encoded_free c t Hc H1 H2 H3) as Hn. naive_solver. }
  rewrite !Hfree by (reflexivity || lia). cbn [orb]. change (lit "/") with [47]. cbn [app].
  rewrite !split_char_app by apply encoded_no_slash. rewrite split_char_plain by apply encoded_no_slash.
  unfold sp, st, lg. rewrite !percent_roundtrip by reflexivity.
  rewrite !bool_decide_eq_false_2 by done. cbn [orb]. rewrite Hlow. unfold contains_key. rewrite Hr. cbn [is_some negb].
  change (source_set a ++ lit ":" ++ logical_path a) with (display a).
  by rewrite (printed_reads_back _ _ Ea).
Qed.

Lemma read_format reg d uri :
  parse_uri reg uri = Ok d →
  is_Some (root reg (space d)) ∧ (∃ a, parse (address d) = Ok a ∧ display a = address d)
  ∧ ∃ uri', format reg d = Ok uri'.
Proof.
  unfold parse_uri. destruct (_ ≫= _) as [rest|]; [|done]. destruct (_ || _); [done|].
  destruct (split_char 47 rest) as [|sp [|set [|logical [|]]]]; try done.
  destruct (percent_decode sp) as [sp'|]; [|done]. destruct (percent_decode set) as [set'|]; [|done].
  destruct (percent_decode logical) as [logical'|]; [|done]. destruct (_ || _); [done|].
  destruct (negb _) eqn:Ek; [done|]. apply negb_false_iff in Ek.
  destruct (parse _) as [a|e] eqn:Ea; [|done]. intros [= <-]. cbn [space address].
  pose proof (printed_reads_back _ _ Ea) as Hp. unfold format. cbn [space address].
  rewrite Ek, Hp. cbn [negb]. destruct (display_split _ _ Hp) as (-> & _). unfold contains_key in Ek.
  apply is_some_true in Ek as [r Hr]. split; [by exists r|]. split; [by exists a|by eexists].
Qed.
End uri.

(** C22. A document address is read as it was printed, and spaces never mix.
    A folder is reached by its space unless a folder with another root has the
    same one, whatever the rest of the connection.  Reading what was printed
    gives the space and the canonical spelling of the address; what is read
    names a folder of the connection by a canonical address, and printing it
    gives a text that reads back as the same document; two documents that
    print alike are one document. *)
Theorem document_uri_roundtrip `{UriLaws} folders :
  let reg := from_folders folders in
  (∀ f, f ∈ folders →
     (∀ g, g ∈ folders → folder_space folders g = folder_space folders f → f_root g = f_root f) →
     root reg (folder_space folders f) = Some (f_root f))
  ∧ (∀ d uri, format reg d = Ok uri →
       ∃ a, parse (address d) = Ok a ∧ parse_uri reg uri = Ok (mkUri (space d) (display a)))
  ∧ (∀ uri d, parse_uri reg uri = Ok d →
       (∃ f, f ∈ folders ∧ space d = folder_space folders f ∧ is_Some (root reg (space d)))
       ∧ (∃ a, parse (address d) = Ok a ∧ display a = address d)
       ∧ ∃ uri', format reg d = Ok uri' ∧ parse_uri reg uri' = Ok d)
  ∧ (∀ d1 d2 uri, format reg d1 = Ok uri → format reg d2 = Ok uri →
       space d1 = space d2 ∧ parse (address d1) = parse (address d2)).
Proof.
  intros reg. pose proof (from_folders_ok folders) as [Hok Hget]. fold reg in Hok, Hget.
  assert (Hsp : ∀ sp r, bt_get sp reg = Some r → space_ok sp) by (intros sp r Hr; by apply Hget in Hr as [? _]).
  split; [intros f Hf Hown; by apply own_space|]. split; [intros d uri Hf; by apply format_read|]. split.
  - intros uri d Hp. destruct (read_format reg d uri Hp) as ([r Hr] & (a & Ea & Ed) & uri' & Hf).
    destruct (Hget _ _ Hr) as (_ & f & Hin & Es & _).
    split; [by exists f|]. split; [by exists a|]. exists uri'. split; [done|].
    destruct (format_read reg d uri' Hsp Hf) as (a' & Ea' & ->).
    assert (a' = a) as -> by congruence. rewrite Ed. by destruct d.
  - intros d1 d2 uri Hf1 Hf2. destruct (format_read reg d1 uri Hsp Hf1) as (a1 & E1 & P1).
    destruct (format_read reg d2 uri Hsp Hf2) as (a2 & E2 & P2). rewrite P1 in P2. injection P2 as -> Ed.
    split; [done|]. rewrite E1, E2. apply printed_reads_back in E1, E2. congruence.
Qed.

(** ** A witness *)

(** A percent encoding that writes a code in unary, and the lower case of
    ASCII. *)
Inductive DecodeMode := Plain | Sign | Count (negative : bool) (n : Z).
Fixpoint sample_decode (mode : DecodeMode) (t : text) : option text :=
  match t with
  | [] => match mode with Plain => Some [] | _ => None end
  | c :: t =>
      match mode with
      | Plain => if c =? 37 then sample_decode Sign t else cons c <$> sample_decode Plain t
      | Sign => sample_decode (Count (c =? 49) 0) t
      | Count negative n =>
          if c =? 49 then sample_decode (Count negative (n + 1)) t
          else cons (if negative then - n else n) <$> sample_decode Plain t
      end
  end.
Definition sample_code (set : Z → bool) (c : Z) : text :=
  if in_range 0 127 c && negb (set c) then [c]
  else 37 :: (if c <? 0 then 49 else 48) :: replicate (Z.to_nat (Z.abs c)) 49 ++ [48].

Lemma sample_decode_count neg n k t :
  sample_decode (Count neg n) (replicate k 49 ++ 48 :: t)
  = cons (if neg : bool then - (n + Z.of_nat k) else n + Z.of_nat k) <$> sample_decode Plain t.
Proof.
  revert n. induction k as [|k IH]; intros n; [cbn; by rewrite Z.add_0_r|].
  change (sample_decode (Count neg (n + 1)) (replicate k 49 ++ 48 :: t) = cons (if neg then - (n + Z.of_nat (S k)) else n + Z.of_nat (S k)) <$> sample_decode Plain t).
  rewrite IH. by replace (n + 1 + Z.of_nat k) with (n + Z.of_nat (S k)) by lia.
Qed.
Lemma sample_roundtrip set t :
  set 37 = true → sample_decode Plain (t ≫= sample_code set) = Some t.
Proof.
  intros Hset. induction t as [|c t IH]; [done|]. rewrite bind_cons. unfold sample_code at 1.
  destruct (in_range 0 127 c && negb (set c)) eqn:E.
  - apply andb_true_iff in E as [_ E%negb_true_iff]. cbn [app sample_decode].
    rewrite (proj2 (Z.eqb_neq c 37)) by (intros ->; congruence). by rewrite IH.
  - cbn [app sample_decode]. rewrite Z.eqb_refl, <- (assoc_L (++)). cbn [app].
    rewrite sample_decode_count, IH. cbn [fmap option_fmap option_map]. f_equal. f_equal.
    destruct (Z.ltb_spec c 0); cbn; lia.
Qed.

#[local] Instance sample_libs : UriLibs := {|
  percent_encode set t := t ≫= sample_code set;
  percent_decode := sample_decode Plain;
  to_lowercase := lower;
  sha256 _ := replicate 32 7 |}.
#[local] Instance sample_laws : UriLaws.
Proof.
  split.
  - intros set t. apply sample_roundtrip.
  - intros set t c Hin. cbn in Hin. apply list_elem_of_bind in Hin as (x & Hc & _). unfold sample_code in Hc.
    destruct (in_range 0 127 x && negb (set x)) eqn:E.
    + apply list_elem_of_singleton in Hc as ->. apply andb_true_iff in E as [E1 E2%negb_true_iff].
      unfold in_range in E1. bool_prop. right. right. right. split; [lia|done].
    + rewrite !elem_of_cons, elem_of_app, list_elem_of_singleton, elem_of_replicate in Hc.
      destruct (x <? 0); lia.
  - intros t s Hs. cbn. unfold lower. rewrite fmap_app. f_equal.
    + rewrite <- list_fmap_compose. apply list_fmap_ext. intros _ c _. cbn. unfold to_ascii_lowercase, in_range.
      repeat case_match; bool_prop; lia.
    + rewrite <- (list_fmap_id s) at 2. apply Forall_fmap_ext_1. eapply List.Forall_impl; [|exact Hs].
      intros c [_ Hc]. cbn. unfold to_ascii_lowercase, in_range. case_match; [bool_prop; lia|done].
  - intros t. cbn. unfold lower. apply fmap_nil_inv.
Qed.

Definition sample_folders : list WorkspaceFolder :=
  [mkFolder (str " УТ Проект") (str "/work/ut"); mkFolder [] (str "/work/bp")].

Lemma document_uri_roundtrip_witness :
  let reg := from_folders sample_folders in
  let d := mkUri (str "bp") (str "main:ОбщийМодуль.Can") in
  ∃ uri a, format reg d = Ok uri ∧ parse (address d) = Ok a
    ∧ parse_uri reg uri = Ok (mkUri (str "bp") (display a)).
Proof.
  intros reg d. destruct (document_uri_roundtrip sample_folders) as (_ & Hread & _).
  destruct (format reg d) as [uri|e] eqn:E; [|vm_compute in E; discriminate].
  destruct (Hread d uri E) as (a & Ha & Hp). exists uri, a. done.
Defined.
