(* ===== verification/EditorDocuments.v ===== *)
(** * Editor documents of one connection

    [crates/unica-lsp/src/documents.rs]: the buffers that the editor of a
    connection opened, each mirrored into the overlay of the workspace actor.
    Operations give the documents and the overlay after them, also when they
    refuse.  [None] is a panic.  Resolving links is a parameter, and so is the
    read of a file; a source set has the one platform profile there is. *)

From Stdlib Require Import ZArith Lia Ascii String.
From stdpp Require Import base countable option numbers list_basics list sorting gmap fin_map_dom.
From S2P Require Import Prelude Redaction AddressKinds ModuleRoutes Address AddressFacts SourceTarget.
From S2P Require Import Paths SourceLayout ModuleLayout.
From S2P Require Import TextOrder DocumentOverlay Position EditorText EditorUri.

Local Open Scope Z_scope.

(** [Path::canonicalize]. *)
Class HostFs := { canonicalize : text → option text }.

(** [host_path_relative_to] and [same_host_path] of
    [crates/unica-workspace/src/platform/filesystem.rs], on Unix. *)
Fixpoint components_below (path root : list Component) : option (list Component) :=
  match root, path with
  | [], below => Some below
  | expected :: root, c :: path => if decide (c = expected) then components_below path root else None
  | _ :: _, [] => None
  end.
Definition host_path_relative_to (path root : text) : option (list Component) :=
  relative ← components_below (components path) (components root);
  if existsb (λ c, bool_decide (c = ParentDir)) relative then None else Some relative.
Definition same_host_path (left right : text) : bool :=
  is_some_and (λ relative, bool_decide (relative = [])) (host_path_relative_to left right).

Record SourceSetLayout := mkSetLayout { sl_name : text; sl_kind : SourceSetKind; sl_root : text }.
#[export] Instance SourceSetLayout_eq_dec : EqDecision SourceSetLayout.
Proof. solve_decision. Defined.
Record SpaceLayout := mkSpaceLayout { spl_folder : WorkspaceFolder; spl_source_sets : list SourceSetLayout }.

(** Where a document lives: its space, source set and module file. *)
Record DocumentLocation := mkLocation { loc_document : DocumentUri; loc_source_set : text; loc_relative : text }.
#[export] Instance DocumentLocation_eq_dec : EqDecision DocumentLocation.
Proof. solve_decision. Defined.
Record OpenBuffer := mkBuffer { ob_location : DocumentLocation; ob_document : OpenDocument }.

Inductive LspDocumentError {ViewError : Type} :=
  | LUri (e : UriError)
  | LNotAModule
  | LUnknownSourceSet (name : text)
  | LNotOpen
  | LChange (e : DocumentChangeError)
  | LOverlay (e : DocumentOverlayError)
  | LRead (e : ViewError).
Arguments LspDocumentError : clear implicits.

(** [ModuleSourceRead]: a read of one source set. *)
Record ModuleSourceRead {ViewError : Type} := mkRead {
  rd_source_set : text; rd_root_path : text;
  rd_module_source : text → result (option text) ViewError }.
Arguments ModuleSourceRead : clear implicits.

Record LspDocuments := mkDocuments {
  ld_session : text;
  ld_spaces : SpaceRegistry;
  ld_source_sets : gmap text (list SourceSetLayout);
  ld_open : gmap DocumentUri OpenBuffer }.
Definition with_open (d : LspDocuments) (m : gmap DocumentUri OpenBuffer) : LspDocuments :=
  mkDocuments (ld_session d) (ld_spaces d) (ld_source_sets d) m.

(** The order of [BTreeMap<DocumentUri, _>]. *)
Definition uri_le (a b : DocumentUri * OpenBuffer) : Prop :=
  match bytes_compare (space a.1) (space b.1) with
  | Eq => bytes_compare (address a.1) (address b.1) ≠ Gt
  | c => c ≠ Gt
  end.
#[export] Instance uri_le_dec : RelDecision uri_le.
Proof.
  intros a b. unfold uri_le. destruct (bytes_compare (space a.1) _); [destruct (bytes_compare _ _)|..]; solve_decision.
Defined.

Section documents.
Context `{UriLibs} `{HostFs} {ViewError : Type}.
#[local] Notation Error := (LspDocumentError ViewError).

(** [canonical]. *)
Definition canonical (path : text) : text := default path (canonicalize path).
Definition canonical_set (set : SourceSetLayout) : SourceSetLayout :=
  mkSetLayout (sl_name set) (sl_kind set) (canonical (sl_root set)).

Definition documents_new (session : text) (layouts : list SpaceLayout) : LspDocuments :=
  let spaces := from_folders (spl_folder <$> layouts) in
  mkDocuments session spaces
    (fold_left (λ sets layout,
       match space_of_root spaces (f_root (spl_folder layout)) with
       | Some sp =>
           match sets !! sp with
           | Some _ => sets
           | None => <[sp := canonical_set <$> spl_source_sets layout]> sets
           end
       | None => sets
       end) layouts ∅)
    ∅.

(** [replace_source_sets]: a document of a set that is gone is no longer open. *)
Definition replace_source_sets (d : LspDocuments) (sp : text) (sets : list SourceSetLayout) : LspDocuments :=
  let sets := canonical_set <$> sets in
  mkDocuments (ld_session d) (ld_spaces d) (<[sp := sets]> (ld_source_sets d))
    (filter (λ db, space (loc_document (ob_location db.2)) ≠ sp
                   ∨ existsb (λ set, bool_decide (sl_name set = loc_source_set (ob_location db.2))) sets = true)
       (ld_open d)).

(** ** Addresses and files *)

(** [module_of_body]. *)
Definition module_of_body (document : DocumentUri) : result QualifiedAddress Error :=
  match strip_suffix (address document) (lit ".Body") with
  | None => Err LNotAModule
  | Some module => match parse module with Ok a => Ok a | Err e => Err (LUri (AddressError e)) end
  end.

(** [module_target] and [module_file]. *)
Definition module_target (at_ : QualifiedAddress) : option text :=
  capability ← module_capability at_;
  match module_source_address at_ (mr_owner_kind capability) (mr_role capability) (mr_route_kind capability) with
  | Ok target => Some target
  | Err _ => None
  end.
Definition module_file (at_ : QualifiedAddress) (layout : SourceSetLayout) : option (option text) :=
  match module_target at_ with
  | None => Some None
  | Some target =>
      (λ r, match r with Ok path => Some path | Err _ => None end) <$> module_relative target (sl_kind layout)
  end.

(** [LspDocuments::source_set]. *)
Definition set_layout (d : LspDocuments) (sp name : text) : option SourceSetLayout :=
  sets ← ld_source_sets d !! sp; List.find (λ set, bool_decide (sl_name set = name)) sets.
Definition find_source_set (d : LspDocuments) (sp name : text) : result SourceSetLayout Error :=
  ok_or (set_layout d sp name) (LUnknownSourceSet name).

Definition locate (d : LspDocuments) (uri : text) : option (result DocumentLocation Error) :=
  match parse_uri (ld_spaces d) uri with
  | Err e => Some (Err (LUri e))
  | Ok document =>
      match module_of_body document with
      | Err e => Some (Err e)
      | Ok at_ =>
          match find_source_set d (space document) (source_set at_) with
          | Err e => Some (Err e)
          | Ok layout =>
              file ← module_file at_ layout;
              Some (let? relative := ok_or file LNotAModule in
                    Ok (mkLocation document (sl_name layout) relative))
          end
      end
  end.

(** ** Notifications *)

Definition mirror (d : LspDocuments) (ov : DocumentOverlay) (location : DocumentLocation) (document : OpenDocument)
    : DocumentOverlay * result unit Error :=
  let '(ov, put) := put ov (ld_session d) (loc_source_set location) (loc_relative location)
                      (mkDocumentText (d_version document) (d_text document)) in
  (ov, match put with Ok _ => Ok tt | Err e => Err (LOverlay e) end).

(** An operation's outcome: the documents, the overlay and the answer. *)
Definition outcome : Type := LspDocuments * DocumentOverlay * result DocumentLocation Error.

Definition with_location (d : LspDocuments) (ov : DocumentOverlay) (uri : text)
    (k : DocumentLocation → option outcome) : option outcome :=
  located ← locate d uri;
  match located with Err e => Some (d, ov, Err e) | Ok location => k location end.

(** [LspDocuments::open]. *)
Definition doc_open (d : LspDocuments) (ov : DocumentOverlay) (uri : text) (version : Z) (t : text) : option outcome :=
  with_location d ov uri (λ location,
    let was_open := ld_open d !! loc_document location in
    let d := with_open d (delete (loc_document location) (ld_open d)) in
    let '(ov, removed) :=
      match was_open with
      | Some _ =>
          let '(ov, r) := remove ov (ld_session d) (loc_source_set location) (loc_relative location) in
          (ov, match r with Ok _ => Ok tt | Err e => Err (LOverlay e) end)
      | None => (ov, Ok tt)
      end in
    match removed with
    | Err e => Some (d, ov, Err e)
    | Ok _ =>
        let document := document_new version t in
        let '(ov, mirrored) := mirror d ov location document in
        Some match mirrored with
             | Err e => (d, ov, Err e)
             | Ok _ => (with_open d (<[loc_document location := mkBuffer location document]> (ld_open d)), ov, Ok location)
             end
    end).

(** [LspDocuments::change]. *)
Definition doc_change (d : LspDocuments) (ov : DocumentOverlay) (uri : text) (version : Z)
    (changes : list ContentChange) : option outcome :=
  with_location d ov uri (λ location,
    match ld_open d !! loc_document location with
    | None => Some (d, ov, Err LNotOpen)
    | Some buffer =>
        changed ← document_change (ob_document buffer) version changes;
        match changed with
        | (_, Err e) => Some (d, ov, Err (LChange e))
        | (document, Ok _) =>
            let '(ov, mirrored) := mirror d ov location document in
            Some match mirrored with
                 | Err e => (d, ov, Err e)
                 | Ok _ => (with_open d (<[loc_document location := mkBuffer (ob_location buffer) document]> (ld_open d)),
                            ov, Ok location)
                 end
        end
    end).

(** [LspDocuments::close]. *)
Definition doc_close (d : LspDocuments) (ov : DocumentOverlay) (uri : text) : option outcome :=
  with_location d ov uri (λ location,
    match ld_open d !! loc_document location with
    | None => Some (d, ov, Err LNotOpen)
    | Some _ =>
        let d := with_open d (delete (loc_document location) (ld_open d)) in
        let '(ov, r) := remove ov (ld_session d) (loc_source_set location) (loc_relative location) in
        Some (d, ov, match r with Ok _ => Ok location | Err e => Err (LOverlay e) end)
    end).

(** ** Answers *)

Definition open_document (d : LspDocuments) (document : DocumentUri) : option OpenDocument :=
  ob_document <$> ld_open d !! document.

(** [LspDocuments::content]: the buffer, otherwise the file. *)
Definition content (d : LspDocuments) (uri : text) (read : ModuleSourceRead ViewError)
    : option (result (option text) Error) :=
  located ← locate d uri;
  Some match located with
       | Err e => Err e
       | Ok location =>
           match ld_open d !! loc_document location with
           | Some buffer => Ok (Some (d_text (ob_document buffer)))
           | None =>
               let? layout := find_source_set d (space (loc_document location)) (loc_source_set location) in
               if negb (bool_decide (rd_source_set read = loc_source_set location))
                  || negb (same_host_path (canonical (rd_root_path read)) (sl_root layout))
               then Err (LUnknownSourceSet (loc_source_set location))
               else
                 let? at_ := module_of_body (loc_document location) in
                 let? target := ok_or (module_target at_) LNotAModule in
                 match rd_module_source read target with Ok t => Ok t | Err e => Err (LRead e) end
           end
       end.

(** [LspDocuments::changed_documents]: the open documents of a source set
    whose file is among [relatives], or all of them, in their order. *)
Definition changed_documents (d : LspDocuments) (sp set : text) (relatives : option (list text)) : list text :=
  omap (λ location,
      match format (ld_spaces d) (loc_document location) with Ok uri => Some uri | Err _ => None end)
    (filter (λ location,
        space (loc_document location) = sp ∧ loc_source_set location = set
        ∧ match relatives with
          | None => true
          | Some relatives => existsb (λ r, path_eq r (loc_relative location)) relatives
          end = true)
      ((λ db, ob_location db.2) <$> merge_sort uri_le (map_to_list (ld_open d)))).
End documents.
