(* ===== verification/EditorHost.v ===== *)
(** * The LSP service of the daemon

    [UnicaLspHost] of [crates/unica-lsp/src/host.rs] with the messages of
    [crates/unica-lsp-contract/src/protocol.rs]: the sessions, their spaces
    and the overlays of the workspace actors.  A step is one call of the
    service, which holds the session's lock.  An actor is a number; the live
    ones have an overlay, and a weak reference upgrades to a live one.  What
    the product answers during a step is its [World].  [None] is a panic. *)

From Stdlib Require Import ZArith Lia Ascii String.
From stdpp Require Import base countable option numbers list_basics list sorting gmap fin_map_dom.
From S2P Require Import Prelude Redaction AddressKinds ModuleRoutes Address AddressFacts SourceTarget.
From S2P Require Import Paths SourceLayout ModuleLayout.
From S2P Require Import TextOrder DocumentOverlay Position EditorText EditorUri EditorDocuments.

Local Open Scope Z_scope.

(** ** Messages *)

Inductive V5LspFailure :=
  | NotSupported | SessionUnknown | DuplicateRequest | Busy | DeadlineExceeded | Unavailable
  | WorkspaceUnavailable | DocumentUnknown.
#[export] Instance V5LspFailure_eq_dec : EqDecision V5LspFailure.
Proof. solve_decision. Defined.

Record V5LspWorkspaceFolder := mkV5Folder { vf_uri : text; vf_name : text }.
Record V5LspContentChange := mkV5Change { vc_range : option (Utf16Position * Utf16Position); vc_text : text }.

Inductive V5LspCall :=
  | Hover (uri : text) (position : Utf16Position)
  | TextDocumentContent (uri : text).
(** [V5LspCall::document_uri]. *)
Definition call_uri (c : V5LspCall) : text :=
  match c with Hover uri _ => uri | TextDocumentContent uri => uri end.

Inductive V5LspNotification :=
  | DidOpen (uri language_id : text) (version : Z) (t : text)
  | DidChange (uri : text) (version : Z) (changes : list V5LspContentChange)
  | DidClose (uri : text).
(** [V5LspNotification::document_uri]. *)
Definition notification_uri (n : V5LspNotification) : text :=
  match n with DidOpen uri _ _ _ => uri | DidChange uri _ _ => uri | DidClose uri => uri end.

Inductive V5LspOutcome :=
  | OutcomeHover (contents : option text)
  | OutcomeText (t : text)
  | OutcomeCancelled
  | OutcomeFailed (failure : V5LspFailure).

Record V5LspWorkspaceSpace := mkV5Space { vs_folder : text; vs_space : option text; vs_failure : option V5LspFailure }.
(** [V5LspWorkspaceSpace::opened] and [refused]. *)
Definition space_opened (folder sp : text) : V5LspWorkspaceSpace := mkV5Space folder (Some sp) None.
Definition space_refused (folder : text) (failure : V5LspFailure) : V5LspWorkspaceSpace :=
  mkV5Space folder None (Some failure).

(** [validate_space], which [LspLane::open] asks of every space; a character
    that is not ASCII has a byte that is no letter. *)
Definition validate_space (sp : text) : bool :=
  negb (bool_decide (sp = [])) && (Z.of_nat (byte_len sp) <=? 64)
  && forallb (λ c, in_range 48 57 c || in_range 65 90 c || in_range 97 122 c || (c =? 45) || (c =? 95)) sp.

(** [content_change]. *)
Definition content_change (c : V5LspContentChange) : ContentChange :=
  match vc_range c with
  | None => Full (vc_text c)
  | Some (start, end_) => Range start end_ (vc_text c)
  end.

(** ** State *)

Definition actor : Type := positive.

Section host.
Context `{UriLibs} `{HostFs} {ViewError : Type}.
#[local] Notation Error := (LspDocumentError ViewError).

(** [LspModuleReads::read]. *)
Definition LspModuleReads : Type := text → text → result (ModuleSourceRead ViewError) V5LspFailure.

Record AdmittedSpace := mkSpace {
  as_folder : text; as_actor : actor; as_source_sets : list SourceSetLayout; as_reads : LspModuleReads }.
Record Session := mkSession { se_documents : LspDocuments; se_spaces : gmap text AdmittedSpace }.

Record Host := mkHost { ho_sessions : gmap text Session; ho_actors : gmap actor DocumentOverlay }.
Definition with_session (h : Host) (s : text) (se : Session) : Host :=
  mkHost (<[s := se]> (ho_sessions h)) (ho_actors h).
Definition with_overlay (h : Host) (a : actor) (ov : DocumentOverlay) : Host :=
  mkHost (ho_sessions h) (<[a := ov]> (ho_actors h)).

(** What the product and the host answer during a step: whether an actor
    retains its roots, what a folder is admitted to, and the path of a
    [file:] URI. *)
Record World := mkWorld {
  w_retains : actor → bool;
  w_admit : text → option (actor * list SourceSetLayout * LspModuleReads);
  w_folder_path : text → option text }.

(** The overlay of an admitted actor; one seen first has none. *)
Definition overlay_of (h : Host) (a : actor) : DocumentOverlay := default overlay_default (ho_actors h !! a).
Definition admitted_host (h : Host) (a : actor) : Host := with_overlay h a (overlay_of h a).

(** [admit]: the space, whose actor is alive from now on. *)
Definition admit_space (w : World) (folder : text) : option AdmittedSpace :=
  (λ adm, mkSpace folder adm.1.1 adm.1.2 adm.2) <$> w_admit w folder.

(** ** Opening and closing *)

(** The folders that are admitted, with their roots. *)
Definition admit_folder (w : World) (folder : V5LspWorkspaceFolder) : option (text * AdmittedSpace) :=
  root ← w_folder_path w (vf_uri folder);
  sp ← admit_space w root;
  Some (root, sp).

Definition folder_layouts (folders : list V5LspWorkspaceFolder) (admitted : list (option (text * AdmittedSpace)))
    : list SpaceLayout :=
  omap (λ fa : V5LspWorkspaceFolder * option (text * AdmittedSpace),
      match fa.2 with
      | Some (root, sp) => Some (mkSpaceLayout (mkFolder (vf_name fa.1) root) (as_source_sets sp))
      | None => None
      end) (zip folders admitted).

(** The space of one folder of [open]. *)
Definition named_space (d : LspDocuments) (a : option (text * AdmittedSpace)) : option (text * AdmittedSpace) :=
  ra ← a; name ← space_of_root (ld_spaces d) ra.1; Some (name, ra.2).

(** [UnicaLspHost::open]: the answer names a space or a refusal per folder. *)
Definition host_open (h : Host) (w : World) (s : text) (folders : list V5LspWorkspaceFolder)
    : Host * list V5LspWorkspaceSpace :=
  let admitted := admit_folder w <$> folders in
  let documents := documents_new s (folder_layouts folders admitted) in
  let named := named_space documents <$> admitted in
  let h := fold_left (λ h a, match a with Some (_, sp) => admitted_host h (as_actor sp) | None => h end) admitted h in
  let spaces := fold_left (λ m n, match n with Some (name, sp) => <[name := sp]> m | None => m end) named ∅ in
  (with_session h s (mkSession documents spaces),
   zip_with (λ folder n,
       match n with
       | Some (name, _) => space_opened (vf_uri folder) name
       | None => space_refused (vf_uri folder) WorkspaceUnavailable
       end) folders named).

(** [let _ = overlay.close_session(session)] on a live actor. *)
Definition forget_session (h : Host) (s : text) (a : actor) : Host :=
  match ho_actors h !! a with
  | Some ov => with_overlay h a (fst (close_session ov s))
  | None => h
  end.

(** [UnicaLspHost::close]. *)
Definition host_close (h : Host) (s : text) : Host :=
  match ho_sessions h !! s with
  | None => h
  | Some se =>
      fold_left (λ h entry, forget_session h (ld_session (se_documents se)) (as_actor entry.2))
        (map_to_list (se_spaces se)) (mkHost (delete s (ho_sessions h)) (ho_actors h))
  end.

(** ** The actor of a space *)

(** The move of one buffer to the new actor. *)
Definition move_buffer (d : LspDocuments) (set uri : text) (ov : DocumentOverlay)
    : option (DocumentOverlay * result unit V5LspFailure) :=
  located ← locate (ViewError := ViewError) d uri;
  Some match located with
       | Err _ => (ov, Ok tt)
       | Ok location =>
           match open_document d (loc_document location) with
           | None => (ov, Ok tt)
           | Some document =>
               match put ov (ld_session d) set (loc_relative location)
                       (mkDocumentText (d_version document) (d_text document)) with
               | (ov, Ok _) | (ov, Err (OverlayStaleVersion _ _)) => (ov, Ok tt)
               | (ov, Err _) => (ov, Err Unavailable)
               end
           end
       end.

(** The loops of [current_actor]: the sets, and the open documents of each. *)
Fixpoint move_buffers (d : LspDocuments) (moves : list (text * text)) (ov : DocumentOverlay)
    : option (DocumentOverlay * result unit V5LspFailure) :=
  match moves with
  | [] => Some (ov, Ok tt)
  | (set, uri) :: moves =>
      moved ← move_buffer d set uri ov;
      match moved with
      | (ov, Ok _) => move_buffers d moves ov
      | (ov, Err e) => Some (ov, Err e)
      end
  end.

(** [Session::current_actor]: the host with the session as it is after, and
    the actor. *)
Definition current_actor (h : Host) (w : World) (s : text) (se : Session) (sp : text)
    : option (Host * Session * result actor V5LspFailure) :=
  match se_spaces se !! sp with
  | None => Some (h, se, Err DocumentUnknown)
  | Some admitted =>
      if is_some (ho_actors h !! as_actor admitted) && w_retains w (as_actor admitted)
      then Some (h, se, Ok (as_actor admitted))
      else
        match admit_space w (as_folder admitted) with
        | None => Some (h, se, Err WorkspaceUnavailable)
        | Some renewed =>
            let h := admitted_host h (as_actor renewed) in
            let d := se_documents se in
            let moves := as_source_sets renewed ≫= λ set,
                           (λ uri, (sl_name set, uri)) <$> changed_documents d sp (sl_name set) None in
            moved ← move_buffers d moves (overlay_of h (as_actor renewed));
            let h := with_overlay h (as_actor renewed) moved.1 in
            Some match moved.2 with
                 | Err e => (h, se, Err e)
                 | Ok _ =>
                     let se := mkSession (replace_source_sets d sp (as_source_sets renewed))
                                 (<[sp := renewed]> (se_spaces se)) in
                     let h := if bool_decide (as_actor admitted = as_actor renewed) then h
                              else forget_session h (ld_session d) (as_actor admitted) in
                     (h, se, Ok (as_actor renewed))
                 end
        end
  end.

(** ** Notifications *)

(** [documents.close(overlay, uri)] with its answer dropped. *)
Definition close_quietly (h : Host) (se : Session) (a : actor) (uri : text) : option (Host * Session) :=
  closed ← doc_close (ViewError := ViewError) (se_documents se) (overlay_of h a) uri;
  Some (with_overlay h a closed.1.2, mkSession closed.1.1 (se_spaces se)).

(** The same on [DocumentOverlay::default()], which is dropped after. *)
Definition close_detached (se : Session) (uri : text) : option Session :=
  closed ← doc_close (ViewError := ViewError) (se_documents se) overlay_default uri;
  Some (mkSession closed.1.1 (se_spaces se)).

Definition apply_notification (d : LspDocuments) (ov : DocumentOverlay) (n : V5LspNotification)
    : option (outcome (ViewError := ViewError)) :=
  match n with
  | DidOpen uri _ version t => doc_open d ov uri version t
  | DidChange uri version changes => doc_change d ov uri version (content_change <$> changes)
  | DidClose uri => doc_close d ov uri
  end.

Definition is_did_close (n : V5LspNotification) : bool := match n with DidClose _ => true | _ => false end.

Definition refusal (e : Error) : V5LspFailure :=
  match e with LOverlay _ => Unavailable | _ => DocumentUnknown end.

(** The end of [UnicaLspHost::notify], on the actor of the space. *)
Definition notify_actor (h : Host) (se : Session) (a : actor) (n : V5LspNotification)
    : option (Host * Session * result unit V5LspFailure) :=
  applied ← apply_notification (se_documents se) (overlay_of h a) n;
  let '(d, ov, applied) := applied in
  let h := with_overlay h a ov in
  let se := mkSession d (se_spaces se) in
  match applied with
  | Ok _ => Some (h, se, Ok tt)
  | Err error =>
      if is_did_close n then Some (h, se, Ok tt)
      else
        closed ← close_quietly h se a (notification_uri n);
        Some (closed.1, closed.2, Err (refusal error))
  end.

(** [UnicaLspHost::notify] under the session's lock. *)
Definition notify_session (h : Host) (w : World) (s : text) (se : Session) (n : V5LspNotification)
    : option (Host * Session * result unit V5LspFailure) :=
  let uri := notification_uri n in
  located ← locate (ViewError := ViewError) (se_documents se) uri;
  match located with
  | Err _ => Some (h, se, Ok tt)
  | Ok location =>
      let sp := space (loc_document location) in
      current ← current_actor h w s se sp;
      let '(h, se, current) := current in
      match current with
      | Err failure =>
          let held := admitted ← se_spaces se !! sp;
                      if is_some (ho_actors h !! as_actor admitted) then Some (as_actor admitted) else None in
          closed ← match held with
                   | Some a => close_quietly h se a uri
                   | None => (λ se, (h, se)) <$> close_detached se uri
                   end;
          Some (closed.1, closed.2, if is_did_close n then Ok tt else Err failure)
      | Ok a => notify_actor h se a n
      end
  end.

Definition host_notify (h : Host) (w : World) (s : text) (n : V5LspNotification)
    : option (Host * result unit V5LspFailure) :=
  match ho_sessions h !! s with
  | None => Some (h, Err SessionUnknown)
  | Some se =>
      done ← notify_session h w s se n;
      let '(h, se, answer) := done in
      Some (with_session h s se, answer)
  end.

(** ** Requests *)

(** [document_text]. *)
Definition document_text (se : Session) (uri : text) : option (result text V5LspFailure) :=
  let d := se_documents se in
  located ← locate (ViewError := ViewError) d uri;
  match located with
  | Err _ => Some (Err DocumentUnknown)
  | Ok location =>
      match se_spaces se !! space (loc_document location) with
      | None => Some (Err DocumentUnknown)
      | Some sp =>
          match as_reads sp (ld_session d) (loc_source_set location) with
          | Err e => Some (Err e)
          | Ok read =>
              read ← content d uri read;
              Some match read with
                   | Ok (Some t) => Ok t
                   | Ok None => Err DocumentUnknown
                   | Err (LRead _ | LOverlay _) => Err Unavailable
                   | Err _ => Err DocumentUnknown
                   end
          end
      end
  end.

(** [answer]. *)
Definition answer (se : Session) (c : V5LspCall) : option (result V5LspOutcome V5LspFailure) :=
  match c with
  | TextDocumentContent uri => read ← document_text se uri; Some (let? t := read in Ok (OutcomeText t))
  | Hover _ _ => Some (Err NotSupported)
  end.

(** [Session::space_of] and [is_current]. *)
Definition space_of (se : Session) (uri : text) : option (option text) :=
  (λ located, match located with Ok location => Some (space (loc_document location)) | Err _ => None end)
    <$> locate (ViewError := ViewError) (se_documents se) uri.
Definition is_current (h : Host) (w : World) (se : Session) (sp : text) : bool :=
  match se_spaces se !! sp with
  | Some admitted => is_some (ho_actors h !! as_actor admitted) && w_retains w (as_actor admitted)
  | None => false
  end.

(** [UnicaLspHost::call]; [early] and [late] are what [is_cancelled] says. *)
Definition host_call (h : Host) (w : World) (s : text) (c : V5LspCall) (early late : bool)
    : option (Host * V5LspOutcome) :=
  match ho_sessions h !! s with
  | None => Some (h, OutcomeFailed SessionUnknown)
  | Some se =>
      if early then Some (h, OutcomeCancelled)
      else
        sp ← space_of se (call_uri c);
        current ← match sp with
                  | Some sp =>
                      if is_current h w se sp then Some (h, se, Ok tt)
                      else (λ r, (r.1.1, r.1.2, match r.2 with Ok _ => Ok tt | Err e => Err e end))
                             <$> current_actor h w s se sp
                  | None => Some (h, se, Ok tt)
                  end;
        let '(h, se, current) := current in
        let h := with_session h s se in
        match current with
        | Err failure => Some (h, OutcomeFailed failure)
        | Ok _ =>
            if late then Some (h, OutcomeCancelled)
            else
              answered ← answer se c;
              Some (h, match answered with Ok outcome => outcome | Err failure => OutcomeFailed failure end)
        end
  end.
End host.

Arguments LspModuleReads : clear implicits.
Arguments AdmittedSpace : clear implicits.
Arguments Session : clear implicits.
Arguments Host : clear implicits.
Arguments World : clear implicits.
