(* ===== verification/EditorMirror.v ===== *)
(** * Editor documents and files

    What [locate] finds: one file of one source set for a document, another
    for another, and never a panic.  Opening, changing and closing a document
    keep the buffers and their mirror in an overlay together. *)

From Stdlib Require Import ZArith Lia Ascii String.
From stdpp Require Import base countable option numbers list_basics list sorting gmap fin_map_dom.
From S2P Require Import ReceiptLedger.
From S2P Require Import Prelude Redaction RedactionProps AddressKinds ModuleRoutes Address AddressFacts AddressProps.
From S2P Require Import SourceTarget Paths SourceLayout ModuleLayout ModuleFiles ModuleProps TextOrder DocumentOverlay.
From S2P Require Import Position EditorText EditorUri EditorDocuments.

Local Open Scope Z_scope.

(** A document with a canonical address, as reading a URI gives. *)
Definition canonical_document (document : DocumentUri) : Prop :=
  ∃ a, parse (address document) = Ok a ∧ display a = address document.

Section files.
Context `{UriLaws} `{HostFs} {ViewError : Type}.
#[local] Notation Error := (LspDocumentError ViewError).
#[local] Notation locate := (locate (ViewError := ViewError)).

(** [locate] after the URI is read. *)
Definition resolve (d : LspDocuments) (document : DocumentUri) : option (result DocumentLocation Error) :=
  match module_of_body document with
  | Err e => Some (Err e)
  | Ok at_ =>
      match find_source_set d (space document) (source_set at_) with
      | Err e => Some (Err e)
      | Ok layout =>
          file ← module_file at_ layout;
          Some (let? relative := ok_or file LNotAModule in
                Ok (mkLocation document (sl_name layout) relative))
      end
  end.

Lemma locate_resolve d uri :
  locate d uri = match parse_uri (ld_spaces d) uri with
                 | Err e => Some (Err (LUri e)) | Ok document => resolve d document end.
Proof. reflexivity. Qed.

Lemma module_file_total at_ layout : is_Some (module_file at_ layout).
Proof.
  unfold module_file. destruct (module_target at_) as [target|]; [|by eexists].
  destruct (module_relative_total target (sl_kind layout)) as [r ->]. by eexists.
Qed.
Lemma resolve_total d document : is_Some (resolve d document).
Proof.
  unfold resolve. destruct (module_of_body document) as [at_|]; [|by eexists].
  destruct (find_source_set _ _ _) as [layout|]; [|by eexists].
  destruct (module_file_total at_ layout) as [file ->]. by eexists.
Qed.
Lemma locate_total d uri : is_Some (locate d uri).
Proof. rewrite locate_resolve. destruct (parse_uri _ _); [apply resolve_total|by eexists]. Qed.

(** What a location says of its document. *)
Record located (d : LspDocuments) (document : DocumentUri) (location : DocumentLocation) : Prop := {
  lo_document : loc_document location = document;
  lo_module : ∃ module at_ route layout target,
    strip_suffix (address document) (lit ".Body") = Some module ∧ parse module = Ok at_
    ∧ module_route at_ = Some route
    ∧ module_source_address at_ (mr_owner_kind route) (mr_role route) (mr_route_kind route) = Ok target
    ∧ set_layout d (space document) (source_set at_) = Some layout
    ∧ sl_name layout = source_set at_ ∧ loc_source_set location = source_set at_
    ∧ module_relative target (sl_kind layout) = Some (Ok (loc_relative location)) }.

Lemma set_layout_name d sp name layout : set_layout d sp name = Some layout → sl_name layout = name.
Proof.
  unfold set_layout. destruct (ld_source_sets d !! sp) as [sets|]; [|done]. cbn [mbind option_bind].
  intros [_ E]%find_some. by bool_prop.
Qed.

Lemma resolve_located d document location :
  resolve d document = Some (Ok location) → located d document location.
Proof.
  unfold resolve, module_of_body. destruct (strip_suffix _ _) as [module|] eqn:Es; [|done].
  destruct (parse module) as [at_|] eqn:Em; [|done].
  unfold find_source_set.
  destruct (set_layout _ _ _) as [layout|] eqn:El; [|done]. pose proof (set_layout_name _ _ _ _ El) as Hname. cbn [ok_or].
  unfold module_file, module_target, module_capability.
  destruct (module_route at_) as [route|] eqn:Er; [|done]. cbn [mbind option_bind].
  destruct (module_source_address _ _ _ _) as [target|] eqn:Et; [|done].
  destruct (module_relative target _) as [[path|]|] eqn:Ep; [|done..]. cbn [fmap option_fmap option_map mbind option_bind ok_or].
  intros [= <-]. split; [done|]. exists module, at_, route, layout, target. by split_and!.
Qed.

Lemma locate_located d uri location :
  locate d uri = Some (Ok location) →
  located d (loc_document location) location ∧ canonical_document (loc_document location)
  ∧ parse_uri (ld_spaces d) uri = Ok (loc_document location).
Proof.
  rewrite locate_resolve. destruct (parse_uri _ _) as [document|] eqn:E; [|done]. intros Hr%resolve_located.
  rewrite (lo_document _ _ _ Hr). split_and!; [done| |done]. apply read_format in E as (_ & Hc & _). done.
Qed.

(** The document is recovered from its space, its source set and its file. *)
Lemma located_address d document location :
  located d document location → canonical_document document →
  ∃ layout path, set_layout d (space document) (loc_source_set location) = Some layout
    ∧ module_of_file (sl_kind layout) (loc_relative location) = Some path
    ∧ address document = loc_source_set location ++ lit ":" ++ path ++ lit ".Body"
    ∧ ∃ names, loc_relative location = join [47] names ∧ names ≠ [] ∧ Forall plain_name names.
Proof.
  intros [Hd (module & at_ & route & layout & target & Hs & Hm & Hr & Ht & Hl & Hn & Hset & Hp)] (a & Ha & Ea).
  destruct (module_file_facts _ _ _ _ _ _ Hm Hr Ht Hp) as (names & En & Hne & Hf & Hpath).
  exists layout, (logical_path at_). rewrite Hset. split_and!; [done|done| |by exists names].
  rewrite (canonical_body _ _ _ _ _ Ha Ea Hs Hm Hr). unfold display. by rewrite <- !(assoc_L (++)).
Qed.

Lemma located_injective d document1 document2 location1 location2 :
  located d document1 location1 → located d document2 location2 →
  canonical_document document1 → canonical_document document2 →
  space document1 = space document2 → loc_source_set location1 = loc_source_set location2 →
  components (loc_relative location1) = components (loc_relative location2) →
  document1 = document2.
Proof.
  intros HL1 HL2 C1 C2 Es Eset Ec.
  destruct (located_address _ _ _ HL1 C1) as (layout1 & path1 & L1 & P1 & A1 & names1 & N1 & Z1 & F1).
  destruct (located_address _ _ _ HL2 C2) as (layout2 & path2 & L2 & P2 & A2 & names2 & N2 & Z2 & F2).
  rewrite Es, Eset, L2 in L1. injection L1 as <-.
  rewrite N1, N2, !components_plain in Ec by done.
  assert (names1 = names2) as En by (by apply (list_fmap_eq_inj Normal) in Ec; [|intros ?? [=]]).
  rewrite N1, En, <- N2, P2 in P1. injection P1 as <-.
  destruct document1 as [s1 a1], document2 as [s2 a2]. cbn in *. congruence.
Qed.
End files.

(** ** Buffers and their mirror *)

Section mirror.
Context `{UriLaws} `{HostFs} {ViewError : Type}.
#[local] Notation Error := (LspDocumentError ViewError).
#[local] Notation resolve := (resolve (ViewError := ViewError)).
#[local] Notation locate := (locate (ViewError := ViewError)).

Definition doc_key (d : LspDocuments) (location : DocumentLocation) : DocumentKey :=
  key (ld_session d) (loc_source_set location) (loc_relative location).
Definition buffer_text (b : OpenBuffer) : DocumentText :=
  mkDocumentText (d_version (ob_document b)) (d_text (ob_document b)).

(** An open document is where its address leads, under the layouts at hand. *)
Record buffer_ok (d : LspDocuments) (document : DocumentUri) (b : OpenBuffer) : Prop := {
  bo_resolve : resolve d document = Some (Ok (ob_location b));
  bo_canonical : canonical_document document;
  bo_space : is_Some (root (ld_spaces d) (space document));
  bo_document : document_ok (ob_document b) }.
Record documents_ok (d : LspDocuments) : Prop := {
  dok_spaces : ∃ folders, ld_spaces d = from_folders folders;
  dok_open : ∀ document b, ld_open d !! document = Some b → buffer_ok d document b }.

(** The overlay mirrors the open documents of a space. *)
Record mirrors (d : LspDocuments) (sp : text) (ov : DocumentOverlay) : Prop := {
  mi_open : ∀ document b, ld_open d !! document = Some b → space document = sp →
    buffer ov (doc_key d (ob_location b)) = Some (buffer_text b);
  mi_only : ∀ k, dk_session k = ld_session d → is_Some (buffer ov k) →
    ∃ document b, ld_open d !! document = Some b ∧ space document = sp ∧ k = doc_key d (ob_location b) }.

Definition same_other_sessions (s : text) (ov ov' : DocumentOverlay) : Prop :=
  ∀ k, dk_session k ≠ s → buffer ov' k = buffer ov k.

Lemma resolve_with_open d m document : resolve (with_open d m) document = resolve d document.
Proof. reflexivity. Qed.
Lemma locate_with_open d m uri : locate (with_open d m) uri = locate d uri.
Proof. reflexivity. Qed.

Lemma locate_facts d uri location :
  locate d uri = Some (Ok location) →
  resolve d (loc_document location) = Some (Ok location) ∧ canonical_document (loc_document location)
  ∧ is_Some (root (ld_spaces d) (space (loc_document location))).
Proof.
  intros Hl. destruct (locate_located _ _ _ Hl) as (_ & Hc & Hp). rewrite locate_resolve, Hp in Hl.
  split_and!; [done|done|]. by apply read_format in Hp as (? & _ & _).
Qed.

Lemma doc_key_injective d document1 document2 location1 location2 :
  resolve d document1 = Some (Ok location1) → resolve d document2 = Some (Ok location2) →
  canonical_document document1 → canonical_document document2 → space document1 = space document2 →
  doc_key d location1 = doc_key d location2 → document1 = document2.
Proof.
  intros R1%resolve_located R2%resolve_located C1 C2 Es. unfold doc_key, key. intros [= Eset Erel].
  by apply (located_injective d document1 document2 location1 location2).
Qed.

(** ** One document changed *)

Lemma documents_ok_delete d document : documents_ok d → documents_ok (with_open d (delete document (ld_open d))).
Proof.
  intros [Hs Ho]. split; [done|]. intros document' b Hb. cbn in Hb. apply lookup_delete_Some in Hb as [_ Hb].
  by destruct (Ho _ _ Hb).
Qed.
Lemma documents_ok_insert d document b :
  documents_ok d → buffer_ok d document b → documents_ok (with_open d (<[document := b]> (ld_open d))).
Proof.
  intros [Hs Ho] Hb. split; [done|]. intros document' b' E. cbn in E.
  apply lookup_insert_Some in E as [[<- <-]|[_ E]]; [by destruct Hb|by destruct (Ho _ _ E)].
Qed.

Lemma mirrors_delete d sp ov ov' document b :
  documents_ok d → mirrors d sp ov → ld_open d !! document = Some b → space document = sp →
  (∀ j, buffer ov' j = if bool_decide (j = doc_key d (ob_location b)) then None else buffer ov j) →
  mirrors (with_open d (delete document (ld_open d))) sp ov'.
Proof.
  intros Hd [Ho Hk] Hb Es Hov. split.
  - intros document' b' E Es'. cbn in E. apply lookup_delete_Some in E as [Hne E].
    change (doc_key _ (ob_location b')) with (doc_key d (ob_location b')). rewrite Hov, bool_decide_eq_false_2; [by eapply Ho|].
    intros Ek. apply Hne. destruct (dok_open d Hd _ _ Hb) as [R1 C1 _ _], (dok_open d Hd _ _ E) as [R2 C2 _ _].
    eapply doc_key_injective; [exact R1|exact R2|done|done|congruence|done].
  - intros k Hs. rewrite Hov. case_bool_decide as Ek; [by intros [? ?]|]. intros Hsome.
    destruct (Hk k Hs Hsome) as (document' & b' & E & Es' & ->). exists document', b'. split_and!; [|done|done].
    cbn. rewrite lookup_delete_ne; [done|]. intros ->. congruence.
Qed.

Lemma mirrors_insert d sp ov ov' document b :
  documents_ok d → mirrors d sp ov → buffer_ok d document b → space document = sp →
  (∀ j, buffer ov' j = if bool_decide (j = doc_key d (ob_location b)) then Some (buffer_text b) else buffer ov j) →
  mirrors (with_open d (<[document := b]> (ld_open d))) sp ov'.
Proof.
  intros Hd [Ho Hk] [R1 C1 _ _] Es Hov. split.
  - intros document' b' E Es'. cbn in E. change (doc_key _ (ob_location b')) with (doc_key d (ob_location b')).
    rewrite Hov. apply lookup_insert_Some in E as [[<- <-]|[Hne E]]; [by rewrite bool_decide_eq_true_2|].
    rewrite bool_decide_eq_false_2; [by eapply Ho|]. intros Ek. apply Hne.
    destruct (dok_open d Hd _ _ E) as [R2 C2 _ _].
    eapply doc_key_injective; [exact R1|exact R2|done|done|congruence|done].
  - intros k Hs. rewrite Hov. case_bool_decide as Ek.
    + intros _. exists document, b. cbn. by rewrite lookup_insert_eq.
    + intros Hsome. destruct (Hk k Hs Hsome) as (document' & b' & E & Es' & ->).
      destruct (decide (document' = document)) as [->|Hne].
      * exfalso. apply Ek. destruct (dok_open d Hd _ _ E) as [R2 _ _ _].
        assert (ob_location b' = ob_location b) as -> by congruence. done.
      * exists document', b'. cbn. by rewrite lookup_insert_ne by done.
Qed.

(** The key of a document that is not open is free. *)
Lemma mirrors_free d sp ov document location :
  documents_ok d → mirrors d sp ov → ld_open d !! document = None →
  resolve d document = Some (Ok location) → canonical_document document → space document = sp →
  buffer ov (doc_key d location) = None.
Proof.
  intros Hd [_ Hk] Hnone R C Es. destruct (buffer ov (doc_key d location)) as [t|] eqn:E; [|done]. exfalso.
  destruct (Hk (doc_key d location) eq_refl) as (document' & b' & Eb & Es' & Ek); [by eexists|].
  destruct (dok_open d Hd _ _ Eb) as [R' C' _ _].
  assert (document = document') as -> by (eapply doc_key_injective; [exact R|exact R'|done|done|congruence|done]).
  congruence.
Qed.

(** ** The operations *)

(** What an accepted operation leaves: the documents, and their mirror. *)
Record kept (d : LspDocuments) (sp : text) (ov : DocumentOverlay) (d' : LspDocuments) (ov' : DocumentOverlay) : Prop := {
  ke_ok : documents_ok d';
  ke_mirrors : mirrors d' sp ov';
  ke_lock : ov_poisoned ov' = false;
  ke_others : same_other_sessions (ld_session d) ov ov' }.

Lemma kept_same d sp ov : documents_ok d → mirrors d sp ov → ov_poisoned ov = false → kept d sp ov d ov.
Proof. by split. Qed.

Lemma doc_close_spec d ov uri location :
  documents_ok d → ov_poisoned ov = false → locate d uri = Some (Ok location) →
  mirrors d (space (loc_document location)) ov →
  ∃ ov' r, doc_close d ov uri = Some (with_open d (delete (loc_document location) (ld_open d)), ov', r : result _ Error)
    ∧ kept d (space (loc_document location)) ov (with_open d (delete (loc_document location) (ld_open d))) ov'.
Proof.
  intros Hd Hp Hl Hm. destruct (locate_facts _ _ _ Hl) as (R & C & _).
  unfold doc_close, with_location. rewrite Hl. cbn [mbind option_bind].
  destruct (ld_open d !! loc_document location) as [b|] eqn:Eb.
  - pose proof (dok_open d Hd _ _ Eb) as [R' _ _ _]. assert (location = ob_location b) as -> by congruence.
    change (ld_session (with_open d _)) with (ld_session d).
    pose proof (remove_spec ov (ld_session d) (loc_source_set (ob_location b)) (loc_relative (ob_location b))) as Hr.
    destruct (remove ov _ _ _) as [ov' r]. cbn zeta in Hr. destruct Hr as [Hpo Hr].
    do 2 eexists. split; [reflexivity|].
    assert (Hbuf : ∀ j, buffer ov' j = if bool_decide (j = doc_key d (ob_location b)) then None else buffer ov j).
    { destruct Hr as [[_ Hr]|(_ & -> & Hr)]; [done|]. intros j. case_bool_decide as Ej; [subst j; by apply Hr|done]. }
    split; [by apply documents_ok_delete|by eapply mirrors_delete|congruence|].
    intros k Hk. rewrite Hbuf, bool_decide_eq_false_2; [done|]. by intros ->.
  - do 2 eexists. assert (delete (loc_document location) (ld_open d) = ld_open d) as -> by by apply delete_id.
    destruct d. split; [reflexivity|]. by apply kept_same.
Qed.

Lemma mirror_spec d ov location document :
  ov_poisoned ov = false →
  (∀ current, buffer ov (doc_key d location) = Some current → dt_version current < d_version document) →
  ∃ ov', mirror d ov location document = (ov', Ok tt : result unit Error) ∧ ov_poisoned ov' = false
    ∧ ∀ j, buffer ov' j = if bool_decide (j = doc_key d location) then Some (mkDocumentText (d_version document) (d_text document))
                          else buffer ov j.
Proof.
  intros Hp Hv. unfold mirror.
  pose proof (put_spec ov (ld_session d) (loc_source_set location) (loc_relative location)
    (mkDocumentText (d_version document) (d_text document))) as Hput.
  destruct (put ov _ _ _ _) as [ov' r]. cbn zeta in Hput. destruct Hput as [Hpo [(-> & _ & Hbuf)|(_ & _ & Hn)]].
  - exists ov'. split_and!; [done|congruence|done].
  - exfalso. apply Hn. by split.
Qed.

(** Opening always succeeds, also again. *)
Lemma doc_open_spec d ov uri version t location :
  documents_ok d → ov_poisoned ov = false → is_text t → locate d uri = Some (Ok location) →
  mirrors d (space (loc_document location)) ov →
  let b := mkBuffer location (document_new version t) in
  let d' := with_open d (<[loc_document location := b]> (ld_open d)) in
  ∃ ov', doc_open d ov uri version t = Some (d', ov', Ok location : result _ Error)
    ∧ kept d (space (loc_document location)) ov d' ov'.
Proof.
  intros Hd Hp Ht Hl Hm b d'. destruct (locate_facts _ _ _ Hl) as (R & C & Hr).
  unfold doc_open, with_location. rewrite Hl. cbn [mbind option_bind].
  set (d0 := with_open d (delete (loc_document location) (ld_open d))).
  assert (Hstep : ∃ ov0, (match ld_open d !! loc_document location with
      | Some _ => let '(ov, r) := remove ov (ld_session d0) (loc_source_set location) (loc_relative location) in
                  (ov, match r with Ok _ => Ok tt | Err e => Err (LOverlay e) end)
      | None => (ov, Ok tt) end) = (ov0, Ok tt : result unit Error)
    ∧ kept d (space (loc_document location)) ov d0 ov0).
  { destruct (ld_open d !! loc_document location) as [b0|] eqn:Eb.
    - pose proof (dok_open d Hd _ _ Eb) as [R' _ _ _]. assert (location = ob_location b0) as -> by congruence.
      change (ld_session d0) with (ld_session d).
      pose proof (remove_spec ov (ld_session d) (loc_source_set (ob_location b0)) (loc_relative (ob_location b0))) as Hrem.
      destruct (remove ov _ _ _) as [ov0 r]. cbn zeta in Hrem. destruct Hrem as [Hpo [[(document & -> & _) Hbuf]|(_ & _ & Hn)]].
      + exists ov0. split; [done|]. split; [by apply documents_ok_delete|by eapply mirrors_delete|congruence|].
        intros k Hk. rewrite Hbuf, bool_decide_eq_false_2; [done|]. by intros ->.
      + exfalso. pose proof (mi_open d _ ov Hm _ _ Eb eq_refl) as E. unfold doc_key in E. rewrite Hn in E; done.
    - exists ov. split; [done|]. unfold d0. rewrite delete_id by done. by destruct d; apply kept_same. }
  destruct Hstep as (ov0 & -> & [K1 K2 K3 K4]).
  destruct (mirror_spec d0 ov0 location (document_new version t)) as (ov' & -> & Hp' & Hbuf); [done| |].
  { intros current E. rewrite (mirrors_free d0 (space (loc_document location)) ov0 (loc_document location)) in E; try done.
    cbn. apply lookup_delete_eq. }
  exists ov'. assert (Hd' : with_open d0 (<[loc_document location := b]> (ld_open d0)) = d').
  { unfold d0, d'. cbn. by rewrite insert_delete_eq. }
  split; [unfold b in Hd'; by rewrite Hd'|]. rewrite <- Hd'.
  assert (Hbo : buffer_ok d0 (loc_document location) b) by (split; [done..|by apply document_new_ok]).
  split; [by apply documents_ok_insert|by eapply mirrors_insert|done|].
  intros k Hk. rewrite Hbuf, bool_decide_eq_false_2 by (by intros ->). by apply K4.
Qed.

(** A change is made on the buffer and its mirror, or on neither. *)
Lemma doc_change_spec d ov uri version changes location :
  documents_ok d → ov_poisoned ov = false → Forall change_ok changes → locate d uri = Some (Ok location) →
  mirrors d (space (loc_document location)) ov →
  (∃ b t ov', ld_open d !! loc_document location = Some b ∧ d_version (ob_document b) < version
     ∧ edits (d_text (ob_document b)) changes = Ok t
     ∧ let d' := with_open d (<[loc_document location := mkBuffer location (document_new version t)]> (ld_open d)) in
       doc_change d ov uri version changes = Some (d', ov', Ok location : result _ Error)
       ∧ kept d (space (loc_document location)) ov d' ov')
  ∨ (∃ e, doc_change d ov uri version changes = Some (d, ov, Err e : result _ Error)
     ∧ (∀ o, e ≠ LOverlay o)
     ∧ ∀ b, ld_open d !! loc_document location = Some b →
         version ≤ d_version (ob_document b) ∨ is_err (edits (d_text (ob_document b)) changes) = true).
Proof.
  intros Hd Hp Hc Hl Hm. destruct (locate_facts _ _ _ Hl) as (R & C & Hr).
  unfold doc_change, with_location. rewrite Hl. cbn [mbind option_bind].
  destruct (ld_open d !! loc_document location) as [b|] eqn:Eb; [|right; eexists; split_and!; [done..|by intros]].
  pose proof (dok_open d Hd _ _ Eb) as [R' _ _ Hdoc]. assert (location = ob_location b) as -> by congruence.
  rewrite document_change_edits by done. cbn [mbind option_bind].
  destruct (Z.leb_spec version (d_version (ob_document b))) as [Hle|Hlt].
  { right. eexists. split_and!; [done..|]. intros b' [= <-]. by left. }
  destruct (edits (d_text (ob_document b)) changes) as [t|e] eqn:Ee.
  2: { right. eexists. split_and!; [done..|]. intros b' [= <-]. right. by rewrite Ee. }
  left. destruct (mirror_spec d ov (ob_location b) (document_new version t)) as (ov' & -> & Hp' & Hbuf); [done| |].
  { intros current E. rewrite (mi_open d _ ov Hm _ _ Eb eq_refl) in E. by injection E as <-. }
  exists b, t, ov'. split; [done|]. split; [done|]. split; [done|]. cbn zeta. split; [done|].
  assert (Hbo : buffer_ok d (loc_document (ob_location b)) (mkBuffer (ob_location b) (document_new version t))).
  { split; [done..|]. apply document_new_ok. by eapply edits_text; [apply Hdoc|..]. }
  split; [by apply documents_ok_insert|by eapply mirrors_insert|done|].
  intros k Hk. rewrite Hbuf, bool_decide_eq_false_2; [done|]. by intros ->.
Qed.
End mirror.
