(* ===== verification/EditorService.v ===== *)
(** * Sessions and actors of the LSP service

    The invariant [host_ok] of [UnicaLspHost] ([crates/unica-lsp/src/host.rs]):
    each live actor holds, for a session, just the open documents of the
    session's space there.  [Session::current_actor] keeps it when it replaces
    an actor ([current_actor_spec]): its loop puts every open document of the
    space into the overlay of the new actor, then the session takes the new
    layouts of the space and the old actor lets go of its buffers. *)

From Stdlib Require Import ZArith Lia Ascii String.
From stdpp Require Import base countable option numbers list_basics list sorting gmap fin_map_dom.
From S2P Require Import Prelude Redaction RedactionProps AddressKinds ModuleRoutes Address AddressFacts AddressProps.
From S2P Require Import SourceTarget Paths SourceLayout ModuleLayout TextOrder DocumentOverlay Position EditorText.
From S2P Require Import EditorUri EditorDocuments EditorMirror EditorHost.

Local Open Scope Z_scope.

Section moves.
Context `{UriLaws} `{HostFs} {ViewError : Type}.
#[local] Notation resolve := (resolve (ViewError := ViewError)).
#[local] Notation locate := (locate (ViewError := ViewError)).
#[local] Notation documents_ok := (documents_ok (ViewError := ViewError)).
#[local] Notation buffer_ok := (buffer_ok (ViewError := ViewError)).

(** An open document is found again by the URI it is printed as. *)
Lemma printed_located d document b uri :
  documents_ok d → ld_open d !! document = Some b → format (ld_spaces d) document = Ok uri →
  locate d uri = Some (Ok (ob_location b)).
Proof.
  intros Hd Hb Hf. destruct (dok_open d Hd _ _ Hb) as [R (a & Ha & Ea) _ _].
  destruct (dok_spaces d Hd) as [folders Es]. rewrite Es in Hf.
  destruct (from_folders_ok folders) as [_ Hget].
  destruct (format_read (from_folders folders) document uri) as (a' & Ha' & Hp);
    [intros sp r Hr; by apply Hget in Hr as [? _]|done|].
  assert (a' = a) as -> by congruence. rewrite locate_resolve, Es, Hp, Ea. by destruct document.
Qed.
Lemma open_printed d document b :
  documents_ok d → ld_open d !! document = Some b → ∃ uri, format (ld_spaces d) document = Ok uri.
Proof.
  intros Hd Hb. destruct (dok_open d Hd _ _ Hb) as [_ (a & Ha & Ea) [r Hr] _].
  unfold format, contains_key. unfold root in Hr. rewrite Hr, Ha. cbn [is_some negb].
  destruct (display_split _ _ Ha) as (-> & _). by eexists.
Qed.

Lemma loc_document_open d document b :
  documents_ok d → ld_open d !! document = Some b → loc_document (ob_location b) = document.
Proof.
  intros Hd Hb. destruct (dok_open d Hd _ _ Hb) as [R _ _ _]. by apply resolve_located, lo_document in R.
Qed.

(** What [changed_documents] lists of a whole source set. *)
Lemma changed_documents_elem d sp set uri :
  documents_ok d →
  uri ∈ changed_documents d sp set None ↔
  ∃ document b, ld_open d !! document = Some b ∧ space document = sp ∧ loc_source_set (ob_location b) = set
    ∧ format (ld_spaces d) document = Ok uri.
Proof.
  intros Hd. unfold changed_documents. rewrite list_elem_of_omap. split.
  - intros (location & Hin & Hf). apply list_elem_of_filter in Hin as [(Hs & Hset & _) Hin].
    apply list_elem_of_fmap in Hin as ([document b] & -> & Hin). cbn [fst snd] in *.
    rewrite merge_sort_Permutation in Hin. apply elem_of_map_to_list in Hin.
    rewrite (loc_document_open d document b) in * by done.
    exists document, b. split_and!; [done..|]. destruct (format _ _); congruence.
  - intros (document & b & Hb & Hs & Hset & Hf). exists (ob_location b).
    rewrite (loc_document_open d document b) by done. rewrite Hf. split; [|done].
    apply list_elem_of_filter. rewrite (loc_document_open d document b) by done. split; [done|].
    apply list_elem_of_fmap. exists (document, b). split; [done|].
    rewrite merge_sort_Permutation. by apply elem_of_map_to_list.
Qed.

(** The buffers of the session in an overlay are none, or as they are open. *)
Definition at_most_open (d : LspDocuments) (sp : text) (ov : DocumentOverlay) : Prop :=
  ∀ document b t, ld_open d !! document = Some b → space document = sp →
    buffer ov (doc_key d (ob_location b)) = Some t → t = buffer_text b.

Definition moved_key (d : LspDocuments) (sp : text) (moves : list (text * text)) (k : DocumentKey) (t : DocumentText) : Prop :=
  ∃ document b uri, ld_open d !! document = Some b ∧ space document = sp
    ∧ format (ld_spaces d) document = Ok uri ∧ (loc_source_set (ob_location b), uri) ∈ moves
    ∧ k = doc_key d (ob_location b) ∧ t = buffer_text b.

Definition moves_ok (d : LspDocuments) (sp : text) (moves : list (text * text)) : Prop :=
  ∀ set uri, (set, uri) ∈ moves → ∃ document b, ld_open d !! document = Some b ∧ space document = sp
    ∧ loc_source_set (ob_location b) = set ∧ format (ld_spaces d) document = Ok uri.

Lemma move_buffer_spec d sp ov document b uri :
  documents_ok d → at_most_open d sp ov → ov_poisoned ov = false →
  ld_open d !! document = Some b → space document = sp → format (ld_spaces d) document = Ok uri →
  ∃ ov', move_buffer (ViewError := ViewError) d (loc_source_set (ob_location b)) uri ov = Some (ov', Ok tt)
    ∧ ov_poisoned ov' = false
    ∧ ∀ j, buffer ov' j = if bool_decide (j = doc_key d (ob_location b)) then Some (buffer_text b) else buffer ov j.
Proof.
  intros Hd Hm Hp Hb Hs Hf. unfold move_buffer. rewrite (printed_located d document b) by done.
  cbn [mbind option_bind]. rewrite (loc_document_open d document b) by done. unfold open_document. rewrite Hb.
  cbn [fmap option_fmap option_map].
  pose proof (put_spec ov (ld_session d) (loc_source_set (ob_location b)) (loc_relative (ob_location b)) (buffer_text b)) as Hput.
  cbn zeta in Hput. unfold buffer_text in Hput at 1. unfold put in *. rewrite Hp in *.
  destruct (ov_buffers ov !! key _ _ _) as [[path current]|] eqn:Ek.
  - assert (Ecur : current = buffer_text b).
    { apply (Hm document b); [done..|]. unfold buffer, doc_key. by rewrite Ek. }
    subst current. cbn [buffer_text dt_version]. rewrite (proj2 (Z.leb_le _ _)) by done.
    exists ov. split_and!; [done..|]. intros j. case_bool_decide as Ej; [|done]. subst j. unfold buffer, doc_key. by rewrite Ek.
  - eexists. split; [reflexivity|]. destruct Hput as [Hpo [(_ & _ & Hbuf)|(Hx & _)]]; [|done].
    split; [done|]. exact Hbuf.
Qed.

Lemma move_buffers_spec d sp moves ov :
  documents_ok d → at_most_open d sp ov → ov_poisoned ov = false → moves_ok d sp moves →
  ∃ ov', move_buffers (ViewError := ViewError) d moves ov = Some (ov', Ok tt)
    ∧ ov_poisoned ov' = false
    ∧ (∀ k t, moved_key d sp moves k t → buffer ov' k = Some t)
    ∧ (∀ k, buffer ov' k = buffer ov k ∨ ∃ t, moved_key d sp moves k t).
Proof.
  intros Hd. revert ov. induction moves as [|[set uri] moves IH]; intros ov Hm Hp Hok.
  - exists ov. split_and!; [done..| |by left]. intros k t (document & b & uri & _ & _ & _ & Hin & _). by apply not_elem_of_nil in Hin.
  - destruct (Hok set uri) as (document & b & Hb & Hs & <- & Hf); [by constructor|].
    destruct (move_buffer_spec d sp ov document b uri Hd Hm Hp Hb Hs Hf) as (ov1 & E1 & Hp1 & Hbuf1).
    destruct (IH ov1) as (ov' & E & Hp' & Hmoved & Hrest).
    { intros document' b' t Hb' Hs'. rewrite Hbuf1. case_bool_decide as Ek; [|by apply (Hm document')].
      intros [= <-]. destruct (dok_open d Hd _ _ Hb) as [R C _ _], (dok_open d Hd _ _ Hb') as [R' C' _ _].
      assert (document = document') as -> by (eapply doc_key_injective; [exact R|exact R'|done|done|congruence|done]).
      congruence. }
    { done. }
    { intros set' uri' Hin. apply Hok. by constructor. }
    exists ov'. cbn [move_buffers]. rewrite E1. cbn [mbind option_bind]. split_and!; [done..| |].
    + intros k t (document' & b' & uri' & Hb' & Hs' & Hf' & Hin & -> & ->).
      apply elem_of_cons in Hin as [[= Eset ->]|Hin]; [|apply Hmoved; by exists document', b', uri'].
      assert (document' = document) as ->.
      { rewrite <- (loc_document_open d document b), <- (loc_document_open d document' b') by done.
        assert (Hl : locate d uri = Some (Ok (ob_location b'))) by by eapply printed_located.
        rewrite (printed_located d document b) in Hl by done. by injection Hl as ->. }
      rewrite Hb in Hb'. injection Hb' as <-.
      destruct (Hrest (doc_key d (ob_location b))) as [->|[t Ht]];
        [by rewrite Hbuf1, bool_decide_eq_true_2|].
      rewrite (Hmoved _ _ Ht). destruct Ht as (document2 & b2 & uri2 & Hb2 & Hs2 & Hf2 & _ & Ek & ->).
      destruct (dok_open d Hd _ _ Hb2) as [R C _ _], (dok_open d Hd _ _ Hb) as [R' C' _ _].
      assert (document2 = document) as -> by (eapply doc_key_injective; [exact R|exact R'|done|done|congruence|done]).
      congruence.
    + intros k. destruct (Hrest k) as [->|(t & document' & b' & uri' & ? & ? & ? & ? & ? & ?)].
      * rewrite Hbuf1. case_bool_decide as Ek; [|by left]. right. exists (buffer_text b), document, b, uri.
        split_and!; [done..|by constructor|done|done].
      * right. exists t, document', b', uri'. split_and!; [done..|by constructor|done|done].
Qed.
End moves.

(** ** Sessions and actors *)

Section service.
Context `{UriLaws} `{HostFs} {ViewError : Type}.
#[local] Notation resolve := (resolve (ViewError := ViewError)).
#[local] Notation locate := (locate (ViewError := ViewError)).
#[local] Notation documents_ok := (documents_ok (ViewError := ViewError)).
#[local] Notation Host := (Host ViewError).
#[local] Notation Session := (Session ViewError).
#[local] Notation World := (World ViewError).

Definition live (h : Host) (a : actor) : Prop := is_Some (ho_actors h !! a).

(** An actor that no session's space names. *)
Definition unnamed (h : Host) (a : actor) : Prop :=
  ∀ s se sp x, ho_sessions h !! s = Some se → se_spaces se !! sp = Some x → as_actor x ≠ a.

Record session_ok (h : Host) (s : text) (se : Session) : Prop := {
  so_session : ld_session (se_documents se) = s;
  so_documents : documents_ok (se_documents se);
  so_spaces : ∀ sp, is_Some (ld_source_sets (se_documents se) !! sp) → is_Some (se_spaces se !! sp);
  so_apart : ∀ sp1 sp2 x1 x2, se_spaces se !! sp1 = Some x1 → se_spaces se !! sp2 = Some x2 →
    as_actor x1 = as_actor x2 → sp1 = sp2;
  so_mirrors : ∀ sp x, se_spaces se !! sp = Some x → live h (as_actor x) →
    mirrors (se_documents se) sp (overlay_of h (as_actor x));
  so_reach : ∀ a k, dk_session k = s → is_Some (buffer (overlay_of h a) k) →
    ∃ sp x, se_spaces se !! sp = Some x ∧ as_actor x = a }.

Record host_ok (h : Host) : Prop := {
  hok_session : ∀ s se, ho_sessions h !! s = Some se → session_ok h s se;
  hok_lock : ∀ a, ov_poisoned (overlay_of h a) = false;
  hok_closed : ∀ a k, is_Some (buffer (overlay_of h a) k) → is_Some (ho_sessions h !! dk_session k) }.

(** ** What a step of one session leaves to the others *)

Record touched (s : text) (h h' : Host) : Prop := {
  to_sessions : ho_sessions h' = ho_sessions h;
  to_live : ∀ a, live h a → live h' a;
  to_new : ∀ a, live h' a → live h a ∨ unnamed h a;
  to_buffers : ∀ a, same_other_sessions s (overlay_of h a) (overlay_of h' a);
  to_lock : ∀ a, ov_poisoned (overlay_of h' a) = ov_poisoned (overlay_of h a) }.

Lemma touched_refl s h : touched s h h.
Proof. split; try done. by left. Qed.
Lemma touched_trans s h1 h2 h3 : touched s h1 h2 → touched s h2 h3 → touched s h1 h3.
Proof.
  intros [S1 L1 N1 B1 P1] [S2 L2 N2 B2 P2]. split; [congruence|auto| | |congruence].
  - intros a Ha. destruct (N2 a Ha) as [Ha'|Ha']; [by apply N1|right]. intros s' se sp x Hs. apply (Ha' s' se). congruence.
  - intros a k Hk. by rewrite (B2 a k Hk), (B1 a k Hk).
Qed.

Lemma overlay_of_with (h : Host) a b ov : overlay_of (with_overlay h a ov) b = if bool_decide (b = a) then ov else overlay_of h b.
Proof.
  unfold overlay_of. cbn. case_bool_decide as E; [subst; by rewrite lookup_insert_eq|by rewrite lookup_insert_ne].
Qed.
Lemma live_with (h : Host) a b ov : live (with_overlay h a ov) b ↔ b = a ∨ live h b.
Proof.
  unfold live. cbn. destruct (decide (b = a)) as [->|Hn].
  - rewrite lookup_insert_eq. split; [by left|by eexists].
  - rewrite lookup_insert_ne by done. naive_solver.
Qed.

Lemma touched_with s h a ov :
  same_other_sessions s (overlay_of h a) ov → ov_poisoned ov = ov_poisoned (overlay_of h a) →
  live h a ∨ unnamed h a → touched s h (with_overlay h a ov).
Proof.
  intros Hb Hp Hl. split; [done|intros b Hb'; apply live_with; by right| | |].
  - intros b [->|Hb']%live_with; [done|by left].
  - intros b. rewrite overlay_of_with. case_bool_decide as E; [by subst|done].
  - intros b. rewrite overlay_of_with. case_bool_decide as E; [by subst|done].
Qed.

Lemma dead_empty (h : Host) a k : ¬ live h a → buffer (overlay_of h a) k = None.
Proof.
  unfold live, overlay_of. destruct (ho_actors h !! a); [intros Hn; exfalso; by apply Hn|done].
Qed.

Lemma mirrors_same d sp ov ov' :
  (∀ k, dk_session k = ld_session d → buffer ov' k = buffer ov k) → mirrors d sp ov → mirrors d sp ov'.
Proof.
  intros Hs [Ho Hk]. split.
  - intros document b Hb Hsp. rewrite Hs; [by apply (Ho document)|done].
  - intros k Hk'. rewrite Hs by done. by apply Hk.
Qed.

Lemma session_ok_touched s h h' s' se' :
  touched s h h' → s' ≠ s → ho_sessions h !! s' = Some se' → session_ok h s' se' → session_ok h' s' se'.
Proof.
  intros T Hne Hse [S1 S2 S3 S4 S5 S6]. split; [done..| |].
  - intros sp x Hx Hl. destruct (to_new _ _ _ T _ Hl) as [Hl'|Hn]; [|by destruct (Hn _ _ _ _ Hse Hx)].
    eapply mirrors_same; [|by apply S5]. intros k Hk. apply (to_buffers _ _ _ T). congruence.
  - intros a k Hk Hb. rewrite (to_buffers _ _ _ T a k) in Hb by congruence. by apply (S6 a k).
Qed.

(** A step of one session, seen from the host. *)
Lemma host_ok_step h s h' se' :
  host_ok h → touched s h h' → session_ok h' s se' →
  host_ok (with_session h' s se').
Proof.
  intros [O L C] T Hse. split.
  - intros s2 se2 E. cbn in E. apply lookup_insert_Some in E as [[<- <-]|[Hne E]]; [by destruct Hse|].
    rewrite (to_sessions _ _ _ T) in E.
    destruct (session_ok_touched s h h' s2 se2 T (λ E, Hne (eq_sym E)) E (O _ _ E)). by split.
  - intros a. change (overlay_of (with_session h' s se') a) with (overlay_of h' a). by rewrite (to_lock _ _ _ T).
  - intros a k Hb. change (overlay_of (with_session h' s se') a) with (overlay_of h' a) in Hb. cbn.
    destruct (decide (dk_session k = s)) as [->|Hn]; [by rewrite lookup_insert_eq|].
    rewrite lookup_insert_ne, (to_sessions _ _ _ T) by congruence. rewrite (to_buffers _ _ _ T a k Hn) in Hb. by eapply C.
Qed.

(** ** The world of a step *)

(** What the product promises of the folder of a space: an actor that is not
    alive is a new one; two spaces of a session have two actors; a source set
    keeps its kind; and the same actor keeps the source sets. *)
Definition find_set (sets : list SourceSetLayout) (name : text) : option SourceSetLayout :=
  List.find (λ set, bool_decide (sl_name set = name)) sets.
Definition world_ok (h : Host) (w : World) (se : Session) (sp : text) : Prop :=
  ∀ x a sets reads, se_spaces se !! sp = Some x → w_admit w (as_folder x) = Some (a, sets, reads) →
    (live h a ∨ unnamed h a)
    ∧ (∀ sp' x', se_spaces se !! sp' = Some x' → as_actor x' = a → sp' = sp)
    ∧ (∀ name l l', set_layout (se_documents se) sp name = Some l → find_set sets name = Some l' → sl_kind l = sl_kind l')
    ∧ (as_actor x = a → ∀ name, is_Some (set_layout (se_documents se) sp name) → is_Some (find_set sets name)).

Lemma find_set_canonical sets name :
  find_set (canonical_set <$> sets) name = canonical_set <$> find_set sets name.
Proof.
  unfold find_set. induction sets as [|set sets IH]; [done|]. cbn. by case_bool_decide.
Qed.
Lemma find_set_exists sets name :
  existsb (λ set, bool_decide (sl_name set = name)) sets = true ↔ is_Some (find_set sets name).
Proof.
  unfold find_set. induction sets as [|set sets IH]; cbn; [split; [done|by intros [? ?]]|].
  case_bool_decide; cbn; [split; [by eexists|done]|done].
Qed.

Lemma set_layout_replace d sp sets sp' name :
  set_layout (replace_source_sets d sp sets) sp' name
  = if bool_decide (sp' = sp) then canonical_set <$> find_set sets name else set_layout d sp' name.
Proof.
  unfold set_layout. cbn. case_bool_decide as E.
  - subst. rewrite lookup_insert_eq. cbn [mbind option_bind]. apply find_set_canonical.
  - by rewrite lookup_insert_ne.
Qed.

Lemma open_replace d sp sets document b :
  documents_ok d →
  ld_open (replace_source_sets d sp sets) !! document = Some b ↔
  ld_open d !! document = Some b
  ∧ (space document = sp → is_Some (find_set sets (loc_source_set (ob_location b)))).
Proof.
  intros Hd. cbn. rewrite map_lookup_filter_Some. cbn [snd]. split.
  - intros [Hb Hor]. split; [done|]. rewrite (loc_document_open d document b) in Hor by done. intros Es.
    destruct Hor as [?|Hor]; [done|]. apply find_set_exists in Hor. rewrite find_set_canonical in Hor. by apply fmap_is_Some in Hor.
  - intros [Hb Hs]. split; [done|]. rewrite (loc_document_open d document b) by done.
    destruct (decide (space document = sp)) as [E|E]; [right|by left]. apply find_set_exists.
    rewrite find_set_canonical. by apply fmap_is_Some, Hs.
Qed.

(** The location of an open document names a source set of its space. *)
Lemma resolve_layout d document location :
  resolve d document = Some (Ok location) → is_Some (set_layout d (space document) (loc_source_set location)).
Proof.
  intros (_ & module & at_ & route & layout & target & _ & _ & _ & _ & El & _ & Es & _)%resolve_located.
  rewrite Es. by eexists.
Qed.

Lemma replace_resolve d sp sets document location :
  (∀ name l l', set_layout d sp name = Some l → find_set sets name = Some l' → sl_kind l = sl_kind l') →
  (space document = sp → is_Some (find_set sets (loc_source_set location))) →
  resolve d document = Some (Ok location) → resolve (replace_source_sets d sp sets) document = Some (Ok location).
Proof.
  intros Hk Hset Hr. pose proof Hr as Hr2. revert Hr. unfold EditorMirror.resolve, find_source_set.
  apply resolve_located in Hr2 as (_ & module & at_ & route & layout & target & Hs & Hm & _ & _ & El & _ & Eset & _).
  unfold module_of_body. rewrite Hs, Hm, El, set_layout_replace.
  pose proof (set_layout_name _ _ _ _ El) as Hn. cbn [ok_or].
  case_bool_decide as E; [|rewrite El; done]. destruct (Hset E) as [l' El']. rewrite Eset in El'. rewrite El'.
  cbn [fmap option_fmap option_map ok_or]. unfold module_file. cbn [canonical_set sl_name sl_kind].
  rewrite <- (Hk _ _ _ ltac:(rewrite <- E; exact El) El').
  apply find_some in El' as [_ El']. bool_prop. by rewrite Hn, El'.
Qed.

(** ** A new actor for a space *)

Lemma moves_of_open d sp sets :
  documents_ok d →
  let moves := sets ≫= λ set : SourceSetLayout,
                 (λ uri, (sl_name set, uri)) <$> changed_documents d sp (sl_name set) None in
  moves_ok d sp moves
  ∧ ∀ document b, ld_open d !! document = Some b → space document = sp →
      is_Some (find_set sets (loc_source_set (ob_location b))) →
      moved_key d sp moves (doc_key d (ob_location b)) (buffer_text b).
Proof.
  intros Hd moves. split.
  - intros set uri Hin. apply list_elem_of_bind in Hin as (l & Hin & _).
    apply list_elem_of_fmap in Hin as (uri' & [= -> ->] & Hin).
    apply (changed_documents_elem (ViewError := ViewError)) in Hin; [|done].
    destruct Hin as (document & b & ? & ? & ? & ?). by exists document, b.
  - intros document b Hb Hs [l Hl]. destruct (open_printed (ViewError := ViewError) d document b Hd Hb) as [uri Hu].
    exists document, b, uri. split_and!; [done..| |done|done].
    apply find_some in Hl as [Hin Hl]. bool_prop. apply list_elem_of_bind. exists l. split; [|by apply list_elem_of_In].
    apply list_elem_of_fmap. exists uri. split; [by rewrite Hl|].
    apply (changed_documents_elem (ViewError := ViewError)); [done|]. exists document, b. by rewrite Hl.
Qed.

(** The documents under the renewed layouts of a space. *)
Lemma documents_ok_replace d sp sets :
  documents_ok d →
  (∀ name l l', set_layout d sp name = Some l → find_set sets name = Some l' → sl_kind l = sl_kind l') →
  documents_ok (replace_source_sets d sp sets).
Proof.
  intros Hd Hk. split; [apply Hd|]. intros document b Hb. apply (open_replace d) in Hb as [Hb Hs]; [|done].
  destruct (dok_open d Hd _ _ Hb) as [R C S D]. split; [|done..]. by apply replace_resolve.
Qed.

Lemma mirrors_replace_other d sp sets sp' ov :
  documents_ok d → sp' ≠ sp → mirrors d sp' ov → mirrors (replace_source_sets d sp sets) sp' ov.
Proof.
  intros Hd Hne [Ho Hk]. split.
  - intros document b Hb Hs. apply (open_replace d) in Hb as [Hb _]; [|done]. by apply (Ho document).
  - intros k Hs Hb. destruct (Hk k Hs Hb) as (document & b & E & Es & ->). exists document, b.
    split_and!; [|done|done]. apply open_replace; [done|]. split; [done|congruence].
Qed.

(** The overlay that the buffers moved to mirrors the renewed space. *)
Lemma mirrors_moved d sp sets ov ov' moves :
  documents_ok d → moves_ok d sp moves →
  (∀ document b, ld_open d !! document = Some b → space document = sp →
     is_Some (find_set sets (loc_source_set (ob_location b))) →
     moved_key d sp moves (doc_key d (ob_location b)) (buffer_text b)) →
  (∀ set uri, (set, uri) ∈ moves → is_Some (find_set sets set)) →
  (∀ k, dk_session k = ld_session d → is_Some (buffer ov k) → ∃ document b,
     ld_open (replace_source_sets d sp sets) !! document = Some b ∧ space document = sp ∧ k = doc_key d (ob_location b)) →
  (∀ k t, moved_key d sp moves k t → buffer ov' k = Some t) →
  (∀ k, buffer ov' k = buffer ov k ∨ ∃ t, moved_key d sp moves k t) →
  mirrors (replace_source_sets d sp sets) sp ov'.
Proof.
  intros Hd Hok Hall Hsets Hold Hmoved Hrest. split.
  - intros document b Hb Hs. apply (open_replace d) in Hb as [Hb Hset]; [|done]. by apply Hmoved, (Hall document); auto.
  - intros k Hk Hb. destruct (Hrest k) as [E|(t & document & b & uri & Hb' & Hs & Hf & Hin & -> & _)].
    + rewrite E in Hb. by apply Hold.
    + exists document, b. split_and!; [|done|done]. apply open_replace; [done|]. split; [done|]. intros _. by eapply Hsets.
Qed.

Lemma forget_touched (h : Host) s a :
  (∀ b, ov_poisoned (overlay_of h b) = false) →
  touched s h (forget_session h s a)
  ∧ ∀ b k, buffer (overlay_of (forget_session h s a) b) k
    = if bool_decide (b = a) && bool_decide (dk_session k = s) then None else buffer (overlay_of h b) k.
Proof.
  intros Hp. unfold forget_session. destruct (ho_actors h !! a) as [ov|] eqn:Ea.
  - assert (Eov : overlay_of h a = ov) by (unfold overlay_of; by rewrite Ea).
    pose proof (close_session_spec ov s) as Hc. destruct (close_session ov s) as [ov' r]. destruct Hc as [Hpo Hb]. cbn [fst].
    specialize (Hp a). rewrite Eov in Hp. split.
    + apply touched_with; [rewrite Eov|by rewrite Eov|left; by eexists]. intros k Hk.
      by rewrite Hb, Hp, bool_decide_eq_false_2.
    + intros b k. rewrite overlay_of_with. destruct (decide (b = a)) as [->|Hne].
      * rewrite (bool_decide_eq_true_2 (a = a)) by done. rewrite Hb, Hp. by rewrite <- Eov.
      * by rewrite !bool_decide_eq_false_2 by done.
  - split; [apply touched_refl|]. intros b k. case_bool_decide as Eb; [|done]. subst b. cbn [andb].
    rewrite (dead_empty h a); [by case_bool_decide|]. unfold live. rewrite Ea. by intros [? ?].
Qed.

Record renewed (se se' : Session) (sp : text) (sets : list SourceSetLayout) : Prop := {
  re_documents : se_documents se' = replace_source_sets (se_documents se) sp sets;
  re_kinds : ∀ name l l', set_layout (se_documents se) sp name = Some l → find_set sets name = Some l' →
    sl_kind l = sl_kind l' }.

Section renewal.
Context (h : Host) (w : World) (s : text) (se : Session) (sp : text).
Context (x : AdmittedSpace ViewError) (a : actor) (sets : list SourceSetLayout) (reads : LspModuleReads ViewError).
Hypothesis Hh : host_ok h.
Hypothesis Hse : ho_sessions h !! s = Some se.
Hypothesis Hw : world_ok h w se sp.
Hypothesis Hx : se_spaces se !! sp = Some x.
Hypothesis Hadmit : w_admit w (as_folder x) = Some (a, sets, reads).
#[local] Notation d := (se_documents se).
#[local] Notation d' := (replace_source_sets d sp sets).
#[local] Notation moves := (sets ≫= λ set : SourceSetLayout, (λ uri, (sl_name set, uri)) <$> changed_documents d sp (sl_name set) None).

Lemma session_of : session_ok h s se.
Proof. exact (hok_session h Hh s se Hse). Qed.

(** The actor has no buffer of the session, or it is the old one. *)
Lemma still_open k :
  dk_session k = s → is_Some (buffer (overlay_of h a) k) →
  ∃ document b, ld_open d' !! document = Some b ∧ space document = sp ∧ k = doc_key d (ob_location b)
    ∧ buffer (overlay_of h a) k = Some (buffer_text b).
Proof.
  intros Hk Hb. destruct session_of as [S1 S2 S3 S4 S5 S6]. destruct (Hw x a sets reads Hx Hadmit) as (_ & Hapart & _ & Hsets).
  destruct (S6 a k Hk Hb) as (sp' & x' & Hx' & Ea). assert (sp' = sp) as -> by by eapply Hapart.
  rewrite Hx in Hx'. injection Hx' as <-. destruct (decide (live h (as_actor x))) as [Hl|Hl].
  2: { rewrite (dead_empty h a k) in Hb; [by destruct Hb|]. by rewrite <- Ea. }
  destruct (S5 sp x Hx Hl) as [Mo Mk]. rewrite Ea in Mo, Mk.
  destruct (Mk k (eq_trans Hk (eq_sym S1)) Hb) as (document & b & Eb & Es & ->). exists document, b.
  split_and!; [|done|done|by eapply Mo]. apply open_replace; [done|]. split; [done|]. intros _. apply Hsets; [done|].
  destruct (dok_open d S2 _ _ Eb) as [R _ _ _]. apply resolve_layout in R. by rewrite Es in R.
Qed.

Lemma buffers_at_most_open : at_most_open d sp (overlay_of h a).
Proof.
  destruct session_of as [S1 S2 _ _ _ _]. intros document b t Hb Es Hbuf.
  destruct (still_open (doc_key d (ob_location b))) as (document' & b' & Hb' & Es' & Ek & Hbuf'); [done|by eexists|].
  apply (open_replace d) in Hb' as [Hb' _]; [|done].
  destruct (dok_open d S2 _ _ Hb) as [R C _ _], (dok_open d S2 _ _ Hb') as [R' C' _ _].
  assert (document = document') as -> by (eapply doc_key_injective; [exact R|exact R'|done|done|congruence|done]).
  congruence.
Qed.

(** The overlay of the new actor after the loops of [current_actor]. *)
Lemma moved_overlay :
  ∃ ov', move_buffers (ViewError := ViewError) d moves (overlay_of h a) = Some (ov', Ok tt)
    ∧ ov_poisoned ov' = false ∧ same_other_sessions s (overlay_of h a) ov' ∧ mirrors d' sp ov'.
Proof.
  destruct session_of as [S1 S2 _ _ _ _]. destruct (moves_of_open d sp sets S2) as [Hok Hall].
  destruct (move_buffers_spec d sp moves (overlay_of h a) S2) as (ov' & E & Hp' & Hmoved & Hrest);
    [apply buffers_at_most_open|apply Hh|done|].
  exists ov'. split_and!; [done..| |].
  - intros k Hk. destruct (Hrest k) as [->|(t & document & b & uri & _ & _ & _ & _ & -> & _)]; [done|]. by destruct Hk.
  - eapply (mirrors_moved d sp sets (overlay_of h a)); [done|done|done| | |done|done].
    + intros set uri Hin. apply list_elem_of_bind in Hin as (l & Hin & Hl).
      apply list_elem_of_fmap in Hin as (_ & [= -> _] & _). apply find_set_exists, existsb_exists. exists l.
      split; [by apply list_elem_of_In|]. by rewrite bool_decide_eq_true_2.
    + intros k Hk Hb. rewrite S1 in Hk. destruct (still_open k Hk Hb) as (document & b & ? & ? & ? & _). by exists document, b.
Qed.

(** The host after them, with the old actor's buffers of the session gone. *)
#[local] Notation h1 ov' := (with_overlay (admitted_host h a) a ov').
#[local] Notation h2 ov' := (if bool_decide (as_actor x = a) then h1 ov' else forget_session (h1 ov') (ld_session d) (as_actor x)).

Lemma admitted_overlay : overlay_of (admitted_host h a) a = overlay_of h a.
Proof. unfold admitted_host. by rewrite overlay_of_with, bool_decide_eq_true_2. Qed.

Lemma renewed_buffer ov' b :
  overlay_of (h1 ov') b = if bool_decide (b = a) then ov' else overlay_of h b.
Proof. unfold admitted_host. rewrite !overlay_of_with. by case_bool_decide. Qed.

Lemma renewed_touched ov' :
  ov_poisoned ov' = false → same_other_sessions s (overlay_of h a) ov' →
  touched s h (h2 ov') ∧ live (h2 ov') a
  ∧ ∀ b k, dk_session k = s → buffer (overlay_of (h2 ov') b) k
      = if bool_decide (b = a) then buffer ov' k else if bool_decide (b = as_actor x) then None else buffer (overlay_of h b) k.
Proof.
  intros Hp Hs. destruct session_of as [S1 _ _ _ _ _]. destruct (Hw x a sets reads Hx Hadmit) as (Hnew & _).
  assert (T1 : touched s h (h1 ov')).
  { apply (touched_trans s h (admitted_host h a)); [by apply touched_with|].
    apply touched_with; rewrite ?admitted_overlay; [done|rewrite Hp; symmetry; apply Hh|left; apply live_with; by left]. }
  assert (L1 : live (h1 ov') a) by (apply live_with; by left).
  case_bool_decide as Ea.
  - split_and!; [done..|]. intros b k _. rewrite renewed_buffer. case_bool_decide as Eb; [done|].
    rewrite bool_decide_eq_false_2; [done|congruence].
  - destruct (forget_touched (h1 ov') s (as_actor x)) as [T2 B2].
    { intros b. rewrite renewed_buffer. case_bool_decide; [done|apply Hh]. }
    rewrite S1. split_and!; [by eapply touched_trans|by apply T2|]. intros b k Hk. rewrite B2, renewed_buffer.
    rewrite (bool_decide_eq_true_2 (dk_session k = s)), andb_true_r by done.
    destruct (decide (b = a)) as [->|Hb]; [by rewrite (bool_decide_eq_false_2 (a = as_actor x)), bool_decide_eq_true_2 by congruence|].
    by rewrite (bool_decide_eq_false_2 (b = a)) by done.
Qed.

(** The session after them. *)
#[local] Notation x' := (mkSpace (as_folder x) a sets reads).
#[local] Notation se' := (mkSession d' (<[sp := x']> (se_spaces se))).

Lemma renewed_apart sp1 sp2 x1 x2 :
  se_spaces se' !! sp1 = Some x1 → se_spaces se' !! sp2 = Some x2 → as_actor x1 = as_actor x2 → sp1 = sp2.
Proof.
  destruct session_of as [_ _ _ S4 _ _]. destruct (Hw x a sets reads Hx Hadmit) as (_ & Hapart & _).
  cbn [se_spaces]. intros [[<- <-]|[N1 E1]]%lookup_insert_Some [[<- <-]|[N2 E2]]%lookup_insert_Some Ea;
    cbn [as_actor] in Ea; [done|symmetry; by eapply Hapart|by eapply Hapart|by eapply S4].
Qed.

(** The actors of the other spaces are neither the new one nor the old one. *)
Lemma other_space sp' y :
  se_spaces se !! sp' = Some y → sp' ≠ sp → as_actor y ≠ a ∧ as_actor y ≠ as_actor x.
Proof.
  intros E Hn. destruct session_of as [_ _ _ S4 _ _]. destruct (Hw x a sets reads Hx Hadmit) as (_ & Hapart & _).
  split; intros Ea; apply Hn; [by eapply Hapart|by eapply S4].
Qed.

Lemma session_renewed ov' h' :
  mirrors d' sp ov' → touched s h h' →
  (∀ b k, dk_session k = s → buffer (overlay_of h' b) k
     = if bool_decide (b = a) then buffer ov' k else if bool_decide (b = as_actor x) then None else buffer (overlay_of h b) k) →
  session_ok h' s se'.
Proof.
  intros Hm T Hbuf. pose proof session_of as [S1 S2 S3 S4 S5 S6].
  destruct (Hw x a sets reads Hx Hadmit) as (_ & _ & Hkinds & _). split; cbn [se_documents se_spaces].
  - done.
  - by apply documents_ok_replace.
  - intros sp' Hs'. change (ld_source_sets d') with (<[sp := canonical_set <$> sets]> (ld_source_sets d)) in Hs'.
    destruct (decide (sp = sp')) as [<-|Hn]; [rewrite lookup_insert_eq; by eexists|].
    rewrite lookup_insert_ne in Hs' by done. rewrite lookup_insert_ne by done. by apply S3.
  - apply renewed_apart.
  - intros sp' y [[<- <-]|[Hn E]]%lookup_insert_Some Hl.
    + eapply mirrors_same; [|exact Hm]. intros k Hk. rewrite Hbuf by (by rewrite <- S1). cbn [as_actor].
      by rewrite bool_decide_eq_true_2.
    + destruct (other_space sp' y E (not_eq_sym Hn)) as [Hna Hnx].
      eapply mirrors_same; [intros k Hk; rewrite Hbuf by (by rewrite <- S1);
        by rewrite (bool_decide_eq_false_2 (_ = a)), (bool_decide_eq_false_2 (_ = as_actor x)) by done|].
      apply mirrors_replace_other; [done|congruence|]. apply S5; [done|].
      destruct (to_new _ _ _ T _ Hl) as [|Hu]; [done|]. by destruct (Hu s se sp' y).
  - intros b k Hk Hb. rewrite Hbuf in Hb by done. destruct (decide (b = a)) as [->|Hnb].
    { exists sp, x'. by rewrite lookup_insert_eq. }
    rewrite (bool_decide_eq_false_2 (b = a)) in Hb by done. case_bool_decide as Hnx; [by destruct Hb|].
    destruct (S6 b k Hk Hb) as (sp' & y & Hy & Ey). exists sp', y. split; [|done].
    rewrite lookup_insert_ne; [done|]. intros <-. congruence.
Qed.
End renewal.

(** The session before and after [current_actor]: it takes the layouts of the
    new actor when the one it had is gone or lost its roots. *)
Definition switched (h : Host) (w : World) (se se' : Session) (sp : text) : Prop :=
  se' = se
  ∨ is_current h w se sp = false ∧ ∃ x a sets reads,
      se_spaces se !! sp = Some x ∧ w_admit w (as_folder x) = Some (a, sets, reads) ∧ renewed se se' sp sets.

(** [Session::current_actor] keeps the session, or renews the space. *)
Lemma current_actor_spec (h : Host) w s se sp x :
  host_ok h → ho_sessions h !! s = Some se → world_ok h w se sp → se_spaces se !! sp = Some x →
  ∃ h' se' r, current_actor h w s se sp = Some (h', se', r) ∧ touched s h h' ∧ session_ok h' s se' ∧
    match r with
    | Err e => se' = se ∧ h' = h ∧ e = WorkspaceUnavailable ∧ is_current h w se sp = false ∧ w_admit w (as_folder x) = None
    | Ok a => (∃ x', se_spaces se' !! sp = Some x' ∧ as_actor x' = a) ∧ live h' a ∧ switched h w se se' sp
    end.
Proof.
  intros Hh Hse Hw Hx. pose proof (hok_session h Hh _ _ Hse) as Hsame.
  unfold current_actor, switched, is_current. rewrite Hx. destruct (is_some _ && _) eqn:Elive.
  { apply andb_true_iff in Elive as [Elive _]. apply is_some_true in Elive. do 3 eexists. split; [reflexivity|].
    split_and!; [apply touched_refl|done|by exists x|done|by left]. }
  unfold admit_space. destruct (w_admit w (as_folder x)) as [[[a sets] reads]|] eqn:Ew; cbn [fmap option_fmap option_map];
    [|do 3 eexists; split; [reflexivity|]; split_and!; [apply touched_refl|done..]].
  cbn [as_actor as_source_sets as_folder fst snd]. rewrite (admitted_overlay h a).
  destruct (moved_overlay h w s se sp x a sets reads) as (ov' & -> & Hp & Hs & Hm); [done..|]. cbn [mbind option_bind fst snd].
  destruct (renewed_touched h w s se sp x a sets reads Hh Hse Hw Hx Ew ov' Hp Hs) as (T & L & B).
  do 3 eexists. split; [reflexivity|]. split; [exact T|].
  split; [by eapply session_renewed|]. split_and!; [by eexists; cbn; rewrite lookup_insert_eq|exact L|right; split; [done|]].
  exists x, a, sets, reads. split_and!; [done..|]. split; [done|]. by apply (Hw x a sets reads).
Qed.
End service.
