(* ===== verification/EditorSessions.v ===== *)
(** * Notifications and life of the LSP service

    What [UnicaLspHost] ([crates/unica-lsp/src/host.rs]) does to the texts of
    the editor: a notification refines an edit of the open texts, or drops the
    document; the host under sequences of events, with its invariant; and two
    runs where the product does not keep what the theorems ask of it. *)

From Stdlib Require Import ZArith Lia Ascii String.
From stdpp Require Import base countable option numbers list_basics list sorting gmap fin_map_dom.
From S2P Require Import Prelude Redaction RedactionProps AddressKinds ModuleRoutes Address AddressFacts AddressProps.
From S2P Require Import SourceTarget Paths SourceLayout ModuleLayout TextOrder DocumentOverlay Position EditorText.
From S2P Require Import EditorUri EditorDocuments EditorMirror EditorHost EditorService.

Local Open Scope Z_scope.

(** ** The texts of a session *)

(** The open documents as the editor knows them: their versions and texts. *)
Definition texts {ViewError} (se : Session ViewError) : gmap DocumentUri DocumentText :=
  buffer_text <$> ld_open (se_documents se).

(** What a notification asks of the texts, by the edits of the reference. *)
Definition applied (n : V5LspNotification) (document : DocumentUri) (m : gmap DocumentUri DocumentText)
    : option (gmap DocumentUri DocumentText) :=
  match n with
  | DidOpen _ _ version t => Some (<[document := mkDocumentText version t]> m)
  | DidChange _ version changes =>
      current ← m !! document;
      if version <=? dt_version current then None
      else match edits (dt_text current) (content_change <$> changes) with
           | Ok t => Some (<[document := mkDocumentText version t]> m)
           | Err _ => None
           end
  | DidClose _ => Some (delete document m)
  end.

(** What every [String] of a notification is. *)
Definition notification_ok (n : V5LspNotification) : Prop :=
  match n with
  | DidOpen _ _ _ t => is_text t
  | DidChange _ _ changes => Forall change_ok (content_change <$> changes)
  | DidClose _ => True
  end.

Section sessions.
Context `{UriLaws} `{HostFs} {ViewError : Type}.
#[local] Notation Error := (LspDocumentError ViewError).
#[local] Notation resolve := (resolve (ViewError := ViewError)).
#[local] Notation locate := (locate (ViewError := ViewError)).
#[local] Notation documents_ok := (documents_ok (ViewError := ViewError)).
#[local] Notation Host := (Host ViewError).
#[local] Notation Session := (Session ViewError).
#[local] Notation World := (World ViewError).

(** ** Operations on one space *)

Lemma mirrors_other d d' sp ov :
  ld_session d' = ld_session d →
  (∀ document, space document = sp → ld_open d' !! document = ld_open d !! document) →
  mirrors d sp ov → mirrors d' sp ov.
Proof.
  intros Es Ho [Mo Mk]. split.
  - intros document b Hb Hsp. unfold doc_key. rewrite Es. rewrite Ho in Hb by done. by apply (Mo document).
  - intros k Hk Hb. rewrite Es in Hk. destruct (Mk k Hk Hb) as (document & b & Eb & Hsp & ->).
    exists document, b. rewrite Ho by done. unfold doc_key. by rewrite Es.
Qed.

(** A session after its documents of one space changed. *)
Lemma session_changed (h h' : Host) s (se : Session) d' sp x :
  let d := se_documents se in
  session_ok h s se → se_spaces se !! sp = Some x → documents_ok d' →
  ld_session d' = ld_session d → ld_source_sets d' = ld_source_sets d →
  (∀ document, space document ≠ sp → ld_open d' !! document = ld_open d !! document) →
  (∀ a, live h' a → live h a) → (∀ b, b ≠ as_actor x → overlay_of h' b = overlay_of h b) →
  (live h (as_actor x) → mirrors d' sp (overlay_of h' (as_actor x))) →
  session_ok h' s (mkSession d' (se_spaces se)).
Proof.
  intros d [S1 S2 S3 S4 S5 S6] Hx Hd' Es Esets Ho Hl Hov Hm. split; cbn [se_documents se_spaces]; [by rewrite Es|done| |done| |].
  - intros sp'. rewrite Esets. apply S3.
  - intros sp' y Hy Hly. apply Hl in Hly. destruct (decide (sp' = sp)) as [->|Hne].
    { rewrite Hx in Hy. injection Hy as <-. by apply Hm. }
    rewrite Hov by (intros Ea; by apply Hne, (S4 _ _ _ _ Hy Hx)).
    apply (mirrors_other d); [done|intros document Hsp; apply Ho; congruence|by apply S5].
  - intros a k Hk Hb. destruct (decide (a = as_actor x)) as [->|Hne]; [by exists sp, x|].
    rewrite Hov in Hb by done. by apply (S6 a k).
Qed.

(** A location of the documents before a renewal leads to the same place
    after it, or its source set is gone, and the document is not open. *)
Lemma located_again (se se' : Session) sp sets uri location :
  documents_ok (se_documents se) → renewed se se' sp sets →
  locate (se_documents se) uri = Some (Ok location) → space (loc_document location) = sp →
  locate (se_documents se') uri = Some (Ok location)
  ∨ (∃ e, locate (se_documents se') uri = Some (Err e))
    ∧ texts se' !! loc_document location = None.
Proof.
  intros Hd [E Hk] Hl Hsp. destruct (locate_facts _ _ _ Hl) as (R & C & _). unfold texts. rewrite E.
  destruct (locate_located _ _ _ Hl) as (_ & _ & Hp). rewrite locate_resolve.
  change (ld_spaces (replace_source_sets _ _ _)) with (ld_spaces (se_documents se)). rewrite Hp.
  destruct (find_set sets (loc_source_set location)) as [l|] eqn:El.
  { left. apply replace_resolve; [by rewrite ?Hsp|intros _; by eexists|done]. }
  right. split.
  - pose proof R as R2. apply resolve_located in R2 as (_ & module & at_ & route & layout & target & Hs & Hm & _ & _ & _ & _ & Eset & _).
    unfold EditorMirror.resolve, find_source_set, module_of_body. rewrite Hs, Hm, set_layout_replace.
    rewrite bool_decide_eq_true_2, <- Eset, El by done. by eexists.
  - rewrite lookup_fmap. destruct (ld_open _ !! _) as [b|] eqn:Eb; [|done]. exfalso.
    apply (open_replace (ViewError := ViewError)) in Eb as [Eb Hset]; [|done]. destruct (dok_open _ Hd _ _ Eb) as [R' _ _ _].
    assert (ob_location b = location) as Eloc by congruence. rewrite Eloc, El in Hset. by destruct (Hset Hsp).
Qed.

(** An operation on the actor of a space. *)
Lemma operated (h : Host) s (se : Session) sp x m ov' :
  let d' := with_open (se_documents se) m in
  session_ok h s se → ov_poisoned (overlay_of h (as_actor x)) = false →
  se_spaces se !! sp = Some x → live h (as_actor x) →
  (∀ document, space document ≠ sp → m !! document = ld_open (se_documents se) !! document) →
  kept (ViewError := ViewError) (se_documents se) sp (overlay_of h (as_actor x)) d' ov' →
  touched s h (with_overlay h (as_actor x) ov')
  ∧ session_ok (with_overlay h (as_actor x) ov') s (mkSession d' (se_spaces se)).
Proof.
  intros d' Hse Hp Hx Hl Ho [K1 K2 K3 K4]. pose proof Hse as [S1 _ _ _ _ _]. rewrite S1 in K4. split.
  - apply touched_with; [done|congruence|by left].
  - apply (session_changed h _ s se d' sp x); [done..| | |].
    + intros b [->|Hb]%live_with; done.
    + intros b Hb. by rewrite overlay_of_with, bool_decide_eq_false_2.
    + intros _. by rewrite overlay_of_with, bool_decide_eq_true_2.
Qed.

Lemma delete_other (m : gmap DocumentUri OpenBuffer) document document' :
  space document' ≠ space document → delete document m !! document' = m !! document'.
Proof. intros Hne. apply lookup_delete_ne. by intros ->. Qed.
Lemma insert_other (m : gmap DocumentUri OpenBuffer) document document' b :
  space document' ≠ space document → <[document := b]> m !! document' = m !! document'.
Proof. intros Hne. apply lookup_insert_ne. by intros ->. Qed.

(** Closing takes the document from the session, whatever the overlay. *)
Lemma doc_close_documents d ov uri location :
  locate d uri = Some (Ok location) →
  ∃ ov' r, doc_close d ov uri = Some (with_open d (delete (loc_document location) (ld_open d)), ov', r : result _ Error).
Proof.
  intros Hl. unfold doc_close, with_location. rewrite Hl. cbn [mbind option_bind].
  destruct (ld_open d !! loc_document location) as [b|] eqn:Eb.
  - destruct (remove ov _ _ _) as [ov' r]. by do 2 eexists.
  - do 2 eexists. rewrite delete_id by done. by destruct d.
Qed.

(** The documents after it. *)
Definition closed (se : Session) (document : DocumentUri) : Session :=
  mkSession (with_open (se_documents se) (delete document (ld_open (se_documents se)))) (se_spaces se).
Lemma closed_texts se document : texts (closed se document) = delete document (texts se).
Proof. unfold texts, closed. cbn. by rewrite fmap_delete. Qed.

(** [close_quietly] on the live actor of the space. *)
Lemma close_quietly_spec (h : Host) s (se : Session) uri location x :
  session_ok h s se → ov_poisoned (overlay_of h (as_actor x)) = false →
  locate (se_documents se) uri = Some (Ok location) →
  se_spaces se !! space (loc_document location) = Some x → live h (as_actor x) →
  ∃ h', close_quietly (ViewError := ViewError) h se (as_actor x) uri = Some (h', closed se (loc_document location))
    ∧ touched s h h' ∧ session_ok h' s (closed se (loc_document location)).
Proof.
  intros Hse Hp Hl Hx Hlive. pose proof Hse as [_ S2 _ _ S5 _]. unfold close_quietly.
  destruct (doc_close_spec (ViewError := ViewError) (se_documents se) (overlay_of h (as_actor x)) uri location) as (ov' & r & -> & K);
    [done..|by apply S5|].
  cbn [mbind option_bind fst snd]. eexists. split; [reflexivity|].
  apply (operated h s se (space (loc_document location)) x); [done..| |done]. intros document. apply delete_other.
Qed.

(** [close_detached], when the actor of the space is gone. *)
Lemma close_detached_spec (h : Host) s (se : Session) uri location x :
  session_ok h s se → locate (se_documents se) uri = Some (Ok location) →
  se_spaces se !! space (loc_document location) = Some x → ¬ live h (as_actor x) →
  close_detached (ViewError := ViewError) se uri = Some (closed se (loc_document location))
  ∧ session_ok h s (closed se (loc_document location)).
Proof.
  intros Hse Hl Hx Hdead. pose proof Hse as [_ S2 _ _ _ _]. unfold close_detached.
  destruct (doc_close_documents (se_documents se) overlay_default uri location Hl) as (ov' & r & ->).
  split; [done|]. apply (session_changed h h s se _ (space (loc_document location)) x); try done.
  - by apply documents_ok_delete.
  - intros document. apply delete_other.
Qed.

(** ** One notification *)

Lemma with_overlay_same (h : Host) a : live h a → with_overlay h a (overlay_of h a) = h.
Proof.
  intros [ov E]. unfold with_overlay, overlay_of. rewrite E. cbn [default]. rewrite insert_id by done. by destruct h.
Qed.

Lemma texts_lookup (se : Session) document :
  texts se !! document = buffer_text <$> ld_open (se_documents se) !! document.
Proof. apply lookup_fmap. Qed.
Lemma texts_inserted d spaces document location version t :
  texts (mkSession (with_open d (<[document := mkBuffer location (document_new version t)]> (ld_open d))) spaces : Session)
  = <[document := mkDocumentText version t]> (texts (mkSession d spaces : Session)).
Proof. unfold texts. cbn. by rewrite fmap_insert. Qed.

(** What the operation of a notification leaves on a live actor. *)
Definition effect (h : Host) s (se : Session) (x : AdmittedSpace ViewError) n document (done_ : outcome (ViewError := ViewError)) : Prop :=
  let h' := with_overlay h (as_actor x) done_.1.2 in
  let se' := mkSession done_.1.1 (se_spaces se) in
  touched s h h' ∧ session_ok h' s se'
  ∧ match done_.2 with
    | Ok _ => applied n document (texts se) = Some (texts se')
    | Err e =>
        if is_did_close n then applied n document (texts se) = Some (texts se')
        else h' = h ∧ se' = se ∧ applied n document (texts se) = None ∧ refusal e = DocumentUnknown
    end.

Section apply.
Context (h : Host) (s : text) (se : Session) (x : AdmittedSpace ViewError) (location : DocumentLocation).
Hypothesis Hse : session_ok h s se.
Hypothesis Hlock : ov_poisoned (overlay_of h (as_actor x)) = false.
Hypothesis Hx : se_spaces se !! space (loc_document location) = Some x.
Hypothesis Hlive : live h (as_actor x).
#[local] Notation d := (se_documents se).
#[local] Notation ov := (overlay_of h (as_actor x)).

Lemma space_mirrored : documents_ok d ∧ mirrors d (space (loc_document location)) ov.
Proof. destruct Hse as [_ S2 _ _ S5 _]. split; [done|by apply S5]. Qed.

Lemma open_effect uri language version t :
  is_text t → locate d uri = Some (Ok location) →
  ∃ o, doc_open d ov uri version t = Some o ∧ effect h s se x (DidOpen uri language version t) (loc_document location) o.
Proof.
  intros Ht Hl. destruct space_mirrored as [Hd Hm].
  destruct (doc_open_spec (ViewError := ViewError) d ov uri version t location) as (ov' & -> & K); [done..|].
  eexists. split; [reflexivity|]. unfold effect. cbn [fst snd].
  destruct (operated h s se (space (loc_document location)) x _ ov' Hse Hlock Hx Hlive
    (λ document', insert_other _ (loc_document location) document' _) K) as [T S'].
  split_and!; [done..|]. rewrite texts_inserted. by destruct se.
Qed.

Lemma change_effect uri version changes :
  Forall change_ok (content_change <$> changes) → locate d uri = Some (Ok location) →
  ∃ o, doc_change d ov uri version (content_change <$> changes) = Some o
    ∧ effect h s se x (DidChange uri version changes) (loc_document location) o.
Proof.
  intros Hc Hl. destruct space_mirrored as [Hd Hm].
  destruct (doc_change_spec (ViewError := ViewError) d ov uri version _ location Hd Hlock Hc Hl Hm)
    as [(b & t & ov' & Hb & Hv & He & -> & K)|(e & -> & He & Hn)]; (eexists; split; [reflexivity|]); unfold effect; cbn [fst snd applied is_did_close].
  - destruct (operated h s se (space (loc_document location)) x _ ov' Hse Hlock Hx Hlive
      (λ document', insert_other _ (loc_document location) document' _) K) as [T S'].
    split_and!; [done..|]. rewrite texts_lookup, Hb. cbn [fmap option_fmap option_map mbind option_bind buffer_text dt_version dt_text].
    rewrite (proj2 (Z.leb_gt _ _)), He by done. rewrite texts_inserted. by destruct se.
  - rewrite with_overlay_same by done. assert (mkSession d (se_spaces se) = se) as -> by by destruct se.
    split_and!; [apply touched_refl|done..| |].
    + rewrite texts_lookup. destruct (ld_open d !! _) as [b|]; [|done]. cbn.
      destruct (Hn b eq_refl) as [Hle|Herr]; [by rewrite (proj2 (Z.leb_le _ _))|].
      destruct (edits _ _); [done|]. by case_match.
    + destruct e; try done. by destruct (He e).
Qed.

Lemma close_effect uri :
  locate d uri = Some (Ok location) →
  ∃ o, doc_close d ov uri = Some o ∧ effect h s se x (DidClose uri) (loc_document location) o.
Proof.
  intros Hl. destruct space_mirrored as [Hd Hm].
  destruct (doc_close_spec (ViewError := ViewError) d ov uri location) as (ov' & r & -> & K); [done..|].
  eexists. split; [reflexivity|]. unfold effect. cbn [fst snd applied is_did_close].
  destruct (operated h s se (space (loc_document location)) x _ ov' Hse Hlock Hx Hlive
    (λ document', delete_other _ (loc_document location) document') K) as [T S'].
  split_and!; [done..|]. rewrite <- closed_texts. by destruct r.
Qed.

Lemma notification_effect n :
  notification_ok n → locate d (notification_uri n) = Some (Ok location) →
  ∃ o, apply_notification d ov n = Some o ∧ effect h s se x n (loc_document location) o.
Proof.
  destruct n as [uri language version t|uri version changes|uri]; cbn [notification_ok notification_uri apply_notification]; intros Hn Hl.
  - by apply open_effect.
  - by apply change_effect.
  - by apply close_effect.
Qed.
End apply.

(** What becomes of a session and of its editor's texts at a notification. *)
Inductive notified (h : Host) (w : World) (se : Session) (n : V5LspNotification)
    : result unit V5LspFailure → Session → Prop :=
  | nt_foreign e :
      locate (se_documents se) (notification_uri n) = Some (Err e) → notified h w se n (Ok tt) se
  | nt_applied location se1 se' :
      locate (se_documents se) (notification_uri n) = Some (Ok location) →
      switched h w se se1 (space (loc_document location)) →
      applied n (loc_document location) (texts se1) = Some (texts se') →
      notified h w se n (Ok tt) se'
  | nt_refused location se1 se' :
      locate (se_documents se) (notification_uri n) = Some (Ok location) →
      switched h w se se1 (space (loc_document location)) →
      applied n (loc_document location) (texts se1) = None
      ∨ (∃ e, locate (se_documents se1) (notification_uri n) = Some (Err e)) →
      is_did_close n = false → texts se' = delete (loc_document location) (texts se1) →
      notified h w se n (Err DocumentUnknown) se'
  | nt_unavailable location x se' :
      locate (se_documents se) (notification_uri n) = Some (Ok location) →
      se_spaces se !! space (loc_document location) = Some x →
      is_current h w se (space (loc_document location)) = false → w_admit w (as_folder x) = None →
      texts se' = delete (loc_document location) (texts se) →
      notified h w se n (if is_did_close n then Ok tt else Err WorkspaceUnavailable) se'.

(** The space of a location is one of the session. *)
Lemma located_space (h : Host) s (se : Session) uri location :
  session_ok h s se → locate (se_documents se) uri = Some (Ok location) →
  ∃ x, se_spaces se !! space (loc_document location) = Some x.
Proof.
  intros [_ _ S3 _ _ _] Hl. destruct (locate_facts _ _ _ Hl) as (R & _ & _). apply resolve_layout in R as [l El].
  apply S3. unfold set_layout in El. by destruct (ld_source_sets _ !! _).
Qed.

(** A notification whose document has no place changes nothing. *)
Lemma apply_unlocated d ov n e :
  locate d (notification_uri n) = Some (Err e) →
  apply_notification d ov n = Some (d, ov, Err e)
  ∧ doc_close d ov (notification_uri n) = Some (d, ov, Err e)
  ∧ refusal e = DocumentUnknown.
Proof.
  intros Hl. split_and!.
  - destruct n; cbn [apply_notification notification_uri] in *; unfold doc_open, doc_change, doc_close, with_location; by rewrite Hl.
  - unfold doc_close, with_location. by rewrite Hl.
  - rewrite locate_resolve in Hl. destruct (parse_uri _ _) as [document|u]; [|by injection Hl as <-].
    unfold EditorMirror.resolve, module_of_body, find_source_set in Hl.
    destruct (strip_suffix _ _); [|by injection Hl as <-]. destruct (parse _); [|by injection Hl as <-].
    destruct (set_layout _ _ _); [|by injection Hl as <-]. cbn [ok_or] in Hl.
    destruct (module_file _ _) as [[file|]|]; [done| |done]. by injection Hl as <-.
Qed.

(** The notification on the actor that serves the space. *)
Lemma notify_applied (h h1 : Host) w s (se se1 : Session) n location x :
  documents_ok (se_documents se) → notification_ok n →
  locate (se_documents se) (notification_uri n) = Some (Ok location) →
  switched h w se se1 (space (loc_document location)) →
  session_ok h1 s se1 → ov_poisoned (overlay_of h1 (as_actor x)) = false →
  se_spaces se1 !! space (loc_document location) = Some x → live h1 (as_actor x) →
  ∃ h' se' r, notify_actor h1 se1 (as_actor x) n = Some (h', se', r)
    ∧ touched s h1 h' ∧ session_ok h' s se' ∧ notified h w se n r se'.
Proof.
  intros Hd Hn Hl Hsw Hse1 Hp Hx Hlive. unfold notify_actor.
  assert (Hagain : locate (se_documents se1) (notification_uri n) = Some (Ok location)
    ∨ (∃ e, locate (se_documents se1) (notification_uri n) = Some (Err e)) ∧ texts se1 !! loc_document location = None).
  { destruct Hsw as [->|(_ & y & a & sets & reads & _ & _ & Hr)]; [by left|by eapply located_again]. }
  destruct Hagain as [Hl1|[[e Hl1] Hclosed]].
  - destruct (notification_effect h1 s se1 x location Hse1 Hp Hx Hlive n Hn Hl1) as ([[d' ov'] r] & -> & T & S' & Hr).
    cbn [mbind option_bind fst snd] in *. destruct r as [loc|e].
    { do 3 eexists. split; [reflexivity|]. split_and!; [done..|]. by eapply nt_applied. }
    destruct (is_did_close n) eqn:Ec.
    { do 3 eexists. split; [reflexivity|]. split_and!; [done..|]. by eapply nt_applied. }
    destruct Hr as (-> & -> & Ha & ->).
    destruct (close_quietly_spec h1 s se1 (notification_uri n) location x) as (h' & -> & T' & S''); [done..|].
    cbn [mbind option_bind fst snd]. do 3 eexists. split; [reflexivity|]. split_and!; [done..|].
    eapply nt_refused; [done..|by left|done|apply closed_texts].
  - destruct (apply_unlocated (se_documents se1) (overlay_of h1 (as_actor x)) n e Hl1) as (-> & Hquiet & He).
    cbn [mbind option_bind]. rewrite with_overlay_same by done. replace (mkSession _ _) with se1 by by destruct se1.
    destruct (is_did_close n) eqn:Ec.
    { do 3 eexists. split; [reflexivity|]. split_and!; [apply touched_refl|done|]. eapply nt_applied; [done..|].
      destruct n; try done. cbn [applied]. by rewrite delete_id. }
    unfold close_quietly. rewrite Hquiet. cbn [mbind option_bind fst snd].
    rewrite with_overlay_same by done. replace (mkSession _ _) with se1 by by destruct se1. rewrite He.
    do 3 eexists. split; [reflexivity|]. split_and!; [apply touched_refl|done|].
    eapply nt_refused; [done..|right; by eexists|done|by rewrite delete_id].
Qed.

(** The document is dropped when no actor can be had. *)
Lemma notify_unavailable (h : Host) w s (se : Session) n location x :
  session_ok h s se → (∀ a, ov_poisoned (overlay_of h a) = false) →
  locate (se_documents se) (notification_uri n) = Some (Ok location) →
  se_spaces se !! space (loc_document location) = Some x →
  is_current h w se (space (loc_document location)) = false → w_admit w (as_folder x) = None →
  ∃ h' se',
    (closed ← match (if is_some (ho_actors h !! as_actor x) then Some (as_actor x) else None) with
              | Some a => close_quietly (ViewError := ViewError) h se a (notification_uri n)
              | None => (λ se, (h, se)) <$> close_detached (ViewError := ViewError) se (notification_uri n)
              end;
     Some (closed.1, closed.2, if is_did_close n then Ok tt else Err WorkspaceUnavailable))
    = Some (h', se', if is_did_close n then Ok tt else Err WorkspaceUnavailable)
    ∧ touched s h h' ∧ session_ok h' s se'
    ∧ notified h w se n (if is_did_close n then Ok tt else Err WorkspaceUnavailable) se'.
Proof.
  intros Hse Hp Hl Hx Hc Hw. destruct (is_some _) eqn:El.
  - apply is_some_true in El.
    destruct (close_quietly_spec h s se (notification_uri n) location x) as (h' & -> & T & S'); [done..|].
    do 2 eexists. split; [reflexivity|]. split_and!; [done..|].
    by eapply nt_unavailable; [..|apply closed_texts].
  - destruct (close_detached_spec h s se (notification_uri n) location x) as (-> & S'); [done..| |].
    { intros E. apply is_some_true in E. unfold live in E. by rewrite E in El. }
    do 2 eexists. split; [reflexivity|]. split_and!; [apply touched_refl|done|].
    by eapply nt_unavailable; [..|apply closed_texts].
Qed.

Lemma notify_session_spec (h : Host) w s (se : Session) n :
  host_ok h → ho_sessions h !! s = Some se → (∀ sp, world_ok h w se sp) → notification_ok n →
  ∃ h' se' r, notify_session h w s se n = Some (h', se', r)
    ∧ touched s h h' ∧ session_ok h' s se' ∧ notified h w se n r se'.
Proof.
  intros Hh Hs Hw Hn. pose proof (hok_session h Hh _ _ Hs) as Hse. unfold notify_session.
  destruct (locate_total (ViewError := ViewError) (se_documents se) (notification_uri n)) as [[location|e] Hl]; rewrite Hl; cbn [mbind option_bind].
  2: { do 3 eexists. split; [reflexivity|]. split_and!; [apply touched_refl|done|by econstructor]. }
  destruct (located_space h s se _ location Hse Hl) as [x Hx].
  destruct (current_actor_spec h w s se _ x Hh Hs (Hw _) Hx) as (h1 & se1 & r & -> & T & Hse1 & Hr). cbn [mbind option_bind].
  destruct r as [a|e].
  - destruct Hr as ((x1 & Hx1 & <-) & Hlive & Hsw).
    destruct (notify_applied h h1 w s se se1 n location x1) as (h' & se' & r & -> & T' & S' & N'); try done.
    { apply Hse. } { rewrite (to_lock _ _ _ T). apply Hh. }
    exists h', se', r. split_and!; [done|by eapply touched_trans|done..].
  - destruct Hr as (-> & -> & -> & Hc & Ha). rewrite Hx. cbn [mbind option_bind].
    destruct (notify_unavailable h w s se n location x) as (h' & se' & E & T' & S' & N'); [done|apply Hh|done..|].
    exists h', se', (if is_did_close n then Ok tt else Err WorkspaceUnavailable). split_and!; done.
Qed.

Lemma host_notify_spec (h : Host) w s (se : Session) n :
  host_ok h → ho_sessions h !! s = Some se → (∀ sp, world_ok h w se sp) → notification_ok n →
  ∃ h' se' r, host_notify h w s n = Some (with_session h' s se', r)
    ∧ host_ok (with_session h' s se') ∧ touched s h h' ∧ notified h w se n r se'.
Proof.
  intros Hh Hs Hw Hn. unfold host_notify. rewrite Hs.
  destruct (notify_session_spec h w s se n Hh Hs Hw Hn) as (h' & se' & r & -> & T & S' & N').
  cbn [mbind option_bind]. exists h', se', r. split_and!; [done| |done..].
  apply (host_ok_step h s h' se'); done.
Qed.

(** ** Opening a connection *)

(** What the product promises of the folders: an actor that is not alive is a
    new one, and two folders have two actors. *)
Record open_ok (h : Host) (w : World) (s : text) (folders : list V5LspWorkspaceFolder) : Prop := {
  op_session : ho_sessions h !! s = None;
  op_actors : ∀ root x, Some (root, x) ∈ admit_folder w <$> folders → live h (as_actor x) ∨ unnamed h (as_actor x);
  op_apart : ∀ root1 x1 root2 x2, Some (root1, x1) ∈ admit_folder w <$> folders → Some (root2, x2) ∈ admit_folder w <$> folders →
    as_actor x1 = as_actor x2 → root1 = root2 }.

(** The fold of [host_open] over the admitted folders. *)
Lemma admitted_fold (h : Host) s (l : list (option (text * AdmittedSpace ViewError))) :
  (∀ root x, Some (root, x) ∈ l → live h (as_actor x) ∨ unnamed h (as_actor x)) →
  let h' := fold_left (λ h a, match a with Some (_, sp) => admitted_host h (as_actor sp) | None => h end) l h in
  touched s h h' ∧ ∀ a, overlay_of h' a = overlay_of h a.
Proof.
  revert h. induction l as [|[[root x]|] l IH]; intros h Hl; [split; [apply touched_refl|done]| |].
  - cbn [fold_left]. assert (T : touched s h (admitted_host h (as_actor x))).
    { apply touched_with; [done..|]. apply (Hl root). by left. }
    destruct (IH (admitted_host h (as_actor x))) as [T' Ho].
    { intros root' y Hin. destruct (Hl root' y) as [Hy|Hy]; [by right|left; by apply T|by right]. }
    split; [by eapply touched_trans|]. intros a. rewrite Ho. unfold admitted_host. rewrite overlay_of_with.
    case_bool_decide; by subst.
  - cbn [fold_left]. apply IH. intros root' y Hin. apply (Hl root'). by right.
Qed.

Definition named_fold (named : list (option (text * AdmittedSpace ViewError))) (m : gmap text (AdmittedSpace ViewError))
    : gmap text (AdmittedSpace ViewError) :=
  fold_left (λ m n, match n with Some (name, sp) => <[name := sp]> m | None => m end) named m.
Lemma named_fold_lookup named m name x :
  named_fold named m !! name = Some x → m !! name = Some x ∨ Some (name, x) ∈ named.
Proof.
  revert m. induction named as [|[[name' y]|] named IH]; intros m; cbn; [by left| |].
  - intros [Hm|Hin]%IH; [|right; by right]. apply lookup_insert_Some in Hm as [[-> ->]|[_ Hm]]; [right; by left|by left].
  - intros [Hm|Hin]%IH; [by left|right; by right].
Qed.
Lemma named_fold_some named m name :
  is_Some (m !! name) ∨ (∃ x, Some (name, x) ∈ named) → is_Some (named_fold named m !! name).
Proof.
  revert m. induction named as [|[[name' y]|] named IH]; intros m; cbn.
  - intros [Hm|[x Hin]]; [done|by apply not_elem_of_nil in Hin].
  - intros [Hm|[x [[= -> ->]|Hin]%elem_of_cons]]; apply IH; [left|left; by rewrite lookup_insert_eq|right; by exists x].
    destruct (decide (name' = name)) as [->|Hn]; [by rewrite lookup_insert_eq|by rewrite lookup_insert_ne].
  - intros [Hm|[x [?|Hin]%elem_of_cons]]; [apply IH; by left|done|apply IH; right; by exists x].
Qed.

Lemma documents_new_sets s layouts sp :
  is_Some (ld_source_sets (documents_new s layouts) !! sp) →
  ∃ layout, layout ∈ layouts ∧ space_of_root (from_folders (spl_folder <$> layouts)) (f_root (spl_folder layout)) = Some sp.
Proof.
  unfold documents_new. cbn [ld_source_sets]. set (spaces := from_folders _). clearbody spaces.
  enough (Hgen : ∀ m : gmap text (list SourceSetLayout), is_Some (fold_left (λ sets layout,
       match space_of_root spaces (f_root (spl_folder layout)) with
       | Some sp => match sets !! sp with Some _ => sets | None => <[sp := canonical_set <$> spl_source_sets layout]> sets end
       | None => sets end) layouts m !! sp) →
    is_Some (m !! sp) ∨ ∃ layout, layout ∈ layouts ∧ space_of_root spaces (f_root (spl_folder layout)) = Some sp).
  { intros Hs. destruct (Hgen ∅ Hs) as [Hm|Hm]; [rewrite lookup_empty in Hm; by destruct Hm|done]. }
  induction layouts as [|layout layouts IH]; intros m Hs; [by left|]. cbn [fold_left] in Hs.
  apply IH in Hs as [Hm|(l & Hin & E)]; [|right; exists l; split; [by right|done]].
  destruct (space_of_root spaces _) as [sp'|] eqn:Esp; [|by left]. destruct (m !! sp') eqn:Em; [by left|].
  destruct (decide (sp' = sp)) as [->|Hn]; [right; exists layout; split; [by left|done]|left].
  by rewrite lookup_insert_ne in Hm.
Qed.

(** Each layout comes from an admitted folder. *)
Lemma folder_layouts_admitted folders (admitted : list (option (text * AdmittedSpace ViewError))) layout :
  layout ∈ folder_layouts folders admitted → ∃ x, Some (f_root (spl_folder layout), x) ∈ admitted.
Proof.
  unfold folder_layouts. intros ([folder a] & Hin & E)%list_elem_of_omap. cbn in E.
  destruct a as [[root x]|]; [|done]. injection E as <-. exists x. cbn.
  revert admitted Hin. induction folders as [|f folders IH]; intros [|a admitted] Hin; cbn in Hin; try by apply not_elem_of_nil in Hin.
  apply elem_of_cons in Hin as [[= _ <-]|Hin]; [by left|right; by apply IH].
Qed.

(** The session of an opening. *)
Lemma session_opened (h h' : Host) w s folders :
  let admitted := admit_folder w <$> folders in
  let d := documents_new s (folder_layouts folders admitted) in
  let named := named_space d <$> admitted in
  host_ok h → open_ok h w s folders → (∀ a, overlay_of h' a = overlay_of h a) →
  session_ok h' s (mkSession d (named_fold named ∅)).
Proof.
  intros admitted d named Hh [O1 O2 O3] Hov.
  assert (Hfree : ∀ a k, dk_session k = s → ¬ is_Some (buffer (overlay_of h' a) k)).
  { intros a k Hk Hb. rewrite Hov in Hb. apply (hok_closed h Hh) in Hb. rewrite Hk, O1 in Hb. by destruct Hb. }
  assert (Hnamed : ∀ name x, named_fold named ∅ !! name = Some x →
    ∃ root, Some (root, x) ∈ admitted ∧ space_of_root (ld_spaces d) root = Some name).
  { intros name x [E|Hin]%named_fold_lookup; [by rewrite lookup_empty in E|].
    apply list_elem_of_fmap in Hin as ([[root y]|] & E & Hin); [|done]. unfold named_space in E. cbn [mbind option_bind fst snd] in E.
    destruct (space_of_root _ root) as [name'|] eqn:Er; [|done]. injection E as <- <-. by exists root. }
  split; cbn [se_documents se_spaces].
  - done.
  - split; [by eexists|]. intros document b Hb. cbn in Hb. by rewrite lookup_empty in Hb.
  - intros sp (layout & Hin & E)%documents_new_sets. destruct (folder_layouts_admitted _ _ _ Hin) as [x Hx].
    apply named_fold_some. right. exists x. apply list_elem_of_fmap. exists (Some (f_root (spl_folder layout), x)).
    split; [|done]. unfold named_space. cbn [mbind option_bind fst snd].
    change (ld_spaces d) with (from_folders (spl_folder <$> folder_layouts folders admitted)). by rewrite E.
  - intros sp1 sp2 x1 x2 E1 E2 Ea. destruct (Hnamed _ _ E1) as (r1 & I1 & N1), (Hnamed _ _ E2) as (r2 & I2 & N2).
    assert (r1 = r2) as -> by by eapply O3. congruence.
  - intros sp x Hx Hl. split.
    + intros document b Hb. cbn in Hb. by rewrite lookup_empty in Hb.
    + intros k Hk Hb. by destruct (Hfree (as_actor x) k).
  - intros a k Hk Hb. by destruct (Hfree a k).
Qed.

Lemma host_open_ok (h : Host) w s folders :
  host_ok h → open_ok h w s folders → host_ok (host_open h w s folders).1.
Proof.
  intros Hh Ho. destruct (admitted_fold h s (admit_folder w <$> folders)) as [T Hov]; [apply Ho|].
  apply (host_ok_step h s _ _ Hh T). by apply (session_opened h).
Qed.

(** ** Closing one *)

Definition forget_all (h : Host) (s : text) (l : list (text * AdmittedSpace ViewError)) : Host :=
  fold_left (λ h entry, forget_session h s (as_actor entry.2)) l h.

Lemma forget_all_spec (h : Host) s l :
  (∀ a, ov_poisoned (overlay_of h a) = false) →
  touched s h (forget_all h s l)
  ∧ ∀ a k, dk_session k = s → buffer (overlay_of (forget_all h s l) a) k
      = if bool_decide (a ∈ (λ entry, as_actor entry.2) <$> l) then None else buffer (overlay_of h a) k.
Proof.
  revert h. induction l as [|entry l IH]; intros h Hp; [split; [apply touched_refl|done]|].
  destruct (forget_touched h s (as_actor entry.2) Hp) as [T B].
  destruct (IH (forget_session h s (as_actor entry.2))) as [T' B']; [intros a; by rewrite (to_lock _ _ _ T)|].
  split; [by eapply touched_trans|]. intros a k Hk. change (forget_all h s (entry :: l)) with (forget_all (forget_session h s (as_actor entry.2)) s l).
  rewrite B', B, (bool_decide_eq_true_2 (dk_session k = s)), andb_true_r by done. rewrite fmap_cons.
  repeat case_bool_decide; try done; set_solver.
Qed.

Lemma session_ok_live (h h' : Host) s se :
  ho_actors h' = ho_actors h → session_ok h s se → session_ok h' s se.
Proof. intros E [S1 S2 S3 S4 S5 S6]. unfold live, overlay_of in *. split; unfold live, overlay_of; rewrite ?E; done. Qed.

Lemma host_close_ok (h : Host) s : host_ok h → host_ok (host_close h s).
Proof.
  intros Hh. unfold host_close. destruct (ho_sessions h !! s) as [se|] eqn:Es; [|done].
  destruct (hok_session h Hh _ _ Es) as [S1 _ _ _ _ S6]. rewrite S1.
  set (h0 := mkHost (delete s (ho_sessions h)) (ho_actors h)). fold (forget_all h0 s (map_to_list (se_spaces se))).
  assert (Hov : ∀ a, overlay_of h0 a = overlay_of h a) by done.
  destruct (forget_all_spec h0 s (map_to_list (se_spaces se))) as [T B]; [apply Hh|]. split.
  - intros s2 se2 E. rewrite (to_sessions _ _ _ T) in E. cbn in E. pose proof E as E2.
    apply lookup_delete_Some in E2 as [Hne E2]. apply (session_ok_touched s h0); [done..|].
    apply (session_ok_live h); [done|by apply Hh].
  - intros a. rewrite (to_lock _ _ _ T). apply Hh.
  - intros a k Hb. rewrite (to_sessions _ _ _ T). cbn. destruct (decide (dk_session k = s)) as [Hk|Hk].
    + exfalso. rewrite B in Hb by done. case_bool_decide as Hin; [by destruct Hb|].
      destruct (S6 a k Hk Hb) as (sp & x & Hx & <-). apply Hin. apply list_elem_of_fmap. exists (sp, x).
      split; [done|]. by apply elem_of_map_to_list.
    + rewrite (to_buffers _ _ _ T a k Hk), Hov in Hb. rewrite lookup_delete_ne by congruence. by apply (hok_closed h Hh) in Hb.
Qed.

(** An actor that is evicted is gone, with what it held. *)
Definition actor_gone (h : Host) (a : actor) : Host := mkHost (ho_sessions h) (delete a (ho_actors h)).

Lemma gone_overlay (h : Host) a b :
  overlay_of (actor_gone h a) b = if bool_decide (b = a) then overlay_default else overlay_of h b.
Proof.
  unfold overlay_of. cbn. case_bool_decide as E; [subst; by rewrite lookup_delete_eq|by rewrite lookup_delete_ne].
Qed.

Lemma actor_gone_ok (h : Host) a : host_ok h → host_ok (actor_gone h a).
Proof.
  intros [O L C]. assert (Hb : ∀ b k, is_Some (buffer (overlay_of (actor_gone h a) b) k) → b ≠ a ∧ is_Some (buffer (overlay_of h b) k)).
  { intros b k. rewrite gone_overlay. case_bool_decide; [by intros [? ?]|done]. }
  split.
  - intros s se E. destruct (O s se E) as [S1 S2 S3 S4 S5 S6]. split; [done..| |].
    + intros sp x Hx Hl. unfold live in *. cbn in Hl. assert (Hn : as_actor x ≠ a) by (intros E'; rewrite E', lookup_delete_eq in Hl; by destruct Hl).
      rewrite gone_overlay, bool_decide_eq_false_2 by done. apply S5; [done|]. by rewrite lookup_delete_ne in Hl.
    + intros b k Hk [_ Hb']%Hb. by apply (S6 b k).
  - intros b. rewrite gone_overlay. by case_bool_decide.
  - intros b k [_ Hb']%Hb. by eapply C.
Qed.

(** ** Requests *)

(** What a request for the text of a document answers. *)
Lemma document_text_spec (se : Session) uri :
  ∃ r, document_text se uri = Some r ∧
  ∀ location dt, locate (se_documents se) uri = Some (Ok location) → texts se !! loc_document location = Some dt →
    match se_spaces se !! space (loc_document location) with
    | None => r = Err DocumentUnknown
    | Some x => r = match as_reads x (ld_session (se_documents se)) (loc_source_set location) with
                    | Ok _ => Ok (dt_text dt) | Err e => Err e end
    end.
Proof.
  unfold document_text. destruct (locate_total (ViewError := ViewError) (se_documents se) uri) as [[location|e] Hl].
  2: { rewrite Hl. eexists. split; [reflexivity|]. by intros location dt [=]. }
  rewrite Hl. cbn [mbind option_bind].
  destruct (se_spaces se !! space (loc_document location)) as [x|] eqn:Ex.
  2: { eexists. split; [reflexivity|]. intros location' dt [= <-] _. by rewrite Ex. }
  destruct (as_reads x _ _) as [read|e] eqn:Er.
  2: { eexists. split; [reflexivity|]. intros location' dt [= <-] _. by rewrite Ex, Er. }
  unfold content. rewrite Hl. cbn [mbind option_bind]. eexists. split; [reflexivity|].
  intros location' dt [= <-] Ht. rewrite Ex, Er. rewrite texts_lookup in Ht.
  apply fmap_Some in Ht as (b & -> & ->). done.
Qed.

Lemma answer_total (se : Session) c : is_Some (answer se c).
Proof.
  destruct c as [uri position|uri]; [by eexists|]. cbn [answer].
  destruct (document_text_spec se uri) as (r & -> & _). by eexists.
Qed.

(** A request never fails to answer, and only changes who serves a space. *)
Lemma host_call_ok (h : Host) w s c early late :
  host_ok h → (∀ se sp, ho_sessions h !! s = Some se → world_ok h w se sp) →
  ∃ h' o, host_call h w s c early late = Some (h', o) ∧ host_ok h'.
Proof.
  intros Hh Hw. unfold host_call. destruct (ho_sessions h !! s) as [se|] eqn:Es; [|by do 2 eexists].
  destruct early; [by do 2 eexists|]. pose proof (hok_session h Hh _ _ Es) as Hse. unfold space_of.
  destruct (locate_total (ViewError := ViewError) (se_documents se) (call_uri c)) as [r Hl]. rewrite Hl.
  cbn [fmap option_fmap option_map mbind option_bind].
  assert (Hend : ∀ h1 se1 current, touched s h h1 → session_ok h1 s se1 →
    ∃ h' o, match current : result unit V5LspFailure with
      | Ok _ => if late then Some (with_session h1 s se1, OutcomeCancelled)
                else answered ← answer se1 c;
                     Some (with_session h1 s se1, match answered with Ok outcome => outcome | Err failure => OutcomeFailed failure end)
      | Err failure => Some (with_session h1 s se1, OutcomeFailed failure)
      end = Some (h', o) ∧ host_ok h').
  { intros h1 se1 current T S1. pose proof (host_ok_step h s h1 se1 Hh T S1) as Hok.
    destruct current as [u|e]; [|by do 2 eexists]. destruct late; [by do 2 eexists|].
    destruct (answer_total se1 c) as [a ->]. by do 2 eexists. }
  destruct r as [location|e]; cbn [mbind option_bind]; [|apply (Hend h se (Ok tt)); [apply touched_refl|done]].
  destruct (is_current _ _ _ _); [apply (Hend h se (Ok tt)); [apply touched_refl|done]|].
  destruct (located_space h s se _ location Hse Hl) as [x Hx].
  destruct (current_actor_spec h w s se _ x Hh Es (Hw _ _ eq_refl) Hx) as (h1 & se1 & r & -> & T & Hse1 & _).
  cbn [fmap option_fmap option_map mbind option_bind fst snd].
  by apply (Hend h1 se1 (match r with Ok _ => Ok tt | Err e => Err e end)).
Qed.

(** ** The life of the host *)

Definition host_new : Host := mkHost ∅ ∅.

(** What happens to a host, each in the world that the product has then. *)
Inductive host_event :=
  | Opens (w : World) (s : text) (folders : list V5LspWorkspaceFolder)
  | Notifies (w : World) (s : text) (n : V5LspNotification)
  | Calls (w : World) (s : text) (c : V5LspCall) (early late : bool)
  | Closes (s : text)
  | Evicts (a : actor).

(** [None] is a panic. *)
Definition host_after (h : Host) (ev : host_event) : option Host :=
  match ev with
  | Opens w s folders => Some (host_open h w s folders).1
  | Notifies w s n => fst <$> host_notify h w s n
  | Calls w s c early late => fst <$> host_call h w s c early late
  | Closes s => Some (host_close h s)
  | Evicts a => Some (actor_gone h a)
  end.
Fixpoint host_run (evs : list host_event) (h : Host) : option Host :=
  match evs with [] => Some h | ev :: evs => host_after h ev ≫= host_run evs end.

(** What the host takes from the product and does not check: [open_ok] of an
    opening and [world_ok] of the renewals in a notification or a request. *)
Definition promised (h : Host) (ev : host_event) : Prop :=
  match ev with
  | Opens w s folders => open_ok h w s folders
  | Notifies w s n => notification_ok n ∧ ∀ se sp, ho_sessions h !! s = Some se → world_ok h w se sp
  | Calls w s _ _ _ => ∀ se sp, ho_sessions h !! s = Some se → world_ok h w se sp
  | Closes _ | Evicts _ => True
  end.
Fixpoint all_promised (evs : list host_event) (h : Host) : Prop :=
  match evs with
  | [] => True
  | ev :: evs => promised h ev ∧ ∀ h', host_after h ev = Some h' → all_promised evs h'
  end.

Lemma host_new_ok : host_ok host_new.
Proof.
  assert (Hov : ∀ a, overlay_of host_new a = overlay_default) by (intros a; unfold overlay_of; cbn; by rewrite lookup_empty).
  split.
  - intros s se E. cbn in E. by rewrite lookup_empty in E.
  - intros a. by rewrite Hov.
  - intros a k. rewrite Hov. by intros [? ?].
Qed.

Lemma host_after_ok h ev : host_ok h → promised h ev → ∃ h', host_after h ev = Some h' ∧ host_ok h'.
Proof.
  intros Hh. destruct ev as [w s folders|w s n|w s c early late|s|a]; cbn [host_after promised]; intros Hp.
  - eexists. split; [done|]. by apply host_open_ok.
  - destruct Hp as [Hn Hw]. destruct (ho_sessions h !! s) as [se|] eqn:Hs.
    + destruct (host_notify_spec h w s se n Hh Hs (λ sp, Hw se sp eq_refl) Hn) as (h' & se' & r & -> & Hok & _).
      by eexists.
    + unfold host_notify. rewrite Hs. by exists h.
  - destruct (host_call_ok h w s c early late Hh Hp) as (h' & o & -> & Hok). by exists h'.
  - eexists. split; [done|]. by apply host_close_ok.
  - eexists. split; [done|]. by apply actor_gone_ok.
Qed.
Lemma host_run_ok evs h : host_ok h → all_promised evs h → ∃ h', host_run evs h = Some h' ∧ host_ok h'.
Proof.
  revert h. induction evs as [|ev evs IH]; intros h Hh Hp; [by exists h|]. destruct Hp as [Hp Hps].
  destruct (host_after_ok h ev Hh Hp) as (h1 & E & Hh1). cbn [host_run]. rewrite E. cbn [mbind option_bind]. by apply IH; [|apply Hps].
Qed.
Lemma host_served_ok evs h : all_promised evs host_new → host_run evs host_new = Some h → host_ok h.
Proof. intros Hp E. destruct (host_run_ok evs host_new host_new_ok Hp) as (h' & E' & Hh). congruence. Qed.

(** ** What the editor may rely on *)

Lemma host_of_session (h : Host) s (se : Session) : ho_sessions h !! s = Some se → with_session h s se = h.
Proof. intros E. unfold with_session. rewrite insert_id by done. by destruct h. Qed.

Lemma get_buffer ov s set relative dt :
  get ov s set relative = Ok (Some dt) ↔ ov_poisoned ov = false ∧ buffer ov (key s set relative) = Some dt.
Proof.
  unfold get, buffer. destruct (ov_poisoned ov); [split; [done|by intros [? _]]|].
  split; [by intros [= ->]|by intros [_ ->]].
Qed.
End sessions.

(** C18. Every actor holds the editor's texts and nothing else.  Any openings
    and closings of connections, notifications, requests and evictions of
    actors, in any order from a new host, end without a panic, and then: what
    the live actor of a space has for a module file of a session is the text
    of the session's open document there; every buffer of an actor is such a
    document; and two open documents of a space never share a file.  The
    product promises what the host does not check ([promised]): a new session
    has a new name, an admitted actor is alive or new, two folders of one
    connection never have one actor, a source set keeps its kind, and an actor
    that is admitted again keeps its source sets.  Without the third promise a
    document is refused ([shared_actor_refuses]); without the last an actor
    keeps the text of a closed document ([lost_set_keeps_text]). *)
Theorem actors_mirror_editors `{UriLaws} `{HostFs} {ViewError} (evs : list (host_event (ViewError := ViewError))) :
  all_promised evs host_new →
  ∃ h, host_run evs host_new = Some h
  ∧ (∀ s se sp x document b, ho_sessions h !! s = Some se → se_spaces se !! sp = Some x → live h (as_actor x) →
     ld_open (se_documents se) !! document = Some b → space document = sp →
     get (overlay_of h (as_actor x)) s (loc_source_set (ob_location b)) (loc_relative (ob_location b))
     = Ok (Some (buffer_text b)))
  ∧ (∀ a s set relative dt, get (overlay_of h a) s set relative = Ok (Some dt) →
     ∃ se sp x document b, ho_sessions h !! s = Some se ∧ se_spaces se !! sp = Some x ∧ as_actor x = a
       ∧ ld_open (se_documents se) !! document = Some b ∧ space document = sp
       ∧ loc_source_set (ob_location b) = set ∧ components (loc_relative (ob_location b)) = components relative
       ∧ buffer_text b = dt)
  ∧ (∀ s se document1 b1 document2 b2, ho_sessions h !! s = Some se →
     ld_open (se_documents se) !! document1 = Some b1 → ld_open (se_documents se) !! document2 = Some b2 →
     space document1 = space document2 → loc_source_set (ob_location b1) = loc_source_set (ob_location b2) →
     components (loc_relative (ob_location b1)) = components (loc_relative (ob_location b2)) →
     document1 = document2).
Proof.
  intros Hp. destruct (host_run_ok evs host_new host_new_ok Hp) as (h & E & Hh). exists h. split; [done|]. clear Hp E.
  split_and!.
  - intros s se sp x document b Hs Hx Hl Hb Hsp. destruct (hok_session h Hh _ _ Hs) as [S1 _ _ _ S5 _].
    apply get_buffer. split; [apply Hh|]. destruct (S5 sp x Hx Hl) as [Mo _]. rewrite <- S1. by apply (Mo document).
  - intros a s set relative dt [_ Hb]%get_buffer.
    destruct (hok_closed h Hh a _ ltac:(by eexists)) as [se Hs]. cbn in Hs.
    destruct (hok_session h Hh _ _ Hs) as [S1 _ _ _ S5 S6]. destruct (S6 a (key s set relative)) as (sp & x & Hx & Ea); [done|by eexists|].
    assert (Hl : live h (as_actor x)).
    { destruct (decide (live h (as_actor x))) as [|Hn]; [done|]. rewrite <- Ea, dead_empty in Hb by done. done. }
    destruct (S5 sp x Hx Hl) as [Mo Mk]. rewrite Ea in *.
    destruct (Mk (key s set relative)) as (document & b & Hd & Hsp & Ek); [by rewrite S1|by eexists|].
    exists se, sp, x, document, b. rewrite Ek, (Mo document b) in Hb by done. unfold doc_key, key in Ek. split_and!; congruence.
  - intros s se document1 b1 document2 b2 Hs H1' H2' Esp Eset Erel. destruct (hok_session h Hh _ _ Hs) as [_ S2 _ _ _ _].
    destruct (dok_open _ S2 _ _ H1') as [R1 C1 _ _], (dok_open _ S2 _ _ H2') as [R2 C2 _ _].
    eapply doc_key_injective; [exact R1|exact R2|done..|]. unfold doc_key, key. congruence.
Qed.


(** C20. A request for an open document is answered with the editor's text, when
    the space's actor keeps its roots and its reads answer; and the host stays
    as it is.  The host is one that events reach from a new one while the
    product keeps its promises ([promised]). *)
Theorem open_text_answered `{UriLaws} `{HostFs} {ViewError} evs (h : Host ViewError) w s se uri location x dt read :
  all_promised evs host_new → host_run evs host_new = Some h → ho_sessions h !! s = Some se →
  locate (ViewError := ViewError) (se_documents se) uri = Some (Ok location) →
  texts se !! loc_document location = Some dt →
  se_spaces se !! space (loc_document location) = Some x →
  is_current h w se (space (loc_document location)) = true →
  as_reads x s (loc_source_set location) = Ok read →
  host_call h w s (TextDocumentContent uri) false false = Some (h, OutcomeText (dt_text dt)).
Proof.
  intros Hp E0. pose proof (host_served_ok evs h Hp E0) as Hh. intros Hs Hl Ht Hx Hc Hr. destruct (hok_session h Hh _ _ Hs) as [S1 _ _ _ _ _].
  unfold host_call, space_of. rewrite Hs. cbn [call_uri]. rewrite Hl. cbn [fmap option_fmap option_map mbind option_bind].
  rewrite Hc. cbn [mbind option_bind]. rewrite host_of_session by done. cbn [answer].
  destruct (document_text_spec se uri) as (r & -> & Hspec). specialize (Hspec location dt Hl Ht). rewrite Hx, S1, Hr in Hspec.
  subst r. done.
Qed.

(** ** Witnesses *)

#[local] Existing Instance sample_libs.
#[local] Existing Instance sample_laws.
#[local] Instance sample_fs : HostFs := {| canonicalize := Some |}.

(** A folder with one configuration, and an actor that keeps its roots. *)
Definition sample_world : World unit := mkWorld (λ _, true)
  (λ folder, Some (1%positive, [mkSetLayout (lit "main") Configuration (folder ++ lit "/src")],
                   λ _ set, Ok (@mkRead unit set (folder ++ lit "/src") (λ _, Ok None))))
  Some.
(** The same, but nothing more is admitted. *)
Definition closed_world : World unit := mkWorld (λ _, true) (λ _, None) Some.

Definition sample_uri : text := lit "unica://work/main/CommonModule.Main.Body".
Definition sample_opened : Host unit :=
  (host_open host_new sample_world (lit "s") [mkV5Folder (lit "/home/work") (lit "Work")]).1.
Definition sample_open : V5LspNotification := DidOpen sample_uri (lit "bsl") 1 (lit "a").
Definition sample_edited : Host unit :=
  match host_notify sample_opened closed_world (lit "s") sample_open with Some (h, _) => h | None => host_new end.
Definition sample_document : DocumentUri := mkUri (lit "work") (lit "main:CommonModule.Main.Body").
Definition sample_location : DocumentLocation :=
  mkLocation sample_document (lit "main") (lit "CommonModules/Main/Ext/Module.bsl").

(** The session of the host, its space and its document. *)
Definition sample_session (h : Host unit) : Session unit :=
  default (mkSession (documents_new [] []) ∅) (ho_sessions h !! lit "s").
Lemma is_some_default {A} (d : A) (o : option A) : is_some o = true → o = Some (default d o).
Proof. by destruct o. Qed.
Lemma accepted_host (h0 : Host unit) (o : option (Host unit * result unit V5LspFailure)) :
  match o with Some (_, Ok tt) => true | _ => false end = true →
  o = Some (match o with Some (h, _) => h | None => h0 end, Ok tt).
Proof. by destruct o as [[h [[]|]]|]. Qed.

Lemma sample_facts :
  ho_sessions sample_opened !! lit "s" = Some (sample_session sample_opened)
  ∧ host_notify sample_opened closed_world (lit "s") sample_open = Some (sample_edited, Ok tt)
  ∧ ho_sessions sample_edited !! lit "s" = Some (sample_session sample_edited)
  ∧ locate (ViewError := unit) (se_documents (sample_session sample_edited)) sample_uri = Some (Ok sample_location)
  ∧ ld_open (se_documents (sample_session sample_edited)) !! sample_document
    = Some (mkBuffer sample_location (document_new 1 (lit "a")))
  ∧ is_some (ho_actors sample_edited !! 1%positive) = true
  ∧ is_some_and (λ x, bool_decide (as_actor x = 1%positive) && is_ok (as_reads x (lit "s") (lit "main")))
      (se_spaces (sample_session sample_edited) !! lit "work") = true.
Proof.
  split_and!; [apply is_some_default|apply accepted_host|apply is_some_default|..]; vm_compute; reflexivity.
Qed.

Lemma closed_world_ok h se sp : world_ok h closed_world se sp.
Proof. intros x a sets reads _ [=]. Qed.

Definition sample_folders : list V5LspWorkspaceFolder := [mkV5Folder (lit "/home/work") (lit "Work")].
Definition sample_opening : list (host_event (ViewError := unit)) := [Opens sample_world (lit "s") sample_folders].
Definition sample_events : list (host_event (ViewError := unit)) :=
  sample_opening ++ [Notifies closed_world (lit "s") sample_open].

Lemma sample_opening_promised : promised host_new (Opens sample_world (lit "s") sample_folders).
Proof.
  split.
  - reflexivity.
  - intros root x _. right. intros s se sp y E. cbn in E. by rewrite lookup_empty in E.
  - intros root1 x1 root2 x2 I1 I2 _. cbn in I1, I2. apply list_elem_of_singleton in I1, I2. congruence.
Qed.
Lemma sample_open_promised : promised sample_opened (Notifies closed_world (lit "s") sample_open).
Proof. split; [repeat constructor; vm_compute; done|]. intros se sp _. apply closed_world_ok. Qed.

Lemma sample_runs :
  host_run sample_opening host_new = Some sample_opened ∧ host_run sample_events host_new = Some sample_edited.
Proof.
  split; [reflexivity|]. destruct sample_facts as (_ & E & _).
  change (host_run sample_events host_new)
    with (x ← fst <$> host_notify sample_opened closed_world (lit "s") sample_open; Some x). by rewrite E.
Qed.
Lemma sample_promised : all_promised sample_opening host_new ∧ all_promised sample_events host_new.
Proof.
  split; (split; [exact sample_opening_promised|]).
  - intros h' _. exact I.
  - intros h' [= <-]. split; [exact sample_open_promised|]. intros h' _. exact I.
Qed.

(** The facts are all that is used of the two hosts. *)
#[local] Opaque sample_opened sample_edited.

Lemma sample_space :
  ∃ x read, se_spaces (sample_session sample_edited) !! lit "work" = Some x ∧ as_actor x = 1%positive
    ∧ as_reads x (lit "s") (lit "main") = Ok read.
Proof.
  destruct sample_facts as (_ & _ & _ & _ & _ & _ & Ex).
  destruct (se_spaces (sample_session sample_edited) !! lit "work") as [x|] eqn:Hx; [|done]. cbn [is_some_and] in Ex.
  apply andb_true_iff in Ex as [Ea Er]. bool_prop. destruct (as_reads x _ _) as [read|] eqn:Hr; [|done]. exists x, read. by split_and!.
Qed.

Lemma actors_mirror_editors_witness :
  get (overlay_of sample_edited 1%positive) (lit "s") (lit "main") (lit "CommonModules/Main/Ext/Module.bsl")
  = Ok (Some (mkDocumentText 1 (lit "a"))).
Proof.
  destruct sample_facts as (_ & _ & Es & _ & Eb & El & _). destruct sample_space as (x & _ & Hx & Ea & _).
  destruct (actors_mirror_editors sample_events (proj2 sample_promised)) as (h & Eh & Hm & _).
  assert (h = sample_edited) as -> by (destruct sample_runs as [_ Er]; rewrite Er in Eh; by injection Eh).
  assert (Hl : live sample_edited (as_actor x)) by (unfold live; rewrite Ea; by apply is_some_true).
  pose proof (Hm (lit "s") _ (lit "work") x sample_document _ Es Hx Hl Eb eq_refl) as E. rewrite Ea in E. exact E.
Defined.


Lemma open_text_answered_witness :
  host_call sample_edited closed_world (lit "s") (TextDocumentContent sample_uri) false false
  = Some (sample_edited, OutcomeText (lit "a")).
Proof.
  destruct sample_facts as (_ & _ & Es & Hl & Eb & El & _). destruct sample_space as (x & read & Hx & Ea & Hr).
  refine (open_text_answered sample_events sample_edited closed_world (lit "s") (sample_session sample_edited) sample_uri sample_location x
    (mkDocumentText 1 (lit "a")) read (proj2 sample_promised) (proj2 sample_runs) Es Hl _ Hx _ Hr).
  - rewrite texts_lookup. cbn [loc_document sample_location]. rewrite Eb. reflexivity.
  - unfold is_current. cbn [space loc_document sample_location sample_document]. rewrite Hx, Ea.
    apply andb_true_iff. split; [exact El|reflexivity].
Defined.

(** The folder of an editor with a space in its name, and one with a Russian
    name, take spaces that the daemon's lane refuses. *)
Lemma named_folder_refused :
  validate_space (space_name (mkFolder (str "My Project") (str "/work/a"))) = false
  ∧ validate_space (space_name (mkFolder (str "Проект") (str "/work/b"))) = false
  ∧ validate_space (space_name (mkFolder (str "work") (str "/work/c"))) = true.
Proof. vm_compute. split_and!; reflexivity. Qed.

(** Two folders of one actor: the editor's two documents are one file of one
    session there, so the second [didOpen], of an older version, is refused,
    although it has a meaning; without the first one it is accepted. *)
Definition shared_opened : Host unit :=
  (host_open host_new sample_world (lit "s")
     [mkV5Folder (lit "/home/work") (lit "Work"); mkV5Folder (lit "/home/other") (lit "Other")]).1.
Definition shared_uri : text := lit "unica://other/main/CommonModule.Main.Body".
Definition notified_host (h : Host unit) (w : World unit) (n : V5LspNotification) : Host unit :=
  match host_notify h w (lit "s") n with Some (h, _) => h | None => h end.
Definition accepted (h : Host unit) (w : World unit) (n : V5LspNotification) : option bool :=
  is_ok ∘ snd <$> host_notify h w (lit "s") n.
Example shared_actor_refuses :
  accepted shared_opened closed_world (DidOpen sample_uri (lit "bsl") 2 (lit "a")) = Some true
  ∧ accepted (notified_host shared_opened closed_world (DidOpen sample_uri (lit "bsl") 2 (lit "a"))) closed_world
      (DidOpen shared_uri (lit "bsl") 1 (lit "b")) = Some false
  ∧ accepted shared_opened closed_world (DidOpen shared_uri (lit "bsl") 1 (lit "b")) = Some true.
Proof. vm_compute. split_and!; reflexivity. Qed.

(** An actor admitted again without the source set of an open document: the
    session closes the document, and the actor keeps its text. *)
Definition losing_world : World unit := mkWorld (λ _, false)
  (λ folder, Some (1%positive, [], λ _ _, Err Unavailable)) Some.
Example lost_set_keeps_text :
  let h := notified_host sample_edited losing_world (DidChange sample_uri 2 [mkV5Change None (lit "b")]) in
  texts (sample_session h) = ∅
  ∧ is_some (ho_actors h !! 1%positive) = true
  ∧ get (overlay_of h 1%positive) (lit "s") (lit "main") (lit "CommonModules/Main/Ext/Module.bsl")
    = Ok (Some (mkDocumentText 1 (lit "a"))).
Proof. vm_compute. split_and!; reflexivity. Qed.
